(* ===== verification/_CoqProject ===== *)
-Q . S2P
Prelude.v
Transactions.v
Digest.v
Codec.v
Artifacts.v
Contract.v
State.v
Completion.v
Workspace.v
Input.v
ArtifactGraph.v
Obligations.v
Journal.v
Codecs.v
Replay.v
Store.v
StoreTasks.v
Commands.v
Refinement.v
Invariant.v
Guarantees.v
Lifecycle.v
JsonValue.v
Cost.v
Representation.v
Conversation.v
Admission.v
Session.v
Context.v
SessionStore.v
SessionCommands.v
Verification.v
ContractAdmission.v
Queue.v
Submissions.v
Shell.v
Auxiliary.v
SessionSteps.v
SessionGuarantees.v
SessionWitnesses.v
QueueGuarantees.v
QueueWitnesses.v
Media.v
HostQueue.v
EventIntake.v
IntakeGuarantees.v
IntakeHost.v
IntakeWitnesses.v
Secrets.v
MemoryRecords.v
Retrieval.v
MemoryStore.v
MemoryTransfer.v
MemoryGuarantees.v
MemoryRuns.v
MemoryLessons.v
MemoryWitnesses.v
Decoder.v
EventStream.v
Requests.v
Responses.v
InferenceWitnesses.v
JournalPage.v
Capabilities.v
HostTools.v
Monitor.v
MonitorHost.v
MonitorGuarantees.v
MonitorWitnesses.v
FileSystem.v
PlainDisk.v
WorkspaceFiles.v
WorkspaceGuarantees.v
WorkspaceSearch.v
WorkspaceTools.v
WorkspaceWitnesses.v
Projection.v
ProjectionGuarantees.v
