(* ===== verification/Prelude.v ===== *)
(** * Orvek's harness: a verification library

    Orvek drives coding agents. Its harness (crates/harness) accepts a task under a
    contract, keeps what happens to the task and to the conversation around it in
    journals, runs checks against a frozen candidate and calls a task complete only
    when an evaluator certifies it. This library models the part of the harness that
    decides: its state machines, its journals, the commands of the store and the
    computations whose results are recorded. All source paths below are relative to
    src/crates/harness/src/.

    ** The program

    - [Store] (store.rs, store/*.rs) owns one SQLite database and one directory of
      content-addressed artifacts (artifacts.rs). Every change of a task or a session
      is one event appended to a hash-chained journal; the materialized state in the
      table row and the periodic checkpoints are caches of its replay.
    - A task is the fold of [TaskState::apply] (state.rs) over its events. The
      commands of the store load the task, test their guards against it, and append
      the event. [completion.rs] evaluates a task against its contract (contract.rs).
    - A session is the fold of [SessionState::apply] (session.rs) over its commands.
      It carries the history of the conversation, tool calls, interpreter cells, the
      interpreter's checkpoints, completion hooks, children and submissions, and it
      links requests to tasks.
    - Contracts come from proposals compiled by admission.rs; checks run through
      verification.rs, which takes a lease from the store and returns an observation.
    - The model's view of a session is computed by context.rs, with costs from
      inference/protocol.rs and context_cost.rs.

    ** The files

    Foundations.
    - [Prelude]: results and [let?], loops with early return, machine integers,
      ordered maps, record updates, the hint database [orvek].
    - [Digest]: digest.rs. SHA-256 and serde_json are the classes [Sha256] and [Serde].
    - [Codec], [Codecs]: a concrete serializer and a concrete digest function; only the
      witnesses use them, to show that the hypotheses hold.
    - [JsonValue]: serde_json's [Value] with the indexing the source uses.
    - [Transactions]: operations that work through several transactions, each of which
      happens or not, and triples over them; the host's operations are of this form.

    Tasks.
    - [Artifacts] (artifacts.rs), [Contract] (contract.rs), [State] (state.rs),
      [Completion] (completion.rs), [Workspace] (workspace.rs, workspace/reconcile.rs),
      [Input] and [ArtifactGraph] (the bounded walk over what an event refers to).
    - [Journal]: the task tables, [load_state], [append_task_event], the hash chain.
      [Replay]: the journal refines the list of its events.
    - [Store]: one definition per command on a task. [Commands]: the type of commands,
      what each does to the journal, and [reaches]. [Refinement]: each command advances
      the machine of its task. [Invariant]: the invariant of a task in the store.
      [Guarantees], [Lifecycle]: theorems over [reaches].
    - [StoreTasks]: what operations on sessions write of a task; they are commands too.
      [Obligations]: what a follow-up of a contract keeps (admission.rs).
    - [ContractAdmission] (admission.rs, the loading half of input.rs) and
      [Verification] (verification.rs).

    Sessions.
    - [Conversation]: the parts of a session with rules of their own (tool output,
      hooks, interpreter cells, children, submissions, shell jobs, auxiliary turns).
    - [Admission] (admission_profile.rs): harness revisions and bindings.
    - [Session]: the state, [Apply.apply], context transitions.
    - [SessionStore]: rows, chain, checkpoints, [append_session_command].
    - [SessionCommands]: creation, forks, guarded commands, starting and resuming
      tasks, lineage, scoped history, cost.
    - [Queue]: what the queue of a session promises, and that the fold keeps it.
      [Submissions] (store/submissions.rs): admission, edits, moves, status, recovery
      and continuation, and the ways a request starts a task. [Shell] (store/manual.rs)
      and [Auxiliary] (auxiliary.rs, store/auxiliary.rs): the other kinds of turn.
    - [SessionSteps]: [session_operation], all of the above as one relation, and each as
      a sequence of steps of the machine of the journal. [SessionGuarantees] and
      [QueueGuarantees]: theorems over [operated]. [SessionWitnesses], [QueueWitnesses]:
      a run of each.

    The host.
    - [Media] (input.rs, feedback.rs): what a user attaches, stored and read back.
    - [HostQueue] (controller/submissions.rs): what the host does to a queue.
    - [EventIntake] (event_intake.rs, store/event_intake.rs, controller/event_intake.rs):
      sources, deliveries, clocks and the pass that submits events. [IntakeGuarantees]:
      its tables under [intake_step]. [IntakeHost]: the host's operations as operations
      of the sessions and steps of the intake. [IntakeWitnesses]: a run of both.

    - [JournalPage] (store.rs): the journal of tasks and sessions in one sequence, page
      after page, each row verified.
    - [Capabilities] (capabilities.rs) and [HostTools] (capabilities/host.rs): the
      arguments of tools, and reading a file of the host.
    - [FileSystem]: what the file tools ask of the operating system, with other processes
      between the calls. [WorkspaceFiles] (capabilities/files.rs, capabilities.rs): reading,
      writing and searching below a directory. [WorkspaceGuarantees], [WorkspaceSearch] and
      [WorkspaceTools]: their theorems. [PlainDisk] and [WorkspaceWitnesses]: an executable
      disk, and runs on it while another process writes.
    - [Monitor] (monitor.rs, store/monitor.rs): measures, releases and episodes with their
      tables. [MonitorHost] (controller/monitor.rs, monitor/evaluation.rs): what a tick
      reads from the journal and does with an episode, and the evaluation of a candidate.
      [MonitorGuarantees]: theorems over [monitor_reachable]. [MonitorWitnesses]: a
      regression that is found, evaluated and recovered.

    Model views.
    - [Cost] (exact decimal costs and usage), [Representation] (context_cost.rs),
      [Context] (context.rs).

    Calls to a model (inference/).
    - [Requests] (protocol.rs): requests, the identity of their cached prefix, their form
      on the wire and back. [Decoder] (protocol.rs): the events of a response, up to the
      terminal one. [EventStream] (transport.rs): frames out of chunks and messages.
      [Responses] (transport.rs): a call with its attempts, what cuts it short and what
      its outcome says of its cost. [InferenceWitnesses]: a stream and calls over it.

    Memories (crates/memory/src).
    - [Secrets] (secrets.rs): the texts a memory may not hold. [MemoryRecords] (model.rs,
      evidence.rs): records, metadata, their validation and identities. [Retrieval]
      (retrieval.rs): tokens, scores and ranking.
    - [MemoryStore] (store/local.rs): the table, the allocator and the operations;
      [MemoryTransfer]: imports, snapshots and pages. [MemoryGuarantees] and [MemoryRuns]:
      their invariant and the theorems over [memories_reachable].
    - [MemoryLessons] (store/mod.rs, lessons.rs): the interface of stores as a class with
      the local store as instance, complete exports and the lessons of a run, written
      against the interface. [MemoryWitnesses]: a store with two memories.

    The client (src/bin/orvek/src/tui).
    - [Projection] (host_projection.rs, ipc.rs): what a client derives from the frames of
      the host to show for one session. [ProjectionGuarantees]: its theorems.

    ** How state corresponds

    A struct is a record with the fields of the source in their order, an enum an
    inductive type with its variants, each in a module of the type's name. A database
    is a record of finite maps, one per table ([Db], [SessionDb]); the columns that the
    source stores as signed integers or text are so here, and so are the conversions
    that can fail. [BTreeMap] and [BTreeSet] are [gmap] and [gset], iterated in key
    order by [btree_iter]. Strings are byte strings (UTF-8). A function that returns
    [Result] returns [result] with the same errors in the same order; [?] is [let?].
    A method that mutates takes and returns the state. An operation that fails leaves
    the database as it was, as the SQLite transaction around it does; artifacts an
    operation stored before it failed remain in the code and are dropped here, which
    no later read can tell from their absence except by finding them.

    Integers keep their width where the source computes: [u64_succ] wraps, saturating
    and checked operations are written out, [usize] values that count elements in
    memory are [nat] or [N].

    ** What the theorems show

    - Tasks (Lifecycle, Guarantees, Replay, Completion): every command refines the
      guarded machine of one task; in every reachable store every task satisfies the
      invariant; [evaluate] is exactly the specification [certified]; nothing but the
      evaluator completes a task; terminal tasks are frozen, settled facts are final, a
      lease is used once, a stale command is refused, accounting happens once, recovery
      settles every task; the journal agrees with its replay and shows tampering.
    - Sessions (SessionGuarantees): every session the operations lead to loads at every
      revision; retries are idempotent; outcomes come from tasks; fragmented results
      are whole; cursors are immutable; scoped history stays on its branch; lineage
      ends; costs are exact sums.
    - Queues (Queue, QueueGuarantees): the queue lists exactly what waits or runs, within
      the bounds of the session and of the host; a submission is admitted once and never
      lost, its status moves only along the allowed changes; recovery leaves nothing
      running.
    - Intake (IntakeGuarantees, IntakeHost): every event belongs to a registered source
      and keeps what it was recorded with; a repeated delivery is answered with the event
      of the first; a clock reports the latest occurrence, once; what the host does is
      made of operations of both journals; an event is submitted at most once.
    - Monitoring (MonitorGuarantees): a tick reads on in the journal where the last one
      ended; measures are sums of facts, each opportunity counted once; releases load and
      follow one another; at most one episode is open, a tick that succeeds leaves none,
      and a release is promoted only after the cases that were fixed for it passed.
    - Files (WorkspaceGuarantees, WorkspaceSearch, WorkspaceTools): a write changes one entry
      in one call, where the expected content was seen, or nothing outside of its staging
      directory; a read returns a content the file had at one moment; matches are real, and
      complete when no limit is reported; a job that may not write changes nothing.
    - Media (Media): what is prepared loads again; what is materialized was stored.
    - Memories (MemoryRuns, MemoryLessons, Retrieval, Secrets): in every reachable store
      every row loads, identities are distinct, bounds hold and identifiers are not used
      again; a replacement sees what it replaces; what is shown is visible, alive and no
      secret; imports are idempotent; an export is complete and ends; finalizing the
      lessons of a run settles all of them; a ranking is the best of the scored memories.
    - Calls to a model (Decoder, EventStream, Requests, Responses): a response is taken
      over only as it was announced; frames are read alike however the network cuts
      them; a recorded request is rebuilt; generation is attempted once, and what it cost
      is never guessed.
    - The client (ProjectionGuarantees): records that arrive again show nothing again; a
      tool result is shown only as the session recorded it. The projection keeps parts of
      a result that the session forgets when a request is settled, so a later result under
      the same call is not shown ([settled_parts_stay]).
    - Contracts and checks (Contract, ContractAdmission, Verification): validation is
      the well-formedness predicate; a compiled contract keeps the host's terms; a
      verdict of passed is equivalent to what was observed.
    - Data and views (Artifacts, Workspace, Cost, Context, Representation,
      Conversation, Admission, ArtifactGraph): containment of links, pointwise merges,
      round trips, bounds, exact choices, termination of walks.

    ** Fuel

    Few loops of the source are not structural. [Contract.dependency_loop] runs with
    one more round than there are requirements, [walk_loop] with one more than there
    are artifacts below the byte budget's bound, [append_parts] with one more than the
    length of the output; [lineage_loop], [scoped_loop], [pending_loop] and
    [recover_loop] are bounded by the number of sessions; [export_all] runs with 514
    rounds, two more than the memories a store may hold, and [finalize_lessons] with one
    more than it holds. In each case running out is a separate answer ([None]), and a theorem or
    lemma shows that the given fuel never gives it ([dependency_loop_decides],
    [artifact_walk_terminates], [append_terminates], [prompt_cache_lineage_terminates],
    [pending_loop_spec], [recovery_leaves_none_running], [export_all_terminates],
    [finalize_settles_lessons]). The loops over the bytes of a file take a round per byte,
    of which each adds one or is the last, and a search descends as many levels as the
    source allows.

    ** Hypotheses

    - [Sha256] is any function to 32-byte strings. No theorem assumes that it has no
      collisions; where one matters the statement names it as an alternative.
    - [SerdeOk], [StoreSerdeOk], [SessionSerdeOk]: what was serialized is read back as
      the same value, for the types of the journals. Their own fields hold no
      floating-point number and no map whose keys JSON would merge, but items of a history
      are arbitrary JSON: the law is serde_json's for the numbers it reads back as it
      wrote them, integers always, and doubles as far as its parser is exact (the feature
      float_roundtrip is not enabled).
    - [IntakeSerdeOk], [MonitorSerdeOk]: the same for the tables of the intake and of the
      monitor. [FromValue] is serde_json's [from_value] at the types the monitor and the
      tools read.
    - [Host]: the text and the derivation (v5) of UUIDs, and whether a path is a
      directory; operations that read the clock or draw an identifier take it as an
      argument.
    - [Verification.World]: the answers of the sandbox during a check. [Responses.World]:
      those of the network, the credentials and the clock during a call, and where the
      call was cut short. [value_text] is serde_json's text of a value.
    - [HostWorld]: what the operating system answers when a file is read;
      [EvaluationWorld]: that of the reads of an evaluation, and of writing its candidate.
    - [System] and [Posix] (FileSystem): the calls on a disk, and what POSIX documents of
      those that succeed. [well_behaved] adds that other processes leave a staging directory
      alone, whose mode keeps other users out, that a change of a file shows in its
      time of change, and that the number of a removed file is not used again. POSIX
      promises neither of the last two, and the statements that need them say so. [find] is the search of the memchr crate.
    - [Unicode], [Float64] and [MemoryText] (MemoryRecords, Retrieval): the tables of
      Unicode, the arithmetic of doubles and the JSON of metadata. Where a theorem needs
      it, JSON is read back ([MemoryTextOk]), with an owner of 32 bytes at the cost of 32
      bytes, and the total order of doubles is one ([Float64Laws]).
    - [fresh] (Commands): the identifiers the host draws for jobs and shells are new, nobody
      else works under the name of the user's shell or under the request of one that runs,
      and a shell ends under the request it began with.
    - The store is used by one process (owner lock), and a transaction is atomic.

    ** Not modelled

    Of the terminal interface and the application around the harness (bin/orvek), all but
    the projection: rendering, key handling, configuration. The controller's asynchronous
    orchestration, the sandbox runtime and its executor, git and the delivery of patches: they are processes, sockets and files, and what
    they conclude enters the models as the arguments of commands. Of workspace.rs the
    capture and materialization of directories, of artifacts.rs opening the directory,
    of context_render.rs the drawing of pages, of store.rs opening and migrating the
    database. Of the host, the execution of a claimed request: how it ended is an argument
    of [settle_claimed]. Imports, which append session commands under guards of their
    own. Of monitoring, the report for clients, whose query leaves the order of rows
    open, the flags of diagnostics and the timer. Of the tools, definitions and
    running commands. Of calls to a model, URLs, credentials, the count of input tokens
    and how long a call sleeps. Of the memory service, creating and migrating the database file and its page limit, archives in
    directories, the remote client, the server and the tool with its texts.

    Some calls are coarser than in the source: a pass of the intake reads the clock and
    whether the host accepts work once, [write_chunks] appends a chunk in one call (the
    file is private until it is renamed), and [search_directory] takes the listing of a
    directory at one moment. *)

From stdpp Require Export base gmap sets list strings sorting fin_maps.
From Stdlib Require Export NArith ZArith Lia Ascii.


Declare Scope orvek_scope.
Delimit Scope orvek_scope with orvek.
Open Scope orvek_scope.

(** The lemmas that close common goals: reflexivity and composition of the
    relations between states, and the shapes of small results. *)
Create HintDb orvek discriminated.

(** ** Results

    [Result<A, E>] of the source, with [?] as [let?]. *)

Inductive result (A E : Type) : Type :=
| Ok (a : A)
| Err (e : E).
Arguments Ok {A E} _.
Arguments Err {A E} _.

Definition rbind {A B E : Type} (r : result A E) (k : A → result B E) : result B E :=
  match r with Ok a => k a | Err e => Err e end.

Notation "'let?' x ':=' r 'in' k" := (rbind r (λ x, k))
  (at level 10, x binder, r at level 100, k at level 200) : orvek_scope.
Notation "'let?' ' x ':=' r 'in' k" := (rbind r (λ y, match y with x => k end))
  (at level 10, x strict pattern, r at level 100, k at level 200) : orvek_scope.

(** [if c { return Err(e); }] *)
Definition reject_if {E : Type} (c : bool) (e : E) : result unit E :=
  if c then Err e else Ok tt.

(** [Option::ok_or] *)
Definition ok_or {A E : Type} (o : option A) (e : E) : result A E :=
  match o with Some a => Ok a | None => Err e end.

(** [Result::map_err], also the [From] conversion applied by [?]. *)
Definition map_err {A E F : Type} (f : E → F) (r : result A E) : result A F :=
  match r with Ok a => Ok a | Err e => Err (f e) end.

(** [Result::ok] *)
Definition to_option {A E : Type} (r : result A E) : option A :=
  match r with Ok a => Some a | Err _ => None end.

(** A [for] loop whose body may return early with an error. *)
Fixpoint for_each {A S E : Type} (f : S → A → result S E) (s : S) (l : list A) : result S E :=
  match l with
  | [] => Ok s
  | a :: l => let? s := f s a in for_each f s l
  end.

#[global] Instance result_eq_dec {A E} `{EqDecision A, EqDecision E} : EqDecision (result A E).
Proof. solve_decision. Defined.

Section results.
Context {A B E F : Type}.

Lemma rbind_Ok (r : result A E) (k : A → result B E) b :
  rbind r k = Ok b ↔ ∃ a, r = Ok a ∧ k a = Ok b.
Proof. destruct r; naive_solver. Qed.

Lemma reject_if_Ok (c : bool) (e : E) u : reject_if c e = Ok u ↔ c = false.
Proof. destruct u, c; naive_solver. Qed.

Lemma ok_or_Ok (o : option A) (e : E) a : ok_or o e = Ok a ↔ o = Some a.
Proof. destruct o; naive_solver. Qed.

Lemma map_err_Ok (f : E → F) (r : result A E) a : map_err f r = Ok a ↔ r = Ok a.
Proof. destruct r; naive_solver. Qed.

Lemma to_option_Some (r : result A E) a : to_option r = Some a ↔ r = Ok a.
Proof. destruct r; naive_solver. Qed.

End results.

Section loops.
Context {A E : Type}.

(** Loop rule: an invariant of the loop state, carried over the elements. *)
Lemma for_each_inv {S} (I : list A → S → Prop) (f : S → A → result S E) l s s' :
  I [] s →
  (∀ seen a s s', seen ++ [a] `prefix_of` l → I seen s → f s a = Ok s' → I (seen ++ [a]) s') →
  for_each f s l = Ok s' → I l s'.
Proof.
  intros H0 Hstep.
  assert (Hpre : ∀ todo seen s, seen ++ todo = l → I seen s →
    for_each f s todo = Ok s' → I l s').
  { induction todo as [|a todo IH]; intros seen s0 Hl HI; simpl.
    - rewrite app_nil_r in Hl. naive_solver.
    - intros (s1 & Hf & Hrest)%rbind_Ok.
      apply (IH (seen ++ [a]) s1); [by rewrite <-app_assoc| |done].
      apply (Hstep seen a s0); [|done|done]. exists todo. by rewrite <-app_assoc. }
  by apply (Hpre l [] s).
Qed.

Lemma for_each_app {S} (f : S → A → result S E) s l1 l2 :
  for_each f s (l1 ++ l2) = (let? s := for_each f s l1 in for_each f s l2).
Proof. revert s. induction l1 as [|a l1 IH]; intros s; simpl; [done|]. destruct (f s a); simpl; auto. Qed.

(** A loop without carried state is a conjunction over the elements. *)
Lemma for_each_unit_Ok (f : A → result unit E) l u :
  for_each (λ _, f) tt l = Ok u ↔ Forall (λ a, f a = Ok tt) l.
Proof.
  destruct u. induction l as [|a l IH]; simpl; [by split|].
  rewrite Forall_cons, rbind_Ok, <-IH. split.
  - by intros ([] & ? & ?).
  - intros []. by exists tt.
Qed.

(** A loop without carried state fails with the error of its first failing element. *)
Lemma for_each_unit_Err (f : A → result unit E) l e :
  for_each (λ _, f) tt l = Err e ↔
  ∃ l1 a l2, l = l1 ++ a :: l2 ∧ Forall (λ a, f a = Ok tt) l1 ∧ f a = Err e.
Proof.
  induction l as [|a l IH]; simpl.
  - split; [done|]. intros (l1 & a & l2 & Hl & _). by destruct l1.
  - destruct (f a) as [[]|e'] eqn:Ha; simpl.
    + rewrite IH. split.
      * intros (l1 & b & l2 & -> & ? & ?). exists (a :: l1), b, l2. by rewrite Forall_cons.
      * intros (l1 & b & l2 & Hl & Hl1 & Hb). destruct l1 as [|a' l1]; [by simplify_eq/=; congruence|].
        apply Forall_cons in Hl1 as []. simplify_eq/=. by exists l1, b, l2.
    + split.
      * intros [= ->]. by exists [], a, l.
      * intros (l1 & b & l2 & Hl & Hl1 & Hb). destruct l1 as [|a' l1].
        -- simplify_eq/=. congruence.
        -- apply Forall_cons in Hl1 as []. simplify_eq/=. congruence.
Qed.
End loops.

(** Inversion of successful computations: turns a hypothesis [e = Ok _], where
    [e] is built from the combinators above, into the facts its steps give. *)
Ltac invok_step :=
  match goal with
  | H : rbind _ _ = Ok _ |- _ =>
      apply rbind_Ok in H; destruct H as (? & ? & H)
  | H : reject_if _ _ = Ok _ |- _ => apply reject_if_Ok in H
  | H : ok_or _ _ = Ok _ |- _ => apply ok_or_Ok in H
  | H : map_err _ _ = Ok _ |- _ => apply map_err_Ok in H
  | H : Ok _ = Ok _ |- _ => injection H; clear H; intros; subst
  | H : Err _ = Ok _ |- _ => discriminate H
  | H : match ?x with _ => _ end = Ok _ |- _ => destruct x eqn:?
  | x : unit |- _ => destruct x
  end.
Ltac invok := repeat (invok_step; simpl in * ).

(** ** Machine integers

    [u32], [u64] and [usize] values are [N]; the arithmetic the source writes is
    written out at its width. *)

Definition u32_MAX : N := 2 ^ 32 - 1.
Definition u64_MAX : N := 2 ^ 64 - 1.
Definition i64_MAX : N := 2 ^ 63 - 1.

(** [x += 1] on a [u64] (wrapping, as built for release). *)
Definition u64_succ (x : N) : N := ((x + 1) mod 2 ^ 64)%N.
(** [u64::saturating_add], [u32::saturating_add], [u64::saturating_sub] *)
Definition u64_saturating_add (x y : N) : N := N.min (x + y) u64_MAX.
Definition u32_saturating_add (x y : N) : N := N.min (x + y) u32_MAX.
Definition saturating_sub (x y : N) : N := (x - y)%N.
(** [u64::checked_add] *)
Definition u64_checked_add (x y : N) : option N :=
  if (x + y <=? u64_MAX)%N then Some (x + y)%N else None.
(** [i64::try_from(u64)] and [u64::try_from(i64)] *)
Definition i64_try_from (x : N) : option Z :=
  if (x <=? i64_MAX)%N then Some (Z.of_N x) else None.
Definition u64_try_from (x : Z) : option N :=
  if (0 <=? x)%Z then Some (Z.to_N x) else None.

Lemma u64_succ_small x : (x < u64_MAX)%N → u64_succ x = (x + 1)%N.
Proof. unfold u64_succ, u64_MAX. intros. apply N.mod_small. lia. Qed.

Lemma i64_try_from_Some x z : i64_try_from x = Some z ↔ (x ≤ i64_MAX)%N ∧ z = Z.of_N x.
Proof.
  unfold i64_try_from. destruct (N.leb_spec x i64_MAX); split; [naive_solver|..].
  - intros [_ ->]. done.
  - done.
  - lia.
Qed.

Lemma u64_try_from_of_N x : u64_try_from (Z.of_N x) = Some x.
Proof.
  unfold u64_try_from. destruct (Z.leb_spec 0 (Z.of_N x)); [|lia].
  by rewrite N2Z.id.
Qed.
#[export] Hint Resolve u64_succ_small : orvek.

(** Identifiers are 128-bit values with the order of their bytes. *)
Abbreviation Uuid := N (only parsing).

(** ** Strings

    [String], [&str] and [Vec<u8>]/[&[u8]] are Rocq strings, that is sequences of
    8-bit characters: a Rust string is its UTF-8 encoding, so that [len] and
    [as_bytes] agree with the source. *)

Definition str_len (s : string) : N := N.of_nat (String.length s).
Definition str_is_empty (s : string) : bool :=
  match s with EmptyString => true | String _ _ => false end.
Definition str_eqb (s t : string) : bool := bool_decide (s = t).

Definition ascii_between (lo hi : N) (c : ascii) : bool :=
  let n := N_of_ascii c in (lo <=? n)%N && (n <=? hi)%N.
Definition ascii_is (n : N) (c : ascii) : bool := ascii_between n n c.

(** [str::trim().is_empty()]: every character has the Unicode property
    White_Space. The multi-byte cases are the UTF-8 forms of U+0085, U+00A0,
    U+1680, U+2000..U+200A, U+2028, U+2029, U+202F, U+205F and U+3000. *)
Fixpoint trim_is_empty (s : string) : bool :=
  match s with
  | EmptyString => true
  | String a s1 =>
      if ascii_between 9 13 a || ascii_is 32 a then trim_is_empty s1
      else match s1 with
      | EmptyString => false
      | String b s2 =>
          if ascii_is 194 a && (ascii_is 133 b || ascii_is 160 b) then trim_is_empty s2
          else match s2 with
          | EmptyString => false
          | String c s3 =>
              if (ascii_is 225 a && ascii_is 154 b && ascii_is 128 c)
                 || (ascii_is 226 a && ascii_is 128 b
                     && (ascii_between 128 138 c || ascii_is 168 c || ascii_is 169 c
                         || ascii_is 175 c))
                 || (ascii_is 226 a && ascii_is 129 b && ascii_is 159 c)
                 || (ascii_is 227 a && ascii_is 128 b && ascii_is 128 c)
              then trim_is_empty s3 else false
          end
      end
  end.

(** [str::bytes().all(p)] *)
Fixpoint str_forallb (p : ascii → bool) (s : string) : bool :=
  match s with
  | EmptyString => true
  | String c s => p c && str_forallb p s
  end.

(** [str::starts_with] *)
Fixpoint starts_with (s p : string) : bool :=
  match p, s with
  | EmptyString, _ => true
  | String a p, String b s => bool_decide (a = b) && starts_with s p
  | String _ _, EmptyString => false
  end.

(** [str::contains] of a string *)
Fixpoint str_contains (s p : string) : bool :=
  starts_with s p ||
  match s with EmptyString => false | String _ s => str_contains s p end.

Lemma str_app_nil s : EmptyString +:+ s = s.
Proof. done. Qed.
Lemma str_app_cons c s t : String c s +:+ t = String c (s +:+ t).
Proof. done. Qed.
Lemma str_app_assoc (x y z : string) : (x +:+ y) +:+ z = x +:+ (y +:+ z).
Proof. induction x as [|c x IH]; [done|]. by rewrite !str_app_cons, IH. Qed.
Lemma str_length_app s t : String.length (s +:+ t) = String.length s + String.length t.
Proof. induction s as [|c s IH]; [done|]. rewrite str_app_cons. simpl. by rewrite IH. Qed.
Lemma str_forallb_app p s t : str_forallb p (s +:+ t) = str_forallb p s && str_forallb p t.
Proof.
  induction s as [|c s IH]; [done|]. rewrite str_app_cons. simpl. by rewrite IH, andb_assoc.
Qed.
Lemma str_forallb_impl (p q : ascii → bool) s :
  (∀ c, p c = true → q c = true) → str_forallb p s = true → str_forallb q s = true.
Proof. intros H. induction s; simpl; [done|]. rewrite !andb_true_iff. naive_solver. Qed.
Lemma starts_with_app p s : starts_with (p +:+ s) p = true.
Proof.
  induction p as [|c p IH]; [by destruct s|]. rewrite str_app_cons. cbn [starts_with].
  by rewrite bool_decide_true, IH.
Qed.

(** ** Ordered maps and sets

    [BTreeMap] and [BTreeSet] are [gmap] and [gset]; where the source iterates,
    the traversal follows the key order. *)

Class KeyOrder (K : Type) `{EqDecision K} := {
  key_le : relation K;
  #[global] key_le_dec :: RelDecision key_le;
  #[global] key_le_po :: PartialOrder key_le;
  #[global] key_le_total :: Total key_le;
}.

#[global] Program Instance string_key_order : KeyOrder string := {| key_le := String.le |}.
#[global] Program Instance N_key_order : KeyOrder N := {| key_le := N.le |}.
#[global] Program Instance Z_key_order : KeyOrder Z := {| key_le := Z.le |}.

Section btree.
Context `{Countable K} {V : Type} `{!KeyOrder K}.
Implicit Types m : gmap K V.

Definition entry_le (a b : K * V) : Prop := key_le a.1 b.1.
#[local] Instance entry_le_dec : RelDecision entry_le := λ a b, decide (key_le a.1 b.1).

(** [BTreeMap::iter] *)
Definition btree_iter m : list (K * V) := merge_sort entry_le (map_to_list m).
(** [BTreeMap::keys] and [BTreeMap::values] *)
Definition btree_keys m : list K := (btree_iter m).*1.
Definition btree_values m : list V := (btree_iter m).*2.
(** [BTreeSet::iter] *)
Definition bset_iter (s : gset K) : list K := merge_sort key_le (elements s).

(** [values().any(p)]: the order of the traversal does not matter. *)
Definition any_value (p : V → bool) m : bool := existsb p (btree_values m).

Lemma btree_iter_perm m : btree_iter m ≡ₚ map_to_list m.
Proof. apply merge_sort_Permutation. Qed.

Lemma elem_of_btree_iter m k v : (k, v) ∈ btree_iter m ↔ m !! k = Some v.
Proof. rewrite btree_iter_perm. apply elem_of_map_to_list. Qed.

Lemma elem_of_btree_values m v : v ∈ btree_values m ↔ ∃ k, m !! k = Some v.
Proof.
  unfold btree_values. rewrite list_elem_of_fmap. split.
  - intros ([k v'] & -> & Hin). exists k. by apply elem_of_btree_iter.
  - intros [k Hk]. exists (k, v). split; [done|]. by apply elem_of_btree_iter.
Qed.

Lemma elem_of_btree_keys m k : k ∈ btree_keys m ↔ is_Some (m !! k).
Proof.
  unfold btree_keys. rewrite list_elem_of_fmap. split.
  - intros ([k' v] & -> & Hin). exists v. by apply elem_of_btree_iter.
  - intros [v Hk]. exists (k, v). split; [done|]. by apply elem_of_btree_iter.
Qed.

Lemma elem_of_bset_iter (s : gset K) k : k ∈ bset_iter s ↔ k ∈ s.
Proof. unfold bset_iter. by rewrite merge_sort_Permutation, elem_of_elements. Qed.

Lemma NoDup_btree_keys m : NoDup (btree_keys m).
Proof.
  unfold btree_keys. rewrite btree_iter_perm. apply NoDup_fst_map_to_list.
Qed.

Lemma any_value_true p m : any_value p m = true ↔ ∃ k v, m !! k = Some v ∧ p v = true.
Proof.
  unfold any_value. rewrite existsb_exists. split.
  - intros (v & Hv%list_elem_of_In & ?). apply elem_of_btree_values in Hv as [k ?]. eauto.
  - intros (k & v & ? & ?). exists v. rewrite <-list_elem_of_In, elem_of_btree_values. eauto.
Qed.

Lemma any_value_false p m : any_value p m = false ↔ ∀ k v, m !! k = Some v → p v = false.
Proof.
  rewrite <-not_true_iff_false, any_value_true. split.
  - intros Hn k v Hk. destruct (p v) eqn:?; naive_solver.
  - intros Hall (k & v & Hk & ?). by rewrite (Hall k v Hk) in *.
Qed.
End btree.

(** Traversal of a table with consecutive integer keys. *)
Section intervals.
Context {V : Type}.
Implicit Types m : gmap Z V.

Lemma StronglySorted_filter {A} (R : relation A) (P : A → Prop) `{!∀ a, Decision (P a)} l :
  StronglySorted R l → StronglySorted R (base.filter P l).
Proof.
  induction 1 as [|a l Hl IH Ha]; [constructor|]. rewrite filter_cons.
  case_decide; [|done]. constructor; [done|]. apply Forall_forall. intros x [_ Hx]%list_elem_of_filter.
  rewrite Forall_forall in Ha. by apply Ha.
Qed.

Lemma btree_iter_sorted m : StronglySorted Z.le (btree_iter m).*1.
Proof.
  unfold btree_iter. eapply (StronglySorted_fmap fst entry_le).
  - by intros [] [].
  - apply StronglySorted_merge_sort.
    + intros a b c. unfold entry_le. apply Z.le_trans.
    + intros a b. unfold entry_le. destruct (Z.le_ge_cases a.1 b.1); [left|right]; done.
Qed.

Lemma seqZ_sorted a n : StronglySorted Z.le (seqZ a n).
Proof.
  destruct (Z.le_gt_cases n 0) as [Hn|Hn]; [rewrite seqZ_nil by done; constructor|].
  replace n with (Z.of_nat (Z.to_nat n)) by lia. generalize (Z.to_nat n) as k. clear Hn n.
  intros k. revert a. induction k as [|k IH]; intros a; [constructor|].
  rewrite seqZ_cons by lia. replace (Z.pred (Z.of_nat (S k))) with (Z.of_nat k) by lia.
  constructor; [apply IH|]. apply Forall_seqZ. lia.
Qed.

(** The rows after [k], in key order, when the keys are exactly [1..n]. *)
Lemma btree_iter_after m k n :
  (∀ z, is_Some (m !! z) ↔ (1 ≤ z ≤ n)%Z) → (0 ≤ k)%Z →
  (base.filter (λ '(z, _), (k < z)%Z) (btree_iter m)).*1 = seqZ (k + 1) (n - k).
Proof.
  intros Hdom Hk. apply (StronglySorted_unique Z.le).
  - assert (H : ∀ l : list (Z * V), StronglySorted Z.le l.*1 →
      StronglySorted Z.le (base.filter (λ '(z, _), (k < z)%Z) l).*1).
    { induction l as [|[z v] l IH]; [done|]. rewrite fmap_cons, filter_cons. intros Hs.
      apply StronglySorted_inv in Hs as [Hs Hz]. case_decide; [|by apply IH]. rewrite fmap_cons.
      constructor; [by apply IH|]. apply Forall_forall.
      intros x ([z' v'] & -> & [_ Hin]%list_elem_of_filter)%list_elem_of_fmap.
      rewrite Forall_forall in Hz. apply Hz. by apply list_elem_of_fmap_2. }
    apply H, btree_iter_sorted.
  - apply seqZ_sorted.
  - apply NoDup_Permutation; [|apply NoDup_seqZ|].
    + eapply sublist_NoDup; [apply (NoDup_btree_keys m)|]. apply fmap_sublist.
      generalize (btree_iter m) as l. induction l as [|a l IH]; [constructor|].
      rewrite filter_cons. case_decide; by constructor.
    + intros z. rewrite elem_of_seqZ. split.
      * intros ([z' v] & -> & [Hz Hin%elem_of_btree_iter]%list_elem_of_filter)%list_elem_of_fmap.
        assert (1 ≤ z' ≤ n)%Z by (apply Hdom; eauto). simpl. lia.
      * intros Hz. destruct (proj2 (Hdom z)) as [v Hv]; [lia|]. apply list_elem_of_fmap.
        exists (z, v). split; [done|]. apply list_elem_of_filter.
        split; [lia|]. by apply elem_of_btree_iter.
Qed.

(** A key above all others comes last. *)
Lemma btree_iter_keys m : btree_iter m = omap (λ k, pair k <$> m !! k) (btree_iter m).*1.
Proof.
  assert (H : ∀ l, (∀ k v, (k, v) ∈ l → m !! k = Some v) → l = omap (λ k, pair k <$> m !! k) l.*1).
  { induction l as [|[k v] l IH]; intros Hl; [done|]. cbn. rewrite (Hl k v) by left. cbn. f_equal.
    apply IH. intros k' v' Hin. apply Hl. by right. }
  apply H. intros k v. apply elem_of_btree_iter.
Qed.

Lemma btree_iter_insert_last m k x :
  (∀ z, is_Some (m !! z) → (z < k)%Z) → btree_iter (<[k := x]> m) = btree_iter m ++ [(k, x)].
Proof.
  intros Hk. assert (Hnone : m !! k = None).
  { apply eq_None_not_Some. intros Hs. specialize (Hk k Hs). lia. }
  assert (Hkeys : (btree_iter (<[k := x]> m)).*1 = (btree_iter m).*1 ++ [k]).
  { apply (StronglySorted_unique Z.le).
    - apply btree_iter_sorted.
    - apply StronglySorted_app_2; [|apply btree_iter_sorted|repeat constructor].
      intros a b (v & -> & Hin)%list_elem_of_fmap ->%list_elem_of_singleton.
      destruct v as [z v]. apply elem_of_btree_iter in Hin. specialize (Hk z ltac:(eauto)). simpl. lia.
    - rewrite !btree_iter_perm, map_to_list_insert by done. simpl. by rewrite Permutation_cons_append. }
  rewrite (btree_iter_keys (<[k := x]> m)), Hkeys, omap_app. cbn. rewrite lookup_insert_eq. cbn. f_equal.
  rewrite (btree_iter_keys m) at 2.
  assert (H : ∀ l : list Z, k ∉ l → omap (λ z, pair z <$> <[k:=x]> m !! z) l = omap (λ z, pair z <$> m !! z) l).
  { induction l as [|z l IH]; intros Hl; [done|]. apply not_elem_of_cons in Hl as [? Hl]. cbn.
    by rewrite lookup_insert_ne, (IH Hl). }
  apply H. intros ([z v] & -> & Hin%elem_of_btree_iter)%list_elem_of_fmap. simpl in *. congruence.
Qed.

Lemma filter_ext_in {A} (P Q : A → Prop) `{!∀ a, Decision (P a), !∀ a, Decision (Q a)} (l : list A) :
  (∀ a, a ∈ l → P a ↔ Q a) → base.filter P l = base.filter Q l.
Proof.
  induction l as [|a l IH]; intros HPQ; [done|]. rewrite !filter_cons.
  rewrite IH by (intros b Hb; apply HPQ; by right).
  pose proof (HPQ a ltac:(by left)). repeat case_decide; tauto.
Qed.
End intervals.

(** The sum of a measure over the values of a map. *)
Definition map_sum `{Countable K} {V} (f : V → N) (m : gmap K V) : N :=
  map_fold (λ _ v n, f v + n)%N 0%N m.

Section map_sum.
Context `{Countable K} {V : Type} (f : V → N).
Implicit Types m : gmap K V.

Lemma map_sum_empty : map_sum f (∅ : gmap K V) = 0%N.
Proof. apply map_fold_empty. Qed.

Lemma map_sum_insert_new m k v : m !! k = None → map_sum f (<[k:=v]> m) = (f v + map_sum f m)%N.
Proof. intros Hk. unfold map_sum. rewrite (map_fold_insert_L _ _ k v m); [done| |done]. intros. lia. Qed.

(** Replacing a value replaces its contribution. *)
Lemma map_sum_insert m k v :
  (map_sum f (<[k:=v]> m) + from_option f 0 (m !! k) = map_sum f m + f v)%N.
Proof.
  destruct (m !! k) as [w|] eqn:Hk; simpl; [|rewrite map_sum_insert_new by done; lia].
  rewrite <-(insert_id m k w Hk) at 2. rewrite <-!(insert_delete_eq m k).
  rewrite !map_sum_insert_new by apply lookup_delete_eq. lia.
Qed.
End map_sum.

(** The sum of a measure over the elements of a finite set. *)
Definition set_sum `{Countable A} (f : A → N) (X : gset A) : N :=
  foldr (λ x n, f x + n)%N 0%N (elements X).

Section set_sum.
Context `{Countable A} (f : A → N).
Implicit Types X Y : gset A.

Lemma foldr_sum_perm l1 l2 :
  l1 ≡ₚ l2 → foldr (λ x n, f x + n)%N 0%N l1 = foldr (λ x n, f x + n)%N 0%N l2.
Proof. induction 1; simpl; lia. Qed.

Lemma set_sum_empty : set_sum f ∅ = 0%N.
Proof. unfold set_sum. by rewrite elements_empty. Qed.

Lemma set_sum_disj_union X Y : X ## Y → set_sum f (X ∪ Y) = (set_sum f X + set_sum f Y)%N.
Proof.
  intros Hd. unfold set_sum. rewrite (foldr_sum_perm _ _ (elements_disj_union X Y Hd)).
  induction (elements X) as [|x l IH]; simpl; [done|]. rewrite IH. lia.
Qed.

Lemma set_sum_insert x X : x ∉ X → set_sum f ({[x]} ∪ X) = (f x + set_sum f X)%N.
Proof.
  intros Hx. rewrite set_sum_disj_union by set_solver. unfold set_sum at 1.
  rewrite elements_singleton. simpl. lia.
Qed.

Lemma set_sum_mono X Y : X ⊆ Y → (set_sum f X ≤ set_sum f Y)%N.
Proof.
  intros Hs. rewrite (union_difference_L X Y Hs), set_sum_disj_union by set_solver. lia.
Qed.
End set_sum.

(** ** Field assignment

    [x.field = v] on a record value is [x <| field := v |>]. The setter of a
    field is derived from the record's eta expansion, which each record declares
    as an instance of [Eta]. *)

Class Eta (R : Type) := eta : R → R.
Class Setter {R F : Type} (proj : R → F) := put : F → R → R.
Arguments put {R F} proj {_} _ _ / : assert.

Ltac derive_setter proj :=
  lazymatch type of proj with
  | ?R → _ =>
      let body := eval hnf in (@eta R _) in
      lazymatch eval pattern proj in body with
      | ?abs _ =>
          let setter := constr:(λ v s, abs (λ _, v) s) in
          let setter := eval cbv beta in setter in
          exact setter
      end
  end.
#[global] Hint Extern 1 (Setter ?proj) => derive_setter proj : typeclass_instances.

Notation "s '<|' p ':=' v '|>'" := (put p v s)
  (at level 12, left associativity, p at level 8, v at level 200) : orvek_scope.

(** ** Cycles of relations on finite sets *)

Section cycles.
Context `{Countable A} (R : relation A).

Lemma Acc_no_cycle x : Acc (flip R) x → ¬ tc R x x.
Proof.
  induction 1 as [x _ IH]. intros Hx. inversion Hx as [? y Hxy|? y ? Hxy Hyx]; subst.
  - by apply (IH x).
  - apply (IH y Hxy). by eapply tc_r.
Qed.

(** A non-empty finite set in which every element has a successor has a cycle. *)
Lemma finite_set_cycle (X : gset A) :
  X ≠ ∅ → (∀ x, x ∈ X → ∃ y, y ∈ X ∧ R x y) → ∃ x, tc R x x.
Proof.
  intros [x0 Hx0]%set_choose_L Hsucc.
  assert (Hwalk : ∀ n h (l : gset A), size (X ∖ l) ≤ n → h ∈ X → h ∈ l →
    (∀ y, y ∈ l → y = h ∨ tc R y h) → ∃ x, tc R x x).
  { induction n as [|n IH]; intros h l Hsize HhX Hhl Hl;
      destruct (Hsucc h HhX) as (y & HyX & Hhy);
      (destruct (decide (y ∈ l)) as [Hyl|Hyl];
        [exists y; destruct (Hl y Hyl) as [->|?]; [by apply tc_once|by eapply tc_r]|]).
    - apply Nat.le_0_r, size_empty_inv in Hsize. set_solver.
    - apply (IH y ({[y]} ∪ l)); [|done|set_solver|].
      + assert (X ∖ ({[y]} ∪ l) ⊂ X ∖ l) as ?%subset_size by set_solver. lia.
      + intros z [->%elem_of_singleton|Hz]%elem_of_union; [by left|]. right.
        destruct (Hl z Hz) as [->|?]; [by apply tc_once|by eapply tc_r]. }
  apply (Hwalk (size (X ∖ {[x0]})) x0 {[x0]}); [done|done|set_solver|].
  intros y ->%elem_of_singleton. by left.
Qed.
End cycles.

(** Filters that keep nothing or everything. *)
Lemma filter_none_in {A} (P : A → Prop) `{!∀ x, Decision (P x)} (l : list A) :
  (∀ x, x ∈ l → ¬ P x) → base.filter P l = [].
Proof.
  induction l as [|x l IH]; intros Hn; [done|]. rewrite filter_cons_False; [|apply Hn; by left].
  apply IH. intros y Hy. apply Hn. by right.
Qed.

Lemma filter_all {A} (P : A → Prop) `{!∀ x, Decision (P x)} (l : list A) : (∀ x, x ∈ l → P x) → base.filter P l = l.
Proof.
  induction l as [|x l IH]; intros Hall; [done|]. rewrite filter_cons_True by (apply Hall; left).
  f_equal. apply IH. intros y ?. apply Hall. by right.
Qed.
