(* ===== verification/Transactions.v ===== *)
(** * Sequences of transactions

    An operation that works through several transactions of a store: each happens or
    not, and an error does not undo those before it. A triple says what such an operation
    does to a state that satisfies an invariant [good], where every transaction moves the
    state along a preorder [grown] that keeps the invariant. *)

From S2P Require Import Prelude.

Definition Tx (W E A : Type) : Type := W → W * result A E.

Section operations.
Context {W E : Type}.
#[global] Instance tx_ret : MRet (Tx W E) := λ A x w, (w, Ok x).
#[global] Instance tx_bind : MBind (Tx W E) := λ A B k m w,
  match m w with
  | (w, Ok x) => k x w
  | (w, Err e) => (w, Err e)
  end.

(** A query, a transaction, and [match operation.await]. *)
Definition query {A} (f : W → result A E) : Tx W E A := λ w, (w, f w).
Definition transaction {A} (f : W → result (W * A) E) : Tx W E A := λ w,
  match f w with
  | Ok (w, x) => (w, Ok x)
  | Err e => (w, Err e)
  end.
Definition attempt {A} (m : Tx W E A) : Tx W E (result A E) := λ w, let '(w, r) := m w in (w, Ok r).
(** [for x in l { f(x).await?; }] *)
Fixpoint each {A} (f : A → Tx W E unit) (l : list A) : Tx W E unit :=
  match l with
  | [] => mret tt
  | x :: l => f x ≫= λ _, each f l
  end.

Lemma bind_Ok {A B} (m : Tx W E A) (k : A → Tx W E B) w w' y :
  (m ≫= k) w = (w', Ok y) → ∃ w1 x, m w = (w1, Ok x) ∧ k x w1 = (w', Ok y).
Proof. unfold mbind, tx_bind. destruct (m w) as [w1 [x|err]]; [|done]. intros Hk. by exists w1, x. Qed.
Lemma query_Ok {A} (f : W → result A E) w w' x : query f w = (w', Ok x) → w' = w ∧ f w = Ok x.
Proof. by intros [= <- Hf]. Qed.
Lemma transaction_Ok {A} (f : W → result (W * A) E) w w' x : transaction f w = (w', Ok x) → f w = Ok (w', x).
Proof. unfold transaction. destruct (f w) as [[? ?]|]; [|done]. by intros [= -> ->]. Qed.
End operations.

(** ** Triples *)

(** From a good state that satisfies [P], [m] keeps the state, whether it succeeds or not,
    and when it returns [x] the state satisfies [Q x]. *)
Definition triple {W E A} (good : W → Prop) (grown : relation W) (P : W → Prop) (m : Tx W E A) (Q : A → W → Prop) : Prop :=
  ∀ w w' r, good w → P w → m w = (w', r) → grown w w' ∧ ∀ x, r = Ok x → Q x w'.

Class Keeps {W} (good : W → Prop) (grown : relation W) : Prop := keeps w w' : good w → grown w w' → good w'.

Section triples.
Context {W E : Type} {good : W → Prop} {grown : relation W} {PRE : PreOrder grown} {KEEPS : Keeps good grown}.
#[local] Notation triple := (triple (E := E) good grown).
Implicit Types (P : W → Prop).

Lemma triple_ret {A} (x : A) P (Q : A → W → Prop) : (∀ w, P w → Q x w) → triple P (mret x) Q.
Proof. intros HQ w w' r _ HP [= <- <-]. split; [done|]. intros y [= <-]. by apply HQ. Qed.

Lemma triple_bind {A B} P (m : Tx W E A) (k : A → Tx W E B) Q R :
  triple P m Q → (∀ x, triple (Q x) (k x) R) → triple P (m ≫= k) R.
Proof using KEEPS PRE.
  intros Hm Hk w w' r Hg HP. unfold mbind, tx_bind. destruct (m w) as [w1 [x|err]] eqn:Hmw.
  - destruct (Hm _ _ _ Hg HP Hmw) as [Hgr HQ]. intros Hkw.
    destruct (Hk x _ _ _ (keeps _ _ Hg Hgr) (HQ _ eq_refl) Hkw) as [Hgr' HR]. split; [by etrans|done].
  - intros [= <- <-]. destruct (Hm _ _ _ Hg HP Hmw) as [Hgr _]. split; [done|by intros x [=]].
Qed.

(** A run of [m] and what follows it. *)
Lemma triple_run {A B} P (m : Tx W E A) (k : A → Tx W E B) (Q : A → W → Prop) w w' r :
  triple P m Q → good w → P w → (m ≫= k) w = (w', r) →
  (grown w w' ∧ ∃ e, r = Err e) ∨ (∃ w1 x, grown w w1 ∧ Q x w1 ∧ k x w1 = (w', r)).
Proof.
  intros Hm Hg HP. unfold mbind, tx_bind. destruct (m w) as [w1 [x|e]] eqn:Hmw; destruct (Hm _ _ _ Hg HP Hmw) as [Hgr HQ].
  - intros Hk. right. exists w1, x. auto.
  - intros [= <- <-]. left. eauto.
Qed.

Lemma triple_weaken {A} P P' (m : Tx W E A) (Q Q' : A → W → Prop) :
  triple P' m Q' → (∀ w, P w → P' w) → (∀ x w, Q' x w → Q x w) → triple P m Q.
Proof. intros Hm HP HQ w w' r Hg Hw Hmw. destruct (Hm _ _ _ Hg (HP _ Hw) Hmw). split; [done|eauto]. Qed.

Lemma triple_query {A} P (f : W → result A E) Q :
  (∀ w x, good w → P w → f w = Ok x → Q x w) → triple P (query f) Q.
Proof. intros HQ w w' r Hg HP [= <- <-]. split; [done|]. intros x Hx. by apply HQ. Qed.

Lemma triple_query_any {A} P (f : W → result A E) : triple P (query f) (λ _, P).
Proof. by apply triple_query. Qed.

Lemma triple_transaction {A} P (f : W → result (W * A) E) Q :
  (∀ w w' x, good w → P w → f w = Ok (w', x) → grown w w' ∧ Q x w') → triple P (transaction f) Q.
Proof.
  intros Hf w w' r Hg HP. unfold transaction. destruct (f w) as [[w1 x]|err] eqn:Hfw; intros [= <- <-].
  - destruct (Hf _ _ _ Hg HP Hfw). split; [done|]. by intros y [= <-].
  - split; [done|]. by intros y [=].
Qed.

(** A transaction that fails leaves the state as it was. *)
Lemma triple_attempt {A} P (f : W → result (W * A) E) (Q : A → W → Prop) :
  triple P (transaction f) Q →
  triple P (attempt (transaction f)) (λ r w, match r with Ok x => Q x w | Err _ => P w end).
Proof.
  intros Hf w w' r Hg HP. unfold attempt. destruct (transaction f w) as [w1 r1] eqn:Hfw. intros [= <- <-].
  destruct (Hf _ _ _ Hg HP Hfw) as [Hgr HQ]. split; [done|]. intros x [= <-]. destruct r1 as [x|err]; [by apply HQ|].
  unfold transaction in Hfw. destruct (f w) as [[? ?]|]; [done|]. by injection Hfw as <- _.
Qed.

Lemma triple_attempt_any {A} P (m : Tx W E A) (Q : A → W → Prop) :
  triple P m Q → triple P (attempt m) (λ r w, match r with Ok x => Q x w | Err _ => True end).
Proof.
  intros Hm w w' r Hg HP. unfold attempt. destruct (m w) as [w1 r1] eqn:Hmw. intros [= <- <-].
  destruct (Hm _ _ _ Hg HP Hmw) as [Hgr HQ]. split; [done|]. intros x [= <-]. destruct r1; [by apply HQ|done].
Qed.
Lemma triple_attempt_query {A} P (f : W → result A E) : triple P (attempt (query f)) (λ _ w, P w).
Proof. intros w w' r Hg HP [= <- <-]. split; [done|]. by intros x [= <-]. Qed.

Lemma triple_exists {A B} (P : B → W → Prop) (m : Tx W E A) (Q : A → W → Prop) :
  (∀ x, triple (P x) m Q) → triple (λ w, ∃ x, P x w) m Q.
Proof. intros Hm w w' r Hg [x HP]. by apply (Hm x). Qed.

(** What growth keeps is kept. *)
Lemma triple_frame {A} P (m : Tx W E A) (Q : A → W → Prop) (F : W → Prop) :
  (∀ w w', grown w w' → F w → F w') → triple P m Q → triple (λ w, P w ∧ F w) m (λ x w, Q x w ∧ F w).
Proof. intros HF Hm w w' r Hg [HP Hw] Hmw. destruct (Hm _ _ _ Hg HP Hmw) as [Hgr HQ]. split; [done|]. intros x Hx. eauto. Qed.

(** A loop whose elements each establish what the rest of them ask for. *)
Lemma triple_each {A} (P : list A → W → Prop) (f : A → Tx W E unit) l :
  (∀ x l, triple (P (x :: l)) (f x) (λ _, P l)) → triple (P l) (each f l) (λ _, P []).
Proof using KEEPS PRE.
  intros Hf. induction l as [|x l IH]; [by apply triple_ret|]. eapply triple_bind; [apply Hf|intros []; exact IH].
Qed.
End triples.

Lemma triple_coarser {W E A} (good : W → Prop) (grown grown' : relation W) P (m : Tx W E A) (Q : A → W → Prop) :
  (∀ w w', grown w w' → grown' w w') → triple good grown P m Q → triple good grown' P m Q.
Proof. intros Hsub Hm w w' r Hg HP Hmw. destruct (Hm _ _ _ Hg HP Hmw). auto. Qed.
