(* ===== verification/Digest.v ===== *)
(** * Content identities (crates/harness/src/digest.rs)

    The 32-byte [Digest], its hexadecimal text form and the parser of that form;
    [Digest::of] over an abstract SHA-256 and [Digest::of_value] over an abstract
    JSON serializer. The text form is what the store writes in its [hash] and
    [head] columns, so its round trip is part of every journal theorem. *)

From S2P Require Import Prelude.

(** ** Abstract dependencies

    The [sha2] crate: a function on byte strings with a 32-byte result. *)

Definition Digest : Type := dsig (λ s : string, String.length s = 32).

Class Sha256 := Sha256_digest : string → Digest.

(** The [serde_json] crate: [to_vec] and [from_slice] at one type. Only the
    documented round trip of derived implementations is assumed, where a theorem
    needs it, as [SerdeOk]. *)
Class Serde (A : Type) := {
  to_vec : A → option string;
  from_slice : string → option A;
}.
Class SerdeOk (A : Type) `{!Serde A} := {
  from_slice_to_vec (a : A) (b : string) : to_vec a = Some b → from_slice b = Some a;
}.

(** The text of a serialization error, which the source only displays. *)
Class SerdeErrorText := serde_error_text : string.

#[global] Instance Digest_eq_dec : EqDecision Digest := _.
#[global] Instance Digest_countable : Countable Digest := _.

(** [Digest] derives [Ord]: byte-wise lexicographic order of its array. *)
Definition digest_le (a b : Digest) : Prop := String.le (`a) (`b).
#[global] Instance digest_key_order : KeyOrder Digest.
Proof.
  refine {| key_le := digest_le |}.
  - intros a b. unfold digest_le. apply _.
  - split; [split|].
    + intros a. unfold digest_le. reflexivity.
    + intros a b c. unfold digest_le. apply transitivity.
    + intros a b Hab Hba. apply dsig_eq. by apply (anti_symm String.le).
  - intros a b. unfold digest_le. apply (total String.le).
Defined.

(** [Digest::of] *)
Definition digest_of `{!Sha256} (bytes : string) : Digest := Sha256_digest bytes.

(** [Digest::of_value]; [None] is a serialization error. *)
Definition of_value `{!Sha256} {A} `{!Serde A} (value : A) : option Digest :=
  digest_of <$> to_vec value.

(** ** Text form *)

Definition hex_digit (n : N) : ascii :=
  if (n <? 10)%N then ascii_of_N (48 + n) else ascii_of_N (87 + n).

(** [write!(f, "{byte:02x}")] *)
Definition fmt_byte (c : ascii) : string :=
  let n := N_of_ascii c in
  String (hex_digit (n / 16)) (String (hex_digit (n mod 16)) EmptyString).

Fixpoint fmt_bytes (s : string) : string :=
  match s with
  | EmptyString => EmptyString
  | String c s => String.append (fmt_byte c) (fmt_bytes s)
  end.

(** [Display for Digest] *)
Definition digest_to_string (d : Digest) : string := fmt_bytes (`d).

(** [u8::is_ascii_hexdigit] *)
Definition is_ascii_hexdigit (c : ascii) : bool :=
  ascii_between 48 57 c || ascii_between 65 70 c || ascii_between 97 102 c.

(** The value of a digit in radix 16, as [char::to_digit] gives it. *)
Definition hex_value (c : ascii) : option N :=
  let n := N_of_ascii c in
  if ascii_between 48 57 c then Some (n - 48)%N
  else if ascii_between 65 70 c then Some (n - 55)%N
  else if ascii_between 97 102 c then Some (n - 87)%N
  else None.

(** [u8::from_str_radix(s, 16)] on a two-character slice of hexadecimal digits *)
Definition from_str_radix_16 (a b : ascii) : option ascii :=
  match hex_value a, hex_value b with
  | Some x, Some y => Some (ascii_of_N (16 * x + y))
  | _, _ => None
  end.

(** The loop over [value[index * 2..index * 2 + 2]]. *)
Fixpoint parse_pairs (s : string) : option string :=
  match s with
  | EmptyString => Some EmptyString
  | String a (String b s) =>
      c ← from_str_radix_16 a b; rest ← parse_pairs s; Some (String c rest)
  | String _ EmptyString => None
  end.

(** [FromStr for Digest] *)
Definition digest_from_str (value : string) : result Digest string :=
  let? _ := reject_if (negb (str_len value =? 64)%N || negb (str_forallb is_ascii_hexdigit value))
              "digest must contain 64 hexadecimal characters" in
  let? bytes := ok_or (parse_pairs value) "invalid digest" in
  match decide (String.length bytes = 32) with
  | left H => Ok (dexist bytes H)
  | right _ => Err "invalid digest"
  end.

(** [str::to_ascii_lowercase], the canonical spelling of a digest. *)
Definition ascii_lower (c : ascii) : ascii :=
  if ascii_between 65 90 c then ascii_of_N (N_of_ascii c + 32) else c.
Fixpoint str_lower (s : string) : string :=
  match s with EmptyString => EmptyString | String c s => String (ascii_lower c) (str_lower s) end.

(** ** Lemmas *)

Lemma fmt_byte_parse c :
  ∃ a b, fmt_byte c = String a (String b EmptyString) ∧ from_str_radix_16 a b = Some c ∧
    is_ascii_hexdigit a = true ∧ is_ascii_hexdigit b = true.
Proof.
  eexists _, _. split; [reflexivity|].
  destruct c as [[] [] [] [] [] [] [] []]; by repeat split.
Qed.

Lemma fmt_bytes_spec s :
  parse_pairs (fmt_bytes s) = Some s ∧
  str_forallb is_ascii_hexdigit (fmt_bytes s) = true ∧
  String.length (fmt_bytes s) = 2 * String.length s.
Proof.
  induction s as [|c s (IHp & IHh & IHl)]; [done|].
  destruct (fmt_byte_parse c) as (a & b & Hc & Hp & Ha & Hb).
  cbn [fmt_bytes]. rewrite Hc.
  change (String a (String b "") +:+ fmt_bytes s) with (String a (String b (fmt_bytes s))).
  cbn [parse_pairs str_forallb].
  rewrite Hp. simpl. rewrite IHp, Ha, Hb, IHh. repeat split. cbn [String.length]. lia.
Qed.

Lemma hex_pair_lower a b c :
  is_ascii_hexdigit a = true → is_ascii_hexdigit b = true → from_str_radix_16 a b = Some c →
  fmt_byte c = String (ascii_lower a) (String (ascii_lower b) EmptyString).
Proof.
  assert (Hone : ∀ x, is_ascii_hexdigit x = true → ∃ n, hex_value x = Some n ∧ (n < 16)%N ∧
    hex_digit n = ascii_lower x).
  { intros x Hx. destruct x as [[] [] [] [] [] [] [] []]; try discriminate Hx;
      eexists; (split; [reflexivity|]; split; [reflexivity|reflexivity]). }
  intros (x & Hx & Hxlt & Hxd)%Hone (y & Hy & Hylt & Hyd)%Hone.
  unfold from_str_radix_16. rewrite Hx, Hy. intros [= <-]. unfold fmt_byte.
  rewrite N_ascii_embedding by lia.
  assert ((16 * x + y) / 16 = x)%N as -> by (symmetry; apply (N.div_unique _ 16 x y); lia).
  assert ((16 * x + y) mod 16 = y)%N as -> by (symmetry; apply (N.mod_unique _ 16 x y); lia).
  by rewrite Hxd, Hyd.
Qed.

Lemma hexdigit_value a b :
  is_ascii_hexdigit a = true → is_ascii_hexdigit b = true → is_Some (from_str_radix_16 a b).
Proof.
  assert (Hone : ∀ x, is_ascii_hexdigit x = true → is_Some (hex_value x)).
  { intros x Hx. destruct x as [[] [] [] [] [] [] [] []]; try discriminate Hx; by eexists. }
  intros [x Hx]%Hone [y Hy]%Hone. unfold from_str_radix_16. rewrite Hx, Hy. by eexists.
Qed.

Lemma string_pair_ind (P : string → Prop) :
  P EmptyString → (∀ a, P (String a EmptyString)) →
  (∀ a b s, P s → P (String a (String b s))) → ∀ s, P s.
Proof.
  intros H0 H1 H2. fix IH 1. intros [|a [|b s]]; [done|done|]. apply H2, IH.
Qed.

Lemma parse_pairs_hex s n :
  String.length s = 2 * n → str_forallb is_ascii_hexdigit s = true →
  ∃ t, parse_pairs s = Some t ∧ String.length t = n ∧ fmt_bytes t = str_lower s.
Proof.
  revert n. induction s as [|a|a b s IH] using string_pair_ind; intros n Hlen Hhex.
  - exists EmptyString. repeat split. simpl in *. lia.
  - simpl in Hlen. lia.
  - simpl in Hlen, Hhex. apply andb_prop in Hhex as [Ha [Hb Hs]%andb_prop].
    destruct (IH (n - 1)) as (t & Ht & Hlt & Hft); [lia|done|].
    destruct (hexdigit_value a b) as [c Hc]; [done|done|].
    exists (String c t). cbn [parse_pairs]. rewrite Hc. simpl. rewrite Ht. split; [done|].
    split; [simpl; lia|]. cbn [fmt_bytes str_lower].
    rewrite (hex_pair_lower a b c), <-Hft by done. reflexivity.
Qed.

Lemma str_len_eqb s n : (str_len s =? N.of_nat n)%N = bool_decide (String.length s = n).
Proof. unfold str_len. case_bool_decide; [apply N.eqb_eq|apply N.eqb_neq]; lia. Qed.

(** Parsing the text of a digest gives the digest back: what the store reads
    from a [head] or [hash] column is what it wrote. *)
Lemma digest_from_to_string (d : Digest) : digest_from_str (digest_to_string d) = Ok d.
Proof.
  unfold digest_from_str, digest_to_string.
  destruct (fmt_bytes_spec (`d)) as (Hp & Hh & Hl). destruct d as [s Hs]. simpl in *.
  pose proof (proj1 (bool_decide_spec _) Hs) as Hlen.
  rewrite (str_len_eqb _ 64), Hl, Hlen, Hh, Hp. simpl.
  destruct (decide _) as [He|He]; [|done]. f_equal. by apply dsig_eq.
Qed.

Lemma digest_to_string_inj d1 d2 : digest_to_string d1 = digest_to_string d2 → d1 = d2.
Proof.
  intros H. pose proof (digest_from_to_string d1) as H1. rewrite H, digest_from_to_string in H1.
  by injection H1.
Qed.
#[global] Instance digest_to_string_Inj : Inj (=) (=) digest_to_string.
Proof. intros a b. apply digest_to_string_inj. Qed.

(** ** Properties *)

(** The text of a digest parses back to the digest, and the parser accepts
    exactly the strings of 64 hexadecimal digits, upper case included, as the
    digest whose canonical text is their lower-case spelling. *)
Theorem digest_text_roundtrip (d : Digest) (value : string) :
  digest_from_str (digest_to_string d) = Ok d ∧
  (digest_from_str value = Ok d ↔
   String.length value = 64 ∧ str_forallb is_ascii_hexdigit value = true ∧
   digest_to_string d = str_lower value).
Proof.
  split; [apply digest_from_to_string|]. unfold digest_from_str. rewrite (str_len_eqb _ 64). split.
  - intros ([] & [Hl%negb_false_iff%bool_decide_eq_true Hh%negb_false_iff]%reject_if_Ok%orb_false_iff & H)%rbind_Ok.
    destruct (parse_pairs_hex value 32) as (t & Ht & Hlt & Hft); [lia|done|].
    rewrite Ht in H. simpl in H. destruct (decide _) as [Hd|]; [|done]. injection H as <-. done.
  - intros (Hl & Hh & Hd). rewrite bool_decide_true, Hh by done. simpl.
    destruct (parse_pairs_hex value 32) as (t & -> & Hlt & Hft); [lia|done|]. simpl.
    destruct (decide _) as [Hd'|]; [|done]. f_equal.
    apply digest_to_string_inj. unfold digest_to_string at 1. simpl. congruence.
Qed.
