(* ===== verification/Codec.v ===== *)
(** * A concrete serializer

    The theorems about the journal are stated for every JSON serializer with the
    round trip of [serde_json] ([SerdeOk]). This file builds one such serializer
    for every type the journal holds, by prefix codes: the theorems' witnesses
    are evaluated on it, which shows that the hypothesis can be met. Nothing else
    depends on it. *)

From Stdlib Require Import String.
From S2P Require Import Prelude Digest.

#[local] Obligation Tactic := idtac.

(** [enc a rest] is the encoding of [a] followed by [rest]; [dec] undoes it and
    returns [rest]. *)
Class Codec (A : Type) := {
  enc : A → string → string;
  dec : string → option (A * string);
  dec_enc (a : A) (rest : string) : dec (enc a rest) = Some (a, rest);
}.

Definition codec_to_vec {A} `{!Codec A} (a : A) : option string := Some (enc a "").
Definition codec_from_slice {A} `{!Codec A} (s : string) : option A :=
  match dec s with Some (a, EmptyString) => Some a | _ => None end.

#[global] Instance codec_serde {A} `{!Codec A} : Serde A | 100 :=
  {| to_vec := codec_to_vec; from_slice := codec_from_slice |}.
#[global] Instance codec_serde_ok {A} `{!Codec A} : SerdeOk A | 100.
Proof. split. intros a b [= <-]. simpl. unfold codec_from_slice. by rewrite dec_enc. Qed.

(** Transport along an embedding, for records and enumerations. *)
#[program] Definition codec_via {A B} `{!Codec B} (to : A → B) (from : B → option A)
    (Hfrom : ∀ a, from (to a) = Some a) : Codec A :=
  {| enc a r := enc (to a) r;
     dec s := '(b, r) ← dec s; a ← from b; Some (a, r) |}.
Next Obligation. intros. simpl. rewrite dec_enc. simpl. by rewrite Hfrom. Qed.

#[global, program] Instance codec_unit : Codec unit :=
  {| enc _ r := r; dec s := Some (tt, s) |}.
Next Obligation. by intros []. Qed.

#[global, program] Instance codec_ascii : Codec ascii :=
  {| enc c r := String c r;
     dec s := match s with String c r => Some (c, r) | EmptyString => None end |}.
Next Obligation. done. Qed.

Definition bool_ascii (b : bool) : ascii := if b then "1"%char else "0"%char.
#[global, program] Instance codec_bool : Codec bool :=
  {| enc b r := String (bool_ascii b) r;
     dec s := match s with
              | String c r => Some (bool_decide (c = "1"%char), r)
              | EmptyString => None
              end |}.
Next Obligation. by intros [] r. Qed.

#[global, program] Instance codec_prod {A B} `{!Codec A, !Codec B} : Codec (A * B) :=
  {| enc p r := enc p.1 (enc p.2 r);
     dec s := '(a, s) ← dec s; '(b, s) ← dec s; Some ((a, b), s) |}.
Next Obligation. intros A B ?? [a b] r. simpl. rewrite dec_enc. simpl. by rewrite dec_enc. Qed.

#[global, program] Instance codec_option {A} `{!Codec A} : Codec (option A) :=
  {| enc o r := match o with None => enc false r | Some a => enc true (enc a r) end;
     dec s := '(b, s) ← dec s;
              if (b : bool) then '(a, s) ← dec s; Some (Some a, s) else Some (None, s) |}.
Next Obligation. intros A ? [a|] r; simpl; [|done]. by rewrite dec_enc. Qed.

Fixpoint enc_pos (p : positive) (r : string) : string :=
  match p with
  | xH => String "."%char r
  | xO p => String "0"%char (enc_pos p r)
  | xI p => String "1"%char (enc_pos p r)
  end.
Fixpoint dec_pos (s : string) : option (positive * string) :=
  match s with
  | EmptyString => None
  | String c s =>
      if bool_decide (c = "."%char) then Some (xH, s)
      else '(p, r) ← dec_pos s;
           Some (if bool_decide (c = "1"%char) then xI p else xO p, r)
  end.
#[global, program] Instance codec_positive : Codec positive := {| enc := enc_pos; dec := dec_pos |}.
Next Obligation. intros p. induction p as [p IH|p IH|]; intros r; simpl; [by rewrite IH..|done]. Qed.

#[global] Instance codec_N : Codec N.
Proof.
  refine (codec_via (λ n, match n with N0 => None | Npos p => Some p end)
    (λ o, Some match o with None => N0 | Some p => Npos p end) _).
  abstract (by intros []).
Defined.
#[global] Instance codec_Z : Codec Z.
Proof.
  refine (codec_via (λ z, ((z <? 0)%Z, Z.abs_N z))
    (λ '(b, n), Some (if (b : bool) then (- Z.of_N n)%Z else Z.of_N n)) _).
  abstract (intros z; destruct (Z.ltb_spec z 0); f_equal; lia).
Defined.

Fixpoint enc_seq {A} `{!Codec A} (l : list A) (r : string) : string :=
  match l with [] => r | a :: l => enc a (enc_seq l r) end.
Fixpoint dec_seq {A} `{!Codec A} (n : nat) (s : string) : option (list A * string) :=
  match n with
  | O => Some ([], s)
  | S n => '(a, s) ← dec s; '(l, s) ← dec_seq n s; Some (a :: l, s)
  end.
#[global, program] Instance codec_list {A} `{!Codec A} : Codec (list A) :=
  {| enc l r := enc (N.of_nat (length l)) (enc_seq l r);
     dec s := '(n, s) ← dec s; dec_seq (N.to_nat n) s |}.
Next Obligation.
  intros A ? l r. cbv beta. rewrite dec_enc. simpl. rewrite Nat2N.id.
  induction l as [|a l IH]; simpl; [done|]. rewrite dec_enc. simpl. by rewrite IH.
Qed.

#[global] Instance codec_string : Codec string.
Proof.
  refine (codec_via (B:=list ascii) list_ascii_of_string (λ l, Some (string_of_list_ascii l)) _).
  abstract (intros s; f_equal; apply string_of_list_ascii_of_string).
Defined.

#[global] Instance codec_gmap `{Countable K} {V} `{!Codec K, !Codec V} : Codec (gmap K V).
Proof.
  refine (codec_via (B:=list (K * V)) map_to_list (λ l, Some (list_to_map l)) _).
  abstract (intros m; f_equal; apply list_to_map_to_list).
Defined.
#[global] Instance codec_gset `{Countable K} `{!Codec K} : Codec (gset K).
Proof.
  refine (codec_via (B:=list K) elements (λ l, Some (list_to_set l)) _).
  abstract (intros m; f_equal; apply list_to_set_elements_L).
Defined.

#[global] Instance codec_digest : Codec Digest.
Proof.
  refine (codec_via (B:=string) digest_to_string (λ s, to_option (digest_from_str s)) _).
  abstract (intros d; by rewrite digest_from_to_string).
Defined.

(** A 32-byte checksum standing for SHA-256 where a witness has to evaluate it. *)
Fixpoint fold_string {A} (f : A → ascii → A) (a : A) (s : string) : A :=
  match s with EmptyString => a | String c s => fold_string f (f a c) s end.
Fixpoint le_bytes (n : nat) (x : N) : string :=
  match n with
  | O => EmptyString
  | S n => String (ascii_of_N (x mod 256)) (le_bytes n (x / 256))
  end.
Lemma length_le_bytes n x : String.length (le_bytes n x) = n.
Proof. revert x. induction n as [|n IH]; intros x; simpl; [done|]. by rewrite IH. Qed.

(** The length proof is computed, so that equal digests have equal normal forms. *)
Definition digest_of_bytes (bytes : string) (H : String.length bytes = 32) : Digest :=
  match decide (String.length bytes = 32) with
  | left H => dexist bytes H
  | right _ => dexist bytes H
  end.
Definition checksum (s : string) : Digest :=
  digest_of_bytes (le_bytes 32 (fold_string (λ h c, N.land (h * 31 + N_of_ascii c + 1) 16777215)%N 7%N s))
    (length_le_bytes 32 _).
Definition checksum_sha256 : Sha256 := checksum.
