(* ===== verification/Artifacts.v ===== *)
(** * Content-addressed artifacts (crates/harness/src/artifacts.rs)

    [ArtifactStore] keeps one file per artifact, named by the text of its digest.
    The directory is a finite map from file names to directory entries; I/O
    errors other than a missing file are not modelled. *)

From S2P Require Import Prelude Digest Codec.

(** A directory entry, as [symlink_metadata] and [try_exists] see it. *)
Inductive FsEntry : Type :=
| RegularFile (content : string)
| Directory
| Symlink (target_exists : bool).

Module ArtifactError.
Inductive t : Type :=
| Io
| Limit (max : N)
| Integrity (digest : Digest)
| UnsafePath (path : string)
| Lock.
#[global] Instance eq_dec : EqDecision t.
Proof. solve_decision. Defined.
End ArtifactError.

Module ArtifactStore.
Record t : Type := mk {
  root : gmap string FsEntry;
  max_artifact_bytes : N;
}.
#[global] Instance eta_t : Eta t := λ s, mk (root s) (max_artifact_bytes s).

(** [path]: the file name within the root directory. *)
Definition path (digest : Digest) : string := digest_to_string digest.

(** [Path::try_exists] *)
Definition try_exists (s : t) (p : string) : bool :=
  match root s !! p with
  | Some (RegularFile _) | Some Directory | Some (Symlink true) => true
  | Some (Symlink false) | None => false
  end.

Section ops.
Context {SHA : Sha256}.

Definition read (s : t) (digest : Digest) : result string ArtifactError.t :=
  let p := path digest in
  let? meta := ok_or (root s !! p) ArtifactError.Io in
  match meta with
  | RegularFile bytes =>
      let? _ := reject_if (max_artifact_bytes s <? str_len bytes)%N
                  (ArtifactError.Limit (max_artifact_bytes s)) in
      let? _ := reject_if (bool_decide (digest_of bytes ≠ digest)) (ArtifactError.Integrity digest) in
      Ok bytes
  | _ => Err (ArtifactError.UnsafePath p)
  end.

(** [put_unchecked]: the temporary file is persisted without replacing an
    existing entry. *)
Definition put_unchecked (s : t) (digest : Digest) (bytes : string) : result t ArtifactError.t :=
  let? _ := reject_if (bool_decide (digest_of bytes ≠ digest)) (ArtifactError.Integrity digest) in
  let p := path digest in
  if try_exists s p then let? _ := read s digest in Ok s
  else match root s !! p with
       | Some _ => let? _ := read s digest in Ok s
       | None => Ok (s <| root := <[p := RegularFile bytes]> (root s) |>)
       end.

(** [put]; both existence tests see the same directory, since the model has one
    writer at a time. *)
Definition put (s : t) (bytes : string) : result (t * Digest) ArtifactError.t :=
  let? _ := reject_if (max_artifact_bytes s <? str_len bytes)%N
              (ArtifactError.Limit (max_artifact_bytes s)) in
  let digest := digest_of bytes in
  if try_exists s (path digest) then let? _ := read s digest in Ok (s, digest)
  else let? s := put_unchecked s digest bytes in Ok (s, digest).
End ops.
End ArtifactStore.

(** [DownloadCache]: at most one verified artifact. *)
Module DownloadCache.
Definition t : Type := option (Digest * string).
Definition default : t := None.

Definition read `{!Sha256} (c : t) (store : ArtifactStore.t) (digest : Digest) :
    t * result string ArtifactError.t :=
  let stale := match c with Some (cached, _) => bool_decide (cached ≠ digest) | None => true end in
  if stale then
    match ArtifactStore.read store digest with
    | Ok bytes => (Some (digest, bytes), Ok bytes)
    | Err e => (None, Err e)
    end
  else match c with
       | Some (_, bytes) => (c, Ok bytes)
       | None => (None, Err ArtifactError.Io)
       end.
End DownloadCache.

(** ** Theorems *)

Section artifacts.
Context {SHA : Sha256}.
Implicit Types s : ArtifactStore.t.

(** What [read] returns always hashes to the requested digest and is within the
    size limit, whatever is on disk. *)
Lemma read_verified s d b :
  ArtifactStore.read s d = Ok b →
  digest_of b = d ∧ (str_len b ≤ ArtifactStore.max_artifact_bytes s)%N.
Proof.
  unfold ArtifactStore.read. intros H. invok.
  split; [|by apply N.ltb_ge].
  apply dec_stable. by eapply bool_decide_eq_false.
Qed.

Lemma read_Ok s d b :
  ArtifactStore.read s d = Ok b ↔
  ArtifactStore.root s !! ArtifactStore.path d = Some (RegularFile b) ∧
  (str_len b ≤ ArtifactStore.max_artifact_bytes s)%N ∧ digest_of b = d.
Proof.
  split.
  - intros H. destruct (read_verified _ _ _ H). unfold ArtifactStore.read in H. by invok.
  - unfold ArtifactStore.read. intros (-> & ? & Hd). simpl.
    rewrite (proj2 (N.ltb_ge _ _)) by done. simpl.
    by rewrite bool_decide_false by naive_solver.
Qed.

(** [put] stores nothing but the one new file, under its own digest. *)
Lemma put_spec s b s' d :
  ArtifactStore.put s b = Ok (s', d) →
  d = digest_of b ∧
  (str_len b ≤ ArtifactStore.max_artifact_bytes s)%N ∧
  ((s' = s ∧ ∃ b', ArtifactStore.read s d = Ok b') ∨
   (ArtifactStore.root s !! ArtifactStore.path d = None ∧
    s' = s <| ArtifactStore.root :=
           <[ArtifactStore.path d := RegularFile b]> (ArtifactStore.root s) |>)).
Proof.
  unfold ArtifactStore.put, ArtifactStore.put_unchecked. intros H.
  apply rbind_Ok in H as ([] & ?%reject_if_Ok & H).
  rewrite bool_decide_false in H by naive_solver. simpl in H.
  assert ((str_len b ≤ ArtifactStore.max_artifact_bytes s)%N) by by apply N.ltb_ge.
  destruct (ArtifactStore.try_exists _ _).
  - invok. repeat split; [done|]. left. eauto.
  - destruct (ArtifactStore.root s !! _) eqn:Hroot.
    + invok. repeat split; [done|]. left. eauto.
    + injection H as <- <-. repeat split; [done|]. right. done.
Qed.
End artifacts.

(** ** Properties *)

(** After a successful [put] the artifact reads back as the bytes that were
    stored, unless the directory already held other bytes with the same digest
    (a SHA-256 collision); no other artifact changes, and no file is replaced. *)
Theorem put_then_read `{SHA : Sha256} (s s' : ArtifactStore.t) bytes d :
  ArtifactStore.put s bytes = Ok (s', d) →
  d = digest_of bytes ∧
  (ArtifactStore.read s' d = Ok bytes ∨
   ∃ other, ArtifactStore.read s' d = Ok other ∧ other ≠ bytes ∧ digest_of other = digest_of bytes) ∧
  (∀ name entry, ArtifactStore.root s !! name = Some entry → ArtifactStore.root s' !! name = Some entry) ∧
  (∀ d', d' ≠ d → ArtifactStore.read s' d' = ArtifactStore.read s d').
Proof.
  intros (-> & Hlen & [[-> [other Hother]]|[Hnone ->]])%put_spec.
  - split_and!; [done| |done|done]. destruct (decide (other = bytes)) as [->|]; [by left|right].
    exists other. split_and!; [done..|]. by destruct (read_verified _ _ _ Hother).
  - split_and!; [done| | |].
    + left. apply read_Ok. unfold put. simpl. by rewrite lookup_insert_eq.
    + intros name entry Hname. unfold put. simpl. rewrite lookup_insert_ne; [done|].
      intros <-. congruence.
    + intros d' Hd'. unfold ArtifactStore.read, put. simpl. rewrite lookup_insert_ne; [done|].
      intros Heq%digest_to_string_inj. congruence.
Qed.

Lemma put_then_read_witness :
  let SHA : Sha256 := checksum_sha256 in
  let s := ArtifactStore.mk ∅ 64 in
  ∃ s' d, ArtifactStore.put s "evidence" = Ok (s', d) ∧
    d = digest_of "evidence" ∧
    (ArtifactStore.read s' d = Ok "evidence" ∨
     ∃ other, ArtifactStore.read s' d = Ok other ∧ other ≠ "evidence" ∧
       digest_of other = digest_of "evidence") ∧
    (∀ name entry, ArtifactStore.root s !! name = Some entry →
       ArtifactStore.root s' !! name = Some entry) ∧
    (∀ d', d' ≠ d → ArtifactStore.read s' d' = ArtifactStore.read s d').
Proof.
  intros SHA s.
  destruct (ArtifactStore.put s "evidence") as [[s' d]|e] eqn:H; [|vm_compute in H; discriminate H].
  exists s', d. split; [reflexivity|]. exact (put_then_read s s' "evidence" d H).
Defined.

(** Whatever is on disk, [read] and the download cache hand out only bytes
    that hash to the requested digest; the cache holds at most one artifact, its
    own invariant is kept, and a cached digest is served even after the file is
    gone. *)
Theorem cache_returns_verified `{SHA : Sha256} (c : DownloadCache.t) (s : ArtifactStore.t) d :
  (∀ cached bytes, c = Some (cached, bytes) → digest_of bytes = cached) →
  (∀ bytes, (DownloadCache.read c s d).2 = Ok bytes → digest_of bytes = d) ∧
  (∀ cached bytes, (DownloadCache.read c s d).1 = Some (cached, bytes) →
     cached = d ∧ digest_of bytes = cached) ∧
  (∀ bytes, c = Some (d, bytes) → (DownloadCache.read c s d).2 = Ok bytes) ∧
  ((∀ bytes, c ≠ Some (d, bytes)) → (DownloadCache.read c s d).2 = ArtifactStore.read s d).
Proof.
  intros Hc. unfold DownloadCache.read.
  pose proof (read_verified s d) as Hread.
  destruct c as [[cached old]|]; [case_bool_decide as Hd|].
  - destruct (ArtifactStore.read s d) as [b|e]; simpl; split_and!; naive_solver.
  - subst. simpl. split_and!; naive_solver.
  - destruct (ArtifactStore.read s d) as [b|e]; simpl; split_and!; naive_solver.
Qed.

Lemma cache_returns_verified_witness :
  let SHA : Sha256 := checksum_sha256 in
  let d := digest_of "old" in
  let c : DownloadCache.t := Some (d, "old") in
  let s := ArtifactStore.mk ∅ 64 in
  (∀ bytes, (DownloadCache.read c s d).2 = Ok bytes → digest_of bytes = d) ∧
  (∀ cached bytes, (DownloadCache.read c s d).1 = Some (cached, bytes) →
     cached = d ∧ digest_of bytes = cached) ∧
  (∀ bytes, c = Some (d, bytes) → (DownloadCache.read c s d).2 = Ok bytes) ∧
  ((∀ bytes, c ≠ Some (d, bytes)) → (DownloadCache.read c s d).2 = ArtifactStore.read s d).
Proof.
  intros SHA d c s. apply (cache_returns_verified c s d).
  intros cached bytes H. injection H as <- <-. reflexivity.
Defined.
