(* ===== verification/Contract.v ===== *)
(** * Task contracts (crates/harness/src/contract.rs)

    The executable contract of a task: its requirements, the acceptance checks
    they refer to, and the limits of the work. [Contract.validate] is the guard
    every contract passes before it enters a task journal. *)

From S2P Require Import Prelude Digest Codec.

(** [runtime::MAX_EXECUTION_TIMEOUT_MS] *)
Definition MAX_EXECUTION_TIMEOUT_MS : N := 3600000.

(** ** Data *)

Inductive Origin : Type :=
| User (basis : string)
| Repository (basis : string)
| Inferred (basis : string).
#[global] Instance Origin_eq_dec : EqDecision Origin.
Proof. solve_decision. Defined.

Inductive CheckKind : Type :=
| Behavior | Build | Static | Integration | Interface | Migration | Performance | Review.
#[global] Instance CheckKind_eq_dec : EqDecision CheckKind.
Proof. solve_decision. Defined.

Module ControlRequirement.
Inductive t : Type := None | BaselineFailure | NegativeControl.
#[global] Instance eq_dec : EqDecision t.
Proof. solve_decision. Defined.
End ControlRequirement.

Inductive BaselinePolicy : Type :=
| MustPass
| NoNewFailure (baseline_report : Digest) (reason : string).
#[global] Instance BaselinePolicy_eq_dec : EqDecision BaselinePolicy.
Proof. solve_decision. Defined.

Inductive FlakePolicy : Type :=
| RejectAnyFailure
| Retry (max_attempts : N).
#[global] Instance FlakePolicy_eq_dec : EqDecision FlakePolicy.
Proof. solve_decision. Defined.

Module DeliveryKind.
Inductive t : Type := Patch | Source | Package | Deployment | Report.
#[global] Instance eq_dec : EqDecision t.
Proof. solve_decision. Defined.
End DeliveryKind.

Module Requirement.
Record t : Type := mk {
  id : string;
  behavior : string;
  origin : Origin;
  checks : list string;
  depends_on : list string;
}.
#[global] Instance eq_dec : EqDecision t.
Proof. solve_decision. Defined.
End Requirement.

Module CheckDefinition.
Record t : Type := mk {
  purpose : string;
  kind : CheckKind;
  verifier : Digest;
  command : list string;
  timeout_ms : N;
  minimum_assertions : N;
  control : ControlRequirement.t;
  control_source : option Digest;
  baseline : BaselinePolicy;
  flake : FlakePolicy;
}.
#[global] Instance eq_dec : EqDecision t.
Proof. solve_decision. Defined.
End CheckDefinition.

Module ContractError.
Inductive t : Type :=
| Empty (what : string)
| RequirementId (id : string)
| NoChecks (requirement : string)
| Missing (requirement kind id : string)
| Cycle
| Check (id reason : string)
| Limits.
#[global] Instance eq_dec : EqDecision t.
Proof. solve_decision. Defined.
End ContractError.

Module Limits.
Record t : Type := mk {
  model_calls : N;
  tokens : N;
  elapsed_ms : N;
  concurrent_jobs : N;
  artifact_bytes : N;
}.
#[global] Instance eq_dec : EqDecision t.
Proof. solve_decision. Defined.

Definition default : t :=
  mk 100 1000000 7200000 4 (256 * 1024 * 1024).

Definition validate (l : t) : result unit ContractError.t :=
  if (model_calls l =? 0)%N || (tokens l =? 0)%N || (elapsed_ms l =? 0)%N
     || (concurrent_jobs l =? 0)%N || (artifact_bytes l =? 0)%N
  then Err ContractError.Limits else Ok tt.
End Limits.

(** ** Identifiers *)

Definition is_ascii_alphanumeric (c : ascii) : bool :=
  ascii_between 48 57 c || ascii_between 65 90 c || ascii_between 97 122 c.

Definition valid_id (id : string) : bool :=
  negb (str_is_empty id) && (str_len id <=? 128)%N
  && str_forallb (λ b, is_ascii_alphanumeric b || ascii_is 45 b || ascii_is 95 b || ascii_is 46 b) id.

Definition origin_basis (o : Origin) : string :=
  match o with User basis | Repository basis | Inferred basis => basis end.

(** ** Validation *)

Module Contract.
Record t : Type := mk {
  request : string;
  outcome : string;
  scope : string;
  requirements : list Requirement.t;
  checks : gmap string CheckDefinition.t;
  protected_behavior : list string;
  assumptions : list string;
  open_questions : list string;
  delivery : DeliveryKind.t;
  limits : Limits.t;
}.
#[global] Instance eq_dec : EqDecision t.
Proof. solve_decision. Defined.
#[global] Instance eta_t : Eta t := λ c,
  mk (request c) (outcome c) (scope c) (requirements c) (checks c) (protected_behavior c)
     (assumptions c) (open_questions c) (delivery c) (limits c).

(** First pass over the requirements: identities, behavior, provenance, checks. *)
Definition check_requirement (ids : gset string) (r : Requirement.t) :
    result (gset string) ContractError.t :=
  let? _ := reject_if (negb (valid_id (Requirement.id r)) || bool_decide (Requirement.id r ∈ ids))
              (ContractError.RequirementId (Requirement.id r)) in
  let? _ := reject_if (trim_is_empty (Requirement.behavior r))
              (ContractError.Empty "observable behavior") in
  let? _ := reject_if (trim_is_empty (origin_basis (Requirement.origin r)))
              (ContractError.Empty "requirement provenance") in
  let? _ := reject_if (bool_decide (Requirement.checks r = []))
              (ContractError.NoChecks (Requirement.id r)) in
  Ok ({[Requirement.id r]} ∪ ids).

(** Second pass: references to checks and to other requirements. *)
Definition check_references (checks : gmap string CheckDefinition.t) (ids : gset string)
    (r : Requirement.t) : result unit ContractError.t :=
  let? _ := for_each (λ _ check,
      reject_if (bool_decide (checks !! check = None))
        (ContractError.Missing (Requirement.id r) "check" check)) tt (Requirement.checks r) in
  for_each (λ _ dependency,
      reject_if (bool_decide (dependency ∉ ids))
        (ContractError.Missing (Requirement.id r) "requirement" dependency)) tt
    (Requirement.depends_on r).

(** One round of the dependency loop. *)
Definition visit (visited : gset string) (r : Requirement.t) : gset string :=
  if forallb (λ id, bool_decide (id ∈ visited)) (Requirement.depends_on r)
  then {[Requirement.id r]} ∪ visited else visited.

(** The [loop] of [validate]; [None] when the fuel runs out, which
    [dependency_loop_total] rules out for the fuel [validate] supplies. *)
Fixpoint dependency_loop (fuel : nat) (requirements : list Requirement.t) (ids visited : gset string) :
    option (result unit ContractError.t) :=
  match fuel with
  | O => None
  | S fuel =>
      let before := size visited in
      let visited := fold_left visit requirements visited in
      if size visited =? size ids then Some (Ok tt)
      else if size visited =? before then Some (Err ContractError.Cycle)
      else dependency_loop fuel requirements ids visited
  end.

(** The reason a check definition is refused, in the order of the source. *)
Definition check_reason (requirements : list Requirement.t) (id : string)
    (check : CheckDefinition.t) : option string :=
  if negb (existsb (λ r, bool_decide (id ∈ Requirement.checks r)) requirements) then
    Some "check must belong to a required outcome"
  else if negb (valid_id id) || trim_is_empty (CheckDefinition.purpose check) then
    Some "an ID and purpose are required"
  else if match CheckDefinition.command check with
          | [] => true
          | program :: _ => str_is_empty program
          end
          || (CheckDefinition.timeout_ms check =? 0)%N
          || (MAX_EXECUTION_TIMEOUT_MS <? CheckDefinition.timeout_ms check)%N then
    Some "a command and bounded positive timeout are required"
  else if negb match CheckDefinition.kind check with Build | Static => true | _ => false end
          && (CheckDefinition.minimum_assertions check =? 0)%N then
    Some "behavioral checks require at least one assertion"
  else if match CheckDefinition.flake check with Retry n => (n =? 0)%N | _ => false end then
    Some "retry bound must be positive"
  else if bool_decide (CheckDefinition.control check = ControlRequirement.NegativeControl)
          && bool_decide (CheckDefinition.control_source check = None) then
    Some "negative control requires an immutable source identity"
  else match CheckDefinition.baseline check with
       | NoNewFailure _ reason =>
           if trim_is_empty reason then Some "baseline allowance requires a reason" else None
       | MustPass => None
       end.

Definition check_definition (requirements : list Requirement.t)
    (entry : string * CheckDefinition.t) : result unit ContractError.t :=
  match check_reason requirements entry.1 entry.2 with
  | Some reason => Err (ContractError.Check entry.1 reason)
  | None => Ok tt
  end.

Definition validate (c : t) : result unit ContractError.t :=
  let? _ := for_each (λ _ '(name, text), reject_if (trim_is_empty text) (ContractError.Empty name)) tt
      [("request", request c); ("outcome", outcome c); ("scope", scope c)] in
  let? _ := reject_if (bool_decide (requirements c = [])) (ContractError.Empty "requirements") in
  let? ids := for_each check_requirement ∅ (requirements c) in
  let? _ := for_each (λ _, check_references (checks c) ids) tt (requirements c) in
  let? _ := default (Err ContractError.Cycle)
              (dependency_loop (S (size ids)) (requirements c) ids ∅) in
  let? _ := for_each (λ _, check_definition (requirements c)) tt (btree_iter (checks c)) in
  Limits.validate (limits c).

(** [Contract::digest] *)
Definition digest {SHA : Sha256} `{!Serde t} (c : t) : option Digest := of_value c.
End Contract.

(** ** Specification *)

Section spec.
Import Contract.

(** [depends c x y]: requirement [x] names [y] as a dependency. *)
Definition depends (c : Contract.t) (x y : string) : Prop :=
  ∃ r, r ∈ requirements c ∧ Requirement.id r = x ∧ y ∈ Requirement.depends_on r.

Record requirement_wf (c : Contract.t) (r : Requirement.t) : Prop := {
  rwf_id : valid_id (Requirement.id r) = true;
  rwf_behavior : trim_is_empty (Requirement.behavior r) = false;
  rwf_origin : trim_is_empty (origin_basis (Requirement.origin r)) = false;
  rwf_has_checks : Requirement.checks r ≠ [];
  rwf_checks k : k ∈ Requirement.checks r → is_Some (checks c !! k);
  rwf_depends d : d ∈ Requirement.depends_on r → d ∈ Requirement.id <$> requirements c;
}.

Record check_wf (c : Contract.t) (k : string) (d : CheckDefinition.t) : Prop := {
  cwf_used : ∃ r, r ∈ requirements c ∧ k ∈ Requirement.checks r;
  cwf_id : valid_id k = true;
  cwf_purpose : trim_is_empty (CheckDefinition.purpose d) = false;
  cwf_command : ∃ program args, CheckDefinition.command d = program :: args ∧ program ≠ "";
  cwf_timeout : (0 < CheckDefinition.timeout_ms d ≤ MAX_EXECUTION_TIMEOUT_MS)%N;
  cwf_assertions : CheckDefinition.kind d ∉ [Build; Static] →
    (0 < CheckDefinition.minimum_assertions d)%N;
  cwf_flake : CheckDefinition.flake d ≠ Retry 0;
  cwf_control : CheckDefinition.control d = ControlRequirement.NegativeControl →
    is_Some (CheckDefinition.control_source d);
  cwf_baseline report reason : CheckDefinition.baseline d = NoNewFailure report reason →
    trim_is_empty reason = false;
}.

Record contract_wf (c : Contract.t) : Prop := {
  wf_request : trim_is_empty (request c) = false;
  wf_outcome : trim_is_empty (outcome c) = false;
  wf_scope : trim_is_empty (scope c) = false;
  wf_requirements : requirements c ≠ [];
  wf_unique : NoDup (Requirement.id <$> requirements c);
  wf_requirement r : r ∈ requirements c → requirement_wf c r;
  wf_acyclic x : ¬ tc (depends c) x x;
  wf_check k d : checks c !! k = Some d → check_wf c k d;
  wf_limits : (0 < Limits.model_calls (limits c))%N ∧ (0 < Limits.tokens (limits c))%N ∧
    (0 < Limits.elapsed_ms (limits c))%N ∧ (0 < Limits.concurrent_jobs (limits c))%N ∧
    (0 < Limits.artifact_bytes (limits c))%N;
}.
End spec.

(** ** Lemmas on the passes *)

Section passes.
Import Contract.

Lemma limits_validate_Ok l :
  Limits.validate l = Ok tt ↔
  (0 < Limits.model_calls l)%N ∧ (0 < Limits.tokens l)%N ∧ (0 < Limits.elapsed_ms l)%N ∧
  (0 < Limits.concurrent_jobs l)%N ∧ (0 < Limits.artifact_bytes l)%N.
Proof.
  unfold Limits.validate.
  destruct (N.eqb_spec (Limits.model_calls l) 0), (N.eqb_spec (Limits.tokens l) 0),
    (N.eqb_spec (Limits.elapsed_ms l) 0), (N.eqb_spec (Limits.concurrent_jobs l) 0),
    (N.eqb_spec (Limits.artifact_bytes l) 0); simpl; split; try done; lia.
Qed.

Lemma reject_bool {E} (P : Prop) `{!Decision P} (e : E) u :
  reject_if (bool_decide P) e = Ok u ↔ ¬ P.
Proof. rewrite reject_if_Ok. apply bool_decide_eq_false. Qed.

Definition requirement_local (r : Requirement.t) : Prop :=
  valid_id (Requirement.id r) = true ∧ trim_is_empty (Requirement.behavior r) = false ∧
  trim_is_empty (origin_basis (Requirement.origin r)) = false ∧ Requirement.checks r ≠ [].

Lemma check_requirement_Ok ids r ids' :
  check_requirement ids r = Ok ids' ↔
  requirement_local r ∧ Requirement.id r ∉ ids ∧ ids' = {[Requirement.id r]} ∪ ids.
Proof.
  unfold check_requirement, requirement_local. split.
  - intros (? & [?%negb_false_iff ?%bool_decide_eq_false]%reject_if_Ok%orb_false_elim
      & (? & ?%reject_if_Ok & (? & ?%reject_if_Ok & (? & ?%reject_bool & [= <-])%rbind_Ok)%rbind_Ok)%rbind_Ok)%rbind_Ok.
    done.
  - intros ((-> & -> & -> & Hc) & Hn & ->).
    by rewrite !bool_decide_false by done.
Qed.

Lemma check_requirements_Ok reqs ids ids' :
  for_each check_requirement ids reqs = Ok ids' ↔
  Forall requirement_local reqs ∧ NoDup (Requirement.id <$> reqs) ∧
  Forall (λ r, Requirement.id r ∉ ids) reqs ∧
  ids' = list_to_set (Requirement.id <$> reqs) ∪ ids.
Proof.
  revert ids. induction reqs as [|r reqs IH]; intros ids; simpl.
  - split; [|intros (_ & _ & _ & ->); f_equal; set_solver].
    intros [= <-]. split_and!; [constructor..|set_solver].
  - rewrite rbind_Ok, NoDup_cons, !Forall_cons. split.
    + intros (ids1 & (Hl & Hn & ->)%check_requirement_Ok & (? & ? & Hf & ->)%IH).
      split_and!; [done..| |done|done| |set_solver].
      * intros (r' & Heq & Hin)%list_elem_of_fmap.
        rewrite Forall_forall in Hf. apply (Hf r' Hin). set_solver.
      * eapply Forall_impl; [done|]. set_solver.
    + intros ([? ?] & [Hn ?] & [? Hf] & ->). eexists. rewrite check_requirement_Ok, IH.
      split; [done|]. split_and!; [done..| |set_solver].
      apply Forall_forall. intros r' Hr'. rewrite Forall_forall in Hf.
      apply not_elem_of_union. split; [|by apply Hf].
      intros Heq%elem_of_singleton. apply Hn. rewrite <-Heq. by apply list_elem_of_fmap_2.
Qed.

Lemma check_references_Ok checks ids r :
  check_references checks ids r = Ok tt ↔
  Forall (λ k, is_Some (checks !! k)) (Requirement.checks r) ∧
  Forall (λ d, d ∈ ids) (Requirement.depends_on r).
Proof.
  unfold check_references. rewrite rbind_Ok. setoid_rewrite for_each_unit_Ok.
  setoid_rewrite reject_bool. split.
  - intros ([] & H1 & H2). split; eapply Forall_impl; [exact H1| |exact H2|]; simpl.
    + intros k ?. by apply not_eq_None_Some.
    + intros d ?. by apply dec_stable.
  - intros [H1 H2]. exists tt. split; eapply Forall_impl; [exact H1| |exact H2|]; simpl.
    + intros k ?. by apply not_eq_None_Some.
    + auto.
Qed.

Lemma if_some_None {A} (b : bool) (a : A) (o : option A) :
  (if b then Some a else o) = None ↔ b = false ∧ o = None.
Proof. destruct b; naive_solver. Qed.

Lemma command_Ok l :
  match l with [] => true | program :: _ => str_is_empty program end = false ↔
  ∃ program args, l = program :: args ∧ program ≠ "".
Proof. destruct l as [|[|c p] l]; naive_solver. Qed.

Lemma kind_Ok kind n :
  negb match kind with Build | Static => true | _ => false end && (n =? 0)%N = false ↔
  (kind ∉ [Build; Static] → (0 < n)%N).
Proof.
  rewrite andb_false_iff, negb_false_iff, N.eqb_neq. split.
  - intros [Hk|?] Hn; [|lia]. exfalso. apply Hn. destruct kind; try done; set_solver.
  - intros Himp. destruct (decide (n = 0%N)) as [->|]; [|by right]. left.
    destruct kind; try done; exfalso; (enough (0 < 0)%N by lia); apply Himp; set_solver.
Qed.

Lemma check_reason_None c k d :
  check_reason (requirements c) k d = None ↔ check_wf c k d.
Proof.
  unfold check_reason.
  rewrite !if_some_None, kind_Ok, !orb_false_iff, command_Ok, !negb_false_iff, andb_false_iff,
    existsb_exists, !bool_decide_eq_false, N.eqb_neq, N.ltb_ge.
  split.
  - intros ((r & Hr%list_elem_of_In & Hk%bool_decide_eq_true) & (? & ?) & ((? & ?) & ?) & ? &
      Hflake & Hc & Hb).
    split; try done.
    + eauto.
    + lia.
    + intros He. rewrite He in Hflake. done.
    + intros ?. apply not_eq_None_Some. naive_solver.
    + intros rep reason He. rewrite He in Hb. by apply if_some_None in Hb as [? _].
  - intros [(r & Hr & Hk) ? ? ? Ht ? Hf Hc Hb]. split_and!; try done; try lia.
    + exists r. rewrite <-list_elem_of_In. split; [done|]. by apply bool_decide_eq_true.
    + destruct (CheckDefinition.flake d) as [|n]; [done|]. apply N.eqb_neq. naive_solver.
    + destruct (decide (CheckDefinition.control d = ControlRequirement.NegativeControl)); [|by left].
      right. apply not_eq_None_Some. auto.
    + destruct (CheckDefinition.baseline d) as [|rep reason]; [done|].
      by rewrite (Hb rep reason).
Qed.

Lemma check_definitions_Ok c :
  for_each (λ _, check_definition (requirements c)) tt (btree_iter (checks c)) = Ok tt ↔
  ∀ k d, checks c !! k = Some d → check_wf c k d.
Proof.
  rewrite for_each_unit_Ok, Forall_forall. setoid_rewrite <-check_reason_None.
  unfold check_definition. split.
  - intros H k d Hk%elem_of_btree_iter. specialize (H _ Hk). simpl in H. by case_match.
  - intros H [k d] Hk%elem_of_btree_iter. simpl. by rewrite (H k d Hk).
Qed.
End passes.

(** ** The dependency loop *)

Section dependency_loop.
Import Contract.
Implicit Types (v : gset string) (c : Contract.t).

Lemma visit_subseteq v r : v ⊆ visit v r.
Proof. unfold visit. case_match; set_solver. Qed.

Lemma visits_subseteq rs v : v ⊆ fold_left visit rs v.
Proof.
  revert v. induction rs as [|r rs IH]; intros v; simpl; [done|].
  etrans; [apply visit_subseteq|apply IH].
Qed.

Definition ids_of c : gset string := list_to_set (Requirement.id <$> requirements c).

Lemma visits_ids c rs v :
  v ⊆ ids_of c → rs ⊆ requirements c → fold_left visit rs v ⊆ ids_of c.
Proof.
  revert v. induction rs as [|r rs IH]; intros v Hv Hrs; simpl; [done|].
  apply IH; [|set_solver]. unfold visit. case_match; [|done].
  assert (Requirement.id r ∈ ids_of c); [|set_solver].
  apply elem_of_list_to_set, list_elem_of_fmap_2. set_solver.
Qed.

(** A requirement whose dependencies are visited is visited by the round. *)
Lemma visits_enabled rs v r :
  r ∈ rs → (∀ d, d ∈ Requirement.depends_on r → d ∈ v) →
  Requirement.id r ∈ fold_left visit rs v.
Proof.
  revert v. induction rs as [|r' rs IH]; intros v Hr Hd; [by apply elem_of_nil in Hr|].
  apply elem_of_cons in Hr as [->|Hr]; simpl.
  - apply visits_subseteq. unfold visit.
    assert (forallb (λ id, bool_decide (id ∈ v)) (Requirement.depends_on r') = true) as ->;
      [|set_solver].
    apply forallb_forall. intros d Hdd%list_elem_of_In. apply bool_decide_eq_true. auto.
  - apply IH; [done|]. intros d Hdd. apply visit_subseteq. auto.
Qed.

(** Visited requirements have no infinite dependency chain. *)
Lemma visits_acc c rs v :
  NoDup (Requirement.id <$> requirements c) → rs ⊆ requirements c →
  (∀ x, x ∈ v → Acc (flip (depends c)) x) →
  ∀ x, x ∈ fold_left visit rs v → Acc (flip (depends c)) x.
Proof.
  intros Hnd. revert v. induction rs as [|r rs IH]; intros v Hrs Hv; simpl; [done|].
  apply IH; [set_solver|]. unfold visit.
  destruct (forallb _ _) eqn:Hall; [|done].
  intros x [->%elem_of_singleton|]%elem_of_union; [|auto].
  constructor. intros y (r' & Hr' & Hid & Hy). apply Hv.
  assert (r' = r) as ->.
  { apply list_elem_of_lookup in Hr' as [i Hi].
    destruct (proj1 (list_elem_of_lookup (requirements c) r)) as [j Hj]; [set_solver|].
    assert (i = j) as ->; [|congruence].
    apply (NoDup_lookup _ i j (Requirement.id r) Hnd); rewrite list_lookup_fmap.
    - by rewrite Hi, <-Hid.
    - by rewrite Hj. }
  rewrite forallb_forall in Hall.
  eapply bool_decide_eq_true, Hall. by apply list_elem_of_In.
Qed.

Lemma loop_total c fuel v :
  v ⊆ ids_of c → size (ids_of c) - size v < fuel →
  is_Some (dependency_loop fuel (requirements c) (ids_of c) v).
Proof.
  revert v. induction fuel as [|fuel IH]; intros v Hv Hfuel; [lia|]. cbn [dependency_loop].
  set (v' := fold_left visit (requirements c) v).
  assert (v ⊆ v') as Hle%subseteq_size by apply visits_subseteq.
  assert (v' ⊆ ids_of c) as Hv' by by apply visits_ids.
  pose proof (subseteq_size _ _ Hv').
  destruct (Nat.eqb_spec (size v') (size (ids_of c))); [by eexists|].
  destruct (Nat.eqb_spec (size v') (size v)); [by eexists|]. apply IH; [done|lia].
Qed.

Lemma loop_sound c fuel v :
  NoDup (Requirement.id <$> requirements c) → v ⊆ ids_of c →
  (∀ x, x ∈ v → Acc (flip (depends c)) x) →
  dependency_loop fuel (requirements c) (ids_of c) v = Some (Ok tt) →
  ∀ x, x ∈ ids_of c → Acc (flip (depends c)) x.
Proof.
  intros Hnd. revert v. induction fuel as [|fuel IH]; intros v Hv Hacc; [done|].
  cbn [dependency_loop]. set (v' := fold_left visit (requirements c) v).
  assert (v' ⊆ ids_of c) by by apply visits_ids.
  assert (∀ x, x ∈ v' → Acc (flip (depends c)) x) by by apply visits_acc.
  destruct (Nat.eqb_spec (size v') (size (ids_of c))) as [Heq|].
  - intros _ x Hx. assert (v' = ids_of c) as Hid; [|rewrite <-Hid in Hx; auto].
    apply set_subseteq_size_eq; [done|lia].
  - destruct (Nat.eqb_spec (size v') (size v)); [done|]. by apply IH.
Qed.

Lemma loop_complete c fuel v :
  (∀ r d, r ∈ requirements c → d ∈ Requirement.depends_on r → d ∈ ids_of c) →
  (∀ x, ¬ tc (depends c) x x) →
  v ⊆ ids_of c → dependency_loop fuel (requirements c) (ids_of c) v ≠ Some (Err ContractError.Cycle).
Proof.
  intros Hrefs Hacyc. revert v. induction fuel as [|fuel IH]; intros v Hv; [done|].
  cbn [dependency_loop]. set (v' := fold_left visit (requirements c) v).
  assert (Hv' : v' ⊆ ids_of c) by by apply visits_ids.
  destruct (Nat.eqb_spec (size v') (size (ids_of c))) as [|Hne]; [done|].
  destruct (Nat.eqb_spec (size v') (size v)) as [Heq|]; [|by apply IH].
  assert (v = v') as Hvv by (apply set_subseteq_size_eq; [apply visits_subseteq|lia]).
  intros _. destruct (finite_set_cycle (depends c) (ids_of c ∖ v')) as [x Hx]; [| |by apply (Hacyc x)].
  - intros Hempty. apply Hne. f_equal. apply (anti_symm (⊆)); [done|]. set_solver.
  - intros x [Hx Hxv]%elem_of_difference.
    apply elem_of_list_to_set, list_elem_of_fmap in Hx as (r & -> & Hr).
    destruct (decide (Forall (λ d, d ∈ v') (Requirement.depends_on r))) as [Hall|Hex].
    + destruct Hxv. apply visits_enabled; [done|].
      intros d Hd. rewrite Hvv. rewrite Forall_forall in Hall. by apply Hall.
    + apply not_Forall_Exists in Hex; [|intros ?; apply _].
      apply Exists_exists in Hex as (d & Hd & Hn). exists d. split.
      * apply elem_of_difference. split; [by eapply Hrefs|done].
      * by exists r.
Qed.

Lemma loop_Err fuel rs ids v e : dependency_loop fuel rs ids v = Some (Err e) → e = ContractError.Cycle.
Proof.
  revert v. induction fuel as [|fuel IH]; intros v; [done|]. cbn [dependency_loop].
  repeat case_match; try done; [|by apply IH]. by intros [= <-].
Qed.

(** The fuel [validate] gives the dependency loop is always enough. *)
Lemma dependency_loop_total c :
  is_Some (dependency_loop (S (size (ids_of c))) (requirements c) (ids_of c) ∅).
Proof. apply loop_total; [set_solver|]. rewrite size_empty. lia. Qed.

Lemma dependency_loop_Ok c :
  NoDup (Requirement.id <$> requirements c) →
  (∀ r d, r ∈ requirements c → d ∈ Requirement.depends_on r → d ∈ ids_of c) →
  default (Err ContractError.Cycle)
    (dependency_loop (S (size (ids_of c))) (requirements c) (ids_of c) ∅) = Ok tt ↔
  ∀ x, ¬ tc (depends c) x x.
Proof.
  intros Hnd Hrefs. destruct (dependency_loop_total c) as [res Hres]. rewrite Hres. simpl. split.
  - intros -> x Hx. apply (Acc_no_cycle (depends c) x); [|done].
    eapply (loop_sound c _ ∅ Hnd); [set_solver|set_solver|done|].
    assert (∃ y, depends c x y) as (y & r & Hr & <- & _) by (inversion Hx; eauto).
    by apply elem_of_list_to_set, list_elem_of_fmap_2.
  - intros Hacyc. pose proof (loop_complete c (S (size (ids_of c))) ∅ Hrefs Hacyc) as Hc.
    rewrite Hres in Hc. destruct res as [[]|e]; [done|]. destruct Hc; [set_solver|].
    by apply loop_Err in Hres as ->.
Qed.
End dependency_loop.

(** ** Properties *)

Lemma validate_wf c : Contract.validate c = Ok tt ↔ contract_wf c.
Proof.
  unfold Contract.validate. split.
  - intros ([] & Htext & H)%rbind_Ok. apply rbind_Ok in H as ([] & Hne%reject_bool & H).
    apply rbind_Ok in H as (ids & (Hloc & Hnd & _ & ->)%check_requirements_Ok & H).
    rewrite (right_id_L ∅ (∪)) in H. change (list_to_set _) with (ids_of c) in H.
    apply rbind_Ok in H as ([] & Hrefs%for_each_unit_Ok & H).
    apply rbind_Ok in H as ([] & Hloop & H).
    apply rbind_Ok in H as ([] & Hchecks & Hlim).
    rewrite Forall_forall in Hloc, Hrefs. setoid_rewrite check_references_Ok in Hrefs.
    setoid_rewrite Forall_forall in Hrefs.
    apply (for_each_unit_Ok (λ '(name, text), reject_if (trim_is_empty text) (ContractError.Empty name)))
      in Htext.
    rewrite !Forall_cons in Htext. setoid_rewrite reject_if_Ok in Htext.
    destruct Htext as (? & ? & ? & _).
    split; try done.
    + intros r Hr. destruct (Hloc r Hr) as (? & ? & ? & ?), (Hrefs r Hr) as [Hk Hd].
      split; try done. intros d Hdd. apply (elem_of_list_to_set (C:=gset string)). by apply Hd.
    + apply dependency_loop_Ok; try done. intros r d Hr. by apply Hrefs.
    + by apply check_definitions_Ok.
    + by apply limits_validate_Ok.
  - intros [Hr Ho Hs Hne Hnd Hreq Hac Hck Hlim].
    cbn [for_each rbind]. rewrite Hr, Ho, Hs. cbn [for_each rbind reject_if].
    rewrite bool_decide_false by done. cbn [rbind reject_if].
    assert (for_each Contract.check_requirement ∅ (Contract.requirements c) = Ok (ids_of c)) as ->.
    { apply check_requirements_Ok. split_and!; [|done| |by rewrite (right_id_L ∅ (∪))].
      - apply Forall_forall. intros r Hin. by destruct (Hreq r Hin).
      - apply Forall_forall. set_solver. }
    assert (Hrefs : ∀ r d, r ∈ Contract.requirements c → d ∈ Requirement.depends_on r → d ∈ ids_of c).
    { intros r d Hin Hd. apply elem_of_list_to_set. by apply (rwf_depends c r (Hreq r Hin)). }
    cbn [rbind]. assert (for_each (λ _, Contract.check_references (Contract.checks c) (ids_of c)) ()
      (Contract.requirements c) = Ok tt) as ->.
    { apply for_each_unit_Ok, Forall_forall. intros r Hin. apply check_references_Ok.
      rewrite !Forall_forall. split; [apply (rwf_checks c r (Hreq r Hin))|]. intros d. by apply Hrefs. }
    cbn [rbind]. rewrite (proj2 (dependency_loop_Ok c Hnd Hrefs) Hac). cbn [rbind].
    rewrite (proj2 (check_definitions_Ok c) Hck). cbn [rbind]. by apply limits_validate_Ok.
Qed.

(** A contract with two requirements and one check, for the witnesses; the
    second requirement depends on the given identifiers, the first on the second
    when [cyclic] is set. *)
Definition demo_check : CheckDefinition.t := {|
  CheckDefinition.purpose := "unit tests pass";
  CheckDefinition.kind := Behavior;
  CheckDefinition.verifier := checksum "verifier";
  CheckDefinition.command := ["cargo"; "test"];
  CheckDefinition.timeout_ms := 60000;
  CheckDefinition.minimum_assertions := 1;
  CheckDefinition.control := ControlRequirement.None;
  CheckDefinition.control_source := None;
  CheckDefinition.baseline := MustPass;
  CheckDefinition.flake := RejectAnyFailure;
|}.
Definition demo_contract (cyclic : bool) : Contract.t := {|
  Contract.request := "add a flag";
  Contract.outcome := "the flag works";
  Contract.scope := "src";
  Contract.requirements := [
    {| Requirement.id := "flag"; Requirement.behavior := "parses";
       Requirement.origin := User "asked"; Requirement.checks := ["unit"];
       Requirement.depends_on := if cyclic then ["docs"] else [] |};
    {| Requirement.id := "docs"; Requirement.behavior := "is documented";
       Requirement.origin := User "asked"; Requirement.checks := ["unit"];
       Requirement.depends_on := ["flag"] |}];
  Contract.checks := {[ "unit" := demo_check ]};
  Contract.protected_behavior := [];
  Contract.assumptions := [];
  Contract.open_questions := [];
  Contract.delivery := DeliveryKind.Source;
  Contract.limits := Limits.default;
|}.

Lemma requirements_pass c :
  Contract.requirements c ≠ [] → NoDup (Requirement.id <$> Contract.requirements c) →
  (∀ r, r ∈ Contract.requirements c → requirement_wf c r) →
  for_each Contract.check_requirement ∅ (Contract.requirements c) = Ok (ids_of c) ∧
  for_each (λ _, Contract.check_references (Contract.checks c) (ids_of c)) tt
    (Contract.requirements c) = Ok tt.
Proof.
  intros Hne Hnd Hreq. split.
  - apply check_requirements_Ok. split_and!; [|done| |by rewrite (right_id_L ∅ (∪))].
    + apply Forall_forall. intros r Hin. by destruct (Hreq r Hin).
    + apply Forall_forall. set_solver.
  - apply for_each_unit_Ok, Forall_forall. intros r Hin. apply check_references_Ok.
    rewrite !Forall_forall. split; [apply (rwf_checks c r (Hreq r Hin))|]. intros d Hd.
    apply elem_of_list_to_set. by apply (rwf_depends c r (Hreq r Hin)).
Qed.

(** C23: A contract is accepted exactly when it is well formed: its texts are not
    blank, its requirements have unique valid identifiers and refer to existing
    checks and requirements, no requirement depends on itself through others,
    every check is used, bounded and asserts something, and every limit is
    positive. *)
Theorem contract_validate_iff c : Contract.validate c = Ok tt ↔ contract_wf c.
Proof. apply validate_wf. Qed.

(** A cycle among otherwise well-formed requirements is reported as a cycle,
    whatever the checks and limits of the contract are. *)
Theorem contract_cycle_rejected c x :
  trim_is_empty (Contract.request c) = false → trim_is_empty (Contract.outcome c) = false →
  trim_is_empty (Contract.scope c) = false → Contract.requirements c ≠ [] →
  NoDup (Requirement.id <$> Contract.requirements c) →
  (∀ r, r ∈ Contract.requirements c → requirement_wf c r) →
  tc (depends c) x x → Contract.validate c = Err ContractError.Cycle.
Proof.
  intros Hr Ho Hs Hne Hnd Hreq Hcyc. unfold Contract.validate.
  cbn [for_each rbind]. rewrite Hr, Ho, Hs. cbn [for_each rbind reject_if].
  rewrite bool_decide_false by done. cbn [rbind reject_if].
  destruct (requirements_pass c) as [-> Hrefs]; [done..|]. cbn [rbind]. rewrite Hrefs. cbn [rbind].
  destruct (dependency_loop_total c) as [[[]|e] Hloop]; rewrite Hloop; simpl.
  - exfalso. refine (proj1 (dependency_loop_Ok c Hnd _) _ x Hcyc); [|by rewrite Hloop].
    intros r d Hin Hd. apply elem_of_list_to_set. by apply (rwf_depends c r (Hreq r Hin)).
  - by apply loop_Err in Hloop as ->.
Qed.

Lemma contract_cycle_rejected_witness :
  Contract.validate (demo_contract true) = Err ContractError.Cycle.
Proof.
  apply (contract_cycle_rejected _ "flag"); try (vm_compute; reflexivity).
  - discriminate.
  - apply (bool_decide_unpack _). vm_compute. reflexivity.
  - intros r Hr. apply (bool_decide_pack (r ∈ [_; _])) in Hr; apply bool_decide_unpack in Hr.
    repeat (apply elem_of_cons in Hr as [->|Hr]); [split..|by apply elem_of_nil in Hr];
      try (vm_compute; reflexivity); try discriminate.
    + intros k ->%list_elem_of_singleton. by eexists.
    + intros d ->%list_elem_of_singleton. simpl. right. left.
    + intros k ->%list_elem_of_singleton. by eexists.
    + intros d ->%list_elem_of_singleton. simpl. left.
  - apply (tc_l _ _ "docs").
    + eexists. split; [left|]. split; [reflexivity|left].
    + apply tc_once. eexists. split; [right; left|]. split; [reflexivity|left].
Defined.

(** The dependency loop of [validate] always decides within the fuel it is
    given, one round more than there are requirement identifiers: the source's
    unbounded [loop] terminates. *)
Theorem dependency_loop_decides c :
  ∃ decision, Contract.dependency_loop (S (size (ids_of c))) (Contract.requirements c)
    (ids_of c) ∅ = Some decision ∧ (decision = Ok tt ∨ decision = Err ContractError.Cycle).
Proof.
  destruct (dependency_loop_total c) as [[[]|e] Hloop].
  - exists (Ok tt). auto.
  - exists (Err e). split; [done|]. right. by apply loop_Err in Hloop as ->.
Qed.
