(* ===== verification/State.v ===== *)
(** * Task state and task events (crates/harness/src/state.rs)

    The state of one task and the event that changes it: [TaskState.apply] is the
    fold step of the task journal. Everything the harness knows about a task is
    this record, and every change of it is one event. *)

From S2P Require Import Prelude Digest Codec Contract.

(** ** Data *)

Inductive Phase : Type := Understand | Baseline | Implement | Challenge | Verify | Deliver.
#[global] Instance Phase_eq_dec : EqDecision Phase.
Proof. solve_decision. Defined.

Inductive RequestKind : Type := Conversation | Task | Auxiliary.
#[global] Instance RequestKind_eq_dec : EqDecision RequestKind.
Proof. solve_decision. Defined.

Module Outcome.
Inductive t : Type :=
| Complete | DeliveredWithExceptions | Blocked | BudgetExhausted | Cancelled | Failed
| FinishedUnverified.
#[global] Instance eq_dec : EqDecision t.
Proof. solve_decision. Defined.

Definition exit_code (o : t) : N :=
  match o with
  | Complete | FinishedUnverified => 0
  | Failed => 1
  | Blocked => 20
  | BudgetExhausted => 21
  | DeliveredWithExceptions => 22
  | Cancelled => 130
  end.
End Outcome.

Module CheckStatus.
Inductive t : Type := Passed | Failed | Inconclusive | Cancelled.
#[global] Instance eq_dec : EqDecision t.
Proof. solve_decision. Defined.
End CheckStatus.

Module JobStatus.
Inductive t : Type := Running | Succeeded | Failed | Cancelled | Unknown | Fenced.
#[global] Instance eq_dec : EqDecision t.
Proof. solve_decision. Defined.

Definition unresolved (s : t) : bool :=
  match s with Running | Unknown => true | _ => false end.
End JobStatus.

Module EffectStatus.
Inductive t : Type := Intended | Unknown | Succeeded | Failed | Reconciled.
#[global] Instance eq_dec : EqDecision t.
Proof. solve_decision. Defined.
End EffectStatus.

Module ModelCallStatus.
Inductive t : Type := Completed | Failed | Cancelled | Unknown.
#[global] Instance eq_dec : EqDecision t.
Proof. solve_decision. Defined.
End ModelCallStatus.

Module Candidate.
Record t : Type := mk {
  source : Digest;
  environment : Digest;
  artifact : Digest;
  frozen : bool;
  provenance : option Digest;
}.
#[global] Instance eq_dec : EqDecision t.
Proof. solve_decision. Defined.
#[global] Instance eta_t : Eta t := λ s,
  mk (s.(source)) (s.(environment)) (s.(artifact)) (s.(frozen)) (s.(provenance)).
End Candidate.

Module EvidenceIdentity.
Record t : Type := mk {
  contract : Digest;
  source : Digest;
  environment : Digest;
  artifact : Digest;
  check_definition : Digest;
  verifier : Digest;
}.
#[global] Instance eq_dec : EqDecision t.
Proof. solve_decision. Defined.
#[global] Instance eta_t : Eta t := λ s,
  mk (s.(contract)) (s.(source)) (s.(environment)) (s.(artifact)) (s.(check_definition))
     (s.(verifier)).
End EvidenceIdentity.

Module ControlObservation.
Record t : Type := mk {
  kind : ControlRequirement.t;
  source : Digest;
  rejected : bool;
  intended_reason : bool;
  report : Digest;
}.
#[global] Instance eq_dec : EqDecision t.
Proof. solve_decision. Defined.
#[global] Instance eta_t : Eta t := λ s,
  mk (s.(kind)) (s.(source)) (s.(rejected)) (s.(intended_reason)) (s.(report)).
End ControlObservation.

Module Observation.
Record t : Type := mk {
  status : CheckStatus.t;
  report : Digest;
  assertions : N;
  discovered : option N;
  skipped : N;
  exit_code : option Z;
  signal : option Z;
  control : option ControlObservation.t;
  baseline_unchanged : bool;
  limitations : list string;
  unreconciled_jobs : list Uuid;
}.
#[global] Instance eq_dec : EqDecision t.
Proof. solve_decision. Defined.
#[global] Instance eta_t : Eta t := λ s,
  mk (s.(status)) (s.(report)) (s.(assertions)) (s.(discovered)) (s.(skipped)) (s.(exit_code))
     (s.(signal)) (s.(control)) (s.(baseline_unchanged)) (s.(limitations)) (s.(unreconciled_jobs)).
End Observation.

Module Evidence.
Record t : Type := mk {
  job_id : Uuid;
  generation : N;
  check : string;
  identity : EvidenceIdentity.t;
  started_ms : N;
  finished_ms : N;
  observation : Observation.t;
}.
#[global] Instance eq_dec : EqDecision t.
Proof. solve_decision. Defined.
#[global] Instance eta_t : Eta t := λ s,
  mk (s.(job_id)) (s.(generation)) (s.(check)) (s.(identity)) (s.(started_ms)) (s.(finished_ms))
     (s.(observation)).
End Evidence.

Module JobInvocation.
Record t : Type := mk {
  session : Uuid;
  request : Uuid;
  call_id : option string;
  capability : string;
  input : Digest;
  environment : Digest;
}.
#[global] Instance eq_dec : EqDecision t.
Proof. solve_decision. Defined.
#[global] Instance eta_t : Eta t := λ s,
  mk (s.(session)) (s.(request)) (s.(call_id)) (s.(capability)) (s.(input)) (s.(environment)).
End JobInvocation.

Module Job.
Record t : Type := mk {
  id : Uuid;
  generation : N;
  status : JobStatus.t;
  mutates_candidate : bool;
  check : option string;
  identity : option EvidenceIdentity.t;
  started_ms : N;
  deadline_ms : N;
  invocation : option JobInvocation.t;
  fence_receipt : option Digest;
  execution_receipt : option Digest;
}.
#[global] Instance eq_dec : EqDecision t.
Proof. solve_decision. Defined.
#[global] Instance eta_t : Eta t := λ s,
  mk (s.(id)) (s.(generation)) (s.(status)) (s.(mutates_candidate)) (s.(check)) (s.(identity))
     (s.(started_ms)) (s.(deadline_ms)) (s.(invocation)) (s.(fence_receipt)) (s.(execution_receipt)).
End Job.

Module Effect.
Record t : Type := mk {
  operation_id : Uuid;
  description : string;
  status : EffectStatus.t;
  idempotent : bool;
}.
#[global] Instance eq_dec : EqDecision t.
Proof. solve_decision. Defined.
#[global] Instance eta_t : Eta t := λ s,
  mk (s.(operation_id)) (s.(description)) (s.(status)) (s.(idempotent)).
End Effect.

Module Finding.
Record t : Type := mk {
  id : string;
  description : string;
  blocking : bool;
  resolved : bool;
  resolution : option string;
}.
#[global] Instance eq_dec : EqDecision t.
Proof. solve_decision. Defined.
#[global] Instance eta_t : Eta t := λ s,
  mk (s.(id)) (s.(description)) (s.(blocking)) (s.(resolved)) (s.(resolution)).
End Finding.

Module Delivery.
Record t : Type := mk {
  kind : DeliveryKind.t;
  source : Digest;
  artifact : Digest;
  receipt : Digest;
}.
#[global] Instance eq_dec : EqDecision t.
Proof. solve_decision. Defined.
#[global] Instance eta_t : Eta t := λ s,
  mk (s.(kind)) (s.(source)) (s.(artifact)) (s.(receipt)).
End Delivery.

Module Certificate.
Record t : Type := mk {
  task : Uuid;
  contract : Digest;
  source : Digest;
  artifact : Digest;
  environment : Digest;
  generation : N;
  evaluated_revision : N;
  evidence : gmap string Uuid;
  delivery_receipt : Digest;
}.
#[global] Instance eq_dec : EqDecision t.
Proof. solve_decision. Defined.
#[global] Instance eta_t : Eta t := λ s,
  mk (s.(task)) (s.(contract)) (s.(source)) (s.(artifact)) (s.(environment)) (s.(generation))
     (s.(evaluated_revision)) (s.(evidence)) (s.(delivery_receipt)).
End Certificate.

Module Usage.
Record t : Type := mk {
  model_calls : N;
  tokens : N;
}.
#[global] Instance eq_dec : EqDecision t.
Proof. solve_decision. Defined.
#[global] Instance eta_t : Eta t := λ s,
  mk (s.(model_calls)) (s.(tokens)).
End Usage.

Module ModelCallReceipt.
Record t : Type := mk {
  status : ModelCallStatus.t;
  tokens : option N;
  report : Digest;
}.
#[global] Instance eq_dec : EqDecision t.
Proof. solve_decision. Defined.
#[global] Instance eta_t : Eta t := λ s,
  mk (s.(status)) (s.(tokens)) (s.(report)).
End ModelCallReceipt.

(** ** Events *)

Module TaskEvent.
Inductive t : Type :=
| ManualStarted (job : Job.t)
| ManualWorkspace (candidate : Candidate.t) (origin : Digest)
| WorkspaceRestored (source : Digest)
| OriginCaptured (source : Digest)
| DirectiveReplaced (request : Uuid) (input : Digest)
| DirectiveReceived (request : Uuid) (input : Digest)
| AdditiveContractAccepted (contract : Contract.t) (receipt : Digest) (scope_revision : N)
| Requested (request : string) (limits : Limits.t) (intake : Digest) (input : option Digest)
    (at_ms : N)
| ContractAdmitted (contract : Contract.t) (basis : string) (receipt : Digest)
| Created (contract : Contract.t) (at_ms : N)
| ContractAmended (contract : Contract.t) (reason : string)
| CandidateSelected (candidate : Candidate.t)
| WorkspaceChanged (reason : string)
| EvidenceInvalidated (reason : string)
| CancellationRequested
| BaselineEstablished (candidate : Candidate.t)
| PhaseChanged (phase : Phase)
| JobStarted (job : Job.t)
| JobSettled (id : Uuid) (status : JobStatus.t) (receipt : option Digest)
| JobFenced (id : Uuid) (receipt : Digest)
| Observed (evidence : Evidence.t)
| EffectRecorded (effect : Effect.t)
| FindingRecorded (finding : Finding.t)
| ModelCallReserved (operation : Uuid)
| ModelCallRecorded (operation : Uuid) (receipt : ModelCallReceipt.t)
| UsageCharged (operation : Uuid) (usage : Usage.t)
| Delivered (delivery : Delivery.t)
| Completed (certificate : Certificate.t)
| Stopped (outcome : Outcome.t) (reason : string)
| Reopened (reason : string)
| Interrupted (reason : string).
#[global] Instance eq_dec : EqDecision t.
Proof. solve_decision. Defined.
End TaskEvent.

(** [apply] fails when a contract cannot be serialized; its [unreachable!] arm
    is a panic. *)
Inductive ApplyError : Type := SerdeError | Unreachable.
#[global] Instance ApplyError_eq_dec : EqDecision ApplyError.
Proof. solve_decision. Defined.

(** ** State *)

Module TaskState.
Record t : Type := mk {
  workspace_origin : option Digest;
  workspace_override : option Digest;
  origin : option Digest;
  id : Uuid;
  revision : N;
  generation : N;
  scope_revision : N;
  admitted_scope_revision : N;
  directive_scopes : gmap Uuid N;
  directives : list (Uuid * Digest);
  amendment_pending : bool;
  started_ms : N;
  request : string;
  initial_limits : Limits.t;
  intake : option Digest;
  input : option Digest;
  contract : option Contract.t;
  contract_admission : option Digest;
  contract_history : list (Digest * string);
  phase : Phase;
  outcome : option Outcome.t;
  cancellation_requested : bool;
  disposition_reason : option string;
  candidate : option Candidate.t;
  baseline : option Candidate.t;
  evidence : list Evidence.t;
  jobs : gmap Uuid Job.t;
  effects : gmap Uuid Effect.t;
  findings : gmap string Finding.t;
  usage : Usage.t;
  model_reservations : gset Uuid;
  model_receipts : gmap Uuid ModelCallReceipt.t;
  usage_receipts : gmap Uuid Usage.t;
  delivery : option Delivery.t;
  certificates : list Certificate.t;
}.
#[global] Instance eq_dec : EqDecision t.
Proof. solve_decision. Defined.
#[global] Instance eta_t : Eta t := λ s,
  mk (s.(workspace_origin)) (s.(workspace_override)) (s.(origin)) (s.(id)) (s.(revision))
     (s.(generation)) (s.(scope_revision)) (s.(admitted_scope_revision)) (s.(directive_scopes))
     (s.(directives)) (s.(amendment_pending)) (s.(started_ms)) (s.(request)) (s.(initial_limits))
     (s.(intake)) (s.(input)) (s.(contract)) (s.(contract_admission)) (s.(contract_history))
     (s.(phase)) (s.(outcome)) (s.(cancellation_requested)) (s.(disposition_reason)) (s.(candidate))
     (s.(baseline)) (s.(evidence)) (s.(jobs)) (s.(effects)) (s.(findings)) (s.(usage))
     (s.(model_reservations)) (s.(model_receipts)) (s.(usage_receipts)) (s.(delivery))
     (s.(certificates)).

Definition requested (id : Uuid) (request : string) (limits : Limits.t) (started_ms : N)
    (intake input : option Digest) : t := {|
  origin := None;
  workspace_origin := None;
  workspace_override := None;
  id := id;
  revision := 1;
  generation := 1;
  scope_revision := 0;
  admitted_scope_revision := 0;
  directive_scopes := ∅;
  directives := [];
  amendment_pending := false;
  started_ms := started_ms;
  request := request;
  initial_limits := limits;
  intake := intake;
  input := input;
  contract := None;
  contract_admission := None;
  contract_history := [];
  phase := Understand;
  outcome := None;
  cancellation_requested := false;
  disposition_reason := None;
  candidate := None;
  baseline := None;
  evidence := [];
  jobs := ∅;
  effects := ∅;
  findings := ∅;
  usage := Usage.mk 0 0;
  model_reservations := ∅;
  model_receipts := ∅;
  usage_receipts := ∅;
  delivery := None;
  certificates := [];
|}.

Definition created (id : Uuid) (c : Contract.t) (started_ms : N) : t :=
  requested id (Contract.request c) (Contract.limits c) started_ms None None
    <| contract := Some c |>.

(** [accepted_contract]; [None] is [ContractPending]. *)
Definition accepted_contract (s : t) : option Contract.t := contract s.

(** [limits]: those of the accepted contract, else those of the request. *)
Definition limits (s : t) : Limits.t :=
  match contract s with Some c => Contract.limits c | None => initial_limits s end.

Definition invalidate (s : t) : t :=
  s <| generation := u64_succ (generation s) |> <| delivery := None |>.

(** The first directive of [request] gets the new input ([iter_mut().find]). *)
Fixpoint replace_directive (request : Uuid) (input : Digest) (l : list (Uuid * Digest)) :
    list (Uuid * Digest) :=
  match l with
  | [] => []
  | (id, old) :: l =>
      if (id =? request)%N then (id, input) :: l
      else (id, old) :: replace_directive request input l
  end.

(** A follow-up of the user reopens the task and awaits admission. *)
Definition directive_scope (s : t) (request : Uuid) : t :=
  let s := s <| scope_revision := u64_succ (scope_revision s) |> in
  let s := s <| directive_scopes := <[request := scope_revision s]> (directive_scopes s) |> in
  let s := s <| amendment_pending := true |> in
  let s := invalidate s in
  s <| outcome := None |> <| disposition_reason := None |>.

(** [self.contract_history.push((previous.digest()?, reason))] when a contract is
    replaced. *)
Definition push_history {SHA : Sha256} `{!Serde Contract.t} (s : t) (reason : string) :
    result t ApplyError :=
  match contract s with
  | Some previous =>
      let? d := ok_or (Contract.digest previous) SerdeError in
      Ok (s <| contract_history := contract_history s ++ [(d, reason)] |>)
  | None => Ok s
  end.

(** A completed task that turns out to have exceeded its budget is withdrawn. *)
Definition withdraw (s : t) (reason : string) : t :=
  invalidate s <| outcome := Some Outcome.BudgetExhausted |> <| disposition_reason := Some reason |>.

(** The status an observation gives its job. *)
Definition observed_status (o : Observation.t) : JobStatus.t :=
  match Observation.unreconciled_jobs o with
  | _ :: _ => JobStatus.Unknown
  | [] => if bool_decide (Observation.status o = CheckStatus.Passed)
          then JobStatus.Succeeded else JobStatus.Failed
  end.

Definition interrupt_job (j : Job.t) : Job.t :=
  if bool_decide (Job.status j = JobStatus.Running)
  then j <| Job.status := JobStatus.Unknown |> else j.
Definition interrupt_effect (e : Effect.t) : Effect.t :=
  if bool_decide (Effect.status e = EffectStatus.Intended)
  then e <| Effect.status := EffectStatus.Unknown |> else e.

Section apply.
Context {SHA : Sha256} `{!Serde Contract.t}.

(** The [match] of [apply]: everything but the revision. *)
Definition apply_event (s : t) (event : TaskEvent.t) : result t ApplyError :=
  match event with
  | TaskEvent.ManualStarted job =>
      let s := invalidate s in
      let s := s <| scope_revision := u64_succ (scope_revision s) |> in
      Ok (s <| outcome := None |> <| cancellation_requested := false |>
            <| jobs := <[Job.id job := job]> (jobs s) |>)
  | TaskEvent.ManualWorkspace c o =>
      Ok (s <| workspace_override := Some (Candidate.source c) |>
            <| workspace_origin := Some o |> <| candidate := Some c |>)
  | TaskEvent.WorkspaceRestored _ => Ok (s <| workspace_override := None |>)
  | TaskEvent.OriginCaptured source =>
      Ok (s <| origin := Some source |> <| workspace_origin := Some source |>)
  | TaskEvent.DirectiveReplaced request input =>
      Ok (directive_scope (s <| directives := replace_directive request input (directives s) |>) request)
  | TaskEvent.DirectiveReceived request input =>
      Ok (directive_scope (s <| directives := directives s ++ [(request, input)] |>) request)
  | TaskEvent.AdditiveContractAccepted c receipt _ =>
      let? s := push_history s ("user follow-up admission " +:+ digest_to_string receipt) in
      let s := s <| contract := Some c |> <| contract_admission := Some receipt |>
                 <| amendment_pending := false |> in
      Ok (invalidate (s <| admitted_scope_revision := scope_revision s |>))
  | TaskEvent.Requested _ _ _ _ _ | TaskEvent.Created _ _ => Err Unreachable
  | TaskEvent.ContractAdmitted c _ receipt =>
      Ok (invalidate (s <| contract := Some c |> <| contract_admission := Some receipt |>))
  | TaskEvent.ContractAmended c reason =>
      let? s := push_history s reason in
      Ok (invalidate (s <| contract := Some c |>))
  | TaskEvent.CandidateSelected c => Ok (invalidate s <| candidate := Some c |>)
  | TaskEvent.WorkspaceChanged _ => Ok (invalidate s <| candidate := None |>)
  | TaskEvent.EvidenceInvalidated reason =>
      Ok (invalidate s <| outcome := Some Outcome.Blocked |> <| disposition_reason := Some reason |>)
  | TaskEvent.CancellationRequested => Ok (s <| cancellation_requested := true |>)
  | TaskEvent.BaselineEstablished c => Ok (s <| baseline := Some c |>)
  | TaskEvent.PhaseChanged p => Ok (s <| phase := p |>)
  | TaskEvent.JobStarted job => Ok (s <| jobs := <[Job.id job := job]> (jobs s) |>)
  | TaskEvent.JobSettled id status receipt =>
      Ok (s <| jobs := alter (λ j, j <| Job.status := status |>
                                     <| Job.execution_receipt := receipt |>) id (jobs s) |>)
  | TaskEvent.JobFenced id receipt =>
      Ok (s <| jobs := alter (λ j, j <| Job.status := JobStatus.Fenced |>
                                     <| Job.fence_receipt := Some receipt |>) id (jobs s) |>)
  | TaskEvent.Observed e =>
      let s := s <| jobs := alter (λ j, j <| Job.status := observed_status (Evidence.observation e) |>)
                              (Evidence.job_id e) (jobs s) |> in
      Ok (s <| evidence := evidence s ++ [e] |>)
  | TaskEvent.EffectRecorded e =>
      Ok (s <| effects := <[Effect.operation_id e := e]> (effects s) |>)
  | TaskEvent.FindingRecorded f =>
      Ok (s <| findings := <[Finding.id f := f]> (findings s) |>)
  | TaskEvent.ModelCallReserved operation =>
      Ok (s <| model_reservations := {[operation]} ∪ model_reservations s |>
            <| usage := usage s <| Usage.model_calls :=
                 u32_saturating_add (Usage.model_calls (usage s)) 1 |> |>)
  | TaskEvent.ModelCallRecorded operation receipt =>
      let previous := default 0%N (model_receipts s !! operation ≫= ModelCallReceipt.tokens) in
      let s := s <| usage := usage s <| Usage.tokens :=
                   u64_saturating_add (Usage.tokens (usage s))
                     (saturating_sub (default 0%N (ModelCallReceipt.tokens receipt)) previous) |> |> in
      let s := s <| model_receipts := <[operation := receipt]> (model_receipts s) |> in
      Ok (if bool_decide (outcome s = Some Outcome.Complete)
             && (Limits.tokens (limits s) <? Usage.tokens (usage s))%N
          then withdraw s "late provider accounting exceeded the task budget" else s)
  | TaskEvent.UsageCharged operation u =>
      let s := s <| usage_receipts := <[operation := u]> (usage_receipts s) |> in
      let s := s <| usage := Usage.mk
                   (u32_saturating_add (Usage.model_calls (usage s)) (Usage.model_calls u))
                   (u64_saturating_add (Usage.tokens (usage s)) (Usage.tokens u)) |> in
      Ok (if bool_decide (outcome s = Some Outcome.Complete)
             && ((Limits.model_calls (limits s) <? Usage.model_calls (usage s))%N
                 || (Limits.tokens (limits s) <? Usage.tokens (usage s))%N)
          then withdraw s "late accounting exceeded the task budget; the earlier certificate remains historical"
          else s)
  | TaskEvent.Delivered d => Ok (s <| delivery := Some d |>)
  | TaskEvent.Completed certificate =>
      Ok (s <| certificates := certificates s ++ [certificate] |>
            <| outcome := Some Outcome.Complete |>)
  | TaskEvent.Stopped o reason =>
      Ok (s <| outcome := Some o |> <| disposition_reason := Some reason |>)
  | TaskEvent.Reopened _ =>
      Ok (invalidate s <| outcome := None |> <| disposition_reason := None |>
            <| cancellation_requested := false |>)
  | TaskEvent.Interrupted reason =>
      let s := invalidate s in
      let s := s <| outcome := Some (if cancellation_requested s then Outcome.Cancelled
                                     else Outcome.Blocked) |>
                 <| disposition_reason := Some reason |> in
      Ok (s <| jobs := interrupt_job <$> jobs s |> <| effects := interrupt_effect <$> effects s |>)
  end.

Definition apply (s : t) (event : TaskEvent.t) : result t ApplyError :=
  let? s := apply_event s event in
  Ok (s <| revision := u64_succ (revision s) |>).
End apply.
End TaskState.

(** ** Lemmas *)

Section lemmas.
Import TaskState.
Context {SHA : Sha256} `{!Serde Contract.t}.
Implicit Types (s : TaskState.t) (e : TaskEvent.t).

(** The successor states of [apply_event], one per event and branch. *)
Ltac apply_cases :=
  match goal with
  | H : apply ?s ?e = Ok _ |- _ =>
      unfold apply in H; apply rbind_Ok in H;
      let s1 := fresh "s1" in
      destruct H as (s1 & H & [= <-]);
      destruct e; cbn [apply_event] in H;
      try discriminate H;
      try (apply rbind_Ok in H; let s2 := fresh "s2" in let Hp := fresh "Hp" in
           destruct H as (s2 & Hp & H); unfold push_history in Hp;
           destruct (contract s) eqn:?;
           [apply rbind_Ok in Hp; destruct Hp as (? & ? & Hp)|]; injection Hp as <-);
      injection H as <-;
      try match goal with |- context [if ?b then withdraw _ _ else _] => destruct b eqn:? end;
      unfold withdraw, directive_scope, invalidate
  end.

Lemma apply_revision s e s' : apply s e = Ok s' → revision s' = u64_succ (revision s).
Proof. intros H. apply_cases; reflexivity. Qed.

Lemma apply_identity s e s' :
  apply s e = Ok s' → id s' = id s ∧ started_ms s' = started_ms s ∧ request s' = request s ∧
  initial_limits s' = initial_limits s ∧ intake s' = intake s ∧ input s' = input s.
Proof. intros H. apply_cases; repeat split; reflexivity. Qed.

Lemma apply_generation s e s' :
  apply s e = Ok s' →
  generation s' = generation s ∨ (generation s' = u64_succ (generation s) ∧ delivery s' = None).
Proof. intros H. apply_cases; (left; reflexivity) || (right; split; reflexivity). Qed.

(** Counters only move forward and stay within the revision. *)
Record counters_ok s : Prop := {
  co_generation : (1 ≤ generation s ≤ revision s)%N;
  co_scope : (scope_revision s < revision s)%N;
  co_admitted : (admitted_scope_revision s ≤ scope_revision s)%N;
  co_directives r n : directive_scopes s !! r = Some n → (1 ≤ n ≤ scope_revision s)%N;
}.

Lemma apply_counters_aux s e s' :
  (revision s < u64_MAX)%N → counters_ok s → apply s e = Ok s' → counters_ok s'.
Proof.
  intros Hmax [Hg Hs Ha Hd] H. apply_cases; split; cbn;
    rewrite ?(u64_succ_small (revision s)), ?(u64_succ_small (generation s)),
      ?(u64_succ_small (scope_revision s)) by lia; try lia; try exact Hd;
    intros r n; try (intros Hn%Hd; lia).
  all: try (rewrite lookup_insert_Some; intros [[_ <-]|[_ Hn%Hd]]; lia).
Qed.

(** The accounts of a task: what providers and tools reported is covered. *)
Definition receipt_tokens (r : ModelCallReceipt.t) : N := default 0%N (ModelCallReceipt.tokens r).
Definition billed s : N :=
  (map_sum receipt_tokens (model_receipts s) + map_sum Usage.tokens (usage_receipts s))%N.
Record accounts_ok s : Prop := {
  ao_calls : (Usage.model_calls (usage s) ≤ u32_MAX)%N;
  ao_tokens : (Usage.tokens (usage s) ≤ u64_MAX)%N;
  ao_reserved : (N.min (N.of_nat (size (model_reservations s))) u32_MAX ≤ Usage.model_calls (usage s))%N;
  ao_billed : (N.min (billed s) u64_MAX ≤ Usage.tokens (usage s))%N;
}.

Lemma apply_accounts_aux s e s' : accounts_ok s → apply s e = Ok s' → accounts_ok s'.
Proof.
  intros [Hc Ht Hr Hb] H. unfold billed in *.
  apply_cases; split; unfold billed; cbn; try assumption;
    unfold u32_saturating_add, u64_saturating_add, saturating_sub; try lia.
  - destruct (decide (operation ∈ model_reservations s)).
    + replace ({[operation]} ∪ model_reservations s) with (model_reservations s) by set_solver. lia.
    + rewrite size_union, size_singleton by set_solver. lia.
  - pose proof (map_sum_insert receipt_tokens (model_receipts s) operation receipt) as Hsum.
    unfold receipt_tokens in *. destruct (model_receipts s !! operation) as [r|]; simpl in *; lia.
  - pose proof (map_sum_insert receipt_tokens (model_receipts s) operation receipt) as Hsum.
    unfold receipt_tokens in *. destruct (model_receipts s !! operation) as [r|]; simpl in *; lia.
  - pose proof (map_sum_insert Usage.tokens (usage_receipts s) operation usage0) as Hsum. lia.
  - pose proof (map_sum_insert Usage.tokens (usage_receipts s) operation usage0) as Hsum. lia.
Qed.

(** Jobs, effects and findings are stored under their own identifiers. *)
Record keys_ok s : Prop := {
  ko_jobs k j : jobs s !! k = Some j → Job.id j = k;
  ko_effects k f : effects s !! k = Some f → Effect.operation_id f = k;
  ko_findings k f : findings s !! k = Some f → Finding.id f = k;
}.

Lemma apply_keys_aux s e s' : keys_ok s → apply s e = Ok s' → keys_ok s'.
Proof.
  intros [Hj He Hf] H.
  apply_cases; split; cbn; try assumption; intros k v;
    rewrite ?lookup_alter_Some, ?lookup_insert_Some, ?lookup_fmap, ?fmap_Some; try naive_solver.
  - intros (j & Hk & ->). unfold interrupt_job. case_bool_decide; [|by apply Hj].
    cbn. by apply Hj.
  - intros (f & Hk & ->). unfold interrupt_effect. case_bool_decide; [|by apply He].
    cbn. by apply He.
Qed.

(** What one event leaves of the record of the past: nothing is rewritten. *)
Record extends s s' : Prop := {
  ex_evidence : evidence s `prefix_of` evidence s';
  ex_certificates : certificates s `prefix_of` certificates s';
  ex_contracts : contract_history s `prefix_of` contract_history s';
  ex_directives : (directives s).*1 `prefix_of` (directives s').*1;
  ex_reservations : model_reservations s ⊆ model_reservations s';
  ex_receipts k : is_Some (model_receipts s !! k) → is_Some (model_receipts s' !! k);
  ex_charges k : is_Some (usage_receipts s !! k) → is_Some (usage_receipts s' !! k);
  ex_jobs k : is_Some (jobs s !! k) → is_Some (jobs s' !! k);
  ex_effects k : is_Some (effects s !! k) → is_Some (effects s' !! k);
  ex_findings k : is_Some (findings s !! k) → is_Some (findings s' !! k);
}.

Lemma replace_directive_ids request input l : (replace_directive request input l).*1 = l.*1.
Proof. induction l as [|[i d] l IH]; [done|]. simpl. destruct (i =? request)%N; simpl; [done|]. f_equal. exact IH. Qed.

Lemma apply_extends_aux s e s' : apply s e = Ok s' → extends s s'.
Proof.
  intros H.
  apply_cases; split; cbn; try done; try (apply prefix_app_r; done); try set_solver; try (intros k);
    rewrite ?lookup_insert_is_Some', ?lookup_fmap, ?fmap_is_Some, ?lookup_alter_is_Some; try done;
    try (intros ?; by right).
  - change (((directives s).*1) `prefix_of` ((replace_directive request0 input0 (directives s)).*1)).
    rewrite replace_directive_ids. done.
  - rewrite fmap_app. by apply prefix_app_r.
Qed.

(** A change of the contract, the candidate or the scope outdates the evidence. *)
Lemma apply_invalidates_aux s e s' :
  apply s e = Ok s' → (∀ c o, e ≠ TaskEvent.ManualWorkspace c o) →
  contract s' ≠ contract s ∨ candidate s' ≠ candidate s ∨ scope_revision s' ≠ scope_revision s →
  generation s' = u64_succ (generation s) ∧ delivery s' = None.
Proof.
  intros H Hman. apply_cases; intros Hchange; try (split; reflexivity); exfalso;
    cbn in Hchange; try naive_solver.
Qed.

(** Accounting that arrives after completion and exceeds the budget withdraws it. *)
Definition within_budget s : Prop :=
  (Usage.tokens (usage s) ≤ Limits.tokens (limits s))%N.

Lemma apply_late_accounting_aux s operation e s' :
  apply s e = Ok s' →
  (∃ receipt, e = TaskEvent.ModelCallRecorded operation receipt) ∨
  (∃ u, e = TaskEvent.UsageCharged operation u) →
  outcome s' = Some Outcome.Complete → within_budget s'.
Proof.
  intros H He. unfold within_budget, limits. apply_cases; destruct He as [[? He]|[? He]]; try discriminate He;
    cbn; intros Ho; try discriminate Ho.
  - apply andb_false_iff in Heqb as [Hb%bool_decide_eq_false|Hb%N.ltb_ge]; [done|exact Hb].
  - apply andb_false_iff in Heqb as [Hb%bool_decide_eq_false|Hb]; [done|].
    apply orb_false_iff in Hb as [_ Hb%N.ltb_ge]. exact Hb.
Qed.

Lemma apply_usage_mono s e s' :
  accounts_ok s → apply s e = Ok s' →
  (Usage.tokens (usage s) ≤ Usage.tokens (usage s'))%N ∧
  (Usage.model_calls (usage s) ≤ Usage.model_calls (usage s'))%N.
Proof.
  intros [Hc Ht _ _] H.
  apply_cases; cbn; unfold u32_saturating_add, u64_saturating_add, saturating_sub; lia.
Qed.
End lemmas.

(** ** Properties *)

Section properties.
Import TaskState.
Context {SHA : Sha256} `{!Serde Contract.t}.
Implicit Types (s : TaskState.t) (e : TaskEvent.t).

(** [apply] fails exactly where the source does: on the two creation events,
    which it does not accept, and when a contract that is being replaced cannot
    be serialized for the history. Every other event is applied, and moves the
    revision by one without touching the identity of the task. *)
Theorem apply_total s e :
  (apply s e = Err Unreachable ∧
     ((∃ c at_ms, e = TaskEvent.Created c at_ms) ∨
      (∃ r l i inp at_ms, e = TaskEvent.Requested r l i inp at_ms))) ∨
  (apply s e = Err SerdeError ∧ (∃ c, contract s = Some c ∧ Contract.digest c = None) ∧
     ((∃ c reason, e = TaskEvent.ContractAmended c reason) ∨
      (∃ c r n, e = TaskEvent.AdditiveContractAccepted c r n))) ∨
  ∃ s', apply s e = Ok s' ∧ revision s' = u64_succ (revision s) ∧ id s' = id s ∧
    started_ms s' = started_ms s ∧ request s' = request s ∧ initial_limits s' = initial_limits s ∧
    intake s' = intake s ∧ input s' = input s.
Proof.
  assert (Hok : ∀ s', apply s e = Ok s' → ∃ s', apply s e = Ok s' ∧
    revision s' = u64_succ (revision s) ∧ id s' = id s ∧ started_ms s' = started_ms s ∧
    request s' = request s ∧ initial_limits s' = initial_limits s ∧
    intake s' = intake s ∧ input s' = input s).
  { intros s' H. exists s'. split; [done|]. split; [by eapply apply_revision|].
    by eapply apply_identity. }
  destruct e; try (right; right; eapply Hok; reflexivity).
  - unfold apply, apply_event, push_history in *. destruct (contract s) as [c|] eqn:Hc.
    + destruct (Contract.digest c) eqn:Hd; [|right; left; naive_solver].
      right. right. eapply Hok. reflexivity.
    + right. right. eapply Hok. reflexivity.
  - left. naive_solver.
  - left. naive_solver.
  - unfold apply, apply_event, push_history in *. destruct (contract s) as [c|] eqn:Hc.
    + destruct (Contract.digest c) eqn:Hd; [|right; left; naive_solver].
      right. right. eapply Hok. reflexivity.
    + right. right. eapply Hok. reflexivity.
Qed.

(** One event keeps the counters of a task in order: the generation and the
    scope stay within the revision, the admitted scope within the scope, and every
    directive's scope is one the task has reached. *)
Theorem apply_counters s e s' :
  (revision s < u64_MAX)%N → counters_ok s → apply s e = Ok s' → counters_ok s'.
Proof. apply apply_counters_aux. Qed.

(** No reported usage is lost. In every state reached by events, the token
    count is at least everything the provider and tool receipts on record bill,
    and the call count at least the number of reserved calls, up to the width of
    the counters; repeating a receipt never lowers them. *)
Theorem apply_accounts s e s' :
  accounts_ok s → apply s e = Ok s' →
  accounts_ok s' ∧ (Usage.tokens (usage s) ≤ Usage.tokens (usage s'))%N ∧
  (Usage.model_calls (usage s) ≤ Usage.model_calls (usage s'))%N.
Proof.
  intros Ha H. split; [by eapply apply_accounts_aux|by eapply apply_usage_mono].
Qed.

(** The record of a task only grows: evidence, certificates and the contract
    history are extended at the end, directives keep their order and identities,
    and no reservation, receipt, job, effect or finding is ever dropped. *)
Theorem apply_extends s e s' : apply s e = Ok s' → extends s s'.
Proof. apply apply_extends_aux. Qed.

(** Whenever an event changes the contract, the candidate or the scope of the
    task, it starts a new generation, so that evidence of the old one no longer
    counts, and withdraws the delivery. The one exception is the workspace of a
    manual run, whose start has already done so. *)
Theorem apply_invalidates s e s' :
  apply s e = Ok s' → (∀ c o, e ≠ TaskEvent.ManualWorkspace c o) →
  contract s' ≠ contract s ∨ candidate s' ≠ candidate s ∨ scope_revision s' ≠ scope_revision s →
  generation s' = u64_succ (generation s) ∧ delivery s' = None.
Proof. apply apply_invalidates_aux. Qed.

(** Token accounting that arrives after completion and exceeds the budget
    withdraws the completion: a task that is still complete after a provider or
    tool receipt is within its token limit. *)
Theorem late_accounting_within_budget s operation e s' :
  apply s e = Ok s' →
  (∃ receipt, e = TaskEvent.ModelCallRecorded operation receipt) ∨
  (∃ u, e = TaskEvent.UsageCharged operation u) →
  outcome s' = Some Outcome.Complete → within_budget s'.
Proof. apply apply_late_accounting_aux. Qed.

(** After an interruption nothing is left believed to be running: running
    jobs and intended effects become unknown, everything else about jobs and
    effects is kept, the outcome is cancelled exactly when cancellation had been
    requested and blocked otherwise, and a new generation starts. *)
Theorem interrupted_unsettles s reason :
  ∃ s', apply s (TaskEvent.Interrupted reason) = Ok s' ∧
    outcome s' = Some (if cancellation_requested s then Outcome.Cancelled else Outcome.Blocked) ∧
    generation s' = u64_succ (generation s) ∧ delivery s' = None ∧
    (∀ k j, jobs s' !! k = Some j → Job.status j ≠ JobStatus.Running ∧
       ∃ j0, jobs s !! k = Some j0 ∧
         (j = j0 ∨ (Job.status j0 = JobStatus.Running ∧ j = j0 <| Job.status := JobStatus.Unknown |>))) ∧
    (∀ k f, effects s' !! k = Some f → Effect.status f ≠ EffectStatus.Intended ∧
       ∃ f0, effects s !! k = Some f0 ∧
         (f = f0 ∨ (Effect.status f0 = EffectStatus.Intended ∧
                    f = f0 <| Effect.status := EffectStatus.Unknown |>))) ∧
    (∀ k, is_Some (jobs s !! k) → is_Some (jobs s' !! k)) ∧
    (∀ k, is_Some (effects s !! k) → is_Some (effects s' !! k)).
Proof.
  eexists. split; [reflexivity|]. cbn. split_and!; try done.
  - intros k j. rewrite lookup_fmap, fmap_Some. intros (j0 & Hk & ->). unfold interrupt_job.
    case_bool_decide; [split; [done|]|]; eauto 10.
  - intros k f. rewrite lookup_fmap, fmap_Some. intros (f0 & Hk & ->). unfold interrupt_effect.
    case_bool_decide; [split; [done|]|]; eauto 10.
  - intros k. by rewrite lookup_fmap, fmap_is_Some.
  - intros k. by rewrite lookup_fmap, fmap_is_Some.
Qed.
End properties.

(** ** Witnesses *)

Section witnesses.
Import TaskState.

Definition demo_contract_code (c : Contract.t) : option string := Some (Contract.request c).
#[local] Instance demo_serde : Serde Contract.t := {| to_vec := demo_contract_code; from_slice _ := None |}.
#[local] Instance demo_sha : Sha256 := checksum_sha256.

Definition demo_state : TaskState.t := created 7 (demo_contract false) 5.
Definition demo_candidate : Candidate.t :=
  Candidate.mk (checksum "source") (checksum "environment") (checksum "artifact") true None.
Definition demo_complete : TaskState.t := demo_state <| outcome := Some Outcome.Complete |>.
Definition demo_receipt (n : N) : ModelCallReceipt.t :=
  ModelCallReceipt.mk ModelCallStatus.Completed (Some n) (checksum "report").

Lemma demo_counters : counters_ok demo_state.
Proof. split; try (vm_compute; split; discriminate || reflexivity); try (vm_compute; discriminate || reflexivity). Qed.
Lemma demo_accounts : accounts_ok demo_state.
Proof. split; vm_compute; discriminate. Qed.

Lemma apply_counters_witness :
  ∃ s', apply demo_state (TaskEvent.DirectiveReceived 3 (checksum "input")) = Ok s' ∧ counters_ok s'.
Proof.
  destruct (apply demo_state (TaskEvent.DirectiveReceived 3 (checksum "input"))) as [s'|err] eqn:H;
    [|vm_compute in H; discriminate H].
  exists s'. split; [reflexivity|].
  apply (apply_counters demo_state (TaskEvent.DirectiveReceived 3 (checksum "input")) s');
    [vm_compute; reflexivity|exact demo_counters|exact H].
Defined.

Lemma apply_accounts_witness :
  ∃ s', apply demo_state (TaskEvent.ModelCallRecorded 3 (demo_receipt 40)) = Ok s' ∧
    accounts_ok s' ∧ (Usage.tokens (usage demo_state) ≤ Usage.tokens (usage s'))%N ∧
    (Usage.model_calls (usage demo_state) ≤ Usage.model_calls (usage s'))%N.
Proof.
  destruct (apply demo_state (TaskEvent.ModelCallRecorded 3 (demo_receipt 40))) as [s'|err] eqn:H;
    [|vm_compute in H; discriminate H].
  exists s'. split; [reflexivity|].
  apply (apply_accounts demo_state (TaskEvent.ModelCallRecorded 3 (demo_receipt 40)) s');
    [exact demo_accounts|exact H].
Defined.

Lemma apply_extends_witness :
  ∃ s', apply demo_state (TaskEvent.ContractAmended (demo_contract false) "wider") = Ok s' ∧
    extends demo_state s'.
Proof.
  destruct (apply demo_state (TaskEvent.ContractAmended (demo_contract false) "wider")) as [s'|err] eqn:H;
    [|vm_compute in H; discriminate H].
  exists s'. split; [reflexivity|].
  exact (apply_extends demo_state (TaskEvent.ContractAmended (demo_contract false) "wider") s' H).
Defined.

Lemma apply_invalidates_witness :
  ∃ s', apply demo_state (TaskEvent.CandidateSelected demo_candidate) = Ok s' ∧
    generation s' = u64_succ (generation demo_state) ∧ delivery s' = None.
Proof.
  destruct (apply demo_state (TaskEvent.CandidateSelected demo_candidate)) as [s'|err] eqn:H;
    [|vm_compute in H; discriminate H].
  exists s'. split; [reflexivity|].
  apply (apply_invalidates demo_state (TaskEvent.CandidateSelected demo_candidate) s' H).
  - intros c o. discriminate.
  - right. left. vm_compute in H. injection H as <-. vm_compute. discriminate.
Defined.

Lemma late_accounting_within_budget_witness :
  ∃ s', apply demo_complete (TaskEvent.ModelCallRecorded 3 (demo_receipt 40)) = Ok s' ∧
    within_budget s'.
Proof.
  destruct (apply demo_complete (TaskEvent.ModelCallRecorded 3 (demo_receipt 40))) as [s'|err] eqn:H;
    [|vm_compute in H; discriminate H].
  exists s'. split; [reflexivity|].
  apply (late_accounting_within_budget demo_complete 3 _ s' H); [left; eexists; reflexivity|].
  vm_compute in H. injection H as <-. reflexivity.
Defined.
End witnesses.
