(* ===== verification/Completion.v ===== *)
(** * The completion evaluator (crates/harness/src/completion.rs)

    [evaluate] decides whether a task may be certified complete: it either lists
    every obligation that is not met, or returns the certificate that names the
    evidence accepted for each acceptance check. *)

From S2P Require Import Prelude Digest Codec Contract State.

Module Rejection.
Record t : Type := mk {
  obligation : option string;
  reason : string;
}.
#[global] Instance eq_dec : EqDecision t.
Proof. solve_decision. Defined.
End Rejection.

(** [reject(None, reason)] when the condition holds. *)
Definition reject_when (c : bool) (reason : string) : list Rejection.t :=
  if c then [Rejection.mk None reason] else [].

Definition unresolved_finding (f : Finding.t) : bool := Finding.blocking f && negb (Finding.resolved f).
Definition unsettled_effect (e : Effect.t) : bool :=
  match Effect.status e with EffectStatus.Intended | EffectStatus.Unknown => true | _ => false end.
Definition fenced_without_receipt (j : Job.t) : bool :=
  bool_decide (Job.status j = JobStatus.Fenced) && bool_decide (Job.fence_receipt j = None).
(** An admitted provider call whose outcome or billing is not known. *)
Definition unknown_call (s : TaskState.t) (operation : Uuid) : bool :=
  negb match TaskState.model_receipts s !! operation with
       | Some receipt => bool_decide (ModelCallReceipt.tokens receipt ≠ None)
                         && bool_decide (ModelCallReceipt.status receipt ≠ ModelCallStatus.Unknown)
       | None => false
       end.

(** The rejections that do not depend on the candidate, in the order of the source. *)
Definition task_rejections (s : TaskState.t) (c : Contract.t) (at_ms : N) : list Rejection.t :=
  reject_when (bool_decide (Contract.validate c ≠ Ok tt)) "invalid contract"
  ++ reject_when (bool_decide (TaskState.outcome s ≠ None)) "task already has a terminal outcome"
  ++ reject_when (TaskState.cancellation_requested s) "cancellation has been requested"
  ++ reject_when (TaskState.amendment_pending s)
       "user follow-up has not been admitted into the task contract"
  ++ reject_when (bool_decide (Contract.open_questions c ≠ [])) "required product decisions remain open"
  ++ ((λ f, Rejection.mk (Some (Finding.id f)) (Finding.description f)) <$>
        base.filter (λ f, unresolved_finding f = true) (btree_values (TaskState.findings s)))
  ++ reject_when (any_value (λ j, JobStatus.unresolved (Job.status j)) (TaskState.jobs s))
       "jobs remain running or have unknown outcomes"
  ++ reject_when (any_value fenced_without_receipt (TaskState.jobs s))
       "a fenced job has no termination receipt"
  ++ reject_when (existsb (unknown_call s) (bset_iter (TaskState.model_reservations s)))
       "provider attempts have unknown outcomes or billing"
  ++ reject_when (any_value unsettled_effect (TaskState.effects s))
       "external effects require reconciliation"
  ++ reject_when ((Limits.tokens (Contract.limits c) <? Usage.tokens (TaskState.usage s))%N
                  || (Limits.model_calls (Contract.limits c) <? Usage.model_calls (TaskState.usage s))%N
                  || (Limits.elapsed_ms (Contract.limits c) <=?
                        saturating_sub at_ms (TaskState.started_ms s))%N)
       "execution budget exceeded".

(** The attempts of a check that count: same check, same identity. *)
Definition attempts (s : TaskState.t) (check_id : string) (identity : EvidenceIdentity.t) :
    list Evidence.t :=
  base.filter (λ e, Evidence.check e = check_id ∧ Evidence.identity e = identity) (TaskState.evidence s).

Definition passed (o : Observation.t) : bool :=
  bool_decide (Observation.status o = CheckStatus.Passed)
  && bool_decide (Observation.exit_code o = Some 0%Z) && bool_decide (Observation.signal o = None).
Definition baseline_allowed (check : CheckDefinition.t) (o : Observation.t) : bool :=
  match CheckDefinition.baseline check with NoNewFailure _ _ => true | MustPass => false end
  && bool_decide (Observation.status o = CheckStatus.Failed)
  && Observation.baseline_unchanged o && bool_decide (Observation.signal o = None).
Definition assertions_missing (check : CheckDefinition.t) (o : Observation.t) : bool :=
  (Observation.assertions o <? CheckDefinition.minimum_assertions check)%N
  || bool_decide (Observation.discovered o = Some 0%N)
  || match Observation.discovered o with Some n => (n <=? Observation.skipped o)%N | None => false end.
Definition expected_control_source (s : TaskState.t) (check : CheckDefinition.t) : option Digest :=
  match CheckDefinition.control check with
  | ControlRequirement.BaselineFailure => Candidate.source <$> TaskState.baseline s
  | ControlRequirement.NegativeControl => CheckDefinition.control_source check
  | ControlRequirement.None => None
  end.
Definition valid_control (s : TaskState.t) (check : CheckDefinition.t) (o : Observation.t) : bool :=
  match Observation.control o with
  | Some control =>
      ControlObservation.rejected control && ControlObservation.intended_reason control
      && bool_decide (ControlObservation.kind control = CheckDefinition.control check)
      && bool_decide (Some (ControlObservation.source control) = expected_control_source s check)
  | None => false
  end.
Definition control_missing (s : TaskState.t) (check : CheckDefinition.t) (o : Observation.t) : bool :=
  bool_decide (CheckDefinition.control check ≠ ControlRequirement.None) && negb (valid_control s check o).
Definition retry_violated (check : CheckDefinition.t) (l : list Evidence.t) : bool :=
  let failed_before :=
    existsb (λ e, bool_decide (Observation.status (Evidence.observation e) = CheckStatus.Failed))
      (take (length l - 1) l) in
  match CheckDefinition.flake check with
  | RejectAnyFailure => failed_before
  | Retry max_attempts => (max_attempts <? N.of_nat (length l))%N
  end.

Section evaluate.
Context {SHA : Sha256} `{!Serde Contract.t, !Serde CheckDefinition.t} {SET : SerdeErrorText}.

Definition serde_rejection : list Rejection.t := [Rejection.mk None serde_error_text].

Definition check_identity (candidate : Candidate.t) (contract_digest definition_digest : Digest)
    (check : CheckDefinition.t) : EvidenceIdentity.t := {|
  EvidenceIdentity.contract := contract_digest;
  EvidenceIdentity.source := Candidate.source candidate;
  EvidenceIdentity.environment := Candidate.environment candidate;
  EvidenceIdentity.artifact := Candidate.artifact candidate;
  EvidenceIdentity.check_definition := definition_digest;
  EvidenceIdentity.verifier := CheckDefinition.verifier check;
|}.

(** The body of the inner loop for one check: a rejection, or the job whose
    evidence is accepted. *)
Definition check_verdict (s : TaskState.t) (c : Contract.t) (candidate : Candidate.t)
    (contract_digest : Digest) (check_id : string) : result (string + Uuid) (list Rejection.t) :=
  match Contract.checks c !! check_id with
  | None => Ok (inl "acceptance definition is missing")
  | Some check =>
      let? definition_digest := ok_or (of_value check) serde_rejection in
      let l := attempts s check_id (check_identity candidate contract_digest definition_digest check) in
      match last l with
      | Some e =>
          if negb (Evidence.generation e =? TaskState.generation s)%N then
            Ok (inl ("check " +:+ check_id +:+ " has no current evidence"))
          else
          let o := Evidence.observation e in
          if bool_decide (Observation.limitations o ≠ [])
             || bool_decide (Observation.unreconciled_jobs o ≠ []) then
            Ok (inl ("check " +:+ check_id +:+ " has unresolved evidence limitations"))
          else if negb (passed o) && negb (baseline_allowed check o) then
            Ok (inl ("check " +:+ check_id +:+ " did not satisfy its acceptance policy"))
          else if assertions_missing check o then
            Ok (inl ("check " +:+ check_id +:+ " did not exercise its required assertions"))
          else if control_missing s check o then
            Ok (inl ("check " +:+ check_id +:+ " has no valid negative control"))
          else if retry_violated check l then
            Ok (inl ("check " +:+ check_id +:+ " violates its declared retry policy"))
          else Ok (inr (Evidence.job_id e))
      | None => Ok (inl ("check " +:+ check_id +:+ " has no current evidence"))
      end
  end.

(** [reasons] and [accepted] of the source. *)
Definition progress : Type := list Rejection.t * gmap string Uuid.

Definition evaluate_check (s : TaskState.t) (c : Contract.t) (candidate : Candidate.t)
    (contract_digest : Digest) (requirement : Requirement.t) (acc : progress) (check_id : string) :
    result progress (list Rejection.t) :=
  if bool_decide (is_Some (acc.2 !! check_id)) then Ok acc
  else
    let? verdict := check_verdict s c candidate contract_digest check_id in
    Ok match verdict with
       | inl reason => (acc.1 ++ [Rejection.mk (Some (Requirement.id requirement)) reason], acc.2)
       | inr job => (acc.1, <[check_id := job]> acc.2)
       end.

Definition evaluate_checks (s : TaskState.t) (c : Contract.t) (candidate : Candidate.t)
    (contract_digest : Digest) (reasons : list Rejection.t) : result progress (list Rejection.t) :=
  for_each (λ acc requirement,
      for_each (evaluate_check s c candidate contract_digest requirement) acc
        (Requirement.checks requirement))
    (reasons, ∅) (Contract.requirements c).

Definition delivery_mismatch (c : Contract.t) (candidate : Candidate.t) (d : Delivery.t) : bool :=
  bool_decide (Delivery.kind d ≠ Contract.delivery c)
  || bool_decide (Delivery.source d ≠ Candidate.source candidate)
  || bool_decide (Delivery.artifact d ≠ Candidate.artifact candidate).

Definition evaluate (s : TaskState.t) (at_ms : N) : result Certificate.t (list Rejection.t) :=
  let? c := ok_or (TaskState.accepted_contract s)
              [Rejection.mk None "task has no accepted executable contract"] in
  let reasons := task_rejections s c at_ms in
  match TaskState.candidate s with
  | None => Err (reasons ++ [Rejection.mk None "no frozen candidate"])
  | Some candidate =>
      let reasons := reasons ++ reject_when (negb (Candidate.frozen candidate))
                                  "candidate is still writable" in
      let? contract_digest := ok_or (Contract.digest c) serde_rejection in
      let? '(reasons, accepted) := evaluate_checks s c candidate contract_digest reasons in
      match TaskState.delivery s with
      | None => Err (reasons ++ [Rejection.mk None "requested delivery has not been verified"])
      | Some delivery =>
          let reasons := reasons ++ reject_when (delivery_mismatch c candidate delivery)
                           "delivery does not match the candidate and requested stage" in
          match reasons with
          | _ :: _ => Err reasons
          | [] => Ok {|
              Certificate.task := TaskState.id s;
              Certificate.contract := contract_digest;
              Certificate.source := Candidate.source candidate;
              Certificate.artifact := Candidate.artifact candidate;
              Certificate.environment := Candidate.environment candidate;
              Certificate.generation := TaskState.generation s;
              Certificate.evaluated_revision := TaskState.revision s;
              Certificate.evidence := accepted;
              Certificate.delivery_receipt := Delivery.receipt delivery;
            |}
          end
      end
  end.
End evaluate.

(** ** Specification *)

Section spec.
Context {SHA : Sha256} `{!Serde Contract.t, !Serde CheckDefinition.t}.
Implicit Types (s : TaskState.t) (c : Contract.t).

(** The obligations of a task that do not concern its checks. *)
Record settled (s : TaskState.t) (c : Contract.t) (at_ms : N) : Prop := {
  st_contract : contract_wf c;
  st_open : TaskState.outcome s = None;
  st_not_cancelled : TaskState.cancellation_requested s = false;
  st_no_followup : TaskState.amendment_pending s = false;
  st_no_questions : Contract.open_questions c = [];
  st_findings k f : TaskState.findings s !! k = Some f →
    Finding.blocking f = true → Finding.resolved f = true;
  st_jobs k j : TaskState.jobs s !! k = Some j →
    Job.status j ≠ JobStatus.Running ∧ Job.status j ≠ JobStatus.Unknown ∧
    (Job.status j = JobStatus.Fenced → is_Some (Job.fence_receipt j));
  st_calls op : op ∈ TaskState.model_reservations s →
    ∃ r n, TaskState.model_receipts s !! op = Some r ∧ ModelCallReceipt.tokens r = Some n ∧
      ModelCallReceipt.status r ≠ ModelCallStatus.Unknown;
  st_effects k e : TaskState.effects s !! k = Some e →
    Effect.status e ≠ EffectStatus.Intended ∧ Effect.status e ≠ EffectStatus.Unknown;
  st_budget : (Usage.tokens (TaskState.usage s) ≤ Limits.tokens (Contract.limits c))%N ∧
    (Usage.model_calls (TaskState.usage s) ≤ Limits.model_calls (Contract.limits c))%N ∧
    (at_ms - TaskState.started_ms s < Limits.elapsed_ms (Contract.limits c))%N;
}.

(** An observation meets the acceptance policy of its check. *)
Definition policy_met (d : CheckDefinition.t) (o : Observation.t) : Prop :=
  Observation.signal o = None ∧
  ((Observation.status o = CheckStatus.Passed ∧ Observation.exit_code o = Some 0%Z) ∨
   (CheckDefinition.baseline d ≠ MustPass ∧ Observation.status o = CheckStatus.Failed ∧
    Observation.baseline_unchanged o = true)).

Definition assertions_met (d : CheckDefinition.t) (o : Observation.t) : Prop :=
  (CheckDefinition.minimum_assertions d ≤ Observation.assertions o)%N ∧
  ∀ n, Observation.discovered o = Some n → (Observation.skipped o < n)%N.

Definition control_met s (d : CheckDefinition.t) (o : Observation.t) : Prop :=
  CheckDefinition.control d ≠ ControlRequirement.None →
  ∃ ctl, Observation.control o = Some ctl ∧ ControlObservation.rejected ctl = true ∧
    ControlObservation.intended_reason ctl = true ∧
    ControlObservation.kind ctl = CheckDefinition.control d ∧
    Some (ControlObservation.source ctl) = expected_control_source s d.

Definition retries_met (d : CheckDefinition.t) (earlier : list Evidence.t) : Prop :=
  match CheckDefinition.flake d with
  | RejectAnyFailure =>
      ∀ e, e ∈ earlier → Observation.status (Evidence.observation e) ≠ CheckStatus.Failed
  | Retry n => (N.of_nat (length earlier) < n)%N
  end.

(** [e] is the evidence accepted for check [k] of the contract: the latest attempt
    at the check, made for exactly this contract, source, environment, artifact,
    check definition and verifier, in the current generation. *)
Definition accepted_for s c (candidate : Candidate.t) (contract_digest : Digest) (k : string)
    (e : Evidence.t) : Prop :=
  ∃ d definition_digest earlier,
    Contract.checks c !! k = Some d ∧ of_value d = Some definition_digest ∧
    attempts s k (check_identity candidate contract_digest definition_digest d) = earlier ++ [e] ∧
    Evidence.generation e = TaskState.generation s ∧
    Observation.limitations (Evidence.observation e) = [] ∧
    Observation.unreconciled_jobs (Evidence.observation e) = [] ∧
    policy_met d (Evidence.observation e) ∧ assertions_met d (Evidence.observation e) ∧
    control_met s d (Evidence.observation e) ∧ retries_met d earlier.

(** The checks some requirement asks for. *)
Definition required c (k : string) : Prop :=
  ∃ r, r ∈ Contract.requirements c ∧ k ∈ Requirement.checks r.

Definition delivered c (candidate : Candidate.t) (d : Delivery.t) : Prop :=
  Delivery.kind d = Contract.delivery c ∧ Delivery.source d = Candidate.source candidate ∧
  Delivery.artifact d = Candidate.artifact candidate.
End spec.

(** ** Reflection of the tests *)

Section reflect.
Context {SHA : Sha256} `{!Serde Contract.t, !Serde CheckDefinition.t} {SET : SerdeErrorText}.
Implicit Types (s : TaskState.t) (c : Contract.t).

Lemma reject_when_nil b reason : reject_when b reason = [] ↔ b = false.
Proof. destruct b; naive_solver. Qed.

Lemma policy_test d o : negb (passed o) && negb (baseline_allowed d o) = false ↔ policy_met d o.
Proof.
  unfold passed, baseline_allowed, policy_met.
  destruct (decide (Observation.signal o = None)) as [Hs|Hs];
    [rewrite !(bool_decide_true (Observation.signal o = None)) by done
    |rewrite !(bool_decide_false (Observation.signal o = None)) by done; rewrite !andb_false_r; naive_solver].
  rewrite !andb_true_r, andb_false_iff, !negb_false_iff, !andb_true_iff, !bool_decide_eq_true.
  destruct (CheckDefinition.baseline d); naive_solver.
Qed.

Lemma assertions_test d o : assertions_missing d o = false ↔ assertions_met d o.
Proof.
  unfold assertions_missing, assertions_met.
  rewrite !orb_false_iff, N.ltb_ge, bool_decide_eq_false.
  destruct (Observation.discovered o) as [n|].
  - rewrite N.leb_gt. split; [naive_solver|]. intros [? H]. specialize (H n eq_refl).
    repeat split; [done| |done]. intros [= ->]. lia.
  - naive_solver.
Qed.

Lemma control_test s d o : control_missing s d o = false ↔ control_met s d o.
Proof.
  unfold control_missing, control_met.
  rewrite andb_false_iff, bool_decide_eq_false, negb_false_iff. unfold valid_control.
  destruct (decide (CheckDefinition.control d = ControlRequirement.None)) as [->|Hn]; [naive_solver|].
  destruct (Observation.control o) as [ctl|]; [|naive_solver].
  rewrite !andb_true_iff, !bool_decide_eq_true. naive_solver.
Qed.

Lemma retries_test d earlier e :
  retry_violated d (earlier ++ [e]) = false ↔ retries_met d earlier.
Proof.
  unfold retry_violated, retries_met. rewrite length_app. simpl.
  replace (length earlier + 1 - 1) with (length earlier) by lia. rewrite take_app_length.
  destruct (CheckDefinition.flake d) as [|n].
  - rewrite <-not_true_iff_false, existsb_exists. split.
    + intros H x Hx Hf. apply H. exists x. rewrite <-list_elem_of_In, bool_decide_eq_true. done.
    + intros H (x & Hx%list_elem_of_In & Hf%bool_decide_eq_true). by apply (H x).
  - rewrite N.ltb_ge. lia.
Qed.

Lemma if_inl {A B E} (b : bool) (a : A) (r : result (A + B) E) j :
  (if b then Ok (inl a) else r) = Ok (inr j) ↔ b = false ∧ r = Ok (inr j).
Proof. destruct b; naive_solver. Qed.

Lemma check_verdict_accepts s c candidate cd k j :
  check_verdict s c candidate cd k = Ok (inr j) ↔
  ∃ e, accepted_for s c candidate cd k e ∧ j = Evidence.job_id e.
Proof.
  unfold check_verdict, accepted_for. destruct (Contract.checks c !! k) as [d|] eqn:Hk; [|naive_solver].
  destruct (of_value d) as [dd|] eqn:Hd; simpl; [|naive_solver].
  destruct (last (attempts s k _)) as [e|] eqn:Hl; last first.
  { split; [done|]. intros (e & (d' & dd' & earlier & [= <-] & Hdd & Hatt & _) & _).
    assert (dd' = dd) as -> by congruence. by rewrite Hatt, last_snoc in Hl. }
  apply last_Some in Hl as [earlier Hatt]. rewrite Hatt.
  rewrite !if_inl, orb_false_iff, negb_false_iff, N.eqb_eq, !bool_decide_eq_false, policy_test,
    assertions_test, control_test, retries_test. split.
  - intros (? & [?%dec_stable ?%dec_stable] & ? & ? & ? & ? & [= <-]). exists e. split; [|done].
    exists d, dd, earlier. done.
  - intros (e' & (d' & dd' & earlier' & [= <-] & Hdd & Hatt' & ?) & ->).
    assert (dd' = dd) as -> by congruence.
    rewrite Hatt in Hatt'. apply app_inj_2 in Hatt' as [-> [= ->]]; [|done].
    destruct_and!. split_and!; auto.
Qed.

Lemma task_rejections_nil s c at_ms : task_rejections s c at_ms = [] ↔ settled s c at_ms.
Proof.
  unfold task_rejections. rewrite !app_nil, !reject_when_nil.
  rewrite !bool_decide_eq_false, !any_value_false, !orb_false_iff, !N.ltb_ge, N.leb_gt.
  split.
  - intros (Hv & Ho & Hc & Ha & Hq & Hf & Hj & Hfe & Hm & He & (? & ?) & ?). split; try done.
    + by apply validate_wf, dec_stable.
    + by apply dec_stable.
    + by apply dec_stable.
    + intros k f Hk Hb. apply fmap_nil_inv in Hf.
      destruct (Finding.resolved f) eqn:Hr; [done|]. exfalso.
      assert (f ∈ base.filter (λ f, unresolved_finding f = true) (btree_values (TaskState.findings s))) as Hin.
      { apply list_elem_of_filter. split; [|apply elem_of_btree_values; eauto].
        unfold unresolved_finding. by rewrite Hb, Hr. }
      rewrite Hf in Hin. by apply elem_of_nil in Hin.
    + intros k j Hk. specialize (Hj k j Hk). specialize (Hfe k j Hk).
      unfold fenced_without_receipt in Hfe.
      apply andb_false_iff in Hfe. rewrite !bool_decide_eq_false in Hfe.
      split_and!; [by intros Hs; rewrite Hs in Hj..|].
      intros Hs. apply not_eq_None_Some. naive_solver.
    + intros op Hop. rewrite <-not_true_iff_false, existsb_exists in Hm.
      destruct (unknown_call s op) eqn:Hu.
      { destruct Hm. exists op. by rewrite <-list_elem_of_In, elem_of_bset_iter. }
      unfold unknown_call in Hu. apply negb_false_iff in Hu.
      destruct (TaskState.model_receipts s !! op) as [r|]; [|done].
      apply andb_true_iff in Hu as [Ht%bool_decide_eq_true Hs%bool_decide_eq_true].
      apply not_eq_None_Some in Ht as [n Hn]. eauto.
    + intros k e Hk. specialize (He k e Hk). unfold unsettled_effect in He. by destruct (Effect.status e).
  - intros [Hv Ho Hc Ha Hq Hf Hj Hm He (? & ? & ?)]. split_and!; try done.
    + intros Hn. apply Hn. by apply validate_wf.
    + intros Hn. by apply Hn.
    + intros Hn. by apply Hn.
    + destruct (base.filter _ _) as [|f l] eqn:Hl; [done|]. exfalso.
      assert (f ∈ base.filter (λ f, unresolved_finding f = true) (btree_values (TaskState.findings s)))
        as [Hu [k Hk]%elem_of_btree_values]%list_elem_of_filter by (rewrite Hl; left).
      unfold unresolved_finding in Hu. apply andb_true_iff in Hu as [Hb Hr%negb_true_iff].
      by rewrite (Hf k f Hk Hb) in Hr.
    + intros k j Hk. destruct (Hj k j Hk) as (? & ? & _). by destruct (Job.status j).
    + intros k j Hk. destruct (Hj k j Hk) as (_ & _ & Hfe). unfold fenced_without_receipt.
      apply andb_false_iff. rewrite !bool_decide_eq_false.
      destruct (decide (Job.status j = JobStatus.Fenced)); [right|by left].
      apply not_eq_None_Some. auto.
    + apply not_true_iff_false. rewrite existsb_exists.
      intros (op & (r & n & Hr & Hn & Hs)%list_elem_of_In%elem_of_bset_iter%Hm & Hu).
      unfold unknown_call in Hu. rewrite Hr, Hn in Hu. by rewrite !bool_decide_true in Hu.
    + intros k e Hk. destruct (He k e Hk). unfold unsettled_effect. by destruct (Effect.status e).
Qed.

Lemma delivery_test c candidate d : delivery_mismatch c candidate d = false ↔ delivered c candidate d.
Proof.
  unfold delivery_mismatch, delivered. rewrite !orb_false_iff, !bool_decide_eq_false.
  split.
  - intros ([?%dec_stable ?%dec_stable] & ?%dec_stable). done.
  - intros (? & ? & ?). split_and!; by intros [].
Qed.
End reflect.

(** ** The loop over requirements and checks *)

Section loop.
Context {SHA : Sha256} `{!Serde Contract.t, !Serde CheckDefinition.t} {SET : SerdeErrorText}.
Context (s : TaskState.t) (c : Contract.t) (candidate : Candidate.t) (cd : Digest).

(** The evidence the loop has accepted is that of accepted attempts, and when no
    rejection was added, every check seen so far is covered. *)
Definition covers (seen : string → Prop) (acc : progress) : Prop :=
  (∀ k j, acc.2 !! k = Some j → seen k ∧ ∃ e, accepted_for s c candidate cd k e ∧ j = Evidence.job_id e) ∧
  (acc.1 = [] → ∀ k, seen k → is_Some (acc.2 !! k)).

Lemma covers_ext (P Q : string → Prop) acc : (∀ k, P k ↔ Q k) → covers P acc → covers Q acc.
Proof. intros HPQ [H1 H2]. split; [naive_solver|]. intros Hnil k Hk. apply H2; naive_solver. Qed.

Lemma evaluate_check_covers seen r acc k acc' :
  covers seen acc → evaluate_check s c candidate cd r acc k = Ok acc' →
  covers (λ x, seen x ∨ x = k) acc' ∧ (acc'.1 = [] → acc.1 = []).
Proof.
  intros [H1 H2]. unfold evaluate_check. case_bool_decide as Hk.
  - intros [= <-]. split; [|done]. split; [naive_solver|]. intros Hnil x [Hx| ->]; auto.
  - intros (v & Hv & [= <-])%rbind_Ok. destruct v as [reason|j]; simpl.
    + split; [split; simpl; [naive_solver|]|]; intros Hnil; by destruct acc.1.
    + split; [|done]. apply check_verdict_accepts in Hv. split; simpl.
      * intros x jx. rewrite lookup_insert. case_decide; [|naive_solver].
        intros [= <-]. naive_solver.
      * intros Hnil x Hx. rewrite lookup_insert. case_decide; [done|]. destruct Hx; [auto|done].
Qed.

Lemma evaluate_requirement_covers r ks seen acc acc' :
  covers seen acc → for_each (evaluate_check s c candidate cd r) acc ks = Ok acc' →
  covers (λ x, seen x ∨ x ∈ ks) acc' ∧ (acc'.1 = [] → acc.1 = []).
Proof.
  revert seen acc. induction ks as [|k ks IH]; intros seen acc Hc; simpl.
  - intros [= <-]. split; [|done]. eapply covers_ext; [|done]. set_solver.
  - intros (acc1 & H1 & H2)%rbind_Ok.
    destruct (evaluate_check_covers _ _ _ _ _ Hc H1) as [Hc1 Hn1].
    destruct (IH _ _ Hc1 H2) as [Hc2 Hn2]. split; [|naive_solver].
    eapply covers_ext; [|done]. set_solver.
Qed.

Lemma evaluate_requirements_covers rs seen acc acc' :
  covers seen acc →
  for_each (λ acc r, for_each (evaluate_check s c candidate cd r) acc (Requirement.checks r)) acc rs
    = Ok acc' →
  covers (λ x, seen x ∨ ∃ r, r ∈ rs ∧ x ∈ Requirement.checks r) acc' ∧ (acc'.1 = [] → acc.1 = []).
Proof.
  revert seen acc. induction rs as [|r rs IH]; intros seen acc Hc; simpl.
  - intros [= <-]. split; [|done]. eapply covers_ext; [|done]. set_solver.
  - intros (acc1 & H1 & H2)%rbind_Ok.
    destruct (evaluate_requirement_covers _ _ _ _ _ Hc H1) as [Hc1 Hn1].
    destruct (IH _ _ Hc1 H2) as [Hc2 Hn2]. split; [|naive_solver].
    eapply covers_ext; [|done]. intros k. simpl.
    setoid_rewrite elem_of_cons. naive_solver.
Qed.

Lemma evaluate_checks_sound reasons reasons' accepted :
  evaluate_checks s c candidate cd reasons = Ok (reasons', accepted) → reasons' = [] →
  reasons = [] ∧
  (∀ k j, accepted !! k = Some j →
     required c k ∧ ∃ e, accepted_for s c candidate cd k e ∧ j = Evidence.job_id e) ∧
  (∀ k, required c k → is_Some (accepted !! k)).
Proof.
  intros H ->. unfold evaluate_checks in H.
  destruct (evaluate_requirements_covers _ (λ _, False) (reasons, ∅) _ ltac:(done) H) as [[H1 H2] Hn].
  simpl in *. split; [auto|]. split.
  - intros k j Hk. destruct (H1 k j Hk) as [[[]|Hr] He]. done.
  - intros k Hk. apply H2; [done|]. by right.
Qed.

(** Conversely, when every required check has an accepted attempt the loop ends
    without a rejection. *)
Lemma evaluate_requirement_accepts r ks acc :
  (∀ k, k ∈ ks → ∃ e, accepted_for s c candidate cd k e) →
  ∃ m, for_each (evaluate_check s c candidate cd r) acc ks = Ok (acc.1, m).
Proof.
  revert acc. induction ks as [|k ks IH]; intros acc Hk; simpl; [exists acc.2; by destruct acc|].
  assert (∃ m, evaluate_check s c candidate cd r acc k = Ok (acc.1, m)) as [m ->].
  { unfold evaluate_check. case_bool_decide; [exists acc.2; by destruct acc|].
    destruct (Hk k) as [e He]; [left|].
    rewrite (proj2 (check_verdict_accepts s c candidate cd k (Evidence.job_id e))) by eauto.
    simpl. eauto. }
  apply (IH (acc.1, m)). set_solver.
Qed.

Lemma evaluate_checks_complete reasons :
  (∀ k, required c k → ∃ e, accepted_for s c candidate cd k e) →
  ∃ accepted, evaluate_checks s c candidate cd reasons = Ok (reasons, accepted).
Proof.
  intros Hreq. unfold evaluate_checks.
  assert (Hgen : ∀ rs acc, rs ⊆ Contract.requirements c → ∃ m,
    for_each (λ acc r, for_each (evaluate_check s c candidate cd r) acc (Requirement.checks r)) acc rs
      = Ok (acc.1, m)); [|by apply (Hgen _ (reasons, ∅))].
  induction rs as [|r rs IH]; intros acc Hrs; simpl; [exists acc.2; by destruct acc|].
  destruct (evaluate_requirement_accepts r (Requirement.checks r) acc) as [m ->].
  { intros k Hk. apply Hreq. exists r. set_solver. }
  apply (IH (acc.1, m)). set_solver.
Qed.
End loop.

(** ** Properties *)

Section properties.
Context {SHA : Sha256} `{!Serde Contract.t, !Serde CheckDefinition.t} {SET : SerdeErrorText}.

(** What a certificate stands for. *)
Definition certified (s : TaskState.t) (at_ms : N) (cert : Certificate.t) : Prop :=
  ∃ c candidate delivery contract_digest,
    TaskState.contract s = Some c ∧ TaskState.candidate s = Some candidate ∧
    TaskState.delivery s = Some delivery ∧ Contract.digest c = Some contract_digest ∧
    settled s c at_ms ∧ Candidate.frozen candidate = true ∧ delivered c candidate delivery ∧
    (∀ k, required c k → ∃ e, accepted_for s c candidate contract_digest k e ∧
       Certificate.evidence cert !! k = Some (Evidence.job_id e)) ∧
    (∀ k, is_Some (Certificate.evidence cert !! k) → required c k) ∧
    cert = {|
      Certificate.task := TaskState.id s;
      Certificate.contract := contract_digest;
      Certificate.source := Candidate.source candidate;
      Certificate.artifact := Candidate.artifact candidate;
      Certificate.environment := Candidate.environment candidate;
      Certificate.generation := TaskState.generation s;
      Certificate.evaluated_revision := TaskState.revision s;
      Certificate.evidence := Certificate.evidence cert;
      Certificate.delivery_receipt := Delivery.receipt delivery;
    |}.

Lemma accepted_for_unique s c candidate cd k e1 e2 :
  accepted_for s c candidate cd k e1 → accepted_for s c candidate cd k e2 → e1 = e2.
Proof.
  intros (d1 & dd1 & l1 & Hd1 & Hdd1 & Ha1 & _) (d2 & dd2 & l2 & Hd2 & Hdd2 & Ha2 & _).
  assert (d2 = d1) as -> by congruence. assert (dd2 = dd1) as -> by congruence.
  rewrite Ha1 in Ha2. by apply app_inj_2 in Ha2 as [_ [= ->]].
Qed.

Lemma evaluate_certified s at_ms cert : evaluate s at_ms = Ok cert ↔ certified s at_ms cert.
Proof.
  unfold evaluate, certified. split.
  - intros (c & Hc%ok_or_Ok & H)%rbind_Ok. destruct (TaskState.candidate s) as [candidate|]; [|done].
    apply rbind_Ok in H as (cd & Hcd%ok_or_Ok & H).
    apply rbind_Ok in H as ([reasons accepted] & Hloop & H).
    destruct (TaskState.delivery s) as [delivery|]; [|done].
    destruct (reasons ++ _) as [|] eqn:Hnil; [|done]. apply app_nil in Hnil as [-> Hdel%reject_when_nil].
    destruct (evaluate_checks_sound _ _ _ _ _ _ _ Hloop eq_refl) as
      ([Hrej%task_rejections_nil Hfrozen%reject_when_nil%negb_false_iff]%app_nil & Hacc & Hall).
    exists c, candidate, delivery, cd. injection H as <-. simpl.
    split_and!; try done; [by apply delivery_test|..].
    + intros k Hk. destruct (Hall k Hk) as [j Hj]. destruct (Hacc k j Hj) as (_ & e & He & ->). eauto.
    + intros k [j Hj]. by destruct (Hacc k j Hj).
  - intros (c & candidate & delivery & cd & Hc & Hcand & Hdel & Hcd & Hset & Hfr & Hdl & Hev & Hdom & Hcert).
    unfold TaskState.accepted_contract. rewrite Hc. simpl. rewrite Hcand, Hcd. simpl.
    rewrite (proj2 (task_rejections_nil s c at_ms)) by done. rewrite Hfr. simpl.
    destruct (evaluate_checks_complete s c candidate cd []) as [accepted Hloop].
    { intros k Hk. destruct (Hev k Hk) as (e & ? & _). eauto. }
    rewrite Hloop, Hdel. simpl. rewrite (proj2 (delivery_test c candidate delivery)) by done. simpl.
    f_equal. rewrite Hcert. simpl. f_equal. apply map_eq. intros k.
    destruct (evaluate_checks_sound _ _ _ _ _ _ _ Hloop eq_refl) as (_ & Hacc & Hall).
    destruct (Certificate.evidence cert !! k) as [j|] eqn:Hj.
    + destruct (Hev k (Hdom k ltac:(eauto))) as (e & He & Hje). destruct (Hall k (Hdom k ltac:(eauto))) as [j' Hj'].
      destruct (Hacc k j' Hj') as (_ & e' & He' & ->). rewrite Hj', <-Hj, Hje.
      by rewrite (accepted_for_unique _ _ _ _ _ _ _ He He').
    + destruct (accepted !! k) as [j'|] eqn:Hj'; [|done].
      destruct (Hacc k j' Hj') as (Hr & _). destruct (Hev k Hr) as (e & _ & He). congruence.
Qed.

(** A refusal always carries a reason. *)
Lemma evaluate_checks_Err s c candidate cd reasons e :
  evaluate_checks s c candidate cd reasons = Err e → e = serde_rejection.
Proof.
  unfold evaluate_checks. generalize (reasons, ∅ : gmap string Uuid).
  assert (Hverdict : ∀ k e, check_verdict s c candidate cd k = Err e → e = serde_rejection).
  { intros k e'. unfold check_verdict. destruct (Contract.checks c !! k) as [d|]; [|done].
    destruct (of_value d); simpl; [|by intros [= <-]]. by repeat case_match. }
  assert (Hinner : ∀ r ks acc e,
    for_each (evaluate_check s c candidate cd r) acc ks = Err e → e = serde_rejection).
  { intros r ks. induction ks as [|k ks IH]; intros acc e'; simpl; [done|].
    unfold evaluate_check at 1. destruct (bool_decide _); simpl; [apply IH|].
    destruct (check_verdict s c candidate cd k) eqn:Hv; simpl; [apply IH|].
    intros [= <-]. by eapply Hverdict. }
  induction (Contract.requirements c) as [|r rs IH]; intros acc; simpl; [done|].
  destruct (for_each (evaluate_check s c candidate cd r) acc (Requirement.checks r)) eqn:Hr; simpl; [apply IH|]. intros [= <-]. by eapply Hinner.
Qed.

Lemma evaluate_Err_reasons s at_ms reasons : evaluate s at_ms = Err reasons → reasons ≠ [].
Proof.
  unfold evaluate. destruct (TaskState.accepted_contract s) as [c|]; simpl; [|by intros [= <-]].
  destruct (TaskState.candidate s) as [candidate|].
  - destruct (Contract.digest c) as [cd|]; simpl; [|by intros [= <-]].
    destruct (evaluate_checks _ _ _ _ _) as [[rs accepted]|e] eqn:Hl; simpl.
    + destruct (TaskState.delivery s); [|intros [= <-]; by destruct rs].
      destruct (rs ++ _) eqn:?; [done|by intros [= <-]].
    + intros [= <-]. by apply evaluate_checks_Err in Hl as ->.
  - intros [= <-]. by destruct (task_rejections s c at_ms).
Qed.

(** C4: The evaluator certifies a task exactly when every obligation is met: the
    accepted contract is well formed, nothing about the task is unsettled, the
    candidate is frozen, the delivery matches it, and every check a requirement
    asks for has as its latest matching attempt evidence of the current
    generation that meets the check's policy, assertions, control and retry
    rules; the certificate names exactly that evidence. *)
Theorem evaluate_iff_certified s at_ms cert :
  evaluate s at_ms = Ok cert ↔ certified s at_ms cert.
Proof. apply evaluate_certified. Qed.

(** Evidence of an earlier generation never certifies: when no evidence on
    record is of the current generation, the evaluator refuses, whatever else the
    task holds, and gives a reason. *)
Theorem stale_evidence_refused s at_ms :
  (∀ e, e ∈ TaskState.evidence s → Evidence.generation e ≠ TaskState.generation s) →
  ∃ reason reasons, evaluate s at_ms = Err (reason :: reasons).
Proof.
  intros Hstale. destruct (evaluate s at_ms) as [cert|reasons] eqn:H.
  - exfalso. apply evaluate_certified in H as (c & candidate & d & cd & _ & _ & _ & _ & Hset & _ & _ & Hev & _).
    pose proof (st_contract _ _ _ Hset) as Hwf. pose proof (wf_requirements _ Hwf) as Hne.
    destruct (Contract.requirements c) as [|r rs] eqn:Hreqs; [done|].
    assert (Hr : r ∈ Contract.requirements c) by (rewrite Hreqs; left).
    pose proof (rwf_has_checks _ _ (wf_requirement _ Hwf r Hr)) as Hck.
    destruct (Requirement.checks r) as [|k ks] eqn:Hks; [done|].
    destruct (Hev k) as (e & (? & ? & earlier & _ & _ & Hatt & Hgen & _) & _).
    { exists r. split; [done|]. rewrite Hks. left. }
    apply (Hstale e); [|done].
    assert (e ∈ earlier ++ [e]) as Hin by (apply elem_of_app; right; left).
    rewrite <-Hatt in Hin. unfold attempts in Hin. by apply list_elem_of_filter in Hin as [_ ?].
  - apply evaluate_Err_reasons in H as Hne. destruct reasons as [|r rs]; [done|]. by exists r, rs.
Qed.
End properties.

(** ** Witnesses *)

Section witnesses.
#[local] Instance demo_contract_serde : Serde Contract.t :=
  {| to_vec c := Some (Contract.request c); from_slice _ := None |}.
#[local] Instance demo_check_serde : Serde CheckDefinition.t :=
  {| to_vec d := Some (CheckDefinition.purpose d); from_slice _ := None |}.
#[local] Instance demo_checksum : Sha256 := checksum_sha256.
#[local] Instance demo_error_text : SerdeErrorText := "serialization failed".

(** A task whose one check passed in generation [n]. *)
Definition demo_evidence (n : N) : Evidence.t := {|
  Evidence.job_id := 21;
  Evidence.generation := n;
  Evidence.check := "unit";
  Evidence.identity := check_identity demo_candidate (digest_of "add a flag")
                         (digest_of "unit tests pass") demo_check;
  Evidence.started_ms := 10;
  Evidence.finished_ms := 20;
  Evidence.observation := Observation.mk CheckStatus.Passed (checksum "report") 3 None 0
                            (Some 0%Z) None None false [] [];
|}.
Definition demo_verified (n : N) : TaskState.t :=
  demo_state <| TaskState.candidate := Some demo_candidate |>
             <| TaskState.evidence := [demo_evidence n] |>
             <| TaskState.delivery := Some (Delivery.mk DeliveryKind.Source (checksum "source")
                  (checksum "artifact") (checksum "receipt")) |>.

(** The evaluator accepts it while the evidence is current. *)
Example demo_accepted :
  to_option (evaluate (demo_verified 1) 30) =
  Some (Certificate.mk 7 (digest_of "add a flag") (checksum "source") (checksum "artifact")
    (checksum "environment") 1 1 {[ "unit" := 21%N ]} (checksum "receipt")).
Proof. vm_compute. reflexivity. Qed.

Lemma stale_evidence_refused_witness :
  ∃ reason reasons, evaluate (demo_verified 0) 30 = Err (reason :: reasons).
Proof.
  apply (stale_evidence_refused (demo_verified 0) 30).
  intros e ->%list_elem_of_singleton. discriminate.
Defined.
End witnesses.
