(* ===== verification/Workspace.v ===== *)
(** * Workspace snapshots (crates/harness/src/workspace.rs and workspace/reconcile.rs)

    An immutable snapshot of a workspace: its paths with their entries, the
    validation that keeps every path and link inside the snapshot, publication
    as an artifact, and the three-way merge of private and user changes. Walking
    and writing real directories ([capture], [materialize]) is not modelled. *)

From S2P Require Import Prelude Digest Codec Artifacts.

(** ** Paths

    [std::path::Path] on Unix: a string whose components are separated by ['/']. *)

Inductive Component : Type :=
| RootDir
| CurDir
| ParentDir
| Normal (name : string).
#[global] Instance Component_eq_dec : EqDecision Component.
Proof. solve_decision. Defined.

Definition slash : ascii := "/"%char.

(** [str::split('/')]: the pieces between separators, empty ones included. *)
Fixpoint split_slash (s : string) : list string :=
  match s with
  | EmptyString => [EmptyString]
  | String c s =>
      if bool_decide (c = slash) then EmptyString :: split_slash s
      else match split_slash s with
           | p :: rest => String c p :: rest
           | [] => [String c EmptyString]
           end
  end.

Fixpoint join_slash (l : list string) : string :=
  match l with
  | [] => EmptyString
  | [p] => p
  | p :: l => String.append p (String slash (join_slash l))
  end.

(** A piece that is a component of its own: neither empty nor [.]. *)
Definition real_piece (p : string) : bool := negb (str_is_empty p) && negb (str_eqb p ".").
Definition piece_component (p : string) : Component := if str_eqb p ".." then ParentDir else Normal p.

(** [Path::components] *)
Definition components (s : string) : list Component :=
  let body l := piece_component <$> base.filter (λ p, real_piece p = true) l in
  match split_slash s with
  | [] => []
  | p :: rest =>
      if str_eqb p "" && bool_decide (rest ≠ []) then RootDir :: body rest
      else if str_eqb p "." then CurDir :: body rest
      else body (p :: rest)
  end.

Definition component_str (c : Component) : string :=
  match c with RootDir => "/" | CurDir => "." | ParentDir => ".." | Normal n => n end.

(** The raw prefixes of a relative path that end after each of its components. *)
Fixpoint prefixes_from (done todo : list string) : list string :=
  match todo with
  | [] => []
  | p :: todo =>
      let done := done ++ [p] in
      if real_piece p then join_slash done :: prefixes_from done todo else prefixes_from done todo
  end.

(** [ancestors().skip(1).filter(|p| !p.is_empty())] of a relative path. *)
Definition proper_ancestors (s : string) : list string :=
  tail (reverse (prefixes_from [] (split_slash s))).

Definition is_normal (c : Component) : bool := match c with Normal _ => true | _ => false end.

Definition safe_relative (path : string) : bool :=
  negb (str_is_empty path) && forallb is_normal (components path).

(** ** Snapshots *)

Module SnapshotPolicy.
Record t : Type := mk {
  excluded_roots : list string;
  max_files : N;
  max_bytes : N;
}.
#[global] Instance eq_dec : EqDecision t.
Proof. solve_decision. Defined.

Definition default : t :=
  mk [".git"; ".orvek"; ".Trash"; "target"; "node_modules"; ".venv"; ".terraform"; ".env"]
     100000 (256 * 1024 * 1024).
End SnapshotPolicy.

Module Entry.
Inductive t : Type :=
| File (content : Digest) (mode : N)
| Directory (mode : N)
| Symlink (target : string).
#[global] Instance eq_dec : EqDecision t.
Proof. solve_decision. Defined.
End Entry.

Module WorkspaceError.
Inductive t : Type :=
| ReconcilePolicy
| ReconcileConflict (paths : list string) (truncated : bool)
| Artifact (e : ArtifactError.t)
| Json
| UnsafePath (path : string)
| Limit
| Version.
#[global] Instance eq_dec : EqDecision t.
Proof. solve_decision. Defined.
End WorkspaceError.

(** One component of a link target, applied to the parts resolved so far. *)
Definition resolve_step (path : string) (parts : list string) (part : Component) :
    result (list string) WorkspaceError.t :=
  match part, parts with
  | Normal name, _ => Ok (parts ++ [name])
  | ParentDir, _ :: _ => Ok (removelast parts)
  | CurDir, _ => Ok parts
  | _, _ => Err (WorkspaceError.UnsafePath path)
  end.

Definition resolve_link (path target : string) : result string WorkspaceError.t :=
  let parts := component_str <$> removelast (components path) in
  let? parts := for_each (resolve_step path) parts (components target) in
  let resolved := join_slash parts in
  let? _ := reject_if (str_is_empty resolved) (WorkspaceError.UnsafePath path) in
  Ok resolved.

Module Snapshot.
Record t : Type := mk {
  version : N;
  policy : SnapshotPolicy.t;
  entries : gmap string Entry.t;
}.
#[global] Instance eq_dec : EqDecision t.
Proof. solve_decision. Defined.

Definition is_directory (m : gmap string Entry.t) (p : string) : bool :=
  match m !! p with Some (Entry.Directory _) => true | _ => false end.
Definition is_file_or_directory (m : gmap string Entry.t) (p : string) : bool :=
  match m !! p with Some (Entry.File _ _) | Some (Entry.Directory _) => true | _ => false end.

Definition validate_entry (s : t) (item : string * Entry.t) : result unit WorkspaceError.t :=
  let '(name, entry) := item in
  let? _ := reject_if (negb (safe_relative name)) (WorkspaceError.UnsafePath name) in
  let? _ := for_each (λ _ parent,
      reject_if (negb (is_directory (entries s) parent)) (WorkspaceError.UnsafePath name)) tt
      (proper_ancestors name) in
  match entry with
  | Entry.Symlink target =>
      let? resolved := resolve_link name target in
      reject_if (negb (is_file_or_directory (entries s) resolved)
                 || existsb (λ p, negb (is_directory (entries s) p)) (proper_ancestors resolved))
        (WorkspaceError.UnsafePath name)
  | _ => Ok tt
  end.

Definition validate (s : t) : result unit WorkspaceError.t :=
  let? _ := reject_if (negb (version s =? 1)%N) WorkspaceError.Version in
  let? _ := reject_if ((SnapshotPolicy.max_files (policy s) =? 0)%N
                       || (SnapshotPolicy.max_bytes (policy s) =? 0)%N
                       || (SnapshotPolicy.max_files (policy s) <? N.of_nat (size (entries s)))%N)
              WorkspaceError.Limit in
  for_each (λ _, validate_entry s) tt (btree_iter (entries s)).

Section artifacts.
Context {SHA : Sha256} `{!Serde t}.

Definition verify_artifacts (s : t) (artifacts : ArtifactStore.t) : result unit WorkspaceError.t :=
  let? _ := validate s in
  let? _ := for_each (λ total entry,
      match entry with
      | Entry.File content _ =>
          let? bytes := map_err WorkspaceError.Artifact (ArtifactStore.read artifacts content) in
          let total := u64_saturating_add total (str_len bytes) in
          let? _ := reject_if (SnapshotPolicy.max_bytes (policy s) <? total)%N WorkspaceError.Limit in
          Ok total
      | _ => Ok total
      end) 0%N (btree_values (entries s)) in
  Ok tt.

Definition publish (s : t) (artifacts : ArtifactStore.t) :
    result (ArtifactStore.t * Digest) WorkspaceError.t :=
  let? _ := validate s in
  let? bytes := ok_or (to_vec s) WorkspaceError.Json in
  map_err WorkspaceError.Artifact (ArtifactStore.put artifacts bytes).

Definition load (digest : Digest) (artifacts : ArtifactStore.t) : result t WorkspaceError.t :=
  let? bytes := map_err WorkspaceError.Artifact (ArtifactStore.read artifacts digest) in
  let? snapshot := ok_or (from_slice bytes) WorkspaceError.Json in
  let? _ := validate snapshot in
  Ok snapshot.
End artifacts.

(** [changed_paths]: the keys of both, sorted and deduplicated, whose entries differ. *)
Definition changed_paths (a b : t) : list string :=
  base.filter (λ p, entries a !! p ≠ entries b !! p)
    (bset_iter (dom (entries a) ∪ dom (entries b))).
End Snapshot.

(** ** Three-way merge *)

Module Reconcile.
Definition MAX_CONFLICT_PATHS : N := 64.

(** [merge]: [None] is a conflict. *)
Definition merge {T} `{EqDecision T} (origin private user : T) : option T :=
  if bool_decide (private = user) || bool_decide (user = origin) then Some private
  else if bool_decide (private = origin) then Some user
  else None.

(** [merge_entry]: [None] is a conflict, [Some None] an absent entry. *)
Definition merge_entry (origin private user : option Entry.t) : option (option Entry.t) :=
  if bool_decide (private = user) then Some private
  else if bool_decide (private = origin) then Some user
  else if bool_decide (user = origin) then Some private
  else match origin, private, user with
       | Some (Entry.File base base_mode), Some (Entry.File mine my_mode),
         Some (Entry.File theirs their_mode) =>
           content ← merge base mine theirs;
           mode ← merge base_mode my_mode their_mode;
           Some (Some (Entry.File content mode))
       | _, _, _ => None
       end.

Record Conflicts : Type := mk_conflicts {
  paths : gset string;
  truncated : bool;
}.
Definition no_conflicts : Conflicts := mk_conflicts ∅ false.

Definition add (c : Conflicts) (path : string) : Conflicts :=
  if (N.of_nat (size (paths c)) <? MAX_CONFLICT_PATHS)%N
  then mk_conflicts ({[path]} ∪ paths c) (truncated c)
  else if bool_decide (path ∉ paths c) then mk_conflicts (paths c) true else c.

Definition finish (c : Conflicts) : result unit WorkspaceError.t :=
  if bool_decide (paths c = ∅) then Ok tt
  else Err (WorkspaceError.ReconcileConflict (bset_iter (paths c)) (truncated c)).

Fixpoint contains_char (x : ascii) (s : string) : bool :=
  match s with EmptyString => false | String c s => bool_decide (c = x) || contains_char x s end.

(** A path the merge accepts: bounded, without NUL, without empty or dot pieces. *)
Definition unsafe_path (path : string) : bool :=
  (4096 <? str_len path)%N || contains_char "000"%char path
  || existsb (λ part, str_is_empty part || str_eqb part "." || str_eqb part "..") (split_slash path).

Definition unsafe_entry (entry : Entry.t) : bool :=
  match entry with
  | Entry.File _ mode | Entry.Directory mode => (4095 <? mode)%N
  | Entry.Symlink target =>
      str_is_empty target || (4096 <? str_len target)%N || contains_char "000"%char target
  end.

Definition validate (s : Snapshot.t) : result unit WorkspaceError.t :=
  let policy := Snapshot.policy s in
  let? _ := reject_if ((SnapshotPolicy.max_files policy =? 0)%N || (SnapshotPolicy.max_bytes policy =? 0)%N)
              WorkspaceError.Limit in
  let? _ := for_each (λ _ excluded,
      reject_if ((4096 <? str_len excluded)%N || negb (length (components excluded) =? 1)
                 || negb (safe_relative excluded)) (WorkspaceError.UnsafePath excluded)) tt
      (SnapshotPolicy.excluded_roots policy) in
  let? _ := for_each (λ _ '(path, entry),
      let? _ := reject_if (unsafe_path path) (WorkspaceError.UnsafePath path) in
      reject_if (unsafe_entry entry) (WorkspaceError.UnsafePath path)) tt
      (btree_iter (Snapshot.entries s)) in
  Snapshot.validate s.

(** First pass: merge every path of the three snapshots. *)
Definition merge_path (origin private_head current_user : Snapshot.t)
    (acc : gmap string Entry.t * Conflicts) (path : string) : gmap string Entry.t * Conflicts :=
  match merge_entry (Snapshot.entries origin !! path) (Snapshot.entries private_head !! path)
          (Snapshot.entries current_user !! path) with
  | Some (Some entry) => (<[path := entry]> acc.1, acc.2)
  | Some None => acc
  | None => (acc.1, add acc.2 path)
  end.

(** Second pass: parents that are not directories, links without a target. *)
Definition structural (entries : gmap string Entry.t) (c : Conflicts)
    (item : string * Entry.t) : result Conflicts WorkspaceError.t :=
  let '(path, entry) := item in
  let c := fold_left (λ c parent,
      if Snapshot.is_directory entries parent then c else add (add c path) parent)
      (proper_ancestors path) c in
  match entry with
  | Entry.Symlink target =>
      let? resolved := resolve_link path target in
      Ok (if Snapshot.is_file_or_directory entries resolved then c else add (add c path) resolved)
  | _ => Ok c
  end.

Definition all_paths (origin private_head current_user : Snapshot.t) : gset string :=
  dom (Snapshot.entries origin) ∪ dom (Snapshot.entries private_head)
  ∪ dom (Snapshot.entries current_user).

Definition reconcile (origin private_head current_user : Snapshot.t) :
    result Snapshot.t WorkspaceError.t :=
  let? _ := for_each (λ _, validate) tt [origin; private_head; current_user] in
  let? _ := reject_if (bool_decide (Snapshot.policy origin ≠ Snapshot.policy private_head)
                       || bool_decide (Snapshot.policy origin ≠ Snapshot.policy current_user))
              WorkspaceError.ReconcilePolicy in
  let '(entries, conflicts) :=
    fold_left (merge_path origin private_head current_user)
      (bset_iter (all_paths origin private_head current_user)) (∅, no_conflicts) in
  let? _ := finish conflicts in
  let? _ := reject_if (SnapshotPolicy.max_files (Snapshot.policy origin) <? N.of_nat (size entries))%N
              WorkspaceError.Limit in
  let? conflicts := for_each (structural entries) no_conflicts (btree_iter entries) in
  let? _ := finish conflicts in
  let result := Snapshot.mk (Snapshot.version origin) (Snapshot.policy origin) entries in
  let? _ := Snapshot.validate result in
  Ok result.
End Reconcile.

(** ** Lemmas on paths *)

(** A name that can be a path component of its own. *)
Definition piece_name (p : string) : Prop := real_piece p = true ∧ p ≠ ".." ∧ split_slash p = [p].

Lemma split_slash_pieces s p : p ∈ split_slash s → split_slash p = [p].
Proof.
  revert p. induction s as [|c s IH]; intros p; simpl.
  - by intros ->%list_elem_of_singleton.
  - case_bool_decide as Hc.
    + intros [->|Hp]%elem_of_cons; [done|auto].
    + destruct (split_slash s) as [|q rest] eqn:Hs; intros Hp.
      * apply list_elem_of_singleton in Hp as ->. simpl. by rewrite bool_decide_false.
      * apply elem_of_cons in Hp as [->|Hp]; [|apply IH; by right].
        simpl. rewrite bool_decide_false by done. by rewrite (IH q) by left.
Qed.

Lemma split_slash_not_nil s : split_slash s ≠ [].
Proof. induction s; simpl; repeat case_match; done. Qed.

Lemma split_slash_app p s :
  split_slash p = [p] → split_slash (String.append p (String slash s)) = p :: split_slash s.
Proof.
  induction p as [|c p IH]; [done|]. simpl.
  change (String c p +:+ String slash s) with (String c (p +:+ String slash s)). simpl.
  case_bool_decide as Hc; [done|].
  destruct (split_slash p) as [|q rest] eqn:Hq; [by apply split_slash_not_nil in Hq|].
  intros [= -> ->]. by rewrite IH.
Qed.

Lemma split_join l : l ≠ [] → Forall (λ p, split_slash p = [p]) l → split_slash (join_slash l) = l.
Proof.
  induction l as [|p l IH]; [done|]. intros _ [Hp Hl]%Forall_cons.
  destruct l as [|q l]; [done|]. cbn [join_slash]. rewrite split_slash_app by done.
  f_equal. by apply IH.
Qed.

Lemma real_piece_empty p : real_piece p = true → p ≠ "" ∧ p ≠ ".".
Proof.
  unfold real_piece, str_eqb. intros [? ?%negb_true_iff%bool_decide_eq_false]%andb_prop.
  split; [by intros ->|done].
Qed.

Lemma join_slash_nonempty p l : p ≠ "" → join_slash (p :: l) ≠ "".
Proof. intros Hp. destruct l; [done|]. simpl. by destruct p. Qed.

Lemma components_join l : l ≠ [] → Forall piece_name l → components (join_slash l) = Normal <$> l.
Proof.
  intros Hl Hall. unfold components. rewrite split_join; [|done|]; last first.
  { eapply Forall_impl; [done|]. by intros p (_ & _ & ?). }
  destruct l as [|p l]; [done|]. apply Forall_cons in Hall as Hall'. destruct Hall' as [(Hr & _) _].
  apply real_piece_empty in Hr as [Hne Hnd].
  unfold str_eqb. rewrite (bool_decide_false (p = "")), (bool_decide_false (p = ".")) by done. simpl andb.
  cbv iota. clear Hne Hnd Hl. induction Hall as [|q l' (Hr & Hdd & _) _ IH]; [done|].
  rewrite filter_cons_True, !fmap_cons, IH by done. f_equal.
  unfold piece_component, str_eqb. by rewrite bool_decide_false.
Qed.

(** The names of the normal components of any path are piece names. *)
Lemma components_names s name : Normal name ∈ components s → piece_name name.
Proof.
  assert (Hbody : ∀ l, (∀ p, p ∈ l → split_slash p = [p]) →
    Normal name ∈ (piece_component <$> base.filter (λ p, real_piece p = true) l : list Component) →
    piece_name name).
  { intros l Hl (p & Heq & [Hr Hp]%list_elem_of_filter)%list_elem_of_fmap.
    unfold piece_component, str_eqb in Heq. case_bool_decide; [done|]. injection Heq as ->.
    split_and!; auto. }
  unfold components. pose proof (split_slash_pieces s) as Hs. destruct (split_slash s) as [|p rest].
  - by intros ?%elem_of_nil.
  - assert (∀ q, q ∈ rest → split_slash q = [q]) by (intros q Hq; apply Hs; by right).
    repeat case_match; [intros [?|?]%elem_of_cons; [done|eauto]..|]. by apply Hbody.
Qed.

Lemma elem_of_removelast {A} (x : A) l : x ∈ removelast l → x ∈ l.
Proof.
  destruct (decide (l = [])) as [->|Hl]; [done|]. intros Hx.
  rewrite (app_removelast_last x Hl). apply elem_of_app. by left.
Qed.

Lemma safe_components path c :
  safe_relative path = true → c ∈ components path → ∃ name, c = Normal name.
Proof.
  unfold safe_relative. rewrite andb_true_iff, forallb_forall. intros [_ Hall] Hc%list_elem_of_In.
  specialize (Hall c Hc). destruct c; try done. eauto.
Qed.

Lemma resolve_steps path cs parts parts' :
  Forall piece_name parts → (∀ name, Normal name ∈ cs → piece_name name) →
  for_each (resolve_step path) parts cs = Ok parts' → Forall piece_name parts'.
Proof.
  revert parts. induction cs as [|c cs IH]; intros parts Hp Hc; simpl; [by intros [= <-]|].
  intros (parts1 & Hstep & Hrest)%rbind_Ok. apply (IH parts1); [|intros; apply Hc; by right|done].
  destruct c as [| | |name]; simpl in Hstep.
  - done.
  - by injection Hstep as <-.
  - destruct parts as [|p parts]; [done|]. injection Hstep as <-.
    rewrite (app_removelast_last "") in Hp by done. by apply Forall_app in Hp as [? _].
  - injection Hstep as <-. apply Forall_app. split; [done|]. constructor; [|done]. apply Hc. by left.
Qed.

(** Resolving a link never leaves the snapshot: the result is again a relative
    path made of normal components. *)
Lemma resolve_link_safe_aux path target r :
  safe_relative path = true → resolve_link path target = Ok r → safe_relative r = true.
Proof.
  unfold resolve_link. intros Hsafe (parts & Hparts & H)%rbind_Ok.
  apply rbind_Ok in H as ([] & Hne%reject_if_Ok & [= <-]).
  apply resolve_steps in Hparts.
  - unfold safe_relative. rewrite Hne. simpl. destruct parts as [|p parts]; [done|].
    rewrite components_join by done. clear. induction (p :: parts) as [|q l IH]; [done|]. done.
  - apply Forall_forall. intros n (c & -> & Hc)%list_elem_of_fmap.
    pose proof (elem_of_removelast _ _ Hc) as Hcp.
    destruct (safe_components _ _ Hsafe Hcp) as [name ->]. by apply components_names in Hcp.
  - apply components_names.
Qed.

(** ** Lemmas on merging *)

Section merge.
Implicit Types c : Reconcile.Conflicts.

(** The conflicts collected for the paths [S]: all of them up to the limit, and
    beyond it exactly the limit's number with the truncation flag. *)
Definition collected (S : gset string) (c : Reconcile.Conflicts) : Prop :=
  Reconcile.paths c ⊆ S ∧
  if decide (size S ≤ 64) then Reconcile.paths c = S ∧ Reconcile.truncated c = false
  else size (Reconcile.paths c) = 64 ∧ Reconcile.truncated c = true.

Lemma collected_add S c x : collected S c → collected ({[x]} ∪ S) (Reconcile.add c x).
Proof.
  unfold collected, Reconcile.add, Reconcile.MAX_CONFLICT_PATHS. intros [Hsub Hc].
  assert (Hmono : size S ≤ size ({[x]} ∪ S)) by (apply subseteq_size; set_solver).
  destruct (N.ltb_spec (N.of_nat (size (Reconcile.paths c))) 64); simpl.
  - split; [set_solver|]. destruct (decide (size S ≤ 64)) as [|]; [|lia]. destruct Hc as [Hp Ht].
    rewrite Hp in *. assert (size ({[x]} ∪ S) ≤ 64).
    { destruct (decide (x ∈ S)).
      - by replace ({[x]} ∪ S) with S by set_solver.
      - rewrite size_union, size_singleton by set_solver. lia. }
    by rewrite decide_True.
  - case_bool_decide as Hx; simpl; (split; [set_solver|]).
    + assert (¬ size ({[x]} ∪ S) ≤ 64).
      { destruct (decide (size S ≤ 64)); [|lia]. destruct Hc as [Hp _]. rewrite Hp in *.
        rewrite size_union, size_singleton by set_solver. lia. }
      rewrite decide_False by done. split; [|done].
      destruct (decide (size S ≤ 64)); [destruct Hc as [Hp _]; rewrite Hp in *; lia|by destruct Hc].
    + replace ({[x]} ∪ S) with S by set_solver. done.
Qed.

Lemma collected_fold S c l :
  collected S c → collected (list_to_set l ∪ S) (fold_left Reconcile.add l c).
Proof.
  revert S c. induction l as [|x l IH]; intros S c Hc; simpl.
  - by rewrite union_empty_l_L.
  - replace ({[x]} ∪ list_to_set l ∪ S) with (list_to_set l ∪ ({[x]} ∪ S) : gset string) by set_solver.
    by apply IH, collected_add.
Qed.

Lemma collected_none : collected ∅ Reconcile.no_conflicts.
Proof. unfold collected. rewrite decide_True by (rewrite size_empty; lia). done. Qed.

Lemma finish_Ok S c : collected S c → Reconcile.finish c = Ok tt ↔ S = ∅.
Proof.
  unfold collected, Reconcile.finish. intros [Hsub Hc]. case_bool_decide as He; split; try done.
  - intros _. destruct (decide _); [by destruct Hc as [<- _]|]. rewrite He, size_empty in Hc. lia.
  - intros ->. set_solver.
Qed.

Lemma merge_sym {T} `{EqDecision T} (o p u : T) : Reconcile.merge o p u = Reconcile.merge o u p.
Proof. unfold Reconcile.merge. repeat case_bool_decide; simpl; congruence. Qed.

Lemma merge_entry_sym o p u : Reconcile.merge_entry o p u = Reconcile.merge_entry o u p.
Proof.
  unfold Reconcile.merge_entry. repeat case_bool_decide; try congruence.
  repeat case_match; simplify_eq; try done.
  all: by rewrite (merge_sym _ content0), (merge_sym mode).
Qed.

Lemma merge_entry_unchanged o p : Reconcile.merge_entry o p o = Some p.
Proof. unfold Reconcile.merge_entry. repeat case_bool_decide; congruence. Qed.
End merge.

Section reconcile.
Variables origin private_head current_user : Snapshot.t.
Let resolved (k : string) : option (option Entry.t) :=
  Reconcile.merge_entry (Snapshot.entries origin !! k) (Snapshot.entries private_head !! k)
    (Snapshot.entries current_user !! k).
Let pass l acc := fold_left (Reconcile.merge_path origin private_head current_user) l acc.

(** The paths no side may decide. *)
Definition conflicting (l : list string) : list string :=
  base.filter (λ k, Reconcile.merge_entry (Snapshot.entries origin !! k)
    (Snapshot.entries private_head !! k) (Snapshot.entries current_user !! k) = None) l.

Lemma pass_conflicts l acc : (pass l acc).2 = fold_left Reconcile.add (conflicting l) acc.2.
Proof.
  unfold pass, conflicting. revert acc. induction l as [|k l IH]; intros acc; [done|]. simpl.
  rewrite IH. unfold Reconcile.merge_path.
  destruct (Reconcile.merge_entry (Snapshot.entries origin !! k) _ _) as [[e|]|] eqn:Hk; simpl.
  - by rewrite filter_cons_False by (rewrite Hk; done).
  - by rewrite filter_cons_False by (rewrite Hk; done).
  - by rewrite filter_cons_True.
Qed.

Lemma pass_lookup l acc k :
  (pass l acc).1 !! k =
  match resolved k with
  | Some (Some e) => if decide (k ∈ l) then Some e else acc.1 !! k
  | _ => acc.1 !! k
  end.
Proof.
  unfold pass. revert acc. induction l as [|k' l IH]; intros acc; simpl.
  { by destruct (resolved k) as [[]|]. }
  rewrite IH. unfold Reconcile.merge_path.
  change (Reconcile.merge_entry (Snapshot.entries origin !! k') _ _) with (resolved k').
  destruct (resolved k) as [[e|]|] eqn:Hk.
  - destruct (decide (k ∈ l)) as [Hin|Hin], (decide (k ∈ k' :: l)) as [Hin'|Hin']; [done|set_solver| |].
    + assert (k = k') as <- by set_solver. rewrite Hk. simpl. by rewrite lookup_insert_eq.
    + destruct (resolved k') as [[]|]; simpl; [|done..]. by rewrite lookup_insert_ne by set_solver.
  - destruct (decide (k = k')) as [<-|]; [by rewrite Hk|].
    destruct (resolved k') as [[]|]; simpl; [|done..]. by rewrite lookup_insert_ne.
  - destruct (decide (k = k')) as [<-|]; [by rewrite Hk|].
    destruct (resolved k') as [[]|]; simpl; [|done..]. by rewrite lookup_insert_ne.
Qed.

Let paths := bset_iter (Reconcile.all_paths origin private_head current_user).

Lemma elem_of_paths k :
  k ∈ paths ↔ is_Some (Snapshot.entries origin !! k) ∨ is_Some (Snapshot.entries private_head !! k)
    ∨ is_Some (Snapshot.entries current_user !! k).
Proof.
  unfold paths. rewrite elem_of_bset_iter. unfold Reconcile.all_paths.
  rewrite !elem_of_union, !elem_of_dom. tauto.
Qed.

(** Every entry of the first pass is the merge of the three sides' entries. *)
Lemma pass_paths k :
  resolved k = Some ((pass paths (∅, Reconcile.no_conflicts)).1 !! k) ∨
  (resolved k = None ∧ k ∈ conflicting paths).
Proof.
  rewrite pass_lookup. simpl. rewrite lookup_empty.
  destruct (resolved k) as [[e|]|] eqn:Hk; [left..|right].
  - rewrite decide_True; [done|]. rewrite elem_of_paths. unfold resolved in Hk.
    destruct (Snapshot.entries origin !! k), (Snapshot.entries private_head !! k),
      (Snapshot.entries current_user !! k); [eauto..|done].
  - done.
  - split; [done|]. apply list_elem_of_filter. split; [done|]. rewrite elem_of_paths.
    unfold resolved in Hk.
    destruct (Snapshot.entries origin !! k), (Snapshot.entries private_head !! k),
      (Snapshot.entries current_user !! k); [eauto..|done].
Qed.

Lemma structural_valid s c item :
  Snapshot.validate_entry s item = Ok tt →
  Reconcile.structural (Snapshot.entries s) c item = Ok c.
Proof.
  destruct item as [name entry]. unfold Snapshot.validate_entry, Reconcile.structural.
  intros ([] & _ & H)%rbind_Ok. apply rbind_Ok in H as ([] & Hpar%for_each_unit_Ok & H).
  assert (fold_left (λ c parent, if Snapshot.is_directory (Snapshot.entries s) parent then c
    else Reconcile.add (Reconcile.add c name) parent) (proper_ancestors name) c = c) as ->.
  { clear H. induction Hpar as [|x l Hx _ IH]; [done|]. simpl.
    apply reject_if_Ok, negb_false_iff in Hx. by rewrite Hx. }
  destruct entry; [done|done|]. apply rbind_Ok in H as (r & -> & H%reject_if_Ok). simpl.
  apply orb_false_iff in H as [->%negb_false_iff _]. done.
Qed.
End reconcile.

(** The merge succeeds exactly when the inputs are acceptable, every path has a
    merged entry, and those entries make a valid snapshot. *)
Lemma reconcile_spec origin private_head current_user r :
  Reconcile.reconcile origin private_head current_user = Ok r ↔
  Forall (λ s, Reconcile.validate s = Ok tt) [origin; private_head; current_user] ∧
  Snapshot.policy origin = Snapshot.policy private_head ∧
  Snapshot.policy origin = Snapshot.policy current_user ∧
  Snapshot.version r = Snapshot.version origin ∧ Snapshot.policy r = Snapshot.policy origin ∧
  (∀ path, Reconcile.merge_entry (Snapshot.entries origin !! path)
     (Snapshot.entries private_head !! path) (Snapshot.entries current_user !! path)
     = Some (Snapshot.entries r !! path)) ∧
  Snapshot.validate r = Ok tt.
Proof.
  unfold Reconcile.reconcile. rewrite rbind_Ok.
  pose proof (pass_conflicts origin private_head current_user) as Hconf.
  pose proof (pass_paths origin private_head current_user) as Hpass. cbv beta in Hpass.
  set (paths := bset_iter (Reconcile.all_paths origin private_head current_user)) in *.
  specialize (Hconf paths (∅, Reconcile.no_conflicts)). simpl in Hconf.
  assert (Hcol := collected_fold ∅ _ (conflicting origin private_head current_user paths) collected_none).
  rewrite <-Hconf, union_empty_r_L in Hcol. clear Hconf.
  set (acc := fold_left _ _ (∅, Reconcile.no_conflicts)) in *. clearbody acc.
  destruct acc as [entries conflicts]. cbn [fst snd] in *.
  apply finish_Ok in Hcol as Hfin. split.
  - intros ([] & Hval%for_each_unit_Ok & H). apply rbind_Ok in H as ([] & Hpol%reject_if_Ok & H).
    apply orb_false_iff in Hpol as [Hp1%bool_decide_eq_false Hp2%bool_decide_eq_false].
    apply dec_stable in Hp1, Hp2. apply rbind_Ok in H as ([] & Hempty%Hfin & H).
    apply rbind_Ok in H as ([] & _ & H). apply rbind_Ok in H as (? & _ & H).
    apply rbind_Ok in H as ([] & _ & H). apply rbind_Ok in H as ([] & Hvalid & [= <-]).
    split_and!; try done. intros k. destruct (Hpass k) as [Hk|[_ Hk]]; [done|].
    assert (k ∈ (list_to_set (conflicting origin private_head current_user paths) : gset string))
      by by apply elem_of_list_to_set. set_solver.
  - intros (Hval & Hp1 & Hp2 & Hv & Hp & Hall & Hr). exists tt.
    split; [by apply for_each_unit_Ok|]. rewrite (bool_decide_false (_ ≠ _)) by naive_solver.
    rewrite (bool_decide_false (_ ≠ _)) by naive_solver. simpl.
    assert (entries = Snapshot.entries r) as ->.
    { apply map_eq. intros k. destruct (Hpass k) as [Hk|[Hk _]]; specialize (Hall k); congruence. }
    rewrite (proj2 Hfin); simpl; last first.
    { apply elem_of_equiv_empty_L. intros k [Hk _]%elem_of_list_to_set%list_elem_of_filter.
      specialize (Hall k). congruence. }
    destruct r as [rv rp re]. simpl in *. subst rv rp.
    pose proof Hr as Hr'. unfold Snapshot.validate in Hr'. simpl in Hr'.
    apply rbind_Ok in Hr' as ([] & _ & Hr'). apply rbind_Ok in Hr' as ([] & Hl%reject_if_Ok & Hr').
    apply orb_false_iff in Hl as [_ Hl]. rewrite Hl. simpl.
    apply for_each_unit_Ok in Hr'.
    assert (for_each (Reconcile.structural re) Reconcile.no_conflicts (btree_iter re)
      = Ok Reconcile.no_conflicts) as ->.
    { clear -Hr'. induction Hr' as [|i l Hi _ IH]; [done|]. cbn [for_each].
      by rewrite (structural_valid (Snapshot.mk _ _ re) _ _ Hi). }
    simpl. rewrite Hr. done.
Qed.

(** The paths of a merge's conflicts, when its inputs are acceptable. *)
Lemma reconcile_conflicts_spec origin private_head current_user path :
  Forall (λ s, Reconcile.validate s = Ok tt) [origin; private_head; current_user] →
  Snapshot.policy origin = Snapshot.policy private_head →
  Snapshot.policy origin = Snapshot.policy current_user →
  Reconcile.merge_entry (Snapshot.entries origin !! path)
    (Snapshot.entries private_head !! path) (Snapshot.entries current_user !! path) = None →
  ∃ c, Reconcile.reconcile origin private_head current_user
       = Err (WorkspaceError.ReconcileConflict (bset_iter (Reconcile.paths c)) (Reconcile.truncated c)) ∧
    collected (list_to_set (conflicting origin private_head current_user
      (bset_iter (Reconcile.all_paths origin private_head current_user)))) c.
Proof.
  intros Hval Hp1 Hp2 Hk. unfold Reconcile.reconcile.
  rewrite (proj2 (for_each_unit_Ok _ _ tt)) by done. simpl.
  rewrite (bool_decide_false (_ ≠ _)) by naive_solver.
  rewrite (bool_decide_false (_ ≠ _)) by naive_solver. simpl.
  pose proof (pass_conflicts origin private_head current_user) as Hconf.
  pose proof (pass_paths origin private_head current_user path) as Hpass. cbv beta in Hpass.
  set (paths := bset_iter (Reconcile.all_paths origin private_head current_user)) in *.
  specialize (Hconf paths (∅, Reconcile.no_conflicts)). simpl in Hconf.
  assert (Hcol := collected_fold ∅ _ (conflicting origin private_head current_user paths) collected_none).
  rewrite <-Hconf, union_empty_r_L in Hcol. clear Hconf.
  set (acc := fold_left _ _ (∅, Reconcile.no_conflicts)) in *. clearbody acc.
  destruct acc as [entries conflicts]. cbn [fst snd] in *.
  exists conflicts. split; [|done]. unfold Reconcile.finish.
  rewrite bool_decide_false; [done|]. intros He.
  assert (Reconcile.finish conflicts = Ok tt) as Hf.
  { unfold Reconcile.finish. by rewrite bool_decide_true. }
  apply (finish_Ok _ _ Hcol) in Hf. destruct Hpass as [|[_ Hin]]; [congruence|].
  assert (path ∈ (list_to_set (conflicting origin private_head current_user paths) : gset string))
    by by apply elem_of_list_to_set. set_solver.
Qed.

(** What [Snapshot.validate] accepts. *)
Record entry_wf (s : Snapshot.t) (name : string) (entry : Entry.t) : Prop := {
  wf_name : safe_relative name = true;
  wf_parents : Forall (λ p, Snapshot.is_directory (Snapshot.entries s) p = true) (proper_ancestors name);
  wf_link target : entry = Entry.Symlink target → ∃ r, resolve_link name target = Ok r ∧
    Snapshot.is_file_or_directory (Snapshot.entries s) r = true ∧
    Forall (λ p, Snapshot.is_directory (Snapshot.entries s) p = true) (proper_ancestors r);
}.

Record snapshot_wf (s : Snapshot.t) : Prop := {
  wf_version : Snapshot.version s = 1%N;
  wf_files : SnapshotPolicy.max_files (Snapshot.policy s) ≠ 0%N;
  wf_bytes : SnapshotPolicy.max_bytes (Snapshot.policy s) ≠ 0%N;
  wf_size : (N.of_nat (size (Snapshot.entries s)) ≤ SnapshotPolicy.max_files (Snapshot.policy s))%N;
  wf_entries name entry : Snapshot.entries s !! name = Some entry → entry_wf s name entry;
}.

Lemma validate_entry_wf s name entry :
  Snapshot.validate_entry s (name, entry) = Ok tt ↔ entry_wf s name entry.
Proof.
  unfold Snapshot.validate_entry. split.
  - intros ([] & Hn%reject_if_Ok%negb_false_iff & H)%rbind_Ok.
    apply rbind_Ok in H as ([] & Hpar%for_each_unit_Ok & H). split; [done| |].
    + eapply Forall_impl; [exact Hpar|]. by intros p ?%reject_if_Ok%negb_false_iff.
    + intros target ->. apply rbind_Ok in H as (r & Hr & H%reject_if_Ok). exists r.
      apply orb_false_iff in H as [H1%negb_false_iff H2]. split_and!; [done|done|].
      apply Forall_forall. intros p Hp. apply negb_false_iff.
      destruct (negb _) eqn:E; [|done]. rewrite <-H2. symmetry. apply existsb_exists.
      exists p. split; [by apply list_elem_of_In|done].
  - intros [-> Hpar Hlink]. simpl. rewrite (proj2 (for_each_unit_Ok _ _ tt)); simpl; last first.
    { eapply Forall_impl; [exact Hpar|]. by intros p ->. }
    destruct entry as [| |target]; [done|done|]. destruct (Hlink target eq_refl) as (r & -> & H1 & H2).
    simpl. apply reject_if_Ok. rewrite H1. simpl.
    apply not_true_iff_false. rewrite existsb_exists. intros (p & Hp%list_elem_of_In & Hn).
    rewrite Forall_forall in H2. by rewrite (H2 p Hp) in Hn.
Qed.

Lemma snapshot_validate_wf s : Snapshot.validate s = Ok tt ↔ snapshot_wf s.
Proof.
  unfold Snapshot.validate. split.
  - intros ([] & Hv%reject_if_Ok & H)%rbind_Ok. apply rbind_Ok in H as ([] & Hl%reject_if_Ok & H).
    rewrite for_each_unit_Ok, Forall_forall in H.
    rewrite !orb_false_iff, !N.eqb_neq, N.ltb_ge in Hl. destruct Hl as [[? ?] ?].
    apply negb_false_iff, N.eqb_eq in Hv.
    split; try done. intros name entry He. apply validate_entry_wf, H, elem_of_btree_iter, He.
  - intros [-> ? ? ? Hent]. simpl. rewrite (proj2 (reject_if_Ok _ _ tt)); simpl; last first.
    { by rewrite !orb_false_iff, !N.eqb_neq, N.ltb_ge. }
    apply for_each_unit_Ok, Forall_forall. intros [name entry] He%elem_of_btree_iter.
    by apply validate_entry_wf, Hent.
Qed.

(** ** Codes of snapshots *)

#[global] Instance codec_entry : Codec Entry.t.
Proof.
  refine (codec_via (B:=option Digest * option string * N)
    (λ e, match e with
          | Entry.File d m => (Some d, None, m)
          | Entry.Directory m => (None, None, m)
          | Entry.Symlink s => (None, Some s, 0%N)
          end)
    (λ '(d, s, m), Some match d, s with
          | Some d, _ => Entry.File d m
          | None, Some s => Entry.Symlink s
          | None, None => Entry.Directory m
          end) _).
  abstract (by intros []).
Defined.
#[global] Instance codec_policy : Codec SnapshotPolicy.t.
Proof.
  refine (codec_via (B:=list string * N * N)
    (λ p, (SnapshotPolicy.excluded_roots p, SnapshotPolicy.max_files p, SnapshotPolicy.max_bytes p))
    (λ '(r, f, b), Some (SnapshotPolicy.mk r f b)) _).
  abstract (by intros []).
Defined.
#[global] Instance codec_snapshot : Codec Snapshot.t.
Proof.
  refine (codec_via (B:=N * SnapshotPolicy.t * gmap string Entry.t)
    (λ s, (Snapshot.version s, Snapshot.policy s, Snapshot.entries s))
    (λ '(v, p, e), Some (Snapshot.mk v p e)) _).
  abstract (by intros []).
Defined.

(** ** Properties *)

(** In a valid snapshot no symbolic link leaves the snapshot or chains to
    another link: its target, resolved against the link's directory, is a
    relative path of normal components that names a file or a directory of the
    snapshot, all of whose ancestors are directories. *)
Theorem snapshot_links_contained (s : Snapshot.t) name target :
  Snapshot.validate s = Ok tt → Snapshot.entries s !! name = Some (Entry.Symlink target) →
  ∃ r, resolve_link name target = Ok r ∧ safe_relative r = true ∧
    Snapshot.is_file_or_directory (Snapshot.entries s) r = true ∧
    Forall (λ p, Snapshot.is_directory (Snapshot.entries s) p = true) (proper_ancestors r).
Proof.
  intros Hv%snapshot_validate_wf Hn. destruct (wf_entries _ Hv _ _ Hn) as [Hsafe _ Hlink].
  destruct (Hlink _ eq_refl) as (r & Hr & Hent & Hpar). exists r. split_and!; try done.
  by eapply resolve_link_safe_aux.
Qed.

Definition demo_policy : SnapshotPolicy.t := SnapshotPolicy.mk [".git"] 8 1024.
Definition demo_digest (n : string) : Digest := checksum n.
Definition demo_origin : Snapshot.t := Snapshot.mk 1 demo_policy
  {[ "src" := Entry.Directory 493; "src/a" := Entry.File (demo_digest "a") 420;
     "src/b" := Entry.File (demo_digest "b") 420 ]}.
(** The private side edits [src/a] and links to it; the user makes it executable. *)
Definition demo_private : Snapshot.t := Snapshot.mk 1 demo_policy
  {[ "src" := Entry.Directory 493; "src/a" := Entry.File (demo_digest "a2") 420;
     "src/b" := Entry.File (demo_digest "b") 420; "src/link" := Entry.Symlink "../src/a" ]}.
Definition demo_user : Snapshot.t := Snapshot.mk 1 demo_policy
  {[ "src" := Entry.Directory 493; "src/a" := Entry.File (demo_digest "a") 493 ]}.
Definition demo_merged : Snapshot.t := Snapshot.mk 1 demo_policy
  {[ "src" := Entry.Directory 493; "src/a" := Entry.File (demo_digest "a2") 493;
     "src/link" := Entry.Symlink "../src/a" ]}.
(** Here the user edits [src/a] too. *)
Definition demo_rival : Snapshot.t := Snapshot.mk 1 demo_policy
  {[ "src" := Entry.Directory 493; "src/a" := Entry.File (demo_digest "a3") 420;
     "src/b" := Entry.File (demo_digest "b") 420 ]}.

Lemma snapshot_links_contained_witness :
  ∃ r, resolve_link "src/link" "../src/a" = Ok r ∧ safe_relative r = true ∧
    Snapshot.is_file_or_directory (Snapshot.entries demo_private) r = true ∧
    Forall (λ p, Snapshot.is_directory (Snapshot.entries demo_private) p = true) (proper_ancestors r).
Proof. apply (snapshot_links_contained demo_private); vm_compute; reflexivity. Defined.

(** Snapshot validation accepts exactly the well-formed snapshots: version 1,
    non-zero limits, no more entries than the policy admits, every path relative
    and made of normal components with directories as ancestors, and every link
    resolving inside the snapshot. *)
Theorem snapshot_validate_iff (s : Snapshot.t) : Snapshot.validate s = Ok tt ↔ snapshot_wf s.
Proof. apply snapshot_validate_wf. Qed.

(** The three-way merge returns [r] exactly when the three inputs pass the
    merge's validation under one policy, no path is in conflict, [r] holds at
    every path the merge of the three sides' entries, and [r] is itself a valid
    snapshot. *)
Theorem reconcile_pointwise origin private_head current_user r :
  Reconcile.reconcile origin private_head current_user = Ok r ↔
  Forall (λ s, Reconcile.validate s = Ok tt) [origin; private_head; current_user] ∧
  Snapshot.policy origin = Snapshot.policy private_head ∧
  Snapshot.policy origin = Snapshot.policy current_user ∧
  Snapshot.version r = Snapshot.version origin ∧ Snapshot.policy r = Snapshot.policy origin ∧
  (∀ path, Reconcile.merge_entry (Snapshot.entries origin !! path)
     (Snapshot.entries private_head !! path) (Snapshot.entries current_user !! path)
     = Some (Snapshot.entries r !! path)) ∧
  snapshot_wf r.
Proof. rewrite reconcile_spec, snapshot_validate_wf. done. Qed.

(** A merge never resolves a conflict silently: when some path has no merged
    entry, the merge of acceptable inputs is rejected, and the report lists only
    conflicting paths, every one of them when there are at most 64 (the
    truncation flag then being off), and exactly 64 with the flag on otherwise. *)
Theorem reconcile_reports_conflicts origin private_head current_user path :
  Forall (λ s, Reconcile.validate s = Ok tt) [origin; private_head; current_user] →
  Snapshot.policy origin = Snapshot.policy private_head →
  Snapshot.policy origin = Snapshot.policy current_user →
  Reconcile.merge_entry (Snapshot.entries origin !! path)
    (Snapshot.entries private_head !! path) (Snapshot.entries current_user !! path) = None →
  let conflicts : gset string := list_to_set (conflicting origin private_head current_user
      (bset_iter (Reconcile.all_paths origin private_head current_user))) in
  ∃ paths truncated,
    Reconcile.reconcile origin private_head current_user
      = Err (WorkspaceError.ReconcileConflict (bset_iter paths) truncated) ∧
    paths ⊆ conflicts ∧ size paths ≤ 64 ∧
    (size conflicts ≤ 64 → paths = conflicts ∧ truncated = false) ∧
    (64 < size conflicts → size paths = 64 ∧ truncated = true).
Proof.
  intros Hval Hp1 Hp2 Hk. cbv zeta.
  destruct (reconcile_conflicts_spec _ _ _ _ Hval Hp1 Hp2 Hk) as (c & Hc & Hsub & Hcol).
  exists (Reconcile.paths c), (Reconcile.truncated c). split; [done|]. split; [done|].
  destruct (decide _) as [Hs|Hs].
  - destruct Hcol as [-> ->]. split_and!; [done|done|]. lia.
  - destruct Hcol as [-> ->]. split_and!; [lia|lia|done].
Qed.

Lemma reconcile_reports_conflicts_witness :
  let conflicts : gset string := list_to_set (conflicting demo_origin demo_private demo_rival
      (bset_iter (Reconcile.all_paths demo_origin demo_private demo_rival))) in
  ∃ paths truncated,
    Reconcile.reconcile demo_origin demo_private demo_rival
      = Err (WorkspaceError.ReconcileConflict (bset_iter paths) truncated) ∧
    paths ⊆ conflicts ∧ size paths ≤ 64 ∧
    (size conflicts ≤ 64 → paths = conflicts ∧ truncated = false) ∧
    (64 < size conflicts → size paths = 64 ∧ truncated = true).
Proof.
  apply (reconcile_reports_conflicts demo_origin demo_private demo_rival "src/a");
    [repeat constructor; vm_compute; reflexivity|vm_compute; reflexivity..].
Defined.

(** A successful merge does not depend on which side is the private one. *)
Theorem reconcile_symmetric origin private_head current_user r :
  Reconcile.reconcile origin private_head current_user = Ok r →
  Reconcile.reconcile origin current_user private_head = Ok r.
Proof.
  rewrite !reconcile_spec, !Forall_cons.
  intros ((? & ? & ? & _) & ? & ? & ? & ? & Hall & ?). split_and!; try done.
  intros path. by rewrite merge_entry_sym.
Qed.

Lemma reconcile_symmetric_witness :
  Reconcile.reconcile demo_origin demo_user demo_private = Ok demo_merged.
Proof. apply (reconcile_symmetric demo_origin demo_private demo_user). vm_compute. reflexivity. Defined.

(** When the user changed nothing since the origin, the merge of acceptable
    inputs is the private head itself. *)
Theorem reconcile_user_unchanged origin private_head :
  Reconcile.validate origin = Ok tt → Reconcile.validate private_head = Ok tt →
  Snapshot.policy origin = Snapshot.policy private_head →
  Reconcile.reconcile origin private_head origin = Ok private_head.
Proof.
  intros Ho Hp Hpol. apply reconcile_spec.
  assert (Hv : ∀ s, Reconcile.validate s = Ok tt → Snapshot.validate s = Ok tt).
  { intros s. unfold Reconcile.validate. by intros (_ & _ & (_ & _ & (_ & _ & ?)%rbind_Ok)%rbind_Ok)%rbind_Ok. }
  split_and!; [by repeat constructor|done|done| |done| |by apply Hv].
  - apply Hv, snapshot_validate_wf in Ho as [-> ? ? ? ?], Hp as [-> ? ? ? ?]. done.
  - intros path. apply merge_entry_unchanged.
Qed.

Lemma reconcile_user_unchanged_witness :
  Reconcile.reconcile demo_origin demo_private demo_origin = Ok demo_private.
Proof. apply (reconcile_user_unchanged demo_origin demo_private); vm_compute; reflexivity. Defined.

(** Publishing a snapshot and loading it by the returned digest gives the same
    snapshot, unless the artifact found under that digest exhibits a SHA-256
    collision. *)
Theorem publish_then_load `{SHA : Sha256, !Serde Snapshot.t, !SerdeOk Snapshot.t}
    (s : Snapshot.t) (store store' : ArtifactStore.t) digest :
  Snapshot.publish s store = Ok (store', digest) →
  Snapshot.load digest store' = Ok s ∨
  ∃ bytes other, to_vec s = Some bytes ∧ bytes ≠ other ∧ digest_of bytes = digest_of other.
Proof.
  unfold Snapshot.publish, Snapshot.load.
  intros ([] & Hval & (bytes & Hbytes%ok_or_Ok & Hput%map_err_Ok)%rbind_Ok)%rbind_Ok.
  assert (Hload : ArtifactStore.read store' digest = Ok bytes →
    (let? bytes := map_err WorkspaceError.Artifact (ArtifactStore.read store' digest) in
     let? snapshot := ok_or (from_slice bytes) WorkspaceError.Json in
     let? _ := Snapshot.validate snapshot in Ok snapshot) = Ok s).
  { intros ->. simpl. rewrite (from_slice_to_vec s) by done. simpl. by rewrite Hval. }
  destruct (put_spec _ _ _ _ Hput) as (-> & Hlen & [[-> [other Hother]]|[Hnone ->]]).
  - destruct (decide (other = bytes)) as [->|]; [left; by apply Hload|right].
    exists bytes, other. split_and!; [done|done|]. by destruct (read_verified _ _ _ Hother).
  - left. apply Hload, read_Ok. split_and!; [|done|done].
    unfold put. simpl. by rewrite lookup_insert_eq.
Qed.

Lemma publish_then_load_witness :
  let SHA : Sha256 := checksum_sha256 in
  let store := ArtifactStore.mk ∅ 4096 in
  ∃ store' digest, Snapshot.publish demo_private store = Ok (store', digest) ∧
    (Snapshot.load digest store' = Ok demo_private ∨
     ∃ bytes other, to_vec demo_private = Some bytes ∧ bytes ≠ other ∧
       digest_of bytes = digest_of other).
Proof.
  intros SHA store.
  destruct (Snapshot.publish demo_private store) as [[store' digest]|e] eqn:H; [|vm_compute in H; discriminate H].
  exists store', digest. split; [reflexivity|].
  exact (publish_then_load demo_private store store' digest H).
Defined.

(** [changed_paths] lists, without repetition, exactly the paths at which the
    two snapshots differ; it is empty exactly when their entries are equal. *)
Theorem changed_paths_differ (a b : Snapshot.t) :
  NoDup (Snapshot.changed_paths a b) ∧
  (∀ path, path ∈ Snapshot.changed_paths a b ↔
    Snapshot.entries a !! path ≠ Snapshot.entries b !! path) ∧
  (Snapshot.changed_paths a b = [] ↔ Snapshot.entries a = Snapshot.entries b).
Proof.
  assert (Hin : ∀ path, path ∈ Snapshot.changed_paths a b ↔
    Snapshot.entries a !! path ≠ Snapshot.entries b !! path).
  { intros path. unfold Snapshot.changed_paths. rewrite list_elem_of_filter, elem_of_bset_iter.
    rewrite elem_of_union, !elem_of_dom. split; [naive_solver|]. intros Hne. split; [done|].
    destruct (Snapshot.entries a !! path), (Snapshot.entries b !! path); naive_solver. }
  split_and!; [|done|].
  - apply NoDup_filter. unfold bset_iter. rewrite merge_sort_Permutation. apply NoDup_elements.
  - split.
    + intros Hnil. apply map_eq. intros path. apply dec_stable. intros Hne%Hin.
      rewrite Hnil in Hne. by apply elem_of_nil in Hne.
    + intros Heq. destruct (Snapshot.changed_paths a b) as [|p l] eqn:Hl; [done|].
      assert (p ∈ p :: l) as Hp by by left. apply Hin in Hp. congruence.
Qed.

(** The number of bytes an entry contributes, its content being in the store. *)
Definition stored_size `{Sha256} (store : ArtifactStore.t) (entry : Entry.t) (n : N) : Prop :=
  match entry with
  | Entry.File content _ => ∃ bytes, ArtifactStore.read store content = Ok bytes ∧
      digest_of bytes = content ∧ n = str_len bytes
  | _ => n = 0%N
  end.

(** The aggregate byte check reads every file entry: when it accepts, each
    file's content is in the store under its digest and the contents' total size
    is within the policy (for a policy below the saturation point of the sum). *)
Theorem verify_artifacts_bounded `{SHA : Sha256} (s : Snapshot.t) (store : ArtifactStore.t) :
  Snapshot.verify_artifacts s store = Ok tt →
  (SnapshotPolicy.max_bytes (Snapshot.policy s) < u64_MAX)%N →
  ∃ sizes : list N,
    Forall2 (stored_size store) (btree_values (Snapshot.entries s)) sizes ∧
    (foldr N.add 0 sizes ≤ SnapshotPolicy.max_bytes (Snapshot.policy s))%N.
Proof.
  unfold Snapshot.verify_artifacts.
  intros ([] & _ & (total & Hloop & _)%rbind_Ok)%rbind_Ok Hmax. revert Hloop.
  generalize (btree_values (Snapshot.entries s)). intros l.
  set (max := SnapshotPolicy.max_bytes (Snapshot.policy s)) in *.
  assert (Hgen : ∀ start, (start ≤ max)%N → ∀ total,
    for_each (λ total entry,
      match entry with
      | Entry.File content _ =>
          let? bytes := map_err WorkspaceError.Artifact (ArtifactStore.read store content) in
          let total := u64_saturating_add total (str_len bytes) in
          let? _ := reject_if (max <? total)%N WorkspaceError.Limit in
          Ok total
      | _ => Ok total
      end) start l = Ok total →
    ∃ sizes, Forall2 (stored_size store) l sizes ∧ (start + foldr N.add 0 sizes ≤ max)%N); last first.
  { intros Hl. destruct (Hgen 0%N (N.le_0_l _) _ Hl) as (sizes & ? & ?). by exists sizes. }
  clear total. induction l as [|e l IH]; intros start Hs total; simpl.
  { intros _. exists []. split; [constructor|]. simpl. lia. }
  intros (next & He & Hl)%rbind_Ok.
  assert (Hstep : ∃ n, next = (start + n)%N ∧ (next ≤ max)%N ∧ stored_size store e n).
  { destruct e as [content mode|mode|target].
    - apply rbind_Ok in He as (bytes & Hr%map_err_Ok & He).
      apply rbind_Ok in He as ([] & Hlim%reject_if_Ok%N.ltb_ge & [= <-]).
      exists (str_len bytes). unfold u64_saturating_add in *.
      split_and!; [lia|lia|]. exists bytes. by destruct (read_verified _ _ _ Hr).
    - injection He as <-. exists 0%N. split_and!; [lia|lia|done].
    - injection He as <-. exists 0%N. split_and!; [lia|lia|done]. }
  destruct Hstep as (n & -> & Hn & Hent). destruct (IH _ Hn _ Hl) as (sizes & Hall & Hsum).
  exists (n :: sizes). split; [by constructor|]. simpl. lia.
Qed.

Lemma verify_artifacts_bounded_witness :
  let SHA : Sha256 := checksum_sha256 in
  let store := ArtifactStore.mk
    {[ digest_to_string (demo_digest "a") := RegularFile "a";
       digest_to_string (demo_digest "b") := RegularFile "b" ]} 4096 in
  ∃ sizes : list N,
    Forall2 (stored_size store) (btree_values (Snapshot.entries demo_origin)) sizes ∧
    (foldr N.add 0 sizes ≤ SnapshotPolicy.max_bytes (Snapshot.policy demo_origin))%N.
Proof.
  intros SHA store.
  apply (verify_artifacts_bounded (SHA:=SHA) demo_origin store); vm_compute; reflexivity.
Defined.
