(* ===== verification/Input.v ===== *)
(** * Input artifacts (crates/harness/src/input.rs)

    The stored form of user input is a JSON array of messages. [media_references]
    finds the artifacts such an input refers to; the artifact graph of a task
    follows them. The JSON value type is that of [serde_json]; how bytes become a
    value is the abstract [Serde] instance. *)

From S2P Require Import Prelude Digest.

(** [serde_json::Value]; numbers are kept as their text. *)
Inductive Value : Type :=
| VNull
| VBool (b : bool)
| VNumber (text : string)
| VString (s : string)
| VArray (l : list Value)
| VObject (fields : list (string * Value)).

(** [Map::get] *)
Fixpoint field (name : string) (fields : list (string * Value)) : option Value :=
  match fields with
  | [] => None
  | (key, v) :: fields => if str_eqb key name then Some v else field name fields
  end.

(** [Value::index] by a string: [Null] when the field is absent. *)
Definition index (v : Value) (name : string) : Value :=
  match v with VObject fields => default VNull (field name fields) | _ => VNull end.

(** [Value::as_array] *)
Definition as_array (v : Value) : option (list Value) :=
  match v with VArray l => Some l | _ => None end.

(** [value == "text"] *)
Definition value_is (v : Value) (text : string) : bool :=
  match v with VString s => str_eqb s text | _ => false end.

(** [serde_json::from_value::<Digest>]: a digest is read from its text. *)
Definition digest_from_value (v : Value) : option Digest :=
  match v with VString s => to_option (digest_from_str s) | _ => None end.

Definition is_media (part : Value) : bool :=
  value_is (index part "type") "tact_image" || value_is (index part "type") "tact_review".

Section media.
Context `{!Serde (list Value)}.

(** One message: the digests of its media parts, in order; [None] is a JSON error. *)
Definition message_references (message : Value) : option (list Digest) :=
  match as_array (index message "content") with
  | Some parts =>
      mapM (λ part, digest_from_value (index part "digest"))
        (base.filter (λ part, is_media part = true) parts)
  | None => Some []
  end.

Definition media_references (bytes : string) : option (list Digest) :=
  messages ← from_slice bytes;
  references ← mapM message_references messages;
  Some (mjoin references).
End media.
