(* ===== verification/ArtifactGraph.v ===== *)
(** * The artifact graph of a task (crates/harness/src/store.rs, delivery.rs)

    Every event names the artifacts it depends on, and some artifacts name
    further ones: a snapshot its files, a patch receipt its snapshots and command
    streams, a user input its media. Before an event that adds references is
    appended, the whole graph of the task is read back and its size is charged
    against the task's artifact budget. *)

From S2P Require Import Prelude Digest Codec Artifacts Contract State Completion Workspace Input.

(** ** Delivery receipts (delivery.rs) *)

Module GitIdentity.
Record t : Type := mk {
  executable : string;
  executable_digest : Digest;
  version : string;
}.
End GitIdentity.

Module GitCommandReceipt.
Record t : Type := mk {
  step : string;
  arguments : list string;
  stdin_digest : Digest;
  stdout_digest : Digest;
  stderr_digest : Digest;
  exit_code : Z;
  elapsed_ms : N;
  process_group_quiescent : bool;
}.
End GitCommandReceipt.

Module PatchValidationReceipt.
Record t : Type := mk {
  version : N;
  baseline : Digest;
  candidate : Digest;
  patch : Digest;
  applied_snapshot : Digest;
  observed_snapshot : Digest;
  git : GitIdentity.t;
  commands : list GitCommandReceipt.t;
  changed_paths : list string;
  application : string;
}.
End PatchValidationReceipt.

(** ** Errors of the store *)

Module StoreError.
Inductive t : Type :=
| ContractPending
| Sql
| Json
| Artifact (e : ArtifactError.t)
| Contract (e : ContractError.t)
| Schema (version : Z)
| Missing (id : Uuid)
| MissingSession (id : Uuid)
| Revision (expected actual : N)
| Terminal
| Cancelled
| Invalid (reason : string)
| Integrity (reason : string)
| Lease
| Budget
| Incomplete (reasons : list Rejection.t).
#[global] Instance eq_dec : EqDecision t.
Proof. solve_decision. Defined.
End StoreError.

(** ** References *)

Inductive BlobKind : Type := Opaque | Snapshot | PatchReceipt | UserInput.
#[global] Instance BlobKind_eq_dec : EqDecision BlobKind.
Proof. solve_decision. Defined.
Definition blob_rank (k : BlobKind) : N :=
  match k with Opaque => 0 | Snapshot => 1 | PatchReceipt => 2 | UserInput => 3 end.
#[global] Instance BlobKind_countable : Countable BlobKind.
Proof.
  refine (inj_countable blob_rank (λ n,
    if (n =? 0)%N then Some Opaque else if (n =? 1)%N then Some Snapshot
    else if (n =? 2)%N then Some PatchReceipt else Some UserInput) _).
  by intros [].
Defined.

Definition Reference : Type := Digest * BlobKind.

(** The derived order of the pair: digest first, then kind. *)
Definition reference_le (a b : Reference) : Prop :=
  digest_le a.1 b.1 ∧ (a.1 = b.1 → (blob_rank a.2 ≤ blob_rank b.2)%N).
#[global] Instance reference_le_dec : RelDecision reference_le.
Proof. intros a b. unfold reference_le. apply _. Defined.
#[global] Instance digest_le_po : PartialOrder digest_le := @key_le_po Digest _ digest_key_order.
#[global] Instance digest_le_total : Total digest_le := @key_le_total Digest _ digest_key_order.
#[global] Instance reference_key_order : KeyOrder Reference.
Proof.
  refine {| key_le := reference_le |}.
  - split; [split|].
    + intros [d k]. split; [apply (reflexivity (R:=digest_le))|]; simpl; lia.
    + intros [d1 k1] [d2 k2] [d3 k3] [H1 H2] [H3 H4]. cbn [fst snd] in *. split; cbn [fst snd].
      * by transitivity d2.
      * intros <-. assert (d2 = d1) as -> by by apply (anti_symm digest_le).
        specialize (H2 eq_refl). specialize (H4 eq_refl). lia.
    + intros [d1 k1] [d2 k2] [H1 H2] [H3 H4]. cbn [fst snd] in *.
      assert (d1 = d2) as -> by by apply (anti_symm digest_le).
      f_equal. specialize (H2 eq_refl). specialize (H4 eq_refl). destruct k1, k2; simpl in *; try done; lia.
  - intros [d1 k1] [d2 k2]. unfold reference_le. cbn [fst snd].
    destruct (decide (d1 = d2)) as [->|Hne].
    + pose proof (reflexivity (R:=digest_le) d2).
      destruct (N.le_ge_cases (blob_rank k1) (blob_rank k2)); [left|right]; by split.
    + destruct (total digest_le d1 d2); [left|right]; by split.
Defined.

(** [collect_artifacts], the contract's part: verifiers, control sources and
    baseline reports of its checks. *)
Definition check_artifacts (check : CheckDefinition.t) : list Reference :=
  [(CheckDefinition.verifier check, Opaque)]
  ++ (match CheckDefinition.control_source check with
      | Some source => [(source, Snapshot)] | None => [] end)
  ++ (match CheckDefinition.baseline check with
      | NoNewFailure baseline_report _ => [(baseline_report, Opaque)] | MustPass => [] end).
Definition contract_artifacts (c : Contract.t) : list Reference :=
  mjoin (check_artifacts <$> btree_values (Contract.checks c)).
Definition candidate_artifacts (c : Candidate.t) : list Reference :=
  [(Candidate.source c, Snapshot); (Candidate.environment c, Opaque); (Candidate.artifact c, Opaque)]
  ++ (match Candidate.provenance c with Some proof => [(proof, PatchReceipt)] | None => [] end).
Definition job_artifacts (j : Job.t) : list Reference :=
  match Job.invocation j with
  | Some i => [(JobInvocation.input i, Opaque); (JobInvocation.environment i, Opaque)]
  | None => []
  end.

(** [collect_artifacts]: what one event adds to the set. *)
Definition event_artifacts (event : TaskEvent.t) : list Reference :=
  match event with
  | TaskEvent.ManualWorkspace candidate origin =>
      [(Candidate.source candidate, Snapshot); (Candidate.environment candidate, Opaque);
       (origin, Snapshot)]
  | TaskEvent.OriginCaptured source => [(source, Snapshot)]
  | TaskEvent.DirectiveReceived _ input | TaskEvent.DirectiveReplaced _ input => [(input, UserInput)]
  | TaskEvent.JobStarted job | TaskEvent.ManualStarted job => job_artifacts job
  | TaskEvent.JobFenced _ receipt => [(receipt, Opaque)]
  | TaskEvent.JobSettled _ _ (Some receipt) => [(receipt, Opaque)]
  | TaskEvent.Requested _ _ intake input _ =>
      (intake, Opaque) :: match input with Some i => [(i, UserInput)] | None => [] end
  | TaskEvent.Created c _ | TaskEvent.ContractAmended c _ => contract_artifacts c
  | TaskEvent.AdditiveContractAccepted c receipt _ | TaskEvent.ContractAdmitted c _ receipt =>
      (receipt, Opaque) :: contract_artifacts c
  | TaskEvent.CandidateSelected c | TaskEvent.BaselineEstablished c => candidate_artifacts c
  | TaskEvent.Observed e =>
      (Observation.report (Evidence.observation e), Opaque) ::
      match Observation.control (Evidence.observation e) with
      | Some control => [(ControlObservation.report control, Opaque);
                         (ControlObservation.source control, Snapshot)]
      | None => []
      end
  | TaskEvent.Delivered d => [(Delivery.receipt d, Opaque)]
  | TaskEvent.ModelCallRecorded _ receipt => [(ModelCallReceipt.report receipt, Opaque)]
  | _ => []
  end.
Definition collect_artifacts (event : TaskEvent.t) (referenced : gset Reference) : gset Reference :=
  list_to_set (event_artifacts event) ∪ referenced.

(** ** Traversal *)

Section graph.
Context {SHA : Sha256} `{!Serde (list Value), !Serde Snapshot.t, !Serde PatchValidationReceipt.t}.
Implicit Types (artifacts : ArtifactStore.t) (pending : list Reference).

(** The references a blob of the given kind holds, in the order they are pushed. *)
Definition blob_references (kind : BlobKind) (bytes : string) : result (list Reference) StoreError.t :=
  match kind with
  | Opaque => Ok []
  | UserInput =>
      let? digests := ok_or (media_references bytes) StoreError.Json in
      Ok ((λ d, (d, Opaque)) <$> digests)
  | Snapshot =>
      Ok match from_slice bytes with
         | Some snapshot =>
             omap (λ entry, match entry with
                            | Entry.File content _ => Some (content, Opaque)
                            | _ => None
                            end) (btree_values (Snapshot.entries snapshot))
         | None => []
         end
  | PatchReceipt =>
      let? r := ok_or (from_slice bytes) StoreError.Json in
      Ok ([(PatchValidationReceipt.baseline r, Snapshot); (PatchValidationReceipt.candidate r, Snapshot);
           (PatchValidationReceipt.applied_snapshot r, Snapshot);
           (PatchValidationReceipt.observed_snapshot r, Snapshot);
           (PatchValidationReceipt.patch r, Opaque)]
          ++ mjoin ((λ c, [(GitCommandReceipt.stdin_digest c, Opaque);
                           (GitCommandReceipt.stdout_digest c, Opaque);
                           (GitCommandReceipt.stderr_digest c, Opaque)]) <$>
                      PatchValidationReceipt.commands r))
  end.

(** The local variables of the loop. *)
Record walk : Type := mk_walk {
  visited : gset Reference;
  counted : gset Digest;
  total : N;
}.
Definition walk_start : walk := mk_walk ∅ ∅ 0.

(** The loop body for one popped reference: the new locals and the references
    pushed. *)
Definition walk_step artifacts (limit : N) (w : walk) (item : Reference) :
    result (walk * list Reference) StoreError.t :=
  if bool_decide (item ∈ visited w) then Ok (w, [])
  else
    let? bytes := map_err StoreError.Artifact (ArtifactStore.read artifacts item.1) in
    let? total :=
      if bool_decide (item.1 ∈ counted w) then Ok (total w)
      else ok_or (u64_checked_add (total w) (str_len bytes)) StoreError.Budget in
    let? _ := reject_if (limit <? total)%N StoreError.Budget in
    let? children := blob_references item.2 bytes in
    Ok (mk_walk ({[item]} ∪ visited w) ({[item.1]} ∪ counted w) total, children).

(** The [while] loop; [pending] has the top of the stack first. [None] when the
    fuel runs out. *)
Fixpoint walk_loop (fuel : nat) artifacts (limit : N) (w : walk) pending :
    option (result unit StoreError.t) :=
  match fuel with
  | O => None
  | S fuel =>
      match pending with
      | [] => Some (Ok tt)
      | item :: pending =>
          match walk_step artifacts limit w item with
          | Err e => Some (Err e)
          | Ok (w, children) => walk_loop fuel artifacts limit w (reverse children ++ pending)
          end
      end
  end.

(** Fuel: the number of references a depth-first walk without the visited set
    would pop. References only lead to kinds of lower depth, at most two levels. *)
Definition children_of artifacts (item : Reference) : list Reference :=
  match ArtifactStore.read artifacts item.1 with
  | Ok bytes => match blob_references item.2 bytes with Ok l => l | Err _ => [] end
  | Err _ => []
  end.
Fixpoint weight (depth : nat) artifacts (item : Reference) : nat :=
  match depth with
  | O => 1
  | S depth => S (sum_list_with (weight depth artifacts) (children_of artifacts item))
  end.
Definition walk_fuel artifacts pending : nat := S (sum_list_with (weight 2 artifacts) pending).

Definition verify_artifact_graph (referenced : gset Reference) artifacts (limit : N) :
    result unit StoreError.t :=
  let pending := reverse (bset_iter referenced) in
  default (Err StoreError.Budget) (walk_loop (walk_fuel artifacts pending) artifacts limit walk_start pending).
End graph.

(** ** Lemmas *)

Section walk.
Context {SHA : Sha256} `{!Serde (list Value), !Serde Snapshot.t, !Serde PatchValidationReceipt.t}.
Implicit Types (artifacts : ArtifactStore.t) (pending : list Reference) (w : walk).

Definition depth (k : BlobKind) : nat :=
  match k with Opaque => 0 | Snapshot | UserInput => 1 | PatchReceipt => 2 end.

Lemma blob_references_depth kind bytes l item :
  blob_references kind bytes = Ok l → item ∈ l → depth item.2 < depth kind.
Proof.
  destruct kind; cbn [blob_references].
  - intros [= <-] ?%elem_of_nil. done.
  - intros [= <-]. destruct (from_slice bytes); [|by intros ?%elem_of_nil].
    intros (e & _ & He)%list_elem_of_omap. destruct e; simplify_eq. simpl. lia.
  - intros (r & _ & [= <-])%rbind_Ok Hin.
    repeat (apply elem_of_cons in Hin as [->|Hin]; [simpl; lia|]).
    apply list_elem_of_join in Hin as (l & Hin & (c & -> & _)%list_elem_of_fmap).
    repeat (apply elem_of_cons in Hin as [->|Hin]; [simpl; lia|]). by apply elem_of_nil in Hin.
  - intros (ds & _ & [= <-])%rbind_Ok (d & -> & _)%list_elem_of_fmap. simpl. lia.
Qed.

Lemma children_depth artifacts item c :
  c ∈ children_of artifacts item → depth c.2 < depth item.2.
Proof.
  unfold children_of. destruct (ArtifactStore.read _ _); [|by intros ?%elem_of_nil].
  destruct (blob_references _ _) eqn:Hb; [|by intros ?%elem_of_nil]. by eapply blob_references_depth.
Qed.

Lemma sum_list_with_ext {A} (f g : A → nat) l :
  (∀ a, a ∈ l → f a = g a) → sum_list_with f l = sum_list_with g l.
Proof.
  induction l as [|a l IH]; intros Heq; [done|]. simpl. rewrite IH, (Heq a); [done|left|].
  intros b Hb. apply Heq. by right.
Qed.

(** Beyond the depth of its kind the weight of a reference does not change. *)
Lemma weight_stable artifacts n item :
  depth item.2 ≤ n → weight n artifacts item = weight (depth item.2) artifacts item.
Proof.
  revert item. induction n as [n IH] using lt_wf_ind. intros item Hn.
  destruct n as [|n]; [destruct (depth item.2); [done|lia]|].
  destruct (depth item.2) as [|m] eqn:Hd.
  - simpl. destruct (children_of artifacts item) as [|c l] eqn:Hc; [done|].
    assert (c ∈ children_of artifacts item) as H%children_depth by (rewrite Hc; left). lia.
  - simpl. f_equal. apply sum_list_with_ext. intros c Hc%children_depth.
    rewrite (IH n), (IH m) by lia. done.
Qed.

Lemma weight_children artifacts item :
  weight 2 artifacts item = S (sum_list_with (weight 2 artifacts) (children_of artifacts item)).
Proof.
  change (weight 2 artifacts item)
    with (S (sum_list_with (weight 1 artifacts) (children_of artifacts item))).
  f_equal. apply sum_list_with_ext. intros c Hc%children_depth.
  assert (depth item.2 ≤ 2) by by destruct (item.2); simpl; lia.
  rewrite (weight_stable _ 1), (weight_stable _ 2) by lia. done.
Qed.

Lemma walk_step_children artifacts limit w item w' children :
  walk_step artifacts limit w item = Ok (w', children) →
  children = [] ∨ children = children_of artifacts item.
Proof.
  unfold walk_step, children_of. case_bool_decide; [naive_solver|].
  intros (bytes & ->%map_err_Ok & H')%rbind_Ok. apply rbind_Ok in H' as (t & _ & H').
  apply rbind_Ok in H' as ([] & _ & H'). apply rbind_Ok in H' as (l & -> & [= <- <-]). by right.
Qed.

Lemma sum_list_with_reverse {A} (f : A → nat) l : sum_list_with f (reverse l) = sum_list_with f l.
Proof.
  induction l as [|a l IH]; [done|]. rewrite reverse_cons, sum_list_with_app, IH. simpl. lia.
Qed.

Lemma walk_total fuel artifacts limit w pending :
  sum_list_with (weight 2 artifacts) pending < fuel →
  is_Some (walk_loop fuel artifacts limit w pending).
Proof.
  revert w pending. induction fuel as [|fuel IH]; intros w pending Hfuel; [lia|]. simpl.
  destruct pending as [|item pending]; [by eexists|].
  destruct (walk_step artifacts limit w item) as [[w' children]|e] eqn:Hs; [|by eexists].
  apply IH. cbn [sum_list_with] in Hfuel. rewrite weight_children in Hfuel.
  rewrite sum_list_with_app, sum_list_with_reverse.
  destruct (walk_step_children _ _ _ _ _ _ Hs) as [->| ->]; cbn [sum_list_with]; lia.
Qed.

(** The size of the artifacts a set of references reaches, each counted once. *)
Definition artifact_size artifacts (d : Digest) : N :=
  match ArtifactStore.read artifacts d with Ok bytes => str_len bytes | Err _ => 0 end.
Definition graph_size artifacts (V : gset Reference) : N :=
  set_sum (artifact_size artifacts) (set_map fst V).

(** A reference whose blob can be read and decoded, with its references in [V]. *)
Definition resolved artifacts (P : Reference → Prop) (item : Reference) : Prop :=
  ∃ bytes l, ArtifactStore.read artifacts item.1 = Ok bytes ∧
    blob_references item.2 bytes = Ok l ∧ ∀ c, c ∈ l → P c.

Record walk_ok artifacts (limit : N) w pending : Prop := {
  wo_resolved item : item ∈ visited w →
    resolved artifacts (λ c, c ∈ visited w ∨ c ∈ pending) item;
  wo_counted : counted w = set_map fst (visited w);
  wo_total : total w = graph_size artifacts (visited w);
  wo_limit : (total w ≤ limit)%N;
}.

Lemma walk_step_ok artifacts limit w item pending w' children :
  walk_ok artifacts limit w (item :: pending) →
  walk_step artifacts limit w item = Ok (w', children) →
  walk_ok artifacts limit w' (reverse children ++ pending) ∧
  item ∈ visited w' ∧ visited w ⊆ visited w'.
Proof.
  intros [Hres Hcnt Htot Hlim]. unfold walk_step. case_bool_decide as Hv.
  { intros [= <- <-]. split; [|done]. split; try done. simpl. intros i Hi.
    destruct (Hres i Hi) as (b & l & Hb & Hl & Hc). exists b, l. split_and!; [done..|].
    intros c Hin. destruct (Hc c Hin) as [|[->|]%elem_of_cons]; auto. }
  intros (bytes & Hread%map_err_Ok & H)%rbind_Ok. apply rbind_Ok in H as (t & Ht & H).
  apply rbind_Ok in H as ([] & Hlt%reject_if_Ok%N.ltb_ge & H).
  apply rbind_Ok in H as (l & Hl & [= <- <-]). split; [|simpl; set_solver]. split; cbn [visited counted total].
  - intros i [->%elem_of_singleton|Hi]%elem_of_union.
    + exists bytes, l. split_and!; [done|done|]. intros c Hc. right.
      apply elem_of_app. left. by apply elem_of_reverse.
    + destruct (Hres i Hi) as (b & l' & Hb & Hl' & Hc). exists b, l'. split_and!; [done..|].
      intros c Hin. destruct (Hc c Hin) as [|[->|]%elem_of_cons]; set_solver.
  - by rewrite Hcnt, set_map_union_L, set_map_singleton_L.
  - unfold graph_size in *. rewrite set_map_union_L, set_map_singleton_L, <-Hcnt in *.
    case_bool_decide as Hd.
    + injection Ht as <-. rewrite Htot. f_equal. set_solver.
    + apply ok_or_Ok in Ht. unfold u64_checked_add in Ht.
      destruct (_ <=? _)%N; [|done]. injection Ht as <-. rewrite set_sum_insert by done.
      unfold artifact_size at 1. rewrite Hread, Htot. lia.
  - done.
Qed.

Lemma walk_loop_ok fuel artifacts limit w pending :
  walk_ok artifacts limit w pending →
  walk_loop fuel artifacts limit w pending = Some (Ok tt) →
  ∃ V, visited w ⊆ V ∧ list_to_set pending ⊆ V ∧
    (∀ item, item ∈ V → resolved artifacts (λ c, c ∈ V) item) ∧ (graph_size artifacts V ≤ limit)%N.
Proof.
  revert w pending. induction fuel as [|fuel IH]; intros w pending Hok; [done|]. simpl.
  destruct pending as [|item pending].
  - intros _. exists (visited w). destruct Hok as [Hres _ Htot Hlim].
    split_and!; [done|done| |by rewrite <-Htot]. intros item Hi.
    destruct (Hres item Hi) as (b & l & ? & ? & Hc). exists b, l. split_and!; [done..|].
    intros c Hin. by destruct (Hc c Hin) as [|?%elem_of_nil].
  - destruct (walk_step artifacts limit w item) as [[w' children]|] eqn:Hs; [|done].
    destruct (walk_step_ok _ _ _ _ _ _ _ Hok Hs) as (Hok' & Hitem & Hsub).
    intros H. destruct (IH _ _ Hok' H) as (V & HV & Hp & Hres & Hsize).
    exists V. split_and!; [set_solver| |done|done]. rewrite list_to_set_app_L in Hp. set_solver.
Qed.

(** Conversely a closed, readable and small enough set lets the walk succeed. *)
Lemma walk_step_succeeds artifacts limit w item pending V :
  (limit ≤ u64_MAX)%N → walk_ok artifacts limit w (item :: pending) →
  item ∈ V → visited w ⊆ V → (∀ i, i ∈ V → resolved artifacts (λ c, c ∈ V) i) →
  (graph_size artifacts V ≤ limit)%N →
  ∃ w' children, walk_step artifacts limit w item = Ok (w', children) ∧
    visited w' ⊆ V ∧ ∀ c, c ∈ children → c ∈ V.
Proof.
  intros Hmax [_ Hcnt Htot Hlim] HiV HwV Hres Hsize. unfold walk_step.
  case_bool_decide as Hv; [exists w, []; split_and!; [done|done|set_solver]|].
  destruct (Hres item HiV) as (bytes & l & Hread & Hl & Hc). rewrite Hread. simpl.
  assert (Hmono : ∀ X : gset Reference, X ⊆ V → (graph_size artifacts X ≤ limit)%N).
  { intros X HX. etrans; [|exact Hsize]. apply set_sum_mono. set_solver. }
  assert (∃ t, (if bool_decide (item.1 ∈ counted w) then Ok (total w)
      else ok_or (u64_checked_add (total w) (str_len bytes)) StoreError.Budget) = Ok t ∧ (t ≤ limit)%N)
    as (t & Ht & Htl).
  { case_bool_decide as Hd; [by eauto|]. exists (total w + str_len bytes)%N.
    specialize (Hmono ({[item]} ∪ visited w) ltac:(set_solver)). unfold graph_size in *.
    rewrite set_map_union_L, set_map_singleton_L, <-Hcnt, set_sum_insert in Hmono by done.
    unfold artifact_size at 1 in Hmono. rewrite Hread, Hcnt, <-Htot in Hmono.
    split; [|lia]. unfold u64_checked_add. destruct (N.leb_spec (total w + str_len bytes) u64_MAX); [done|lia]. }
  rewrite Ht. simpl. rewrite (proj2 (N.ltb_ge _ _)) by done. simpl. rewrite Hl. simpl.
  eexists _, _. split; [reflexivity|]. split; [simpl; set_solver|done].
Qed.

Lemma walk_loop_succeeds fuel artifacts limit w pending V :
  (limit ≤ u64_MAX)%N → walk_ok artifacts limit w pending →
  list_to_set pending ⊆ V → visited w ⊆ V → (∀ i, i ∈ V → resolved artifacts (λ c, c ∈ V) i) →
  (graph_size artifacts V ≤ limit)%N →
  ∀ r, walk_loop fuel artifacts limit w pending = Some r → r = Ok tt.
Proof.
  intros Hmax Hok Hp Hw Hres Hsize. revert w pending Hok Hp Hw.
  induction fuel as [|fuel IH]; intros w pending Hok Hp Hw r; [done|]. simpl.
  destruct pending as [|item pending]; [by intros [= <-]|].
  destruct (walk_step_succeeds artifacts limit w item pending V) as (w' & children & Hs & Hw' & Hc);
    [done|done|set_solver|done|done|done|].
  rewrite Hs. destruct (walk_step_ok _ _ _ _ _ _ _ Hok Hs) as (Hok' & _ & _).
  apply IH; [done| |done]. rewrite list_to_set_app_L. intros c [Hin|Hin]%elem_of_union.
  - apply Hc. by rewrite elem_of_list_to_set, elem_of_reverse in Hin.
  - set_solver.
Qed.

Lemma walk_start_ok artifacts limit pending : walk_ok artifacts limit walk_start pending.
Proof.
  split; simpl; [set_solver|set_solver| |lia].
  unfold graph_size. by rewrite set_map_empty, set_sum_empty.
Qed.

Lemma verify_artifact_graph_spec refs artifacts limit :
  (limit ≤ u64_MAX)%N →
  verify_artifact_graph refs artifacts limit = Ok tt ↔
  ∃ V, refs ⊆ V ∧ (∀ item, item ∈ V → resolved artifacts (λ c, c ∈ V) item) ∧
    (graph_size artifacts V ≤ limit)%N.
Proof.
  intros Hmax. unfold verify_artifact_graph. set (pending := reverse (bset_iter refs)).
  assert (Hp : list_to_set pending = refs).
  { apply set_eq. intros x. unfold pending.
    by rewrite elem_of_list_to_set, elem_of_reverse, elem_of_bset_iter. }
  destruct (walk_total (walk_fuel artifacts pending) artifacts limit walk_start pending) as [r Hr];
    [unfold walk_fuel; lia|]. rewrite Hr. simpl. split.
  - intros ->. destruct (walk_loop_ok _ _ _ _ _ (walk_start_ok _ _ _) Hr) as (V & _ & ? & ? & ?).
    exists V. by rewrite <-Hp.
  - intros (V & HV & Hres & Hsize).
    refine (walk_loop_succeeds _ _ _ _ _ V Hmax (walk_start_ok _ _ _) _ _ Hres Hsize r Hr).
    + by rewrite Hp.
    + simpl. set_solver.
Qed.
End walk.

(** ** Properties *)

(** The traversal of the artifact graph ends within its fuel for every set of
    references, store and limit, although the artifacts themselves decide what is
    pushed next: the source's [while] loop terminates. *)
Theorem artifact_walk_terminates
    {SHA : Sha256} `{!Serde (list Value), !Serde Snapshot.t, !Serde PatchValidationReceipt.t}
    (artifacts : ArtifactStore.t) (limit : N) (w : walk) (pending : list Reference) (n : nat) :
  ∃ decision, walk_loop (walk_fuel artifacts pending + n) artifacts limit w pending = Some decision.
Proof.
  destruct (walk_total (walk_fuel artifacts pending + n) artifacts limit w pending) as [r Hr];
    [unfold walk_fuel; lia|by exists r].
Qed.

(** C22: The artifact budget accepts a set of references exactly when some set of
    references contains it, is closed under what its blobs refer to, has every
    blob present and decodable, and whose distinct blobs together are within the
    limit. *)
Theorem verify_artifact_graph_iff
    {SHA : Sha256} `{!Serde (list Value), !Serde Snapshot.t, !Serde PatchValidationReceipt.t}
    (refs : gset Reference) (artifacts : ArtifactStore.t) (limit : N) :
  (limit ≤ u64_MAX)%N →
  verify_artifact_graph refs artifacts limit = Ok tt ↔
  ∃ V, refs ⊆ V ∧ (∀ item, item ∈ V → resolved artifacts (λ c, c ∈ V) item) ∧
    (graph_size artifacts V ≤ limit)%N.
Proof. apply verify_artifact_graph_spec. Qed.

Section witnesses.
#[local] Instance demo_value_serde : Serde (list Value) := {| to_vec _ := None; from_slice _ := None |}.
#[local] Instance demo_receipt_serde : Serde PatchValidationReceipt.t :=
  {| to_vec _ := None; from_slice _ := None |}.
#[local] Instance demo_graph_sha : Sha256 := checksum_sha256.

(** A store that holds a snapshot and its two files. *)
Definition demo_snapshot_bytes : string := default "" (to_vec demo_origin).
Definition demo_artifacts : ArtifactStore.t := ArtifactStore.mk
  (list_to_map ((λ b, (digest_to_string (digest_of b), RegularFile b)) <$>
    ["a"; "b"; demo_snapshot_bytes])) 4096.
Definition demo_refs : gset Reference := {[ (digest_of demo_snapshot_bytes, Snapshot) ]}.

Lemma verify_artifact_graph_iff_witness :
  verify_artifact_graph demo_refs demo_artifacts 4096 = Ok tt ∧
  ∃ V, demo_refs ⊆ V ∧ (∀ item, item ∈ V → resolved demo_artifacts (λ c, c ∈ V) item) ∧
    (graph_size demo_artifacts V ≤ 4096)%N.
Proof.
  assert (H : verify_artifact_graph demo_refs demo_artifacts 4096 = Ok tt) by (vm_compute; reflexivity).
  split; [exact H|].
  apply (verify_artifact_graph_iff demo_refs demo_artifacts 4096); [vm_compute; discriminate|exact H].
Defined.
End witnesses.
