(* ===== verification/Obligations.v ===== *)
(** * Obligations of an accepted contract (crates/harness/src/admission.rs)

    What a follow-up may not change: the test the store and the compiler of proposals
    both apply, and what it means. *)

From S2P Require Import Prelude Digest Contract ArtifactGraph.

Definition preserves_obligations (old new : Contract.t) : result unit StoreError.t :=
  reject_if
    (bool_decide (Contract.request new ≠ Contract.request old)
     || bool_decide (Contract.limits new ≠ Contract.limits old)
     || bool_decide (Contract.delivery new ≠ Contract.delivery old)
     || negb (starts_with (Contract.outcome new) (Contract.outcome old))
     || negb (starts_with (Contract.scope new) (Contract.scope old))
     || existsb (λ r, bool_decide (r ∉ Contract.requirements new)) (Contract.requirements old)
     || existsb (λ '(id, check), bool_decide (Contract.checks new !! id ≠ Some check))
          (btree_iter (Contract.checks old))
     || existsb (λ b, bool_decide (b ∉ Contract.protected_behavior new)) (Contract.protected_behavior old)
     || existsb (λ b, bool_decide (b ∉ Contract.assumptions new)) (Contract.assumptions old))
    (StoreError.Invalid "follow-up must preserve all accepted obligations and limits").

(** Every obligation of the old contract is one of the new. *)
Record retains (old new : Contract.t) : Prop := {
  ke_request : Contract.request new = Contract.request old;
  ke_limits : Contract.limits new = Contract.limits old;
  ke_delivery : Contract.delivery new = Contract.delivery old;
  ke_outcome : starts_with (Contract.outcome new) (Contract.outcome old) = true;
  ke_scope : starts_with (Contract.scope new) (Contract.scope old) = true;
  ke_requirements : Contract.requirements old ⊆ Contract.requirements new;
  ke_checks : Contract.checks old ⊆ Contract.checks new;
  ke_protected : Contract.protected_behavior old ⊆ Contract.protected_behavior new;
  ke_assumptions : Contract.assumptions old ⊆ Contract.assumptions new;
}.

Lemma existsb_missing {A} `{EqDecision A} (new old : list A) :
  existsb (λ x, bool_decide (x ∉ new)) old = false ↔ old ⊆ new.
Proof.
  rewrite <-not_true_iff_false, existsb_exists. split.
  - intros Hn x Hx. destruct (decide (x ∈ new)); [done|]. destruct Hn. exists x.
    by rewrite <-list_elem_of_In, bool_decide_eq_true.
  - intros Hs (x & Hx%list_elem_of_In & Hb%bool_decide_eq_true). by apply Hb, Hs.
Qed.

Lemma existsb_changed (new old : gmap string CheckDefinition.t) :
  existsb (λ '(id, check), bool_decide (new !! id ≠ Some check)) (btree_iter old) = false ↔ old ⊆ new.
Proof.
  rewrite <-not_true_iff_false, existsb_exists, map_subseteq_spec. split.
  - intros Hn i x Hx. destruct (decide (new !! i = Some x)); [done|]. destruct Hn. exists (i, x).
    by rewrite <-list_elem_of_In, elem_of_btree_iter, bool_decide_eq_true.
  - intros Hs ([i x] & Hx%list_elem_of_In%elem_of_btree_iter & Hb%bool_decide_eq_true). by apply Hb, Hs.
Qed.

Lemma preserves_obligations_Ok (old new : Contract.t) : preserves_obligations old new = Ok tt ↔ retains old new.
Proof.
  unfold preserves_obligations.
  rewrite reject_if_Ok, !orb_false_iff, !negb_false_iff, !existsb_missing, existsb_changed.
  split.
  - rewrite !bool_decide_eq_false. intros ((((((((Hr & Hl) & Hd) & ?) & ?) & ?) & ?) & ?) & ?).
    split; try done; by apply dec_stable.
  - intros []. rewrite !bool_decide_eq_false_2 by tauto. done.
Qed.
