(* ===== verification/Journal.v ===== *)
(** * The task journal (crates/harness/src/store.rs)

    The SQLite tables that hold a task: the materialized row in [tasks], the
    hash-chained [events], periodic [checkpoints] and the verification [leases].
    [load_state] rebuilds a task from its journal and refuses every divergence;
    [append_task_event] is the only writer of an existing task. SQL text is
    replaced by the table operation it denotes; a transaction that ends in an
    error leaves the database as it was, which is the [Err] of the model. *)

From S2P Require Import Prelude Digest Codec Artifacts Contract State Completion Workspace.
From S2P Require Import Input ArtifactGraph.

Definition MAX_EVENT_BYTES : N := 512 * 1024.

(** ** Tables

    Text columns that hold a UUID hold the identifier itself. *)

Module TaskRow.
Record t : Type := mk {
  revision : Z;
  state : string;
  head : string;
}.
End TaskRow.

Module EventRow.
Record t : Type := mk {
  sequence : N;
  event : string;
  hash : string;
}.
End EventRow.

Module CheckpointRow.
Record t : Type := mk {
  state : string;
  head : string;
}.
End CheckpointRow.

(** The tables with their keys: [tasks] by id ([task_order] is the order of
    rowids), [events] of kind [task] by aggregate and revision (the UNIQUE
    constraint), [checkpoints] likewise, [leases] by task and job. *)
Record Db : Type := mk_db {
  tasks : gmap Uuid TaskRow.t;
  task_order : list Uuid;
  events : gmap Uuid (gmap Z EventRow.t);
  checkpoints : gmap Uuid (gmap Z CheckpointRow.t);
  leases : gmap (Uuid * Uuid) string;
  next_sequence : N;
}.
#[global] Instance eta_db : Eta Db := λ d,
  mk_db (tasks d) (task_order d) (events d) (checkpoints d) (leases d) (next_sequence d).
Definition empty_db : Db := mk_db ∅ [] ∅ ∅ ∅ 1.

(** ** Serialization

    The types the journal passes through [serde_json]. *)

Definition HashInput : Type := string * Uuid * N * option Digest * Digest.

Class StoreSerde := {
  #[global] serde_hash :: Serde HashInput;
  #[global] serde_event :: Serde TaskEvent.t;
  #[global] serde_state :: Serde TaskState.t;
  #[global] serde_contract :: Serde Contract.t;
  #[global] serde_check :: Serde CheckDefinition.t;
  #[global] serde_snapshot :: Serde Snapshot.t;
  #[global] serde_receipt :: Serde PatchValidationReceipt.t;
  #[global] serde_messages :: Serde (list Value);
}.
Class StoreSerdeOk `{!StoreSerde} := {
  #[global] serde_hash_ok :: SerdeOk HashInput;
  #[global] serde_event_ok :: SerdeOk TaskEvent.t;
  #[global] serde_state_ok :: SerdeOk TaskState.t;
}.

Section journal.
Context {SHA : Sha256} {SER : StoreSerde}.
Implicit Types (db : Db) (s : TaskState.t) (e : TaskEvent.t).

(** ** Hash chain *)

Definition aggregate_hash (kind : string) (id : Uuid) (revision : N) (previous : option Digest)
    (bytes : string) : result Digest StoreError.t :=
  ok_or (of_value ((kind, id, revision, previous, digest_of bytes) : HashInput)) StoreError.Json.

Definition event_hash (task : Uuid) (revision : N) (previous : option Digest) (bytes : string) :
    result Digest StoreError.t :=
  aggregate_hash "task" task revision previous bytes.

Definition event_bytes e : result string StoreError.t :=
  let? bytes := ok_or (to_vec e) StoreError.Json in
  let? _ := reject_if (MAX_EVENT_BYTES <? str_len bytes)%N
              (StoreError.Invalid "event payload exceeds limit") in
  Ok bytes.

(** ** Queries and statements *)

Definition task_events db (id : Uuid) : gmap Z EventRow.t := default ∅ (events db !! id).
Definition task_checkpoints db (id : Uuid) : gmap Z CheckpointRow.t := default ∅ (checkpoints db !! id).

(** [... AND revision>?2 ORDER BY revision] *)
Definition events_after db (id : Uuid) (after : Z) : list (Z * EventRow.t) :=
  base.filter (λ '(revision, _), (after < revision)%Z) (btree_iter (task_events db id)).
(** [... AND revision<=?2 ORDER BY revision DESC LIMIT 1] *)
Definition latest_checkpoint db (id : Uuid) (through : Z) : option (Z * CheckpointRow.t) :=
  last (base.filter (λ '(revision, _), (revision ≤ through)%Z) (btree_iter (task_checkpoints db id))).

(** [INSERT INTO events]: refused when the revision exists. *)
Definition insert_event db (id : Uuid) (revision : Z) (bytes hash : string) : result Db StoreError.t :=
  let? _ := reject_if (bool_decide (is_Some (task_events db id !! revision))) StoreError.Sql in
  Ok (db <| events := <[id := <[revision := EventRow.mk (next_sequence db) bytes hash]>
                                (task_events db id)]> (events db) |>
         <| next_sequence := (next_sequence db + 1)%N |>).
(** [INSERT INTO tasks]: refused when the identifier exists. *)
Definition insert_task_row db (id : Uuid) (row : TaskRow.t) : result Db StoreError.t :=
  let? _ := reject_if (bool_decide (is_Some (tasks db !! id))) StoreError.Sql in
  Ok (db <| tasks := <[id := row]> (tasks db) |> <| task_order := task_order db ++ [id] |>).
(** [UPDATE tasks SET ... WHERE id=?1] *)
Definition update_task_row db (id : Uuid) (row : TaskRow.t) : Db :=
  db <| tasks := alter (λ _, row) id (tasks db) |>.

(** [store_checkpoint] ([INSERT OR REPLACE]) *)
Definition store_checkpoint db (id : Uuid) (revision : N) s (head : Digest) : result Db StoreError.t :=
  let? revision := ok_or (i64_try_from revision) (StoreError.Invalid "checkpoint revision exhausted") in
  let? state := ok_or (to_vec s) StoreError.Json in
  Ok (db <| checkpoints := <[id := <[revision := CheckpointRow.mk state (digest_to_string head)]>
                                     (task_checkpoints db id)]> (checkpoints db) |>).

(** ** Loading *)

(** A failing [apply]; its unreachable arm is a panic in the source. *)
Definition apply_error (e : ApplyError) : StoreError.t :=
  match e with
  | SerdeError => StoreError.Json
  | Unreachable => StoreError.Integrity "creation is handled by the journal loader"
  end.

(** The [match] on the state loaded so far and the next event. *)
Definition load_event (id : Uuid) (state : option TaskState.t) e : result TaskState.t StoreError.t :=
  match state, e with
  | None, TaskEvent.Requested request limits intake input at_ms =>
      let? _ := map_err StoreError.Contract (Limits.validate limits) in
      let? _ := reject_if (trim_is_empty request) (StoreError.Integrity "empty original request") in
      Ok (TaskState.requested id request limits at_ms (Some intake) input)
  | None, TaskEvent.Created c at_ms =>
      let? _ := map_err StoreError.Contract (Contract.validate c) in
      Ok (TaskState.created id c at_ms)
  | Some _, TaskEvent.Created _ _ | Some _, TaskEvent.Requested _ _ _ _ _ | None, _ =>
      Err (StoreError.Integrity "invalid task creation sequence")
  | Some state, e => map_err apply_error (TaskState.apply state e)
  end.

(** The loop's locals: state, head and sequence. *)
Definition loading : Type := option TaskState.t * option Digest * N.

Definition load_row (id : Uuid) (acc : loading) (item : Z * EventRow.t) : result loading StoreError.t :=
  let '(state, head, sequence) := acc in
  let '(revision, row) := item in
  let bytes := EventRow.event row in
  let? event_revision := ok_or (u64_try_from revision) (StoreError.Integrity "negative event revision") in
  let sequence := u64_succ sequence in
  let? _ := reject_if (negb (event_revision =? sequence)%N || (MAX_EVENT_BYTES <? str_len bytes)%N)
              (StoreError.Integrity "journal ordering or size") in
  let? hash := event_hash id event_revision head bytes in
  let? _ := reject_if (negb (str_eqb (EventRow.hash row) (digest_to_string hash)))
              (StoreError.Integrity "journal hash") in
  let? event := ok_or (from_slice bytes) StoreError.Json in
  let? state := load_event id state event in
  Ok (Some state, Some hash, sequence).

Definition load_checkpoint (id : Uuid) (checkpoint : option (Z * CheckpointRow.t)) :
    result loading StoreError.t :=
  match checkpoint with
  | Some (revision, row) =>
      let? checkpoint_revision :=
        ok_or (u64_try_from revision) (StoreError.Integrity "negative task checkpoint revision") in
      let? state := ok_or (from_slice (CheckpointRow.state row)) StoreError.Json in
      let? _ := reject_if (negb (TaskState.id state =? id)%N
                           || negb (TaskState.revision state =? checkpoint_revision)%N)
                  (StoreError.Integrity "invalid task checkpoint") in
      let? head := map_err (λ _, StoreError.Integrity "task checkpoint hash")
                     (digest_from_str (CheckpointRow.head row)) in
      Ok (Some state, Some head, checkpoint_revision)
  | None => Ok (None, None, 0%N)
  end.

Definition load_state db (id : Uuid) : result (TaskState.t * Digest) StoreError.t :=
  let? row := ok_or (tasks db !! id) (StoreError.Missing id) in
  let? revision := ok_or (u64_try_from (TaskRow.revision row))
                     (StoreError.Integrity "negative task revision") in
  let? start := load_checkpoint id (latest_checkpoint db id (Z.of_N revision)) in
  let? '(state, head, sequence) :=
    for_each (load_row id) start (events_after db id (Z.of_N start.2)) in
  let? state := ok_or state (StoreError.Integrity "missing creation event") in
  let? head := ok_or head (StoreError.Integrity "missing journal head") in
  let? _ := reject_if (negb (sequence =? revision)%N
                       || negb (str_eqb (digest_to_string head) (TaskRow.head row)))
              (StoreError.Integrity "materialized state differs from journal") in
  let? bytes := ok_or (to_vec state) StoreError.Json in
  let? _ := reject_if (negb (str_eqb bytes (TaskRow.state row)))
              (StoreError.Integrity "materialized state differs from journal") in
  Ok (state, head).

(** ** Writing *)

(** [check_artifact_budget]: the graph of every event of the task and the new one. *)
Definition check_artifact_budget db (task : Uuid) e (artifacts : ArtifactStore.t) (limit : N) :
    result unit StoreError.t :=
  let? referenced :=
    for_each (λ referenced row,
        let? event := ok_or (from_slice (EventRow.event row)) StoreError.Json in
        Ok (collect_artifacts event referenced))
      ∅ (btree_values (task_events db task)) in
  verify_artifact_graph (collect_artifacts e referenced) artifacts limit.

(** The limit an event is checked against: a new contract brings its own. *)
Definition event_limit s e : N :=
  match e with
  | TaskEvent.ContractAmended c _ | TaskEvent.ContractAdmitted c _ _
  | TaskEvent.AdditiveContractAccepted c _ _ => Limits.artifact_bytes (Contract.limits c)
  | _ => Limits.artifact_bytes (TaskState.limits s)
  end.

(** The events that can add references before the next check of the graph. *)
Definition budgeted e : bool :=
  match e with
  | TaskEvent.ContractAmended _ _ | TaskEvent.ManualStarted _ | TaskEvent.ManualWorkspace _ _
  | TaskEvent.OriginCaptured _ | TaskEvent.DirectiveReceived _ _ | TaskEvent.DirectiveReplaced _ _
  | TaskEvent.AdditiveContractAccepted _ _ _ | TaskEvent.ContractAdmitted _ _ _
  | TaskEvent.JobStarted _ | TaskEvent.CandidateSelected _ | TaskEvent.BaselineEstablished _
  | TaskEvent.Observed _ | TaskEvent.Delivered _ | TaskEvent.Completed _ => true
  | _ => false
  end.

Definition checkpoint_due (revision : N) : bool := (revision mod 128 =? 0)%N.

(** The writes of [append_task_event] once the new state and its bytes are known. *)
Definition write_event db (id : Uuid) s (head : Digest) (bytes : string) : result Db StoreError.t :=
  let? sql_revision := ok_or (i64_try_from (TaskState.revision s))
                         (StoreError.Invalid "journal revision exhausted") in
  let? db := insert_event db id sql_revision bytes (digest_to_string head) in
  let? state := ok_or (to_vec s) StoreError.Json in
  let db := update_task_row db id (TaskRow.mk sql_revision state (digest_to_string head)) in
  if checkpoint_due (TaskState.revision s) then store_checkpoint db id (TaskState.revision s) s head
  else Ok db.

Definition append_task_event db s (head : Digest) e (artifacts : ArtifactStore.t) :
    result (Db * TaskState.t) StoreError.t :=
  let id := TaskState.id s in
  let? _ := if budgeted e then check_artifact_budget db id e artifacts (event_limit s e) else Ok tt in
  let? bytes := event_bytes e in
  let? s := map_err apply_error (TaskState.apply s e) in
  let? hash := event_hash id (TaskState.revision s) (Some head) bytes in
  let? db := write_event db id s hash bytes in
  Ok (db, s).

(** The creation of a task: its first event, its row and its first checkpoint. *)
Definition insert_task db (id : Uuid) e s (artifacts : ArtifactStore.t) : result Db StoreError.t :=
  let? bytes := event_bytes e in
  let? hash := event_hash id 1 None bytes in
  let? _ := check_artifact_budget db id e artifacts (Limits.artifact_bytes (TaskState.limits s)) in
  let? state := ok_or (to_vec s) StoreError.Json in
  let? db := insert_task_row db id (TaskRow.mk 1 state (digest_to_string hash)) in
  let? db := insert_event db id 1 bytes (digest_to_string hash) in
  store_checkpoint db id 1 s hash.
End journal.

(** ** Abstract specification

    A task is its history: the list of its events. [replay] is what the journal
    of that history means; [represents] says that the tables hold it. *)

Section history.
Context {SHA : Sha256} {SER : StoreSerde}.
Implicit Types (db : Db) (s : TaskState.t) (e : TaskEvent.t) (es : list TaskEvent.t).

Definition replay_event (id : Uuid) (acc : loading) e : result loading StoreError.t :=
  let '(state, head, sequence) := acc in
  let? bytes := event_bytes e in
  let? hash := event_hash id (sequence + 1) head bytes in
  let? state := load_event id state e in
  Ok (Some state, Some hash, (sequence + 1)%N).
Definition replay (id : Uuid) es : result loading StoreError.t :=
  for_each (replay_event id) (None, None, 0%N) es.

Record represents db (id : Uuid) es s (head : Digest) : Prop := {
  rp_replay : replay id es = Ok (Some s, Some head, N.of_nat (length es));
  rp_width : (N.of_nat (length es) ≤ i64_MAX)%N;
  rp_row : ∃ bytes, to_vec s = Some bytes ∧
    tasks db !! id = Some (TaskRow.mk (Z.of_nat (length es)) bytes (digest_to_string head));
  rp_dom z : is_Some (task_events db id !! z) ↔ (1 ≤ z ≤ Z.of_nat (length es))%Z;
  rp_events i e row : es !! i = Some e → task_events db id !! (Z.of_nat (S i)) = Some row →
    event_bytes e = Ok (EventRow.event row) ∧
    ∃ state h, replay id (take (S i) es) = Ok (state, Some h, N.of_nat (S i)) ∧
      EventRow.hash row = digest_to_string h;
  rp_checkpoints z row : task_checkpoints db id !! z = Some row →
    ∃ i s' h, z = Z.of_nat i ∧ i ≤ length es ∧
      replay id (take i es) = Ok (Some s', Some h, N.of_nat i) ∧
      to_vec s' = Some (CheckpointRow.state row) ∧ CheckpointRow.head row = digest_to_string h;
}.

(** ** Replay *)

Lemma replay_snoc id es e acc :
  replay id (es ++ [e]) = Ok acc ↔ ∃ acc', replay id es = Ok acc' ∧ replay_event id acc' e = Ok acc.
Proof.
  unfold replay. rewrite for_each_app, rbind_Ok. simpl. setoid_rewrite rbind_Ok. split.
  - intros (a & ? & a' & ? & [= <-]). eauto.
  - intros (a & ? & ?). exists a. split; [done|]. eauto.
Qed.

Lemma load_event_Ok id st e s :
  load_event id st e = Ok s →
  (st = None ∧ TaskState.id s = id ∧ TaskState.revision s = 1%N) ∨
  (∃ s0, st = Some s0 ∧ TaskState.apply s0 e = Ok s).
Proof.
  intros H. destruct st as [s0|]; [right; exists s0; split; [done|]|left].
  - destruct e; try discriminate H; by apply map_err_Ok in H.
  - destruct e; try discriminate H; apply rbind_Ok in H as ([] & _ & H).
    + by apply rbind_Ok in H as ([] & _ & [= <-]).
    + by injection H as <-.
Qed.

Lemma load_event_apply id s0 e s :
  TaskState.apply s0 e = Ok s → load_event id (Some s0) e = Ok s.
Proof. intros H. destruct e; cbn [load_event]; try (by rewrite H); discriminate H. Qed.

(** What a replayed prefix carries. *)
Lemma replay_facts id es st hd n :
  (N.of_nat (length es) ≤ u64_MAX)%N → replay id es = Ok (st, hd, n) →
  n = N.of_nat (length es) ∧
  match es with
  | [] => st = None ∧ hd = None
  | _ => ∃ s h, st = Some s ∧ hd = Some h ∧ TaskState.id s = id ∧ TaskState.revision s = n
  end.
Proof.
  revert st hd n. induction es as [|e es IH] using rev_ind; intros st hd n Hlen; [by intros [= <- <- <-]|].
  rewrite length_app in *. simpl in Hlen. rewrite replay_snoc.
  intros ([[st0 hd0] n0] & H0 & (bytes & _ & H)%rbind_Ok). simpl in H.
  destruct (IH _ _ _ ltac:(lia) H0) as [-> Hpre].
  apply rbind_Ok in H as (h & _ & H). apply rbind_Ok in H as (s & Hs & [= <- <- <-]).
  split; [simpl; lia|].
  assert (∃ s' h', Some s = Some s' ∧ Some h = Some h' ∧ TaskState.id s' = id ∧
    TaskState.revision s' = (N.of_nat (length es) + 1)%N) as Hgoal; [|by destruct es].
  exists s, h. split_and!; [done|done|..];
    apply load_event_Ok in Hs as [(-> & ? & Hrev)|(s0 & -> & Hap)]; try done.
  - destruct es; [by destruct Hpre|]. destruct Hpre as (? & ? & [= <-] & _ & Hid & _).
    by destruct (apply_identity _ _ _ Hap) as [-> _].
  - destruct es; [done|]. by destruct Hpre as (? & ? & ? & _).
  - destruct es; [by destruct Hpre|]. destruct Hpre as (? & ? & [= <-] & _ & _ & Hr).
    rewrite (apply_revision _ _ _ Hap), Hr, u64_succ_small by (simpl in *; lia). done.
Qed.

Lemma replay_prefix id es acc i :
  replay id es = Ok acc → ∃ acc', replay id (take i es) = Ok acc' ∧
    for_each (replay_event id) acc' (drop i es) = Ok acc.
Proof.
  unfold replay. rewrite <-(take_drop i es) at 1. rewrite for_each_app, rbind_Ok.
  intros (acc' & ? & ?). eauto.
Qed.

(** ** The loader computes the replay *)

Context {OK : StoreSerdeOk}.

Lemma event_bytes_Ok e bytes :
  event_bytes e = Ok bytes ↔ to_vec e = Some bytes ∧ (str_len bytes ≤ MAX_EVENT_BYTES)%N.
Proof.
  unfold event_bytes. rewrite rbind_Ok. setoid_rewrite ok_or_Ok. split.
  - intros (b & ? & ([] & ?%reject_if_Ok%N.ltb_ge & [= <-])%rbind_Ok). done.
  - intros [-> ?]. exists bytes. split; [done|]. by rewrite (proj2 (N.ltb_ge _ _)).
Qed.

Lemma load_rows id es k st hd acc (l : list (Z * EventRow.t)) :
  (N.of_nat k + N.of_nat (length es) ≤ i64_MAX)%N →
  l.*1 = seqZ (Z.of_nat k + 1) (Z.of_nat (length es)) →
  (∀ i e z row, es !! i = Some e → l !! i = Some (z, row) →
    event_bytes e = Ok (EventRow.event row) ∧
    ∃ state h, for_each (replay_event id) (st, hd, N.of_nat k) (take (S i) es)
        = Ok (state, Some h, N.of_nat (k + S i)) ∧ EventRow.hash row = digest_to_string h) →
  for_each (replay_event id) (st, hd, N.of_nat k) es = Ok acc →
  for_each (load_row id) (st, hd, N.of_nat k) l = Ok acc.
Proof.
  revert k st hd l. induction es as [|e es IH]; intros k st hd l Hmax Hkeys Hrows.
  { simpl in Hkeys. rewrite seqZ_nil in Hkeys by lia. by destruct l. }
  simpl length in *. rewrite seqZ_cons in Hkeys by lia.
  destruct l as [|[z row] l]; [done|]. simpl in Hkeys. injection Hkeys as -> Hkeys.
  cbn [for_each]. intros (acc1 & Hstep & Hrest)%rbind_Ok.
  destruct (Hrows 0 e _ row eq_refl eq_refl) as (Hbytes & state & h & Hfirst & Hhash).
  cbn [take for_each] in Hfirst. rewrite rbind_Ok in Hfirst. destruct Hfirst as (acc1' & Hstep' & [= ->]).
  assert (acc1 = (state, Some h, N.of_nat (k + 1))) as ->
    by (rewrite Hstep in Hstep'; by injection Hstep').
  apply rbind_Ok in Hstep as (bytes & Hbytes' & Hstep). rewrite Hbytes in Hbytes'. injection Hbytes' as <-.
  apply rbind_Ok in Hstep as (hash & Hev & Hstep). apply rbind_Ok in Hstep as (s1 & Hload & Heq).
  injection Heq as <- <- Hseq.
  assert (load_row id (st, hd, N.of_nat k) ((Z.of_nat k + 1)%Z, row)
    = Ok (Some s1, Some hash, N.of_nat (k + 1))) as ->.
  { unfold load_row. replace (Z.of_nat k + 1)%Z with (Z.of_N (N.of_nat k + 1)) by lia.
    rewrite u64_try_from_of_N. simpl.
    rewrite u64_succ_small by (unfold i64_MAX, u64_MAX in *; lia).
    apply event_bytes_Ok in Hbytes as [Hvec Hle].
    rewrite N.eqb_refl, (proj2 (N.ltb_ge _ _)) by done. simpl. rewrite Hev. simpl.
    unfold str_eqb. rewrite bool_decide_true by done. simpl.
    rewrite (from_slice_to_vec e) by done. simpl. rewrite Hload. simpl.
    repeat f_equal. lia. }
  cbn [rbind]. apply IH; [lia| | |done].
  - etransitivity; [exact Hkeys|]. f_equal; lia.
  - intros i e' z' row' He Hl. destruct (Hrows (S i) e' z' row' He Hl) as (? & st' & h' & Hpre & ?).
    split; [done|]. exists st', h'. split; [|done].
    change (take (S (S i)) (e :: es)) with (e :: take (S i) es) in Hpre. cbn [for_each] in Hpre.
    rewrite Hstep' in Hpre. cbn [rbind] in Hpre. rewrite Hpre. f_equal. f_equal. lia.
Qed.

Lemma last_elem_of {A} (l : list A) x : last l = Some x → x ∈ l.
Proof. intros (l' & ->)%last_Some. apply elem_of_app. right. left. Qed.

Lemma load_checkpoint_represents db id es s hd :
  represents db id es s hd →
  ∃ i st h, load_checkpoint id (latest_checkpoint db id (Z.of_nat (length es)))
      = Ok (st, h, N.of_nat i) ∧ i ≤ length es ∧
    replay id (take i es) = Ok (st, h, N.of_nat i).
Proof.
  intros [_ Hwidth _ _ _ Hcp]. unfold latest_checkpoint.
  destruct (last _) as [[z row]|] eqn:Hl; [|by exists 0, None, None; split_and!; [done|lia|]].
  apply last_elem_of, list_elem_of_filter in Hl as [_ Hrow%elem_of_btree_iter].
  destruct (Hcp z row Hrow) as (i & s' & h & -> & Hi & Hreplay & Hvec & Hhead).
  exists i, (Some s'), (Some h). split_and!; [|done|done]. simpl.
  assert (Hlen : length (take i es) = i) by (rewrite length_take; lia).
  destruct (replay_facts id (take i es) _ _ _ ltac:(rewrite Hlen; unfold i64_MAX, u64_MAX in *; lia) Hreplay)
    as [_ Hfacts].
  assert (TaskState.id s' = id ∧ TaskState.revision s' = N.of_nat i) as [Hid Hrev].
  { destruct (take i es); [by destruct Hfacts|]. by destruct Hfacts as (? & ? & [= <-] & _ & ? & ?). }
  replace (Z.of_nat i) with (Z.of_N (N.of_nat i)) by lia. rewrite u64_try_from_of_N. simpl.
  rewrite (from_slice_to_vec s') by done. simpl. rewrite Hid, Hrev, !N.eqb_refl. simpl.
  rewrite Hhead, digest_from_to_string. done.
Qed.

(** The loader returns exactly what the history replays to. *)
Lemma load_represents db id es s hd :
  represents db id es s hd → load_state db id = Ok (s, hd).
Proof.
  intros Hrep. destruct (load_checkpoint_represents _ _ _ _ _ Hrep) as (i & st & h & Hcp & Hi & Hpre).
  destruct Hrep as [Hreplay Hwidth (bytes & Hvec & Hrow) Hdom Hev _].
  unfold load_state. rewrite Hrow. simpl.
  replace (Z.of_nat (length es)) with (Z.of_N (N.of_nat (length es))) at 1 by lia.
  rewrite u64_try_from_of_N. simpl.
  replace (Z.of_N (N.of_nat (length es))) with (Z.of_nat (length es)) by lia. rewrite Hcp. simpl.
  destruct (replay_prefix id es _ i Hreplay) as (acc & Hpre' & Hrest).
  rewrite Hpre in Hpre'. injection Hpre' as <-.
  rewrite (load_rows id (drop i es) i st h (Some s, Some hd, N.of_nat (length es))).
  - simpl. rewrite N.eqb_refl. unfold str_eqb. rewrite bool_decide_true by done. simpl.
    rewrite Hvec. simpl. by rewrite bool_decide_true.
  - rewrite length_drop. lia.
  - unfold events_after. rewrite (btree_iter_after _ _ (Z.of_nat (length es))) by (done || lia).
    rewrite length_drop. f_equal; lia.
  - intros j e z row He Hl. rewrite lookup_drop in He.
    assert (z = Z.of_nat (S (i + j))) as ->.
    { pose proof (btree_iter_after (task_events db id) (Z.of_N (N.of_nat i)) (Z.of_nat (length es)) Hdom
        ltac:(lia)) as Hkeys.
      apply (f_equal (lookup j)) in Hkeys. unfold events_after in Hl.
      rewrite list_lookup_fmap, Hl in Hkeys. simpl in Hkeys. symmetry in Hkeys.
      apply lookup_seqZ in Hkeys as [-> _]. lia. }
    apply list_elem_of_lookup_2 in Hl. apply list_elem_of_filter in Hl as [_ Hrowj%elem_of_btree_iter].
    destruct (Hev _ _ _ He Hrowj) as (? & state & h' & Htake & ?). split; [done|].
    exists state, h'. split; [|done].
    replace (S (i + j)) with (i + S j) in Htake by lia. rewrite <-take_take_drop in Htake.
    unfold replay in Htake. rewrite for_each_app in Htake. unfold replay in Hpre.
    rewrite Hpre in Htake. exact Htake.
  - exact Hrest.
Qed.

(** ** Writing extends the history *)

(** What [represents] reads of a database. *)
Definition same_task db db' (id : Uuid) : Prop :=
  tasks db !! id = tasks db' !! id ∧ task_events db id = task_events db' id ∧
  task_checkpoints db id = task_checkpoints db' id.

Lemma represents_frame db db' id es s hd :
  same_task db db' id → represents db id es s hd → represents db' id es s hd.
Proof.
  intros (Ht & He & Hc) [H1 H2 H3 H4 H5 H6]. split; rewrite <-?Ht, <-?He, <-?Hc; done.
Qed.

Lemma task_events_insert db id m id' :
  task_events (db <| events := <[id := m]> (events db) |>) id'
  = if decide (id = id') then m else task_events db id'.
Proof.
  unfold task_events, put. simpl. destruct (decide (id = id')) as [<-|].
  - by rewrite lookup_insert_eq.
  - by rewrite lookup_insert_ne.
Qed.

Lemma store_checkpoint_Ok db id r s hd db' :
  store_checkpoint db id r s hd = Ok db' →
  ∃ z bytes, i64_try_from r = Some z ∧ to_vec s = Some bytes ∧
    tasks db' = tasks db ∧ task_order db' = task_order db ∧ leases db' = leases db ∧
    (∀ id', task_events db' id' = task_events db id') ∧
    (∀ id', task_checkpoints db' id' =
       if decide (id = id') then <[z := CheckpointRow.mk bytes (digest_to_string hd)]> (task_checkpoints db id)
       else task_checkpoints db id').
Proof.
  unfold store_checkpoint.
  intros (z & Hz%ok_or_Ok & (bytes & Hb%ok_or_Ok & [= <-])%rbind_Ok)%rbind_Ok.
  exists z, bytes. split_and!; try done. intros id'. unfold task_checkpoints, put. simpl.
  destruct (decide (id = id')) as [<-|]; [by rewrite lookup_insert_eq|by rewrite lookup_insert_ne].
Qed.

Lemma insert_event_Ok db id z bytes hash db' :
  insert_event db id z bytes hash = Ok db' →
  task_events db id !! z = None ∧ tasks db' = tasks db ∧ task_order db' = task_order db ∧
  leases db' = leases db ∧ (∀ id', task_checkpoints db' id' = task_checkpoints db id') ∧
  (∀ id', task_events db' id' =
     if decide (id = id') then <[z := EventRow.mk (next_sequence db) bytes hash]> (task_events db id)
     else task_events db id').
Proof.
  unfold insert_event. intros ([] & Hn%reject_if_Ok%bool_decide_eq_false & [= <-])%rbind_Ok.
  split_and!; try done; [by apply eq_None_not_Some|]. intros id'.
  unfold task_events, put. simpl.
  destruct (decide (id = id')) as [<-|]; [by rewrite lookup_insert_eq|by rewrite lookup_insert_ne].
Qed.

(** The tables after the writes of one event. *)
Lemma write_event_Ok db id s hd bytes db' :
  write_event db id s hd bytes = Ok db' →
  ∃ z sb seq, i64_try_from (TaskState.revision s) = Some z ∧ to_vec s = Some sb ∧
    tasks db' = alter (λ _, TaskRow.mk z sb (digest_to_string hd)) id (tasks db) ∧
    task_order db' = task_order db ∧ leases db' = leases db ∧
    task_events db id !! z = None ∧
    (∀ id', task_events db' id' =
       if decide (id = id') then <[z := EventRow.mk seq bytes (digest_to_string hd)]> (task_events db id)
       else task_events db id') ∧
    (∀ id', task_checkpoints db' id' = task_checkpoints db id' ∨
       (id = id' ∧ task_checkpoints db' id' =
          <[z := CheckpointRow.mk sb (digest_to_string hd)]> (task_checkpoints db id'))).
Proof.
  unfold write_event. intros (z & Hz%ok_or_Ok & H)%rbind_Ok.
  apply rbind_Ok in H as (db1 & (Hnone & Ht & Ho & Hl & Hc & He)%insert_event_Ok & H).
  apply rbind_Ok in H as (sb & Hsb%ok_or_Ok & H). exists z, sb, (next_sequence db).
  destruct (checkpoint_due _).
  - apply store_checkpoint_Ok in H as (z' & sb' & Hz' & Hsb' & -> & -> & -> & He' & Hc').
    assert (z' = z) as -> by congruence. assert (sb' = sb) as -> by congruence.
    split_and!; try done.
    + unfold update_task_row, put. simpl. by rewrite Ht.
    + intros id'. rewrite He'. apply He.
    + intros id'. rewrite Hc'. destruct (decide (id = id')) as [<-|]; [right|left].
      * split; [done|]. f_equal. apply Hc.
      * apply Hc.
  - injection H as <-. split_and!; try done.
    + unfold update_task_row, put. simpl. by rewrite Ht.
    + intros id'. left. apply Hc.
Qed.

Lemma represents_id db id es s hd :
  represents db id es s hd →
  es ≠ [] ∧ TaskState.id s = id ∧ TaskState.revision s = N.of_nat (length es).
Proof.
  intros [Hreplay Hwidth _ _ _ _].
  destruct (replay_facts id es _ _ _ ltac:(unfold i64_MAX, u64_MAX in *; lia) Hreplay) as [_ H].
  destruct es; [by destruct H|]. by destruct H as (? & ? & [= <-] & _ & ? & ?).
Qed.

Lemma take_length_snoc {A} (l : list A) x : take (S (length l)) (l ++ [x]) = l ++ [x].
Proof. apply take_ge. rewrite length_app. simpl. lia. Qed.

(** The history of a task after one more replayed event whose writes are given. *)
Lemma represents_snoc db db' id es s hd e s' hd' bytes sb seq :
  represents db id es s hd →
  replay_event id (Some s, Some hd, N.of_nat (length es)) e
    = Ok (Some s', Some hd', N.of_nat (S (length es))) →
  event_bytes e = Ok bytes → to_vec s' = Some sb →
  (N.of_nat (S (length es)) ≤ i64_MAX)%N →
  tasks db' !! id = Some (TaskRow.mk (Z.of_nat (S (length es))) sb (digest_to_string hd')) →
  task_events db' id = <[Z.of_nat (S (length es)) := EventRow.mk seq bytes (digest_to_string hd')]>
                         (task_events db id) →
  (task_checkpoints db' id = task_checkpoints db id ∨
   task_checkpoints db' id = <[Z.of_nat (S (length es)) := CheckpointRow.mk sb (digest_to_string hd')]>
                               (task_checkpoints db id)) →
  represents db' id (es ++ [e]) s' hd'.
Proof.
  intros [Hreplay Hwidth _ Hdom Hev Hcp] Hstep Hbytes Hsb Hmax Hrow Hevents Hchecks.
  assert (Hfull : replay id (es ++ [e]) = Ok (Some s', Some hd', N.of_nat (S (length es)))).
  { apply replay_snoc. eauto. }
  assert (Hlen : length (es ++ [e]) = S (length es)) by (rewrite length_app; simpl; lia).
  split; rewrite ?Hlen; try done; [eauto|..].
  - intros z. rewrite Hevents, lookup_insert_is_Some', Hdom. lia.
  - intros i e' row Hi. rewrite Hevents, lookup_insert_Some.
    intros [[Hz <-]|[Hz Hold]].
    + assert (i = length es) as -> by lia. rewrite list_lookup_middle in Hi by done. injection Hi as <-.
      split; [done|]. exists (Some s'), hd'. by rewrite take_length_snoc.
    + assert (i < length es) as Hlt.
      { apply mk_is_Some, Hdom in Hold. lia. }
      rewrite lookup_app_l in Hi by done. destruct (Hev _ _ _ Hi Hold) as (? & st & h & Htake & ?).
      split; [done|]. exists st, h. by rewrite take_app_le by lia.
  - assert (Hkeep : ∀ z row, task_checkpoints db id !! z = Some row →
      ∃ i s0 h, z = Z.of_nat i ∧ i ≤ S (length es) ∧
        replay id (take i (es ++ [e])) = Ok (Some s0, Some h, N.of_nat i) ∧
        to_vec s0 = Some (CheckpointRow.state row) ∧ CheckpointRow.head row = digest_to_string h).
    { intros z row Hz. destruct (Hcp z row Hz) as (i & s0 & h & -> & Hi & Ht & ? & ?).
      exists i, s0, h. split_and!; try done; [lia|]. by rewrite take_app_le. }
    intros z row. destruct Hchecks as [->| ->]; [apply Hkeep|].
    rewrite lookup_insert_Some. intros [[<- <-]|[_ Hz]]; [|by apply Hkeep].
    exists (S (length es)), s', hd'. rewrite take_length_snoc. done.
Qed.

(** Appending an event to a represented task extends its history by that event
    and touches no other task. *)
Lemma append_represents db id es s hd e artifacts db' s' :
  represents db id es s hd → append_task_event db s hd e artifacts = Ok (db', s') →
  (∃ hd', represents db' id (es ++ [e]) s' hd') ∧ TaskState.apply s e = Ok s' ∧
  (∀ id', id' ≠ id → same_task db db' id') ∧
  task_order db' = task_order db ∧ leases db' = leases db ∧
  (∀ id', is_Some (tasks db' !! id') ↔ is_Some (tasks db !! id')).
Proof.
  intros Hrep. destruct (represents_id _ _ _ _ _ Hrep) as (_ & Hid & Hrev).
  unfold append_task_event. rewrite Hid.
  intros ([] & _ & H)%rbind_Ok. apply rbind_Ok in H as (bytes & Hbytes & H).
  apply rbind_Ok in H as (s1 & Happ%map_err_Ok & H). apply rbind_Ok in H as (hash & Hhash & H).
  apply rbind_Ok in H as (db1 & Hw & [= -> ->]).
  apply write_event_Ok in Hw as (z & sb & seq & Hz & Hsb & Ht & Ho & Hl & Hnone & He & Hc).
  assert (Hrev' : TaskState.revision s' = N.of_nat (S (length es))).
  { rewrite (apply_revision _ _ _ Happ), Hrev, u64_succ_small; [lia|].
    pose proof (rp_width _ _ _ _ _ Hrep). unfold i64_MAX, u64_MAX in *. lia. }
  rewrite Hrev' in Hz, Hhash. apply i64_try_from_Some in Hz as [Hmax ->].
  replace (Z.of_N (N.of_nat (S (length es)))) with (Z.of_nat (S (length es))) in * by lia.
  split_and!; try done.
  - exists hash. eapply represents_snoc; [exact Hrep| |exact Hbytes|exact Hsb|exact Hmax|..].
    + unfold replay_event. rewrite Hbytes. cbn [rbind].
      replace (N.of_nat (length es) + 1)%N with (N.of_nat (S (length es))) by lia. rewrite Hhash. cbn [rbind].
      by rewrite (load_event_apply id _ _ _ Happ).
    + rewrite Ht, lookup_alter_eq. destruct (rp_row _ _ _ _ _ Hrep) as (? & _ & ->). done.
    + rewrite He. by rewrite decide_True.
    + destruct (Hc id) as [->|[_ ->]]; auto.
  - intros id' Hne. split_and!.
    + rewrite Ht. by rewrite lookup_alter_ne.
    + rewrite He. by rewrite decide_False.
    + by destruct (Hc id') as [->|[-> _]].
  - intros id'. by rewrite Ht, lookup_alter_is_Some.
Qed.

Lemma insert_represents db id e s artifacts db' :
  task_events db id = ∅ → task_checkpoints db id = ∅ →
  load_event id None e = Ok s → insert_task db id e s artifacts = Ok db' →
  (∃ hd, represents db' id [e] s hd) ∧ tasks db !! id = None ∧
  (∀ id', id' ≠ id → same_task db db' id') ∧
  task_order db' = task_order db ++ [id] ∧ leases db' = leases db ∧
  (∀ id', is_Some (tasks db' !! id') ↔ id' = id ∨ is_Some (tasks db !! id')).
Proof.
  intros Hne Hnc Hload. unfold insert_task. intros (bytes & Hbytes & H)%rbind_Ok.
  apply rbind_Ok in H as (hash & Hhash & H). apply rbind_Ok in H as ([] & _ & H).
  apply rbind_Ok in H as (sb & Hsb%ok_or_Ok & H). apply rbind_Ok in H as (db1 & Hrow & H).
  unfold insert_task_row in Hrow.
  apply rbind_Ok in Hrow as ([] & Hnone%reject_if_Ok%bool_decide_eq_false & [= <-]).
  apply rbind_Ok in H as (db2 & (_ & Ht & Ho & Hl & Hc & He)%insert_event_Ok & H).
  apply store_checkpoint_Ok in H as (z & sb' & Hz & Hsb' & Ht' & Ho' & Hl' & He' & Hc').
  apply i64_try_from_Some in Hz as [_ ->]. assert (sb' = sb) as -> by congruence.
  simpl in Ht, Ho, Hl.
  assert (Hreplay : replay id [e] = Ok (Some s, Some hash, N.of_nat 1)).
  { unfold replay, replay_event. cbn [for_each]. rewrite Hbytes. cbn [rbind].
    change (0 + 1)%N with 1%N. rewrite Hhash. cbn [rbind]. rewrite Hload. done. }
  assert (Hev1 : task_events db' id = {[1%Z := EventRow.mk (next_sequence db) bytes (digest_to_string hash)]}).
  { rewrite He', He, decide_True by done. rewrite <-insert_empty. f_equal. exact Hne. }
  assert (Hcp1 : task_checkpoints db' id = {[1%Z := CheckpointRow.mk sb (digest_to_string hash)]}).
  { rewrite Hc', decide_True, Hc by done. rewrite <-insert_empty. f_equal. exact Hnc. }
  split_and!; try done.
  - exists hash. split; rewrite ?Hev1, ?Hcp1; simpl length; try done.
    + exists sb. split; [done|]. rewrite Ht', Ht. unfold put. simpl. by rewrite lookup_insert_eq.
    + intros z. rewrite <-insert_empty, lookup_insert_is_Some', lookup_empty. split.
      * intros [<-|[? [=]]]. lia.
      * intros ?. left. lia.
    + intros [|i] e' row Hi; [|done]. injection Hi as <-. rewrite lookup_singleton_Some.
      intros [_ <-]. split; [done|]. exists (Some s), hash. done.
    + intros z row. rewrite lookup_singleton_Some. intros [<- <-].
      exists 1, s, hash. done.
  - by apply eq_None_not_Some.
  - intros id' Hid. split_and!.
    + rewrite Ht', Ht. unfold put. simpl. by rewrite lookup_insert_ne.
    + rewrite He', He. by rewrite decide_False.
    + rewrite Hc'. rewrite decide_False by done. rewrite Hc. done.
  - by rewrite Ho', Ho.
  - by rewrite Hl', Hl.
  - intros id'. rewrite Ht', Ht. unfold put. simpl. rewrite lookup_insert_is_Some'. naive_solver.
Qed.

(** ** The invariant of the tables *)

Record db_ok db : Prop := {
  do_task id : is_Some (tasks db !! id) → ∃ es s hd, represents db id es s hd;
  do_absent id : tasks db !! id = None → task_events db id = ∅ ∧ task_checkpoints db id = ∅;
  do_order : NoDup (task_order db);
  do_listed id : id ∈ task_order db ↔ is_Some (tasks db !! id);
}.

Lemma empty_db_ok : db_ok empty_db.
Proof.
  split; simpl; [by intros id []| done|constructor|].
  intros id. split; [by intros ?%elem_of_nil|by intros []].
Qed.

Lemma db_ok_load db id s hd :
  db_ok db → load_state db id = Ok (s, hd) → ∃ es, represents db id es s hd.
Proof.
  intros Hok Hload. destruct (tasks db !! id) as [row|] eqn:Hrow.
  - destruct (do_task _ Hok id ltac:(eauto)) as (es & s0 & hd0 & Hrep).
    rewrite (load_represents _ _ _ _ _ Hrep) in Hload. injection Hload as <- <-. by exists es.
  - unfold load_state in Hload. by rewrite Hrow in Hload.
Qed.

Lemma db_ok_append db id s hd e artifacts db' s' :
  db_ok db → load_state db id = Ok (s, hd) → append_task_event db s hd e artifacts = Ok (db', s') →
  db_ok db'.
Proof.
  intros Hok Hload Happ. destruct (db_ok_load _ _ _ _ Hok Hload) as [es Hrep].
  destruct (append_represents _ _ _ _ _ _ _ _ _ Hrep Happ) as ([hd' Hrep'] & _ & Hframe & Ho & _ & Hdom).
  destruct Hok as [Htask Habs Hnd Hlist]. split.
  - intros id'. rewrite Hdom. intros Hs. destruct (decide (id' = id)) as [->|Hne]; [eauto|].
    destruct (Htask id' Hs) as (es' & s0 & h0 & Hr). exists es', s0, h0.
    eapply represents_frame; [by apply Hframe|done].
  - intros id' Hn. assert (tasks db !! id' = None) as Hn'.
    { apply eq_None_not_Some. rewrite <-Hdom. by apply eq_None_not_Some. }
    assert (id' ≠ id) as Hne.
    { intros ->. destruct (rp_row _ _ _ _ _ Hrep) as (? & _ & ?). congruence. }
    destruct (Hframe id' Hne) as (_ & <- & <-). by apply Habs.
  - by rewrite Ho.
  - intros id'. by rewrite Ho, Hdom, Hlist.
Qed.

Lemma db_ok_insert db id e s artifacts db' :
  db_ok db → load_event id None e = Ok s → insert_task db id e s artifacts = Ok db' → db_ok db'.
Proof.
  intros [Htask Habs Hnd Hlist] Hload Hins.
  assert (Hnone : tasks db !! id = None).
  { unfold insert_task, insert_task_row in Hins.
    do 4 (apply rbind_Ok in Hins as (? & _ & Hins)). apply rbind_Ok in Hins as (? & H & _).
    apply rbind_Ok in H as (? & Hn%reject_if_Ok%bool_decide_eq_false & _).
    by apply eq_None_not_Some. }
  destruct (Habs id Hnone) as [Hne Hnc].
  destruct (insert_represents _ _ _ _ _ _ Hne Hnc Hload Hins) as ([hd Hrep] & _ & Hframe & Ho & _ & Hdom).
  split.
  - intros id'. rewrite Hdom. intros [->|Hs]; [eauto|].
    destruct (decide (id' = id)) as [->|Hne']; [eauto|].
    destruct (Htask id' Hs) as (es' & s0 & h0 & Hr). exists es', s0, h0.
    eapply represents_frame; [by apply Hframe|done].
  - intros id' Hn. assert (¬ (id' = id ∨ is_Some (tasks db !! id'))) as Hnot.
    { rewrite <-Hdom. by apply eq_None_not_Some. }
    destruct (Hframe id') as (_ & <- & <-); [tauto|]. apply Habs, eq_None_not_Some. tauto.
  - rewrite Ho. apply NoDup_app. split_and!; [done| |apply NoDup_singleton].
    intros x Hx ->%list_elem_of_singleton. apply Hlist in Hx as [? Hx]. congruence.
  - intros id'. rewrite Ho, elem_of_app, list_elem_of_singleton, Hdom, Hlist. tauto.
Qed.
End history.
