(* ===== verification/Codecs.v ===== *)
(** * A concrete serializer for the types of the journal

    Instances of [Codec] for the contract, the task state and the task events, so
    that the theorems about the journal can be evaluated on concrete tasks. Like
    [Codec] itself this stands for [serde_json] in witnesses only. *)

From S2P Require Import Prelude Digest Codec Artifacts Contract State Workspace Input ArtifactGraph Journal.

(** An enumeration is coded by its position in the list of its values. *)
Definition position {A} `{EqDecision A} (l : list A) (a : A) : N :=
  match list_find (eq a) l with Some (i, _) => N.of_nat i | None => 0%N end.
Lemma position_lookup {A} `{EqDecision A} (l : list A) a :
  a ∈ l → l !! N.to_nat (position l a) = Some a.
Proof.
  intros Ha. unfold position. destruct (list_find (eq a) l) as [[i x]|] eqn:Hf.
  - apply list_find_Some in Hf as (Hi & <- & _). by rewrite Nat2N.id.
  - apply list_find_None in Hf. rewrite Forall_forall in Hf. by destruct (Hf a Ha).
Qed.
Definition codec_enum {A} `{EqDecision A} (l : list A) (H : ∀ a, a ∈ l) : Codec A :=
  codec_via (B:=N) (position l) (λ n, l !! N.to_nat n) (λ a, position_lookup l a (H a)).

#[global] Instance codec_phase : Codec Phase.
Proof. refine (codec_enum [Understand; Baseline; Implement; Challenge; Verify; Deliver] _). abstract (intros []; set_solver). Defined.
#[global] Instance codec_checkkind : Codec CheckKind.
Proof. refine (codec_enum [Behavior; Build; Static; Integration; Interface; Migration; Performance; Review] _). abstract (intros []; set_solver). Defined.
#[global] Instance codec_controlrequirement : Codec ControlRequirement.t.
Proof. refine (codec_enum [ControlRequirement.None; ControlRequirement.BaselineFailure; ControlRequirement.NegativeControl] _). abstract (intros []; set_solver). Defined.
#[global] Instance codec_deliverykind : Codec DeliveryKind.t.
Proof. refine (codec_enum [DeliveryKind.Patch; DeliveryKind.Source; DeliveryKind.Package; DeliveryKind.Deployment; DeliveryKind.Report] _). abstract (intros []; set_solver). Defined.
#[global] Instance codec_outcome : Codec Outcome.t.
Proof. refine (codec_enum [Outcome.Complete; Outcome.DeliveredWithExceptions; Outcome.Blocked; Outcome.BudgetExhausted; Outcome.Cancelled; Outcome.Failed; Outcome.FinishedUnverified] _). abstract (intros []; set_solver). Defined.
#[global] Instance codec_checkstatus : Codec CheckStatus.t.
Proof. refine (codec_enum [CheckStatus.Passed; CheckStatus.Failed; CheckStatus.Inconclusive; CheckStatus.Cancelled] _). abstract (intros []; set_solver). Defined.
#[global] Instance codec_jobstatus : Codec JobStatus.t.
Proof. refine (codec_enum [JobStatus.Running; JobStatus.Succeeded; JobStatus.Failed; JobStatus.Cancelled; JobStatus.Unknown; JobStatus.Fenced] _). abstract (intros []; set_solver). Defined.
#[global] Instance codec_effectstatus : Codec EffectStatus.t.
Proof. refine (codec_enum [EffectStatus.Intended; EffectStatus.Unknown; EffectStatus.Succeeded; EffectStatus.Failed; EffectStatus.Reconciled] _). abstract (intros []; set_solver). Defined.
#[global] Instance codec_modelcallstatus : Codec ModelCallStatus.t.
Proof. refine (codec_enum [ModelCallStatus.Completed; ModelCallStatus.Failed; ModelCallStatus.Cancelled; ModelCallStatus.Unknown] _). abstract (intros []; set_solver). Defined.
#[global] Instance codec_origin : Codec Origin.
Proof.
  refine (codec_via (B:=N * string)
    (λ o, match o with User b => (0, b) | Repository b => (1, b) | Inferred b => (2, b) end%N)
    (λ '(n, b), Some (if (n =? 0)%N then User b else if (n =? 1)%N then Repository b else Inferred b)) _).
  abstract (by intros []).
Defined.
#[global] Instance codec_baseline_policy : Codec BaselinePolicy.
Proof.
  refine (codec_via (B:=option (Digest * string))
    (λ p, match p with MustPass => None | NoNewFailure d r => Some (d, r) end)
    (λ o, Some match o with None => MustPass | Some (d, r) => NoNewFailure d r end) _).
  abstract (by intros []).
Defined.
#[global] Instance codec_flake_policy : Codec FlakePolicy.
Proof.
  refine (codec_via (B:=option N)
    (λ p, match p with RejectAnyFailure => None | Retry n => Some n end)
    (λ o, Some match o with None => RejectAnyFailure | Some n => Retry n end) _).
  abstract (by intros []).
Defined.
#[global] Instance codec_requirement : Codec Requirement.t.
Proof.
  refine (codec_via (B:=string * string * Origin * list string * list string)
    (λ r, (Requirement.id r, Requirement.behavior r, Requirement.origin r, Requirement.checks r,
     Requirement.depends_on r))
    (λ '(x0, x1, x2, x3, x4), Some (Requirement.mk x0 x1 x2 x3 x4)) _).
  abstract (by intros []).
Defined.
#[global] Instance codec_checkdefinition : Codec CheckDefinition.t.
Proof.
  refine (codec_via (B:=string * CheckKind * Digest * list string * N * N * ControlRequirement.t * option Digest *
     BaselinePolicy * FlakePolicy)
    (λ r, (CheckDefinition.purpose r, CheckDefinition.kind r, CheckDefinition.verifier r,
     CheckDefinition.command r, CheckDefinition.timeout_ms r, CheckDefinition.minimum_assertions r,
     CheckDefinition.control r, CheckDefinition.control_source r, CheckDefinition.baseline r,
     CheckDefinition.flake r))
    (λ '(x0, x1, x2, x3, x4, x5, x6, x7, x8, x9), Some (CheckDefinition.mk x0 x1 x2 x3 x4 x5 x6 x7 x8 x9)) _).
  abstract (by intros []).
Defined.
#[global] Instance codec_limits : Codec Limits.t.
Proof.
  refine (codec_via (B:=N * N * N * N * N)
    (λ r, (Limits.model_calls r, Limits.tokens r, Limits.elapsed_ms r, Limits.concurrent_jobs r,
     Limits.artifact_bytes r))
    (λ '(x0, x1, x2, x3, x4), Some (Limits.mk x0 x1 x2 x3 x4)) _).
  abstract (by intros []).
Defined.
#[global] Instance codec_contract : Codec Contract.t.
Proof.
  refine (codec_via (B:=string * string * string * list Requirement.t * gmap string CheckDefinition.t * list string *
     list string * list string * DeliveryKind.t * Limits.t)
    (λ r, (Contract.request r, Contract.outcome r, Contract.scope r, Contract.requirements r,
     Contract.checks r, Contract.protected_behavior r, Contract.assumptions r,
     Contract.open_questions r, Contract.delivery r, Contract.limits r))
    (λ '(x0, x1, x2, x3, x4, x5, x6, x7, x8, x9), Some (Contract.mk x0 x1 x2 x3 x4 x5 x6 x7 x8 x9)) _).
  abstract (by intros []).
Defined.
#[global] Instance codec_candidate : Codec Candidate.t.
Proof.
  refine (codec_via (B:=Digest * Digest * Digest * bool * option Digest)
    (λ r, (Candidate.source r, Candidate.environment r, Candidate.artifact r, Candidate.frozen r,
     Candidate.provenance r))
    (λ '(x0, x1, x2, x3, x4), Some (Candidate.mk x0 x1 x2 x3 x4)) _).
  abstract (by intros []).
Defined.
#[global] Instance codec_evidenceidentity : Codec EvidenceIdentity.t.
Proof.
  refine (codec_via (B:=Digest * Digest * Digest * Digest * Digest * Digest)
    (λ r, (EvidenceIdentity.contract r, EvidenceIdentity.source r, EvidenceIdentity.environment r,
     EvidenceIdentity.artifact r, EvidenceIdentity.check_definition r, EvidenceIdentity.verifier r))
    (λ '(x0, x1, x2, x3, x4, x5), Some (EvidenceIdentity.mk x0 x1 x2 x3 x4 x5)) _).
  abstract (by intros []).
Defined.
#[global] Instance codec_controlobservation : Codec ControlObservation.t.
Proof.
  refine (codec_via (B:=ControlRequirement.t * Digest * bool * bool * Digest)
    (λ r, (ControlObservation.kind r, ControlObservation.source r, ControlObservation.rejected r,
     ControlObservation.intended_reason r, ControlObservation.report r))
    (λ '(x0, x1, x2, x3, x4), Some (ControlObservation.mk x0 x1 x2 x3 x4)) _).
  abstract (by intros []).
Defined.
#[global] Instance codec_observation : Codec Observation.t.
Proof.
  refine (codec_via (B:=CheckStatus.t * Digest * N * option N * N * option Z * option Z * option ControlObservation.t *
     bool * list string * list Uuid)
    (λ r, (Observation.status r, Observation.report r, Observation.assertions r, Observation.discovered r,
     Observation.skipped r, Observation.exit_code r, Observation.signal r, Observation.control r,
     Observation.baseline_unchanged r, Observation.limitations r, Observation.unreconciled_jobs r))
    (λ '(x0, x1, x2, x3, x4, x5, x6, x7, x8, x9, x10), Some (Observation.mk x0 x1 x2 x3 x4 x5 x6 x7 x8 x9 x10)) _).
  abstract (by intros []).
Defined.
#[global] Instance codec_evidence : Codec Evidence.t.
Proof.
  refine (codec_via (B:=Uuid * N * string * EvidenceIdentity.t * N * N * Observation.t)
    (λ r, (Evidence.job_id r, Evidence.generation r, Evidence.check r, Evidence.identity r,
     Evidence.started_ms r, Evidence.finished_ms r, Evidence.observation r))
    (λ '(x0, x1, x2, x3, x4, x5, x6), Some (Evidence.mk x0 x1 x2 x3 x4 x5 x6)) _).
  abstract (by intros []).
Defined.
#[global] Instance codec_jobinvocation : Codec JobInvocation.t.
Proof.
  refine (codec_via (B:=Uuid * Uuid * option string * string * Digest * Digest)
    (λ r, (JobInvocation.session r, JobInvocation.request r, JobInvocation.call_id r,
     JobInvocation.capability r, JobInvocation.input r, JobInvocation.environment r))
    (λ '(x0, x1, x2, x3, x4, x5), Some (JobInvocation.mk x0 x1 x2 x3 x4 x5)) _).
  abstract (by intros []).
Defined.
#[global] Instance codec_job : Codec Job.t.
Proof.
  refine (codec_via (B:=Uuid * N * JobStatus.t * bool * option string * option EvidenceIdentity.t * N * N * option
     JobInvocation.t * option Digest * option Digest)
    (λ r, (Job.id r, Job.generation r, Job.status r, Job.mutates_candidate r, Job.check r, Job.identity r,
     Job.started_ms r, Job.deadline_ms r, Job.invocation r, Job.fence_receipt r,
     Job.execution_receipt r))
    (λ '(x0, x1, x2, x3, x4, x5, x6, x7, x8, x9, x10), Some (Job.mk x0 x1 x2 x3 x4 x5 x6 x7 x8 x9 x10)) _).
  abstract (by intros []).
Defined.
#[global] Instance codec_effect : Codec Effect.t.
Proof.
  refine (codec_via (B:=Uuid * string * EffectStatus.t * bool)
    (λ r, (Effect.operation_id r, Effect.description r, Effect.status r, Effect.idempotent r))
    (λ '(x0, x1, x2, x3), Some (Effect.mk x0 x1 x2 x3)) _).
  abstract (by intros []).
Defined.
#[global] Instance codec_finding : Codec Finding.t.
Proof.
  refine (codec_via (B:=string * string * bool * bool * option string)
    (λ r, (Finding.id r, Finding.description r, Finding.blocking r, Finding.resolved r, Finding.resolution
     r))
    (λ '(x0, x1, x2, x3, x4), Some (Finding.mk x0 x1 x2 x3 x4)) _).
  abstract (by intros []).
Defined.
#[global] Instance codec_delivery : Codec Delivery.t.
Proof.
  refine (codec_via (B:=DeliveryKind.t * Digest * Digest * Digest)
    (λ r, (Delivery.kind r, Delivery.source r, Delivery.artifact r, Delivery.receipt r))
    (λ '(x0, x1, x2, x3), Some (Delivery.mk x0 x1 x2 x3)) _).
  abstract (by intros []).
Defined.
#[global] Instance codec_certificate : Codec Certificate.t.
Proof.
  refine (codec_via (B:=Uuid * Digest * Digest * Digest * Digest * N * N * gmap string Uuid * Digest)
    (λ r, (Certificate.task r, Certificate.contract r, Certificate.source r, Certificate.artifact r,
     Certificate.environment r, Certificate.generation r, Certificate.evaluated_revision r,
     Certificate.evidence r, Certificate.delivery_receipt r))
    (λ '(x0, x1, x2, x3, x4, x5, x6, x7, x8), Some (Certificate.mk x0 x1 x2 x3 x4 x5 x6 x7 x8)) _).
  abstract (by intros []).
Defined.
#[global] Instance codec_usage : Codec Usage.t.
Proof.
  refine (codec_via (B:=N * N)
    (λ r, (Usage.model_calls r, Usage.tokens r))
    (λ '(x0, x1), Some (Usage.mk x0 x1)) _).
  abstract (by intros []).
Defined.
#[global] Instance codec_modelcallreceipt : Codec ModelCallReceipt.t.
Proof.
  refine (codec_via (B:=ModelCallStatus.t * option N * Digest)
    (λ r, (ModelCallReceipt.status r, ModelCallReceipt.tokens r, ModelCallReceipt.report r))
    (λ '(x0, x1, x2), Some (ModelCallReceipt.mk x0 x1 x2)) _).
  abstract (by intros []).
Defined.
#[global] Instance codec_taskstate : Codec TaskState.t.
Proof.
  refine (codec_via (B:=option Digest * option Digest * option Digest * Uuid * N * N * N * N * gmap Uuid N * list (Uuid
     * Digest) * bool * N * string * Limits.t * option Digest * option Digest * option Contract.t *
     option Digest * list (Digest * string) * Phase * option Outcome.t * bool * option string *
     option Candidate.t * option Candidate.t * list Evidence.t * gmap Uuid Job.t * gmap Uuid Effect.t
     * gmap string Finding.t * Usage.t * gset Uuid * gmap Uuid ModelCallReceipt.t * gmap Uuid Usage.t
     * option Delivery.t * list Certificate.t)
    (λ r, (TaskState.workspace_origin r, TaskState.workspace_override r, TaskState.origin r, TaskState.id
     r, TaskState.revision r, TaskState.generation r, TaskState.scope_revision r,
     TaskState.admitted_scope_revision r, TaskState.directive_scopes r, TaskState.directives r,
     TaskState.amendment_pending r, TaskState.started_ms r, TaskState.request r,
     TaskState.initial_limits r, TaskState.intake r, TaskState.input r, TaskState.contract r,
     TaskState.contract_admission r, TaskState.contract_history r, TaskState.phase r,
     TaskState.outcome r, TaskState.cancellation_requested r, TaskState.disposition_reason r,
     TaskState.candidate r, TaskState.baseline r, TaskState.evidence r, TaskState.jobs r,
     TaskState.effects r, TaskState.findings r, TaskState.usage r, TaskState.model_reservations r,
     TaskState.model_receipts r, TaskState.usage_receipts r, TaskState.delivery r,
     TaskState.certificates r))
    (λ '(x0, x1, x2, x3, x4, x5, x6, x7, x8, x9, x10, x11, x12, x13, x14, x15, x16, x17, x18, x19, x20,
     x21, x22, x23, x24, x25, x26, x27, x28, x29, x30, x31, x32, x33, x34), Some (TaskState.mk x0 x1 x2 x3 x4 x5 x6 x7 x8 x9 x10 x11 x12 x13 x14 x15 x16 x17 x18 x19 x20 x21 x22
     x23 x24 x25 x26 x27 x28 x29 x30 x31 x32 x33 x34)) _).
  abstract (by intros []).
Defined.
(** An event is its tag with the code of its payload. *)
Definition event_code (e : TaskEvent.t) : N * string :=
  match e with
  | TaskEvent.ManualStarted x0 => (0, enc x0 "")
  | TaskEvent.ManualWorkspace x0 x1 => (1, enc (x0, x1) "")
  | TaskEvent.WorkspaceRestored x0 => (2, enc x0 "")
  | TaskEvent.OriginCaptured x0 => (3, enc x0 "")
  | TaskEvent.DirectiveReplaced x0 x1 => (4, enc (x0, x1) "")
  | TaskEvent.DirectiveReceived x0 x1 => (5, enc (x0, x1) "")
  | TaskEvent.AdditiveContractAccepted x0 x1 x2 => (6, enc (x0, x1, x2) "")
  | TaskEvent.Requested x0 x1 x2 x3 x4 => (7, enc (x0, x1, x2, x3, x4) "")
  | TaskEvent.ContractAdmitted x0 x1 x2 => (8, enc (x0, x1, x2) "")
  | TaskEvent.Created x0 x1 => (9, enc (x0, x1) "")
  | TaskEvent.ContractAmended x0 x1 => (10, enc (x0, x1) "")
  | TaskEvent.CandidateSelected x0 => (11, enc x0 "")
  | TaskEvent.WorkspaceChanged x0 => (12, enc x0 "")
  | TaskEvent.EvidenceInvalidated x0 => (13, enc x0 "")
  | TaskEvent.CancellationRequested => (14, enc tt "")
  | TaskEvent.BaselineEstablished x0 => (15, enc x0 "")
  | TaskEvent.PhaseChanged x0 => (16, enc x0 "")
  | TaskEvent.JobStarted x0 => (17, enc x0 "")
  | TaskEvent.JobSettled x0 x1 x2 => (18, enc (x0, x1, x2) "")
  | TaskEvent.JobFenced x0 x1 => (19, enc (x0, x1) "")
  | TaskEvent.Observed x0 => (20, enc x0 "")
  | TaskEvent.EffectRecorded x0 => (21, enc x0 "")
  | TaskEvent.FindingRecorded x0 => (22, enc x0 "")
  | TaskEvent.ModelCallReserved x0 => (23, enc x0 "")
  | TaskEvent.ModelCallRecorded x0 x1 => (24, enc (x0, x1) "")
  | TaskEvent.UsageCharged x0 x1 => (25, enc (x0, x1) "")
  | TaskEvent.Delivered x0 => (26, enc x0 "")
  | TaskEvent.Completed x0 => (27, enc x0 "")
  | TaskEvent.Stopped x0 x1 => (28, enc (x0, x1) "")
  | TaskEvent.Reopened x0 => (29, enc x0 "")
  | TaskEvent.Interrupted x0 => (30, enc x0 "")
  end%N.
Definition event_decode (c : N * string) : option TaskEvent.t :=
  let '(n, s) := c in
  if (n =? 0)%N then (λ x0, TaskEvent.ManualStarted x0) <$> codec_from_slice (A:=Job.t) s else
  if (n =? 1)%N then (λ '(x0, x1), TaskEvent.ManualWorkspace x0 x1) <$> codec_from_slice (A:=Candidate.t * Digest) s else
  if (n =? 2)%N then (λ x0, TaskEvent.WorkspaceRestored x0) <$> codec_from_slice (A:=Digest) s else
  if (n =? 3)%N then (λ x0, TaskEvent.OriginCaptured x0) <$> codec_from_slice (A:=Digest) s else
  if (n =? 4)%N then (λ '(x0, x1), TaskEvent.DirectiveReplaced x0 x1) <$> codec_from_slice (A:=Uuid * Digest) s else
  if (n =? 5)%N then (λ '(x0, x1), TaskEvent.DirectiveReceived x0 x1) <$> codec_from_slice (A:=Uuid * Digest) s else
  if (n =? 6)%N then (λ '(x0, x1, x2), TaskEvent.AdditiveContractAccepted x0 x1 x2) <$> codec_from_slice (A:=Contract.t * Digest * N) s else
  if (n =? 7)%N then (λ '(x0, x1, x2, x3, x4), TaskEvent.Requested x0 x1 x2 x3 x4) <$> codec_from_slice (A:=string * Limits.t * Digest * option Digest * N) s else
  if (n =? 8)%N then (λ '(x0, x1, x2), TaskEvent.ContractAdmitted x0 x1 x2) <$> codec_from_slice (A:=Contract.t * string * Digest) s else
  if (n =? 9)%N then (λ '(x0, x1), TaskEvent.Created x0 x1) <$> codec_from_slice (A:=Contract.t * N) s else
  if (n =? 10)%N then (λ '(x0, x1), TaskEvent.ContractAmended x0 x1) <$> codec_from_slice (A:=Contract.t * string) s else
  if (n =? 11)%N then (λ x0, TaskEvent.CandidateSelected x0) <$> codec_from_slice (A:=Candidate.t) s else
  if (n =? 12)%N then (λ x0, TaskEvent.WorkspaceChanged x0) <$> codec_from_slice (A:=string) s else
  if (n =? 13)%N then (λ x0, TaskEvent.EvidenceInvalidated x0) <$> codec_from_slice (A:=string) s else
  if (n =? 14)%N then Some TaskEvent.CancellationRequested else
  if (n =? 15)%N then (λ x0, TaskEvent.BaselineEstablished x0) <$> codec_from_slice (A:=Candidate.t) s else
  if (n =? 16)%N then (λ x0, TaskEvent.PhaseChanged x0) <$> codec_from_slice (A:=Phase) s else
  if (n =? 17)%N then (λ x0, TaskEvent.JobStarted x0) <$> codec_from_slice (A:=Job.t) s else
  if (n =? 18)%N then (λ '(x0, x1, x2), TaskEvent.JobSettled x0 x1 x2) <$> codec_from_slice (A:=Uuid * JobStatus.t * option Digest) s else
  if (n =? 19)%N then (λ '(x0, x1), TaskEvent.JobFenced x0 x1) <$> codec_from_slice (A:=Uuid * Digest) s else
  if (n =? 20)%N then (λ x0, TaskEvent.Observed x0) <$> codec_from_slice (A:=Evidence.t) s else
  if (n =? 21)%N then (λ x0, TaskEvent.EffectRecorded x0) <$> codec_from_slice (A:=Effect.t) s else
  if (n =? 22)%N then (λ x0, TaskEvent.FindingRecorded x0) <$> codec_from_slice (A:=Finding.t) s else
  if (n =? 23)%N then (λ x0, TaskEvent.ModelCallReserved x0) <$> codec_from_slice (A:=Uuid) s else
  if (n =? 24)%N then (λ '(x0, x1), TaskEvent.ModelCallRecorded x0 x1) <$> codec_from_slice (A:=Uuid * ModelCallReceipt.t) s else
  if (n =? 25)%N then (λ '(x0, x1), TaskEvent.UsageCharged x0 x1) <$> codec_from_slice (A:=Uuid * Usage.t) s else
  if (n =? 26)%N then (λ x0, TaskEvent.Delivered x0) <$> codec_from_slice (A:=Delivery.t) s else
  if (n =? 27)%N then (λ x0, TaskEvent.Completed x0) <$> codec_from_slice (A:=Certificate.t) s else
  if (n =? 28)%N then (λ '(x0, x1), TaskEvent.Stopped x0 x1) <$> codec_from_slice (A:=Outcome.t * string) s else
  if (n =? 29)%N then (λ x0, TaskEvent.Reopened x0) <$> codec_from_slice (A:=string) s else
  if (n =? 30)%N then (λ x0, TaskEvent.Interrupted x0) <$> codec_from_slice (A:=string) s else
  None.
Lemma codec_from_slice_enc {A} `{!Codec A} (a : A) : codec_from_slice (enc a "") = Some a.
Proof. unfold codec_from_slice. by rewrite dec_enc. Qed.
#[global] Instance codec_taskevent : Codec TaskEvent.t.
Proof.
  refine (codec_via event_code event_decode _).
  abstract (intros []; cbn [event_code event_decode N.eqb Pos.eqb]; rewrite ?codec_from_slice_enc; reflexivity).
Defined.

(** The serializers of the store. Receipts and inputs are not decoded by the
    witnesses. *)
#[global] Instance codec_store : StoreSerde := {|
  serde_receipt := {| to_vec _ := None; from_slice _ := None |};
  serde_messages := {| to_vec _ := None; from_slice _ := None |};
|}.
#[global] Instance codec_store_ok : StoreSerdeOk.
Proof. split; apply _. Qed.
