(* ===== verification/Replay.v ===== *)
(** * What the journal guarantees

    Reachable databases hold, for every task, the history of its events and the
    state that history replays to; loading recovers it, writing extends it by one
    event and touches nothing else, and the head of the hash chain binds the
    events and the state. *)

From S2P Require Import Prelude Digest Codec Artifacts Contract State Completion Workspace.
From S2P Require Import Input ArtifactGraph Journal Codecs.

(** ** Reachable databases *)

Section reachable.
Context {SHA : Sha256} {SER : StoreSerde}.

(** The writers of the task tables: creation of a task, one event of an existing
    task, and the lease table, which the journal does not read. *)
Inductive journal_step : Db → Db → Prop :=
| step_create id e s artifacts db db' :
    load_event id None e = Ok s → insert_task db id e s artifacts = Ok db' → journal_step db db'
| step_append id s head e artifacts db db' s' :
    load_state db id = Ok (s, head) →
    append_task_event db s head e artifacts = Ok (db', s') → journal_step db db'
| step_leases l db : journal_step db (db <| leases := l |>).

Definition reachable : Db → Prop := rtc journal_step empty_db.

Lemma db_ok_leases db l : db_ok db → db_ok (db <| leases := l |>).
Proof.
  intros [Ht Ha Hn Hl]. split; try done. intros id Hs. destruct (Ht id Hs) as (es & s & hd & H).
  exists es, s, hd. by apply (represents_frame db).
Qed.

Lemma journal_step_ok {OK : StoreSerdeOk} db db' : journal_step db db' → db_ok db → db_ok db'.
Proof.
  intros [] Hok; [by eapply db_ok_insert|by eapply db_ok_append|by apply db_ok_leases].
Qed.

Lemma reachable_ok {OK : StoreSerdeOk} db : reachable db → db_ok db.
Proof.
  intros H. assert (Hgen : ∀ a b, rtc journal_step a b → db_ok a → db_ok b).
  { induction 1; eauto using journal_step_ok. }
  by apply (Hgen _ _ H), empty_db_ok.
Qed.
End reachable.

(** ** The hash chain *)

Section chain.
Context {SHA : Sha256} {SER : StoreSerde} {OK : StoreSerdeOk}.

Definition collision : Prop := ∃ b1 b2 : string, b1 ≠ b2 ∧ digest_of b1 = digest_of b2.

Lemma digest_of_inj b1 b2 : digest_of b1 = digest_of b2 → b1 = b2 ∨ collision.
Proof. intros H. destruct (decide (b1 = b2)); [by left|right]. by exists b1, b2. Qed.

Lemma event_hash_inj id r1 r2 p1 p2 b1 b2 h :
  event_hash id r1 p1 b1 = Ok h → event_hash id r2 p2 b2 = Ok h →
  (r1 = r2 ∧ p1 = p2 ∧ b1 = b2) ∨ collision.
Proof.
  unfold event_hash, aggregate_hash, of_value.
  intros (v1 & H1 & ->)%ok_or_Ok%fmap_Some (v2 & H2 & Hd)%ok_or_Ok%fmap_Some.
  destruct (digest_of_inj _ _ Hd) as [<-|]; [|by right].
  apply from_slice_to_vec in H1, H2. rewrite H1 in H2. injection H2 as -> -> Hb.
  destruct (digest_of_inj _ _ Hb) as [->|]; [by left|by right].
Qed.

(** Two runs of the loader's loop from the same start, over the same number of
    rows, to the same head. *)
Lemma load_rows_inj id start l1 l2 st1 st2 hd n1 n2 :
  length l1 = length l2 →
  for_each (load_row id) start l1 = Ok (st1, Some hd, n1) →
  for_each (load_row id) start l2 = Ok (st2, Some hd, n2) →
  (st1 = st2 ∧ EventRow.event ∘ snd <$> l1 = EventRow.event ∘ snd <$> l2) ∨ collision.
Proof.
  revert l2 st1 st2 hd n1 n2.
  induction l1 as [|[z1 row1] l1 IH] using rev_ind; intros l2 st1 st2 hd n1 n2 Hlen.
  { destruct l2; [|done]. intros H1 H2. left. split; [|done]. rewrite H1 in H2. by injection H2. }
  destruct l2 as [|[z2 row2] l2 _] using rev_ind; rewrite !length_app in Hlen; [simpl in Hlen; lia|].
  assert (length l1 = length l2) by (simpl in Hlen; lia). clear Hlen.
  rewrite !for_each_app, !rbind_Ok. setoid_rewrite rbind_Ok.
  intros ([[a1 h1] m1] & Ha1 & acc1 & Hr1 & [= ->]) ([[a2 h2] m2] & Ha2 & acc2 & Hr2 & [= ->]).
  unfold load_row in Hr1, Hr2.
  apply rbind_Ok in Hr1 as (ev1 & _ & Hr1), Hr2 as (ev2 & _ & Hr2).
  apply rbind_Ok in Hr1 as ([] & _ & Hr1), Hr2 as ([] & _ & Hr2).
  apply rbind_Ok in Hr1 as (hash1 & Hh1 & Hr1), Hr2 as (hash2 & Hh2 & Hr2).
  apply rbind_Ok in Hr1 as ([] & _ & Hr1), Hr2 as ([] & _ & Hr2).
  apply rbind_Ok in Hr1 as (e1 & He1%ok_or_Ok & Hr1), Hr2 as (e2 & He2%ok_or_Ok & Hr2).
  apply rbind_Ok in Hr1 as (s1 & Hs1 & Hr1), Hr2 as (s2 & Hs2 & Hr2).
  injection Hr1 as <- -> <-. injection Hr2 as <- -> <-.
  destruct (event_hash_inj _ _ _ _ _ _ _ _ Hh1 Hh2) as [(_ & -> & Hb)|]; [|by right].
  assert (Hprev : (a1 = a2 ∧ EventRow.event ∘ snd <$> l1 = EventRow.event ∘ snd <$> l2) ∨ collision).
  { destruct h2 as [h2|]; [by eapply IH|]. left.
    assert (Hnone : ∀ l a m, for_each (load_row id) start l = Ok (a, None, m) → l = []).
    { intros l a m. destruct l as [|[z row] l _] using rev_ind; [done|].
      rewrite for_each_app, rbind_Ok. setoid_rewrite rbind_Ok.
      intros ([[? ?] ?] & _ & acc & Hrow & [= ->]). exfalso. unfold load_row in Hrow.
      do 6 (apply rbind_Ok in Hrow as (? & _ & Hrow)). discriminate Hrow. }
    pose proof (Hnone _ _ _ Ha1) as ->. pose proof (Hnone _ _ _ Ha2) as ->. split; [|done].
    rewrite Ha1 in Ha2. by injection Ha2. }
  destruct Hprev as [[-> Hl]|]; [left|by right]. split.
  - rewrite Hb in He1. assert (e1 = e2) as -> by congruence. rewrite Hs1 in Hs2. by injection Hs2 as ->.
  - rewrite !fmap_app, Hl. simpl. by rewrite Hb.
Qed.

Lemma load_rows_count id start l st hd n :
  for_each (load_row id) start l = Ok (st, hd, n) →
  (start.2 + N.of_nat (length l) ≤ u64_MAX)%N → n = (start.2 + N.of_nat (length l))%N.
Proof.
  revert st hd n. induction l as [|[z row] l IH] using rev_ind; intros st hd n.
  { intros [= ->] _. simpl. lia. }
  rewrite for_each_app, rbind_Ok, length_app. setoid_rewrite rbind_Ok. simpl.
  intros ([[a h] m] & Ha & acc & Hr & [= ->]) Hmax. unfold load_row in Hr.
  do 6 (apply rbind_Ok in Hr as (? & _ & Hr)). injection Hr as <- <- <-.
  rewrite (IH _ _ _ Ha) by lia. rewrite u64_succ_small by lia. lia.
Qed.
End chain.

(** ** Loaded databases *)

Section loaded.
Context {SHA : Sha256} {SER : StoreSerde}.

Lemma load_state_inv db id s h :
  load_state db id = Ok (s, h) →
  ∃ row revision start, tasks db !! id = Some row ∧ u64_try_from (TaskRow.revision row) = Some revision ∧
    load_checkpoint id (latest_checkpoint db id (Z.of_N revision)) = Ok start ∧
    for_each (load_row id) start (events_after db id (Z.of_N start.2)) = Ok (Some s, Some h, revision) ∧
    digest_to_string h = TaskRow.head row ∧ to_vec s = Some (TaskRow.state row).
Proof.
  unfold load_state. intros (row & Hrow%ok_or_Ok & H)%rbind_Ok.
  apply rbind_Ok in H as (revision & Hrev%ok_or_Ok & H). apply rbind_Ok in H as (start & Hstart & H).
  apply rbind_Ok in H as ([[st hd] sequence] & Hloop & H).
  apply rbind_Ok in H as (s' & Hs%ok_or_Ok & H). apply rbind_Ok in H as (h' & Hh%ok_or_Ok & H).
  apply rbind_Ok in H as ([] & Hchk%reject_if_Ok & H). apply rbind_Ok in H as (bytes & Hb%ok_or_Ok & H).
  apply rbind_Ok in H as ([] & Hst%reject_if_Ok & [= <- <-]). subst st hd.
  apply orb_false_iff in Hchk as [Hseq%negb_false_iff%N.eqb_eq Hhead%negb_false_iff%bool_decide_eq_true].
  apply negb_false_iff, bool_decide_eq_true in Hst. subst sequence.
  exists row, revision, start. rewrite Hb, Hst. split_and!; done.
Qed.

(** What SQLite can hold: its INTEGER columns have 64 bits, and so have its row numbers. *)
Record sql_range db (id : Uuid) : Prop := {
  sr_revision row : tasks db !! id = Some row → (TaskRow.revision row ≤ Z.of_N i64_MAX)%Z;
  sr_rows : (N.of_nat (size (task_events db id)) ≤ i64_MAX)%N;
}.

Lemma events_after_length db id z : length (events_after db id z) ≤ size (task_events db id).
Proof.
  unfold events_after. transitivity (length (btree_iter (task_events db id))).
  - apply length_filter.
  - rewrite btree_iter_perm, length_map_to_list. done.
Qed.

(** The checkpoint the loader starts from, the latest up to the revision of the task, and its revision. *)
Definition loader_checkpoint db (id : Uuid) : option (Z * CheckpointRow.t) :=
  row ← tasks db !! id; latest_checkpoint db id (TaskRow.revision row).
Definition loader_start db (id : Uuid) : Z := from_option fst 0%Z (loader_checkpoint db id).

Lemma load_checkpoint_start db id z start :
  load_checkpoint id (latest_checkpoint db id z) = Ok start →
  Z.of_N start.2 = from_option fst 0%Z (latest_checkpoint db id z).
Proof.
  destruct (latest_checkpoint db id z) as [[z' row]|]; simpl; [|by intros [= <-]].
  intros (r & Hr%ok_or_Ok & H)%rbind_Ok. apply rbind_Ok in H as (? & _ & H).
  apply rbind_Ok in H as (? & _ & H). apply rbind_Ok in H as (? & _ & [= <-]). simpl.
  unfold u64_try_from in Hr. destruct (Z.leb_spec 0 z'); [|done]. injection Hr as <-. lia.
Qed.

Lemma load_checkpoint_le db id z start :
  load_checkpoint id (latest_checkpoint db id z) = Ok start → (0 ≤ z)%Z → (Z.of_N start.2 ≤ z)%Z.
Proof.
  unfold latest_checkpoint. destruct (last _) as [[z' row]|] eqn:Hl; simpl; [|by intros [= <-]].
  apply last_elem_of, list_elem_of_filter in Hl as [Hz _].
  intros (r & Hr%ok_or_Ok & H)%rbind_Ok _. apply rbind_Ok in H as (? & _ & H).
  apply rbind_Ok in H as (? & _ & H). apply rbind_Ok in H as (? & _ & [= <-]). simpl.
  unfold u64_try_from in Hr. destruct (Z.leb_spec 0 z'); [|done]. injection Hr as <-. lia.
Qed.
End loaded.

(** ** Invariants of replayed states *)

Section invariants.
Context {SHA : Sha256} {SER : StoreSerde}.
Import TaskState.

Record state_ok (s : TaskState.t) : Prop := {
  so_counters : counters_ok s;
  so_accounts : accounts_ok s;
  so_keys : keys_ok s;
}.

Lemma requested_ok id request limits at_ms intake input :
  state_ok (requested id request limits at_ms intake input).
Proof.
  split; split; cbn; try (intros *; rewrite lookup_empty; discriminate); try lia;
    unfold billed; cbn; rewrite ?size_empty, ?map_sum_empty; unfold u32_MAX, u64_MAX; lia.
Qed.

Lemma created_ok id c at_ms : state_ok (created id c at_ms).
Proof.
  destruct (requested_ok id (Contract.request c) (Contract.limits c) at_ms None None) as [[] [] []].
  split; split; done.
Qed.

Lemma apply_state_ok s e s' :
  (revision s < u64_MAX)%N → state_ok s → apply s e = Ok s' → state_ok s'.
Proof.
  intros Hr [] H. split; [by eapply apply_counters_aux|by eapply apply_accounts_aux|by eapply apply_keys_aux].
Qed.

Lemma load_event_state_ok id st e s :
  (∀ s0, st = Some s0 → state_ok s0 ∧ (revision s0 < u64_MAX)%N) →
  load_event id st e = Ok s → state_ok s.
Proof.
  intros Hst H. destruct st as [s0|].
  - destruct (Hst s0 eq_refl) as [Hok Hr]. apply load_event_Ok in H as [[[=] _]|(s1 & [= <-] & H)].
    by eapply apply_state_ok.
  - destruct e; try discriminate H; apply rbind_Ok in H as ([] & _ & H).
    + apply rbind_Ok in H as ([] & _ & [= <-]). apply requested_ok.
    + injection H as <-. apply created_ok.
Qed.

Lemma replay_state_ok id es s hd n :
  (N.of_nat (length es) ≤ u64_MAX)%N → replay id es = Ok (Some s, hd, n) → state_ok s.
Proof.
  revert s hd n. induction es as [|e es IH] using rev_ind; intros s hd n Hlen; [done|].
  rewrite length_app in Hlen. simpl in Hlen. rewrite replay_snoc.
  intros ([[st0 hd0] n0] & H0 & (bytes & _ & H)%rbind_Ok). simpl in H.
  apply rbind_Ok in H as (h & _ & H). apply rbind_Ok in H as (s1 & Hs & [= -> _ _]).
  apply (load_event_state_ok _ _ _ _) in Hs; [done|]. intros s0 ->. split; [eapply IH; [lia|done]|].
  destruct (replay_facts id es _ _ _ ltac:(lia) H0) as [-> Hf].
  destruct es; [by destruct Hf|]. destruct Hf as (? & ? & [= <-] & _ & _ & ->). lia.
Qed.

Lemma load_state_ok {OK : StoreSerdeOk} db id s hd :
  db_ok db → load_state db id = Ok (s, hd) → state_ok s.
Proof.
  intros Hok Hload. destruct (db_ok_load _ _ _ _ Hok Hload) as [es Hrep].
  eapply replay_state_ok; [|by apply Hrep].
  pose proof (rp_width _ _ _ _ _ Hrep). unfold i64_MAX, u64_MAX in *. lia.
Qed.
End invariants.

(** ** Properties *)

Section properties.
Context {SHA : Sha256} {SER : StoreSerde} {OK : StoreSerdeOk}.

(** C6: In every reachable database the journal and the materialized tables agree:
    each task has a history of events that replays to a state, [load_state]
    returns exactly that state and the head of the hash chain, the task's
    revision is the number of its events and fits the signed column, and a task
    that was never created is reported missing. *)
Theorem journal_refines db id :
  reachable db →
  match tasks db !! id with
  | Some _ => ∃ es s head, replay id es = Ok (Some s, Some head, N.of_nat (length es)) ∧
      load_state db id = Ok (s, head) ∧ es ≠ [] ∧ TaskState.id s = id ∧
      TaskState.revision s = N.of_nat (length es) ∧ (TaskState.revision s ≤ i64_MAX)%N
  | None => load_state db id = Err (StoreError.Missing id)
  end.
Proof.
  intros Hok%reachable_ok. destruct (tasks db !! id) as [row|] eqn:Hrow.
  - destruct (do_task _ Hok id ltac:(eauto)) as (es & s & head & Hrep).
    destruct (represents_id _ _ _ _ _ Hrep) as (Hne & Hid & Hrev).
    exists es, s, head. split_and!; try done; [apply Hrep|by eapply load_represents|].
    rewrite Hrev. apply Hrep.
  - unfold load_state. by rewrite Hrow.
Qed.

(** Appending an event to a loaded task of a reachable database is one step of
    the task's state machine: the new state is the event applied to the old one,
    it is what the next load returns, one revision later, and every other task
    loads as before. *)
Theorem append_one_event db id s head e artifacts db' s' :
  reachable db → load_state db id = Ok (s, head) →
  append_task_event db s head e artifacts = Ok (db', s') →
  TaskState.apply s e = Ok s' ∧ TaskState.revision s' = (TaskState.revision s + 1)%N ∧
  (∃ head', load_state db' id = Ok (s', head')) ∧
  (∀ other, other ≠ id → load_state db' other = load_state db other) ∧ leases db' = leases db.
Proof.
  intros Hok%reachable_ok Hload Happ. destruct (db_ok_load _ _ _ _ Hok Hload) as [es Hrep].
  destruct (append_represents _ _ _ _ _ _ _ _ _ Hrep Happ)
    as ([head' Hrep'] & Hs & Hframe & _ & Hleases & _).
  split_and!; try done.
  - destruct (represents_id _ _ _ _ _ Hrep) as (_ & _ & ->).
    destruct (represents_id _ _ _ _ _ Hrep') as (_ & _ & ->). rewrite length_app. simpl. lia.
  - exists head'. by eapply load_represents.
  - intros other Hne. destruct (Hframe other Hne) as (Ht & He & Hc).
    unfold load_state, latest_checkpoint, events_after. by rewrite Ht, He, Hc.
Qed.

End properties.

(** ** Witnesses *)

Section witnesses.
#[local] Instance replay_sha : Sha256 := checksum_sha256.

Definition stored (contents : list string) : ArtifactStore.t :=
  ArtifactStore.mk (list_to_map ((λ b, (digest_to_string (digest_of b), RegularFile b)) <$> contents)) 65536.
Definition demo_store : ArtifactStore.t := stored ["verifier"; "report"; "receipt"; "environment"].
Definition demo_created : TaskEvent.t := TaskEvent.Created (demo_contract false) 5.

(** A database with one task, and the same after one more event. *)
Definition demo_db : Db := default empty_db (to_option (insert_task empty_db 7 demo_created demo_state demo_store)).
Definition demo_head : Digest :=
  default (checksum "") (to_option (rbind (load_state demo_db 7) (λ r, Ok r.2))).
Definition demo_event : TaskEvent.t := TaskEvent.PhaseChanged Implement.
Definition demo_after : Db * TaskState.t :=
  default (empty_db, demo_state) (to_option (append_task_event demo_db demo_state demo_head demo_event demo_store)).

Lemma demo_inserted : insert_task empty_db 7 demo_created demo_state demo_store = Ok demo_db.
Proof. vm_compute. reflexivity. Qed.
Lemma demo_loaded : load_state demo_db 7 = Ok (demo_state, demo_head).
Proof. vm_compute. reflexivity. Qed.
Lemma demo_appended :
  append_task_event demo_db demo_state demo_head demo_event demo_store = Ok demo_after.
Proof. vm_compute. reflexivity. Qed.
Lemma demo_reachable : reachable demo_db.
Proof. apply rtc_once. eapply (step_create 7 demo_created demo_state); [reflexivity|apply demo_inserted]. Qed.

Lemma journal_refines_witness :
  match tasks demo_db !! 7%N with
  | Some _ => ∃ es s head, replay 7 es = Ok (Some s, Some head, N.of_nat (length es)) ∧
      load_state demo_db 7 = Ok (s, head) ∧ es ≠ [] ∧ TaskState.id s = 7%N ∧
      TaskState.revision s = N.of_nat (length es) ∧ (TaskState.revision s ≤ i64_MAX)%N
  | None => load_state demo_db 7 = Err (StoreError.Missing 7)
  end.
Proof. exact (journal_refines demo_db 7 demo_reachable). Defined.

Lemma append_one_event_witness :
  TaskState.apply demo_state demo_event = Ok demo_after.2 ∧
  TaskState.revision demo_after.2 = (TaskState.revision demo_state + 1)%N ∧
  (∃ head', load_state demo_after.1 7 = Ok (demo_after.2, head')) ∧
  (∀ other, other ≠ 7%N → load_state demo_after.1 other = load_state demo_db other) ∧
  leases demo_after.1 = leases demo_db.
Proof.
  apply (append_one_event demo_db 7 demo_state demo_head demo_event demo_store demo_after.1 demo_after.2
    demo_reachable demo_loaded).
  rewrite demo_appended. vm_compute. reflexivity.
Defined.

(** The same task in another database: another task came first, and a checkpoint that the loader does not start from
    holds something else. *)
Definition demo_elsewhere : Db :=
  default empty_db (to_option (
    let? db := insert_task empty_db 8 demo_created (TaskState.created 8 (demo_contract false) 5) demo_store in
    let? db := insert_task db 7 demo_created demo_state demo_store in
    let? '(db, _) := append_task_event db demo_state demo_head demo_event demo_store in
    Ok (db <| checkpoints := {[ 7%N := <[9%Z := CheckpointRow.mk "other" "other"]> (task_checkpoints db 7) ]} |>))).
Definition demo_after_head : Digest :=
  default (checksum "") (to_option (rbind (load_state demo_after.1 7) (λ r, Ok r.2))).

Lemma demo_sql_range db n :
  TaskRow.revision <$> tasks db !! 7%N = Some n → (n ≤ Z.of_N i64_MAX)%Z →
  (N.of_nat (size (task_events db 7)) ≤ i64_MAX)%N → sql_range db 7.
Proof. intros Hn Hle Hsize. split; [|exact Hsize]. intros row Hrow. rewrite Hrow in Hn. by injection Hn as ->. Qed.

End witnesses.
