(* ===== verification/Store.v ===== *)
(** * Task operations of the store (crates/harness/src/store.rs, store/manual.rs)

    Every command on a task, from creation to delivery: the guards it checks
    inside its transaction, the event it appends and the leases it writes. The
    clock and fresh identifiers are inputs. An operation that fails leaves the
    store unchanged, as its transaction is dropped. What operations that also write
    a session do to a task is in StoreTasks. *)

From S2P Require Import Prelude Digest Codec Artifacts Contract State Completion Workspace.
From S2P Require Import Input ArtifactGraph Journal.

(** The text [Display] gives an error; only recorded as a reason. *)
Class StoreErrorText := store_error_text : StoreError.t → string.

Record Store : Type := mk_store {
  connection : Db;
  artifacts : ArtifactStore.t;
}.
#[global] Instance eta_store : Eta Store := λ s, mk_store (connection s) (artifacts s).

Module VerificationLease.
Record t : Type := mk {
  task : Uuid;
  job : Uuid;
  token : string;
}.
End VerificationLease.

Section store.
Context {SHA : Sha256} {SER : StoreSerde} {SET : SerdeErrorText} {DET : StoreErrorText}.
Implicit Types (st : Store) (s : TaskState.t) (db : Db).

Notation invalid reason := (StoreError.Invalid reason).
Notation integrity reason := (StoreError.Integrity reason).

(** ** Transactions *)

Definition read (a : ArtifactStore.t) (d : Digest) : result string StoreError.t :=
  map_err StoreError.Artifact (ArtifactStore.read a d).
(** [for digest in [...] { artifacts.read(digest)?; }] *)
Definition read_all (a : ArtifactStore.t) (l : list Digest) : result unit StoreError.t :=
  for_each (λ _ d, let? _ := read a d in Ok tt) tt l.

Definition accepted_contract s : result Contract.t StoreError.t :=
  ok_or (TaskState.accepted_contract s) StoreError.ContractPending.

Definition commit_event st db s (head : Digest) (event : TaskEvent.t) :
    result (Store * TaskState.t) StoreError.t :=
  let? '(db, s) := append_task_event db s head event (artifacts st) in
  Ok (st <| connection := db |>, s).

(** What the closure of [change] sees and does: the state, the open transaction
    and the artifacts, giving the transaction's writes and the event. *)
Definition operation : Type :=
  TaskState.t → Db → ArtifactStore.t → result (Db * TaskEvent.t) StoreError.t.

Definition change st (id : Uuid) (revision : option N) (allow_terminal : bool) (op : operation) :
    result (Store * TaskState.t) StoreError.t :=
  let db := connection st in
  let? '(s, head) := load_state db id in
  let? _ := match revision with
            | Some expected => reject_if (negb (expected =? TaskState.revision s)%N)
                                 (StoreError.Revision expected (TaskState.revision s))
            | None => Ok tt
            end in
  let? _ := reject_if (negb allow_terminal && bool_decide (TaskState.outcome s ≠ None))
              StoreError.Terminal in
  let? '(db, event) := op s db (artifacts st) in
  commit_event st db s head event.

Definition load st (id : Uuid) : result TaskState.t StoreError.t :=
  let? '(s, _) := load_state (connection st) id in Ok s.

(** [ORDER BY rowid DESC] *)
Definition list_tasks st : list Uuid := reverse (task_order (connection st)).

(** ** Admission checks *)

Definition unresolved_job (j : Job.t) : bool := JobStatus.unresolved (Job.status j).
Definition active_writer (j : Job.t) : bool := Job.mutates_candidate j && unresolved_job j.

Definition check_budget s (now : N) : result unit StoreError.t :=
  let? _ := reject_if (TaskState.cancellation_requested s) StoreError.Cancelled in
  let limit := TaskState.limits s in
  reject_if ((Limits.model_calls limit <=? Usage.model_calls (TaskState.usage s))%N
             || (Limits.tokens limit <=? Usage.tokens (TaskState.usage s))%N
             || (Limits.elapsed_ms limit <=? saturating_sub now (TaskState.started_ms s))%N)
    StoreError.Budget.

Definition admit_job s (now : N) : result unit StoreError.t :=
  let? _ := reject_if (TaskState.cancellation_requested s) StoreError.Cancelled in
  let? _ := reject_if (Limits.elapsed_ms (TaskState.limits s)
                         <=? saturating_sub now (TaskState.started_ms s))%N StoreError.Budget in
  reject_if (Limits.concurrent_jobs (TaskState.limits s)
               <=? N.of_nat (length (base.filter (λ j, unresolved_job j = true)
                                       (btree_values (TaskState.jobs s)))))%N
    (invalid "job capacity exhausted").

(** ** Leases *)

(** [INSERT INTO leases] *)
Definition insert_lease db (task job : Uuid) (token_digest : string) : result Db StoreError.t :=
  let? _ := reject_if (bool_decide (is_Some (leases db !! (task, job)))
                       || bool_decide (tasks db !! task = None)) StoreError.Sql in
  Ok (db <| leases := <[(task, job) := token_digest]> (leases db) |>).
(** [DELETE FROM leases WHERE task=?1 AND job=?2] and [... WHERE task=?1] *)
Definition delete_lease db (task job : Uuid) : Db := db <| leases := delete (task, job) (leases db) |>.
Definition delete_leases db (task : Uuid) : Db :=
  db <| leases := base.filter (λ '((t, _), _), t ≠ task) (leases db) |>.

(** ** Creation and queries *)

Definition create st (id : Uuid) (at_ms : N) (c : Contract.t) : result (Store * TaskState.t) StoreError.t :=
  let? _ := map_err StoreError.Contract (Contract.validate c) in
  let event := TaskEvent.Created c at_ms in
  let s := TaskState.created id c at_ms in
  let? db := insert_task (connection st) id event s (artifacts st) in
  Ok (st <| connection := db |>, s).

(** What a certificate and its evidence refer to. *)
Definition evidence_references (e : Evidence.t) : list Reference :=
  [(Observation.report (Evidence.observation e), Opaque);
   (EvidenceIdentity.verifier (Evidence.identity e), Opaque)]
  ++ match Observation.control (Evidence.observation e) with
     | Some control => [(ControlObservation.source control, Snapshot);
                        (ControlObservation.report control, Opaque)]
     | None => []
     end.
Definition completion_references s (cert : Certificate.t) : list Reference :=
  [(Certificate.source cert, Snapshot); (Certificate.artifact cert, Opaque);
   (Certificate.environment cert, Opaque); (Certificate.delivery_receipt cert, Opaque)]
  ++ match TaskState.candidate s ≫= Candidate.provenance with
     | Some proof => [(proof, PatchReceipt)]
     | None => []
     end
  ++ mjoin (evidence_references <$>
       base.filter (λ e, existsb (N.eqb (Evidence.job_id e)) (btree_values (Certificate.evidence cert)) = true)
         (TaskState.evidence s)).

Definition audit_evidence st (id : Uuid) : result (Store * TaskState.t) StoreError.t :=
  let? s := load st id in
  if bool_decide (TaskState.outcome s ≠ Some Outcome.Complete) then Ok (st, s)
  else
    let verification :=
      let? cert := ok_or (last (TaskState.certificates s))
                     (integrity "completed task has no certificate") in
      verify_artifact_graph (list_to_set (completion_references s cert)) (artifacts st)
        (Limits.artifact_bytes (TaskState.limits s)) in
    match verification with
    | Ok _ => Ok (st, s)
    | Err error =>
        change st id (Some (TaskState.revision s)) true (λ _ db _,
          Ok (db, TaskEvent.EvidenceInvalidated
                    ("completion evidence unavailable or corrupt: " +:+ store_error_text error)))
    end.

(** ** Candidate and workspace *)

Definition reproduction_matches (candidate : Candidate.t) (r : PatchValidationReceipt.t) : bool :=
  bool_decide (PatchValidationReceipt.patch r = Candidate.artifact candidate)
  && bool_decide (PatchValidationReceipt.candidate r = Candidate.source candidate)
  && bool_decide (PatchValidationReceipt.applied_snapshot r = Candidate.source candidate)
  && forallb GitCommandReceipt.process_group_quiescent (PatchValidationReceipt.commands r).

Definition select_candidate st (id : Uuid) (revision : N) (candidate : Candidate.t) :=
  change st id (Some revision) false (λ s db a,
    let? _ := read_all a [Candidate.source candidate; Candidate.environment candidate;
                          Candidate.artifact candidate] in
    let? _ :=
      if bool_decide (Candidate.artifact candidate ≠ Candidate.source candidate) then
        let? proof := ok_or (Candidate.provenance candidate)
                        (invalid "derived artifact requires reproduction evidence") in
        let? bytes := read a proof in
        let? receipt := ok_or (from_slice bytes) StoreError.Json in
        reject_if (negb (reproduction_matches candidate receipt))
          (invalid "artifact reproduction evidence does not match the candidate")
      else Ok tt in
    let? _ := reject_if (any_value active_writer (TaskState.jobs s))
                (invalid "candidate has active writers") in
    Ok (db, TaskEvent.CandidateSelected candidate)).

(** A snapshot that loads and whose files are all available. *)
Definition verify_snapshot (a : ArtifactStore.t) (d : Digest) : result unit WorkspaceError.t :=
  let? snapshot := Snapshot.load d a in Snapshot.verify_artifacts snapshot a.

Definition establish_workspace st (id : Uuid) (revision : N) (origin : Digest) (baseline : Candidate.t) :
    result (Store * TaskState.t) StoreError.t :=
  let db := connection st in
  let? '(s, head) := load_state db id in
  let? _ := reject_if (negb (TaskState.revision s =? revision)%N)
              (StoreError.Revision revision (TaskState.revision s)) in
  let? _ := reject_if (bool_decide (TaskState.outcome s ≠ None) || bool_decide (TaskState.origin s ≠ None)
                       || bool_decide (TaskState.baseline s ≠ None) || negb (Candidate.frozen baseline))
              (invalid "workspace must be admitted exactly once") in
  let? _ := for_each (λ _ d, map_err (λ _, integrity "workspace admission has unavailable source")
                               (verify_snapshot (artifacts st) d)) tt
              [origin; Candidate.source baseline] in
  let? _ := read_all (artifacts st) [Candidate.environment baseline; Candidate.artifact baseline] in
  let? '(db, s) := append_task_event db s head (TaskEvent.OriginCaptured origin) (artifacts st) in
  let? '(_, head) := load_state db id in
  let? '(db, s) := append_task_event db s head (TaskEvent.BaselineEstablished baseline) (artifacts st) in
  Ok (st <| connection := db |>, s).

Definition establish_baseline st (id : Uuid) (revision : N) (baseline : Candidate.t) :=
  change st id (Some revision) false (λ s db a,
    let? _ := reject_if (bool_decide (TaskState.baseline s ≠ None) || negb (Candidate.frozen baseline))
                (invalid "baseline must be immutable and established once") in
    let? _ := read_all a [Candidate.source baseline; Candidate.environment baseline;
                          Candidate.artifact baseline] in
    Ok (db, TaskEvent.BaselineEstablished baseline)).

Definition invalidate_candidate st (id : Uuid) (revision : N) (reason : string) :=
  change st id (Some revision) false (λ _ db _, Ok (db, TaskEvent.WorkspaceChanged reason)).

Definition workspace_restored st (id : Uuid) (revision : N) (source : Digest) :=
  change st id (Some revision) false (λ s db _,
    let? _ := reject_if (bool_decide (TaskState.workspace_override s ≠ Some source)
                         || any_value unresolved_job (TaskState.jobs s))
                (invalid "workspace restore has no matching settled source") in
    Ok (db, TaskEvent.WorkspaceRestored source)).

Definition request_cancellation st (id : Uuid) : result (Store * TaskState.t) StoreError.t :=
  let? s := load st id in
  if TaskState.cancellation_requested s || bool_decide (TaskState.outcome s ≠ None) then Ok (st, s)
  else change st id (Some (TaskState.revision s)) false (λ _ db _, Ok (db, TaskEvent.CancellationRequested)).

(** ** Contract *)

Definition amend_contract st (id : Uuid) (revision : N) (c : Contract.t) (user_basis : string) :=
  let? _ := map_err StoreError.Contract (Contract.validate c) in
  let? _ := reject_if (trim_is_empty user_basis)
              (invalid "contract amendment requires a recorded user basis") in
  change st id (Some revision) false (λ s db _,
    let? _ := accepted_contract s in
    let? _ := reject_if (bool_decide (TaskState.request s ≠ Contract.request c))
                (invalid "amendments must preserve the original request") in
    Ok (db, TaskEvent.ContractAmended c user_basis)).

Definition admit_contract st (id : Uuid) (revision : N) (c : Contract.t) (basis : string)
    (receipt : Digest) :=
  let? _ := map_err StoreError.Contract (Contract.validate c) in
  let? _ := reject_if (trim_is_empty basis)
              (invalid "contract admission requires a recorded basis") in
  change st id (Some revision) false (λ s db a,
    let? _ := reject_if (bool_decide (TaskState.contract s ≠ None))
                (invalid "contract is already admitted") in
    let? _ := reject_if (bool_decide (Contract.request c ≠ TaskState.request s)
                         || bool_decide (Contract.limits c ≠ TaskState.initial_limits s))
                (invalid "contract admission cannot rewrite the request or its authorized limits") in
    let? _ := read a receipt in
    Ok (db, TaskEvent.ContractAdmitted c basis receipt)).

Definition set_phase st (id : Uuid) (revision : N) (phase : Phase) :=
  change st id (Some revision) false (λ s db _,
    let? _ :=
      match phase with
      | Understand | Baseline => Ok tt
      | _ =>
          let? _ := reject_if (TaskState.amendment_pending s)
                      (invalid "user follow-up awaits contract admission") in
          let? _ := accepted_contract s in
          Ok tt
      end in
    Ok (db, TaskEvent.PhaseChanged phase)).
(** ** Verification jobs *)

Definition begin_check st (id : Uuid) (revision : N) (check : string) (job_id : Uuid) (token : string)
    (now now' : N) : result (Store * VerificationLease.t) StoreError.t :=
  let? '(st, _) := change st id (Some revision) false (λ s db _,
    let? _ := reject_if (TaskState.amendment_pending s)
                (invalid "user follow-up awaits contract admission") in
    let? _ := admit_job s now in
    let? candidate := ok_or (match TaskState.candidate s with
                             | Some c => if Candidate.frozen c then Some c else None
                             | None => None
                             end) (invalid "verification requires a frozen candidate") in
    let? c := accepted_contract s in
    let? definition := ok_or (Contract.checks c !! check) (invalid "unknown acceptance check") in
    let? contract_digest := ok_or (Contract.digest c) StoreError.Json in
    let? definition_digest := ok_or (of_value definition) StoreError.Json in
    let job := {|
      Job.id := job_id;
      Job.generation := TaskState.generation s;
      Job.status := JobStatus.Running;
      Job.mutates_candidate := false;
      Job.check := Some check;
      Job.identity := Some (check_identity candidate contract_digest definition_digest definition);
      Job.started_ms := now';
      Job.deadline_ms := u64_saturating_add now' (CheckDefinition.timeout_ms definition);
      Job.invocation := None;
      Job.fence_receipt := None;
      Job.execution_receipt := None;
    |} in
    let? db := insert_lease db id job_id (digest_to_string (digest_of token)) in
    Ok (db, TaskEvent.JobStarted job)) in
  Ok (st, VerificationLease.mk id job_id token).

Definition finish_check st (lease : VerificationLease.t) (observation : Observation.t) (now : N) :=
  let task := VerificationLease.task lease in
  change st task None false (λ s db a,
    let? _ := reject_if (bool_decide (leases db !! (task, VerificationLease.job lease)
                           ≠ Some (digest_to_string (digest_of (VerificationLease.token lease)))))
                StoreError.Lease in
    let? job := ok_or (match TaskState.jobs s !! VerificationLease.job lease with
                       | Some j => if bool_decide (Job.status j = JobStatus.Running)
                                      && (Job.generation j =? TaskState.generation s)%N
                                   then Some j else None
                       | None => None
                       end) StoreError.Lease in
    let? _ := reject_if ((Job.deadline_ms job <? now)%N
                         && bool_decide (Observation.status observation = CheckStatus.Passed))
                StoreError.Lease in
    let? _ := read a (Observation.report observation) in
    let? _ := match Observation.control observation with
              | Some control => read_all a [ControlObservation.report control;
                                            ControlObservation.source control]
              | None => Ok tt
              end in
    let? check := ok_or (Job.check job) StoreError.Lease in
    let? identity := ok_or (Job.identity job) StoreError.Lease in
    let evidence := {|
      Evidence.job_id := Job.id job;
      Evidence.generation := Job.generation job;
      Evidence.check := check;
      Evidence.identity := identity;
      Evidence.started_ms := Job.started_ms job;
      Evidence.finished_ms := now;
      Evidence.observation := observation;
    |} in
    Ok (delete_lease db task (VerificationLease.job lease), TaskEvent.Observed evidence)).

(** ** Other jobs

    [start_job_record]: a job of the task itself, or one that executes for a request
    of a session, whose guards on that session are [guard]. *)
Definition start_job_with st (id : Uuid) (revision : N) (mutates_candidate : bool) (timeout_ms : N)
    (invocation : option JobInvocation.t) (guard : Db → ArtifactStore.t → result unit StoreError.t)
    (job_id : Uuid) (now now' : N) : result (Store * (TaskState.t * Uuid)) StoreError.t :=
  let direct := bool_decide (invocation = None) in
  let? '(st, s) := change st id (Some revision) false (λ s db a,
    let? _ := admit_job s now in
    let? _ := reject_if (direct && mutates_candidate && TaskState.amendment_pending s)
                (invalid "user follow-up awaits contract admission") in
    let? _ := guard db a in
    let? _ :=
      if direct && mutates_candidate then
        let? c := accepted_contract s in
        reject_if (bool_decide (Contract.open_questions c ≠ []))
          (invalid "material product decisions remain unresolved")
      else Ok tt in
    let? _ := reject_if (timeout_ms =? 0)%N (invalid "job deadline must be positive") in
    let? _ := reject_if (mutates_candidate
                         && match TaskState.candidate s with
                            | Some c => Candidate.frozen c | None => false end)
                (invalid "frozen candidate cannot be mutated") in
    Ok (db, TaskEvent.JobStarted {|
      Job.id := job_id;
      Job.generation := TaskState.generation s;
      Job.status := JobStatus.Running;
      Job.mutates_candidate := mutates_candidate;
      Job.check := None;
      Job.identity := None;
      Job.started_ms := now';
      Job.deadline_ms := u64_saturating_add now' timeout_ms;
      Job.invocation := invocation;
      Job.fence_receipt := None;
      Job.execution_receipt := None;
    |})) in
  Ok (st, (s, job_id)).

Definition start_job st (id : Uuid) (revision : N) (mutates_candidate : bool) (timeout_ms : N)
    (job_id : Uuid) (now now' : N) : result (Store * (TaskState.t * Uuid)) StoreError.t :=
  start_job_with st id revision mutates_candidate timeout_ms None (λ _ _, Ok tt) job_id now now'.

Definition settle_job_record st (id job_id : Uuid) (status : JobStatus.t) (receipt : option Digest) :=
  let? _ := reject_if (bool_decide (status = JobStatus.Running))
              (invalid "settlement cannot restart a job") in
  let? _ := reject_if (bool_decide (status = JobStatus.Fenced))
              (invalid "fencing requires a termination receipt") in
  change st id None true (λ s db a,
    let? job := ok_or (TaskState.jobs s !! job_id) (invalid "unknown job") in
    let? _ := reject_if (bool_decide (Job.invocation job ≠ None) && bool_decide (receipt = None))
                (invalid "execution settlement requires a host receipt") in
    let? _ := match receipt with Some r => let? _ := read a r in Ok tt | None => Ok tt end in
    let? _ := reject_if (negb (unresolved_job job)) (invalid "job already settled") in
    let? _ := reject_if (bool_decide (status = JobStatus.Succeeded) && bool_decide (Job.check job ≠ None))
                (invalid "checks settle through the protected evidence channel") in
    Ok (delete_lease db id job_id, TaskEvent.JobSettled job_id status receipt)).
Definition settle_job st (id job_id : Uuid) (status : JobStatus.t) :=
  settle_job_record st id job_id status None.
Definition settle_execution_job st (id job_id : Uuid) (status : JobStatus.t) (receipt : Digest) :=
  settle_job_record st id job_id status (Some receipt).

Definition fence_job st (id job_id : Uuid) (receipt : Digest) : result (Store * TaskState.t) StoreError.t :=
  let? s := load st id in
  if match TaskState.jobs s !! job_id with
     | Some j => bool_decide (Job.status j = JobStatus.Fenced)
                 && bool_decide (Job.fence_receipt j = Some receipt)
     | None => false
     end
  then Ok (st, s)
  else change st id None true (λ s db a,
    let? _ := reject_if (negb match TaskState.jobs s !! job_id with
                              | Some j => unresolved_job j | None => false end)
                (invalid "only unresolved jobs can be fenced") in
    let? _ := read a receipt in
    Ok (delete_lease db id job_id, TaskEvent.JobFenced job_id receipt)).

(** ** Findings and effects *)

Definition record_finding st (id : Uuid) (revision : N) (finding : Finding.t) :=
  let? _ := reject_if (trim_is_empty (Finding.id finding) || trim_is_empty (Finding.description finding)
                       || (Finding.resolved finding
                           && negb match Finding.resolution finding with
                                   | Some s => negb (trim_is_empty s) | None => false end))
              (invalid "findings require identity, description and explicit resolution") in
  change st id (Some revision) false (λ _ db _, Ok (db, TaskEvent.FindingRecorded finding)).

Definition record_effect st (id : Uuid) (revision : N) (effect : Effect.t) :=
  change st id (Some revision) true (λ s db _,
    let? _ :=
      match TaskState.effects s !! Effect.operation_id effect with
      | Some previous =>
          let? _ := reject_if (negb (str_eqb (Effect.description previous) (Effect.description effect))
                               || negb (Bool.eqb (Effect.idempotent previous) (Effect.idempotent effect)))
                      (invalid "effect identity cannot change") in
          reject_if (negb (unsettled_effect previous)) (invalid "effect already settled")
      | None =>
          reject_if (bool_decide (Effect.status effect ≠ EffectStatus.Intended)
                     || bool_decide (TaskState.outcome s ≠ None))
            (invalid "effect must have a durable intent before dispatch")
      end in
    Ok (db, TaskEvent.EffectRecorded effect)).

(** ** Accounting *)

Definition account_usage st (id operation : Uuid) (usage : option Usage.t) (now : N) :
    result (Store * TaskState.t) StoreError.t :=
  let db := connection st in
  let? '(s, head) := load_state db id in
  match TaskState.usage_receipts s !! operation with
  | Some previous =>
      if bool_decide (usage = Some previous) then Ok (st, s)
      else Err (invalid "accounting operation ID reused with different input")
  | None =>
      if bool_decide (operation ∈ TaskState.model_reservations s) then
        if bool_decide (usage = None) then Ok (st, s)
        else Err (invalid "reservation ID reused for usage receipt")
      else
        let? event :=
          match usage with
          | Some usage => Ok (TaskEvent.UsageCharged operation usage)
          | None =>
              let? _ := reject_if (bool_decide (TaskState.outcome s ≠ None)) StoreError.Terminal in
              let? _ := check_budget s now in
              Ok (TaskEvent.ModelCallReserved operation)
          end in
        commit_event st db s head event
  end.
Definition charge_usage st (id operation : Uuid) (usage : Usage.t) (now : N) :=
  account_usage st id operation (Some usage) now.
Definition reserve_model_call st (id operation : Uuid) (now : N) :=
  account_usage st id operation None now.

(** A receipt that would rewrite a settled fact of an earlier one. *)
Definition rewrites_receipt (previous receipt : ModelCallReceipt.t) : bool :=
  (bool_decide (ModelCallReceipt.tokens previous ≠ None)
   && bool_decide (ModelCallReceipt.tokens previous ≠ ModelCallReceipt.tokens receipt))
  || (bool_decide (ModelCallReceipt.status previous ≠ ModelCallStatus.Unknown)
      && bool_decide (ModelCallReceipt.status previous ≠ ModelCallReceipt.status receipt))
  || (bool_decide (ModelCallReceipt.tokens previous ≠ None)
      && bool_decide (ModelCallReceipt.status previous ≠ ModelCallStatus.Unknown)).

Definition record_model_call st (id operation : Uuid) (receipt : ModelCallReceipt.t) :
    result (Store * TaskState.t) StoreError.t :=
  let db := connection st in
  let? '(s, head) := load_state db id in
  let? _ := reject_if (bool_decide (operation ∉ TaskState.model_reservations s))
              (invalid "provider result without an admitted call") in
  let record :=
    let? _ := read (artifacts st) (ModelCallReceipt.report receipt) in
    commit_event st db s head (TaskEvent.ModelCallRecorded operation receipt) in
  match TaskState.model_receipts s !! operation with
  | Some previous =>
      if bool_decide (previous = receipt) then Ok (st, s)
      else
        let? _ := reject_if (rewrites_receipt previous receipt)
                    (invalid "provider reconciliation cannot rewrite settled facts") in
        record
  | None => record
  end.

(** ** Delivery, completion and stopping *)

Definition record_delivery st (id : Uuid) (revision : N) (delivery : Delivery.t) :=
  change st id (Some revision) false (λ s db a,
    let? candidate := ok_or (match TaskState.candidate s with
                             | Some c => if Candidate.frozen c then Some c else None
                             | None => None
                             end) (invalid "delivery requires a frozen candidate") in
    let? _ :=
      if bool_decide (Candidate.source candidate ≠ Delivery.source delivery)
         || bool_decide (Candidate.artifact candidate ≠ Delivery.artifact delivery)
      then Err (invalid "delivery identity mismatch")
      else
        let? c := accepted_contract s in
        reject_if (bool_decide (Contract.delivery c ≠ Delivery.kind delivery))
          (invalid "delivery identity mismatch") in
    let? _ := read a (Delivery.receipt delivery) in
    Ok (db, TaskEvent.Delivered delivery)).

(** The artifacts one accepted check must still have. The contract's check is
    indexed directly, which would panic if it were missing. *)
Definition certificate_entry s (a : ArtifactStore.t) (entry : string * Uuid) : result unit StoreError.t :=
  let '(check_id, job_id) := entry in
  let? evidence := ok_or (List.find (λ e, (Evidence.job_id e =? job_id)%N) (TaskState.evidence s))
                     (integrity "accepted evidence disappeared") in
  let? _ := read a (Observation.report (Evidence.observation evidence)) in
  let? _ := match Observation.control (Evidence.observation evidence) with
            | Some control => let? _ := read a (ControlObservation.report control) in Ok tt
            | None => Ok tt
            end in
  let? c := accepted_contract s in
  let? check := ok_or (Contract.checks c !! check_id) (integrity "acceptance check index out of range") in
  let? _ := match CheckDefinition.baseline check with
            | NoNewFailure baseline_report _ => let? _ := read a baseline_report in Ok tt
            | MustPass => Ok tt
            end in
  let? _ := read a (EvidenceIdentity.verifier (Evidence.identity evidence)) in
  Ok tt.

Definition complete st (id : Uuid) (revision : N) (now : N) :=
  change st id (Some revision) false (λ s db a,
    let? certificate := map_err StoreError.Incomplete (evaluate s now) in
    let? _ := read_all a [Certificate.source certificate; Certificate.artifact certificate;
                          Certificate.environment certificate; Certificate.delivery_receipt certificate] in
    let? _ := for_each (λ _, certificate_entry s a) tt (btree_iter (Certificate.evidence certificate)) in
    Ok (db, TaskEvent.Completed certificate)).

Definition stop st (id : Uuid) (revision : N) (outcome : Outcome.t) (reason : string) :=
  let? _ := reject_if (bool_decide (outcome = Outcome.Complete))
              (invalid "completion requires the evaluator") in
  let? _ := reject_if (trim_is_empty reason) (invalid "incomplete outcome requires a reason") in
  change st id (Some revision) false (λ _ db _, Ok (db, TaskEvent.Stopped outcome reason)).

Definition reopen st (id : Uuid) (revision : N) (reason : string) :=
  let? _ := reject_if (trim_is_empty reason) (invalid "reopening requires a user basis") in
  change st id (Some revision) true (λ s db _,
    let? _ := reject_if (bool_decide (TaskState.outcome s = None)) (invalid "task is already active") in
    Ok (db, TaskEvent.Reopened reason)).

(** ** Recovery after a restart *)

Definition interruption_reason : string :=
  "Host restarted before task settlement; reconcile old jobs and provider accounting before resuming".

(** The body of the loop over the tasks; [None] when the task had an outcome. *)
Definition recover_task st (id : Uuid) : result (Store * bool) StoreError.t :=
  let? s := load st id in
  if bool_decide (TaskState.outcome s = None) then
    let? '(st, _) := change st id (Some (TaskState.revision s)) false (λ _ db _,
      Ok (delete_leases db id, TaskEvent.Interrupted interruption_reason)) in
    Ok (st, true)
  else Ok (st, false).

(** The loop of [recover_interrupted] over the tasks. Each task is its own
    transaction, so an error leaves the ones before it recovered. *)
Fixpoint recover_tasks st (ids recovered : list Uuid) : Store * result (list Uuid) StoreError.t :=
  match ids with
  | [] => (st, Ok recovered)
  | id :: ids =>
      match recover_task st id with
      | Ok (st, changed) => recover_tasks st ids (if (changed : bool) then recovered ++ [id] else recovered)
      | Err e => (st, Err e)
      end
  end.
Definition recover_interrupted_tasks st : Store * result (list Uuid) StoreError.t :=
  recover_tasks st (list_tasks st) [].
End store.
