(* ===== verification/StoreTasks.v ===== *)
(** * What session operations do to tasks (crates/harness/src/store.rs,
    store/submissions.rs, store/manual.rs)

    A request of a session starts a task, resumes it, directs it, continues it or runs
    the user's shell on it. This file holds the part of these operations that reads
    and writes the task, in their transaction: the tables and the loaded task come in,
    the tables and the task go out. The operations themselves, with their guards on the
    session, are in SessionCommands, Submissions and Shell. *)

From S2P Require Import Prelude Digest Artifacts Contract State ArtifactGraph Obligations Journal Store.

(** [ExecutionStatus] (runtime.rs): how an execution ended. *)
Module ExecutionStatus.
Inductive t : Type :=
| Exited (code : Z) | Cancelled | TimedOut | OutputLimit | Failed (reason : string) | Unknown (reason : string).
#[global] Instance eq_dec : EqDecision t.
Proof. solve_decision. Defined.
Definition unknown (s : t) : bool := match s with Unknown _ => true | _ => false end.
End ExecutionStatus.

Section tasks.
Context {SHA : Sha256} {SER : StoreSerde}.
Implicit Types (t : Db) (a : ArtifactStore.t) (task : TaskState.t) (head : Digest).

#[local] Notation invalid reason := (StoreError.Invalid reason).

(** ** Follow-ups of the contract *)

Definition accept_additive_contract st (id : Uuid) (revision : N) (contract : Contract.t) (receipt : Digest) :
    result (Store * TaskState.t) StoreError.t :=
  let? _ := map_err StoreError.Contract (Contract.validate contract) in
  change st id (Some revision) false (λ task db a,
    let? _ := reject_if (negb (TaskState.amendment_pending task))
                (invalid "there is no pending user follow-up") in
    let? _ := match TaskState.contract task with
              | Some old => preserves_obligations old contract
              | None =>
                  reject_if (bool_decide (Contract.request contract ≠ TaskState.request task)
                             || bool_decide (Contract.limits contract ≠ TaskState.initial_limits task))
                    (invalid "follow-up changed original objective or limits")
              end in
    let? _ := read a receipt in
    Ok (db, TaskEvent.AdditiveContractAccepted contract receipt (TaskState.scope_revision task))).

(** ** Starting a task *)

(** The rows of a new task, in the order of the source. *)
Definition insert_started t (id : Uuid) (event : TaskEvent.t) task a : result Db StoreError.t :=
  let? _ := check_artifact_budget t id event a (Limits.artifact_bytes (TaskState.limits task)) in
  let? bytes := event_bytes event in
  let? hash := event_hash id 1 None bytes in
  let? state := ok_or (to_vec task) StoreError.Json in
  let? t := insert_task_row t id (TaskRow.mk 1 state (digest_to_string hash)) in
  let? t := insert_event t id 1 bytes (digest_to_string hash) in
  store_checkpoint t id 1 task hash.

(** The first event and the state it makes: the request awaits a contract, or a
    contract is given. *)
Definition start_event (id : Uuid) (now : N) (request : string) (limits : Limits.t)
    (contract : option Contract.t) (intake input : option Digest) :
    result (TaskEvent.t * TaskState.t) StoreError.t :=
  match contract with
  | Some contract => Ok (TaskEvent.Created contract now, TaskState.created id contract now)
  | None =>
      let? policy := ok_or intake (invalid "request requires its intake policy") in
      Ok (TaskEvent.Requested request limits policy input now,
          TaskState.requested id request limits now intake input)
  end.

Definition start_task t a (id : Uuid) (now : N) (request : string) (limits : Limits.t)
    (contract : option Contract.t) (intake input : option Digest) : result (Db * TaskState.t) StoreError.t :=
  let? '(event, task) := start_event id now request limits contract intake input in
  let? t := insert_started t id event task a in
  Ok (t, task).

(** ** Directing, continuing and resuming *)

(** [append_task_event] under the head [load_state] gives. *)
Definition append_next t a task (event : TaskEvent.t) : result (Db * TaskState.t) StoreError.t :=
  let? '(_, head) := load_state t (TaskState.id task) in
  append_task_event t task head event a.

(** A directive, which ends every lease of the task. *)
Definition direct_task t a task head (event : TaskEvent.t) : result (Db * TaskState.t) StoreError.t :=
  let? '(t, task) := append_task_event t task head event a in
  Ok (delete_leases t (TaskState.id task), task).

(** Effects whose outcome is open. *)
Definition open_effect (effect : Effect.t) : bool :=
  bool_decide (Effect.status effect = EffectStatus.Intended)
  || bool_decide (Effect.status effect = EffectStatus.Unknown).

(** Jobs and effects that are not settled. *)
Definition unfinished task : bool :=
  existsb unresolved_job (btree_values (TaskState.jobs task))
  || existsb open_effect (btree_values (TaskState.effects task)).

(** Work of the task that a resumption must find reconciled: a provider attempt is, with
    its status and its tokens known. *)
Definition unreconciled task : bool :=
  unfinished task
  || existsb (λ operation, match TaskState.model_receipts task !! operation with
                           | Some receipt =>
                               bool_decide (ModelCallReceipt.tokens receipt = None)
                               || bool_decide (ModelCallReceipt.status receipt = ModelCallStatus.Unknown)
                           | None => true
                           end) (elements (TaskState.model_reservations task)).

(** A continuation asks for the status only. *)
Definition unsettled task : bool :=
  unfinished task
  || existsb (λ call, negb match TaskState.model_receipts task !! call with
                           | Some receipt => bool_decide (ModelCallReceipt.status receipt ≠ ModelCallStatus.Unknown)
                           | None => false
                           end) (elements (TaskState.model_reservations task)).

Definition resume_task t a (now : N) task head (revision : N) (reason : string) :
    result (Db * TaskState.t) StoreError.t :=
  let? _ := reject_if (negb (TaskState.revision task =? revision)%N)
              (StoreError.Revision revision (TaskState.revision task)) in
  let? _ := reject_if (bool_decide (TaskState.outcome task = None)
                       || bool_decide (TaskState.outcome task = Some Outcome.Complete))
              (invalid "resume requires a settled incomplete task") in
  let? _ := reject_if (unreconciled task)
              (invalid "reconcile unfinished jobs, effects and provider attempts before resuming") in
  let task := task <| TaskState.cancellation_requested := false |> in
  let? _ := check_budget task now in
  append_task_event t task head (TaskEvent.Reopened reason) a.

(** The request's directive, unless the task has it, and its reopening. *)
Definition continue_task t a (now : N) task head (request : Uuid) (input : Digest) (reason : string) :
    result (Db * TaskState.t) StoreError.t :=
  let? _ := reject_if (unsettled task)
              (invalid "reconcile unfinished jobs, effects and provider attempts before continuing") in
  let? '(t, task, head) :=
    match TaskState.directive_scopes task !! request with
    | Some _ => Ok (t, task, head)
    | None =>
        let? '(t, task) := append_task_event t task head (TaskEvent.DirectiveReceived request input) a in
        let? '(_, head) := load_state t (TaskState.id task) in
        Ok (delete_leases t (TaskState.id task), task, head)
    end in
  let? '(t, task) := append_task_event t task head (TaskEvent.Reopened reason) a in
  let? _ := check_budget task now in
  Ok (t, task).

(** ** The user's shell *)

Definition shell_effect (request : Uuid) (status : EffectStatus.t) : Effect.t :=
  Effect.mk request "User shell source adoption" status true.
(** The job the task records for the shell. *)
Definition shell_job task (session request : Uuid) (input environment : Digest) (job : Uuid) (started_ms timeout_ms : N) : Job.t := {|
  Job.id := job;
  Job.generation := u64_succ (TaskState.generation task);
  Job.status := JobStatus.Running;
  Job.mutates_candidate := true;
  Job.check := None;
  Job.identity := None;
  Job.started_ms := started_ms;
  Job.deadline_ms := u64_saturating_add started_ms timeout_ms;
  Job.invocation := Some (JobInvocation.mk session request None "human_shell" input environment);
  Job.fence_receipt := None;
  Job.execution_receipt := None;
|}.
(** How the shell's job ends. *)
Definition shell_status (status : ExecutionStatus.t) : JobStatus.t :=
  match status with
  | ExecutionStatus.Exited 0%Z => JobStatus.Succeeded
  | ExecutionStatus.Unknown _ => JobStatus.Unknown
  | ExecutionStatus.Cancelled => JobStatus.Cancelled
  | _ => JobStatus.Failed
  end.
(** The candidate that a source the shell left is adopted as. *)
Definition shell_source (source environment : Digest) : Candidate.t := {|
  Candidate.source := source;
  Candidate.environment := environment;
  Candidate.artifact := source;
  Candidate.frozen := true;
  Candidate.provenance := None;
|}.
Definition SHELL_SETTLED : string := "User shell settled; coding-task verification remains separate".

(** The job of the shell on the task, and the effect of adopting its result. *)
Definition begin_shell_task t a task head (job : Job.t) (request : Uuid) : result (Db * TaskState.t) StoreError.t :=
  let? _ := reject_if (unfinished task)
              (invalid "reconcile unfinished task operations before user shell execution") in
  let? '(t, task) := append_task_event t task head (TaskEvent.ManualStarted job) a in
  append_next t a task (TaskEvent.EffectRecorded (shell_effect request EffectStatus.Intended)).

(** The shell's job settles; its result becomes the candidate unless the user directed
    the task in between ([scope] is the scope the shell started under), which the last
    component reports. *)
Definition finish_shell_task t a task head (job request : Uuid) (status : JobStatus.t) (receipt : Digest)
    (scope : option N) (result_ : option (Candidate.t * Digest)) : result (Db * TaskState.t * bool) StoreError.t :=
  let? _ := reject_if match TaskState.jobs task !! job with
                      | Some j => negb (bool_decide (Job.status j = JobStatus.Running))
                      | None => true
                      end (invalid "shell job is already settled") in
  let? '(t, task) := append_task_event t task head (TaskEvent.JobSettled job status (Some receipt)) a in
  let superseded := bool_decide (scope ≠ Some (TaskState.scope_revision task)) in
  let adopted := if superseded then None else result_ in
  let? '(t, task) := match adopted with
                     | Some (candidate, origin) => append_next t a task (TaskEvent.ManualWorkspace candidate origin)
                     | None => Ok (t, task)
                     end in
  let? '(t, task) := append_next t a task
    (TaskEvent.EffectRecorded (shell_effect request
      (if bool_decide (status = JobStatus.Unknown) then EffectStatus.Unknown
       else if bool_decide (is_Some adopted) then EffectStatus.Succeeded else EffectStatus.Failed))) in
  let? '(t, task) := append_next t a task
    (TaskEvent.Stopped Outcome.Blocked SHELL_SETTLED) in
  Ok (t, task, superseded).
End tasks.
