(* ===== verification/Commands.v ===== *)
(** * Commands of the store and their invariant

    The operations of [Store] as one command language, the invariant every
    sequence of commands keeps, and what single commands guarantee: who may
    complete a task, optimistic concurrency, leases used once, final effects,
    idempotent accounting, recovery. *)

From S2P Require Import Prelude Digest Codec Artifacts Contract State Completion Workspace.
From S2P Require Import Input ArtifactGraph Obligations Journal Codecs Replay Store StoreTasks.

(** ** Transactions *)

Section transactions.
Context {SHA : Sha256} {SER : StoreSerde} {OK : StoreSerdeOk}.
Implicit Types (st : Store) (s : TaskState.t) (db : Db) (e : TaskEvent.t).

(** A successful task transaction: the state it read, the event it appended, the
    state it left, and the leases it wrote. *)
Record transaction st (id : Uuid) s e (leases' : gmap (Uuid * Uuid) string) s' st' : Prop := {
  tx_load : ∃ head, load_state (connection st) id = Ok (s, head);
  tx_after : ∃ head, load_state (connection st') id = Ok (s', head);
  tx_apply : TaskState.apply s e = Ok s';
  tx_revision : TaskState.revision s' = (TaskState.revision s + 1)%N;
  tx_id : TaskState.id s = id;
  tx_others other : other ≠ id → load_state (connection st') other = load_state (connection st) other;
  tx_leases : leases (connection st') = leases';
  tx_artifacts : artifacts st' = artifacts st;
  tx_ok : db_ok (connection st');
  tx_order : task_order (connection st') = task_order (connection st);
}.

Lemma load_state_leases db l id : load_state (db <| leases := l |>) id = load_state db id.
Proof. reflexivity. Qed.

Lemma append_transaction st id s head e l artifacts' db' s' :
  db_ok (connection st) → artifacts' = artifacts st → load_state (connection st) id = Ok (s, head) →
  append_task_event (connection st <| leases := l |>) s head e artifacts' = Ok (db', s') →
  transaction st id s e l s' (st <| connection := db' |>).
Proof.
  intros Hok -> Hload Happ. pose proof (db_ok_leases _ l Hok) as Hok'.
  rewrite <-(load_state_leases _ l) in Hload.
  destruct (db_ok_load _ _ _ _ Hok' Hload) as [es Hrep].
  destruct (append_represents _ _ _ _ _ _ _ _ _ Hrep Happ)
    as ([head' Hrep'] & Hs & Hframe & Ho & Hl & _).
  destruct (represents_id _ _ _ _ _ Hrep) as (_ & Hid & Hrev).
  destruct (represents_id _ _ _ _ _ Hrep') as (_ & _ & Hrev').
  split; try done.
  - by exists head.
  - exists head'. by eapply load_represents.
  - rewrite Hrev, Hrev', length_app. simpl. lia.
  - intros other Hne. destruct (Hframe other Hne) as (Ht & He & Hc). simpl.
    change (load_state (connection st) other) with (load_state (connection st <| leases := l |>) other).
    unfold load_state, latest_checkpoint, events_after. by rewrite Ht, He, Hc.
  - by eapply db_ok_append.
Qed.

Lemma change_Ok st id revision terminal (op : operation) st' s' :
  db_ok (connection st) →
  (∀ s db a db' e, op s db a = Ok (db', e) → ∃ l, db' = db <| leases := l |>) →
  change st id revision terminal op = Ok (st', s') →
  ∃ s head l e, load_state (connection st) id = Ok (s, head) ∧
    (∀ r, revision = Some r → TaskState.revision s = r) ∧
    (terminal = false → TaskState.outcome s = None) ∧
    op s (connection st) (artifacts st) = Ok (connection st <| leases := l |>, e) ∧
    transaction st id s e l s' st'.
Proof.
  intros Hok Hop. unfold change, commit_event. intros ([s head] & Hload & H)%rbind_Ok.
  apply rbind_Ok in H as ([] & Hrev & H). apply rbind_Ok in H as ([] & Hterm%reject_if_Ok & H).
  apply rbind_Ok in H as ([db e] & Hrun & H). destruct (Hop _ _ _ _ _ Hrun) as [l ->].
  apply rbind_Ok in H as ([db' s1] & Happ & [= <- <-]). exists s, head, l, e. split_and!; try done.
  - intros r ->. apply reject_if_Ok, negb_false_iff, N.eqb_eq in Hrev. done.
  - intros ->. apply bool_decide_eq_false in Hterm. by apply dec_stable.
  - by eapply append_transaction.
Qed.
End transactions.

(** ** The command language *)

Module Command.
Inductive t : Type :=
| Create (id : Uuid) (at_ms : N) (c : Contract.t)
| AuditEvidence (id : Uuid)
| SelectCandidate (id : Uuid) (revision : N) (candidate : Candidate.t)
| EstablishWorkspace (id : Uuid) (revision : N) (origin : Digest) (baseline : Candidate.t)
| EstablishBaseline (id : Uuid) (revision : N) (baseline : Candidate.t)
| InvalidateCandidate (id : Uuid) (revision : N) (reason : string)
| WorkspaceRestored (id : Uuid) (revision : N) (source : Digest)
| RequestCancellation (id : Uuid)
| AmendContract (id : Uuid) (revision : N) (c : Contract.t) (user_basis : string)
| AdmitContract (id : Uuid) (revision : N) (c : Contract.t) (basis : string) (receipt : Digest)
| SetPhase (id : Uuid) (revision : N) (phase : Phase)
| BeginCheck (id : Uuid) (revision : N) (check : string) (job : Uuid) (token : string) (now now' : N)
| FinishCheck (lease : VerificationLease.t) (observation : Observation.t) (now : N)
| StartJob (id : Uuid) (revision : N) (mutates : bool) (timeout_ms : N) (invocation : option JobInvocation.t)
    (job : Uuid) (now now' : N)
| SettleJob (id job : Uuid) (status : JobStatus.t) (receipt : option Digest)
| FenceJob (id job : Uuid) (receipt : Digest)
| RecordFinding (id : Uuid) (revision : N) (finding : Finding.t)
| RecordEffect (id : Uuid) (revision : N) (effect : Effect.t)
| ChargeUsage (id operation : Uuid) (usage : Usage.t) (now : N)
| ReserveModelCall (id operation : Uuid) (now : N)
| RecordModelCall (id operation : Uuid) (receipt : ModelCallReceipt.t)
| RecordDelivery (id : Uuid) (revision : N) (delivery : Delivery.t)
| Complete (id : Uuid) (revision : N) (now : N)
| Stop (id : Uuid) (revision : N) (outcome : Outcome.t) (reason : string)
| Reopen (id : Uuid) (revision : N) (reason : string)
| RecoverTask (id : Uuid)
(** on behalf of a session *)
| AcceptAdditive (id : Uuid) (revision : N) (c : Contract.t) (receipt : Digest)
| Start (id : Uuid) (now : N) (request : string) (limits : Limits.t) (contract : option Contract.t)
    (intake input : option Digest)
| Resume (id : Uuid) (revision : N) (reason : string) (now : N)
| Direct (id request : Uuid) (input : Digest) (replace : bool)
| Continue (id request : Uuid) (input : Digest) (reason : string) (now : N)
| BeginShell (id session request : Uuid) (input environment : Digest) (job : Uuid) (started_ms timeout_ms : N)
| FinishShell (id job request : Uuid) (status : ExecutionStatus.t) (receipt : Digest) (scope : option N)
    (environment : Digest) (after : option (Digest * Digest)).
End Command.

Section commands.
Context {SHA : Sha256} {SER : StoreSerde} {SET : SerdeErrorText} {DET : StoreErrorText}.
Implicit Types (st : Store) (s : TaskState.t) (e : TaskEvent.t) (L : gmap (Uuid * Uuid) string).

(** The part of an operation on a session that concerns a task, in one transaction. *)
Definition on_task st (id : Uuid)
    (f : Db → ArtifactStore.t → TaskState.t → Digest → result (Db * TaskState.t) StoreError.t) :
    result Store StoreError.t :=
  let? '(s, head) := load_state (connection st) id in
  let? '(t, _) := f (connection st) (artifacts st) s head in
  Ok (st <| connection := t |>).

(** What a shell whose end is known leaves, a source and the origin of the workspace, as
    the candidate to adopt. *)
Definition shell_result (status : ExecutionStatus.t) (environment : Digest) (after : option (Digest * Digest)) :
    option (Candidate.t * Digest) :=
  if bool_decide (shell_status status = JobStatus.Unknown) then None
  else (λ '(source, origin), (shell_source source environment, origin)) <$> after.

Definition directive (request : Uuid) (input : Digest) (replace : bool) : TaskEvent.t :=
  if replace then TaskEvent.DirectiveReplaced request input else TaskEvent.DirectiveReceived request input.

(** What the entry points of a start check before [start_record]. *)
Definition valid_start (request : string) (limits : Limits.t) (contract : option Contract.t) :
    result unit StoreError.t :=
  match contract with
  | Some contract => map_err StoreError.Contract (Contract.validate contract)
  | None =>
      let? _ := reject_if (trim_is_empty request) (StoreError.Invalid "empty task request") in
      map_err StoreError.Contract (Limits.validate limits)
  end.

Definition run (c : Command.t) st : result Store StoreError.t :=
  match c with
  | Command.Create id at_ms c => let? r := create st id at_ms c in Ok r.1
  | Command.AuditEvidence id => let? r := audit_evidence st id in Ok r.1
  | Command.SelectCandidate id revision candidate =>
      let? r := select_candidate st id revision candidate in Ok r.1
  | Command.EstablishWorkspace id revision origin baseline =>
      let? r := establish_workspace st id revision origin baseline in Ok r.1
  | Command.EstablishBaseline id revision baseline =>
      let? r := establish_baseline st id revision baseline in Ok r.1
  | Command.InvalidateCandidate id revision reason =>
      let? r := invalidate_candidate st id revision reason in Ok r.1
  | Command.WorkspaceRestored id revision source =>
      let? r := workspace_restored st id revision source in Ok r.1
  | Command.RequestCancellation id => let? r := request_cancellation st id in Ok r.1
  | Command.AmendContract id revision c basis => let? r := amend_contract st id revision c basis in Ok r.1
  | Command.AdmitContract id revision c basis receipt =>
      let? r := admit_contract st id revision c basis receipt in Ok r.1
  | Command.SetPhase id revision phase => let? r := set_phase st id revision phase in Ok r.1
  | Command.BeginCheck id revision check job token now now' =>
      let? r := begin_check st id revision check job token now now' in Ok r.1
  | Command.FinishCheck lease observation now => let? r := finish_check st lease observation now in Ok r.1
  | Command.StartJob id revision mutates timeout_ms invocation job now now' =>
      let? r := start_job_with st id revision mutates timeout_ms invocation (λ _ _, Ok tt) job now now' in Ok r.1
  | Command.SettleJob id job status receipt => let? r := settle_job_record st id job status receipt in Ok r.1
  | Command.FenceJob id job receipt => let? r := fence_job st id job receipt in Ok r.1
  | Command.RecordFinding id revision finding => let? r := record_finding st id revision finding in Ok r.1
  | Command.RecordEffect id revision effect => let? r := record_effect st id revision effect in Ok r.1
  | Command.ChargeUsage id operation usage now => let? r := charge_usage st id operation usage now in Ok r.1
  | Command.ReserveModelCall id operation now => let? r := reserve_model_call st id operation now in Ok r.1
  | Command.RecordModelCall id operation receipt =>
      let? r := record_model_call st id operation receipt in Ok r.1
  | Command.RecordDelivery id revision delivery =>
      let? r := record_delivery st id revision delivery in Ok r.1
  | Command.Complete id revision now => let? r := complete st id revision now in Ok r.1
  | Command.Stop id revision outcome reason => let? r := stop st id revision outcome reason in Ok r.1
  | Command.Reopen id revision reason => let? r := reopen st id revision reason in Ok r.1
  | Command.RecoverTask id => let? r := recover_task st id in Ok r.1
  | Command.AcceptAdditive id revision c receipt =>
      let? r := accept_additive_contract st id revision c receipt in Ok r.1
  | Command.Start id now request limits contract intake input =>
      let? _ := valid_start request limits contract in
      let? '(t, _) := start_task (connection st) (artifacts st) id now request limits contract intake input in
      Ok (st <| connection := t |>)
  | Command.Resume id revision reason now =>
      on_task st id (λ t a s head, resume_task t a now s head revision reason)
  | Command.Direct id request input replace =>
      on_task st id (λ t a s head, direct_task t a s head (directive request input replace))
  | Command.Continue id request input reason now =>
      on_task st id (λ t a s head, continue_task t a now s head request input reason)
  | Command.BeginShell id session request input environment job started_ms timeout_ms =>
      on_task st id (λ t a s head,
        begin_shell_task t a s head (shell_job s session request input environment job started_ms timeout_ms) request)
  | Command.FinishShell id job request status receipt scope environment after =>
      on_task st id (λ t a s head,
        let? '(t, s, _) := finish_shell_task t a s head job request (shell_status status) receipt scope
                             (shell_result status environment after) in Ok (t, s))
  end.

(** The request of the user's shell that a job runs for. *)
Definition shell_request (j : Job.t) : option Uuid :=
  match Job.invocation j with
  | Some invocation => if str_eqb (JobInvocation.capability invocation) "human_shell" then Some (JobInvocation.request invocation) else None
  | None => None
  end.
(** A job of the user's shell runs under a request. *)
Definition runs_shell s (k : Uuid) (j : Job.t) (request : Uuid) : Prop :=
  TaskState.jobs s !! k = Some j ∧ Job.status j = JobStatus.Running ∧ shell_request j = Some request.

(** What the host guarantees of the identifiers among a command's arguments: those it
    draws for new jobs, and the request of a new shell, are new; nobody else works under
    the name of the user's shell or under the request of one that runs; and a shell ends
    under the request it began with. *)
Definition fresh (c : Command.t) st : Prop :=
  match c with
  | Command.BeginCheck id _ _ job _ _ _ =>
      ∀ s head, load_state (connection st) id = Ok (s, head) → TaskState.jobs s !! job = None
  | Command.StartJob id _ _ _ invocation job _ _ =>
      (∀ i, invocation = Some i → JobInvocation.capability i ≠ "human_shell") ∧
      ∀ s head, load_state (connection st) id = Ok (s, head) → TaskState.jobs s !! job = None
  | Command.RecordEffect id _ f =>
      ∀ s head k j, load_state (connection st) id = Ok (s, head) → ¬ runs_shell s k j (Effect.operation_id f)
  | Command.BeginShell id _ request _ _ job _ _ =>
      ∀ s head, load_state (connection st) id = Ok (s, head) →
        TaskState.jobs s !! job = None ∧ TaskState.effects s !! request = None
  | Command.FinishShell id job request _ _ _ _ _ =>
      ∀ s head j, load_state (connection st) id = Ok (s, head) → TaskState.jobs s !! job = Some j →
        shell_request j = Some request
  | _ => True
  end.

(** ** Abstract specification: the guarded machine of one task

    [admissible id s L L' e]: event [e] may happen to task [id] in state [s] with
    leases [L], leaving leases [L']. *)
Definition open_event e : bool :=
  match e with
  | TaskEvent.OriginCaptured _ | TaskEvent.BaselineEstablished _ | TaskEvent.CandidateSelected _
  | TaskEvent.WorkspaceChanged _ | TaskEvent.WorkspaceRestored _ | TaskEvent.CancellationRequested
  | TaskEvent.PhaseChanged _ | TaskEvent.FindingRecorded _ | TaskEvent.Delivered _
  | TaskEvent.ContractAmended _ _ => true
  | _ => false
  end.

Inductive admissible (id : Uuid) s L : gmap (Uuid * Uuid) string → TaskEvent.t → Prop :=
| ad_open e : open_event e = true → TaskState.outcome s = None → admissible id s L L e
| ad_invalidated reason :
    TaskState.outcome s = Some Outcome.Complete → admissible id s L L (TaskEvent.EvidenceInvalidated reason)
| ad_reopened reason : TaskState.outcome s ≠ None → admissible id s L L (TaskEvent.Reopened reason)
| ad_charged operation u :
    TaskState.usage_receipts s !! operation = None → operation ∉ TaskState.model_reservations s →
    admissible id s L L (TaskEvent.UsageCharged operation u)
| ad_reserved operation :
    TaskState.usage_receipts s !! operation = None → operation ∉ TaskState.model_reservations s →
    TaskState.outcome s = None → TaskState.cancellation_requested s = false →
    (Usage.model_calls (TaskState.usage s) < Limits.model_calls (TaskState.limits s))%N →
    (Usage.tokens (TaskState.usage s) < Limits.tokens (TaskState.limits s))%N →
    admissible id s L L (TaskEvent.ModelCallReserved operation)
| ad_job j :
    TaskState.outcome s = None → TaskState.jobs s !! Job.id j = None → Job.status j = JobStatus.Running →
    Job.generation j = TaskState.generation s → shell_request j = None → admissible id s L L (TaskEvent.JobStarted j)
| ad_check j token :
    TaskState.outcome s = None → TaskState.jobs s !! Job.id j = None → Job.status j = JobStatus.Running →
    Job.generation j = TaskState.generation s → is_Some (Job.check j) → is_Some (Job.identity j) →
    L !! (id, Job.id j) = None → shell_request j = None →
    admissible id s L (<[(id, Job.id j) := token]> L) (TaskEvent.JobStarted j)
| ad_observed j v :
    TaskState.outcome s = None → TaskState.jobs s !! Evidence.job_id v = Some j → Job.status j = JobStatus.Running →
    Job.generation j = TaskState.generation s → Evidence.generation v = Job.generation j →
    Job.check j = Some (Evidence.check v) → Job.identity j = Some (Evidence.identity v) →
    is_Some (L !! (id, Evidence.job_id v)) →
    admissible id s L (delete (id, Evidence.job_id v) L) (TaskEvent.Observed v)
| ad_settled k j status receipt :
    TaskState.jobs s !! k = Some j → JobStatus.unresolved (Job.status j) = true →
    status ≠ JobStatus.Running → status ≠ JobStatus.Fenced →
    (status = JobStatus.Succeeded → Job.check j = None) →
    admissible id s L (delete (id, k) L) (TaskEvent.JobSettled k status receipt)
| ad_fenced k j receipt :
    TaskState.jobs s !! k = Some j → JobStatus.unresolved (Job.status j) = true →
    admissible id s L (delete (id, k) L) (TaskEvent.JobFenced k receipt)
| ad_effect_new f :
    TaskState.effects s !! Effect.operation_id f = None → Effect.status f = EffectStatus.Intended →
    TaskState.outcome s = None →
    (∀ k j, runs_shell s k j (Effect.operation_id f) → f = shell_effect (Effect.operation_id f) EffectStatus.Intended) →
    admissible id s L L (TaskEvent.EffectRecorded f)
| ad_effect_settle f f0 :
    TaskState.effects s !! Effect.operation_id f = Some f0 → unsettled_effect f0 = true →
    Effect.description f = Effect.description f0 → Effect.idempotent f = Effect.idempotent f0 →
    (∀ k j, ¬ runs_shell s k j (Effect.operation_id f)) →
    admissible id s L L (TaskEvent.EffectRecorded f)
| ad_model_call operation receipt :
    operation ∈ TaskState.model_reservations s →
    (∀ r, TaskState.model_receipts s !! operation = Some r → rewrites_receipt r receipt = false) →
    admissible id s L L (TaskEvent.ModelCallRecorded operation receipt)
| ad_completed cert now :
    TaskState.outcome s = None → certified s now cert → admissible id s L L (TaskEvent.Completed cert)
| ad_stopped o reason :
    o ≠ Outcome.Complete → TaskState.outcome s = None → admissible id s L L (TaskEvent.Stopped o reason)
| ad_interrupted reason :
    TaskState.outcome s = None →
    admissible id s L (base.filter (λ '((t, _), _), t ≠ id) L) (TaskEvent.Interrupted reason)
| ad_additive c receipt :
    TaskState.outcome s = None → TaskState.amendment_pending s = true →
    (∀ old, TaskState.contract s = Some old → retains old c) →
    admissible id s L L (TaskEvent.AdditiveContractAccepted c receipt (TaskState.scope_revision s))
| ad_directed request input replace :
    admissible id s L (base.filter (λ '((t, _), _), t ≠ id) L) (directive request input replace)
| ad_continued request reason :
    is_Some (TaskState.directive_scopes s !! request) → unsettled s = false →
    admissible id s L L (TaskEvent.Reopened reason)
| ad_shell_started j request :
    unfinished s = false → TaskState.jobs s !! Job.id j = None → Job.status j = JobStatus.Running →
    Job.check j = None → shell_request j = Some request → TaskState.effects s !! request = None →
    admissible id s L L (TaskEvent.ManualStarted j)
| ad_shell_settled k j request status receipt :
    runs_shell s k j request → Job.check j = None → status ≠ JobStatus.Running → status ≠ JobStatus.Fenced →
    admissible id s L L (TaskEvent.JobSettled k status receipt)
| ad_shell_adopted k j request f source environment origin :
    TaskState.jobs s !! k = Some j → shell_request j = Some request → JobStatus.unresolved (Job.status j) = false →
    TaskState.effects s !! request = Some f → unsettled_effect f = true →
    admissible id s L L (TaskEvent.ManualWorkspace (shell_source source environment) origin)
| ad_shell_stopped k j request f :
    TaskState.jobs s !! k = Some j → shell_request j = Some request → Job.status j ≠ JobStatus.Running →
    TaskState.effects s !! request = Some f → Effect.status f ≠ EffectStatus.Intended →
    admissible id s L L (TaskEvent.Stopped Outcome.Blocked SHELL_SETTLED)
| ad_admitted c basis receipt :
    TaskState.outcome s = None → TaskState.contract s = None → Contract.request c = TaskState.request s →
    Contract.limits c = TaskState.initial_limits s →
    admissible id s L L (TaskEvent.ContractAdmitted c basis receipt).

(** What keeps shells apart: at most one runs on a task, without a check, and the effect of
    adopting its result is its own and undecided. *)
Record shells_open s : Prop := {
  sh_one k1 k2 j1 j2 r1 r2 : runs_shell s k1 j1 r1 → runs_shell s k2 j2 r2 → k1 = k2;
  sh_unchecked k j r : runs_shell s k j r → Job.check j = None;
  sh_own k j r f : runs_shell s k j r → TaskState.effects s !! r = Some f →
    unsettled_effect f = true ∧ ∃ status, f = shell_effect r status;
}.
(** The intent to adopt is recorded when the shell begins. *)
Definition shells_begun s : Prop := ∀ k j r, runs_shell s k j r → is_Some (TaskState.effects s !! r).

(** One event of the machine, and the events of one command. *)
Definition task_step (id : Uuid) (e : TaskEvent.t) (a b : TaskState.t * gmap (Uuid * Uuid) string) : Prop :=
  admissible id a.1 a.2 b.2 e ∧ TaskState.apply a.1 e = Ok b.1 ∧
  TaskState.revision b.1 = (TaskState.revision a.1 + 1)%N.

Inductive task_steps (id : Uuid) : list TaskEvent.t → TaskState.t * gmap (Uuid * Uuid) string →
    TaskState.t * gmap (Uuid * Uuid) string → Prop :=
| task_steps_nil a : task_steps id [] a a
| task_steps_cons e es a b c : task_step id e a b → task_steps id es b c → task_steps id (e :: es) a c.

Lemma task_steps_app id es1 es2 a b c :
  task_steps id es1 a b → task_steps id es2 b c → task_steps id (es1 ++ es2) a c.
Proof. induction 1; [done|]. intros H2. econstructor; eauto. Qed.

(** ** The events a command stands for *)

Definition accounting (operation : Uuid) (usage : option Usage.t) : TaskEvent.t :=
  match usage with
  | Some usage => TaskEvent.UsageCharged operation usage
  | None => TaskEvent.ModelCallReserved operation
  end.

Definition started_check (job : Uuid) (check : string) (at_ms : N) (j : Job.t) : Prop :=
  Job.id j = job ∧ Job.check j = Some check ∧ Job.mutates_candidate j = false ∧ Job.started_ms j = at_ms.
Definition started_work (job : Uuid) (mutates : bool) (timeout_ms at_ms : N) (invocation : option JobInvocation.t)
    (j : Job.t) : Prop :=
  Job.invocation j = invocation ∧ Job.id j = job ∧ Job.check j = None ∧ Job.mutates_candidate j = mutates ∧ Job.started_ms j = at_ms ∧
  Job.deadline_ms j = u64_saturating_add at_ms timeout_ms.

Definition command_task (c : Command.t) : Uuid :=
  match c with
  | Command.Create id _ _ | Command.AuditEvidence id | Command.SelectCandidate id _ _
  | Command.EstablishWorkspace id _ _ _ | Command.EstablishBaseline id _ _
  | Command.InvalidateCandidate id _ _ | Command.WorkspaceRestored id _ _
  | Command.RequestCancellation id | Command.AmendContract id _ _ _ | Command.AdmitContract id _ _ _ _
  | Command.SetPhase id _ _ | Command.BeginCheck id _ _ _ _ _ _ | Command.StartJob id _ _ _ _ _ _ _
  | Command.SettleJob id _ _ _ | Command.FenceJob id _ _ | Command.RecordFinding id _ _
  | Command.RecordEffect id _ _ | Command.ChargeUsage id _ _ _ | Command.ReserveModelCall id _ _
  | Command.RecordModelCall id _ _ | Command.RecordDelivery id _ _ | Command.Complete id _ _
  | Command.Stop id _ _ _ | Command.Reopen id _ _ | Command.RecoverTask id
  | Command.AcceptAdditive id _ _ _ | Command.Start id _ _ _ _ _ _ | Command.Resume id _ _ _
  | Command.Direct id _ _ _ | Command.Continue id _ _ _ _ | Command.BeginShell id _ _ _ _ _ _ _
  | Command.FinishShell id _ _ _ _ _ _ _ => id
  | Command.FinishCheck lease _ _ => VerificationLease.task lease
  end.

(** The revision a command expects its task to have. *)
Definition expected_revision (c : Command.t) : option N :=
  match c with
  | Command.SelectCandidate _ r _ | Command.EstablishWorkspace _ r _ _ | Command.EstablishBaseline _ r _
  | Command.InvalidateCandidate _ r _ | Command.WorkspaceRestored _ r _ | Command.AmendContract _ r _ _
  | Command.AdmitContract _ r _ _ _ | Command.SetPhase _ r _ | Command.BeginCheck _ r _ _ _ _ _
  | Command.StartJob _ r _ _ _ _ _ _ | Command.RecordFinding _ r _ | Command.RecordEffect _ r _
  | Command.RecordDelivery _ r _ | Command.Complete _ r _ | Command.Stop _ r _ _
  | Command.Reopen _ r _ | Command.AcceptAdditive _ r _ _ | Command.Resume _ r _ _ => Some r
  | _ => None
  end.

Definition command_events (c : Command.t) (es : list TaskEvent.t) : Prop :=
  match c with
  | Command.Create _ _ _ | Command.Start _ _ _ _ _ _ _ => False
  | Command.AuditEvidence _ => ∃ reason, es = [TaskEvent.EvidenceInvalidated reason]
  | Command.SelectCandidate _ _ candidate => es = [TaskEvent.CandidateSelected candidate]
  | Command.EstablishWorkspace _ _ origin baseline =>
      es = [TaskEvent.OriginCaptured origin; TaskEvent.BaselineEstablished baseline]
  | Command.EstablishBaseline _ _ baseline => es = [TaskEvent.BaselineEstablished baseline]
  | Command.InvalidateCandidate _ _ reason => es = [TaskEvent.WorkspaceChanged reason]
  | Command.WorkspaceRestored _ _ source => es = [TaskEvent.WorkspaceRestored source]
  | Command.RequestCancellation _ => es = [TaskEvent.CancellationRequested]
  | Command.AmendContract _ _ c basis => es = [TaskEvent.ContractAmended c basis]
  | Command.AdmitContract _ _ c basis receipt => es = [TaskEvent.ContractAdmitted c basis receipt]
  | Command.SetPhase _ _ phase => es = [TaskEvent.PhaseChanged phase]
  | Command.BeginCheck _ _ check job _ _ now' =>
      ∃ j, started_check job check now' j ∧ es = [TaskEvent.JobStarted j]
  | Command.FinishCheck lease observation now =>
      ∃ v, Evidence.job_id v = VerificationLease.job lease ∧ Evidence.observation v = observation ∧
        Evidence.finished_ms v = now ∧ es = [TaskEvent.Observed v]
  | Command.StartJob _ _ mutates timeout_ms invocation job _ now' =>
      ∃ j, started_work job mutates timeout_ms now' invocation j ∧ es = [TaskEvent.JobStarted j]
  | Command.SettleJob _ job status receipt => es = [TaskEvent.JobSettled job status receipt]
  | Command.FenceJob _ job receipt => es = [TaskEvent.JobFenced job receipt]
  | Command.RecordFinding _ _ finding => es = [TaskEvent.FindingRecorded finding]
  | Command.RecordEffect _ _ effect => es = [TaskEvent.EffectRecorded effect]
  | Command.ChargeUsage _ operation usage _ => es = [TaskEvent.UsageCharged operation usage]
  | Command.ReserveModelCall _ operation _ => es = [TaskEvent.ModelCallReserved operation]
  | Command.RecordModelCall _ operation receipt => es = [TaskEvent.ModelCallRecorded operation receipt]
  | Command.RecordDelivery _ _ delivery => es = [TaskEvent.Delivered delivery]
  | Command.Complete _ _ _ => ∃ cert, es = [TaskEvent.Completed cert]
  | Command.Stop _ _ outcome reason => es = [TaskEvent.Stopped outcome reason]
  | Command.Reopen _ _ reason => es = [TaskEvent.Reopened reason]
  | Command.RecoverTask _ => es = [TaskEvent.Interrupted interruption_reason]
  | Command.AcceptAdditive _ _ c receipt => ∃ scope, es = [TaskEvent.AdditiveContractAccepted c receipt scope]
  | Command.Resume _ _ reason _ => es = [TaskEvent.Reopened reason]
  | Command.Direct _ request input replace => es = [directive request input replace]
  | Command.Continue _ request input reason _ =>
      es = [TaskEvent.Reopened reason] ∨
      es = [TaskEvent.DirectiveReceived request input; TaskEvent.Reopened reason]
  | Command.BeginShell _ session request input environment job started_ms timeout_ms =>
      ∃ s, es = [TaskEvent.ManualStarted (shell_job s session request input environment job started_ms timeout_ms);
                 TaskEvent.EffectRecorded (shell_effect request EffectStatus.Intended)]
  | Command.FinishShell _ job request status receipt _ environment after =>
      ∃ adopted,
        es = TaskEvent.JobSettled job (shell_status status) (Some receipt) ::
             ((λ '(candidate, origin), TaskEvent.ManualWorkspace candidate origin) <$> option_list adopted) ++
             [TaskEvent.EffectRecorded (shell_effect request
                (if bool_decide (shell_status status = JobStatus.Unknown) then EffectStatus.Unknown
                 else if bool_decide (is_Some adopted) then EffectStatus.Succeeded else EffectStatus.Failed));
              TaskEvent.Stopped Outcome.Blocked SHELL_SETTLED] ∧
        (adopted = None ∨ adopted = shell_result status environment after)
  end.

(** The commands that create a task, and the state they give it. *)
Definition creates (c : Command.t) (id : Uuid) s : Prop :=
  match c with
  | Command.Create id' at_ms ct => id' = id ∧ contract_wf ct ∧ s = TaskState.created id ct at_ms
  | Command.Start id' now request limits (Some ct) _ _ =>
      id' = id ∧ contract_wf ct ∧ s = TaskState.created id ct now
  | Command.Start id' now request limits None intake input =>
      id' = id ∧ is_Some intake ∧ trim_is_empty request = false ∧ Limits.validate limits = Ok tt ∧
      s = TaskState.requested id request limits now intake input
  | _ => False
  end.

Lemma creates_task c id s : creates c id s → command_task c = id.
Proof.
  destruct c as [| | | | | | | | | | | | | | | | | | | | | | | | | | |? ? ? ? [ct|]| | | | |]; try done; by intros [-> _].
Qed.

Lemma admissible_others id s L L' e other k :
  admissible id s L L' e → other ≠ id → L' !! (other, k) = L !! (other, k).
Proof.
  intros H Hne. destruct H; try done; rewrite ?lookup_insert_ne, ?lookup_delete_ne by naive_solver; try done;
    (apply option_eq; intros t; rewrite map_lookup_filter_Some; naive_solver).
Qed.
End commands.

(** Unfolds what the events of a command are. *)
Ltac command_events_inv Hc :=
  repeat match type of Hc with
         | ∃ _, _ => destruct Hc as [? Hc]
         | _ ∧ _ => destruct Hc as [? Hc]
         | _ ∨ _ => destruct Hc as [Hc|Hc]
         end; subst.
