(* ===== verification/Refinement.v ===== *)
(** * The commands of the store refine the machine

    What each command does to the journal, as steps of the guarded machine of
    [Commands]: one lemma per command, and [run_spec] for all of them. *)

From S2P Require Import Prelude Digest Codec Artifacts Contract State Completion Workspace.
From S2P Require Import Input ArtifactGraph Obligations Journal Codecs Replay Store StoreTasks Commands.

(** ** The commands refine the machine *)

Section refinement.
Context {SHA : Sha256} {SER : StoreSerde} {OK : StoreSerdeOk} {SET : SerdeErrorText} {DET : StoreErrorText}.
Implicit Types (st : Store) (s : TaskState.t) (e : TaskEvent.t) (L : gmap (Uuid * Uuid) string).

(** What the commands find: a sound database, in which shells are apart. *)
Definition ready st : Prop :=
  db_ok (connection st) ∧ ∀ id s head, load_state (connection st) id = Ok (s, head) → shells_open s ∧ shells_begun s.

(** Task [id] takes the steps [es] of the machine from [s] to [s']; nothing else
    changes. *)
Record advances st st' (id : Uuid) (es : list TaskEvent.t) s s' : Prop := {
  av_before : ∃ head, load_state (connection st) id = Ok (s, head);
  av_after : ∃ head, load_state (connection st') id = Ok (s', head);
  av_steps : task_steps id es (s, leases (connection st)) (s', leases (connection st'));
  av_others other : other ≠ id → load_state (connection st') other = load_state (connection st) other;
  av_artifacts : artifacts st' = artifacts st;
  av_ok : db_ok (connection st');
  av_order : task_order (connection st') = task_order (connection st);
}.

Lemma transaction_advances st id s e l s' st' :
  transaction st id s e l s' st' → admissible id s (leases (connection st)) l e →
  advances st st' id [e] s s'.
Proof.
  intros [] Had. split; try done. eapply task_steps_cons; [|constructor].
  by replace (leases (connection st')) with l.
Qed.

Lemma advances_trans st1 st2 st3 id es1 es2 s1 s2 s3 :
  advances st1 st2 id es1 s1 s2 → advances st2 st3 id es2 s2 s3 → advances st1 st3 id (es1 ++ es2) s1 s3.
Proof.
  intros [? _ ? Ho1 Ha1 _ Hor1] [_ ? ? Ho2 Ha2 ? Hor2]. split; try done.
  - by eapply task_steps_app.
  - intros other Hne. by rewrite Ho2, Ho1.
  - by rewrite Ha2.
  - by rewrite Hor2.
Qed.

(** The closures of [change] write nothing but leases. *)
Ltac closure_leases :=
  intros ? ? ? ? ? ?Hclosure; cbv beta in Hclosure;
  unfold insert_lease, delete_lease, delete_leases in Hclosure; invok;
  first [by eexists | match goal with |- ∃ l, ?d = _ => exists (leases d); by destruct d end].

(** Opens a successful operation made of [change]. *)
Ltac open_change H :=
  apply change_Ok in H; [|done|closure_leases];
  let s := fresh "s" in let head := fresh "head" in let l := fresh "l" in let e := fresh "e" in
  let Hload := fresh "Hload" in let Hrev := fresh "Hrev" in let Hterm := fresh "Hterm" in
  let Hop := fresh "Hop" in let Htx := fresh "Htx" in
  destruct H as (s & head & l & e & Hload & Hrev & Hterm & Hop & Htx).

(** The leases and the event of a closure's result. *)
Lemma closure_result (db db' : Db) l (e e' : TaskEvent.t) :
  Ok (E:=StoreError.t) (db', e') = Ok (db <| leases := l |>, e) → e = e' ∧ l = leases db'.
Proof. intros [= -> ->]. done. Qed.

Lemma open_change e st id revision (op : operation) st' s' :
  db_ok (connection st) → open_event e = true →
  (∀ s db a db' e', op s db a = Ok (db', e') → db' = db ∧ e' = e) →
  change st id revision false op = Ok (st', s') → ∃ s, advances st st' id [e] s s'.
Proof.
  intros Hok Hopen Hop H. apply change_Ok in H; [|done|].
  - destruct H as (s & head & l & e' & _ & _ & Hterm & Hrun & Htx).
    destruct (Hop _ _ _ _ _ Hrun) as [Hdb ->]. exists s.
    apply (transaction_advances _ _ _ _ _ _ _ Htx).
    assert (l = leases (connection st)) as -> by (by rewrite <-Hdb).
    apply ad_open; [done|by apply Hterm].
  - intros s db a db' e' Hrun. destruct (Hop _ _ _ _ _ Hrun) as [-> _].
    exists (leases db). by destruct db.
Qed.

Ltac open_closure :=
  apply open_change; [assumption|reflexivity|intros ? ? ? ? ? ?Hclosure; cbv beta in Hclosure; invok; done].

Lemma select_candidate_advances st id revision candidate st' s' :
  db_ok (connection st) → select_candidate st id revision candidate = Ok (st', s') →
  ∃ s, advances st st' id [TaskEvent.CandidateSelected candidate] s s'.
Proof. intros Hok. open_closure. Qed.
Lemma establish_baseline_advances st id revision baseline st' s' :
  db_ok (connection st) → establish_baseline st id revision baseline = Ok (st', s') →
  ∃ s, advances st st' id [TaskEvent.BaselineEstablished baseline] s s'.
Proof. intros Hok. open_closure. Qed.
Lemma invalidate_candidate_advances st id revision reason st' s' :
  db_ok (connection st) → invalidate_candidate st id revision reason = Ok (st', s') →
  ∃ s, advances st st' id [TaskEvent.WorkspaceChanged reason] s s'.
Proof. intros Hok. open_closure. Qed.
Lemma workspace_restored_advances st id revision source st' s' :
  db_ok (connection st) → workspace_restored st id revision source = Ok (st', s') →
  ∃ s, advances st st' id [TaskEvent.WorkspaceRestored source] s s'.
Proof. intros Hok. open_closure. Qed.
Lemma set_phase_advances st id revision phase st' s' :
  db_ok (connection st) → set_phase st id revision phase = Ok (st', s') →
  ∃ s, advances st st' id [TaskEvent.PhaseChanged phase] s s'.
Proof. intros Hok. open_closure. Qed.
Lemma record_delivery_advances st id revision delivery st' s' :
  db_ok (connection st) → record_delivery st id revision delivery = Ok (st', s') →
  ∃ s, advances st st' id [TaskEvent.Delivered delivery] s s'.
Proof. intros Hok. open_closure. Qed.
Lemma record_finding_advances st id revision finding st' s' :
  db_ok (connection st) → record_finding st id revision finding = Ok (st', s') →
  ∃ s, advances st st' id [TaskEvent.FindingRecorded finding] s s'.
Proof. intros Hok. unfold record_finding. intros ([] & _ & H)%rbind_Ok. revert H. open_closure. Qed.
Lemma amend_contract_advances st id revision c basis st' s' :
  db_ok (connection st) → amend_contract st id revision c basis = Ok (st', s') →
  ∃ s, advances st st' id [TaskEvent.ContractAmended c basis] s s'.
Proof.
  intros Hok. unfold amend_contract. intros ([] & _ & H)%rbind_Ok.
  apply rbind_Ok in H as ([] & _ & H). revert H. open_closure.
Qed.
Lemma admit_contract_advances st id revision c basis receipt st' s' :
  db_ok (connection st) → admit_contract st id revision c basis receipt = Ok (st', s') →
  ∃ s, advances st st' id [TaskEvent.ContractAdmitted c basis receipt] s s'.
Proof.
  intros Hok. unfold admit_contract. intros ([] & _ & H)%rbind_Ok.
  apply rbind_Ok in H as ([] & _ & H). open_change H. exists s.
  apply rbind_Ok in Hop as ([] & Hn%reject_if_Ok%bool_decide_eq_false & Hop).
  apply rbind_Ok in Hop as ([] & [Hr%bool_decide_eq_false Hl%bool_decide_eq_false]%reject_if_Ok%orb_false_iff & Hop).
  apply rbind_Ok in Hop as (b & _ & Hop). apply closure_result in Hop as [-> ->].
  apply (transaction_advances _ _ _ _ _ _ _ Htx).
  apply ad_admitted; [by apply Hterm|by apply dec_stable..].
Qed.
Lemma request_cancellation_advances st id st' s' :
  db_ok (connection st) → request_cancellation st id = Ok (st', s') →
  st' = st ∨ ∃ s, advances st st' id [TaskEvent.CancellationRequested] s s'.
Proof.
  intros Hok. unfold request_cancellation. intros (s0 & _ & H)%rbind_Ok.
  match type of H with (if ?b then _ else _) = _ => destruct b end; [left; by injection H|right].
  revert H. open_closure.
Qed.

Lemma begin_check_advances st id revision check job token now now' st' lease :
  db_ok (connection st) → fresh (Command.BeginCheck id revision check job token now now') st →
  begin_check st id revision check job token now now' = Ok (st', lease) →
  ∃ s s' j, started_check job check now' j ∧ advances st st' id [TaskEvent.JobStarted j] s s'.
Proof.
  intros Hok Hfresh. unfold begin_check. intros ([st1 s'] & H & [= <- <-])%rbind_Ok.
  open_change H.
  apply rbind_Ok in Hop as ([] & _ & Hop). apply rbind_Ok in Hop as ([] & _ & Hop).
  apply rbind_Ok in Hop as (candidate & _ & Hop). apply rbind_Ok in Hop as (c & _ & Hop).
  apply rbind_Ok in Hop as (d & _ & Hop). apply rbind_Ok in Hop as (cd & _ & Hop).
  apply rbind_Ok in Hop as (dd & _ & Hop). cbv zeta in Hop.
  apply rbind_Ok in Hop as (db & Hlease & Hop). apply closure_result in Hop as [-> ->].
  unfold insert_lease in Hlease. apply rbind_Ok in Hlease as ([] & Hnew%reject_if_Ok & [= <-]).
  apply orb_false_iff in Hnew as [Hnew%bool_decide_eq_false _].
  eexists s, s', _. split; [|apply (transaction_advances _ _ _ _ _ _ _ Htx)]; [done|]. simpl.
  eapply (ad_check id s _ (Job.mk _ _ _ _ _ _ _ _ _ _ _)); simpl; try done; [by apply Hterm|by eapply Hfresh|].
  by apply eq_None_not_Some.
Qed.

Lemma finish_check_advances st lease observation now st' s' :
  db_ok (connection st) → finish_check st lease observation now = Ok (st', s') →
  ∃ s v, Evidence.job_id v = VerificationLease.job lease ∧ Evidence.observation v = observation ∧
    Evidence.finished_ms v = now ∧
    advances st st' (VerificationLease.task lease) [TaskEvent.Observed v] s s'.
Proof.
  intros Hok H. unfold finish_check in H. open_change H.
  apply rbind_Ok in Hop as ([] & Hlease%reject_if_Ok%bool_decide_eq_false & Hop).
  apply dec_stable in Hlease.
  apply rbind_Ok in Hop as (j & Hj%ok_or_Ok & Hop). apply rbind_Ok in Hop as ([] & _ & Hop).
  apply rbind_Ok in Hop as (report & _ & Hop). apply rbind_Ok in Hop as ([] & _ & Hop).
  apply rbind_Ok in Hop as (check & Hcheck%ok_or_Ok & Hop).
  apply rbind_Ok in Hop as (identity & Hident%ok_or_Ok & Hop).
  apply closure_result in Hop as [-> ->].
  destruct (TaskState.jobs s !! VerificationLease.job lease) as [j'|] eqn:Hjob; [|done].
  destruct (bool_decide (Job.status j' = JobStatus.Running)
    && (Job.generation j' =? TaskState.generation s)%N) eqn:Hrun; [|done].
  injection Hj as ->. apply andb_true_iff in Hrun as [Hst%bool_decide_eq_true Hgen%N.eqb_eq].
  assert (Job.id j = VerificationLease.job lease) as Hid.
  { by apply (ko_jobs _ (so_keys _ (load_state_ok _ _ _ _ Hok Hload))). }
  eexists s, (Evidence.mk _ _ _ _ _ _ _). split_and!; [exact Hid|reflexivity|reflexivity|]. apply (transaction_advances _ _ _ _ _ _ _ Htx). simpl.
  rewrite <-Hid in *. eapply (ad_observed _ _ _ j (Evidence.mk _ _ _ _ _ _ _)); simpl; try done. by apply Hterm.
Qed.

Lemma start_job_advances st id revision mutates timeout_ms invocation guard job now now' st' r :
  db_ok (connection st) → fresh (Command.StartJob id revision mutates timeout_ms invocation job now now') st →
  start_job_with st id revision mutates timeout_ms invocation guard job now now' = Ok (st', r) →
  ∃ s s' j, started_work job mutates timeout_ms now' invocation j ∧
    advances st st' id [TaskEvent.JobStarted j] s s'.
Proof.
  intros Hok Hfresh. unfold start_job_with. intros ([st1 s'] & H & [= <- <-])%rbind_Ok.
  open_change H.
  do 6 (apply rbind_Ok in Hop as ([] & _ & Hop)). apply closure_result in Hop as [-> ->].
  eexists s, s', _. split; [|apply (transaction_advances _ _ _ _ _ _ _ Htx)]; [done|]. simpl.
  apply ad_job; simpl; [by apply Hterm|by eapply Hfresh|done|done|]. destruct Hfresh as [Hname _]. unfold shell_request. cbn.
  destruct invocation as [i|]; [|done]. unfold str_eqb. rewrite bool_decide_false; [done|]. by apply Hname.
Qed.

Lemma settle_job_advances st id job status receipt st' s' :
  db_ok (connection st) → settle_job_record st id job status receipt = Ok (st', s') →
  ∃ s, advances st st' id [TaskEvent.JobSettled job status receipt] s s'.
Proof.
  intros Hok. unfold settle_job_record. intros ([] & Hr%reject_if_Ok%bool_decide_eq_false & H)%rbind_Ok.
  apply rbind_Ok in H as ([] & Hf%reject_if_Ok%bool_decide_eq_false & H).
  open_change H. exists s.
  apply rbind_Ok in Hop as (j & Hj%ok_or_Ok & Hop). apply rbind_Ok in Hop as ([] & _ & Hop).
  apply rbind_Ok in Hop as ([] & _ & Hop). apply rbind_Ok in Hop as ([] & Hun%reject_if_Ok%negb_false_iff & Hop).
  apply rbind_Ok in Hop as ([] & Hch%reject_if_Ok & Hop). apply closure_result in Hop as [-> ->].
  apply (transaction_advances _ _ _ _ _ _ _ Htx). simpl.
  eapply ad_settled; try done. intros ->. rewrite bool_decide_true in Hch by done.
  apply bool_decide_eq_false in Hch. by apply dec_stable.
Qed.

Lemma fence_job_advances st id job receipt st' s' :
  db_ok (connection st) → fence_job st id job receipt = Ok (st', s') →
  st' = st ∨ ∃ s, advances st st' id [TaskEvent.JobFenced job receipt] s s'.
Proof.
  intros Hok. unfold fence_job. intros (s0 & _ & H)%rbind_Ok.
  match type of H with (if ?b then _ else _) = _ => destruct b end; [left; by injection H|right].
  open_change H. exists s.
  apply rbind_Ok in Hop as ([] & Hun%reject_if_Ok%negb_false_iff & Hop).
  apply rbind_Ok in Hop as (b & _ & Hop). apply closure_result in Hop as [-> ->].
  apply (transaction_advances _ _ _ _ _ _ _ Htx). simpl.
  destruct (TaskState.jobs s !! job) eqn:Hj; [|done]. by eapply ad_fenced.
Qed.

Lemma record_effect_advances st id revision f st' s' :
  db_ok (connection st) → fresh (Command.RecordEffect id revision f) st → record_effect st id revision f = Ok (st', s') →
  ∃ s, advances st st' id [TaskEvent.EffectRecorded f] s s'.
Proof.
  intros Hok Hfresh H. unfold record_effect in H. open_change H. exists s.
  apply rbind_Ok in Hop as ([] & Hg & Hop). apply closure_result in Hop as [-> ->].
  apply (transaction_advances _ _ _ _ _ _ _ Htx).
  destruct (TaskState.effects s !! Effect.operation_id f) as [f0|] eqn:Hf.
  - apply rbind_Ok in Hg as ([] & Hsame%reject_if_Ok & Hun%reject_if_Ok%negb_false_iff).
    apply orb_false_iff in Hsame as [Hd%negb_false_iff%bool_decide_eq_true Hi%negb_false_iff].
    eapply ad_effect_settle; try done; [by symmetry; apply eqb_prop|]. intros k j. by eapply Hfresh.
  - apply reject_if_Ok, orb_false_iff in Hg as [Hi%bool_decide_eq_false Ho%bool_decide_eq_false].
    apply dec_stable in Hi, Ho. apply ad_effect_new; try done. intros k j Hk. by destruct (Hfresh _ _ _ _ Hload Hk).
Qed.

Lemma account_usage_advances st id operation usage now st' s' :
  db_ok (connection st) → account_usage st id operation usage now = Ok (st', s') →
  st' = st ∨ ∃ s, advances st st' id [accounting operation usage] s s'.
Proof.
  intros Hok. unfold account_usage. intros ([s head] & Hload & H)%rbind_Ok.
  destruct (TaskState.usage_receipts s !! operation) eqn:Hreceipt;
    [case_bool_decide; [left; by injection H|done]|].
  case_bool_decide as Hin; [case_bool_decide; [left; by injection H|done]|].
  right. apply rbind_Ok in H as (e & He & H). unfold commit_event in H.
  apply rbind_Ok in H as ([db s1] & Happ & [= <- <-]). exists s.
  assert (e = accounting operation usage) as ->.
  { destruct usage; [by injection He as <-|].
    do 2 (apply rbind_Ok in He as ([] & _ & He)). by injection He as <-. }
  eapply (transaction_advances _ _ _ _ (leases (connection st))).
  - eapply append_transaction; [done|reflexivity|done|].
    by replace (connection st <| leases := leases (connection st) |>) with (connection st)
      by (by destruct (connection st)).
  - destruct usage; [by apply ad_charged|].
    apply rbind_Ok in He as ([] & Ho%reject_if_Ok%bool_decide_eq_false & He). apply dec_stable in Ho.
    apply rbind_Ok in He as ([] & Hb & _). unfold check_budget in Hb.
    apply rbind_Ok in Hb as ([] & Hc%reject_if_Ok & Hb%reject_if_Ok).
    apply orb_false_iff in Hb as [[Hm%N.leb_gt Ht%N.leb_gt]%orb_false_iff _]. by apply ad_reserved.
Qed.

Lemma record_model_call_advances st id operation receipt st' s' :
  db_ok (connection st) → record_model_call st id operation receipt = Ok (st', s') →
  st' = st ∨ ∃ s, advances st st' id [TaskEvent.ModelCallRecorded operation receipt] s s'.
Proof.
  intros Hok. unfold record_model_call. intros ([s head] & Hload & H)%rbind_Ok.
  apply rbind_Ok in H as ([] & Hin%reject_if_Ok%bool_decide_eq_false & H). apply dec_stable in Hin.
  set (record := let? _ := read _ _ in _) in H.
  assert (Hrecord : record = Ok (st', s') →
    (∀ r, TaskState.model_receipts s !! operation = Some r → rewrites_receipt r receipt = false) →
    ∃ s, advances st st' id [TaskEvent.ModelCallRecorded operation receipt] s s').
  { unfold record, commit_event. intros (b & _ & H1)%rbind_Ok Hr.
    apply rbind_Ok in H1 as ([db s1] & Happ & [= <- <-]). exists s.
    eapply (transaction_advances _ _ _ _ (leases (connection st))).
    - eapply append_transaction; [done|reflexivity|done|].
      by replace (connection st <| leases := leases (connection st) |>) with (connection st)
        by (by destruct (connection st)).
    - by apply ad_model_call. }
  destruct (TaskState.model_receipts s !! operation) as [previous|] eqn:Hp.
  - destruct (bool_decide (previous = receipt)); [left; by injection H|right].
    apply rbind_Ok in H as ([] & Hr%reject_if_Ok & H). apply Hrecord; [done|]. by intros r [= <-].
  - right. by apply Hrecord.
Qed.

Lemma complete_advances st id revision now st' s' :
  db_ok (connection st) → complete st id revision now = Ok (st', s') →
  ∃ s cert, advances st st' id [TaskEvent.Completed cert] s s' ∧ certified s now cert ∧
    TaskState.apply s (TaskEvent.Completed cert) = Ok s'.
Proof.
  intros Hok H. unfold complete in H. open_change H.
  apply rbind_Ok in Hop as (cert & Hcert%map_err_Ok%evaluate_certified & Hop).
  do 2 (apply rbind_Ok in Hop as ([] & _ & Hop)). apply closure_result in Hop as [-> ->].
  exists s, cert. split_and!; [|done|by destruct Htx].
  apply (transaction_advances _ _ _ _ _ _ _ Htx). eapply ad_completed; [by apply Hterm|done].
Qed.

Lemma stop_advances st id revision outcome reason st' s' :
  db_ok (connection st) → stop st id revision outcome reason = Ok (st', s') →
  ∃ s, advances st st' id [TaskEvent.Stopped outcome reason] s s'.
Proof.
  intros Hok. unfold stop. intros ([] & Hne%reject_if_Ok%bool_decide_eq_false & H)%rbind_Ok.
  apply rbind_Ok in H as ([] & _ & H). open_change H. exists s. apply closure_result in Hop as [-> ->].
  apply (transaction_advances _ _ _ _ _ _ _ Htx).
  apply ad_stopped; auto.
Qed.

Lemma recover_task_advances st id st' changed :
  db_ok (connection st) → recover_task st id = Ok (st', changed) →
  (st' = st ∧ changed = false ∧ ∃ s head, load_state (connection st) id = Ok (s, head) ∧
     TaskState.outcome s ≠ None) ∨
  (changed = true ∧ ∃ s s', advances st st' id [TaskEvent.Interrupted interruption_reason] s s' ∧
     TaskState.apply s (TaskEvent.Interrupted interruption_reason) = Ok s' ∧
     leases (connection st') = base.filter (λ '((t, _), _), t ≠ id) (leases (connection st))).
Proof.
  intros Hok. unfold recover_task, load. intros (s0 & ([s1 head1] & Hl & [= ->])%rbind_Ok & H)%rbind_Ok.
  destruct (bool_decide (TaskState.outcome s0 = None)) eqn:Ho.
  - apply rbind_Ok in H as ([st1 s'] & H & [= <- <-]). right. split; [done|].
    open_change H. apply closure_result in Hop as [-> ->]. simpl in Htx. exists s, s'.
    split_and!; [|by destruct Htx|by destruct Htx].
    apply (transaction_advances _ _ _ _ _ _ _ Htx). apply ad_interrupted. by apply Hterm.
  - injection H as <- <-. left. apply bool_decide_eq_false in Ho.
    split_and!; [done|done|]. by exists s0, head1.
Qed.

Lemma establish_workspace_advances st id revision origin baseline st' s' :
  db_ok (connection st) → establish_workspace st id revision origin baseline = Ok (st', s') →
  ∃ s, advances st st' id [TaskEvent.OriginCaptured origin; TaskEvent.BaselineEstablished baseline] s s'.
Proof.
  intros Hok. unfold establish_workspace. intros ([s head] & Hload & H)%rbind_Ok.
  apply rbind_Ok in H as ([] & _ & H). apply rbind_Ok in H as ([] & Hguard%reject_if_Ok & H).
  do 2 (apply rbind_Ok in H as ([] & _ & H)).
  apply orb_false_iff in Hguard as [[[Ho%bool_decide_eq_false _]%orb_false_iff _]%orb_false_iff _].
  apply dec_stable in Ho.
  apply rbind_Ok in H as ([db1 s1] & Happ1 & H). apply rbind_Ok in H as ([s1' head1] & Hload1 & H).
  apply rbind_Ok in H as ([db2 s2] & Happ2 & [= <- <-]). exists s.
  assert (Hself : ∀ d : Db, d <| leases := leases d |> = d) by (by intros []).
  assert (Hav1 : advances st (st <| connection := db1 |>) id [TaskEvent.OriginCaptured origin] s s1).
  { eapply (transaction_advances _ _ _ (TaskEvent.OriginCaptured origin) (leases (connection st)));
      [|by apply ad_open]. eapply append_transaction; [done|reflexivity|done|]. by rewrite Hself. }
  eapply (advances_trans _ _ _ _ [_] [_]); [exact Hav1|]. destruct Hav1 as [_ [head1' Hafter] _ _ _ Hok1 _].
  simpl in Hafter, Hok1. rewrite Hafter in Hload1. injection Hload1 as <- <-.
  assert (Happ2' : append_task_event (db1 <| leases := leases db1 |>) s1 head1'
    (TaskEvent.BaselineEstablished baseline) (artifacts st) = Ok (db2, s2)) by (by destruct db1).
  pose proof (append_transaction (st <| connection := db1 |>) id s1 head1' _ (leases db1)
    (artifacts st) db2 s2 Hok1 eq_refl Hafter Happ2') as Htx.
  apply (transaction_advances _ _ _ _ _ _ _ Htx). apply ad_open; [done|]. simpl.
  pose proof (append_transaction st id s head (TaskEvent.OriginCaptured origin) (leases (connection st))
    (artifacts st) db1 s1 Hok eq_refl Hload ltac:(by rewrite Hself)) as Htx1.
  pose proof (tx_apply _ _ _ _ _ _ _ Htx1) as Hap. unfold TaskState.apply in Hap. simpl in Hap.
  by injection Hap as <-.
Qed.

Lemma audit_evidence_advances st id st' s' :
  db_ok (connection st) → audit_evidence st id = Ok (st', s') →
  st' = st ∨ ∃ s reason, advances st st' id [TaskEvent.EvidenceInvalidated reason] s s'.
Proof.
  intros Hok. unfold audit_evidence, load. intros (s0 & ([s1 head1] & Hl & [= ->])%rbind_Ok & H)%rbind_Ok.
  destruct (bool_decide _) eqn:Ho; [left; by injection H|].
  apply bool_decide_eq_false in Ho. apply dec_stable in Ho.
  match type of H with match ?v with Ok _ => _ | Err _ => _ end = _ => destruct v end;
    [left; by injection H|right].
  open_change H.
  rewrite Hl in Hload. injection Hload as <- <-.
  apply closure_result in Hop as [-> ->]. eexists s0, _. apply (transaction_advances _ _ _ _ _ _ _ Htx).
  by apply ad_invalidated.
Qed.

Lemma reopen_advances st id revision reason st' s' :
  db_ok (connection st) → reopen st id revision reason = Ok (st', s') →
  ∃ s, advances st st' id [TaskEvent.Reopened reason] s s'.
Proof.
  intros Hok. unfold reopen. intros ([] & _ & H)%rbind_Ok. open_change H. exists s.
  apply rbind_Ok in Hop as ([] & Ho%reject_if_Ok%bool_decide_eq_false & Hop).
  apply closure_result in Hop as [-> ->].
  apply (transaction_advances _ _ _ _ _ _ _ Htx). by apply ad_reopened.
Qed.

(** ** On behalf of a session *)

Lemma append_plain st id s head e db' s' :
  db_ok (connection st) → load_state (connection st) id = Ok (s, head) →
  append_task_event (connection st) s head e (artifacts st) = Ok (db', s') →
  transaction st id s e (leases (connection st)) s' (st <| connection := db' |>).
Proof.
  intros Hok Hload Happ. eapply append_transaction; [done|reflexivity|done|].
  by replace (connection st <| leases := leases (connection st) |>) with (connection st)
    by (by destruct (connection st)).
Qed.

Lemma load_id db id s head : db_ok db → load_state db id = Ok (s, head) → TaskState.id s = id.
Proof.
  intros Hok Hl. destruct (db_ok_load _ _ _ _ Hok Hl) as [l Hrep].
  by apply represents_id in Hrep as (_ & ? & _).
Qed.

Lemma append_directed st id s head request input replace db' s' :
  db_ok (connection st) → load_state (connection st) id = Ok (s, head) →
  append_task_event (connection st) s head (directive request input replace) (artifacts st) = Ok (db', s') →
  advances st (st <| connection := delete_leases db' (TaskState.id s') |>) id [directive request input replace] s s'.
Proof.
  intros Hok Hload Happ. pose proof (append_plain _ _ _ _ _ _ _ Hok Hload Happ) as [? [h Ha] ? ? ? ? Hl ? Hok' ?].
  simpl in Ha, Hl, Hok'. rewrite (load_id _ _ _ _ Hok' Ha).
  eapply transaction_advances; [|apply ad_directed]. unfold delete_leases. rewrite Hl.
  split; try done; [by exists h|]. by apply db_ok_leases.
Qed.

Lemma append_advances st id s head e db' s' :
  db_ok (connection st) → load_state (connection st) id = Ok (s, head) →
  admissible id s (leases (connection st)) (leases (connection st)) e →
  append_task_event (connection st) s head e (artifacts st) = Ok (db', s') →
  advances st (st <| connection := db' |>) id [e] s s'.
Proof.
  intros Hok Hload Had Happ. eapply transaction_advances; [|exact Had]. by eapply append_plain.
Qed.

Lemma advances_id st st' id es s s' : advances st st' id es s s' → TaskState.id s' = id.
Proof.
  intros [_ [h Hl] _ _ _ Hok _]. by eapply load_id. Qed.

(** A further event of a transaction that has advanced the task. *)
Lemma append_next_advances st id es s s1 t1 e t2 s2 :
  advances st (st <| connection := t1 |>) id es s s1 →
  admissible id s1 (leases t1) (leases t1) e →
  append_next t1 (artifacts st) s1 e = Ok (t2, s2) →
  advances st (st <| connection := t2 |>) id (es ++ [e]) s s2.
Proof.
  intros Hav Had. unfold append_next. rewrite (advances_id _ _ _ _ _ _ Hav).
  intros ([s1' head] & Hload & Happ)%rbind_Ok. pose proof Hav as [_ [h1 Hl1] _ _ _ Hok1 _].
  simpl in Hl1, Hok1. rewrite Hl1 in Hload. injection Hload as <- <-.
  eapply advances_trans; [exact Hav|].
  change (st <| connection := t2 |>) with (st <| connection := t1 |> <| connection := t2 |>).
  by apply (append_advances (st <| connection := t1 |>) id s1 h1).
Qed.

Lemma direct_advances st id request input replace st' :
  db_ok (connection st) →
  on_task st id (λ t a s head, direct_task t a s head (directive request input replace)) = Ok st' →
  ∃ s s', advances st st' id [directive request input replace] s s'.
Proof.
  intros Hok. unfold on_task, direct_task. intros ([s head] & Hload & H)%rbind_Ok.
  apply rbind_Ok in H as ([t s2] & H & [= <-]). apply rbind_Ok in H as ([t1 s1] & Happ & [= <- <-]).
  exists s, s1. by eapply append_directed.
Qed.

Lemma append_resumed t s head reason a :
  append_task_event t (s <| TaskState.cancellation_requested := false |>) head (TaskEvent.Reopened reason) a
  = append_task_event t s head (TaskEvent.Reopened reason) a.
Proof. reflexivity. Qed.

Lemma resume_advances st id revision reason now st' :
  db_ok (connection st) →
  on_task st id (λ t a s head, resume_task t a now s head revision reason) = Ok st' →
  ∃ s s', advances st st' id [TaskEvent.Reopened reason] s s'.
Proof.
  intros Hok. unfold on_task, resume_task. intros ([s head] & Hload & H)%rbind_Ok.
  apply rbind_Ok in H as ([t s'] & H & [= <-]). apply rbind_Ok in H as ([] & _ & H).
  apply rbind_Ok in H as ([] & [Ho%bool_decide_eq_false _]%reject_if_Ok%orb_false_iff & H).
  do 2 (apply rbind_Ok in H as ([] & _ & H)). rewrite append_resumed in H.
  exists s, s'. eapply append_advances; [done|done| |done]. by apply ad_reopened.
Qed.

Lemma continue_advances st id request input reason now st' :
  db_ok (connection st) →
  on_task st id (λ t a s head, continue_task t a now s head request input reason) = Ok st' →
  ∃ es s s', (es = [TaskEvent.Reopened reason] ∨
              es = [TaskEvent.DirectiveReceived request input; TaskEvent.Reopened reason]) ∧
    advances st st' id es s s'.
Proof.
  intros Hok. unfold on_task, continue_task. intros ([s head] & Hload & H)%rbind_Ok.
  apply rbind_Ok in H as ([t s2] & H & [= <-]). apply rbind_Ok in H as ([] & Hun%reject_if_Ok & H).
  apply rbind_Ok in H as ([[t1 s1] h1] & H1 & H). apply rbind_Ok in H as ([t3 s3] & H & H3).
  apply rbind_Ok in H3 as ([] & _ & [= <- <-]).
  destruct (TaskState.directive_scopes s !! request) eqn:Hscope.
  - injection H1 as <- <- <-. exists [TaskEvent.Reopened reason], s, s3. split; [by left|].
    eapply append_advances; [done..| |done]. apply (ad_continued _ _ _ request); [by rewrite Hscope|done].
  - apply rbind_Ok in H1 as ([t4 s4] & Happ & H1). apply rbind_Ok in H1 as ([s5 h5] & Hl & [= <- <- <-]).
    pose proof (append_plain _ _ _ _ _ _ _ Hok Hload Happ) as Htx.
    pose proof (append_directed st id s head request input false t4 s4 Hok Hload Happ) as Hav. cbn [directive] in Hav.
    exists [TaskEvent.DirectiveReceived request input; TaskEvent.Reopened reason], s, s3. split; [by right|].
    eapply (advances_trans _ _ _ _ [_] [_]); [exact Hav|]. pose proof Hav as [_ [h Hl'] _ _ _ Hok' _].
    simpl in Hl', Hok'. rewrite (advances_id _ _ _ _ _ _ Hav) in H, Hl, Hl', Hok'.
    assert (h5 = h ∧ s5 = s4) as [-> ->] by (change (load_state (delete_leases t4 id) id) with (load_state t4 id) in Hl'; split; congruence).
    rewrite (advances_id _ _ _ _ _ _ Hav).
    refine (append_advances (st <| connection := delete_leases t4 id |>) id s4 h _ t3 s3 Hok' Hl' _ H).
    apply (ad_continued _ _ _ request).
    + pose proof (tx_apply _ _ _ _ _ _ _ Htx) as Hap. injection Hap as <-. cbn. rewrite lookup_insert_eq. by eexists.
    + pose proof (tx_apply _ _ _ _ _ _ _ Htx) as Hap. by injection Hap as <-.
Qed.

Lemma accept_additive_advances st id revision c receipt st' s' :
  db_ok (connection st) → accept_additive_contract st id revision c receipt = Ok (st', s') →
  ∃ s scope, advances st st' id [TaskEvent.AdditiveContractAccepted c receipt scope] s s'.
Proof.
  intros Hok. unfold accept_additive_contract. intros ([] & _ & H)%rbind_Ok. open_change H.
  exists s, (TaskState.scope_revision s).
  apply rbind_Ok in Hop as ([] & Hp%reject_if_Ok%negb_false_iff & Hop). apply rbind_Ok in Hop as ([] & Hold & Hop).
  apply rbind_Ok in Hop as (b & _ & Hop). apply closure_result in Hop as [-> ->].
  apply (transaction_advances _ _ _ _ _ _ _ Htx). apply ad_additive; [by apply Hterm|done|].
  intros old Heq. rewrite Heq in Hold. by apply preserves_obligations_Ok.
Qed.

Lemma unfinished_none s k j : unfinished s = false → TaskState.jobs s !! k = Some j → JobStatus.unresolved (Job.status j) = false.
Proof.
  intros [Hj _]%orb_false_iff Hk. destruct (JobStatus.unresolved (Job.status j)) eqn:Hun; [exfalso|done].
  enough (existsb unresolved_job (btree_values (TaskState.jobs s)) = true) by congruence. apply existsb_exists.
  exists j. split; [|done]. apply list_elem_of_In. unfold btree_values. apply list_elem_of_fmap. exists (k, j). split; [done|].
  rewrite btree_iter_perm. by apply elem_of_map_to_list.
Qed.
Lemma begin_shell_advances st id session request input environment job started_ms timeout_ms st' :
  db_ok (connection st) → fresh (Command.BeginShell id session request input environment job started_ms timeout_ms) st →
  run (Command.BeginShell id session request input environment job started_ms timeout_ms) st = Ok st' →
  ∃ s s', advances st st' id
    [TaskEvent.ManualStarted (shell_job s session request input environment job started_ms timeout_ms);
     TaskEvent.EffectRecorded (shell_effect request EffectStatus.Intended)] s s'.
Proof.
  intros Hok Hfresh. cbn [run]. unfold on_task, begin_shell_task. intros ([s head] & Hload & H)%rbind_Ok.
  set (j := shell_job s _ _ _ _ _ _ _) in *.
  apply rbind_Ok in H as ([t s2] & H & [= <-]). apply rbind_Ok in H as ([] & Hun%reject_if_Ok & H).
  apply rbind_Ok in H as ([t1 s1] & Happ & H). destruct (Hfresh _ _ Hload) as [Hj Hf]. exists s, s2.
  pose proof (tx_apply _ _ _ _ _ _ _ (append_plain _ _ _ _ _ _ _ Hok Hload Happ)) as Hap.
  eapply (append_next_advances _ _ [_]); [eapply append_advances; [done..| |done]| |done].
  - by apply (ad_shell_started _ _ _ _ request).
  - injection Hap as <-. by apply ad_effect_new.
Qed.

Lemma advances_append st t id es s s1 t2 s2 e :
  advances st (st <| connection := t |>) id es s s1 → append_next t (artifacts st) s1 e = Ok (t2, s2) →
  TaskState.apply s1 e = Ok s2.
Proof.
  intros Hav. unfold append_next. rewrite (advances_id _ _ _ _ _ _ Hav). intros ([s1' head] & Hload & Happ)%rbind_Ok.
  pose proof Hav as [_ [h1 Hl1] _ _ _ Hok1 _]. simpl in Hl1, Hok1. rewrite Hl1 in Hload. injection Hload as <- <-.
  exact (tx_apply _ _ _ _ _ _ _ (append_plain (st <| connection := t |>) _ _ _ _ _ _ Hok1 Hl1 Happ)).
Qed.
Lemma shell_status_over status :
  shell_status status ≠ JobStatus.Running ∧ shell_status status ≠ JobStatus.Fenced ∧
  (shell_status status ≠ JobStatus.Unknown → JobStatus.unresolved (shell_status status) = false).
Proof. by destruct status as [[]| | | | |]. Qed.

Lemma finish_shell_advances st id job request status receipt scope environment after st' :
  ready st → fresh (Command.FinishShell id job request status receipt scope environment after) st →
  run (Command.FinishShell id job request status receipt scope environment after) st = Ok st' →
  ∃ es s s', command_events (Command.FinishShell id job request status receipt scope environment after) es ∧
    advances st st' id es s s'.
Proof.
  intros [Hok Hshells] Hfresh. cbn [run]. unfold on_task, finish_shell_task. intros ([s head] & Hload & H)%rbind_Ok.
  destruct (shell_status_over status) as (Hnr & Hnf & Hknown). set (ended := shell_status status) in *.
  apply rbind_Ok in H as ([t s9] & H & [= <-]). apply rbind_Ok in H as ([[t8 s8] u] & H & [= <- <-]).
  apply rbind_Ok in H as ([] & Hrun%reject_if_Ok & H). destruct (Hshells _ _ _ Hload) as [[Hone Hcheck Hown] Hbegun].
  destruct (TaskState.jobs s !! job) as [j|] eqn:Hj; [|done]. apply negb_false_iff, bool_decide_eq_true in Hrun.
  assert (Hshell : runs_shell s job j request) by (split_and!; [done|done|by eapply Hfresh]).
  destruct (Hbegun _ _ _ Hshell) as [f0 Hf0]. destruct (Hown _ _ _ _ Hshell Hf0) as (Hun & st0 & ->).
  apply rbind_Ok in H as ([t1 s1] & Happ & H).
  pose proof (tx_apply _ _ _ _ _ _ _ (append_plain _ _ _ _ _ _ _ Hok Hload Happ)) as Hap1.
  apply rbind_Ok in H as ([t2 s2] & Hadopt & H). apply rbind_Ok in H as ([t3 s3] & Heffect & H).
  apply rbind_Ok in H as ([t4 s4] & Hstop & [= <- <- <-]).
  assert (Hav1 : advances st (st <| connection := t1 |>) id [TaskEvent.JobSettled job ended (Some receipt)] s s1).
  { eapply append_advances; [done..| |done]. eapply ad_shell_settled; eauto. }
  set (j1 := j <| Job.status := ended |> <| Job.execution_receipt := Some receipt |>).
  assert (Hj1 : TaskState.jobs s1 = <[job := j1]> (TaskState.jobs s) ∧ TaskState.effects s1 = TaskState.effects s).
  { injection Hap1 as <-. cbn. split; [|done]. apply map_eq. intros k. destruct (decide (k = job)) as [->|Hne].
    - by rewrite lookup_alter_eq, Hj, lookup_insert_eq.
    - by rewrite lookup_alter_ne, lookup_insert_ne. }
  destruct Hj1 as [Hj1 He1].
  set (adopted := if bool_decide (scope ≠ _) then None else _) in *.
  assert (Hav2 : advances st (st <| connection := t2 |>) id
      (TaskEvent.JobSettled job ended (Some receipt) :: ((λ '(candidate, origin), TaskEvent.ManualWorkspace candidate origin) <$> option_list adopted)) s s2 ∧
    TaskState.jobs s2 = TaskState.jobs s1 ∧ TaskState.effects s2 = TaskState.effects s1).
  { destruct adopted as [[candidate origin]|] eqn:Ha; [|by injection Hadopt as <- <-].
    pose proof (advances_append _ _ _ _ _ _ _ _ _ Hav1 Hadopt) as Hap2. split; [|by injection Hap2 as <-].
    eapply (append_next_advances _ _ [_]); [exact Hav1| |exact Hadopt]. unfold adopted in Ha.
    destruct (bool_decide (scope ≠ _)); [done|]. unfold shell_result in Ha. fold ended in Ha.
    case_bool_decide as Hk; [done|]. destruct after as [[source origin']|]; [|done]. injection Ha as <- <-.
    apply (ad_shell_adopted _ _ _ job j1 request (shell_effect request st0)).
    - by rewrite Hj1, lookup_insert_eq.
    - apply Hshell.
    - by apply Hknown.
    - by rewrite He1.
    - done. }
  destruct Hav2 as (Hav2 & Hj2 & He2).
  assert (Hav3 := Heffect). eapply append_next_advances in Hav3; [|exact Hav2|].
  2: { eapply ad_effect_settle; [cbn; by rewrite He2, He1|done|done|done|]. cbn. intros k j' (Hk & Hr' & Hreq). rewrite Hj2, Hj1 in Hk.
       apply lookup_insert_Some in Hk as [[-> <-]|[Hne Hk]]; [done|]. apply Hne. by eapply Hone. }
  pose proof (advances_append _ _ _ _ _ _ _ _ _ Hav2 Heffect) as Hap3.
  assert (Hav4 := Hstop). eapply append_next_advances in Hav4; [|exact Hav3|].
  2: { eapply (ad_shell_stopped _ _ _ job j1 request); injection Hap3 as <-; cbn.
       - by rewrite Hj2, Hj1, lookup_insert_eq.
       - apply Hshell.
       - done.
       - apply lookup_insert_eq.
       - cbn. by repeat case_bool_decide. }
  eexists _, s, s4. split; [|exact Hav4]. exists adopted. split.
  - cbn. by rewrite <-app_assoc.
  - unfold adopted. destruct (bool_decide (scope ≠ _)); [by left|by right].
Qed.

(** ** New tasks *)

(** The store [st'] is [st] with the new task [id] in state [s]. *)
Record created_in st st' (id : Uuid) s : Prop := {
  ci_none : tasks (connection st) !! id = None;
  ci_load : ∃ head, load_state (connection st') id = Ok (s, head);
  ci_others other : other ≠ id → load_state (connection st') other = load_state (connection st) other;
  ci_leases : leases (connection st') = leases (connection st);
  ci_artifacts : artifacts st' = artifacts st;
  ci_ok : db_ok (connection st');
  ci_order : task_order (connection st') = task_order (connection st) ++ [id];
}.

Lemma insert_created st id e s db :
  db_ok (connection st) → load_event id None e = Ok s → insert_task (connection st) id e s (artifacts st) = Ok db →
  created_in st (st <| connection := db |>) id s.
Proof.
  intros Hok Hload Hins.
  assert (Hnone : tasks (connection st) !! id = None).
  { unfold insert_task, insert_task_row in Hins.
    do 4 (apply rbind_Ok in Hins as (? & _ & Hins)). apply rbind_Ok in Hins as (? & H & _).
    apply rbind_Ok in H as (? & Hn%reject_if_Ok%bool_decide_eq_false & _).
    by apply eq_None_not_Some. }
  destruct (do_absent _ Hok id Hnone) as [Hne Hnc].
  destruct (insert_represents _ _ _ _ _ _ Hne Hnc Hload Hins) as ([hd Hrep] & _ & Hframe & Ho & Hl & _).
  split; try done.
  - exists hd. by eapply load_represents.
  - intros other Hother. destruct (Hframe other Hother) as (Ht & He & Hc).
    unfold load_state, latest_checkpoint, events_after. simpl. by rewrite Ht, He, Hc.
  - by eapply db_ok_insert.
Qed.

Lemma create_spec st id at_ms c st' s :
  db_ok (connection st) → create st id at_ms c = Ok (st', s) →
  creates (Command.Create id at_ms c) id s ∧ created_in st st' id s.
Proof.
  intros Hok. unfold create. intros ([] & Hval%map_err_Ok & (db & Hins & [= <- <-])%rbind_Ok)%rbind_Ok.
  split; [split_and!; [done|by apply validate_wf|done]|].
  eapply insert_created; [done| |exact Hins]. simpl. by rewrite Hval.
Qed.

Lemma insert_started_task t id e s a t' : insert_started t id e s a = Ok t' → insert_task t id e s a = Ok t'.
Proof.
  unfold insert_started, insert_task. intros ([] & -> & (bytes & -> & (hash & Hh & H)%rbind_Ok)%rbind_Ok)%rbind_Ok.
  cbn [rbind]. rewrite Hh. exact H.
Qed.

Lemma start_spec st id now request limits contract intake input st' :
  db_ok (connection st) → run (Command.Start id now request limits contract intake input) st = Ok st' →
  ∃ s, creates (Command.Start id now request limits contract intake input) id s ∧ created_in st st' id s.
Proof.
  intros Hok. cbn [run]. intros ([] & Hvalid & H)%rbind_Ok. apply rbind_Ok in H as ([t s] & H & [= <-]).
  unfold start_task in H. apply rbind_Ok in H as ([e s'] & He & H).
  apply rbind_Ok in H as (t' & Hins%insert_started_task & [= -> ->]). exists s. unfold start_event in He.
  destruct contract as [c|]; cbn [valid_start creates] in *.
  - apply map_err_Ok in Hvalid. injection He as <- <-. split; [split_and!; [done|by apply validate_wf|done]|].
    eapply insert_created; [done| |exact Hins]. simpl. by rewrite Hvalid.
  - apply rbind_Ok in Hvalid as ([] & Hr%reject_if_Ok & Hl%map_err_Ok).
    apply rbind_Ok in He as (policy & Hp%ok_or_Ok & [= <- <-]). rewrite Hp in *. split; [by split_and!|].
    eapply insert_created; [done| |exact Hins]. simpl. by rewrite Hl, Hr.
Qed.

Lemma change_revision st id r terminal op st' s' :
  change st id (Some r) terminal op = Ok (st', s') →
  ∃ s head, load_state (connection st) id = Ok (s, head) ∧ TaskState.revision s = r.
Proof.
  unfold change. intros ([s head] & Hload & H)%rbind_Ok.
  apply rbind_Ok in H as ([] & Hrev%reject_if_Ok%negb_false_iff%N.eqb_eq & _). by exists s, head.
Qed.

Ltac guarded_by_revision H :=
  first [by eapply change_revision
        |apply rbind_Ok in H as ([? ?] & H & _); by eapply change_revision
        |apply rbind_Ok in H as (? & _ & H); guarded_by_revision H].

Lemma establish_workspace_revision st id r origin baseline st' s' :
  establish_workspace st id r origin baseline = Ok (st', s') →
  ∃ s head, load_state (connection st) id = Ok (s, head) ∧ TaskState.revision s = r.
Proof.
  unfold establish_workspace. intros ([s head] & Hload & H)%rbind_Ok.
  apply rbind_Ok in H as ([] & Hrev%reject_if_Ok%negb_false_iff%N.eqb_eq & _). by exists s, head.
Qed.

Lemma resume_revision st id r reason now st' :
  on_task st id (λ t a s head, resume_task t a now s head r reason) = Ok st' →
  ∃ s head, load_state (connection st) id = Ok (s, head) ∧ TaskState.revision s = r.
Proof.
  unfold on_task, resume_task. intros ([s head] & Hload & H)%rbind_Ok. apply rbind_Ok in H as ([t s'] & H & _).
  apply rbind_Ok in H as ([] & Hrev%reject_if_Ok%negb_false_iff%N.eqb_eq & _). by exists s, head.
Qed.

Lemma command_revision c st st' r :
  expected_revision c = Some r → run c st = Ok st' →
  ∃ s head, load_state (connection st) (command_task c) = Ok (s, head) ∧ TaskState.revision s = r.
Proof.
  destruct c; try discriminate; intros [= <-]; cbn [command_task run];
    try (by apply resume_revision); intros ([st1 x] & H & _)%rbind_Ok;
    try (by eapply establish_workspace_revision);
    unfold select_candidate, establish_baseline, invalidate_candidate, workspace_restored, amend_contract,
      admit_contract, set_phase, begin_check, start_job_with, record_finding, record_effect, record_delivery,
      complete, stop, reopen, accept_additive_contract in H;
    guarded_by_revision H.
Qed.

(** Every command leaves the store alone, creates a task, or performs its events
    on its task. *)
Lemma run_spec c st st' :
  ready st → fresh c st → run c st = Ok st' →
  (st' = st ∧ expected_revision c = None) ∨
  (∃ id s, creates c id s ∧ created_in st st' id s) ∨
  ∃ es s s', command_events c es ∧ advances st st' (command_task c) es s s'.
Proof.
  intros Hready Hfresh Hrun. pose proof Hready as [Hok _]. destruct c as [id at_ms c| | | | | | | | | | | | | | | | | | | | | | | | | | |id0 now0 request0 limits0 contract0 intake0 input0| | | | |];
    try (simpl in Hrun; apply rbind_Ok in Hrun as ([st1 r] & H & [= <-]); simpl).
  - right. left. exists id, r. by apply create_spec.
  - destruct (audit_evidence_advances _ _ _ _ Hok H) as [|(s & reason & ?)]; eauto 10.
  - destruct (select_candidate_advances _ _ _ _ _ _ Hok H); eauto 10.
  - destruct (establish_workspace_advances _ _ _ _ _ _ _ Hok H); eauto 10.
  - destruct (establish_baseline_advances _ _ _ _ _ _ Hok H); eauto 10.
  - destruct (invalidate_candidate_advances _ _ _ _ _ _ Hok H); eauto 10.
  - destruct (workspace_restored_advances _ _ _ _ _ _ Hok H); eauto 10.
  - destruct (request_cancellation_advances _ _ _ _ Hok H) as [|[s ?]]; eauto 10.
  - destruct (amend_contract_advances _ _ _ _ _ _ _ Hok H); eauto 10.
  - destruct (admit_contract_advances _ _ _ _ _ _ _ _ Hok H); eauto 10.
  - destruct (set_phase_advances _ _ _ _ _ _ Hok H); eauto 10.
  - destruct (begin_check_advances _ _ _ _ _ _ _ _ _ _ Hok Hfresh H) as (s & s' & j & ? & ?); eauto 12.
  - destruct (finish_check_advances _ _ _ _ _ _ Hok H) as (s & v & ? & ? & ? & ?); eauto 15.
  - destruct (start_job_advances _ _ _ _ _ _ _ _ _ _ _ _ Hok Hfresh H) as (s & s' & j & ? & ?); eauto 12.
  - destruct (settle_job_advances _ _ _ _ _ _ _ Hok H); eauto 10.
  - destruct (fence_job_advances _ _ _ _ _ _ Hok H) as [|[s ?]]; eauto 10.
  - destruct (record_finding_advances _ _ _ _ _ _ Hok H); eauto 10.
  - destruct (record_effect_advances _ _ _ _ _ _ Hok Hfresh H); eauto 10.
  - unfold charge_usage in H. destruct (account_usage_advances _ _ _ _ _ _ _ Hok H) as [|[s ?]]; eauto 10.
  - unfold reserve_model_call in H. destruct (account_usage_advances _ _ _ _ _ _ _ Hok H) as [|[s ?]]; eauto 10.
  - destruct (record_model_call_advances _ _ _ _ _ _ Hok H) as [|[s ?]]; eauto 10.
  - destruct (record_delivery_advances _ _ _ _ _ _ Hok H); eauto 10.
  - destruct (complete_advances _ _ _ _ _ _ Hok H) as (s & cert & ? & _); eauto 10.
  - destruct (stop_advances _ _ _ _ _ _ _ Hok H); eauto 10.
  - destruct (reopen_advances _ _ _ _ _ _ Hok H); eauto 10.
  - destruct (recover_task_advances _ _ _ _ Hok H) as [(-> & _)|(_ & s & s' & ? & _)]; eauto 10.
  - destruct (accept_additive_advances _ _ _ _ _ _ _ Hok H) as (s & scope & ?). do 2 right. exists [TaskEvent.AdditiveContractAccepted c receipt scope], s, r. split; [by exists scope|done].
  - right. left. destruct (start_spec _ _ _ _ _ _ _ _ _ Hok Hrun) as (s & ?). eauto.
  - destruct (resume_advances _ _ _ _ _ _ Hok Hrun) as (s & s' & ?). do 2 right. eexists _, s, s'. by split.
  - destruct (direct_advances _ _ _ _ _ _ Hok Hrun) as (s & s' & ?). do 2 right. eexists _, s, s'. by split.
  - destruct (continue_advances _ _ _ _ _ _ _ Hok Hrun) as (es & s & s' & ? & ?). eauto 10.
  - destruct (begin_shell_advances _ _ _ _ _ _ _ _ _ _ Hok Hfresh Hrun) as (s & s' & ?). do 2 right. eexists _, s, s'. split; [by exists s|done].
  - destruct (finish_shell_advances _ _ _ _ _ _ _ _ _ _ Hready Hfresh Hrun) as (es & s & s' & ? & ?). eauto 10.
Qed.
End refinement.
