(* ===== verification/Invariant.v ===== *)
(** * The invariant of the task store

    What holds of every task after any sequence of commands: evidence comes from
    jobs that ran, leases belong to running jobs, complete tasks have a current
    certificate. It is proved of the guarded machine of [Commands] and carried to
    the store by the refinement. *)

From S2P Require Import Prelude Digest Codec Artifacts Contract State Completion Workspace.
From S2P Require Import Input ArtifactGraph Journal Codecs Replay Store StoreTasks Commands Refinement.

(** ** The invariant of a task *)

Section invariant.
Context {SHA : Sha256} {SER : StoreSerde} {OK : StoreSerdeOk} {SET : SerdeErrorText} {DET : StoreErrorText}.
Implicit Types (st : Store) (s : TaskState.t) (e : TaskEvent.t) (L : gmap (Uuid * Uuid) string).

Record task_inv (id : Uuid) s L : Prop := {
  (** A fenced job has its termination receipt. *)
  ti_fenced k j : TaskState.jobs s !! k = Some j → Job.status j = JobStatus.Fenced →
    is_Some (Job.fence_receipt j);
  (** A lease belongs to a running verification job. *)
  ti_lease k : is_Some (L !! (id, k)) → ∃ j, TaskState.jobs s !! k = Some j ∧
    Job.status j = JobStatus.Running ∧ is_Some (Job.check j) ∧ is_Some (Job.identity j);
  (** Evidence comes from a job that ran that check for that identity and ended. *)
  ti_evidence v : v ∈ TaskState.evidence s → ∃ j, TaskState.jobs s !! Evidence.job_id v = Some j ∧
    Job.status j ≠ JobStatus.Running ∧ Job.check j = Some (Evidence.check v) ∧
    Job.identity j = Some (Evidence.identity v);
  (** A job gives evidence once, and never ahead of its generation. *)
  ti_once : NoDup (Evidence.job_id <$> TaskState.evidence s);
  ti_current v : v ∈ TaskState.evidence s → (Evidence.generation v ≤ TaskState.generation s)%N;
  (** A complete task has a certificate for its current generation. *)
  ti_complete : TaskState.outcome s = Some Outcome.Complete → ∃ cert,
    last (TaskState.certificates s) = Some cert ∧ Certificate.task cert = TaskState.id s ∧
    Certificate.generation cert = TaskState.generation s;
}.

(** What an event does not touch. *)
Definition quiet s s' : Prop :=
  TaskState.jobs s' = TaskState.jobs s ∧ TaskState.evidence s' = TaskState.evidence s ∧
  (TaskState.generation s ≤ TaskState.generation s')%N ∧
  (TaskState.outcome s' = Some Outcome.Complete →
     TaskState.outcome s = Some Outcome.Complete ∧ TaskState.certificates s' = TaskState.certificates s ∧
     TaskState.generation s' = TaskState.generation s ∧ TaskState.id s' = TaskState.id s).

Lemma quiet_inv id s s' L : quiet s s' → task_inv id s L → task_inv id s' L.
Proof.
  intros (Hj & He & Hg & Hc) [H1 H2 H3 H4 H5 H6]. split; rewrite ?Hj, ?He; try done.
  - intros v Hv. specialize (H5 v Hv). lia.
  - intros Ho. destruct (Hc Ho) as (Ho' & -> & -> & ->). by apply H6.
Qed.

Lemma observed_not_running o : TaskState.observed_status o ≠ JobStatus.Running.
Proof. unfold TaskState.observed_status. destruct (Observation.unreconciled_jobs o); [case_bool_decide|]; done. Qed.

(** Changing one unresolved job to an ended one and dropping its lease. *)
Lemma end_job_inv id s s' L k f :
  task_inv id s L →
  (∀ j, Job.check (f j) = Job.check j ∧ Job.identity (f j) = Job.identity j ∧
        Job.status (f j) ≠ JobStatus.Running ∧
        (Job.status (f j) = JobStatus.Fenced → is_Some (Job.fence_receipt (f j)))) →
  TaskState.jobs s' = alter f k (TaskState.jobs s) →
  TaskState.evidence s' = TaskState.evidence s → TaskState.generation s' = TaskState.generation s →
  TaskState.outcome s' = TaskState.outcome s → TaskState.certificates s' = TaskState.certificates s →
  TaskState.id s' = TaskState.id s →
  task_inv id s' (delete (id, k) L).
Proof.
  intros [H1 H2 H3 H4 H5 H6] Hf Hj He Hg Ho Hc Hid. split; rewrite ?Hj, ?He, ?Hg, ?Ho, ?Hc, ?Hid; try done.
  - intros k' j. rewrite lookup_alter_Some. intros [(-> & j0 & _ & ->)|[_ Hk]]; [apply Hf|by eapply H1].
  - intros k'. destruct (decide (k = k')) as [<-|Hne]; [by rewrite lookup_delete_eq; intros []|].
    rewrite lookup_delete_ne by naive_solver. intros Hs. destruct (H2 k' Hs) as (j & Hk & ?).
    exists j. by rewrite lookup_alter_ne.
  - intros v Hv. destruct (H3 v Hv) as (j & Hk & Hr & Hch & Hi).
    destruct (decide (k = Evidence.job_id v)) as [->|Hne].
    + exists (f j). rewrite lookup_alter_eq, Hk. destruct (Hf j) as (-> & -> & ? & _). done.
    + exists j. by rewrite lookup_alter_ne.
Qed.

Lemma start_job_inv id s s' L L' j :
  task_inv id s L → TaskState.jobs s !! Job.id j = None → Job.status j = JobStatus.Running →
  (L' = L ∨ ∃ token, L' = <[(id, Job.id j) := token]> L ∧ is_Some (Job.check j) ∧ is_Some (Job.identity j)) →
  TaskState.jobs s' = <[Job.id j := j]> (TaskState.jobs s) →
  TaskState.evidence s' = TaskState.evidence s → TaskState.generation s' = TaskState.generation s →
  TaskState.outcome s' = TaskState.outcome s → TaskState.certificates s' = TaskState.certificates s →
  TaskState.id s' = TaskState.id s → task_inv id s' L'.
Proof.
  intros [H1 H2 H3 H4 H5 H6] Hnew Hrun HL Hj He Hg Ho Hc Hid.
  split; rewrite ?Hj, ?He, ?Hg, ?Ho, ?Hc, ?Hid; try done.
  - intros k j'. rewrite lookup_insert_Some. intros [[_ <-]|[_ Hk]]; [congruence|by eapply H1].
  - assert (Hold : ∀ k, is_Some (L !! (id, k)) → ∃ j', <[Job.id j := j]> (TaskState.jobs s) !! k = Some j' ∧
      Job.status j' = JobStatus.Running ∧ is_Some (Job.check j') ∧ is_Some (Job.identity j')).
    { intros k Hs. destruct (H2 k Hs) as (j' & Hk & ?). exists j'. by rewrite lookup_insert_ne by congruence. }
    destruct HL as [->|(token & -> & Hch & Hi)]; [done|]. intros k.
    destruct (decide (k = Job.id j)) as [->|Hne]; [|rewrite lookup_insert_ne by naive_solver; apply Hold].
    intros _. exists j. by rewrite lookup_insert_eq.
  - intros v Hv. destruct (H3 v Hv) as (j' & Hk & ?). exists j'. by rewrite lookup_insert_ne by congruence.
Qed.

Lemma observed_inv id s s' L v j :
  task_inv id s L → TaskState.outcome s = None →
  TaskState.jobs s !! Evidence.job_id v = Some j → Job.status j = JobStatus.Running →
  Job.generation j = TaskState.generation s → Evidence.generation v = Job.generation j →
  Job.check j = Some (Evidence.check v) → Job.identity j = Some (Evidence.identity v) →
  TaskState.jobs s' = alter (λ j, j <| Job.status := TaskState.observed_status (Evidence.observation v) |>)
                        (Evidence.job_id v) (TaskState.jobs s) →
  TaskState.evidence s' = TaskState.evidence s ++ [v] → TaskState.generation s' = TaskState.generation s →
  TaskState.outcome s' = TaskState.outcome s → TaskState.certificates s' = TaskState.certificates s →
  TaskState.id s' = TaskState.id s →
  task_inv id s' (delete (id, Evidence.job_id v) L).
Proof.
  intros Hinv Hopen Hjob Hrun Hgen Hvgen Hch Hi Hj He Hg Ho Hc Hid.
  assert (Hfresh : Evidence.job_id v ∉ Evidence.job_id <$> TaskState.evidence s).
  { intros (w & Hw & Hin)%list_elem_of_fmap. destruct (ti_evidence _ _ _ Hinv w Hin) as (j' & Hj' & Hnr & _).
    congruence. }
  assert (Hmid : task_inv id (s' <| TaskState.evidence := TaskState.evidence s |>)
    (delete (id, Evidence.job_id v) L)).
  { apply (end_job_inv id s _ L (Evidence.job_id v)
      (λ j, j <| Job.status := TaskState.observed_status (Evidence.observation v) |>) Hinv); try done.
    intros j'. cbn. split_and!; [done|done|apply observed_not_running|].
    unfold TaskState.observed_status. destruct (Observation.unreconciled_jobs _); [case_bool_decide|]; done. }
  destruct Hmid as [H1 H2 H3 H4 H5 H6]. cbn in *. split; try done; rewrite ?He.
  - intros w. rewrite elem_of_app, list_elem_of_singleton. intros [Hw| ->]; [by apply H3|].
    exists (j <| Job.status := TaskState.observed_status (Evidence.observation v) |>).
    rewrite Hj, lookup_alter_eq, Hjob. cbn. split_and!; [done|apply observed_not_running|done|done].
  - rewrite fmap_app. apply NoDup_app. split_and!; [apply Hinv| |apply NoDup_singleton].
    intros x Hx ->%list_elem_of_singleton. done.
  - intros w. rewrite elem_of_app, list_elem_of_singleton. intros [Hw| ->]; [by apply H5|].
    rewrite Hg. lia.
Qed.

Lemma drop_leases_inv id s L : task_inv id s L → task_inv id s (base.filter (λ '((t, _), _), t ≠ id) L).
Proof. intros []. split; try done. intros k [t Ht]. by apply map_lookup_filter_Some in Ht as [_ Ht]. Qed.

(** Every event the machine admits keeps the invariant. *)
Lemma admissible_inv id s L L' e s' :
  (TaskState.revision s < u64_MAX)%N → state_ok s → task_inv id s L →
  admissible id s L L' e → TaskState.apply s e = Ok s' → task_inv id s' L'.
Proof.
  intros Hrev [[Hg _ _ _] _ Hkeys] Hinv Had Happ.
  assert (Hsucc : u64_succ (TaskState.generation s) = (TaskState.generation s + 1)%N)
    by (apply u64_succ_small; lia).
  unfold TaskState.apply in Happ. apply rbind_Ok in Happ as (s1 & Happ & [= <-]).
  destruct Had as [e Hopen Hnone|reason Ho|reason Ho|operation u Hu Hm|operation Hu Hm Ho Hc _ _
    |j Ho Hj Hr Hgen Hsh|j token Ho Hj Hr Hgen Hch Hi Hl Hsh|j v Ho Hj Hr Hgen Hvg Hch Hi Hl|k j status receipt Hj Hun Hnr Hnf _
    |k j receipt Hj Hun|f Hf Hst Ho Hsh|f f0 Hf Hun Hd Hi Hsh|operation receipt Hop Hw|cert now Ho Hcert|o reason Hne Ho|reason Ho
    |c receipt Ho Hp Hret|request input replace|request reason Hd Hun|j shell Hun Hj Hr Hch Hsh Hf|k j shell status receipt (Hj & Hr & Hsh) Hch Hnr Hnf
    |k j shell f source environment origin Hj Hsh Hr Hf Hun|k j shell f Hj Hsh Hr Hf Hun|c basis receipt Ho Hn _ _].
  - apply (quiet_inv id s); [|done].
    destruct e; try discriminate Hopen; cbn [TaskState.apply_event] in Happ;
      try (apply rbind_Ok in Happ as (s2 & Hp & Happ); unfold TaskState.push_history in Hp;
           destruct (TaskState.contract s); [apply rbind_Ok in Hp as (? & _ & Hp)|]; injection Hp as <-);
      injection Happ as <-; unfold TaskState.invalidate;
      (split; [reflexivity|split; [reflexivity|split; [cbn; lia|cbn; congruence]]]).
  - injection Happ as <-. apply (quiet_inv id s); [|done]. unfold TaskState.invalidate.
    split; [reflexivity|split; [reflexivity|split; [cbn; lia|cbn; congruence]]].
  - injection Happ as <-. apply (quiet_inv id s); [|done]. unfold TaskState.invalidate.
    split; [reflexivity|split; [reflexivity|split; [cbn; lia|cbn; congruence]]].
  - cbn [TaskState.apply_event] in Happ. injection Happ as <-. apply (quiet_inv id s); [|done].
    match goal with |- context [if ?b then TaskState.withdraw _ _ else _] => destruct b end;
      unfold TaskState.withdraw, TaskState.invalidate;
      (split; [reflexivity|split; [reflexivity|split; [cbn; lia|cbn; try congruence; done]]]).
  - injection Happ as <-. apply (quiet_inv id s); [|done].
    split; [reflexivity|split; [reflexivity|split; [cbn; lia|cbn; congruence]]].
  - injection Happ as <-. apply (start_job_inv id s _ L L j Hinv Hj Hr); try reflexivity. by left.
  - injection Happ as <-. apply (start_job_inv id s _ L _ j Hinv Hj Hr); try reflexivity.
    right. by exists token.
  - injection Happ as <-. by apply (observed_inv id s _ L v j Hinv).
  - injection Happ as <-. eapply (end_job_inv id s _ L k _ Hinv); try reflexivity.
    intros j'. cbn. split_and!; done.
  - injection Happ as <-. eapply (end_job_inv id s _ L k _ Hinv); try reflexivity.
    intros j'. cbn. split_and!; done.
  - injection Happ as <-. apply (quiet_inv id s); [|done].
    split; [reflexivity|split; [reflexivity|split; [cbn; lia|cbn; congruence]]].
  - injection Happ as <-. apply (quiet_inv id s); [|done].
    split; [reflexivity|split; [reflexivity|split; [cbn; lia|cbn; done]]].
  - cbn [TaskState.apply_event] in Happ. injection Happ as <-. apply (quiet_inv id s); [|done].
    match goal with |- context [if ?b then TaskState.withdraw _ _ else _] => destruct b end;
      unfold TaskState.withdraw, TaskState.invalidate;
      (split; [reflexivity|split; [reflexivity|split; [cbn; lia|cbn; try congruence; done]]]).
  - injection Happ as <-. destruct Hinv as [H1 H2 H3 H4 H5 H6]. split; cbn; try done.
    intros _. exists cert. rewrite last_snoc. destruct Hcert as (c & cand & d & cd & _ & _ & _ & _ & _ & _ & _ & _ & _ & ->). done.
  - injection Happ as <-. apply (quiet_inv id s); [|done].
    split; [reflexivity|split; [reflexivity|split; [cbn; lia|cbn; congruence]]].
  - injection Happ as <-. destruct Hinv as [H1 H2 H3 H4 H5 H6]. cbn. unfold TaskState.invalidate.
    assert (Hjob : ∀ k j, TaskState.jobs s !! k = Some j → (TaskState.interrupt_job <$> TaskState.jobs s) !! k
       = Some (TaskState.interrupt_job j)) by (intros k j Hk; by rewrite lookup_fmap, Hk).
    split; cbn; try done.
    + intros k j. rewrite lookup_fmap. intros (j0 & Hk & ->)%fmap_Some. unfold TaskState.interrupt_job.
      case_bool_decide; [done|by apply (H1 k)].
    + intros k [t Ht]. apply map_lookup_filter_Some in Ht as [_ Ht]. done.
    + intros v Hv. destruct (H3 v Hv) as (j & Hk & Hr & Hch & Hi).
      exists (TaskState.interrupt_job j). rewrite (Hjob _ _ Hk). unfold TaskState.interrupt_job.
      rewrite bool_decide_false by done. done.
    + intros v Hv. specialize (H5 v Hv). lia.
    + by destruct (TaskState.cancellation_requested s).
  - apply (quiet_inv id s); [|done]. cbn [TaskState.apply_event] in Happ.
    apply rbind_Ok in Happ as (s2 & Hpush & Happ); unfold TaskState.push_history in Hpush.
    destruct (TaskState.contract s); [apply rbind_Ok in Hpush as (? & _ & Hpush)|]; injection Hpush as <-;
      injection Happ as <-; unfold TaskState.invalidate;
      (split; [reflexivity|split; [reflexivity|split; [cbn; lia|cbn; congruence]]]).
  - apply drop_leases_inv, (quiet_inv id s); [|done].
    destruct replace; injection Happ as <-; unfold TaskState.directive_scope, TaskState.invalidate;
      (split; [reflexivity|split; [reflexivity|split; [cbn; lia|cbn; congruence]]]).
  - injection Happ as <-. apply (quiet_inv id s); [|done]. unfold TaskState.invalidate.
    split; [reflexivity|split; [reflexivity|split; [cbn; lia|cbn; congruence]]].
  - injection Happ as <-.
    eapply (start_job_inv id (TaskState.invalidate s <| TaskState.outcome := None |>) _ L L j);
      [|exact Hj|exact Hr|by left|reflexivity..].
    apply (quiet_inv id s); [|done]. unfold TaskState.invalidate.
    split; [reflexivity|split; [reflexivity|split; [cbn; lia|cbn; congruence]]].
  - injection Happ as <-.
    assert (L !! (id, k) = None) as HL.
    { apply eq_None_not_Some. intros (j' & Hj' & _ & Hc & _)%(ti_lease _ _ _ Hinv).
      assert (j' = j) as -> by congruence. rewrite Hch in Hc. by destruct Hc. }
    rewrite <-(delete_id L (id, k)) by done.
    eapply (end_job_inv id s _ L k _ Hinv); try reflexivity. intros j'. cbn. split_and!; done.
  - injection Happ as <-. apply (quiet_inv id s); [|done].
    split; [reflexivity|split; [reflexivity|split; [cbn; lia|cbn; done]]].
  - injection Happ as <-. apply (quiet_inv id s); [|done].
    split; [reflexivity|split; [reflexivity|split; [cbn; lia|cbn; congruence]]].
  - injection Happ as <-. apply (quiet_inv id s); [|done]. unfold TaskState.invalidate.
    split; [reflexivity|split; [reflexivity|split; [cbn; lia|cbn; congruence]]].
Qed.

(** ** Shells *)

(** What an event leaves of running shells and of their effects. *)
Definition shells_follow s s' : Prop :=
  (∀ k j r, runs_shell s' k j r → ∃ j0, runs_shell s k j0 r ∧ Job.check j0 = Job.check j) ∧
  (∀ k j r, runs_shell s' k j r → TaskState.effects s' !! r = TaskState.effects s !! r).
Lemma shells_follow_same s s' :
  TaskState.jobs s' = TaskState.jobs s → TaskState.effects s' = TaskState.effects s → shells_follow s s'.
Proof. intros Hj He. unfold shells_follow, runs_shell. rewrite Hj, He. split; [eauto|done]. Qed.
Lemma shells_follow_open s s' : shells_follow s s' → shells_open s → shells_open s'.
Proof.
  intros [Hj He] [H1 H2 H3]. split.
  - intros k1 k2 j1 j2 r1 r2 (? & ? & _)%Hj (? & ? & _)%Hj. by eapply H1.
  - intros k j r (j0 & Hr & <-)%Hj. by eapply H2.
  - intros k j r f Hr. rewrite (He _ _ _ Hr). destruct (Hj _ _ _ Hr) as (j0 & Hr0 & _). by eapply H3.
Qed.
Lemma shells_follow_begun s s' : shells_follow s s' → shells_begun s → shells_begun s'.
Proof. intros [Hj He] H k j r Hr. rewrite (He _ _ _ Hr). destruct (Hj _ _ _ Hr) as (j0 & Hr0 & _). by eapply H. Qed.

(** A job that changes keeps its name and does not begin to run. *)
Lemma shells_follow_alter s s' k f :
  TaskState.jobs s' = alter f k (TaskState.jobs s) → TaskState.effects s' = TaskState.effects s →
  (∀ j, Job.invocation (f j) = Job.invocation j ∧ Job.check (f j) = Job.check j) →
  (∀ j, TaskState.jobs s !! k = Some j → Job.status (f j) = JobStatus.Running → Job.status j = JobStatus.Running) → shells_follow s s'.
Proof.
  intros Hj He Hf Hr. split; [|by rewrite He]. intros k' j r (Hk & Hrun & Hreq). rewrite Hj in Hk.
  apply lookup_alter_Some in Hk as [(-> & j0 & Hk & ->)|[_ Hk]]; [|by exists j; split].
  destruct (Hf j0) as [Hinv Hch]. exists j0. split; [split_and!; [done|by apply Hr|]|done]. unfold shell_request in *. by rewrite <-Hinv.
Qed.
Lemma shells_follow_job s s' j :
  TaskState.jobs s' = <[Job.id j := j]> (TaskState.jobs s) → TaskState.effects s' = TaskState.effects s → shell_request j = None → shells_follow s s'.
Proof.
  intros Hj He Hn. split; [|by rewrite He]. intros k j' r (Hk & Hrun & Hreq). rewrite Hj in Hk.
  apply lookup_insert_Some in Hk as [[_ <-]|[_ Hk]]; [congruence|]. by exists j'; split.
Qed.

Definition starts_shell e : bool := match e with TaskEvent.ManualStarted _ => true | _ => false end.
(** Every event but the start of a shell and the intent of a new effect. *)
Lemma admissible_follow id s L L' e s' :
  admissible id s L L' e → TaskState.apply s e = Ok s' → starts_shell e = false →
  shells_follow s s' ∨ ∃ f, e = TaskEvent.EffectRecorded f ∧ TaskState.effects s !! Effect.operation_id f = None ∧
    ∀ k j, runs_shell s k j (Effect.operation_id f) → f = shell_effect (Effect.operation_id f) EffectStatus.Intended.
Proof.
  intros Had Happ Hns. unfold TaskState.apply in Happ. apply rbind_Ok in Happ as (s1 & Happ & [= <-]).
  destruct Had as [e Hopen Hnone|reason Ho|reason Ho|operation u Hu Hm|operation Hu Hm Ho Hc _ _
    |j Ho Hj Hr Hgen Hsh|j token Ho Hj Hr Hgen Hch Hi Hl Hsh|j v Ho Hj Hr Hgen Hvg Hch Hi Hl|k j status receipt Hj Hun Hnr Hnf _
    |k j receipt Hj Hun|f Hf Hst Ho Hsh|f f0 Hf Hun Hd Hi Hsh|operation receipt Hop Hw|cert now Ho Hcert|o reason Hne Ho|reason Ho
    |c receipt Ho Hp Hret|request input replace|request reason Hd Hun|j shell Hun Hj Hr Hch Hsh Hf|k j shell status receipt (Hj & Hr & Hsh) Hch Hnr Hnf
    |k j shell f source environment origin Hj Hsh Hr Hf Hun|k j shell f Hj Hsh Hr Hf Hun|c basis receipt Ho Hn _ _].
  - left. destruct e; try discriminate Hopen; cbn [TaskState.apply_event] in Happ;
      try (apply rbind_Ok in Happ as (s2 & Hp & Happ); unfold TaskState.push_history in Hp;
           destruct (TaskState.contract s); [apply rbind_Ok in Hp as (? & _ & Hp)|]; injection Hp as <-);
      injection Happ as <-; by apply shells_follow_same.
  - left. injection Happ as <-. by apply shells_follow_same.
  - left. injection Happ as <-. by apply shells_follow_same.
  - left. cbn [TaskState.apply_event] in Happ. injection Happ as <-.
    match goal with |- context [if ?b then TaskState.withdraw _ _ else _] => destruct b end; by apply shells_follow_same.
  - left. injection Happ as <-. by apply shells_follow_same.
  - left. injection Happ as <-. by apply (shells_follow_job _ _ j).
  - left. injection Happ as <-. by apply (shells_follow_job _ _ j).
  - left. injection Happ as <-. eapply shells_follow_alter; [reflexivity|done|done|].
    intros j' _ H. by destruct (observed_not_running (Evidence.observation v)).
  - left. injection Happ as <-. by eapply shells_follow_alter; [reflexivity|done|done|].
  - left. injection Happ as <-. by eapply shells_follow_alter; [reflexivity|done|done|].
  - right. by exists f.
  - left. injection Happ as <-. split; cbn; [by intros k j r Hr; exists j|]. intros k j r Hr.
    rewrite lookup_insert_ne; [done|]. intros <-. by destruct (Hsh k j).
  - left. cbn [TaskState.apply_event] in Happ. injection Happ as <-.
    match goal with |- context [if ?b then TaskState.withdraw _ _ else _] => destruct b end; by apply shells_follow_same.
  - left. injection Happ as <-. by apply shells_follow_same.
  - left. injection Happ as <-. by apply shells_follow_same.
  - left. injection Happ as <-.
    assert (Hno : ∀ k j r, ¬ (TaskState.interrupt_job <$> TaskState.jobs s !! k = Some j ∧ Job.status j = JobStatus.Running ∧ shell_request j = Some r)).
    { intros k j r (Hk & Hrun & _). apply fmap_Some in Hk as (j0 & _ & ->). unfold TaskState.interrupt_job in Hrun. by case_bool_decide. }
    split; intros k j r (Hk & Hrun & Hreq); cbn in Hk; rewrite lookup_fmap in Hk; by destruct (Hno k j r).
  - left. cbn [TaskState.apply_event] in Happ. apply rbind_Ok in Happ as (s2 & Hpush & Happ); unfold TaskState.push_history in Hpush.
    destruct (TaskState.contract s); [apply rbind_Ok in Hpush as (? & _ & Hpush)|]; injection Hpush as <-;
      injection Happ as <-; by apply shells_follow_same.
  - left. destruct replace; injection Happ as <-; by apply shells_follow_same.
  - left. injection Happ as <-. by apply shells_follow_same.
  - done.
  - left. injection Happ as <-. by eapply shells_follow_alter; [reflexivity|done|done|].
  - left. injection Happ as <-. by apply shells_follow_same.
  - left. injection Happ as <-. by apply shells_follow_same.
  - left. injection Happ as <-. by apply shells_follow_same.
Qed.

Lemma admissible_shells id s L L' e s' :
  admissible id s L L' e → TaskState.apply s e = Ok s' → shells_open s → shells_open s'.
Proof.
  intros Had Happ Hopen. destruct (starts_shell e) eqn:Hstart.
  - destruct e; try discriminate Hstart. injection Happ as <-.
    assert (unfinished s = false ∧ Job.check job = None ∧ ∃ r, shell_request job = Some r ∧ TaskState.effects s !! r = None) as (Hun & Hch & shell & Hsh & Hf).
    { remember (TaskEvent.ManualStarted job) as e eqn:He. destruct Had; try discriminate He; [by subst e|by destruct replace|].
      injection He as ->. eauto 10. }
    assert (Honly : ∀ k j', <[Job.id job := job]> (TaskState.jobs s) !! k = Some j' → Job.status j' = JobStatus.Running → k = Job.id job ∧ j' = job).
    { intros k j' Hk Hrun. apply lookup_insert_Some in Hk as [[<- <-]|[_ Hk]]; [done|].
      apply (unfinished_none _ _ _ Hun) in Hk. by rewrite Hrun in Hk. }
    split; unfold runs_shell; cbn.
    + intros k1 k2 j1 j2 r1 r2 (H1 & Hr1 & _) (H2 & Hr2 & _). by destruct (Honly _ _ H1 Hr1) as [-> _], (Honly _ _ H2 Hr2) as [-> _].
    + intros k j r (H1 & Hr1 & _). by destruct (Honly _ _ H1 Hr1) as [_ ->].
    + intros k j r f (H1 & Hr1 & Hreq) Hf'. destruct (Honly _ _ H1 Hr1) as [_ ->]. congruence.
  - destruct (admissible_follow _ _ _ _ _ _ Had Happ Hstart) as [Hf|(f & -> & Hnone & Hown)]; [by eapply shells_follow_open|].
    injection Happ as <-. destruct Hopen as [H1 H2 H3]. split; [exact H1|exact H2|]. cbn. intros k j r f' Hr Hf'.
    apply lookup_insert_Some in Hf' as [[<- <-]|[_ Hf']]; [|by eapply H3]. rewrite (Hown _ _ Hr). split; [done|by eexists].
Qed.
Lemma admissible_begun id s L L' e s' :
  admissible id s L L' e → TaskState.apply s e = Ok s' → starts_shell e = false → shells_begun s → shells_begun s'.
Proof.
  intros Had Happ Hstart. destruct (admissible_follow _ _ _ _ _ _ Had Happ Hstart) as [Hf|(f & -> & Hnone & Hown)]; [by apply shells_follow_begun|].
  injection Happ as <-. intros H k j r Hr. cbn. apply lookup_insert_is_Some'. right. by apply (H k j).
Qed.
End invariant.

(** ** Reachable stores *)

Section reachability.
Context {SHA : Sha256} {SER : StoreSerde} {OK : StoreSerdeOk} {SET : SerdeErrorText} {DET : StoreErrorText}.
Implicit Types (st : Store) (s : TaskState.t) (e : TaskEvent.t) (L : gmap (Uuid * Uuid) string).

(** One command, or a change of the artifact directory, which the database does
    not own: anything may be put there or lost. *)
Inductive store_step : Store → Store → Prop :=
| store_run c st st' : fresh c st → run c st = Ok st' → store_step st st'
| store_artifacts a st : store_step st (st <| artifacts := a |>).
Definition later : Store → Store → Prop := rtc store_step.
Definition reaches st : Prop := ∃ a, later (mk_store empty_db a) st.

Record store_inv st : Prop := {
  si_db : db_ok (connection st);
  si_task id s head : load_state (connection st) id = Ok (s, head) →
    state_ok s ∧ task_inv id s (leases (connection st));
  si_shells id s head : load_state (connection st) id = Ok (s, head) → shells_open s ∧ shells_begun s;
  si_lease id k : is_Some (leases (connection st) !! (id, k)) →
    ∃ s head, load_state (connection st) id = Ok (s, head);
}.

Lemma si_ready st : store_inv st → ready st.
Proof. intros []. by split. Qed.

Lemma task_inv_frame id s L L' :
  (∀ k, L' !! (id, k) = L !! (id, k)) → task_inv id s L → task_inv id s L'.
Proof. intros HL [H1 H2 H3 H4 H5 H6]. split; try done. intros k. rewrite HL. apply H2. Qed.

Lemma task_step_revision id e a b : task_step id e a b → (TaskState.revision a.1 < u64_MAX)%N.
Proof.
  intros (_ & Happ%apply_revision & Hrev). rewrite Happ in Hrev. unfold u64_succ, u64_MAX in *.
  pose proof (N.mod_lt (TaskState.revision a.1 + 1) (2 ^ 64)). lia.
Qed.

(** A property of one machine step holds of the events of a command. *)
Lemma task_steps_ind' (R : TaskState.t * gmap (Uuid * Uuid) string → TaskState.t * gmap (Uuid * Uuid) string → Prop)
    id es a b :
  (∀ a, R a a) → (∀ a b c, R a b → R b c → R a c) →
  (∀ e a b, task_step id e a b → state_ok a.1 → task_inv id a.1 a.2 → R a b) →
  task_steps id es a b → state_ok a.1 → task_inv id a.1 a.2 →
  state_ok b.1 ∧ task_inv id b.1 b.2 ∧ R a b.
Proof.
  intros Hrefl Htrans Hstep. induction 1 as [a|e es a b c Hab Hbc IH]; [done|]. intros Hok Hinv.
  pose proof (task_step_revision _ _ _ _ Hab) as Hrev.
  pose proof Hab as (Had & Happ & _).
  destruct IH as (? & ? & ?); [by eapply apply_state_ok|by eapply admissible_inv|].
  split_and!; [done|done|]. eapply Htrans; [by eapply Hstep|done].
Qed.

Lemma task_steps_inv id es a b :
  task_steps id es a b → state_ok a.1 → task_inv id a.1 a.2 → state_ok b.1 ∧ task_inv id b.1 b.2.
Proof.
  intros H Ha Hi.
  destruct (task_steps_ind' (λ _ _, True) id es a b) as (? & ? & _); try done.
Qed.

Lemma task_steps_shells id es a b : task_steps id es a b → shells_open a.1 → shells_open b.1.
Proof. induction 1 as [a|e es a b c (Had & Happ & _) Hbc IH]; [done|]. intros H. apply IH. by eapply admissible_shells. Qed.
Lemma task_steps_begun id es a b :
  task_steps id es a b → Forall (λ e, starts_shell e = false) es → shells_begun a.1 → shells_begun b.1.
Proof.
  induction 1 as [a|e es a b c (Had & Happ & _) Hbc IH]; [done|]. intros [He Hes]%Forall_cons H. apply IH; [done|].
  by eapply admissible_begun.
Qed.
(** A command that begins a shell records the intent to adopt its result; the others leave
    every running shell's as it is. *)
Lemma command_begun c id es a b :
  task_steps id es a b → command_events c es → shells_begun a.1 → shells_begun b.1.
Proof.
  intros Hsteps Hes. destruct (decide (Forall (λ e, starts_shell e = false) es)) as [Hall|Hnot]; [by eapply task_steps_begun|].
  assert (∃ s session request input environment job started_ms timeout_ms,
    es = [TaskEvent.ManualStarted (shell_job s session request input environment job started_ms timeout_ms);
          TaskEvent.EffectRecorded (shell_effect request EffectStatus.Intended)])
    as (s & session & request & input & environment & job & started_ms & timeout_ms & ->).
  { destruct c; simpl in Hes; command_events_inv Hes; try (by destruct Hnot; repeat constructor); try (by destruct replace; destruct Hnot; repeat constructor); [by eauto 20|..];
      destruct Hnot; (constructor; [done|]); apply Forall_app; (split; [|by repeat constructor]); apply Forall_fmap, Forall_true; by intros []. }
  intros Hbegun. inversion_clear Hsteps as [|? ? ? b1 ? (Had1 & Happ1 & _) Hrest]. inversion_clear Hrest as [|? ? ? b2 ? (_ & Happ2 & _) Hnil].
  inversion Hnil; subst. clear Hnil. destruct b1 as [s1 L1], b as [s2 L2]. cbn in *.
  assert (Hun : unfinished a.1 = false).
  { remember (TaskEvent.ManualStarted _) as e0 eqn:He in Had1. by destruct Had1; try discriminate He; [subst e0|destruct replace|]. }
  injection Happ1 as <-. injection Happ2 as <-. intros k j r (Hk & Hrun & Hreq). cbn in *.
  apply lookup_insert_Some in Hk as [[_ <-]|[_ Hk]].
  - cbn in Hreq. injection Hreq as <-. rewrite lookup_insert_eq. by eexists.
  - apply (unfinished_none _ _ _ Hun) in Hk. by rewrite Hrun in Hk.
Qed.

Lemma task_steps_leases id es a b other k :
  task_steps id es a b → other ≠ id → b.2 !! (other, k) = a.2 !! (other, k).
Proof.
  intros H Hne. induction H as [a|e es a b c (Had & _ & _) Hbc IH]; [done|].
  rewrite IH. by eapply admissible_others.
Qed.

Lemma load_state_row db id s head : load_state db id = Ok (s, head) → is_Some (tasks db !! id).
Proof. unfold load_state. intros (row & Hrow%ok_or_Ok & _)%rbind_Ok. by exists row. Qed.

Lemma empty_store_inv a : store_inv (mk_store empty_db a).
Proof.
  split; simpl.
  - apply empty_db_ok.
  - intros id s head (row & Hrow)%load_state_row. discriminate Hrow.
  - intros id s head (row & Hrow)%load_state_row. discriminate Hrow.
  - intros id k. rewrite lookup_empty. by intros [].
Qed.

Lemma new_task_shells id request limits at_ms intake input contract :
  let s := TaskState.requested id request limits at_ms intake input <| TaskState.contract := contract |> in
  shells_open s ∧ shells_begun s.
Proof.
  intros s. assert (Hno : ∀ k j r, ¬ runs_shell s k j r) by (intros k j r (Hk & _); unfold s in Hk; cbn in Hk; by rewrite lookup_empty in Hk).
  split; [split|]; (intros k1 k2 j1 j2 r1 r2 Hr || intros k j r f Hr || intros k j r Hr); by destruct (Hno _ _ _ Hr).
Qed.
Lemma creates_shells c id s : creates c id s → shells_open s ∧ shells_begun s.
Proof.
  intros Hc. destruct c as [| | | | | | | | | | | | | | | | | | | | | | | | | | |? ? ? ? [ct|]| | | | |]; try done.
  - destruct Hc as (_ & _ & ->). apply new_task_shells.
  - destruct Hc as (_ & _ & ->). apply new_task_shells.
  - destruct Hc as (_ & _ & _ & _ & ->). apply new_task_shells.
Qed.

Lemma new_task_inv id id' request limits at_ms intake input contract L :
  (∀ k, L !! (id, k) = None) →
  task_inv id (TaskState.requested id' request limits at_ms intake input <| TaskState.contract := contract |>) L.
Proof.
  intros HL. split; cbn; try (intros *; rewrite lookup_empty; discriminate); try (intros v []%elem_of_nil).
  - intros k. rewrite HL. by intros [].
  - constructor.
  - discriminate.
Qed.

Lemma creates_inv c id s L : creates c id s → (∀ k, L !! (id, k) = None) → state_ok s ∧ task_inv id s L.
Proof.
  intros Hc HL. destruct c as [| | | | | | | | | | | | | | | | | | | | | | | | | | |? ? ? ? [ct|]| | | | |]; try done.
  - destruct Hc as (_ & _ & ->). split; [apply created_ok|by apply new_task_inv].
  - destruct Hc as (_ & _ & ->). split; [apply created_ok|by apply new_task_inv].
  - destruct Hc as (_ & _ & _ & _ & ->). split; [apply requested_ok|by apply new_task_inv].
Qed.

Lemma advances_inv st st' id es s s' :
  store_inv st → advances st st' id es s s' → (shells_begun s → shells_begun s') → store_inv st'.
Proof.
  intros [Hdb Htask Hshells Hlease] [[hd Hb] [hd' Ha] Hsteps Hothers _ Hok _] Hbegun.
  destruct (Htask _ _ _ Hb) as [Hsok Hinv]. destruct (Hshells _ _ _ Hb) as [Hopen Hb0].
  destruct (task_steps_inv _ _ _ _ Hsteps Hsok Hinv) as [Hsok' Hinv']. split; [done| | |].
  - intros other s1 h1 H1. destruct (decide (other = id)) as [->|Hne].
    + rewrite Ha in H1. injection H1 as <- <-. done.
    + rewrite Hothers in H1 by done. destruct (Htask _ _ _ H1) as [? Hi]. split; [done|].
      apply (task_inv_frame _ _ (leases (connection st))); [|done].
      intros k. by apply (task_steps_leases _ _ _ _ _ _ Hsteps).
  - intros other s1 h1 H1. destruct (decide (other = id)) as [->|Hne]; [|rewrite Hothers in H1 by done; by eapply Hshells].
    rewrite Ha in H1. injection H1 as <- <-. split; [|by apply Hbegun]. exact (task_steps_shells _ _ _ _ Hsteps Hopen).
  - intros other k Hs. destruct (decide (other = id)) as [->|Hne]; [by eauto|].
    pose proof (task_steps_leases _ _ _ _ other k Hsteps Hne) as HL. simpl in HL. rewrite HL in Hs. rewrite Hothers by done. by eapply Hlease.
Qed.

Lemma created_inv st st' c id s : store_inv st → creates c id s → created_in st st' id s → store_inv st'.
Proof.
  intros [Hdb Htask Hshells Hlease] Hcr [Hnone [hd Hload] Hothers HL _ Hok _].
  split; [done| | |].
  - intros other s1 h1 H1. destruct (decide (other = id)) as [->|Hne].
    + rewrite Hload in H1. injection H1 as <- <-. apply (creates_inv _ _ _ _ Hcr).
      intros k. rewrite HL. apply eq_None_not_Some. intros (s2 & h2 & Hs2%load_state_row)%Hlease.
      rewrite Hnone in Hs2. by destruct Hs2.
    + rewrite Hothers in H1 by done. rewrite HL. by eapply Htask.
  - intros other s1 h1 H1. destruct (decide (other = id)) as [->|Hne].
    + rewrite Hload in H1. injection H1 as <- <-. by eapply creates_shells.
    + rewrite Hothers in H1 by done. by eapply Hshells.
  - intros other k. rewrite HL. intros Hs. destruct (decide (other = id)) as [->|Hne]; [by eauto|].
    rewrite Hothers by done. by eapply Hlease.
Qed.

Lemma store_step_inv st st' : store_step st st' → store_inv st → store_inv st'.
Proof.
  intros [c st1 st2 Hfresh Hrun|a st1] Hinv.
  - destruct (run_spec c st1 st2 (si_ready _ Hinv) Hfresh Hrun) as [[-> _]|[(id & s & Hc & Hcr)|(es & s & s' & Hes & Hav)]].
    + done.
    + by eapply created_inv.
    + eapply advances_inv; [done..|]. exact (command_begun _ _ _ _ _ (av_steps _ _ _ _ _ _ Hav) Hes).
  - destruct Hinv. by split.
Qed.

Lemma later_inv st st' : later st st' → store_inv st → store_inv st'.
Proof. induction 1; eauto using store_step_inv. Qed.

Lemma reaches_inv st : reaches st → store_inv st.
Proof. intros [a H]. eapply later_inv; [done|apply empty_store_inv]. Qed.

(** What a relation on task states needs to hold between a store and a later one. *)
Lemma step_relates (R : TaskState.t → TaskState.t → Prop) st st' id s head :
  (∀ s, R s s) → (∀ s1 s2 s3, R s1 s2 → R s2 s3 → R s1 s3) →
  (∀ e a b, task_step id e a b → state_ok a.1 → task_inv id a.1 a.2 → R a.1 b.1) →
  store_inv st → store_step st st' → load_state (connection st) id = Ok (s, head) →
  ∃ s' head', load_state (connection st') id = Ok (s', head') ∧ R s s'.
Proof.
  intros Hrefl Htrans HR Hinv Hstep Hload. destruct Hstep as [c st1 st2 Hfresh Hrun|a st1]; [|by eauto].
  destruct (run_spec c st1 st2 (si_ready _ Hinv) Hfresh Hrun) as [[-> _]|[(nid & s1 & _ & [Hnone _ Hothers _ _ _ _])|(es & s1 & s2 & _ & Hav)]].
  - eauto.
  - rewrite <-Hothers in Hload; [by eauto|]. intros ->.
    apply load_state_row in Hload. rewrite Hnone in Hload. by destruct Hload.
  - destruct Hav as [[hd Hb] [hd' Ha] Hsteps Hothers _ _ _].
    destruct (decide (id = command_task c)) as [->|Hne]; [|rewrite <-Hothers in Hload by done; eauto].
    rewrite Hload in Hb. injection Hb as <- <-. destruct (si_task _ Hinv _ _ _ Hload) as [Hsok Hi].
    exists s2, hd'. split; [done|].
    destruct (task_steps_ind' (λ a b, R a.1 b.1) _ _ _ _ (λ a, Hrefl a.1) (λ a b c, Htrans a.1 b.1 c.1) HR Hsteps Hsok Hi) as (_ & _ & ?). done.
Qed.

Lemma later_relates (R : TaskState.t → TaskState.t → Prop) st st' id s head :
  (∀ s, R s s) → (∀ s1 s2 s3, R s1 s2 → R s2 s3 → R s1 s3) →
  (∀ e a b, task_step id e a b → state_ok a.1 → task_inv id a.1 a.2 → R a.1 b.1) →
  store_inv st → later st st' → load_state (connection st) id = Ok (s, head) →
  ∃ s' head', load_state (connection st') id = Ok (s', head') ∧ R s s'.
Proof.
  intros Hrefl Htrans HR Hinv Hl. revert s head. induction Hl as [st|st1 st2 st3 H1 Hl IH]; intros s head Hload.
  - eauto.
  - destruct (step_relates R _ _ _ _ _ Hrefl Htrans HR Hinv H1 Hload) as (s2 & h2 & Hload2 & HR2).
    destruct (IH (store_step_inv _ _ H1 Hinv) _ _ Hload2) as (s3 & h3 & Hload3 & HR3). eauto.
Qed.
End reachability.
