(* ===== verification/Guarantees.v ===== *)
(** * What the task store guarantees

    The properties of commands and of stores reached by commands: refinement of
    the guarded machine, the invariant, who may complete a task, optimistic
    concurrency, terminal tasks, facts that are final, leases used once,
    accounting, job capacity and recovery. *)

From S2P Require Import Prelude Digest Codec Artifacts Contract State Completion Workspace.
From S2P Require Import Input ArtifactGraph Journal Codecs Replay Store StoreTasks Commands Refinement Invariant.

(** ** Facts that are final *)

(** A job keeps what it was admitted as; once resolved it is never touched, and
    one that is not running never runs again. *)
Record job_follows (j j' : Job.t) : Prop := {
  jf_identity : Job.id j' = Job.id j ∧ Job.generation j' = Job.generation j ∧
    Job.mutates_candidate j' = Job.mutates_candidate j ∧ Job.check j' = Job.check j ∧
    Job.identity j' = Job.identity j ∧ Job.started_ms j' = Job.started_ms j ∧
    Job.deadline_ms j' = Job.deadline_ms j ∧ Job.invocation j' = Job.invocation j;
  jf_final : JobStatus.unresolved (Job.status j) = false → j' = j;
  jf_stopped : Job.status j ≠ JobStatus.Running → Job.status j' ≠ JobStatus.Running;
}.

(** An effect keeps its intent; once settled it is never touched. *)
Record effect_follows (f f' : Effect.t) : Prop := {
  ef_identity : Effect.description f' = Effect.description f ∧ Effect.idempotent f' = Effect.idempotent f;
  ef_final : unsettled_effect f = false → f' = f;
}.

(** A provider receipt keeps its known facts; once both are known it is never
    touched. *)
Record receipt_follows (r r' : ModelCallReceipt.t) : Prop := {
  rf_tokens : ModelCallReceipt.tokens r ≠ None → ModelCallReceipt.tokens r' = ModelCallReceipt.tokens r;
  rf_status : ModelCallReceipt.status r ≠ ModelCallStatus.Unknown →
    ModelCallReceipt.status r' = ModelCallReceipt.status r;
  rf_final : ModelCallReceipt.tokens r ≠ None → ModelCallReceipt.status r ≠ ModelCallStatus.Unknown → r' = r;
}.

Lemma job_follows_refl j : job_follows j j.
Proof. by split. Qed.
Lemma effect_follows_refl f : effect_follows f f.
Proof. by split. Qed.
Lemma receipt_follows_refl r : receipt_follows r r.
Proof. by split. Qed.
#[export] Hint Resolve job_follows_refl effect_follows_refl receipt_follows_refl : orvek.

(** What a later state of a task keeps. *)
Record keeps (s s' : TaskState.t) : Prop := {
  kp_jobs k j : TaskState.jobs s !! k = Some j →
    ∃ j', TaskState.jobs s' !! k = Some j' ∧ job_follows j j';
  kp_effects k f : TaskState.effects s !! k = Some f →
    ∃ f', TaskState.effects s' !! k = Some f' ∧ effect_follows f f';
  kp_receipts k r : TaskState.model_receipts s !! k = Some r →
    ∃ r', TaskState.model_receipts s' !! k = Some r' ∧ receipt_follows r r';
  kp_accounts k : is_Some (TaskState.usage_receipts s !! k) ∨ k ∈ TaskState.model_reservations s →
    TaskState.usage_receipts s' !! k = TaskState.usage_receipts s !! k ∧
    (k ∈ TaskState.model_reservations s' ↔ k ∈ TaskState.model_reservations s);
  kp_evidence : TaskState.evidence s `prefix_of` TaskState.evidence s';
  kp_certificates : TaskState.certificates s `prefix_of` TaskState.certificates s';
}.

Lemma job_follows_trans j1 j2 j3 : job_follows j1 j2 → job_follows j2 j3 → job_follows j1 j3.
Proof.
  intros [H1 F1 S1] [H2 F2 S2]. split; [intuition congruence| |by auto].
  intros Hu. specialize (F1 Hu). subst j2. by apply F2.
Qed.
Lemma effect_follows_trans f1 f2 f3 : effect_follows f1 f2 → effect_follows f2 f3 → effect_follows f1 f3.
Proof.
  intros [H1 F1] [H2 F2]. split; [intuition congruence|].
  intros Hu. specialize (F1 Hu). subst f2. by apply F2.
Qed.
Lemma receipt_follows_trans r1 r2 r3 :
  receipt_follows r1 r2 → receipt_follows r2 r3 → receipt_follows r1 r3.
Proof.
  intros [T1 S1 F1] [T2 S2 F2]. split.
  - intros H. specialize (T1 H). rewrite T2; congruence.
  - intros H. specialize (S1 H). rewrite S2; congruence.
  - intros Ht Hs. specialize (F1 Ht Hs). subst r2. by apply F2.
Qed.

Lemma keeps_refl (s : TaskState.t) : keeps s s.
Proof. split; eauto with orvek. Qed.

Lemma keeps_trans (s1 s2 s3 : TaskState.t) : keeps s1 s2 → keeps s2 s3 → keeps s1 s3.
Proof.
  intros [J1 E1 R1 A1 V1 C1] [J2 E2 R2 A2 V2 C2]. split; [..|by etrans|by etrans].
  - intros k j Hj. destruct (J1 _ _ Hj) as (j2 & Hj2 & ?). destruct (J2 _ _ Hj2) as (j3 & ? & ?).
    eauto using job_follows_trans.
  - intros k j Hj. destruct (E1 _ _ Hj) as (j2 & Hj2 & ?). destruct (E2 _ _ Hj2) as (j3 & ? & ?).
    eauto using effect_follows_trans.
  - intros k j Hj. destruct (R1 _ _ Hj) as (j2 & Hj2 & ?). destruct (R2 _ _ Hj2) as (j3 & ? & ?).
    eauto using receipt_follows_trans.
  - intros k Hk. destruct (A1 k Hk) as [Hu Hr]. destruct (A2 k) as [Hu' Hr'].
    { by rewrite Hu, Hr. }
    by rewrite Hu', Hr', Hu, Hr.
Qed.

(** ** One step of the machine *)

Section steps.
Context {SHA : Sha256} {SER : StoreSerde} {OK : StoreSerdeOk} {SET : SerdeErrorText} {DET : StoreErrorText}.
Implicit Types (st : Store) (s : TaskState.t) (e : TaskEvent.t) (L : gmap (Uuid * Uuid) string).

(** The tables an event leaves as they are. *)
Definition same_tables s s' : Prop :=
  TaskState.jobs s' = TaskState.jobs s ∧ TaskState.effects s' = TaskState.effects s ∧
  TaskState.model_receipts s' = TaskState.model_receipts s ∧
  TaskState.usage_receipts s' = TaskState.usage_receipts s ∧
  TaskState.model_reservations s' = TaskState.model_reservations s.

Lemma keeps_tables s s' : same_tables s s' → extends s s' → keeps s s'.
Proof.
  intros (Hj & He & Hm & Hu & Hr) [Hv Hc _ _ _ _ _ _ _ _].
  split; rewrite ?Hj, ?He, ?Hm, ?Hu, ?Hr;
    eauto with orvek.
Qed.

Lemma keeps_jobs s s' k f :
  TaskState.jobs s' = alter f k (TaskState.jobs s) →
  (∀ j, TaskState.jobs s !! k = Some j → job_follows j (f j)) →
  same_tables s (s' <| TaskState.jobs := TaskState.jobs s |>) → extends s s' → keeps s s'.
Proof.
  intros Hj Hf (_ & He & Hm & Hu & Hr) [Hv Hc _ _ _ _ _ _ _ _]. cbn in *.
  split; rewrite ?He, ?Hm, ?Hu, ?Hr; eauto with orvek.
  intros k' j Hk. rewrite Hj. destruct (decide (k = k')) as [<-|Hne].
  - rewrite lookup_alter_eq, Hk. eauto.
  - rewrite lookup_alter_ne by done. eauto with orvek.
Qed.

Lemma keeps_new_job s s' j :
  TaskState.jobs s' = <[Job.id j := j]> (TaskState.jobs s) → TaskState.jobs s !! Job.id j = None →
  same_tables s (s' <| TaskState.jobs := TaskState.jobs s |>) → extends s s' → keeps s s'.
Proof.
  intros Hj Hnew (_ & He & Hm & Hu & Hr) [Hv Hc _ _ _ _ _ _ _ _]. cbn in *.
  split; rewrite ?He, ?Hm, ?Hu, ?Hr; eauto with orvek.
  intros k' j' Hk. rewrite Hj, lookup_insert_ne by congruence. eauto with orvek.
Qed.

Lemma admissible_keeps id s L L' e s' :
  admissible id s L L' e → TaskState.apply s e = Ok s' → keeps s s'.
Proof.
  intros Had Happ. pose proof (apply_extends_aux _ _ _ Happ) as Hext.
  unfold TaskState.apply in Happ. apply rbind_Ok in Happ as (s1 & Happ & [= <-]).
  destruct Had as [e Hopen Hnone|reason Ho|reason Ho|operation u Hu Hm|operation Hu Hm Ho Hcan _ _
    |j Ho Hj Hr Hgen Hsh|j token Ho Hj Hr Hgen Hch Hi Hl Hsh|j v Ho Hj Hr Hgen Hvg Hch Hi Hl|k j status receipt Hj Hun Hnr Hnf _
    |k j receipt Hj Hun|f Hf Hst Ho Hsh|f f0 Hf Hun Hd Hi Hsh|operation receipt Hop Hw|cert now Ho Hcert|o reason Hne Ho|reason Ho
    |c receipt Ho Hp Hret|request input replace|request reason Hd Hun|j shell Hun Hj Hr Hch Hsh Hf|k j shell status receipt (Hj & Hr & Hsh) Hch Hnr Hnf
    |k j shell f source environment origin Hj Hsh Hr Hf Hun|k j shell f Hj Hsh Hr Hf Hun|c basis receipt Ho Hn _ _].
  - apply keeps_tables; [|done].
    destruct e; try discriminate Hopen; cbn [TaskState.apply_event] in Happ;
      try (apply rbind_Ok in Happ as (s2 & Hp & Happ); unfold TaskState.push_history in Hp;
           destruct (TaskState.contract s); [apply rbind_Ok in Hp as (? & _ & Hp)|]; injection Hp as <-);
      injection Happ as <-; unfold TaskState.invalidate; repeat split; reflexivity.
  - injection Happ as <-. apply keeps_tables; [repeat split; reflexivity|done].
  - injection Happ as <-. apply keeps_tables; [repeat split; reflexivity|done].
  - cbn [TaskState.apply_event] in Happ. injection Happ as <-. destruct Hext as [Hv Hc _ _ _ _ _ _ _ _].
    revert Hv Hc.
    match goal with |- context [if ?b then TaskState.withdraw _ _ else _] => destruct b end;
      unfold TaskState.withdraw, TaskState.invalidate; intros Hv Hc; split; cbn;
      eauto with orvek;
      intros k Hk; (rewrite lookup_insert_ne; [done|]); intros ->; rewrite Hu in Hk; by destruct Hk as [[]|].
  - injection Happ as <-. destruct Hext as [Hv Hc _ _ _ _ _ _ _ _].
    split; cbn; eauto with orvek.
    intros k Hk. split; [done|]. rewrite elem_of_union, elem_of_singleton. split; [|by right].
    intros [->|?]; [|done]. rewrite Hu in Hk. by destruct Hk as [[]|].
  - injection Happ as <-. by apply (keeps_new_job _ _ j).
  - injection Happ as <-. by apply (keeps_new_job _ _ j).
  - injection Happ as <-. eapply keeps_jobs; [reflexivity| |repeat split; reflexivity|done].
    intros j' Hj'. assert (j' = j) as -> by congruence. split; cbn; [done|by rewrite Hr|done].
  - injection Happ as <-. eapply keeps_jobs; [reflexivity| |repeat split; reflexivity|done].
    intros j' Hj'. assert (j' = j) as -> by congruence. split; cbn; [done|by rewrite Hun|done].
  - injection Happ as <-. eapply keeps_jobs; [reflexivity| |repeat split; reflexivity|done].
    intros j' Hj'. assert (j' = j) as -> by congruence. split; cbn; [done|by rewrite Hun|done].
  - injection Happ as <-. destruct Hext as [Hv Hc _ _ _ _ _ _ _ _].
    split; cbn; eauto with orvek.
    intros k f' Hk. rewrite lookup_insert_ne by congruence. eauto with orvek.
  - injection Happ as <-. destruct Hext as [Hv Hc _ _ _ _ _ _ _ _].
    split; cbn; eauto with orvek.
    intros k f' Hk. destruct (decide (Effect.operation_id f = k)) as [<-|Hne].
    + rewrite lookup_insert_eq. exists f. split; [done|]. assert (f' = f0) as -> by congruence.
      split; [done|by rewrite Hun].
    + rewrite lookup_insert_ne by done. eauto with orvek.
  - cbn [TaskState.apply_event] in Happ. injection Happ as <-. destruct Hext as [Hv Hc _ _ _ _ _ _ _ _].
    assert (Hreceipts : ∀ k r, TaskState.model_receipts s !! k = Some r → ∃ r',
      <[operation := receipt]> (TaskState.model_receipts s) !! k = Some r' ∧ receipt_follows r r').
    { intros k r Hk. destruct (decide (operation = k)) as [<-|Hne].
      - rewrite lookup_insert_eq. exists receipt. split; [done|]. specialize (Hw _ Hk). unfold rewrites_receipt in Hw.
        apply orb_false_iff in Hw as [[H1%andb_false_iff H2%andb_false_iff]%orb_false_iff H3%andb_false_iff].
        rewrite !bool_decide_eq_false in H1, H2, H3.
        split; intros; destruct H1 as [H1|H1], H2 as [H2|H2], H3 as [H3|H3]; try done;
          try (symmetry; by apply dec_stable).
      - rewrite lookup_insert_ne by done. eauto with orvek. }
    revert Hv Hc.
    match goal with |- context [if ?b then TaskState.withdraw _ _ else _] => destruct b end;
      unfold TaskState.withdraw, TaskState.invalidate; intros Hv Hc; split; cbn;
      eauto with orvek.
  - injection Happ as <-. apply keeps_tables; [repeat split; reflexivity|done].
  - injection Happ as <-. apply keeps_tables; [repeat split; reflexivity|done].
  - injection Happ as <-. destruct Hext as [Hv Hc _ _ _ _ _ _ _ _].
    split; cbn; eauto with orvek.
    + intros k j Hk. rewrite lookup_fmap, Hk. exists (TaskState.interrupt_job j). split; [done|].
      unfold TaskState.interrupt_job. case_bool_decide as Hrun; [|apply job_follows_refl].
      split; cbn; [done|by rewrite Hrun|done].
    + intros k f Hk. rewrite lookup_fmap, Hk. exists (TaskState.interrupt_effect f). split; [done|].
      unfold TaskState.interrupt_effect. case_bool_decide as Hint; [|apply effect_follows_refl].
      split; cbn; [done|unfold unsettled_effect; by rewrite Hint].
  - apply keeps_tables; [|done]. cbn [TaskState.apply_event] in Happ.
    apply rbind_Ok in Happ as (s2 & Hpush & Happ); unfold TaskState.push_history in Hpush.
    destruct (TaskState.contract s); [apply rbind_Ok in Hpush as (? & _ & Hpush)|]; injection Hpush as <-;
      injection Happ as <-; repeat split; reflexivity.
  - destruct replace; injection Happ as <-; (apply keeps_tables; [repeat split; reflexivity|done]).
  - injection Happ as <-. apply keeps_tables; [repeat split; reflexivity|done].
  - injection Happ as <-. by apply (keeps_new_job _ _ j).
  - injection Happ as <-. eapply keeps_jobs; [reflexivity| |repeat split; reflexivity|done].
    intros j' Hj'. assert (j' = j) as -> by congruence. split; cbn; [done|by rewrite Hr|done].
  - injection Happ as <-. apply keeps_tables; [repeat split; reflexivity|done].
  - injection Happ as <-. apply keeps_tables; [repeat split; reflexivity|done].
  - injection Happ as <-. apply keeps_tables; [repeat split; reflexivity|done].
Qed.

(** A terminal task is frozen until it is reopened: late settlements and late
    accounting may only withdraw a completion. *)
Record frozen s s' : Prop := {
  fz_kept : TaskState.contract s' = TaskState.contract s ∧ TaskState.candidate s' = TaskState.candidate s ∧
    TaskState.baseline s' = TaskState.baseline s ∧ TaskState.phase s' = TaskState.phase s ∧
    TaskState.evidence s' = TaskState.evidence s ∧ TaskState.findings s' = TaskState.findings s ∧
    TaskState.certificates s' = TaskState.certificates s ∧
    TaskState.contract_history s' = TaskState.contract_history s ∧
    TaskState.cancellation_requested s' = TaskState.cancellation_requested s;
  fz_outcome :
    (TaskState.outcome s' = TaskState.outcome s ∧ TaskState.generation s' = TaskState.generation s ∧
       TaskState.delivery s' = TaskState.delivery s) ∨
    (TaskState.outcome s = Some Outcome.Complete ∧
       (TaskState.outcome s' = Some Outcome.Blocked ∨ TaskState.outcome s' = Some Outcome.BudgetExhausted) ∧
       TaskState.delivery s' = None);
  fz_jobs : dom (TaskState.jobs s') = dom (TaskState.jobs s);
}.

Lemma frozen_refl s : frozen s s.
Proof. split; [done|by left|done]. Qed.
(** The events by which a user, or a shell of the user, works on a task again. *)
Definition reopens e : bool :=
  match e with
  | TaskEvent.Reopened _ | TaskEvent.DirectiveReceived _ _ | TaskEvent.DirectiveReplaced _ _
  | TaskEvent.ManualStarted _ | TaskEvent.ManualWorkspace _ _ | TaskEvent.Stopped _ _ => true
  | _ => false
  end.
(** The commands that take up a task again. *)
Definition takes_up (c : Command.t) : bool :=
  match c with
  | Command.Reopen _ _ _ | Command.Resume _ _ _ _ | Command.Direct _ _ _ _ | Command.Continue _ _ _ _ _
  | Command.BeginShell _ _ _ _ _ _ _ _ | Command.FinishShell _ _ _ _ _ _ _ _ => true
  | _ => false
  end.

Lemma admissible_frozen id s L L' e s' :
  admissible id s L L' e → TaskState.apply s e = Ok s' → TaskState.outcome s ≠ None →
  reopens e = false → frozen s s'.
Proof.
  intros Had Happ Hterm Hre. unfold TaskState.apply in Happ.
  apply rbind_Ok in Happ as (s1 & Happ & [= <-]).
  destruct Had; try done; try (by destruct replace); cbn [TaskState.apply_event] in Happ; injection Happ as <-;
    try match goal with |- context [if ?b then TaskState.withdraw _ _ else _] => destruct b eqn:Hb end;
    unfold TaskState.withdraw, TaskState.invalidate;
    (split; cbn; [done| |rewrite ?dom_alter_L; done]); try (by left); right; auto.
  - apply andb_true_iff in Hb as [Hb%bool_decide_eq_true _]. auto.
  - apply andb_true_iff in Hb as [Hb%bool_decide_eq_true _]. auto.
Qed.

Definition completes e : bool := match e with TaskEvent.Completed _ => true | _ => false end.

(** Only the evaluator's verdict makes a task complete. *)
Lemma admissible_completes id s L L' e s' :
  admissible id s L L' e → TaskState.apply s e = Ok s' →
  TaskState.outcome s' = Some Outcome.Complete → TaskState.outcome s ≠ Some Outcome.Complete →
  completes e = true.
Proof.
  intros Had Happ Ho' Ho. unfold TaskState.apply in Happ.
  apply rbind_Ok in Happ as (s1 & Happ & [= <-]). cbn in Ho'. revert Ho'.
  destruct Had as [e Hopen Hnone|reason Hs|reason Hs|operation u Hu Hm|operation Hu Hm Hs Hcan _ _
    |j Hs Hj Hr Hgen Hsh|j token Hs Hj Hr Hgen Hch Hi Hl Hsh|j v Hs Hj Hr Hgen Hvg Hch Hi Hl|k j status receipt Hj Hun Hnr Hnf _
    |k j receipt Hj Hun|f Hf Hst Hs Hsh|f f0 Hf Hun Hd Hi Hsh|operation receipt Hop Hw|cert now Hs Hcert|o reason Hne Hs|reason Hs
    |c receipt Hs Hp Hret|request input replace|request reason Hd Hun|j shell Hun Hj Hr Hch Hsh Hf|k j shell status receipt (Hj & Hr & Hsh) Hch Hnr Hnf
    |k j shell f source environment origin Hj Hsh Hr Hf Hun|k j shell f Hj Hsh Hr Hf Hun|c basis receipt Hs Hn _ _];
    try (cbn [TaskState.apply_event] in Happ; injection Happ as <-;
      try match goal with |- context [if ?b then TaskState.withdraw _ _ else _] => destruct b eqn:Hb end;
      unfold TaskState.withdraw, TaskState.invalidate; cbn; try congruence; try done).
  - destruct e; try discriminate Hopen; cbn [TaskState.apply_event] in Happ;
      try (apply rbind_Ok in Happ as (s2 & Hp & Happ); unfold TaskState.push_history in Hp;
           destruct (TaskState.contract s); [apply rbind_Ok in Hp as (? & _ & Hp)|]; injection Hp as <-);
      injection Happ as <-; unfold TaskState.invalidate; cbn; congruence.
  - by destruct (TaskState.cancellation_requested s).
  - cbn [TaskState.apply_event] in Happ.
    apply rbind_Ok in Happ as (s2 & Hpush & Happ); unfold TaskState.push_history in Hpush.
    destruct (TaskState.contract s); [apply rbind_Ok in Hpush as (? & _ & Hpush)|]; injection Hpush as <-;
      injection Happ as <-; unfold TaskState.invalidate; cbn; congruence.
  - by destruct replace; injection Happ as <-.
Qed.
End steps.

(** ** Lemmas on commands *)

Section lemmas.
Context {SHA : Sha256} {SER : StoreSerde} {OK : StoreSerdeOk} {SET : SerdeErrorText} {DET : StoreErrorText}.
Implicit Types (st : Store) (s : TaskState.t) (e : TaskEvent.t) (L : gmap (Uuid * Uuid) string).

Lemma task_steps_frozen id es a b :
  task_steps id es a b → Forall (λ e, reopens e = false) es → TaskState.outcome a.1 ≠ None →
  frozen a.1 b.1 ∧ TaskState.outcome b.1 ≠ None.
Proof.
  induction 1 as [a|e es a b c (Had & Happ & _) Hbc IH]; intros Hes Ho; [split; [apply frozen_refl|done]|].
  inversion_clear Hes as [|? ? He Hes']. pose proof (admissible_frozen _ _ _ _ _ _ Had Happ Ho He) as Hf.
  assert (TaskState.outcome b.1 ≠ None) as Hb.
  { destruct (fz_outcome _ _ Hf) as [(-> & _)|(_ & [->| ->] & _)]; done. }
  destruct (IH Hes' Hb) as [Hf' Hc]. split; [|done].
  destruct Hf as [K1 O1 J1], Hf' as [K2 O2 J2]. split; [intuition congruence| |congruence].
  destruct O2 as [(Oo & Og & Od)|(Oo & Ow & Od)].
  - destruct O1 as [(? & ? & ?)|(? & ? & ?)]; [left|right]; rewrite ?Oo, ?Og, ?Od; split_and!; congruence || done.
  - destruct O1 as [(O1 & _)|(_ & O1 & _)]; [right|]; rewrite Oo in O1.
    + split_and!; done || congruence.
    + by destruct O1.
Qed.

Lemma task_steps_completes id es a b :
  task_steps id es a b → TaskState.outcome b.1 = Some Outcome.Complete →
  TaskState.outcome a.1 ≠ Some Outcome.Complete → Exists (λ e, completes e = true) es.
Proof.
  induction 1 as [a|e es a b c (Had & Happ & _) Hbc IH]; intros Hc Ha; [done|].
  destruct (decide (TaskState.outcome b.1 = Some Outcome.Complete)) as [Hb|Hb].
  - left. by eapply admissible_completes.
  - right. by apply IH.
Qed.

Lemma task_steps_count id es a b :
  task_steps id es a b → TaskState.revision b.1 = (TaskState.revision a.1 + N.of_nat (length es))%N.
Proof.
  induction 1 as [a|e es a b c (_ & _ & Hr) Hbc IH]; [simpl; lia|]. rewrite IH, Hr. simpl. lia.
Qed.

Lemma command_events_nonempty c es : command_events c es → es ≠ [].
Proof. destruct c; naive_solver. Qed.

Lemma command_completes c es :
  command_events c es → Exists (λ e, completes e = true) es → ∃ id r now, c = Command.Complete id r now.
Proof.
  destruct c; simpl; intros Hc He; try (by eauto); exfalso; command_events_inv Hc;
    try match goal with b : bool |- _ => destruct b end;
    try destruct (shell_result _ _ _) as [[]|];
    simpl in He; rewrite ?Exists_cons, ?Exists_nil in He; simpl in He; naive_solver.
Qed.

Lemma command_reopens c es :
  command_events c es → takes_up c = false → (∀ id r o reason, c ≠ Command.Stop id r o reason) →
  Forall (λ e, reopens e = false) es.
Proof.
  destruct c; simpl; intros Hc Hre Hstop; try done; command_events_inv Hc; try done; repeat constructor.
  exfalso. by eapply Hstop.
Qed.

(** What a store that a command changed has for the command's task. *)
Lemma run_task c st st' s s' head head' :
  ready st → fresh c st → run c st = Ok st' →
  load_state (connection st) (command_task c) = Ok (s, head) →
  load_state (connection st') (command_task c) = Ok (s', head') →
  (st' = st ∧ s' = s ∧ expected_revision c = None) ∨
  ∃ es, command_events c es ∧ advances st st' (command_task c) es s s'.
Proof.
  intros Hok Hfresh Hrun H1 H2.
  destruct (run_spec c st st' Hok Hfresh Hrun) as [[-> Hr]|[(id & s0 & Hcr & Hc)|(es & s1 & s2 & Hes & Hav)]].
  - left. rewrite H1 in H2. by injection H2.
  - apply load_state_row in H1. rewrite (creates_task _ _ _ Hcr), (ci_none _ _ _ _ Hc) in H1. by destruct H1.
  - right. exists es. split; [done|]. pose proof Hav as [[h1 Hb] [h2 Ha] _ _ _ _ _]. congruence.
Qed.

(** The other tasks. *)
Lemma run_others c st st' id s head :
  ready st → fresh c st → run c st = Ok st' → id ≠ command_task c →
  load_state (connection st') id = Ok (s, head) ↔ load_state (connection st) id = Ok (s, head).
Proof.
  intros Hok Hfresh Hrun Hne.
  destruct (run_spec c st st' Hok Hfresh Hrun) as [[-> Hr]|[(nid & s0 & Hcr & Hc)|(es & s1 & s2 & Hes & Hav)]].
  - done.
  - rewrite (ci_others _ _ _ _ Hc); [done|]. by rewrite <-(creates_task _ _ _ Hcr).
  - by rewrite (av_others _ _ _ _ _ _ Hav).
Qed.

Lemma stop_open st id r o reason st' s head :
  run (Command.Stop id r o reason) st = Ok st' → load_state (connection st) id = Ok (s, head) →
  TaskState.outcome s = None.
Proof.
  cbn [run]. intros ([st1 s1] & H & _)%rbind_Ok Hl. unfold stop, change in H.
  do 2 (apply rbind_Ok in H as ([] & _ & H)). rewrite Hl in H. cbn [rbind] in H.
  apply rbind_Ok in H as ([] & _ & H). apply rbind_Ok in H as ([] & Ho%reject_if_Ok & _).
  apply bool_decide_eq_false in Ho. by apply dec_stable.
Qed.

(** Accounting: what a successful call has recorded. *)
Definition accounted s (operation : Uuid) (usage : option Usage.t) : Prop :=
  TaskState.usage_receipts s !! operation = usage ∧
  (usage = None → operation ∈ TaskState.model_reservations s).

Lemma account_usage_again st id operation usage usage' now s head :
  load_state (connection st) id = Ok (s, head) → accounted s operation usage →
  account_usage st id operation usage' now =
    if decide (usage' = usage) then Ok (st, s) else
      Err (StoreError.Invalid (if usage then "accounting operation ID reused with different input"
                               else "reservation ID reused for usage receipt")).
Proof.
  intros Hload [Hu Hr]. unfold account_usage. rewrite Hload. simpl. rewrite Hu. destruct usage as [u|].
  - repeat case_decide || case_bool_decide; congruence.
  - rewrite bool_decide_true by auto. by repeat case_decide || case_bool_decide.
Qed.

Lemma eta_leases (db : Db) : db <| leases := leases db |> = db.
Proof. by destruct db. Qed.

Lemma account_usage_records st id operation usage now st' s' :
  db_ok (connection st) → account_usage st id operation usage now = Ok (st', s') →
  (∃ head, load_state (connection st') id = Ok (s', head)) ∧ accounted s' operation usage.
Proof.
  intros Hok H. unfold account_usage in H. apply rbind_Ok in H as ([s head] & Hload & H).
  destruct (TaskState.usage_receipts s !! operation) as [previous|] eqn:Hprev.
  { destruct (bool_decide _) eqn:Hb; [|done]. injection H as <- <-. apply bool_decide_eq_true in Hb as ->.
    split; [by exists head|]. by split. }
  destruct (bool_decide (operation ∈ _)) eqn:Hin.
  { destruct (bool_decide (usage = None)) eqn:Hb; [|done]. injection H as <- <-.
    apply bool_decide_eq_true in Hb as ->. apply bool_decide_eq_true in Hin.
    split; [by exists head|]. by split. }
  apply rbind_Ok in H as (e & He & H). unfold commit_event in H.
  apply rbind_Ok in H as ([db s1] & Happ & [= <- ->]).
  assert (e = accounting operation usage) as ->.
  { destruct usage; [by injection He as <-|].
    do 2 (apply rbind_Ok in He as ([] & _ & He)). by injection He as <-. }
  rewrite <-(eta_leases (connection st)) in Happ.
  destruct (append_transaction _ _ _ _ _ _ _ _ _ Hok eq_refl Hload Happ) as [_ Ha Hap _ _ _ _ _ _ _].
  split; [done|]. unfold TaskState.apply in Hap. apply rbind_Ok in Hap as (s1 & Hap & [= <-]).
  destruct usage as [u|]; cbn [accounting TaskState.apply_event] in Hap; injection Hap as <-.
  - match goal with |- context [if ?b then TaskState.withdraw _ _ else _] => destruct b end;
      unfold TaskState.withdraw, TaskState.invalidate; split; cbn; try done; apply lookup_insert_eq.
  - split; cbn; [done|set_solver].
Qed.

(** Leases: a check that reported has ended its job. *)
Lemma finish_check_ends st lease observation now st' s' :
  db_ok (connection st) → finish_check st lease observation now = Ok (st', s') →
  (∃ head, load_state (connection st') (VerificationLease.task lease) = Ok (s', head)) ∧
  ∃ j, TaskState.jobs s' !! VerificationLease.job lease = Some j ∧ Job.status j ≠ JobStatus.Running.
Proof.
  intros Hok H. destruct (finish_check_advances _ _ _ _ _ _ Hok H) as (s & v & Hv & _ & _ & Hav).
  destruct Hav as [_ Ha Hsteps _ _ _ _]. split; [done|].
  inversion_clear Hsteps as [|? ? ? [s1 L1] ? Hstep Hnil]. inversion Hnil; subst. clear Hnil.
  destruct Hstep as (Had & Happ & _). simpl in Had, Happ. unfold TaskState.apply in Happ.
  apply rbind_Ok in Happ as (s1' & Happ & [= <-]). cbn [TaskState.apply_event] in Happ. injection Happ as <-.
  inversion Had as [| | | | | | |j v' Ho Hj _ _ _ _ _ _| | | | | | | | | |? ? replace HL Hd| | | | | |];
    [done| |by destruct replace]. subst v'.
  exists (j <| Job.status := TaskState.observed_status (Evidence.observation v) |>). cbn.
  rewrite <-Hv, lookup_alter_eq, Hj. split; [done|]. apply observed_not_running.
Qed.

Lemma finish_check_refused st lease observation now s head j :
  store_inv st → load_state (connection st) (VerificationLease.task lease) = Ok (s, head) →
  TaskState.jobs s !! VerificationLease.job lease = Some j → Job.status j ≠ JobStatus.Running →
  finish_check st lease observation now =
    Err (if decide (TaskState.outcome s = None) then StoreError.Lease else StoreError.Terminal).
Proof.
  intros Hinv Hload Hj Hr. destruct (si_task _ Hinv _ _ _ Hload) as [_ Hi].
  unfold finish_check, change. rewrite Hload. simpl. case_decide as Ho.
  - rewrite bool_decide_false by (intros H; by apply H). simpl.
    destruct (leases (connection st) !! _) as [t|] eqn:Hl.
    + destruct (ti_lease _ _ _ Hi (VerificationLease.job lease)) as (j' & Hj' & Hr' & _); [by eexists|]. congruence.
    + by rewrite bool_decide_true.
  - by rewrite bool_decide_true.
Qed.

(** Job capacity. *)
Definition unresolved_count s : N :=
  N.of_nat (length (base.filter (λ j, unresolved_job j = true) (btree_values (TaskState.jobs s)))).

Lemma unresolved_count_insert s s' j :
  TaskState.jobs s !! Job.id j = None → TaskState.jobs s' = <[Job.id j := j]> (TaskState.jobs s) →
  (unresolved_count s' ≤ unresolved_count s + 1)%N.
Proof.
  intros Hnew Hj. unfold unresolved_count, btree_values. rewrite Hj.
  assert (Hperm : (btree_iter (<[Job.id j := j]> (TaskState.jobs s))).*2 ≡ₚ j :: (btree_iter (TaskState.jobs s)).*2).
  { rewrite !btree_iter_perm, map_to_list_insert by done. done. }
  rewrite Hperm, filter_cons. case_decide; simpl; lia.
Qed.

Lemma admit_job_Ok s now :
  admit_job s now = Ok tt → TaskState.cancellation_requested s = false ∧
  (saturating_sub now (TaskState.started_ms s) < Limits.elapsed_ms (TaskState.limits s))%N ∧
  (unresolved_count s < Limits.concurrent_jobs (TaskState.limits s))%N.
Proof.
  unfold admit_job, unresolved_count. intros ([] & Hc%reject_if_Ok & H)%rbind_Ok.
  apply rbind_Ok in H as ([] & He%reject_if_Ok%N.leb_gt & Hn%reject_if_Ok%N.leb_gt). done.
Qed.

Lemma starts_admitted c st st' es j :
  command_events c es → es = [TaskEvent.JobStarted j] → run c st = Ok st' →
  ∃ s head now, load_state (connection st) (command_task c) = Ok (s, head) ∧ admit_job s now = Ok tt.
Proof.
  destruct c; simpl; intros Hc He; try done; command_events_inv Hc; try discriminate;
    try (by destruct replace).
  - intros ([st1 r] & Hx & _)%rbind_Ok. unfold begin_check, change in Hx.
    apply rbind_Ok in Hx as ([st2 s2] & Hx & _). apply rbind_Ok in Hx as ([s head] & Hload & Hx).
    do 2 (apply rbind_Ok in Hx as ([] & _ & Hx)). apply rbind_Ok in Hx as ([db e] & Hop & _).
    apply rbind_Ok in Hop as ([] & _ & Hop). apply rbind_Ok in Hop as ([] & Hadm & _). by exists s, head, now.
  - intros ([st1 r] & Hx & _)%rbind_Ok. unfold start_job_with, change in Hx.
    apply rbind_Ok in Hx as ([st2 s2] & Hx & _). apply rbind_Ok in Hx as ([s head] & Hload & Hx).
    do 2 (apply rbind_Ok in Hx as ([] & _ & Hx)). apply rbind_Ok in Hx as ([db e] & Hop & _).
    apply rbind_Ok in Hop as ([] & Hadm & _). by exists s, head, now.
Qed.

(** Recovery: what one restart leaves of a task. *)
Definition recovered_from (s : TaskState.t) st' (id : Uuid) : Prop :=
  ∃ s' head', load_state (connection st') id = Ok (s', head') ∧
    if decide (TaskState.outcome s = None)
    then TaskState.apply s (TaskEvent.Interrupted interruption_reason) = Ok s' ∧
         ∀ k, leases (connection st') !! (id, k) = None
    else s' = s.
Definition is_open st (id : Uuid) : bool :=
  match load_state (connection st) id with
  | Ok (s, _) => bool_decide (TaskState.outcome s = None)
  | Err _ => false
  end.

Lemma is_open_same st st' id :
  load_state (connection st') id = load_state (connection st) id → is_open st' id = is_open st id.
Proof. unfold is_open. by intros ->. Qed.

Lemma recover_task_spec st id st' changed :
  store_inv st → recover_task st id = Ok (st', changed) →
  store_inv st' ∧ changed = is_open st id ∧
  (∃ s head, load_state (connection st) id = Ok (s, head) ∧ recovered_from s st' id) ∧
  (∀ other, other ≠ id → load_state (connection st') other = load_state (connection st) other ∧
     ∀ k, leases (connection st') !! (other, k) = leases (connection st) !! (other, k)) ∧
  task_order (connection st') = task_order (connection st).
Proof.
  intros Hinv H. pose proof (si_db _ Hinv) as Hok. unfold is_open, recovered_from.
  destruct (recover_task_advances _ _ _ _ Hok H) as [(-> & -> & s & head & Hload & Ho)|(-> & s & s' & Hav & Happ & Hl)].
  - rewrite Hload. rewrite bool_decide_false by done. split_and!; try done.
    exists s, head. split; [done|]. exists s, head. by rewrite decide_False.
  - pose proof Hav as [[hd Hb] [hd' Ha] Hsteps Hothers _ _ Horder].
    assert (Ho : TaskState.outcome s = None).
    { unfold recover_task, load in H. rewrite Hb in H. cbn [rbind] in H.
      by destruct (bool_decide _) eqn:Hd; [apply bool_decide_eq_true in Hd|]. }
    rewrite Hb, bool_decide_true by done.
    split_and!; [eapply advances_inv; [done..|]; exact (task_steps_begun _ _ _ _ Hsteps ltac:(by repeat constructor))|done| |intros other Hne; split; [by apply Hothers|]|done].
    + exists s, hd. split; [done|]. exists s', hd'. split; [done|]. rewrite decide_True by done. split; [done|].
      intros k. rewrite Hl. apply map_lookup_filter_None. right. intros t _ Hne. by apply Hne.
    + intros k. by apply (task_steps_leases _ _ _ _ _ _ Hsteps).
Qed.

Lemma recover_tasks_spec ids st recovered st' recovered' :
  NoDup ids → store_inv st → recover_tasks st ids recovered = (st', Ok recovered') →
  store_inv st' ∧ recovered' = recovered ++ base.filter (λ id, is_open st id = true) ids ∧
  (∀ id s head, id ∈ ids → load_state (connection st) id = Ok (s, head) → recovered_from s st' id) ∧
  (∀ id, id ∉ ids → load_state (connection st') id = load_state (connection st) id ∧
     ∀ k, leases (connection st') !! (id, k) = leases (connection st) !! (id, k)).
Proof.
  revert st recovered. induction ids as [|id ids IH]; intros st recovered Hnd Hinv; simpl.
  { intros [= <- <-]. rewrite app_nil_r. split_and!; [done|done|by intros ? ? ? ?%elem_of_nil|done]. }
  apply NoDup_cons in Hnd as [Hid Hnd].
  destruct (recover_task st id) as [[st1 changed]|err] eqn:H; [|done].
  destruct (recover_task_spec _ _ _ _ Hinv H) as (Hinv1 & -> & (s0 & h0 & Hload0 & Hrec) & Hothers & _).
  intros Hrest. destruct (IH _ _ Hnd Hinv1 Hrest) as (Hinv' & -> & Hin & Hout). split_and!.
  - done.
  - assert (Hfilter : base.filter (λ x, is_open st1 x = true) ids = base.filter (λ x, is_open st x = true) ids).
    { apply filter_ext_in. intros x Hx. rewrite (is_open_same st st1 x); [done|].
      apply Hothers. by intros ->. }
    rewrite filter_cons, Hfilter. destruct (is_open st id); simpl; [by rewrite <-app_assoc|done].
  - intros x s head [->|Hx]%elem_of_cons Hload.
    + assert (s0 = s) as -> by congruence. destruct (Hout id Hid) as [Hl Hk].
      destruct Hrec as (s' & hd' & Hs' & Hcase). exists s', hd'. rewrite Hl. split; [done|].
      case_decide; [|done]. destruct Hcase as [? Hnone]. split; [done|]. intros k. by rewrite Hk.
    + apply (Hin x s head Hx). destruct (Hothers x) as [-> _]; [by intros ->|done].
  - intros x Hx. apply not_elem_of_cons in Hx as [Hne Hx]. destruct (Hout x Hx) as [-> Hk].
    destruct (Hothers x Hne) as [-> Hk']. split; [done|]. intros k. by rewrite Hk, Hk'.
Qed.
End lemmas.
