(* ===== verification/Lifecycle.v ===== *)
(** * The lifecycle of a task

    The properties of commands and of the stores they reach, each followed, at the
    end of the file, by an instance on a task that goes from creation to a
    certified completion. *)

From S2P Require Import Prelude Digest Codec Artifacts Contract State Completion Workspace.
From S2P Require Import Input ArtifactGraph Journal Codecs Replay Store StoreTasks Commands Refinement Invariant.
From S2P Require Import Guarantees.

Section properties.
Context {SHA : Sha256} {SER : StoreSerde} {OK : StoreSerdeOk} {SET : SerdeErrorText} {DET : StoreErrorText}.
Implicit Types (st : Store) (s : TaskState.t) (e : TaskEvent.t).

(** C1: Refinement. A command that succeeds on a reachable store does what the guarded machine of one task allows
    and nothing else: it leaves the store alone (only commands that expect no revision), creates the one task it
    names, or performs the events it stands for, in states the machine admits them, on the one task it names; other
    tasks, their leases and the artifacts stay. Identifiers are taken as the host draws them: new jobs and shells get
    new ones, nobody else works under the shell's name or a running shell's request, and a shell ends under the
    request it began with. *)
Theorem commands_refine_machine c st st' :
  reaches st → fresh c st → run c st = Ok st' →
  (st' = st ∧ expected_revision c = None) ∨
  (∃ id s head, creates c id s ∧
     load_state (connection st) id = Err (StoreError.Missing id) ∧
     load_state (connection st') id = Ok (s, head) ∧
     (∀ other, other ≠ id → load_state (connection st') other = load_state (connection st) other) ∧
     leases (connection st') = leases (connection st) ∧ artifacts st' = artifacts st) ∨
  ∃ es s s', command_events c es ∧ advances st st' (command_task c) es s s'.
Proof.
  intros Hr%reaches_inv Hfresh Hrun. pose proof (si_ready _ Hr) as Hok.
  destruct (run_spec c st st' Hok Hfresh Hrun) as [?|[(id & s & Hcr & [Hnone [head Hload] Ho Hl Ha _ _])|?]];
    [by left| |by do 2 right].
  right. left. exists id, s, head. split_and!; try done. unfold load_state. by rewrite Hnone.
Qed.

(** C3: In every reachable store each task that loads satisfies the invariant: its
    counters, accounts and keys are in order; fenced jobs have a termination
    receipt; leases belong to running verification jobs; every piece of evidence
    comes from a job that was started for that check with that identity and has
    ended, at most one per job, and none from a later generation; a complete task
    ends in a certificate for itself and its current generation. *)
Theorem reachable_tasks_sound st id s head :
  reaches st → load_state (connection st) id = Ok (s, head) →
  state_ok s ∧ task_inv id s (leases (connection st)).
Proof. intros Hr%reaches_inv Hload. by eapply si_task. Qed.

(** C5: Only the completion evaluator completes a task. If a command takes a task
    that is not complete to a complete one, it is the completion command at the
    task's revision, the evaluator accepted exactly that state, and the new
    certificate is the evaluator's. *)
Theorem completion_only_by_evaluator c st st' s s' head head' :
  reaches st → fresh c st → run c st = Ok st' →
  load_state (connection st) (command_task c) = Ok (s, head) →
  load_state (connection st') (command_task c) = Ok (s', head') →
  TaskState.outcome s ≠ Some Outcome.Complete → TaskState.outcome s' = Some Outcome.Complete →
  ∃ now cert, c = Command.Complete (command_task c) (TaskState.revision s) now ∧
    evaluate s now = Ok cert ∧ TaskState.certificates s' = TaskState.certificates s ++ [cert].
Proof.
  intros Hr%reaches_inv Hfresh Hrun H1 H2 Ho Ho'. pose proof (si_ready _ Hr) as Hok.
  destruct (run_task _ _ _ _ _ _ _ Hok Hfresh Hrun H1 H2) as [(_ & -> & _)|(es & Hes & Hav)]; [done|].
  pose proof (task_steps_completes _ _ _ _ (av_steps _ _ _ _ _ _ Hav) Ho' Ho) as Hex.
  destruct (command_completes _ _ Hes Hex) as (id & r & now & ->).
  destruct (command_revision (Command.Complete id r now) _ _ r eq_refl Hrun) as (s1 & h1 & H1' & <-).
  assert (s1 = s) as -> by congruence. simpl in *. apply rbind_Ok in Hrun as ([st2 s2] & Hc & [= <-]).
  destruct (complete_advances _ _ _ _ _ _ (proj1 Hok) Hc) as (s3 & cert & Hav3 & Hcert & Happ).
  assert (s3 = s) as -> by (destruct Hav3 as [[? ?] _ _ _ _ _ _]; congruence).
  assert (s2 = s') as -> by (destruct Hav3 as [_ [? ?] _ _ _ _ _]; simpl in *; congruence).
  exists now, cert. split_and!; [done|by apply evaluate_certified|].
  unfold TaskState.apply in Happ. by injection Happ as <-.
Qed.

(** Optimistic concurrency. A command that expects a revision succeeds only on
    that revision and moves the task past it, so that of two commands computed
    from the same view of a task the second to arrive is refused, whatever
    happened in between. *)
Theorem stale_command_refused c1 c2 st st1 st2 r :
  reaches st → fresh c1 st → expected_revision c1 = Some r → expected_revision c2 = Some r →
  command_task c2 = command_task c1 → run c1 st = Ok st1 → later st1 st2 →
  ∃ err, run c2 st2 = Err err.
Proof.
  intros Hr%reaches_inv Hfresh He1 He2 Ht Hrun Hl. pose proof (si_ready _ Hr) as Hok.
  destruct (run c2 st2) as [st3|err] eqn:H2; [exfalso|by exists err].
  destruct (command_revision _ _ _ _ He1 Hrun) as (s & head & Hload & Hrev).
  destruct (command_revision _ _ _ _ He2 H2) as (s2 & head2 & Hload2 & Hrev2). rewrite Ht in Hload2.
  assert (∃ s1 head1, load_state (connection st1) (command_task c1) = Ok (s1, head1) ∧
    (r < TaskState.revision s1)%N) as (s1 & head1 & Hload1 & Hrev1).
  { destruct (run_spec _ _ _ Hok Hfresh Hrun) as [[_ Hn]|[(id & s1 & Hcr & _)|(es & s1 & s1' & Hes & Hav)]];
      [congruence|by destruct c1|].
    destruct Hav as [[h Hb] [h' Ha] Hsteps _ _ _ _]. exists s1', h'. split; [done|].
    apply task_steps_count in Hsteps. simpl in Hsteps. apply command_events_nonempty in Hes.
    assert (s1 = s) as -> by congruence. destruct es; [done|]. simpl in Hsteps. lia. }
  assert (Hinv1 : store_inv st1) by (eapply store_step_inv; [by eapply store_run|done]).
  destruct (later_relates (λ a b, (TaskState.revision a ≤ TaskState.revision b)%N) st1 st2 _ _ _
    ltac:(cbv beta; lia) ltac:(cbv beta; lia) ltac:(cbv beta; intros e a b (_ & _ & Hstep) _ _; lia) Hinv1 Hl Hload1)
    as (s2' & h2' & Hload2' & Hle).
  assert (s2' = s2) as -> by congruence. lia.
Qed.

(** A task with an outcome is frozen until the user takes it up again (reopens,
    resumes, directs or continues it, or runs a shell on it): any other command leaves its contract, candidate, baseline, phase, evidence, findings,
    certificates and jobs' identities as they are, and its outcome can change
    only from complete, to blocked (lost evidence) or budget exhausted (late
    accounting). *)
Theorem terminal_tasks_frozen c st st' id s head :
  reaches st → fresh c st → run c st = Ok st' → load_state (connection st) id = Ok (s, head) →
  TaskState.outcome s ≠ None → (command_task c = id → takes_up c = false) →
  ∃ s' head', load_state (connection st') id = Ok (s', head') ∧ frozen s s' ∧ TaskState.outcome s' ≠ None.
Proof.
  intros Hr%reaches_inv Hfresh Hrun Hload Ho Hre. pose proof (si_ready _ Hr) as Hok.
  destruct (decide (id = command_task c)) as [->|Hne].
  - destruct (step_relates (λ _ _, True) st st' _ s head ltac:(done) ltac:(done) ltac:(done) Hr
      ltac:(by eapply store_run) Hload) as (s' & head' & Hload' & _).
    exists s', head'. split; [done|].
    destruct (run_task _ _ _ _ _ _ _ Hok Hfresh Hrun Hload Hload') as [(_ & -> & _)|(es & Hes & Hav)];
      [split; [apply frozen_refl|done]|].
    apply (task_steps_frozen _ _ _ _ (av_steps _ _ _ _ _ _ Hav)); [|done].
    apply (command_reopens _ _ Hes); [by apply Hre|]. intros id r o reason ->.
    by apply Ho, (stop_open _ _ _ _ _ _ _ _ Hrun Hload).
  - exists s, head. split; [by apply (run_others _ _ _ _ _ _ Hok Hfresh Hrun Hne)|].
    split; [apply frozen_refl|done].
Qed.

(** C19: Settled facts are final. Whatever commands follow, with identifiers as the host draws them (those of new jobs
    and shells are new, nobody else works under the shell's name or a running shell's request, a shell ends under the
    request it began with), a task keeps every job, effect, provider receipt and charge it had: jobs keep what they
    were admitted as, resolved jobs and settled effects never change again, a job that stopped never runs again, known
    provider facts are not rewritten, evidence and certificates are only appended. *)
Theorem settled_facts_final st st' id s head :
  reaches st → later st st' → load_state (connection st) id = Ok (s, head) →
  ∃ s' head', load_state (connection st') id = Ok (s', head') ∧ keeps s s'.
Proof.
  intros Hr%reaches_inv Hl Hload.
  eapply (later_relates keeps); eauto using keeps_refl, keeps_trans.
  intros e a b (Had & Happ & _) _ _. by eapply admissible_keeps.
Qed.

(** A verification lease reports once. After its check has been finished, the
    same lease is refused for good: with the lease error while the task is
    active, with the terminal error otherwise. *)
Theorem lease_used_once st st1 st2 lease observation now s1 observation' now' :
  reaches st → finish_check st lease observation now = Ok (st1, s1) → later st1 st2 →
  ∃ s2 head2, load_state (connection st2) (VerificationLease.task lease) = Ok (s2, head2) ∧
    finish_check st2 lease observation' now' =
      Err (if decide (TaskState.outcome s2 = None) then StoreError.Lease else StoreError.Terminal).
Proof.
  intros Hr%reaches_inv Hfin Hl.
  destruct (finish_check_ends _ _ _ _ _ _ (si_db _ Hr) Hfin) as [[head1 Hload1] (j & Hj & Hstop)].
  assert (Hinv1 : store_inv st1).
  { apply (store_step_inv st st1); [|done]. apply (store_run (Command.FinishCheck lease observation now)); [done|].
    simpl. by rewrite Hfin. }
  destruct (later_relates keeps st1 st2 _ _ _ keeps_refl keeps_trans
    ltac:(intros e a b (Had & Happ & _) _ _; by eapply admissible_keeps) Hinv1 Hl Hload1)
    as (s2 & head2 & Hload2 & Hk).
  exists s2, head2. split; [done|]. destruct (kp_jobs _ _ Hk _ _ Hj) as (j2 & Hj2 & Hf).
  eapply finish_check_refused; [by eapply later_inv|done|done|by apply Hf].
Qed.

(** Accounting happens once per operation. After a charge or a reservation has
    been recorded, repeating it at any later time succeeds without changing the
    store, and any other use of its identifier is refused. *)
Theorem accounting_once st st1 st2 id operation usage usage' now now' s1 :
  reaches st → account_usage st id operation usage now = Ok (st1, s1) → later st1 st2 →
  ∃ s2 head2, load_state (connection st2) id = Ok (s2, head2) ∧
    account_usage st2 id operation usage' now' =
      if decide (usage' = usage) then Ok (st2, s2) else
        Err (StoreError.Invalid (if usage then "accounting operation ID reused with different input"
                                 else "reservation ID reused for usage receipt")).
Proof.
  intros Hr%reaches_inv Hacc Hl.
  destruct (account_usage_records _ _ _ _ _ _ _ (si_db _ Hr) Hacc) as [[head1 Hload1] [Hu Hres]].
  assert (Hinv1 : store_inv st1).
  { apply (store_step_inv st st1); [|done]. destruct usage as [u|].
    - apply (store_run (Command.ChargeUsage id operation u now)); [done|]. simpl. unfold charge_usage. by rewrite Hacc.
    - apply (store_run (Command.ReserveModelCall id operation now)); [done|]. simpl. unfold reserve_model_call. by rewrite Hacc. }
  destruct (later_relates keeps st1 st2 _ _ _ keeps_refl keeps_trans
    ltac:(intros e a b (Had & Happ & _) _ _; by eapply admissible_keeps) Hinv1 Hl Hload1)
    as (s2 & head2 & Hload2 & Hk).
  exists s2, head2. split; [done|]. apply (account_usage_again _ _ _ _ _ _ _ _ Hload2).
  destruct (kp_accounts _ _ Hk operation) as [Hu' Hres'].
  { destruct usage; [left; rewrite Hu; by eexists|right; by apply Hres]. }
  split; [by rewrite Hu'|]. intros Hn. by apply Hres', Hres.
Qed.

(** Jobs are admitted within capacity: when a command starts a job, the task
    is open, not cancelled, and its unresolved jobs, the new one included, are
    within the concurrency limit in force. *)
Theorem job_capacity c st st' s' head' j :
  reaches st → fresh c st → command_events c [TaskEvent.JobStarted j] → run c st = Ok st' →
  load_state (connection st') (command_task c) = Ok (s', head') →
  TaskState.outcome s' = None ∧ TaskState.cancellation_requested s' = false ∧
  (unresolved_count s' ≤ Limits.concurrent_jobs (TaskState.limits s'))%N.
Proof.
  intros Hr%reaches_inv Hfresh Hes Hrun Hload'. pose proof (si_ready _ Hr) as Hok.
  destruct (starts_admitted _ _ _ _ _ Hes eq_refl Hrun) as (s & head & now & Hload & Hadm).
  apply admit_job_Ok in Hadm as (Hc & _ & Hn).
  destruct (run_task _ _ _ _ _ _ _ Hok Hfresh Hrun Hload Hload') as [(_ & _ & Hno)|(es & Hes' & Hav)].
  { exfalso. destruct c; simpl in *; try discriminate Hno; command_events_inv Hes; try done; by destruct replace. }
  assert (∃ j', es = [TaskEvent.JobStarted j']) as [j' ->].
  { destruct c; simpl in *; command_events_inv Hes; try done; try (by destruct replace);
      command_events_inv Hes'; by eexists. }
  destruct Hav as [_ _ Hsteps _ _ _ _]. inversion_clear Hsteps as [|? ? ? [s1 L1] ? Hstep Hnil].
  inversion Hnil; subst. clear Hnil. destruct Hstep as (Had & Happ & _). simpl in Had, Happ.
  unfold TaskState.apply in Happ. injection Happ as <-.
  assert (Hnew : TaskState.jobs s !! Job.id j' = None ∧ TaskState.outcome s = None)
    by (inversion Had; try done; match goal with H : directive _ _ ?b = _ |- _ => by destruct b end).
  destruct Hnew as [Hnew Ho]. split_and!; [done|done|].
  etrans; [apply (unresolved_count_insert s _ j' Hnew); reflexivity|].
  unfold TaskState.limits in *. cbn. lia.
Qed.

(** C20: Recovery after a restart. When the loop over the tasks succeeds, it
    reports exactly the tasks that had no outcome; each of those has been
    interrupted and holds no lease, and every other task is untouched. *)
Theorem recovery_settles_every_task st st' recovered id s head :
  reaches st → recover_interrupted_tasks st = (st', Ok recovered) →
  load_state (connection st) id = Ok (s, head) →
  (id ∈ recovered ↔ TaskState.outcome s = None) ∧ NoDup recovered ∧
  recovered_from s st' id.
Proof.
  intros Hr%reaches_inv Hrec Hload. pose proof (si_ready _ Hr) as Hok.
  unfold recover_interrupted_tasks, list_tasks in Hrec.
  assert (Hnd : NoDup (reverse (task_order (connection st)))) by (rewrite reverse_Permutation; apply do_order, (proj1 Hok)).
  destruct (recover_tasks_spec _ _ _ _ _ Hnd Hr Hrec) as (_ & -> & Hin & _).
  assert (Hlisted : id ∈ reverse (task_order (connection st))).
  { apply elem_of_reverse, (do_listed _ (proj1 Hok)). by eapply load_state_row. }
  simpl. split_and!; [|by apply NoDup_filter|by eapply Hin].
  rewrite list_elem_of_filter. unfold is_open. rewrite Hload, bool_decide_eq_true. naive_solver.
Qed.
End properties.

(** ** A task from creation to completion *)

Section demo.
#[local] Instance demo_sha256 : Sha256 := checksum_sha256.
#[local] Instance demo_serde_text : SerdeErrorText := "serialization failed".
#[local] Instance demo_store_text : StoreErrorText := λ _, "store error".

Definition is_ok {A E : Type} (r : result A E) : bool := match r with Ok _ => true | Err _ => false end.
Lemma is_ok_Ok {A E : Type} (r : result A E) : is_ok r = true → ∃ a, r = Ok a.
Proof. destruct r; [eauto|done]. Qed.

Definition fresh_b (c : Command.t) (st : Store) : bool :=
  match c with
  | Command.BeginCheck id _ _ job _ _ _ =>
      match load_state (connection st) id with
      | Ok (s, _) => bool_decide (TaskState.jobs s !! job = None)
      | Err _ => true
      end
  | Command.BeginShell id _ request _ _ job _ _ =>
      match load_state (connection st) id with
      | Ok (s, _) => bool_decide (TaskState.jobs s !! job = None) && bool_decide (TaskState.effects s !! request = None)
      | Err _ => true
      end
  | Command.FinishShell id job request _ _ _ _ _ =>
      match load_state (connection st) id with
      | Ok (s, _) => bool_decide (TaskState.jobs s !! job ≫= shell_request = Some request)
      | Err _ => true
      end
  | Command.StartJob _ _ _ _ _ _ _ _ | Command.RecordEffect _ _ _ => false
  | _ => true
  end.
Lemma fresh_b_fresh c st : fresh_b c st = true → fresh c st.
Proof.
  destruct c; try done; cbn [fresh fresh_b].
  - intros H s head Hl. rewrite Hl in H. by apply bool_decide_eq_true in H.
  - intros H s head Hl. rewrite Hl in H. apply andb_true_iff in H as [H1%bool_decide_eq_true H2%bool_decide_eq_true]. done.
  - intros H s head j Hl Hj. rewrite Hl in H. apply bool_decide_eq_true in H. by rewrite Hj in H.
Qed.

(** Runs commands, each with fresh identifiers; stops at the first that fails. *)
Fixpoint run_all (cs : list Command.t) (st : Store) : Store :=
  match cs with
  | [] => st
  | c :: cs => if fresh_b c st then match run c st with Ok st => run_all cs st | Err _ => st end else st
  end.
Lemma run_all_later cs st : later st (run_all cs st).
Proof.
  revert st. induction cs as [|c cs IH]; intros st; [reflexivity|]. simpl.
  destruct (fresh_b c st) eqn:Hf; [|reflexivity]. destruct (run c st) as [st'|] eqn:Hr; [|reflexivity].
  eapply rtc_l; [|apply IH]. by eapply store_run; [apply fresh_b_fresh|].
Qed.
Lemma run_all_app cs1 cs2 st : later (run_all cs1 st) (run_all (cs1 ++ cs2) st).
Proof.
  revert st. induction cs1 as [|c cs IH]; intros st; simpl; [apply run_all_later|].
  destruct (fresh_b c st); [|reflexivity]. destruct (run c st); [apply IH|reflexivity].
Qed.

Definition demo_files : ArtifactStore.t :=
  stored ["a"; "b"; demo_snapshot_bytes; "verifier"; "report"; "receipt"; "environment"].
Definition demo_frozen : Candidate.t :=
  Candidate.mk (digest_of demo_snapshot_bytes) (digest_of "environment") (digest_of demo_snapshot_bytes) true None.
Definition demo_observation : Observation.t :=
  Observation.mk CheckStatus.Passed (digest_of "report") 3 None 0 (Some 0%Z) None None false [] [].
Definition demo_lease : VerificationLease.t := VerificationLease.mk 7 21 "token".
Definition demo_delivery : Delivery.t :=
  Delivery.mk DeliveryKind.Source (digest_of demo_snapshot_bytes) (digest_of demo_snapshot_bytes) (digest_of "receipt").
Definition demo_commands : list Command.t := [
  Command.Create 7 5 (demo_contract false);
  Command.SelectCandidate 7 1 demo_frozen;
  Command.BeginCheck 7 2 "unit" 21 "token" 10 10;
  Command.FinishCheck demo_lease demo_observation 20;
  Command.RecordDelivery 7 4 demo_delivery;
  Command.Complete 7 5 30;
  Command.ChargeUsage 7 40 (Usage.mk 1 9) 35;
  Command.Reopen 7 7 "more to do";
  Command.BeginShell 7 50 51 (digest_of "receipt") (digest_of "environment") 52 40 1000;
  Command.FinishShell 7 52 51 (ExecutionStatus.Exited 0) (digest_of "receipt") (Some 1%N) (digest_of "environment")
    (Some (digest_of demo_snapshot_bytes, digest_of demo_snapshot_bytes))].
Definition demo_empty : Store := mk_store empty_db demo_files.
Definition demo_stage (n : nat) : Store := run_all (take n demo_commands) demo_empty.
Definition demo_command (n : nat) : Command.t := nth n demo_commands (Command.AuditEvidence 0).
Definition demo_task (n : nat) : TaskState.t :=
  match load_state (connection (demo_stage n)) 7 with Ok (s, _) => s | Err _ => demo_state end.

Lemma demo_stage_reaches n : reaches (demo_stage n).
Proof. exists demo_files. apply run_all_later. Qed.
Lemma demo_stage_later n m : n ≤ m → later (demo_stage n) (demo_stage m).
Proof.
  intros Hnm. unfold demo_stage. rewrite <-(take_drop n (take m demo_commands)), take_take, Nat.min_l by done.
  apply run_all_app.
Qed.
Lemma demo_loads n :
  is_ok (load_state (connection (demo_stage n)) 7) = true →
  ∃ head, load_state (connection (demo_stage n)) 7 = Ok (demo_task n, head).
Proof.
  unfold demo_task. destruct (load_state _ _) as [[s head]|]; [by exists head|done].
Qed.
Ltac demo_load H := destruct (demo_loads _ H) as [?head ?Hload].
Lemma demo_loads_3 : is_ok (load_state (connection (demo_stage 3)) 7) = true.
Proof. vm_compute. reflexivity. Qed.
Lemma demo_loads_5 : is_ok (load_state (connection (demo_stage 5)) 7) = true.
Proof. vm_compute. reflexivity. Qed.
Lemma demo_loads_6 : is_ok (load_state (connection (demo_stage 6)) 7) = true.
Proof. vm_compute. reflexivity. Qed.

(** The shell at the end of the demonstration runs, and its result is adopted. *)
Lemma demo_shell :
  Effect.status <$> TaskState.effects (demo_task 9) !! 51%N = Some EffectStatus.Intended ∧
  Effect.status <$> TaskState.effects (demo_task 10) !! 51%N = Some EffectStatus.Succeeded ∧
  Job.status <$> TaskState.jobs (demo_task 10) !! 52%N = Some JobStatus.Succeeded.
Proof. vm_compute. repeat split. Qed.
Lemma demo_begins : run (demo_command 2) (demo_stage 2) = Ok (demo_stage 3).
Proof. vm_compute. reflexivity. Qed.
Lemma demo_completes : run (demo_command 5) (demo_stage 5) = Ok (demo_stage 6).
Proof. vm_compute. reflexivity. Qed.
Lemma demo_charges : run (demo_command 6) (demo_stage 6) = Ok (demo_stage 7).
Proof. vm_compute. reflexivity. Qed.
Lemma demo_finishes : run (Command.FinishCheck demo_lease demo_observation 20) (demo_stage 3) = Ok (demo_stage 4).
Proof. vm_compute. reflexivity. Qed.
Lemma demo_outcome_5 : TaskState.outcome (demo_task 5) = None.
Proof. vm_compute. reflexivity. Qed.
Lemma demo_outcome_6 : TaskState.outcome (demo_task 6) = Some Outcome.Complete.
Proof. vm_compute. reflexivity. Qed.
Lemma demo_fresh : fresh (demo_command 2) (demo_stage 2).
Proof. apply fresh_b_fresh. vm_compute. reflexivity. Qed.

Lemma demo_recovers : is_ok (recover_interrupted_tasks (demo_stage 3)).2 = true.
Proof. vm_compute. reflexivity. Qed.
#[local] Opaque demo_stage demo_task.

Lemma run_finish st lease o now st1 s1 st' :
  finish_check st lease o now = Ok (st1, s1) → run (Command.FinishCheck lease o now) st = Ok st' → st1 = st'.
Proof. simpl. intros ->. by intros [= ->]. Qed.
Lemma run_finish_Err st lease o now err st' :
  finish_check st lease o now = Err err → run (Command.FinishCheck lease o now) st = Ok st' → False.
Proof. simpl. by intros ->. Qed.
Lemma run_charge_Err st id operation u now err st' :
  account_usage st id operation (Some u) now = Err err →
  run (Command.ChargeUsage id operation u now) st = Ok st' → False.
Proof. simpl. unfold charge_usage. by intros ->. Qed.
Lemma run_charge st id operation u now st1 s1 st' :
  account_usage st id operation (Some u) now = Ok (st1, s1) →
  run (Command.ChargeUsage id operation u now) st = Ok st' → st1 = st'.
Proof. simpl. unfold charge_usage. intros ->. by intros [= ->]. Qed.

Lemma commands_refine_machine_witness :
  (demo_stage 3 = demo_stage 2 ∧ expected_revision (demo_command 2) = None) ∨
  (∃ id s head, creates (demo_command 2) id s ∧
     load_state (connection (demo_stage 2)) id = Err (StoreError.Missing id) ∧
     load_state (connection (demo_stage 3)) id = Ok (s, head) ∧
     (∀ other, other ≠ id → load_state (connection (demo_stage 3)) other = load_state (connection (demo_stage 2)) other) ∧
     leases (connection (demo_stage 3)) = leases (connection (demo_stage 2)) ∧
     artifacts (demo_stage 3) = artifacts (demo_stage 2)) ∨
  ∃ es s s', command_events (demo_command 2) es ∧ advances (demo_stage 2) (demo_stage 3) 7 es s s'.
Proof.
  exact (commands_refine_machine (demo_command 2) (demo_stage 2) (demo_stage 3) (demo_stage_reaches 2) demo_fresh
    demo_begins).
Defined.

Lemma reachable_tasks_sound_witness :
  state_ok (demo_task 6) ∧ task_inv 7 (demo_task 6) (leases (connection (demo_stage 6))).
Proof. demo_load demo_loads_6. exact (reachable_tasks_sound (demo_stage 6) 7 _ _ (demo_stage_reaches 6) Hload). Defined.

Lemma completion_only_by_evaluator_witness :
  ∃ now cert, demo_command 5 = Command.Complete 7 (TaskState.revision (demo_task 5)) now ∧
    evaluate (demo_task 5) now = Ok cert ∧
    TaskState.certificates (demo_task 6) = TaskState.certificates (demo_task 5) ++ [cert].
Proof.
  demo_load demo_loads_5. demo_load demo_loads_6.
  apply (completion_only_by_evaluator (demo_command 5) (demo_stage 5) (demo_stage 6) _ _ _ _
    (demo_stage_reaches 5) I demo_completes Hload Hload0); [|exact demo_outcome_6].
  rewrite demo_outcome_5. discriminate.
Defined.

Lemma stale_command_refused_witness :
  ∃ err, run (Command.Stop 7 2 Outcome.Failed "gave up") (demo_stage 8) = Err err.
Proof.
  apply (stale_command_refused (demo_command 2) (Command.Stop 7 2 Outcome.Failed "gave up") (demo_stage 2)
    (demo_stage 3) (demo_stage 8) 2 (demo_stage_reaches 2) demo_fresh eq_refl eq_refl eq_refl demo_begins).
  apply demo_stage_later. lia.
Defined.

Lemma terminal_tasks_frozen_witness :
  ∃ s' head', load_state (connection (demo_stage 7)) 7 = Ok (s', head') ∧ frozen (demo_task 6) s' ∧
    TaskState.outcome s' ≠ None.
Proof.
  demo_load demo_loads_6.
  apply (terminal_tasks_frozen (demo_command 6) (demo_stage 6) (demo_stage 7) 7 _ _ (demo_stage_reaches 6) I
    demo_charges Hload); [rewrite demo_outcome_6; discriminate|reflexivity].
Defined.

Lemma settled_facts_final_witness :
  ∃ s' head', load_state (connection (demo_stage 10)) 7 = Ok (s', head') ∧ keeps (demo_task 3) s'.
Proof.
  demo_load demo_loads_3. apply (settled_facts_final (demo_stage 3) (demo_stage 10) 7 (demo_task 3) head (demo_stage_reaches 3)); [|exact Hload].
  apply demo_stage_later. lia.
Defined.

Lemma lease_used_once_witness :
  ∃ s2 head2, load_state (connection (demo_stage 8)) 7 = Ok (s2, head2) ∧
    finish_check (demo_stage 8) demo_lease demo_observation 50 =
      Err (if decide (TaskState.outcome s2 = None) then StoreError.Lease else StoreError.Terminal).
Proof.
  destruct (finish_check (demo_stage 3) demo_lease demo_observation 20) as [[st1 s1]|err] eqn:H.
  - apply (lease_used_once (demo_stage 3) st1 (demo_stage 8) demo_lease demo_observation 20 s1
      demo_observation 50 (demo_stage_reaches 3) H).
    rewrite (run_finish _ _ _ _ _ _ _ H demo_finishes). apply demo_stage_later. lia.
  - exfalso. exact (run_finish_Err _ _ _ _ _ _ H demo_finishes).
Defined.

Lemma accounting_once_witness :
  ∃ s2 head2, load_state (connection (demo_stage 8)) 7 = Ok (s2, head2) ∧
    account_usage (demo_stage 8) 7 40 (Some (Usage.mk 1 9)) 60 = Ok (demo_stage 8, s2).
Proof.
  destruct (account_usage (demo_stage 6) 7 40 (Some (Usage.mk 1 9)) 35) as [[st1 s1]|err] eqn:H.
  - apply (accounting_once (demo_stage 6) st1 (demo_stage 8) 7 40 (Some (Usage.mk 1 9)) (Some (Usage.mk 1 9))
      35 60 s1 (demo_stage_reaches 6) H).
    rewrite (run_charge _ _ _ _ _ _ _ _ H demo_charges).
    apply demo_stage_later. lia.
  - exfalso. exact (run_charge_Err _ _ _ _ _ _ _ H demo_charges).
Defined.

Lemma job_capacity_witness :
  TaskState.outcome (demo_task 3) = None ∧ TaskState.cancellation_requested (demo_task 3) = false ∧
  (unresolved_count (demo_task 3) ≤ Limits.concurrent_jobs (TaskState.limits (demo_task 3)))%N.
Proof.
  demo_load demo_loads_3.
  apply (job_capacity (demo_command 2) (demo_stage 2) (demo_stage 3) (demo_task 3) head
    (Job.mk 21 0 JobStatus.Running false (Some "unit") None 10 0 None None None) (demo_stage_reaches 2) demo_fresh);
    [|exact demo_begins|exact Hload].
  eexists. split; [|reflexivity]. repeat split.
Defined.

Lemma recovery_settles_every_task_witness :
  ∃ st' recovered, recover_interrupted_tasks (demo_stage 3) = (st', Ok recovered) ∧
    (7%N ∈ recovered ↔ TaskState.outcome (demo_task 3) = None) ∧ NoDup recovered ∧
    recovered_from (demo_task 3) st' 7.
Proof.
  demo_load demo_loads_3. destruct (recover_interrupted_tasks (demo_stage 3)) as [st' [recovered|err]] eqn:H.
  - exists st', recovered. split; [reflexivity|].
    exact (recovery_settles_every_task (demo_stage 3) st' recovered 7 _ _ (demo_stage_reaches 3) H Hload).
  - exfalso. pose proof demo_recovers as Hr. rewrite H in Hr. discriminate Hr.
Defined.
End demo.
