(* ===== verification/JsonValue.v ===== *)
(** * JSON values as data

    Decidable equality of [serde_json::Value], and its prefix code for the
    witnesses, both by way of stdpp's generic trees. *)

From stdpp Require Import countable.
From S2P Require Import Prelude Digest Codec Input.

(** A value as a tree whose leaves are tagged strings. *)
Fixpoint value_to_tree (v : Value) : gen_tree (N * string) :=
  match v with
  | VNull => GenLeaf (0%N, "")
  | VBool b => GenLeaf (if b then 1%N else 2%N, "")
  | VNumber text => GenLeaf (3%N, text)
  | VString s => GenLeaf (4%N, s)
  | VArray l => GenNode 0 (value_to_tree <$> l)
  | VObject fields => GenNode 1 ((λ '(k, v), GenNode 0 [GenLeaf (4%N, k); value_to_tree v]) <$> fields)
  end.

Definition leaf_to_value (leaf : N * string) : Value :=
  let '(tag, text) := leaf in
  if (tag =? 0)%N then VNull else if (tag =? 1)%N then VBool true
  else if (tag =? 2)%N then VBool false else if (tag =? 3)%N then VNumber text
  else VString text.

Fixpoint tree_to_value (t : gen_tree (N * string)) : Value :=
  match t with
  | GenLeaf leaf => leaf_to_value leaf
  | GenNode 0 l => VArray (tree_to_value <$> l)
  | GenNode _ l =>
      VObject ((λ t, match t with
                     | GenNode _ [GenLeaf (_, k); v] => (k, tree_to_value v)
                     | _ => ("", VNull)
                     end) <$> l)
  end.

(** Induction over values, through arrays and objects. *)
Lemma Value_nested_ind (P : Value → Prop) :
  P VNull → (∀ b, P (VBool b)) → (∀ t, P (VNumber t)) → (∀ s, P (VString s)) →
  (∀ l, Forall P l → P (VArray l)) → (∀ fields, Forall (λ f, P f.2) fields → P (VObject fields)) →
  ∀ v, P v.
Proof.
  intros Hnull Hbool Hnum Hstr Harr Hobj. fix IH 1. intros [|b|t|s|l|fields].
  - exact Hnull.
  - apply Hbool.
  - apply Hnum.
  - apply Hstr.
  - apply Harr. induction l as [|v l IHl]; constructor; [apply IH|apply IHl].
  - apply Hobj. induction fields as [|[k v] fields IHf]; constructor; [apply IH|apply IHf].
Qed.

Lemma tree_to_value_to_tree v : tree_to_value (value_to_tree v) = v.
Proof.
  induction v as [|[]|t|s|l Hl|fields Hf] using Value_nested_ind; try done; cbn; f_equal.
  - induction Hl as [|v l Hv _ IH]; [done|]. cbn. by rewrite Hv, IH.
  - induction Hf as [|[k v] fields Hv _ IH]; [done|]. cbn in *. by rewrite Hv, IH.
Qed.

#[global] Instance Value_eq_dec : EqDecision Value.
Proof.
  intros v w. destruct (decide (value_to_tree v = value_to_tree w)) as [Heq|Hne].
  - left. by rewrite <-(tree_to_value_to_tree v), Heq, tree_to_value_to_tree.
  - right. congruence.
Defined.

#[global] Instance codec_value : Codec Value.
Proof.
  refine (codec_via (B := list (N * N * option (N * string)))
    (λ v, (λ x, match x with
                | inl (n, m) => (N.of_nat n, N.of_nat m, None)
                | inr leaf => (0%N, 0%N, Some leaf)
                end) <$> gen_tree_to_list (value_to_tree v))
    (λ l, t ← gen_tree_of_list [] ((λ '(n, m, o), match o with
                | None => inl (N.to_nat n, N.to_nat m)
                | Some leaf => inr leaf
                end) <$> l);
          Some (tree_to_value t)) _).
  abstract (intros v; rewrite <-list_fmap_compose;
    rewrite <-(app_nil_r (_ <$> _));
    assert (∀ l : list (nat * nat + N * string),
      (((λ '(n, m, o), match o with
          | None => inl (N.to_nat n, N.to_nat m) | Some leaf => inr leaf end) ∘
        (λ x, match x with
          | inl (n, m) => (N.of_nat n, N.of_nat m, None)
          | inr leaf => (0%N, 0%N, Some leaf) end)) <$> l) = l) as ->
      by (intros l; induction l as [|[[n m]|leaf] l IH]; cbn; rewrite ?IH, ?Nat2N.id; done);
    rewrite gen_tree_of_to_list; cbn; by rewrite tree_to_value_to_tree).
Defined.
