(* ===== verification/Cost.v ===== *)
(** * Models, usage and exact costs (crates/harness/src/inference/protocol.rs)

    The catalogue of models, the usage a provider reports for one response, and
    the exact decimal cost type [UsdCost], with its text form: [decimal_string]
    writes an amount of atto-dollars, [UsdCost.from_str] reads decimal text with
    an optional exponent and refuses whatever it cannot represent exactly.
    [Usage.parse] reads the provider's object and drops the counters that
    contradict each other; [catalog_cost] prices a usage with checked 128-bit
    arithmetic. *)

From S2P Require Import Prelude Input.

(** ** Machine arithmetic of [u128] *)

Definition u128_MAX : N := 2 ^ 128 - 1.
Definition u128_checked_add (x y : N) : option N :=
  if (x + y <=? u128_MAX)%N then Some (x + y)%N else None.
Definition u128_checked_mul (x y : N) : option N :=
  if (x * y <=? u128_MAX)%N then Some (x * y)%N else None.
(** [u128::checked_sub] *)
Definition u128_checked_sub (x y : N) : option N :=
  if (y <=? x)%N then Some (x - y)%N else None.
(** [10_u128.checked_pow(e)]; [u128_pow10_Some] shows that 38 is where it overflows. *)
Definition u128_pow10 (e : N) : option N :=
  if (e <=? 38)%N then Some (10 ^ e)%N else None.
(** [u32::try_from(i64)] *)
Definition u32_try_from (x : Z) : option N :=
  if ((0 <=? x) && (x <=? Z.of_N u32_MAX))%Z then Some (Z.to_N x) else None.

Lemma u128_pow10_Some e p : u128_pow10 e = Some p ↔ (10 ^ e ≤ u128_MAX)%N ∧ p = (10 ^ e)%N.
Proof.
  unfold u128_pow10. destruct (N.leb_spec e 38) as [He|He].
  - split; [|naive_solver]. intros [= <-]. split; [|done].
    transitivity (10 ^ 38)%N; [by apply N.pow_le_mono_r|]. by vm_compute.
  - split; [done|]. intros [Hle _]. exfalso.
    assert (10 ^ 39 ≤ 10 ^ e)%N by (apply N.pow_le_mono_r; lia).
    assert (u128_MAX < 10 ^ 39)%N by by vm_compute. lia.
Qed.

Lemma u128_checked_add_Some x y z :
  u128_checked_add x y = Some z ↔ (x + y ≤ u128_MAX)%N ∧ z = (x + y)%N.
Proof. unfold u128_checked_add. destruct (N.leb_spec (x + y) u128_MAX); split; intros; [naive_solver..|lia]. Qed.

Lemma u128_checked_mul_Some x y z :
  u128_checked_mul x y = Some z ↔ (x * y ≤ u128_MAX)%N ∧ z = (x * y)%N.
Proof. unfold u128_checked_mul. destruct (N.leb_spec (x * y) u128_MAX); split; intros; [naive_solver..|lia]. Qed.

(** ** Text functions of the standard library *)

(** [str::trim_start]; the multi-byte cases are those of [trim_is_empty]. *)
Fixpoint trim_start (s : string) : string :=
  match s with
  | EmptyString => EmptyString
  | String a s1 =>
      if ascii_between 9 13 a || ascii_is 32 a then trim_start s1
      else match s1 with
      | EmptyString => s
      | String b s2 =>
          if ascii_is 194 a && (ascii_is 133 b || ascii_is 160 b) then trim_start s2
          else match s2 with
          | EmptyString => s
          | String c s3 =>
              if (ascii_is 225 a && ascii_is 154 b && ascii_is 128 c)
                 || (ascii_is 226 a && ascii_is 128 b
                     && (ascii_between 128 138 c || ascii_is 168 c || ascii_is 169 c
                         || ascii_is 175 c))
                 || (ascii_is 226 a && ascii_is 129 b && ascii_is 159 c)
                 || (ascii_is 227 a && ascii_is 128 b && ascii_is 128 c)
              then trim_start s3 else s
          end
      end
  end.

(** [str::trim_end]: a suffix that starts inside a character starts with a
    continuation byte, which is no white space. *)
Fixpoint trim_end (s : string) : string :=
  if trim_is_empty s then EmptyString
  else match s with EmptyString => EmptyString | String c s => String c (trim_end s) end.

(** [str::trim] *)
Definition trim (s : string) : string := trim_end (trim_start s).

(** [str::split_once] at the first character that satisfies [p]. *)
Fixpoint split_once (p : ascii → bool) (s : string) : option (string * string) :=
  match s with
  | EmptyString => None
  | String c s =>
      if p c then Some (EmptyString, s)
      else '(before, after) ← split_once p s; Some (String c before, after)
  end.

(** [str::strip_prefix] of one character *)
Definition strip_char (code : N) (s : string) : option string :=
  match s with
  | String c rest => if ascii_is code c then Some rest else None
  | EmptyString => None
  end.

(** [trim_end_matches('0')] *)
Fixpoint trim_end_zeros (s : string) : string :=
  match s with
  | EmptyString => EmptyString
  | String c s =>
      match trim_end_zeros s with
      | EmptyString => if ascii_is 48 c then EmptyString else String c EmptyString
      | rest => String c rest
      end
  end.

Definition is_digit (c : ascii) : bool := ascii_between 48 57 c.
Definition digit_value (c : ascii) : N := (N_of_ascii c - 48)%N.
Definition digit_char (d : N) : ascii := ascii_of_N (48 + d).

(** The number a string of digits writes, after a prefix worth [acc]. *)
Fixpoint digits_value (acc : N) (s : string) : N :=
  match s with
  | EmptyString => acc
  | String c s => digits_value (10 * acc + digit_value c) s
  end.

(** [parse] of an unsigned type of maximum [max] on text without a sign *)
Definition parse_digits (max : N) (s : string) : option N :=
  if str_is_empty s || negb (str_forallb is_digit s) then None
  else if (digits_value 0 s <=? max)%N then Some (digits_value 0 s) else None.

(** [str::parse::<i32>] *)
Definition parse_i32 (s : string) : option Z :=
  match strip_char 45 s with
  | Some digits => n ← parse_digits (2 ^ 31) digits; Some (- Z.of_N n)%Z
  | None => n ← parse_digits (2 ^ 31 - 1) (default s (strip_char 43 s)); Some (Z.of_N n)
  end.

(** [{n:0width}]: the [width] last digits, which are all of them for [n < 10^width]. *)
Fixpoint padded_digits (width : nat) (n : N) : string :=
  match width with
  | O => EmptyString
  | S width => (padded_digits width (n / 10) +:+ String (digit_char (n mod 10)) EmptyString)
  end.

(** [u128::to_string]: 39 digits are enough for [2^128 - 1]. *)
Fixpoint skip_zeros (s : string) : string :=
  match s with
  | String c (String _ _ as rest) => if ascii_is 48 c then skip_zeros rest else s
  | _ => s
  end.
Definition u128_to_string (n : N) : string := skip_zeros (padded_digits 39 n).

(** ** Models *)

Inductive Model : Type := Sol | Terra | Luna | Astra | Glm | Spark.
#[global] Instance Model_eq_dec : EqDecision Model.
Proof. solve_decision. Defined.

Module Model.
Definition as_str (m : Model) : string :=
  match m with
  | Sol => "gpt-5.6-sol"
  | Terra => "gpt-5.6-terra"
  | Luna => "gpt-5.6-luna"
  | Astra => "gpt-6-astra"
  | Glm => "glm-5.3"
  | Spark => "gpt-5.3-codex-spark"
  end.

(** [Err(FailureKind::InvalidRequest)] is [None]. *)
Definition from_str (value : string) : option Model :=
  if str_eqb value "sol" || str_eqb value "gpt-5.6-sol" then Some Sol
  else if str_eqb value "terra" || str_eqb value "gpt-5.6-terra" then Some Terra
  else if str_eqb value "luna" || str_eqb value "gpt-5.6-luna" then Some Luna
  else if str_eqb value "astra" || str_eqb value "gpt-6-astra" then Some Astra
  else if str_eqb value "glm" || str_eqb value "glm-5.3" then Some Glm
  else if str_eqb value "spark" || str_eqb value "gpt-5.3-codex-spark" then Some Spark
  else None.
End Model.

Inductive Thinking : Type := Low | Medium | High | Xhigh | Max.
#[global] Instance Thinking_eq_dec : EqDecision Thinking.
Proof. solve_decision. Defined.

Module Thinking.
Definition as_str (t : Thinking) : string :=
  match t with
  | Low => "low" | Medium => "medium" | High => "high" | Xhigh => "xhigh" | Max => "max"
  end.
End Thinking.

Inductive ReasoningMode : Type := Standard | Pro.
#[global] Instance ReasoningMode_eq_dec : EqDecision ReasoningMode.
Proof. solve_decision. Defined.

Module ReasoningMode.
Definition as_str (r : ReasoningMode) : string :=
  match r with Standard => "standard" | Pro => "pro" end.
End ReasoningMode.

Module ModelSettings.
Record t : Type := mk {
  model : Model;
  thinking : Thinking;
  reasoning_mode : ReasoningMode;
  fast_mode : bool;
}.
#[global] Instance eq_dec : EqDecision t.
Proof. solve_decision. Defined.
(** [ModelSettings::default] *)
Definition default : t := mk Sol Medium Standard false.
End ModelSettings.

(** ** Costs: a [UsdCost] is its number of atto-dollars *)

Abbreviation UsdCost := N (only parsing).
Definition ATTO_USD_PER_USD : N := 1000000000000000000.

Module UsdCost.
Definition ZERO : UsdCost := 0%N.
Definition checked_add (x y : UsdCost) : option UsdCost := u128_checked_add x y.
Definition checked_sub (x y : UsdCost) : option UsdCost := u128_checked_sub x y.

Definition decimal_string (c : UsdCost) : string :=
  let dollars := (c / ATTO_USD_PER_USD)%N in
  let remainder := (c mod ATTO_USD_PER_USD)%N in
  if (remainder =? 0)%N then u128_to_string dollars
  else u128_to_string dollars +:+ "." +:+ trim_end_zeros (padded_digits 18 remainder).

(** [fmt::Display] *)
Definition display (c : UsdCost) : string := "$" +:+ decimal_string c.

Definition is_exponent_mark (c : ascii) : bool := ascii_is 101 c || ascii_is 69 c.
Definition is_point (c : ascii) : bool := ascii_is 46 c.

(** [coefficient * 10^power], when it is a whole number of atto-dollars. *)
Definition scale (coefficient : N) (power : Z) : option UsdCost :=
  if (0 <=? power)%Z then
    e ← u32_try_from power; p ← u128_pow10 e; u128_checked_mul coefficient p
  else
    e ← u32_try_from (- power); divisor ← u128_pow10 e;
    if (coefficient mod divisor =? 0)%N then Some (coefficient / divisor)%N else None.

Definition from_str (value : string) : option UsdCost :=
  let value := trim value in
  let '(mantissa, exponent) :=
    match split_once is_exponent_mark value with
    | None => (value, 0%Z)
    | Some (mantissa, exponent) =>
        match parse_i32 exponent with
        | Some exponent => (mantissa, exponent)
        | None => (EmptyString, 0%Z)
        end
    end in
  if str_is_empty mantissa || starts_with mantissa "-" then None else
  let mantissa := default mantissa (strip_char 43 mantissa) in
  let '(integer, fraction) := default (mantissa, EmptyString) (split_once is_point mantissa) in
  if (str_is_empty integer && str_is_empty fraction)
     || negb (str_forallb is_digit integer) || negb (str_forallb is_digit fraction)
  then None else
  coefficient ← parse_digits u128_MAX (integer +:+ fraction);
  scale coefficient (18 + exponent - Z.of_nat (String.length fraction)).
End UsdCost.

(** ** Usage of one response *)

Module ModelUsage.
Record t : Type := mk {
  input_tokens : option N;
  output_tokens : option N;
  total_tokens : option N;
  cached_input_tokens : option N;
  reasoning_tokens : option N;
  cost_usd : option UsdCost;
}.
#[global] Instance eq_dec : EqDecision t.
Proof. solve_decision. Defined.
#[global] Instance eta_t : Eta t := λ s,
  mk (s.(input_tokens)) (s.(output_tokens)) (s.(total_tokens)) (s.(cached_input_tokens))
     (s.(reasoning_tokens)) (s.(cost_usd)).
(** [Usage::default] *)
Definition default : t := mk None None None None None None.

Definition recorded (u : t) : bool :=
  bool_decide (is_Some u.(input_tokens)) && bool_decide (is_Some u.(output_tokens))
  && bool_decide (is_Some u.(total_tokens)).

(** [Value::get] with a key, [Value::as_u64], [Value::as_str]. *)
Definition get (v : Value) (name : string) : option Value :=
  match v with VObject fields => field name fields | _ => None end.
Definition as_u64 (v : Value) : option N :=
  match v with VNumber text => parse_digits u64_MAX text | _ => None end.

Section parse.
(** [serde_json]'s [Value::to_string] *)
Variable to_string : Value → string.

Definition cost_text (cost : Value) : string :=
  match cost with VString s => s | _ => to_string cost end.

(** The counters as the provider reported them. *)
Definition raw (value : Value) : t := {|
  input_tokens := v ← get value "input_tokens"; as_u64 v;
  output_tokens := v ← get value "output_tokens"; as_u64 v;
  total_tokens := v ← get value "total_tokens"; as_u64 v;
  cached_input_tokens :=
    d ← get value "input_tokens_details"; v ← get d "cached_tokens"; as_u64 v;
  reasoning_tokens :=
    d ← get value "output_tokens_details"; v ← get d "reasoning_tokens"; as_u64 v;
  cost_usd :=
    cost ← match get value "cost" with Some c => Some c | None => get value "response_cost" end;
    UsdCost.from_str (cost_text cost);
|}.

(** Contradictory counters are dropped. *)
Definition reconcile (usage : t) : t :=
  let usage :=
    match usage.(input_tokens), usage.(output_tokens), usage.(total_tokens) with
    | Some input, Some output, Some total =>
        if bool_decide (u64_checked_add input output ≠ Some total)
        then usage <| total_tokens := None |> else usage
    | _, _, _ => usage
    end in
  let usage :=
    match usage.(cached_input_tokens), usage.(input_tokens) with
    | Some cached, Some input =>
        if (input <? cached)%N then usage <| cached_input_tokens := None |> else usage
    | _, _ => usage
    end in
  match usage.(reasoning_tokens), usage.(output_tokens) with
  | Some reasoning, Some output =>
      if (output <? reasoning)%N then usage <| reasoning_tokens := None |> else usage
  | _, _ => usage
  end.

Definition parse (value : Value) : t := reconcile (raw value).
End parse.
End ModelUsage.

(** The price of a token in atto-dollars: (input, cached input, output). *)
Definition rates (m : Model) : option (N * N * N) :=
  match m with
  | Sol => Some (4000000000000, 400000000000, 20000000000000)%N
  | Terra => Some (2000000000000, 200000000000, 12000000000000)%N
  | Luna => Some (200000000000, 20000000000, 1200000000000)%N
  | Astra => Some (10000000000000, 1000000000000, 50000000000000)%N
  | Glm | Spark => None
  end.

Definition catalog_cost (m : Model) (usage : ModelUsage.t) : option UsdCost :=
  input ← usage.(ModelUsage.input_tokens);
  cached ← usage.(ModelUsage.cached_input_tokens);
  output ← usage.(ModelUsage.output_tokens);
  total ← usage.(ModelUsage.total_tokens);
  if (input <? cached)%N || bool_decide (u64_checked_add input output ≠ Some total) then None else
  '(input_rate, cached_rate, output_rate) ← rates m;
  uncached_cost ← u128_checked_mul (input - cached) input_rate;
  cached_cost ← u128_checked_mul cached cached_rate;
  output_cost ← u128_checked_mul output output_rate;
  sum ← u128_checked_add uncached_cost cached_cost;
  u128_checked_add sum output_cost.

(** ** Lemmas on digits *)


Lemma digit_char_digit n : is_digit (digit_char (n mod 10)) = true.
Proof.
  assert (n mod 10 < 10)%N as Hn by by apply N.mod_lt.
  unfold is_digit, ascii_between, digit_char. rewrite N_ascii_embedding by lia.
  generalize dependent (n mod 10)%N. intros k Hk. rewrite andb_true_iff, !N.leb_le. lia.
Qed.
Lemma digit_value_char n : digit_value (digit_char (n mod 10)) = (n mod 10)%N.
Proof.
  assert (n mod 10 < 10)%N as Hn by by apply N.mod_lt.
  unfold digit_value, digit_char. rewrite N_ascii_embedding by lia.
  by rewrite N.add_comm, N.add_sub.
Qed.

Lemma digits_value_app acc s t : digits_value acc (s +:+ t) = digits_value (digits_value acc s) t.
Proof. revert acc. induction s as [|c s IH]; intros acc; [done|]. rewrite str_app_cons. simpl. auto. Qed.
Lemma digits_value_acc acc s :
  digits_value acc s = (acc * 10 ^ N.of_nat (String.length s) + digits_value 0 s)%N.
Proof.
  revert acc. induction s as [|c s IH]; intros acc; [simpl; lia|].
  cbn [digits_value String.length]. rewrite (IH (10 * acc + _)%N), (IH (10 * 0 + _)%N).
  rewrite Nat2N.inj_succ, N.pow_succ_r'. lia.
Qed.

Lemma padded_digits_value w n : digits_value 0 (padded_digits w n) = (n mod 10 ^ N.of_nat w)%N.
Proof.
  revert n. induction w as [|w IH]; intros n; [simpl; by rewrite N.mod_1_r|].
  cbn [padded_digits]. rewrite digits_value_app, IH. cbn [digits_value]. rewrite digit_value_char.
  rewrite Nat2N.inj_succ, N.pow_succ_r', N.Div0.mod_mul_r. lia.
Qed.
Lemma padded_digits_length w n : String.length (padded_digits w n) = w.
Proof. revert n. induction w; intros; simpl; [done|]. rewrite str_length_app, IHw. simpl. lia. Qed.
Lemma padded_digits_digits w n : str_forallb is_digit (padded_digits w n) = true.
Proof.
  revert n. induction w; intros; simpl; [done|]. rewrite str_forallb_app, IHw. simpl.
  by rewrite digit_char_digit.
Qed.

Lemma ascii_is_eq n c : ascii_is n c = true → N_of_ascii c = n.
Proof. unfold ascii_is, ascii_between. rewrite andb_true_iff, !N.leb_le. lia. Qed.

Lemma skip_zeros_value s : digits_value 0 (skip_zeros s) = digits_value 0 s.
Proof.
  induction s as [|c [|d s] IH]; [done..|]. cbn [skip_zeros].
  destruct (ascii_is 48 c) eqn:Hc; [|done]. etransitivity; [apply IH|].
  apply ascii_is_eq in Hc. cbn [digits_value]. by replace (digit_value c) with 0%N
    by (unfold digit_value; by rewrite Hc).
Qed.
Lemma skip_zeros_digits s : str_forallb is_digit s = true → str_forallb is_digit (skip_zeros s) = true.
Proof.
  induction s as [|c [|d s] IH]; [done..|]. intros H. cbn [skip_zeros].
  destruct (ascii_is 48 c); [|done]. apply IH. by apply andb_true_iff in H as [_ ?].
Qed.
Lemma skip_zeros_nonempty s : str_is_empty s = false → str_is_empty (skip_zeros s) = false.
Proof.
  induction s as [|c [|d s] IH]; [done..|]. intros _. cbn [skip_zeros].
  destruct (ascii_is 48 c); [by apply IH|done].
Qed.

Lemma u128_to_string_spec n :
  (n ≤ u128_MAX)%N →
  str_forallb is_digit (u128_to_string n) = true ∧
  str_is_empty (u128_to_string n) = false ∧ digits_value 0 (u128_to_string n) = n.
Proof.
  intros Hn. unfold u128_to_string. split_and!.
  - apply skip_zeros_digits, padded_digits_digits.
  - apply skip_zeros_nonempty. pose proof (padded_digits_length 39 n).
    by destruct (padded_digits 39 n).
  - rewrite skip_zeros_value, padded_digits_value. apply N.mod_small.
    assert (u128_MAX < 10 ^ N.of_nat 39)%N by by vm_compute. lia.
Qed.

(** What [trim_end_matches('0')] drops is worth a power of ten. *)
Lemma trim_end_zeros_value acc s :
  ∃ k, String.length s = String.length (trim_end_zeros s) + k ∧
    digits_value acc s = (digits_value acc (trim_end_zeros s) * 10 ^ N.of_nat k)%N.
Proof.
  revert acc. induction s as [|c s IH]; intros acc; [exists 0%nat; simpl; lia|].
  destruct (IH (10 * acc + digit_value c)%N) as (k & Hlen & Hval).
  cbn [trim_end_zeros String.length digits_value].
  destruct (trim_end_zeros s) as [|d t].
  - destruct (ascii_is 48 c) eqn:Hc.
    + exists (S k). split; [simpl in *; lia|]. rewrite Hval. cbn [digits_value].
      apply ascii_is_eq in Hc. unfold digit_value. rewrite Hc.
      rewrite Nat2N.inj_succ, N.pow_succ_r'. lia.
    + exists k. split; [simpl in *; lia|]. rewrite Hval. done.
  - exists k. split; [simpl in *; lia|]. rewrite Hval. done.
Qed.
Lemma trim_end_zeros_digits s :
  str_forallb is_digit s = true → str_forallb is_digit (trim_end_zeros s) = true.
Proof.
  induction s as [|c s IH]; [done|]. simpl. intros [Hc Hs]%andb_true_iff.
  specialize (IH Hs). destruct (trim_end_zeros s); [|by simpl in *; rewrite Hc].
  destruct (ascii_is 48 c); simpl; by rewrite ?Hc.
Qed.

(** ** Reading back decimal text *)

(** Characters from the full stop to the nine: no white space, no sign, no exponent. *)
Definition is_decimal (c : ascii) : bool := ascii_between 46 57 c.

Lemma decimal_bounds c : is_decimal c = true → (46 ≤ N_of_ascii c ≤ 57)%N.
Proof. unfold is_decimal, ascii_between. rewrite andb_true_iff, !N.leb_le. lia. Qed.
Lemma digit_bounds c : is_digit c = true → (48 ≤ N_of_ascii c ≤ 57)%N.
Proof. unfold is_digit, ascii_between. rewrite andb_true_iff, !N.leb_le. lia. Qed.
Lemma ascii_between_false lo hi c :
  (N_of_ascii c < lo ∨ hi < N_of_ascii c)%N → ascii_between lo hi c = false.
Proof. unfold ascii_between. intros H. apply andb_false_iff. rewrite !N.leb_gt. lia. Qed.
Lemma digit_is_decimal c : is_digit c = true → is_decimal c = true.
Proof.
  intros H%digit_bounds. unfold is_decimal, ascii_between. rewrite andb_true_iff, !N.leb_le. lia.
Qed.

Lemma trim_is_empty_decimal c s : is_decimal c = true → trim_is_empty (String c s) = false.
Proof.
  intros H%decimal_bounds. simpl. unfold ascii_is at 1. rewrite !(ascii_between_false _ _ c) by lia.
  simpl. destruct s as [|b s]; [done|]. unfold ascii_is at 1.
  rewrite !(ascii_between_false _ _ c) by lia. simpl. destruct s as [|d s]; [done|].
  unfold ascii_is. by rewrite !(ascii_between_false _ _ c) by lia.
Qed.
Lemma trim_start_decimal c s : is_decimal c = true → trim_start (String c s) = String c s.
Proof.
  intros H%decimal_bounds. simpl. unfold ascii_is at 1. rewrite !(ascii_between_false _ _ c) by lia.
  simpl. destruct s as [|b s]; [done|]. unfold ascii_is at 1.
  rewrite !(ascii_between_false _ _ c) by lia. simpl. destruct s as [|d s]; [done|].
  unfold ascii_is. by rewrite !(ascii_between_false _ _ c) by lia.
Qed.
Lemma trim_end_decimal s : str_forallb is_decimal s = true → trim_end s = s.
Proof.
  induction s as [|c s IH]; [done|]. cbn [str_forallb]. intros [Hc Hs]%andb_true_iff.
  cbn [trim_end]. by rewrite trim_is_empty_decimal, (IH Hs).
Qed.
Lemma trim_decimal s : str_forallb is_decimal s = true → trim s = s.
Proof.
  intros H. unfold trim. destruct s as [|c s]; [done|].
  rewrite trim_start_decimal by (simpl in H; by apply andb_true_iff in H as [? _]).
  by apply trim_end_decimal.
Qed.

Lemma split_once_none p s : str_forallb (λ c, negb (p c)) s = true → split_once p s = None.
Proof.
  induction s as [|c s IH]; [done|]. simpl. rewrite andb_true_iff, negb_true_iff.
  intros [-> Hs]. by rewrite (IH Hs).
Qed.
Lemma split_once_at p s c t :
  str_forallb (λ c, negb (p c)) s = true → p c = true →
  split_once p (s +:+ String c t) = Some (s, t).
Proof.
  intros Hs Hc. induction s as [|d s IH]; [by simpl; rewrite Hc|].
  rewrite str_app_cons. simpl in *. apply andb_true_iff in Hs as [->%negb_true_iff Hs]. by rewrite (IH Hs).
Qed.

(** Decimal text without sign and exponent is read digit by digit. *)
Lemma from_str_plain c s :
  is_digit c = true → str_forallb is_decimal s = true →
  UsdCost.from_str (String c s) =
    (let '(integer, fraction) := default (String c s, EmptyString) (split_once UsdCost.is_point (String c s)) in
     if (str_is_empty integer && str_is_empty fraction)
        || negb (str_forallb is_digit integer) || negb (str_forallb is_digit fraction)
     then None else
     coefficient ← parse_digits u128_MAX (integer +:+ fraction);
     UsdCost.scale coefficient (18 + 0 - Z.of_nat (String.length fraction))).
Proof.
  intros Hc Hs. unfold UsdCost.from_str.
  assert (Hdec : str_forallb is_decimal (String c s) = true)
    by (cbn [str_forallb]; by rewrite (digit_is_decimal c Hc), Hs).
  rewrite (trim_decimal _ Hdec), (split_once_none UsdCost.is_exponent_mark); last first.
  { eapply str_forallb_impl; [|exact Hdec]. intros d Hd%decimal_bounds.
    unfold UsdCost.is_exponent_mark, ascii_is. by rewrite !ascii_between_false by lia. }
  apply digit_bounds in Hc. cbn [str_is_empty orb].
  assert (starts_with (String c s) "-" = false) as ->.
  { cbn [starts_with]. rewrite bool_decide_eq_false_2; [done|]. intros <-. destruct Hc as [Hc _]. by vm_compute in Hc. }
  assert (strip_char 43 (String c s) = None) as ->; [|done].
  cbn [strip_char]. unfold ascii_is. by rewrite ascii_between_false by lia.
Qed.

Lemma digits_decimal s : str_forallb is_digit s = true → str_forallb is_decimal s = true.
Proof. apply str_forallb_impl, digit_is_decimal. Qed.
Lemma digits_no_point s :
  str_forallb is_digit s = true → str_forallb (λ c, negb (UsdCost.is_point c)) s = true.
Proof.
  apply str_forallb_impl. intros d Hd%digit_bounds. unfold UsdCost.is_point, ascii_is.
  by rewrite ascii_between_false by lia.
Qed.
Lemma parse_digits_ok max s :
  str_forallb is_digit s = true → str_is_empty s = false → (digits_value 0 s ≤ max)%N →
  parse_digits max s = Some (digits_value 0 s).
Proof. intros Hs Hne Hm. unfold parse_digits. by rewrite Hs, Hne, (proj2 (N.leb_le _ _) Hm). Qed.

Lemma from_str_integer s :
  str_forallb is_digit s = true → str_is_empty s = false → (digits_value 0 s ≤ u128_MAX)%N →
  UsdCost.from_str s = UsdCost.scale (digits_value 0 s) 18.
Proof.
  intros Hs Hne Hm. destruct s as [|c s]; [done|].
  assert (is_digit c = true ∧ str_forallb is_digit s = true) as [Hc Ht] by by apply andb_true_iff.
  rewrite from_str_plain by auto using digits_decimal.
  rewrite split_once_none by by apply digits_no_point.
  cbn [default from_option id fst snd str_is_empty andb orb]. rewrite Hs. cbn [str_forallb negb orb].
  replace (String c s +:+ EmptyString) with (String c s); [by rewrite parse_digits_ok|].
  clear. generalize (String c s) as t. induction t as [|d t IH]; [done|].
  rewrite str_app_cons. congruence.
Qed.

Lemma from_str_decimal integer fraction :
  str_forallb is_digit integer = true → str_is_empty integer = false →
  str_forallb is_digit fraction = true →
  (digits_value 0 (integer +:+ fraction) ≤ u128_MAX)%N →
  UsdCost.from_str (integer +:+ "." +:+ fraction) =
    UsdCost.scale (digits_value 0 (integer +:+ fraction))
      (18 - Z.of_nat (String.length fraction)).
Proof.
  intros Hi Hne Hf Hm. destruct integer as [|c s]; [done|].
  assert (is_digit c = true ∧ str_forallb is_digit s = true) as [Hc Ht] by by apply andb_true_iff.
  rewrite !str_app_cons, str_app_nil, from_str_plain; [|done|].
  2: { rewrite str_forallb_app. cbn [str_forallb]. by rewrite !digits_decimal. }
  rewrite <-str_app_cons, split_once_at by (done || by apply digits_no_point).
  cbn [default from_option id fst snd str_is_empty andb orb]. rewrite Hi, Hf. cbn [negb orb].
  rewrite parse_digits_ok; [done| |done|done]. by rewrite str_forallb_app, Hi, Hf.
Qed.

Lemma scale_mul coefficient power :
  (0 ≤ power ≤ 38)%Z → (coefficient * 10 ^ Z.to_N power ≤ u128_MAX)%N →
  UsdCost.scale coefficient power = Some (coefficient * 10 ^ Z.to_N power)%N.
Proof.
  intros Hp Hc. unfold UsdCost.scale, u32_try_from.
  rewrite (proj2 (Z.leb_le 0 power)) by lia. cbn [andb].
  rewrite (proj2 (Z.leb_le power _)) by (unfold u32_MAX; lia). cbn [mbind option_bind].
  unfold u128_pow10. rewrite (proj2 (N.leb_le _ _)) by lia. cbn [mbind option_bind].
  by apply u128_checked_mul_Some.
Qed.

(** ** Properties *)

(** the decimal text of every cost reads back as the same cost: serializing a
    [UsdCost] and parsing it loses nothing, over the whole 128-bit range. *)
Theorem usd_cost_roundtrip (c : UsdCost) :
  (c ≤ u128_MAX)%N → UsdCost.from_str (UsdCost.decimal_string c) = Some c.
Proof.
  intros Hc. unfold UsdCost.decimal_string.
  assert (Hdiv : (c / ATTO_USD_PER_USD ≤ u128_MAX)%N)
    by (etransitivity; [by apply N.Div0.div_le_upper_bound, N.le_mul_l|done]).
  destruct (u128_to_string_spec _ Hdiv) as (Hdig & Hne & Hval).
  pose proof (N.div_mod c ATTO_USD_PER_USD ltac:(done)) as Hsplit.
  set (d := (c / ATTO_USD_PER_USD)%N) in *. set (r := (c mod ATTO_USD_PER_USD)%N) in *.
  destruct (N.eqb_spec r 0) as [Hr|Hr].
  - rewrite from_str_integer by (done || by rewrite Hval). rewrite Hval.
    rewrite scale_mul; change (10 ^ Z.to_N 18)%N with ATTO_USD_PER_USD; [f_equal; lia|lia..].
  - destruct (trim_end_zeros_value (digits_value 0 (u128_to_string d)) (padded_digits 18 r))
      as (k & Hlen & Htrim).
    rewrite padded_digits_length in Hlen.
    set (fraction := trim_end_zeros (padded_digits 18 r)) in *.
    assert (Hr10 : (r mod 10 ^ 18)%N = r) by by apply N.mod_small, N.mod_lt.
    assert (Hcoef : c = (digits_value 0 (u128_to_string d +:+ fraction) * 10 ^ N.of_nat k)%N).
    { rewrite digits_value_app, <-Htrim, digits_value_acc, padded_digits_length, padded_digits_value.
      rewrite Hval. change (N.of_nat 18) with 18%N. rewrite Hr10.
      change (10 ^ 18)%N with ATTO_USD_PER_USD. lia. }
    set (coefficient := digits_value 0 (u128_to_string d +:+ fraction)) in *.
    assert (coefficient ≤ u128_MAX)%N.
    { etransitivity; [|exact Hc]. rewrite Hcoef. rewrite N.mul_comm. apply N.le_mul_l.
      by apply N.pow_nonzero. }
    rewrite from_str_decimal by (done || apply trim_end_zeros_digits, padded_digits_digits).
    replace (18 - Z.of_nat (String.length fraction))%Z with (Z.of_nat k) by lia.
    assert (Hk : Z.to_N (Z.of_nat k) = N.of_nat k) by lia.
    fold coefficient. rewrite scale_mul; rewrite ?Hk, <-?Hcoef; [done|lia|done].
Qed.

Lemma usd_cost_roundtrip_witness :
  UsdCost.from_str (UsdCost.decimal_string 1230000000000000000) = Some 1230000000000000000%N.
Proof. apply (usd_cost_roundtrip 1230000000000000000). by vm_compute. Defined.

Lemma u64_checked_add_Some x y z :
  u64_checked_add x y = Some z ↔ (x + y ≤ u64_MAX)%N ∧ z = (x + y)%N.
Proof. unfold u64_checked_add. destruct (N.leb_spec (x + y) u64_MAX); split; intros; [naive_solver..|lia]. Qed.

(** Usage counters are consistent and of 64 bits. *)
Definition usage_consistent (u : ModelUsage.t) : Prop :=
  (∀ i o t, u.(ModelUsage.input_tokens) = Some i → u.(ModelUsage.output_tokens) = Some o →
     u.(ModelUsage.total_tokens) = Some t → (i + o = t)%N ∧ (t ≤ u64_MAX)%N) ∧
  (∀ c i, u.(ModelUsage.cached_input_tokens) = Some c → u.(ModelUsage.input_tokens) = Some i → (c ≤ i)%N) ∧
  (∀ r o, u.(ModelUsage.reasoning_tokens) = Some r → u.(ModelUsage.output_tokens) = Some o → (r ≤ o)%N).

(** whatever object a provider reports, the usage the harness keeps is
    consistent: the total is the sum of input and output and fits 64 bits, the
    cached tokens are part of the input and the reasoning tokens part of the output. *)
Theorem usage_parse_consistent (to_string : Value → string) (value : Value) :
  usage_consistent (ModelUsage.parse to_string value).
Proof.
  unfold ModelUsage.parse. destruct (ModelUsage.raw to_string value) as [i o t c r u].
  unfold ModelUsage.reconcile, usage_consistent. cbn.
  destruct i as [i|], o as [o|], t as [t|], c as [c|], r as [r|]; cbn;
    repeat (case_bool_decide || match goal with
      | |- context [(?a <? ?b)%N] => destruct (N.ltb_spec a b) end; cbn);
    split_and!; intros; simplify_eq; try done; try lia.
  all: match goal with H : u64_checked_add _ _ = _ |- _ => apply u64_checked_add_Some in H; lia end.
Qed.

(** The price of a usage in exact arithmetic. *)
Definition exact_cost (rate : N * N * N) (input cached output : N) : N :=
  let '(input_rate, cached_rate, output_rate) := rate in
  ((input - cached) * input_rate + cached * cached_rate + output * output_rate)%N.

Lemma rates_bounded m i c o : rates m = Some (i, c, o) →
  (i ≤ 10 ^ 14 ∧ c ≤ 10 ^ 14 ∧ o ≤ 10 ^ 14)%N.
Proof. destruct m; simpl; intros; simplify_eq; split_and!; by vm_compute. Qed.

(** a consistent usage of a priced model is charged its exact price: no step of
    [catalog_cost] overflows 128 bits, whatever the 64-bit counters are. *)
Theorem catalog_cost_exact m rate u input cached output total :
  usage_consistent u →
  u.(ModelUsage.input_tokens) = Some input → u.(ModelUsage.cached_input_tokens) = Some cached →
  u.(ModelUsage.output_tokens) = Some output → u.(ModelUsage.total_tokens) = Some total →
  rates m = Some rate →
  catalog_cost m u = Some (exact_cost rate input cached output).
Proof.
  intros (Hsum & Hcached & _) Hi Hc Ho Ht Hr.
  destruct (Hsum _ _ _ Hi Ho Ht) as [Htot Hmax]. pose proof (Hcached _ _ Hc Hi) as Hle.
  unfold catalog_cost. rewrite Hi, Hc, Ho, Ht. simpl.
  rewrite (proj2 (N.ltb_ge _ _)) by done.
  rewrite (proj2 (u64_checked_add_Some input output total)) by lia. rewrite bool_decide_eq_false_2 by auto.
  rewrite Hr. destruct rate as [[ri rc] ro]. simpl. apply rates_bounded in Hr as (? & ? & ?).
  assert (Hb : (u64_MAX * 10 ^ 14 * 3 ≤ u128_MAX)%N) by by vm_compute.
  assert (∀ x r, x ≤ u64_MAX → r ≤ 10 ^ 14 → x * r ≤ u64_MAX * 10 ^ 14)%N as Hmul
    by (intros; by apply N.mul_le_mono).
  pose proof (Hmul (input - cached) ri ltac:(lia) ltac:(done))%N.
  pose proof (Hmul cached rc ltac:(lia) ltac:(done)).
  pose proof (Hmul output ro ltac:(lia) ltac:(done)).
  unfold u128_checked_mul, u128_checked_add. generalize dependent (u64_MAX * 10 ^ 14)%N. intros.
  do 3 (rewrite (proj2 (N.leb_le _ u128_MAX)) by lia; simpl).
  do 2 (rewrite (proj2 (N.leb_le _ u128_MAX)) by lia; simpl). done.
Qed.

Lemma catalog_cost_exact_witness :
  catalog_cost Sol (ModelUsage.mk (Some 10%N) (Some 5%N) (Some 15%N) (Some 4%N) None None)
    = Some (exact_cost (4000000000000, 400000000000, 20000000000000)%N 10 4 5).
Proof.
  apply (catalog_cost_exact Sol _ _ 10 4 5 15); try reflexivity.
  unfold usage_consistent. simpl. split_and!; intros; simplify_eq; by vm_compute.
Defined.
