(* ===== verification/Representation.v ===== *)
(** * Context representations by cost (crates/harness/src/context_cost.rs)

    A segment of the context is sent as native text or as a bitmap. The profile
    keeps what past calls cost; [estimate] compares pairs of calls that differ
    only in the representation of one segment, and [select] chooses the bitmap
    only when every such pair agrees that it is cheaper. *)

From S2P Require Import Prelude Digest Cost.

Inductive RepresentationKind : Type := Native | Bitmap.
#[global] Instance RepresentationKind_eq_dec : EqDecision RepresentationKind.
Proof. solve_decision. Defined.

Module PairedInputTokens.
Record t : Type := mk { native : N; bitmap : N }.
End PairedInputTokens.

Module Receipt.
Record t : Type := mk {
  input : N;
  cached : N;
  output : N;
  reasoning : N;
  cost : UsdCost;
}.
#[global] Instance eq_dec : EqDecision t.
Proof. solve_decision. Defined.
End Receipt.

Module RepresentationObservation.
Record t : Type := mk {
  version : N;
  model : Model;
  view_revision : N;
  source_history : Digest;
  controls : Digest;
  selected : gmap Digest RepresentationKind;
  paired_input_tokens : gmap Digest PairedInputTokens.t;
  source_bytes : N;
  bitmap_pages : N;
  input_tokens : option N;
  cached_input_tokens : option N;
  output_tokens : option N;
  reasoning_tokens : option N;
  cost : option UsdCost;
}.

(** What the call cost, when every counter was reported and they are consistent. *)
Definition receipt (o : t) : option Receipt.t :=
  input ← o.(input_tokens);
  cached ← o.(cached_input_tokens);
  output ← o.(output_tokens);
  reasoning ← o.(reasoning_tokens);
  if (input <? cached)%N || (output <? reasoning)%N then None
  else cost ← o.(cost); Some (Receipt.mk input cached output reasoning cost).
End RepresentationObservation.

Module RepresentationEstimate.
Record t : Type := mk {
  selected : RepresentationKind;
  native_input_tokens : N;
  bitmap_input_tokens : N;
  native_cost : UsdCost;
  bitmap_cost : UsdCost;
  estimated_savings : UsdCost;
}.
End RepresentationEstimate.

Inductive Recommendation : Type := RecommendNative | MeasureBitmap | RecommendBitmap.

Definition same_other_segments (left right : gmap Digest RepresentationKind) (target : Digest) : bool :=
  bool_decide (base.delete target left = base.delete target right).

Module RepresentationProfile.
Import RepresentationObservation.
Record t : Type := mk { observations : list RepresentationObservation.t }.
Definition default : t := mk [].

Definition observe (p : t) (o : RepresentationObservation.t) : t := mk (p.(observations) ++ [o]).

Definition has_kind (kind : RepresentationKind) (m : Model) (segment : Digest)
    (o : RepresentationObservation.t) : bool :=
  bool_decide (o.(model) = m) && bool_decide (o.(selected) !! segment = Some kind).

(** The conditions of the inner filter. *)
Definition comparable (m : Model) (segment : Digest) (native o : RepresentationObservation.t) : bool :=
  bool_decide (o.(model) = m) && bool_decide (o.(source_history) = native.(source_history))
  && bool_decide (o.(controls) = native.(controls))
  && bool_decide (o.(selected) !! segment = Some Bitmap)
  && same_other_segments native.(selected) o.(selected) segment.

(** The inner loop: the bitmap receipts comparable with one native receipt. *)
Definition pairs_of (observations : list RepresentationObservation.t) (m : Model) (segment : Digest)
    (native : RepresentationObservation.t) (native_receipt : Receipt.t) : list (Receipt.t * Receipt.t) :=
  bitmap ← base.filter (λ o, comparable m segment native o = true) observations;
  match receipt bitmap with
  | None => []
  | Some bitmap_receipt =>
      if bool_decide (native_receipt.(Receipt.output) ≠ bitmap_receipt.(Receipt.output))
         || bool_decide (native_receipt.(Receipt.reasoning) ≠ bitmap_receipt.(Receipt.reasoning))
      then [] else [(native_receipt, bitmap_receipt)]
  end.

Definition pairs (p : t) (m : Model) (segment : Digest) : list (Receipt.t * Receipt.t) :=
  native ← base.filter (λ o, has_kind Native m segment o = true) p.(observations);
  match receipt native with
  | None => []
  | Some native_receipt => pairs_of p.(observations) m segment native native_receipt
  end.

Definition estimate (p : t) (m : Model) (segment : Digest) : option RepresentationEstimate.t :=
  let pairs := pairs p m segment in
  '(native, bitmap) ← head pairs;
  if existsb (λ q, bool_decide (q ≠ (native, bitmap))) pairs then None else
  '(selected, estimated_savings) ←
    (if (bitmap.(Receipt.cost) <? native.(Receipt.cost))%N then
       savings ← UsdCost.checked_sub native.(Receipt.cost) bitmap.(Receipt.cost);
       Some (Bitmap, savings)
     else
       Some (Native,
         from_option id UsdCost.ZERO (UsdCost.checked_sub bitmap.(Receipt.cost) native.(Receipt.cost))));
  Some {|
    RepresentationEstimate.selected := selected;
    RepresentationEstimate.native_input_tokens := native.(Receipt.input);
    RepresentationEstimate.bitmap_input_tokens := bitmap.(Receipt.input);
    RepresentationEstimate.native_cost := native.(Receipt.cost);
    RepresentationEstimate.bitmap_cost := bitmap.(Receipt.cost);
    RepresentationEstimate.estimated_savings := estimated_savings;
  |}.

(** [find_map] over the observations, the latest first. *)
Fixpoint latest_pair (m : Model) (segment : Digest) (reversed : list RepresentationObservation.t) :
    option PairedInputTokens.t :=
  match reversed with
  | [] => None
  | o :: reversed =>
      if bool_decide (o.(model) = m) then
        match o.(paired_input_tokens) !! segment with
        | Some tokens => Some tokens
        | None => latest_pair m segment reversed
        end
      else latest_pair m segment reversed
  end.

Definition recommendation (p : t) (m : Model) (segment : Digest) : Recommendation :=
  match latest_pair m segment (rev p.(observations)) with
  | Some tokens =>
      if (tokens.(PairedInputTokens.bitmap) <? tokens.(PairedInputTokens.native))%N
      then RecommendBitmap else RecommendNative
  | None =>
      match estimate p m segment with
      | Some e =>
          match e.(RepresentationEstimate.selected) with
          | Native => RecommendNative
          | Bitmap => RecommendBitmap
          end
      | None =>
          let native :=
            existsb (λ o, has_kind Native m segment o && bool_decide (is_Some (receipt o)))
              p.(observations) in
          let bitmap_seen := existsb (has_kind Bitmap m segment) p.(observations) in
          if native && negb bitmap_seen then MeasureBitmap else RecommendNative
      end
  end.

Definition select (p : t) (m : Model) (segment : Digest) : RepresentationKind :=
  match estimate p m segment with
  | None => Native
  | Some e => e.(RepresentationEstimate.selected)
  end.
End RepresentationProfile.

(** ** What a comparable pair of calls is *)

(** [native] and [bitmap] are calls of the model that agree on everything but the
    representation of [segment], with receipts that agree on output and reasoning. *)
Inductive comparable_pair (p : RepresentationProfile.t) (m : Model) (segment : Digest)
    (native bitmap : Receipt.t) : Prop :=
| Comparable (native_call bitmap_call : RepresentationObservation.t) :
    native_call ∈ p.(RepresentationProfile.observations) →
    bitmap_call ∈ p.(RepresentationProfile.observations) →
    native_call.(RepresentationObservation.model) = m →
    bitmap_call.(RepresentationObservation.model) = m →
    bitmap_call.(RepresentationObservation.source_history)
      = native_call.(RepresentationObservation.source_history) →
    bitmap_call.(RepresentationObservation.controls)
      = native_call.(RepresentationObservation.controls) →
    native_call.(RepresentationObservation.selected) !! segment = Some Native →
    bitmap_call.(RepresentationObservation.selected) !! segment = Some Bitmap →
    (∀ other, other ≠ segment →
      native_call.(RepresentationObservation.selected) !! other
      = bitmap_call.(RepresentationObservation.selected) !! other) →
    RepresentationObservation.receipt native_call = Some native →
    RepresentationObservation.receipt bitmap_call = Some bitmap →
    native.(Receipt.output) = bitmap.(Receipt.output) →
    native.(Receipt.reasoning) = bitmap.(Receipt.reasoning) →
    comparable_pair p m segment native bitmap.

Lemma same_other_segments_true left right target :
  same_other_segments left right target = true ↔
  ∀ other, other ≠ target → left !! other = right !! other.
Proof.
  unfold same_other_segments. rewrite bool_decide_eq_true. split.
  - intros H other Hne. by rewrite <-(lookup_delete_ne left target), H, lookup_delete_ne.
  - intros H. apply map_eq. intros k. destruct (decide (k = target)) as [->|Hne].
    + by rewrite !lookup_delete_eq.
    + rewrite !lookup_delete_ne by done. by apply H.
Qed.

Lemma elem_of_pairs p m segment n b :
  (n, b) ∈ RepresentationProfile.pairs p m segment ↔ comparable_pair p m segment n b.
Proof.
  unfold RepresentationProfile.pairs, RepresentationProfile.pairs_of. rewrite list_elem_of_bind. split.
  - intros (native & Hin & [Hkind Hobs]%list_elem_of_filter).
    destruct (RepresentationObservation.receipt native) as [rn|] eqn:Hn; [|by apply not_elem_of_nil in Hin].
    apply list_elem_of_bind in Hin as (bitmap & Hin & [Hcmp Hobs']%list_elem_of_filter).
    destruct (RepresentationObservation.receipt bitmap) as [rb|] eqn:Hb; [|by apply not_elem_of_nil in Hin].
    destruct (_ || _) eqn:Hwork; [by apply not_elem_of_nil in Hin|].
    apply list_elem_of_singleton in Hin. simplify_eq.
    apply orb_false_iff in Hwork as [H1%bool_decide_eq_false H2%bool_decide_eq_false].
    apply dec_stable in H1, H2.
    apply andb_true_iff in Hkind as [?%bool_decide_eq_true ?%bool_decide_eq_true].
    unfold RepresentationProfile.comparable in Hcmp. rewrite !andb_true_iff in Hcmp.
    destruct Hcmp as ((((?%bool_decide_eq_true & ?%bool_decide_eq_true) & ?%bool_decide_eq_true)
      & ?%bool_decide_eq_true) & Hs).
    pose proof (proj1 (same_other_segments_true _ _ _) Hs) as Hothers. by apply (Comparable _ _ _ _ _ native bitmap).
  - intros [native bitmap ? ? ? ? ? ? ? ? ? Hn Hb Ho Hr]. exists native. split.
    + rewrite Hn. apply list_elem_of_bind. exists bitmap. rewrite Hb. split.
      * rewrite !bool_decide_eq_false_2 by auto. simpl. by left.
      * apply list_elem_of_filter. split; [|done]. unfold RepresentationProfile.comparable.
        rewrite !andb_true_iff, !bool_decide_eq_true, same_other_segments_true. done.
    + apply list_elem_of_filter. split; [|done]. unfold RepresentationProfile.has_kind.
      by rewrite andb_true_iff, !bool_decide_eq_true.
Qed.

(** The pair [estimate] goes by: every comparable pair has these receipts. *)
Lemma estimate_Some p m segment e :
  RepresentationProfile.estimate p m segment = Some e →
  ∃ n b, comparable_pair p m segment n b ∧
    (∀ n' b', comparable_pair p m segment n' b' → (n', b') = (n, b)) ∧
    (e.(RepresentationEstimate.selected) = Bitmap ↔ (b.(Receipt.cost) < n.(Receipt.cost))%N).
Proof.
  unfold RepresentationProfile.estimate.
  destruct (RepresentationProfile.pairs p m segment) as [|[n b] l] eqn:Hl; [done|]. cbn [head mbind option_bind].
  destruct (existsb _ _) eqn:Hall; [done|]. intros He. exists n, b. split_and!.
  - apply elem_of_pairs. rewrite Hl. by left.
  - intros n' b' Hin%elem_of_pairs. apply dec_stable. intros Hne.
    enough (existsb (λ q, bool_decide (q ≠ (n, b))) ((n, b) :: l) = true) by congruence.
    apply existsb_exists. exists (n', b'). rewrite <-list_elem_of_In, <-Hl, bool_decide_eq_true. done.
  - destruct (N.ltb_spec b.(Receipt.cost) n.(Receipt.cost)) as [Hlt|Hge].
    + apply bind_Some in He as ([sel savings] & (? & _ & ?)%bind_Some & ?). by simplify_eq/=.
    + simpl in He. simplify_eq/=. split; [done|lia].
Qed.

(** the bitmap is selected exactly when at least one pair of recorded calls
    differs only in this segment's representation, all such pairs have the same
    receipts, and the bitmap call was strictly cheaper: missing, contradictory or
    tied observations select native text. *)
Theorem select_bitmap_iff (p : RepresentationProfile.t) (m : Model) (segment : Digest) :
  RepresentationProfile.select p m segment = Bitmap ↔
  ∃ n b, comparable_pair p m segment n b ∧
    (∀ n' b', comparable_pair p m segment n' b' → n' = n ∧ b' = b) ∧
    (b.(Receipt.cost) < n.(Receipt.cost))%N.
Proof.
  unfold RepresentationProfile.select. split.
  - destruct (RepresentationProfile.estimate p m segment) as [e|] eqn:He; [|done]. intros Hsel.
    apply estimate_Some in He as (n & b & Hp & Hall & Hc). exists n, b. split_and!; [done| |by apply Hc].
    intros n' b' ?%Hall. by simplify_eq.
  - intros (n & b & Hp & Hall & Hlt).
    destruct (RepresentationProfile.estimate p m segment) as [e|] eqn:He.
    + apply estimate_Some in He as (n' & b' & [-> ->]%Hall & _ & Hc). by apply Hc.
    + exfalso. revert He. unfold RepresentationProfile.estimate.
      assert (Hin : (n, b) ∈ RepresentationProfile.pairs p m segment) by by apply elem_of_pairs.
      assert (Hsame : ∀ q, q ∈ RepresentationProfile.pairs p m segment → q = (n, b)).
      { intros [n' b'] [-> ->]%elem_of_pairs%Hall. done. }
      destruct (RepresentationProfile.pairs p m segment) as [|q l]; [by apply not_elem_of_nil in Hin|].
      assert (q = (n, b)) as -> by by apply Hsame; left. cbn [head mbind option_bind].
      replace (existsb _ _) with false; last first.
      { symmetry. apply not_true_iff_false. rewrite existsb_exists.
        intros (q' & Hq'%list_elem_of_In & Hne%bool_decide_eq_true). apply Hne, Hsame. done. }
      rewrite (proj2 (N.ltb_lt _ _) Hlt). unfold UsdCost.checked_sub, u128_checked_sub.
      by rewrite (proj2 (N.leb_le _ _)) by lia.
Qed.
