(* ===== verification/Conversation.v ===== *)
(** * The parts of a session (crates/harness/src/session/tool_output.rs,
    interpreter.rs, controller/notification.rs, submission.rs, manual.rs,
    auxiliary.rs, controller/subagents/lifecycle.rs)

    A session is a fold of commands; this file holds the state machines a session
    is made of: the reassembly of tool output from parts, the interpreter's cells,
    the completion hook of each request, and the data of submissions, shell jobs,
    auxiliary turns and child agents. *)

From S2P Require Import Prelude Digest Contract State ArtifactGraph Input Cost.

(** ** Tool output (session/tool_output.rs) *)

Module PendingOutput.
Record t : Type := mk { request : Uuid; text : string }.
#[global] Instance eq_dec : EqDecision t.
Proof. solve_decision. Defined.
End PendingOutput.

Module ToolOutputError.
Inductive t : Type := Part | End_.
#[global] Instance eq_dec : EqDecision t.
Proof. solve_decision. Defined.
End ToolOutputError.

Module ToolOutputBuffers.
Definition t : Type := gmap string PendingOutput.t.
Definition default : t := ∅.
Definition is_empty (b : t) : bool := bool_decide (b = ∅).

Definition append (b : t) (request : Uuid) (call_id : string) (offset : N) (text : string) :
    result t ToolOutputError.t :=
  let? _ := reject_if
    (str_is_empty text || (bool_decide (b !! call_id = None) && negb (offset =? 0)%N))
    ToolOutputError.Part in
  let pending := from_option id (PendingOutput.mk request "") (b !! call_id) in
  let? _ := reject_if
    (negb (PendingOutput.request pending =? request)%N
     || negb (str_len (PendingOutput.text pending) =? offset)%N)
    ToolOutputError.Part in
  Ok (<[call_id := PendingOutput.mk request (PendingOutput.text pending +:+ text)]> b).

Definition finish `{!Sha256} (b : t) (request : Uuid) (call_id : string) (digest : Digest) :
    result (t * string) ToolOutputError.t :=
  let? pending := ok_or (b !! call_id) ToolOutputError.End_ in
  let? _ := reject_if
    (negb (PendingOutput.request pending =? request)%N
     || bool_decide (digest_of (PendingOutput.text pending) ≠ digest))
    ToolOutputError.End_ in
  Ok (base.delete call_id b, PendingOutput.text pending).
End ToolOutputBuffers.

(** ** Interpreter (interpreter.rs) *)

Module CheckpointRef.
Record t : Type := mk { artifact : Digest; source : Digest }.
#[global] Instance eq_dec : EqDecision t.
Proof. solve_decision. Defined.
End CheckpointRef.

Module InterpreterEvent.
Inductive t : Type :=
| Started (cell task : Uuid) (outer_call : string) (source runtime : Digest) (generation : N)
    (environment : Digest)
| CallStarted (cell : Uuid) (ordinal : N) (call_id name : string) (arguments : Digest)
| CallSettled (cell : Uuid) (ordinal : N) (result : Digest)
| Settled (cell : Uuid) (result : Digest) (checkpoint : option CheckpointRef.t) (state_lost : bool).
#[global] Instance eq_dec : EqDecision t.
Proof. solve_decision. Defined.
End InterpreterEvent.

Module CellStatus.
Inductive t : Type := Pending | Settled (result : Digest) | Interrupted.
#[global] Instance eq_dec : EqDecision t.
Proof. solve_decision. Defined.
Definition pending (s : t) : bool := match s with Pending => true | _ => false end.
End CellStatus.

Module CellState.
Record t : Type := mk { request : Uuid; task : Uuid; status : CellStatus.t }.
#[global] Instance eq_dec : EqDecision t.
Proof. solve_decision. Defined.
#[global] Instance eta_t : Eta t := λ s, mk (s.(request)) (s.(task)) (s.(status)).
End CellState.

Module InterpreterState.
Record t : Type := mk {
  checkpoint : option CheckpointRef.t;
  cells : gmap Uuid CellState.t;
  pending_calls : gmap string Uuid;
}.
#[global] Instance eq_dec : EqDecision t.
Proof. solve_decision. Defined.
#[global] Instance eta_t : Eta t := λ s, mk (s.(checkpoint)) (s.(cells)) (s.(pending_calls)).
Definition default : t := mk None ∅ ∅.

Definition is_empty (s : t) : bool :=
  bool_decide (s.(cells) = ∅) && bool_decide (s.(checkpoint) = None).

Definition interrupt_cell (request : Uuid) (cell : CellState.t) : CellState.t :=
  if (CellState.request cell =? request)%N && CellStatus.pending (CellState.status cell)
  then cell <| CellState.status := CellStatus.Interrupted |> else cell.
Definition interrupt (s : t) (request : Uuid) : t :=
  s <| cells := interrupt_cell request <$> s.(cells) |>.

Definition admits (s : t) (call_id : string) (request task : Uuid) : bool :=
  match cell ← s.(pending_calls) !! call_id; s.(cells) !! cell with
  | Some cell =>
      (CellState.request cell =? request)%N && (CellState.task cell =? task)%N
      && CellStatus.pending (CellState.status cell)
  | None => false
  end.

Section apply.
(** The hyphenated text of a [Uuid] (the uuid crate's [Display]). *)
Variable uuid_text : Uuid → string.

Definition call_name (cell : Uuid) (ordinal : N) : string :=
  uuid_text cell +:+ "/" +:+ u128_to_string ordinal.

Definition apply (s : t) (request : Uuid) (event : InterpreterEvent.t) : t :=
  match event with
  | InterpreterEvent.Started cell task _ _ _ _ _ =>
      s <| cells := <[cell := CellState.mk request task CellStatus.Pending]> s.(cells) |>
  | InterpreterEvent.Settled cell result checkpoint' _ =>
      let s := s <| cells := alter (λ c, c <| CellState.status := CellStatus.Settled result |>) cell s.(cells) |> in
      let s := s <| pending_calls := base.filter (λ '(_, owner), owner ≠ cell) s.(pending_calls) |> in
      match checkpoint' with
      | Some _ => s <| checkpoint := checkpoint' |>
      | None => s
      end
  | InterpreterEvent.CallStarted cell _ call_id _ _ =>
      s <| pending_calls := <[call_id := cell]> s.(pending_calls) |>
  | InterpreterEvent.CallSettled cell ordinal _ =>
      s <| pending_calls := base.delete (call_name cell ordinal) s.(pending_calls) |>
  end.
End apply.
End InterpreterState.

(** ** Completion hooks (controller/notification.rs) *)

Module CompletionPayload.
Record t : Type := mk {
  version : N;
  delivery_id : Uuid;
  session : Uuid;
  request : Uuid;
  task : Uuid;
  outcome : Outcome.t;
}.
#[global] Instance eq_dec : EqDecision t.
Proof. solve_decision. Defined.
End CompletionPayload.

Module UnknownReason.
Inductive t : Type := Interrupted | TimedOut | Signaled | WaitFailed.
#[global] Instance eq_dec : EqDecision t.
Proof. solve_decision. Defined.
End UnknownReason.

Module DeliveryResult.
Inductive t : Type :=
| Succeeded | Failed (exit_code : Z) | NotStarted (error : string) | Unknown (reason : UnknownReason.t).
#[global] Instance eq_dec : EqDecision t.
Proof. solve_decision. Defined.
End DeliveryResult.

Module DeliveryState.
Inductive t : Type :=
| Pending
| Attempted (payload : CompletionPayload.t) (result : DeliveryResult.t).
#[global] Instance eq_dec : EqDecision t.
Proof. solve_decision. Defined.
End DeliveryState.

Module CompletionDelivery.
Record t : Type := mk { id : Uuid; command : string; state : DeliveryState.t }.
#[global] Instance eq_dec : EqDecision t.
Proof. solve_decision. Defined.
#[global] Instance eta_t : Eta t := λ s, mk (s.(id)) (s.(command)) (s.(state)).
End CompletionDelivery.

Module DeliveryEvent.
Inductive t : Type :=
| Armed (request : Uuid) (command : string)
| Claimed (payload : CompletionPayload.t)
| Finished (request : Uuid) (result : DeliveryResult.t).
#[global] Instance eq_dec : EqDecision t.
Proof. solve_decision. Defined.

Section apply.
(** [Uuid::new_v5] of a namespace and the bytes of the hook's name for a request,
    [format!("orvek-completion-hook-v1:{request}")]. *)
Variable hook_id : Uuid → Uuid → Uuid.

Definition interrupted : DeliveryResult.t := DeliveryResult.Unknown UnknownReason.Interrupted.

(** [None] is the error "invalid completion delivery transition". *)
Definition apply (session : Uuid) (deliveries : gmap Uuid CompletionDelivery.t) (event : t) :
    option (gmap Uuid CompletionDelivery.t) :=
  match event with
  | Armed request command =>
      match deliveries !! request with
      | None =>
          Some (<[request := CompletionDelivery.mk (hook_id session request) command
                               DeliveryState.Pending]> deliveries)
      | Some _ => None
      end
  | Claimed payload =>
      match deliveries !! CompletionPayload.request payload with
      | Some delivery =>
          if (CompletionPayload.session payload =? session)%N
             && (CompletionPayload.delivery_id payload =? CompletionDelivery.id delivery)%N
             && bool_decide (CompletionDelivery.state delivery = DeliveryState.Pending)
          then Some (<[CompletionPayload.request payload :=
                 delivery <| CompletionDelivery.state := DeliveryState.Attempted payload interrupted |>]>
                 deliveries)
          else None
      | None => None
      end
  | Finished request result =>
      match deliveries !! request with
      | Some delivery =>
          match CompletionDelivery.state delivery with
          | DeliveryState.Attempted payload previous =>
              if bool_decide (previous = interrupted)
              then Some (<[request :=
                     delivery <| CompletionDelivery.state := DeliveryState.Attempted payload result |>]>
                     deliveries)
              else None
          | DeliveryState.Pending => None
          end
      | None => None
      end
  end.

(** The journal's deliveries after a sequence of events. *)
Fixpoint replay (session : Uuid) (deliveries : gmap Uuid CompletionDelivery.t) (events : list t) :
    option (gmap Uuid CompletionDelivery.t) :=
  match events with
  | [] => Some deliveries
  | event :: events => d ← apply session deliveries event; replay session d events
  end.
End apply.
End DeliveryEvent.

(** ** Shell jobs (manual.rs) *)

Definition MAX_COMMAND_BYTES : N := 65536.

(** [str::contains('\0')] *)
Definition contains_nul (s : string) : bool := negb (str_forallb (λ c, negb (ascii_is 0 c)) s).

Module ShellSpec.
Record t : Type := mk {
  command : string;
  expected_task : option Uuid;
  scope_revision : option N;
  timeout_ms : N;
  output_bytes : N;
}.
#[global] Instance eq_dec : EqDecision t.
Proof. solve_decision. Defined.

Definition validate (s : t) : result unit StoreError.t :=
  let? _ := reject_if
    (trim_is_empty s.(command) || (MAX_COMMAND_BYTES <? str_len s.(command))%N
     || contains_nul s.(command)
     || (s.(timeout_ms) =? 0)%N || (300000 <? s.(timeout_ms))%N
     || (s.(output_bytes) =? 0)%N || (1024 * 1024 <? s.(output_bytes))%N)
    (StoreError.Invalid "shell command or execution bounds are invalid") in
  reject_if (bool_decide (is_Some s.(scope_revision)) && bool_decide (s.(expected_task) = None))
    (StoreError.Invalid "shell scope requires its task identity").
End ShellSpec.

Module ManualJob.
Record t : Type := mk {
  job : Uuid;
  task : option Uuid;
  before : Digest;
  origin : Digest;
  environment : Digest;
  started_ms : N;
  scope_revision : option N;
}.
#[global] Instance eq_dec : EqDecision t.
Proof. solve_decision. Defined.
End ManualJob.

(** ** Auxiliary turns (auxiliary.rs) *)

Module AuxiliaryKind.
Inductive t : Type := Conversation | Reflection | Question | Handoff.
#[global] Instance eq_dec : EqDecision t.
Proof. solve_decision. Defined.
End AuxiliaryKind.

Module AuxiliaryContext.
Inductive t : Type := Clean | CurrentConversation.
#[global] Instance eq_dec : EqDecision t.
Proof. solve_decision. Defined.
End AuxiliaryContext.

Module AuxiliaryLimits.
Record t : Type := mk { model_calls : N; tokens : N; elapsed_ms : N }.
#[global] Instance eq_dec : EqDecision t.
Proof. solve_decision. Defined.
Definition default : t := mk 32 256000 600000.
End AuxiliaryLimits.

Module AuxiliarySpec.
Record t : Type := mk {
  kind : AuxiliaryKind.t;
  context : AuxiliaryContext.t;
  review : option Digest;
  limits : AuxiliaryLimits.t;
}.
#[global] Instance eq_dec : EqDecision t.
Proof. solve_decision. Defined.

Definition visible (s : t) : bool :=
  match s.(kind) with
  | AuxiliaryKind.Conversation | AuxiliaryKind.Reflection => true
  | _ => false
  end.

Definition validate (s : t) : result unit StoreError.t :=
  let l := s.(limits) in
  reject_if
    ((AuxiliaryLimits.model_calls l =? 0)%N || (32 <? AuxiliaryLimits.model_calls l)%N
     || (AuxiliaryLimits.tokens l =? 0)%N || (256000 <? AuxiliaryLimits.tokens l)%N
     || (AuxiliaryLimits.elapsed_ms l =? 0)%N || (600000 <? AuxiliaryLimits.elapsed_ms l)%N)
    (StoreError.Invalid "auxiliary limits exceed the supported bounds").
End AuxiliarySpec.

Definition ordinary_conversation_spec : AuxiliarySpec.t :=
  AuxiliarySpec.mk AuxiliaryKind.Conversation AuxiliaryContext.CurrentConversation None
    AuxiliaryLimits.default.

(** ** Submissions (submission.rs) *)

Module Schedule.
Inductive t : Type := Queue | Steer.
#[global] Instance eq_dec : EqDecision t.
Proof. solve_decision. Defined.
Definition default : t := Queue.
End Schedule.

Module OrdinaryKind.
Inductive t : Type := Information | Action.
#[global] Instance eq_dec : EqDecision t.
Proof. solve_decision. Defined.
Definition as_tag (k : t) : string :=
  match k with Information => "information" | Action => "action" end.
End OrdinaryKind.

(** [parse_ordinary_kind] on the JSON value of the classifier's text: an object with
    the one field [kind] ([deny_unknown_fields]), or its sequence form. *)
Definition classifier_kind (output : option Value) : option string :=
  match output with
  | Some (VObject [(key, VString kind)]) => if str_eqb key "kind" then Some kind else None
  | Some (VArray [VString kind]) => Some kind
  | _ => None
  end.

Definition parse_ordinary_kind (output : option Value) : option OrdinaryKind.t :=
  kind ← classifier_kind output;
  if str_eqb kind "information" then Some OrdinaryKind.Information
  else if str_eqb kind "action" then Some OrdinaryKind.Action
  else None.

Module WorkIntent.
Inductive t : Type :=
| Ordinary (limits : Limits.t) (policy : Digest) (schedule : Schedule.t)
| Shell (spec : ShellSpec.t)
| Auxiliary (spec : AuxiliarySpec.t)
| NewTask (limits : Limits.t) (policy : Digest)
| Continue (task : Uuid) (scope_revision : N) (schedule : Schedule.t).
#[global] Instance eq_dec : EqDecision t.
Proof. solve_decision. Defined.
End WorkIntent.

Module SubmissionStatus.
Inductive t : Type :=
| Queued | Running
| Finished (task : option Uuid) (outcome : option Outcome.t) (error : option string)
| Cancelled | Interrupted.
#[global] Instance eq_dec : EqDecision t.
Proof. solve_decision. Defined.
Definition pending (s : t) : bool := match s with Queued | Running => true | _ => false end.
End SubmissionStatus.

Module Submission.
Record t : Type := mk {
  manual_job : option ManualJob.t;
  id : Uuid;
  input : Digest;
  initial_input : Digest;
  records : list Digest;
  result : option Digest;
  intent : WorkIntent.t;
  status : SubmissionStatus.t;
  submitted_revision : N;
  submitted_ms : N;
}.
#[global] Instance eq_dec : EqDecision t.
Proof. solve_decision. Defined.
#[global] Instance eta_t : Eta t := λ s,
  mk (s.(manual_job)) (s.(id)) (s.(input)) (s.(initial_input)) (s.(records)) (s.(result))
     (s.(intent)) (s.(status)) (s.(submitted_revision)) (s.(submitted_ms)).
End Submission.

(** ** Tool output: parts in order give the text back *)

Section tool_output.
Context `{!Sha256}.
Implicit Types b : ToolOutputBuffers.t.

(** The text received so far for a call. *)
Definition buffered b (call_id : string) : string :=
  from_option PendingOutput.text "" (b !! call_id).
(** The buffer of the call, when there is one, belongs to the request. *)
Definition buffer_of b (call_id : string) (request : Uuid) : Prop :=
  ∀ p, b !! call_id = Some p → PendingOutput.request p = request.

Lemma append_ok b request call_id text :
  text ≠ "" → buffer_of b call_id request →
  ToolOutputBuffers.append b request call_id (str_len (buffered b call_id)) text =
    Ok (<[call_id := PendingOutput.mk request (buffered b call_id +:+ text)]> b).
Proof.
  intros Hne Hreq. unfold ToolOutputBuffers.append, buffered.
  replace (str_is_empty text) with false by (by destruct text).
  destruct (b !! call_id) as [[r t]|] eqn:Hb; simpl.
  - rewrite <-(Hreq _ Hb). simpl. by rewrite !N.eqb_refl.
  - rewrite N.eqb_refl. done.
Qed.

(** Only the part that continues the text at its end is accepted. *)
Lemma append_Ok b request call_id offset text b' :
  ToolOutputBuffers.append b request call_id offset text = Ok b' ↔
  text ≠ "" ∧ buffer_of b call_id request ∧ offset = str_len (buffered b call_id) ∧
  b' = <[call_id := PendingOutput.mk request (buffered b call_id +:+ text)]> b.
Proof.
  split; [|by intros (? & ? & -> & ->); apply append_ok].
  unfold ToolOutputBuffers.append, buffer_of, buffered.
  intros ([] & [Hne Hoff]%reject_if_Ok%orb_false_iff & Happ)%rbind_Ok.
  apply rbind_Ok in Happ as ([] & [Hr%negb_false_iff%N.eqb_eq Ho%negb_false_iff%N.eqb_eq]%reject_if_Ok%orb_false_iff & [= <-]).
  destruct (b !! call_id) as [[r t]|]; simpl in *; split_and!; naive_solver.
Qed.

Lemma output_finish_Ok b request call_id digest b' text :
  ToolOutputBuffers.finish b request call_id digest = Ok (b', text) ↔
  b !! call_id = Some (PendingOutput.mk request text) ∧ digest_of text = digest ∧
  b' = base.delete call_id b.
Proof.
  unfold ToolOutputBuffers.finish. destruct (b !! call_id) as [[r t]|]; simpl; [|naive_solver].
  unfold reject_if. destruct (N.eqb_spec r request) as [->|]; simpl; [|naive_solver].
  case_bool_decide; naive_solver.
Qed.

End tool_output.

(** ** The interpreter *)

Section interpreter.
Variable uuid_text : Uuid → string.
Implicit Types s : InterpreterState.t.

(** No call of a cell is admitted once the cell is no longer pending. *)
Definition cell_closed s (cell : Uuid) : Prop :=
  ∃ c, s.(InterpreterState.cells) !! cell = Some c ∧ CellStatus.pending (CellState.status c) = false.

Definition starts (cell : Uuid) (event : InterpreterEvent.t) : Prop :=
  match event with InterpreterEvent.Started c _ _ _ _ _ _ => c = cell | _ => False end.

Lemma interrupt_closed s request cell : cell_closed s cell → cell_closed (InterpreterState.interrupt s request) cell.
Proof.
  intros (c & Hc & Hp). exists (InterpreterState.interrupt_cell request c).
  unfold InterpreterState.interrupt, cell_closed. cbn. rewrite lookup_fmap, Hc. split; [done|].
  unfold InterpreterState.interrupt_cell. by rewrite Hp, andb_false_r.
Qed.

Lemma apply_closed s request event cell :
  ¬ starts cell event → cell_closed s cell →
  cell_closed (InterpreterState.apply uuid_text s request event) cell.
Proof.
  intros Hns (c & Hc & Hp). destruct event as [c' ? ? ? ? ? ?|? ? ? ? ?|? ? ?|c' r [ck|] ?]; unfold cell_closed; cbn.
  - simpl in Hns. exists c. by rewrite lookup_insert_ne.
  - by exists c.
  - by exists c.
  - destruct (decide (c' = cell)) as [->|].
    + eexists. by rewrite lookup_alter_eq, Hc.
    + exists c. by rewrite lookup_alter_ne.
  - destruct (decide (c' = cell)) as [->|].
    + eexists. by rewrite lookup_alter_eq, Hc.
    + exists c. by rewrite lookup_alter_ne.
Qed.

Lemma closed_not_admitted s call_id request task cell :
  s.(InterpreterState.pending_calls) !! call_id = Some cell → cell_closed s cell →
  InterpreterState.admits s call_id request task = false.
Proof.
  intros Hcall (c & Hc & Hp). unfold InterpreterState.admits. rewrite Hcall. simpl. rewrite Hc, Hp.
  apply andb_false_r.
Qed.

Lemma interrupt_not_admitted s request call_id task :
  InterpreterState.admits (InterpreterState.interrupt s request) call_id request task = false.
Proof.
  unfold InterpreterState.admits, InterpreterState.interrupt. cbn.
  destruct (s.(InterpreterState.pending_calls) !! call_id) as [cell|]; simpl; [|done].
  rewrite lookup_fmap. destruct (s.(InterpreterState.cells) !! cell) as [c|]; simpl; [|done].
  unfold InterpreterState.interrupt_cell.
  destruct (CellState.request c =? request)%N eqn:Hr, (CellStatus.pending (CellState.status c)) eqn:Hp;
    simpl; rewrite ?Hr, ?Hp; simpl; by rewrite ?andb_false_r.
Qed.
End interpreter.

(** ** Completion hooks run at most once *)

Section delivery.
Variable hook_id : Uuid → Uuid → Uuid.
Implicit Types d : gmap Uuid CompletionDelivery.t.

Definition event_request (event : DeliveryEvent.t) : Uuid :=
  match event with
  | DeliveryEvent.Armed request _ | DeliveryEvent.Finished request _ => request
  | DeliveryEvent.Claimed payload => CompletionPayload.request payload
  end.

(** The rank of a delivery: absent, armed, claimed, finished. *)
Definition delivery_rank (delivery : option CompletionDelivery.t) : nat :=
  match delivery with
  | None => 0
  | Some delivery =>
      match CompletionDelivery.state delivery with
      | DeliveryState.Pending => 1
      | DeliveryState.Attempted _ result =>
          if bool_decide (result = DeliveryEvent.interrupted) then 2 else 3
      end
  end.

(** The rank an event finds and the rank it leaves. *)
Definition rank_before (event : DeliveryEvent.t) : nat :=
  match event with
  | DeliveryEvent.Armed _ _ => 0
  | DeliveryEvent.Claimed _ => 1
  | DeliveryEvent.Finished _ _ => 2
  end.
Definition rank_after (event : DeliveryEvent.t) : nat :=
  match event with
  | DeliveryEvent.Armed _ _ => 1
  | DeliveryEvent.Claimed _ => 2
  | DeliveryEvent.Finished _ result => if bool_decide (result = DeliveryEvent.interrupted) then 2 else 3
  end.

Lemma delivery_apply_rank session d event d' :
  DeliveryEvent.apply hook_id session d event = Some d' →
  delivery_rank (d !! event_request event) = rank_before event ∧
  delivery_rank (d' !! event_request event) = rank_after event ∧
  (∀ request, request ≠ event_request event → d' !! request = d !! request).
Proof.
  destruct event as [request command|payload|request result]; simpl; intros H.
  - destruct (d !! request); simplify_eq. rewrite lookup_insert_eq. split_and!; [done..|].
    intros. by rewrite lookup_insert_ne.
  - destruct (d !! _) as [delivery|] eqn:Hd; [|done].
    destruct (_ && _ && _) eqn:Hc; simplify_eq.
    apply andb_true_iff in Hc as [_ Hs%bool_decide_eq_true]. rewrite lookup_insert_eq. simpl.
    rewrite Hs. split_and!; [done..|]. intros. by rewrite lookup_insert_ne.
  - destruct (d !! request) as [delivery|] eqn:Hd; [|done]. simpl.
    destruct (CompletionDelivery.state delivery) as [|payload previous] eqn:Hs; [done|].
    case_bool_decide; simplify_eq. rewrite lookup_insert_eq. simpl.
    split_and!; [done..|]. intros. by rewrite lookup_insert_ne.
Qed.

(** Ranks never decrease along a journal. *)
Lemma delivery_replay_rank session d events d' request :
  DeliveryEvent.replay hook_id session d events = Some d' →
  delivery_rank (d !! request) ≤ delivery_rank (d' !! request) ∧
  (∀ event, event ∈ events → event_request event = request →
     delivery_rank (d !! request) ≤ rank_before event).
Proof.
  revert d. induction events as [|event events IH]; intros d; simpl.
  - intros [= <-]. split; [done|]. by intros ? ?%not_elem_of_nil.
  - intros (d1 & Ha & Hr)%bind_Some. apply delivery_apply_rank in Ha as (Hb & Hafter & Hother).
    destruct (IH d1 Hr) as [Hle Hall].
    assert (Hstep : delivery_rank (d !! request) ≤ delivery_rank (d1 !! request)).
    { destruct (decide (request = event_request event)) as [->|Hne]; [|by rewrite Hother].
      rewrite Hb, Hafter. destruct event as [| |? result]; simpl; [lia..|]. case_bool_decide; lia. }
    split; [lia|]. intros e [->|Hin]%elem_of_cons He.
    + by rewrite <-He, Hb.
    + specialize (Hall e Hin He). lia.
Qed.
End delivery.

(** ** Properties *)

(** the hook of a request is claimed at most once and a finished attempt is
    final: in any journal of delivery events that replays, no second claim of a
    request follows the first, and after an attempt is reported with a known
    result no event of that request follows at all. An unacknowledged attempt is
    never run again. *)
Theorem completion_hook_at_most_once (hook_id : Uuid → Uuid → Uuid) (session : Uuid)
    (deliveries deliveries' : gmap Uuid CompletionDelivery.t)
    (before after : list DeliveryEvent.t) (event : DeliveryEvent.t) :
  DeliveryEvent.replay hook_id session deliveries (before ++ event :: after) = Some deliveries' →
  (∀ payload, event = DeliveryEvent.Claimed payload → ∀ later, later ∈ after →
     event_request later = CompletionPayload.request payload →
     ∃ result, later = DeliveryEvent.Finished (CompletionPayload.request payload) result) ∧
  (∀ request result, event = DeliveryEvent.Finished request result →
     result ≠ DeliveryEvent.interrupted → ∀ later, later ∈ after → event_request later ≠ request).
Proof.
  intros Hreplay.
  assert (∃ d1, DeliveryEvent.replay hook_id session d1 (event :: after) = Some deliveries') as [d1 H].
  { clear -Hreplay. revert deliveries Hreplay. induction before as [|e before IH]; intros d H; [by exists d|].
    simpl in H. apply bind_Some in H as (d1 & _ & H). by apply (IH d1). }
  simpl in H. apply bind_Some in H as (d2 & Ha & H).
  apply delivery_apply_rank in Ha as (_ & Hrank & _). split.
  - intros payload -> later Hin Hreq. simpl in Hrank.
    destruct (delivery_replay_rank _ _ _ _ _ (CompletionPayload.request payload) H) as [_ Hall]. specialize (Hall later Hin Hreq).
    rewrite Hrank in Hall. destruct later; simpl in *; [lia..|]. subst. eauto.
  - intros request result -> Hres later Hin Hreq. simpl in Hrank.
    rewrite bool_decide_eq_false_2 in Hrank by done.
    destruct (delivery_replay_rank _ _ _ _ _ request H) as [_ Hall]. specialize (Hall later Hin Hreq).
    rewrite Hrank in Hall. destruct later; simpl in *; lia.
Qed.

Section completion_hook_example.
Definition demo_payload : CompletionPayload.t := CompletionPayload.mk 1 7 1 2 3 Outcome.Complete.

Lemma completion_hook_at_most_once_witness :
  ∃ result, DeliveryEvent.Finished 2 DeliveryResult.Succeeded = DeliveryEvent.Finished 2 result.
Proof.
  refine (proj1 (completion_hook_at_most_once (λ _ _, 7%N) 1 ∅
    (<[2%N := CompletionDelivery.mk 7 "notify" (DeliveryState.Attempted demo_payload DeliveryResult.Succeeded)]> ∅)
    [DeliveryEvent.Armed 2 "notify"] [DeliveryEvent.Finished 2 DeliveryResult.Succeeded]
    (DeliveryEvent.Claimed demo_payload) _) demo_payload eq_refl
    (DeliveryEvent.Finished 2 DeliveryResult.Succeeded) _ eq_refl).
  - by vm_compute.
  - by left.
Defined.
End completion_hook_example.

(** a cell of the interpreter that has settled or was interrupted stays closed
    whatever events follow, unless it is started again, and no call of it is
    admitted; ending a request closes all its cells at once. *)
Theorem interpreter_cells_closed (uuid_text : Uuid → string) (s : InterpreterState.t)
    (events : list (Uuid * InterpreterEvent.t)) (cell : Uuid) :
  cell_closed s cell → Forall (λ e, ¬ starts cell e.2) events →
  let s' := foldl (λ s e, InterpreterState.apply uuid_text s e.1 e.2) s events in
  cell_closed s' cell ∧
  (∀ call_id request task, s'.(InterpreterState.pending_calls) !! call_id = Some cell →
     InterpreterState.admits s' call_id request task = false) ∧
  (∀ call_id request task,
     InterpreterState.admits (InterpreterState.interrupt s' request) call_id request task = false).
Proof.
  intros Hclosed Hevents.
  assert (cell_closed (foldl (λ s e, InterpreterState.apply uuid_text s e.1 e.2) s events) cell) as H.
  { revert s Hclosed. induction Hevents as [|e events He _ IH]; intros s Hs; [done|]. simpl.
    by apply IH, apply_closed. }
  split_and!; [done| |].
  - intros. by eapply closed_not_admitted.
  - intros. apply interrupt_not_admitted.
Qed.

Lemma interpreter_cells_closed_witness :
  let s' := foldl (λ s e, InterpreterState.apply (λ _, "u") s e.1 e.2)
    (InterpreterState.mk None {[ 5%N := CellState.mk 1 2 CellStatus.Interrupted ]} ∅)
    [(1%N, InterpreterEvent.CallStarted 5 1 "u/1" "read" (dexist _ (eq_refl : String.length "0123456789abcdef0123456789abcdef" = 32)))] in
  cell_closed s' 5 ∧
  (∀ call_id request task, s'.(InterpreterState.pending_calls) !! call_id = Some 5%N →
     InterpreterState.admits s' call_id request task = false) ∧
  (∀ call_id request task,
     InterpreterState.admits (InterpreterState.interrupt s' request) call_id request task = false).
Proof.
  apply (interpreter_cells_closed (λ _, "u")
    (InterpreterState.mk None {[ 5%N := CellState.mk 1 2 CellStatus.Interrupted ]} ∅) _ 5).
  - by eexists.
  - repeat constructor. by intros [].
Defined.
