(* ===== verification/Admission.v ===== *)
(** * Session admission (crates/harness/src/admission_profile.rs and the
    admission part of session.rs)

    The authority a session runs under: the harness revision manifest with its
    validated instructions, the binding that names its digests, and the profile
    the host pins on a session. [validate_recorded] checks that all the copies of
    an identity agree. *)

From S2P Require Import Prelude Digest Workspace Input Cost.

(** ** Identities and targets (admission_profile.rs) *)

Inductive Channel : Type := Canary | Stable.
#[global] Instance Channel_eq_dec : EqDecision Channel.
Proof. solve_decision. Defined.

Inductive BaselineReason : Type := UnregisteredTarget | LegacyImport | StoreFixture.
#[global] Instance BaselineReason_eq_dec : EqDecision BaselineReason.
Proof. solve_decision. Defined.

Inductive HarnessProvenance : Type := Registered | CompiledBaseline (reason : BaselineReason).
#[global] Instance HarnessProvenance_eq_dec : EqDecision HarnessProvenance.
Proof. solve_decision. Defined.

(** [ModelIdentity] and the other identities are digests. *)
Module TargetProfile.
Record t : Type := mk {
  model : Digest;
  protocol : Digest;
  environment : Digest;
  task_profile : Digest;
  channel : Channel;
}.
#[global] Instance eq_dec : EqDecision t.
Proof. solve_decision. Defined.
End TargetProfile.

Module HarnessBinding.
Record t : Type := mk {
  target : TargetProfile.t;
  revision : Digest;
  behavior : Digest;
  envelope : Digest;
  policy : Digest;
}.
#[global] Instance eq_dec : EqDecision t.
Proof. solve_decision. Defined.
Definition baseline := mk.
End HarnessBinding.

(** [PinnedBehavior] (monitor.rs) *)
Module PinnedBehavior.
Record t : Type := mk { release : Digest; native_read_output_bytes : N; build : option Digest }.
#[global] Instance eq_dec : EqDecision t.
Proof. solve_decision. Defined.
End PinnedBehavior.
Definition DEFAULT_READ_OUTPUT_BYTES : N := 32768.

(** [Release] (monitor.rs) *)
Module Release.
Record t : Type := mk { parent : option Digest; native_read_output_bytes : N; note : string }.
#[global] Instance eq_dec : EqDecision t.
Proof. solve_decision. Defined.
Definition baseline : t := mk None DEFAULT_READ_OUTPUT_BYTES "compiled native read envelope".
Definition id `{!Sha256, !Serde t} (r : t) : option Digest := of_value r.
Definition validate (r : t) : result unit string :=
  reject_if
    (negb ((4096 <=? r.(native_read_output_bytes)) && (r.(native_read_output_bytes) <=? DEFAULT_READ_OUTPUT_BYTES))%N
     || (1024 <? str_len r.(note))%N)
    "read envelope must be 4096..32768 bytes; provenance at most 1024 bytes".
End Release.

(** ** Harness revisions *)

Definition SCHEMA_VERSION : N := 1.
Definition POLICY_ID : string := "behavior-v1".
Definition MAX_MANIFEST_BYTES : N := 256 * 1024.
Definition MAX_INSTRUCTIONS_BYTES : N := 32 * 1024.

Module ManifestError.
Inductive t : Type :=
| Json | InputTooLarge | UnsupportedSchema (version : N) | UnsupportedPolicy | InvalidInstructions.
#[global] Instance eq_dec : EqDecision t.
Proof. solve_decision. Defined.
End ManifestError.

(** Some character is a control character other than newline and tab: U+0000 to
    U+001F, U+007F, and U+0080 to U+009F as their two bytes. *)
Fixpoint has_control (s : string) : bool :=
  match s with
  | EmptyString => false
  | String a s =>
      (ascii_between 0 31 a && negb (ascii_is 10 a) && negb (ascii_is 9 a)) || ascii_is 127 a
      || (ascii_is 194 a && match s with String b _ => ascii_between 128 159 b | _ => false end)
      || has_control s
  end.

Definition validate_instructions (value : string) : result unit ManifestError.t :=
  let? _ := reject_if
    (trim_is_empty value || (MAX_INSTRUCTIONS_BYTES <? str_len value)%N || has_control value)
    ManifestError.InvalidInstructions in
  let trimmed := trim_start value in
  reject_if (starts_with trimmed "#!" || str_contains (str_lower trimmed) "<script")
    ManifestError.InvalidInstructions.

Module BehaviorManifest.
Record t : Type := mk { instructions : string; native_read : option PinnedBehavior.t }.
End BehaviorManifest.

Module RevisionManifest.
Record t : Type := mk {
  schema_version : N;
  parent : Digest;
  policy_id : string;
  envelope_digest : Digest;
  behavior_digest : Digest;
  behavior : BehaviorManifest.t;
}.
End RevisionManifest.

Module ValidatedHarnessRevision.
Record t : Type := mk {
  canonical : string;
  digest : Digest;
  behavior_digest : Digest;
  envelope_digest : Digest;
  policy_id : string;
  behavior_instructions : string;
  native_read : option PinnedBehavior.t;
}.

Section manifest.
Context `{!Sha256, !Serde RevisionManifest.t, !Serde Value}.

Definition from_manifest_json (manifest : string) : result t ManifestError.t :=
  let? _ := reject_if (MAX_MANIFEST_BYTES <? str_len manifest)%N ManifestError.InputTooLarge in
  let? revision := ok_or (from_slice manifest) ManifestError.Json in
  let? _ := reject_if (negb (RevisionManifest.schema_version revision =? SCHEMA_VERSION)%N)
              (ManifestError.UnsupportedSchema (RevisionManifest.schema_version revision)) in
  let? _ := reject_if (negb (str_eqb (RevisionManifest.policy_id revision) POLICY_ID))
              ManifestError.UnsupportedPolicy in
  let behavior := RevisionManifest.behavior revision in
  let? _ := validate_instructions (BehaviorManifest.instructions behavior) in
  let? _ :=
    match BehaviorManifest.native_read behavior with
    | None => Ok tt
    | Some config =>
        let bytes := PinnedBehavior.native_read_output_bytes config in
        let? _ := reject_if (negb ((4096 <=? bytes) && (bytes <=? DEFAULT_READ_OUTPUT_BYTES))%N)
                    ManifestError.InvalidInstructions in
        let? value := ok_or (from_slice (A := Value) manifest) ManifestError.Json in
        let? behavior_digest := ok_or (of_value (index value "behavior")) ManifestError.Json in
        reject_if (bool_decide (behavior_digest ≠ RevisionManifest.behavior_digest revision))
          ManifestError.InvalidInstructions
    end in
  Ok {|
    canonical := manifest;
    digest := digest_of manifest;
    behavior_digest := RevisionManifest.behavior_digest revision;
    envelope_digest := RevisionManifest.envelope_digest revision;
    policy_id := RevisionManifest.policy_id revision;
    behavior_instructions := BehaviorManifest.instructions behavior;
    native_read := BehaviorManifest.native_read behavior;
  |}.
End manifest.
End ValidatedHarnessRevision.

(** ** Profiles (session.rs) *)

Module SessionAdmissionRequest.
Record t : Type := mk {
  workspace : string;
  model : ModelSettings.t;
  context_window_tokens : N;
  channel : Channel;
}.
#[global] Instance eq_dec : EqDecision t.
Proof. solve_decision. Defined.
Definition canonicalized (r : t) (workspace : string) : t :=
  mk workspace r.(model) r.(context_window_tokens) r.(channel).
End SessionAdmissionRequest.

(** [Path::is_absolute] on Unix *)
Definition path_is_absolute (path : string) : bool := starts_with path "/".

Module SessionAdmissionProfile.
Record t : Type := mk {
  version : N;
  request : SessionAdmissionRequest.t;
  binding : HarnessBinding.t;
  provenance : HarnessProvenance;
  authority : Digest;
  request_digest : Digest;
  revision_manifest : string;
  behavior_instructions : string;
}.
#[global] Instance eq_dec : EqDecision t.
Proof. solve_decision. Defined.
#[global] Instance eta_t : Eta t := λ s,
  mk (s.(version)) (s.(request)) (s.(binding)) (s.(provenance)) (s.(authority))
     (s.(request_digest)) (s.(revision_manifest)) (s.(behavior_instructions)).

Definition workspace (p : t) : string := SessionAdmissionRequest.workspace p.(request).
Definition model (p : t) : ModelSettings.t := SessionAdmissionRequest.model p.(request).
Definition context_window_tokens (p : t) : N :=
  SessionAdmissionRequest.context_window_tokens p.(request).

Section profile.
Context `{!Sha256, !Serde RevisionManifest.t, !Serde Value, !Serde SessionAdmissionRequest.t,
  !Serde ModelSettings.t}.

Definition new (request : SessionAdmissionRequest.t) (binding : HarnessBinding.t)
    (provenance : HarnessProvenance) (authority : Digest)
    (revision : ValidatedHarnessRevision.t) : option t :=
  request_digest ← of_value request;
  Some {|
    version := 1;
    request := request;
    binding := binding;
    provenance := provenance;
    authority := authority;
    request_digest := request_digest;
    revision_manifest := ValidatedHarnessRevision.canonical revision;
    behavior_instructions := ValidatedHarnessRevision.behavior_instructions revision;
  |}.

(** The binding a host derives from a target and a revision. *)
Definition bind_revision (target : TargetProfile.t) (revision : ValidatedHarnessRevision.t)
    (policy : Digest) : HarnessBinding.t :=
  HarnessBinding.baseline target (ValidatedHarnessRevision.digest revision)
    (ValidatedHarnessRevision.behavior_digest revision)
    (ValidatedHarnessRevision.envelope_digest revision) policy.

(** [compiled], given the compiled revision. *)
Definition compiled (revision : ValidatedHarnessRevision.t) (request : SessionAdmissionRequest.t)
    (target : TargetProfile.t) (authority : Digest) (reason : BaselineReason) : option t :=
  new request
    (bind_revision target revision (digest_of (ValidatedHarnessRevision.policy_id revision)))
    (CompiledBaseline reason) authority revision.

(** [with_native_read], given the revision it builds. *)
Definition with_native_read (p : t) (revision : ValidatedHarnessRevision.t) : t :=
  let p := p <| binding :=
    bind_revision (HarnessBinding.target p.(binding)) revision (HarnessBinding.policy p.(binding)) |> in
  let p := p <| revision_manifest := ValidatedHarnessRevision.canonical revision |> in
  p <| provenance := Registered |>.

Definition native_read (p : t) : option PinnedBehavior.t :=
  revision ← to_option (ValidatedHarnessRevision.from_manifest_json p.(revision_manifest));
  ValidatedHarnessRevision.native_read revision.

Definition validate_recorded (p : t) : result unit string :=
  let? _ := reject_if (negb (p.(version) =? 1)%N) "unsupported session admission profile" in
  let? _ := reject_if (negb (path_is_absolute (workspace p)))
              "session workspace must be an absolute directory" in
  let? _ := reject_if (context_window_tokens p =? 0)%N "session context window must be positive" in
  let? _ := reject_if (str_is_empty p.(behavior_instructions)
                       || (32 * 1024 <? str_len p.(behavior_instructions))%N)
              "session behavior instructions exceed their bound" in
  let? _ := reject_if (bool_decide (of_value p.(request) ≠ Some p.(request_digest)))
              "session admission request identity mismatch" in
  let? revision := map_err (λ _, "session harness revision is invalid")
                     (ValidatedHarnessRevision.from_manifest_json p.(revision_manifest)) in
  let? _ := reject_if
    (bool_decide (ValidatedHarnessRevision.digest revision ≠ HarnessBinding.revision p.(binding))
     || bool_decide (ValidatedHarnessRevision.behavior_digest revision ≠ HarnessBinding.behavior p.(binding))
     || bool_decide (ValidatedHarnessRevision.envelope_digest revision ≠ HarnessBinding.envelope p.(binding))
     || bool_decide (digest_of (ValidatedHarnessRevision.policy_id revision) ≠ HarnessBinding.policy p.(binding)))
    "session harness revision differs from its binding" in
  let? _ := reject_if
    (negb (str_eqb (ValidatedHarnessRevision.behavior_instructions revision) p.(behavior_instructions)))
    "session behavior differs from its harness revision" in
  let target := HarnessBinding.target p.(binding) in
  let? model_identity := ok_or (of_value (model p)) "session model identity could not be computed" in
  reject_if
    (bool_decide (TargetProfile.model target ≠ model_identity)
     || bool_decide (TargetProfile.channel target ≠ SessionAdmissionRequest.channel p.(request)))
    "session admission target differs from its request".

(** [validate]: also that the workspace is a directory of this machine. *)
Definition validate (is_dir : string → bool) (p : t) : result unit string :=
  let? _ := reject_if (negb (is_dir (workspace p))) "session workspace must be an absolute directory" in
  validate_recorded p.
End profile.
End SessionAdmissionProfile.

(** ** What a valid profile guarantees *)

Section admission.
Context `{!Sha256, !Serde RevisionManifest.t, !Serde Value, !Serde SessionAdmissionRequest.t,
  !Serde ModelSettings.t}.
Import SessionAdmissionProfile.

Lemma from_manifest_json_Ok manifest revision :
  ValidatedHarnessRevision.from_manifest_json manifest = Ok revision →
  ValidatedHarnessRevision.canonical revision = manifest ∧
  ValidatedHarnessRevision.digest revision = digest_of manifest ∧
  ValidatedHarnessRevision.policy_id revision = POLICY_ID ∧
  validate_instructions (ValidatedHarnessRevision.behavior_instructions revision) = Ok tt.
Proof.
  unfold ValidatedHarnessRevision.from_manifest_json.
  intros (_ & _ & (r & _ & ([] & _ & ([] & Hp & ([] & Hi & (_ & _ & [= <-])%rbind_Ok)%rbind_Ok)%rbind_Ok)%rbind_Ok)%rbind_Ok)%rbind_Ok.
  split_and!; try done. simpl. apply reject_if_Ok, negb_false_iff, bool_decide_eq_true in Hp. done.
Qed.

(** The checks of [validate_recorded], as facts. *)
Lemma validate_recorded_Ok p :
  validate_recorded p = Ok tt →
  ∃ revision,
    ValidatedHarnessRevision.from_manifest_json p.(revision_manifest) = Ok revision ∧
    p.(binding) = bind_revision (HarnessBinding.target p.(binding)) revision (digest_of POLICY_ID) ∧
    ValidatedHarnessRevision.behavior_instructions revision = p.(behavior_instructions) ∧
    of_value p.(request) = Some p.(request_digest) ∧
    of_value (model p) = Some (TargetProfile.model (HarnessBinding.target p.(binding))) ∧
    TargetProfile.channel (HarnessBinding.target p.(binding))
      = SessionAdmissionRequest.channel p.(request).
Proof.
  unfold validate_recorded. intros ([] & _ & Hv)%rbind_Ok.
  do 3 (apply rbind_Ok in Hv as ([] & _ & Hv)).
  apply rbind_Ok in Hv as ([] & Hreq%reject_if_Ok%bool_decide_eq_false & Hv). apply dec_stable in Hreq.
  apply rbind_Ok in Hv as (revision & Hrev%map_err_Ok & Hv).
  apply rbind_Ok in Hv as ([] & Hbind%reject_if_Ok & Hv).
  apply rbind_Ok in Hv as ([] & Hbeh%reject_if_Ok%negb_false_iff%bool_decide_eq_true & Hv).
  apply rbind_Ok in Hv as (identity & Hmodel%ok_or_Ok & Htarget%reject_if_Ok).
  apply orb_false_iff in Htarget as [Ht1%bool_decide_eq_false%dec_stable Ht2%bool_decide_eq_false%dec_stable].
  rewrite !orb_false_iff, !bool_decide_eq_false in Hbind.
  destruct Hbind as (((B1%dec_stable & B2%dec_stable) & B3%dec_stable) & B4%dec_stable).
  destruct (from_manifest_json_Ok _ _ Hrev) as (_ & _ & Hpol & _). rewrite Hpol in B4.
  exists revision. split_and!; try done; [|by rewrite Hmodel, Ht1].
  unfold bind_revision, HarnessBinding.baseline. rewrite B1, B2, B3, B4. by destruct (binding p).
Qed.
End admission.

(** the binding of a valid profile pins everything the session runs under: two
    recorded profiles with the same binding have the same instructions and the same
    native-read configuration, provided SHA-256 does not collide on their two
    manifests. Editing the recorded instructions or manifest is refused. *)
Theorem binding_pins_behavior
    `{!Sha256, !Serde RevisionManifest.t, !Serde Value, !Serde SessionAdmissionRequest.t,
      !Serde ModelSettings.t} (p q : SessionAdmissionProfile.t) :
  SessionAdmissionProfile.validate_recorded p = Ok tt →
  SessionAdmissionProfile.validate_recorded q = Ok tt →
  SessionAdmissionProfile.binding p = SessionAdmissionProfile.binding q →
  (digest_of (SessionAdmissionProfile.revision_manifest p) = digest_of (SessionAdmissionProfile.revision_manifest q) →
   SessionAdmissionProfile.revision_manifest p = SessionAdmissionProfile.revision_manifest q) →
  SessionAdmissionProfile.behavior_instructions p = SessionAdmissionProfile.behavior_instructions q ∧
  SessionAdmissionProfile.native_read p = SessionAdmissionProfile.native_read q ∧
  validate_instructions (SessionAdmissionProfile.behavior_instructions p) = Ok tt ∧
  of_value (SessionAdmissionProfile.model p) = of_value (SessionAdmissionProfile.model q).
Proof.
  intros (rp & Hp & Bp & Ip & _ & Mp & _)%validate_recorded_Ok
    (rq & Hq & Bq & Iq & _ & Mq & _)%validate_recorded_Ok Hb Hcoll.
  destruct (from_manifest_json_Ok _ _ Hp) as (_ & Dp & _ & Vp).
  destruct (from_manifest_json_Ok _ _ Hq) as (_ & Dq & _ & _).
  assert (Hm : SessionAdmissionProfile.revision_manifest p = SessionAdmissionProfile.revision_manifest q).
  { apply Hcoll. rewrite <-Dp, <-Dq.
    apply (f_equal HarnessBinding.revision) in Bp, Bq. cbn in Bp, Bq. congruence. }
  assert (rp = rq) as <- by (rewrite Hm in Hp; congruence).
  split_and!; [congruence| |congruence|congruence].
  unfold SessionAdmissionProfile.native_read. by rewrite Hm.
Qed.

(** ** A concrete profile

    Codecs of the types a profile is made of, for the witness below and for the
    sessions built on it. *)

From S2P Require Import Codec Codecs JsonValue.

#[global] Instance codec_model : Codec Model.
Proof. refine (codec_enum [Sol; Terra; Luna; Astra; Glm; Spark] _). abstract (intros []; set_solver). Defined.
#[global] Instance codec_thinking : Codec Thinking.
Proof. refine (codec_enum [Low; Medium; High; Xhigh; Max] _). abstract (intros []; set_solver). Defined.
#[global] Instance codec_reasoningmode : Codec ReasoningMode.
Proof. refine (codec_enum [Standard; Pro] _). abstract (intros []; set_solver). Defined.
#[global] Instance codec_channel : Codec Channel.
Proof. refine (codec_enum [Canary; Stable] _). abstract (intros []; set_solver). Defined.
#[global] Instance codec_modelsettings : Codec ModelSettings.t.
Proof.
  refine (codec_via (B:=Model * Thinking * ReasoningMode * bool)
    (λ r, (ModelSettings.model r, ModelSettings.thinking r, ModelSettings.reasoning_mode r,
     ModelSettings.fast_mode r))
    (λ '(x0, x1, x2, x3), Some (ModelSettings.mk x0 x1 x2 x3)) _).
  abstract (by intros []).
Defined.
#[global] Instance codec_admissionrequest : Codec SessionAdmissionRequest.t.
Proof.
  refine (codec_via (B:=string * ModelSettings.t * N * Channel)
    (λ r, (SessionAdmissionRequest.workspace r, SessionAdmissionRequest.model r,
     SessionAdmissionRequest.context_window_tokens r, SessionAdmissionRequest.channel r))
    (λ '(x0, x1, x2, x3), Some (SessionAdmissionRequest.mk x0 x1 x2 x3)) _).
  abstract (by intros []).
Defined.
#[global] Instance codec_revisionmanifest : Codec RevisionManifest.t.
Proof.
  refine (codec_via (B:=N * Digest * string * Digest * Digest * string * option (Digest * N * option Digest))
    (λ r, (RevisionManifest.schema_version r, RevisionManifest.parent r, RevisionManifest.policy_id r,
     RevisionManifest.envelope_digest r, RevisionManifest.behavior_digest r,
     BehaviorManifest.instructions (RevisionManifest.behavior r),
     (λ c, (PinnedBehavior.release c, PinnedBehavior.native_read_output_bytes c, PinnedBehavior.build c))
       <$> BehaviorManifest.native_read (RevisionManifest.behavior r)))
    (λ '(x0, x1, x2, x3, x4, x5, x6), Some (RevisionManifest.mk x0 x1 x2 x3 x4
       (BehaviorManifest.mk x5 ((λ '(y0, y1, y2), PinnedBehavior.mk y0 y1 y2) <$> x6)))) _).
  abstract (by intros [????? [? [[]|]]]).
Defined.

#[local] Existing Instance checksum_sha256.

Definition demo_manifest : string :=
  enc (RevisionManifest.mk 1 (checksum "p") POLICY_ID (checksum "e") (checksum "b")
    (BehaviorManifest.mk "Work." None)) "".
Definition demo_request : SessionAdmissionRequest.t :=
  SessionAdmissionRequest.mk "/w" ModelSettings.default 272000 Stable.
Definition demo_revision : ValidatedHarnessRevision.t :=
  ValidatedHarnessRevision.mk demo_manifest (checksum demo_manifest) (checksum "b") (checksum "e")
    POLICY_ID "Work." None.
Definition demo_target : TargetProfile.t :=
  TargetProfile.mk (checksum (enc ModelSettings.default "")) (checksum "x") (checksum "y")
    (checksum "z") Stable.
Definition demo_profile (authority : string) : SessionAdmissionProfile.t :=
  SessionAdmissionProfile.mk 1 demo_request
    (SessionAdmissionProfile.bind_revision demo_target demo_revision (checksum POLICY_ID))
    (CompiledBaseline StoreFixture) (checksum authority) (checksum (enc demo_request ""))
    demo_manifest "Work.".

Lemma demo_profile_valid (authority : string) :
  SessionAdmissionProfile.validate_recorded (demo_profile authority) = Ok tt.
Proof. by vm_compute. Qed.

Lemma binding_pins_behavior_witness :
  SessionAdmissionProfile.behavior_instructions (demo_profile "a")
    = SessionAdmissionProfile.behavior_instructions (demo_profile "b") ∧
  SessionAdmissionProfile.native_read (demo_profile "a") = SessionAdmissionProfile.native_read (demo_profile "b") ∧
  validate_instructions (SessionAdmissionProfile.behavior_instructions (demo_profile "a")) = Ok tt ∧
  of_value (SessionAdmissionProfile.model (demo_profile "a")) = of_value (SessionAdmissionProfile.model (demo_profile "b")).
Proof.
  apply (binding_pins_behavior (demo_profile "a") (demo_profile "b"));
    [apply demo_profile_valid..|reflexivity|reflexivity].
Defined.
