(* ===== verification/Session.v ===== *)
(** * Sessions (crates/harness/src/session.rs and context/transitions.rs)

    The state of one conversation and the command that changes it:
    [SessionState.apply] is the fold step of the session journal. Context
    transitions, proposals of the model that replace a settled range of history in
    the model's view, are validated against this state and kept in it, so they are
    modelled here. *)

From S2P Require Import Prelude Digest Contract State ArtifactGraph Input Cost Representation.
From S2P Require Import Conversation Admission.

(** ** Context data (context.rs, context/transitions.rs, context_render.rs) *)

Module HistoryRange.
Record t : Type := mk { start : N; end_ : N }.
#[global] Instance eq_dec : EqDecision t.
Proof. solve_decision. Defined.
End HistoryRange.

Module SessionCursor.
Record t : Type := mk { version : N; session : Uuid; revision : N }.
#[global] Instance eq_dec : EqDecision t.
Proof. solve_decision. Defined.
End SessionCursor.

Module RenderProfile.
Inductive t : Type := PatchAligned8On16 | PatchAligned8On16Repeated.
#[global] Instance eq_dec : EqDecision t.
Proof. solve_decision. Defined.
Definition id (p : t) : string :=
  match p with
  | PatchAligned8On16 => "ascii-8on16-patch-v1"
  | PatchAligned8On16Repeated => "ascii-8on16-patch-repeat2-v1"
  end.
Definition line_repeat (p : t) : N :=
  match p with PatchAligned8On16 => 1 | PatchAligned8On16Repeated => 2 end.
End RenderProfile.

Module BitmapPage.
Record t : Type := mk {
  source : HistoryRange.t;
  width : N;
  height : N;
  digest : Digest;
  artifact : Digest;
}.
#[global] Instance eq_dec : EqDecision t.
Proof. solve_decision. Defined.
End BitmapPage.

Module BitmapManifest.
Record t : Type := mk {
  version : N;
  renderer : Digest;
  profile : RenderProfile.t;
  source : Digest;
  source_artifact : Digest;
  pages : list BitmapPage.t;
}.
#[global] Instance eq_dec : EqDecision t.
Proof. solve_decision. Defined.
End BitmapManifest.

Module ContextRepresentation.
Inductive t : Type :=
| NativeText (renderer : Digest) (byte_limit : N)
| BitmapOf (manifest : BitmapManifest.t).
#[global] Instance eq_dec : EqDecision t.
Proof. solve_decision. Defined.
End ContextRepresentation.

Module ContextSegmentRole.
Inductive t : Type := StableHistory | OmissionNotice | DerivedSummary | LiveTail.
#[global] Instance eq_dec : EqDecision t.
Proof. solve_decision. Defined.
End ContextSegmentRole.

Module ContextSegment.
Record t : Type := mk {
  role : ContextSegmentRole.t;
  source : SessionCursor.t;
  range : HistoryRange.t;
  input_range : HistoryRange.t;
  source_digest : Digest;
  representation : ContextRepresentation.t;
  input : Digest;
}.
#[global] Instance eq_dec : EqDecision t.
Proof. solve_decision. Defined.
#[global] Instance eta_t : Eta t := λ s,
  mk (s.(role)) (s.(source)) (s.(range)) (s.(input_range)) (s.(source_digest)) (s.(representation))
     (s.(input)).
End ContextSegment.

Module Manifest.
Record t : Type := mk {
  version : N;
  source : SessionCursor.t;
  original_history : Digest;
  renderer : Digest;
  byte_limit : N;
  omitted_items : N;
  interrupted_calls : list string;
  stable_input_items : N;
  segments : list ContextSegment.t;
  input : Digest;
}.
#[global] Instance eq_dec : EqDecision t.
Proof. solve_decision. Defined.
#[global] Instance eta_t : Eta t := λ s,
  mk (s.(version)) (s.(source)) (s.(original_history)) (s.(renderer)) (s.(byte_limit))
     (s.(omitted_items)) (s.(interrupted_calls)) (s.(stable_input_items)) (s.(segments)) (s.(input)).
End Manifest.

Module ContextView.
Record t : Type := mk { manifest : Manifest.t; input : list Value }.
End ContextView.

Module ContextError.
Inductive t : Type :=
| Json | Limit | WindowTokens (value : N) | PendingCall | Transition (reason : string).
#[global] Instance eq_dec : EqDecision t.
Proof. solve_decision. Defined.
End ContextError.

Module TransitionProposal.
Record t : Type := mk {
  range : HistoryRange.t;
  purpose : string;
  summary : string;
  pending_obligations : list string;
}.
End TransitionProposal.

Module ContextTransition.
Record t : Type := mk {
  source : SessionCursor.t;
  source_history_items : N;
  source_history : Digest;
  source_digest : Digest;
  request : Uuid;
  call_id : string;
  proposal : TransitionProposal.t;
}.
Definition range (c : t) : HistoryRange.t := TransitionProposal.range c.(proposal).
End ContextTransition.

(** ** Child agents (controller/subagents/lifecycle.rs) *)

Module Child.
Record Spawn : Type := mkSpawn {
  agent : Uuid;
  request : Uuid;
  task : Uuid;
  role : string;
  task_text : string;
  model : string;
  output_schema : Value;
  context : Digest;
  sequence : N;
}.
Record Message : Type := mkMessage { id : Uuid; text : string; priority : string; purpose : string }.
Inductive Outcome : Type :=
| SchemaValid (result : Digest)
| Unsubmitted (answer : Digest) (diagnostic : string)
| Interrupted (reason : string)
| Failed (reason : string).
Inductive Event : Type :=
| Spawned (spawn : Spawn)
| MessageAccepted (agent : Uuid) (message : Message)
| MessageConsumed (agent message : Uuid)
| Terminal (agent : Uuid) (outcome : Outcome).

(** [Event::operation] over [Uuid::new_v5] *)
Definition operation (new_v5 : Uuid → string → Uuid) (e : Event) : Uuid :=
  match e with
  | Spawned spawn => new_v5 (agent spawn) "child-spawn"
  | MessageAccepted _ message => new_v5 (id message) "child-message-accepted"
  | MessageConsumed _ message => new_v5 message "child-message-consumed"
  | Terminal agent _ => new_v5 agent "child-terminal"
  end.
End Child.

(** ** Session data *)

Module SessionConfig.
Record t : Type := mk {
  workspace : string;
  model : ModelSettings.t;
  instructions : string;
  context_window_tokens : N;
}.
#[global] Instance eq_dec : EqDecision t.
Proof. solve_decision. Defined.
#[global] Instance eta_t : Eta t := λ s,
  mk (s.(workspace)) (s.(model)) (s.(instructions)) (s.(context_window_tokens)).
End SessionConfig.

Module WorkspaceSeed.
Record t : Type := mk { origin : Digest; source : Digest; task : option Uuid }.
#[global] Instance eq_dec : EqDecision t.
Proof. solve_decision. Defined.
End WorkspaceSeed.

Module SessionBranch.
Record t : Type := mk {
  workspace : option WorkspaceSeed.t;
  fresh_context : bool;
  pending_task : option Uuid;
  pending_shell : option Uuid;
}.
#[global] Instance eq_dec : EqDecision t.
Proof. solve_decision. Defined.
#[global] Instance eta_t : Eta t := λ s,
  mk (s.(workspace)) (s.(fresh_context)) (s.(pending_task)) (s.(pending_shell)).
Definition default : t := mk None false None None.
End SessionBranch.

Module ImportedSource.
Record t : Type := mk {
  first_operation : option Uuid;
  import_id : Digest;
  manifest : Digest;
  source_snapshot : Digest;
  source_session : string;
  title : string;
  request_fingerprint : Digest;
}.
#[global] Instance eq_dec : EqDecision t.
Proof. solve_decision. Defined.
End ImportedSource.

Module RecordedToolCall.
Record t : Type := mk { request : Uuid; output : option Digest }.
#[global] Instance eq_dec : EqDecision t.
Proof. solve_decision. Defined.
#[global] Instance eta_t : Eta t := λ s, mk (s.(request)) (s.(output)).
End RecordedToolCall.

Module SessionCommand.
Inductive t : Type :=
| Interpreter (request : Uuid) (event : InterpreterEvent.t)
| CompletionHook (event : DeliveryEvent.t)
| ChildLifecycle (event : Child.Event)
| TraceRecorded (request : Uuid) (record : Digest)
| AdmissionPinned (profile : SessionAdmissionProfile.t) (legacy_config_digest : Digest)
| ReviewRecorded (feedback : Digest)
| LegacyImportBound (fingerprint : Digest)
| ShellStarted (job : ManualJob.t)
| ShellPublished (request : Uuid) (report : Digest) (seed : option WorkspaceSeed.t) (settled : bool)
| WorkspaceSaved (request : Uuid) (seed : WorkspaceSeed.t)
| AuxiliaryStarted
| AuxiliaryRecorded (request : Uuid) (record : Digest)
| AuxiliaryPublished (request : Uuid) (report : Digest) (text : option string)
| QueueMoved (request : Uuid) (expected_input : Digest) (before : option Uuid)
| QueueEdited (request : Uuid) (expected_input : Digest) (input : option Digest)
| Submitted (submission : Submission.t)
| SubmissionChanged (request : Uuid) (status : SubmissionStatus.t)
| Input (kind : RequestKind) (content : list Value)
| Response (request : Uuid) (items : list Value)
| ProviderUsage (request : Uuid) (call : option Uuid) (usage : ModelUsage.t)
    (representation : option RepresentationObservation.t)
| ProviderCost (request call : Uuid) (cost_usd : option UsdCost)
| Feedback (message : string)
| ToolResult (request : Uuid) (call_id output : string)
| ToolResultPart (request : Uuid) (call_id : string) (offset : N) (output : string)
| ToolResultEnd (request : Uuid) (call_id : string) (digest : Digest)
| TaskLinked (request task : Uuid)
| TurnSettled (request : Uuid) (outcome : option Outcome.t) (error : option string)
| SettingsChanged (settings : ModelSettings.t)
| ContextPrepared (request call : Uuid) (manifest : Digest)
| ContextTransitioned (transition : ContextTransition.t)
| ContextProjected (source_revision : N) (view : option ContextView.t) (projection : list Value).
End SessionCommand.

(** [SessionEvent::Created] and [SessionCreation] hold the same fields. *)
Module SessionCreation.
Record t : Type := mk {
  branch : SessionBranch.t;
  config : SessionConfig.t;
  admission : option SessionAdmissionProfile.t;
  parent : option SessionCursor.t;
  history : list Value;
  started_ms : N;
  imported : option ImportedSource.t;
}.
End SessionCreation.

Module SessionEvent.
Inductive t : Type :=
| Created (creation : SessionCreation.t)
| Command (operation : Uuid) (command : SessionCommand.t) (at_ms : N).
End SessionEvent.

Module SessionError.
Inductive t : Type :=
| Json
| InvalidDelivery
| InvalidAdmissionPin
| NoPendingCall
| InactiveRequest
| ToolOutput (e : ToolOutputError.t)
| SettingsImmutable
| Context (e : ContextError.t).
#[global] Instance eq_dec : EqDecision t.
Proof. solve_decision. Defined.
End SessionError.

Module SessionState.
Record t : Type := mk {
  tool_output_buffers : ToolOutputBuffers.t;
  interpreter : InterpreterState.t;
  completion_deliveries : gmap Uuid CompletionDelivery.t;
  feedbacks : gset Digest;
  branch : SessionBranch.t;
  id : Uuid;
  revision : N;
  settled_revision : N;
  admission : option SessionAdmissionProfile.t;
  initial_config : SessionConfig.t;
  config : SessionConfig.t;
  parent : option SessionCursor.t;
  history : list Value;
  settled_history_items : N;
  context_view : option Manifest.t;
  context_transitions : list ContextTransition.t;
  operations : gmap Uuid Digest;
  current_task : option Uuid;
  tasks_by_request : gmap Uuid Uuid;
  tool_calls : gmap string RecordedToolCall.t;
  kind : RequestKind;
  active_request : option Uuid;
  outcome : option Outcome.t;
  error : option string;
  started_ms : N;
  title : option string;
  imported : option ImportedSource.t;
  submissions : gmap Uuid Submission.t;
  queue_order : list Uuid;
}.
#[global] Instance eta_t : Eta t := λ s,
  mk (s.(tool_output_buffers)) (s.(interpreter)) (s.(completion_deliveries)) (s.(feedbacks))
     (s.(branch)) (s.(id)) (s.(revision)) (s.(settled_revision)) (s.(admission)) (s.(initial_config))
     (s.(config)) (s.(parent)) (s.(history)) (s.(settled_history_items)) (s.(context_view))
     (s.(context_transitions)) (s.(operations)) (s.(current_task)) (s.(tasks_by_request))
     (s.(tool_calls)) (s.(kind)) (s.(active_request)) (s.(outcome)) (s.(error)) (s.(started_ms))
     (s.(title)) (s.(imported)) (s.(submissions)) (s.(queue_order)).

Definition cursor (s : t) : SessionCursor.t := SessionCursor.mk 1 s.(id) s.(revision).
Definition fork_cursor (s : t) : SessionCursor.t := SessionCursor.mk 1 s.(id) s.(settled_revision).

Definition workspace (s : t) : string :=
  match s.(admission) with
  | None => SessionConfig.workspace s.(config)
  | Some p => SessionAdmissionProfile.workspace p
  end.
Definition model (s : t) : ModelSettings.t :=
  match s.(admission) with
  | None => SessionConfig.model s.(config)
  | Some p => SessionAdmissionProfile.model p
  end.
Definition context_window_tokens (s : t) : N :=
  match s.(admission) with
  | None => SessionConfig.context_window_tokens s.(config)
  | Some p => SessionAdmissionProfile.context_window_tokens p
  end.
Definition behavior_instructions (s : t) : result string string :=
  let? p := ok_or s.(admission) "session has no trusted admission profile" in
  Ok (SessionAdmissionProfile.behavior_instructions p).
End SessionState.

(** ** Titles *)

(** [str::chars]: each character is its leading byte with the continuation bytes
    (0x80 to 0xBF) that follow it. *)
Fixpoint chars (s : string) : list string :=
  match s with
  | EmptyString => []
  | String a s =>
      match chars s with
      | String b t :: rest =>
          if ascii_between 128 191 b then String a (String b t) :: rest
          else String a EmptyString :: String b t :: rest
      | rest => String a EmptyString :: rest
      end
  end.

(** [char::is_control] *)
Definition char_is_control (c : string) : bool :=
  match c with
  | String a EmptyString => ascii_between 0 31 a || ascii_is 127 a
  | String a (String b EmptyString) => ascii_is 194 a && ascii_between 128 159 b
  | _ => false
  end.

Fixpoint str_concat (separator : string) (l : list string) : string :=
  match l with
  | [] => ""
  | [s] => s
  | s :: l => s +:+ separator +:+ str_concat separator l
  end.

(** [text.chars().filter(|ch| !ch.is_control()).take(120).collect()] *)
Definition clip_title (text : string) : string :=
  str_concat "" (take 120 (base.filter (λ c, char_is_control c = false) (chars text))).

(** [Value::as_str] *)
Definition as_str (v : Value) : option string := match v with VString s => Some s | _ => None end.

Definition first_title (items : list Value) : option string :=
  message ← List.find (λ item, value_is (index item "role") "user") items;
  text ← match as_str (index message "content") with
         | Some text => Some text
         | None =>
             parts ← as_array (index message "content");
             Some (str_concat " " (omap (λ part, as_str (index part "text")) parts))
         end;
  let title := clip_title text in
  Some (if trim_is_empty title then "Image input" else title).

(** ** Context transitions (context/transitions.rs) *)

Definition is_call (item : Value) : bool := value_is (index item "type") "function_call".
Definition is_output (item : Value) : bool := value_is (index item "type") "function_call_output".

(** The calls that await their output after one more item of history. *)
Definition protocol_step (pending : gset string) (item : Value) : result (gset string) ContextError.t :=
  if is_call item then
    let? id := ok_or (as_str (index item "call_id")) (ContextError.Transition "tool call lacks identity") in
    let? _ := reject_if (bool_decide (id ∈ pending))
                (ContextError.Transition "duplicate tool call identity") in
    Ok ({[id]} ∪ pending)
  else if is_output item then
    let? id := ok_or (as_str (index item "call_id")) (ContextError.Transition "tool result lacks identity") in
    let? _ := reject_if (bool_decide (id ∉ pending)) (ContextError.Transition "unpaired tool result") in
    Ok (pending ∖ {[id]})
  else Ok pending.

(** The loop of [validate_proposal] over the history up to the end of the range:
    no call may be open where the range starts. *)
Definition protocol_scan (history : list Value) (range : HistoryRange.t) :
    result (gset string) ContextError.t :=
  let? '(_, pending) :=
    for_each (λ '(i, pending) item,
      let? _ := reject_if ((i =? HistoryRange.start range)%N && bool_decide (pending ≠ ∅))
                  (ContextError.Transition "range starts inside a tool protocol pair") in
      let? pending := protocol_step pending item in
      Ok (i + 1, pending)%N)
    (0%N, ∅) (take (N.to_nat (HistoryRange.end_ range)) history) in
  Ok pending.

Definition ranges_overlap (r q : HistoryRange.t) : bool :=
  (HistoryRange.start r <? HistoryRange.end_ q)%N && (HistoryRange.start q <? HistoryRange.end_ r)%N.

(** The items of a history in a range. *)
Definition slice (history : list Value) (range : HistoryRange.t) : list Value :=
  take (N.to_nat (HistoryRange.end_ range - HistoryRange.start range))
    (drop (N.to_nat (HistoryRange.start range)) history).

Definition history_len (s : SessionState.t) : N := N.of_nat (length (SessionState.history s)).

Definition validate_proposal (s : SessionState.t) (p : TransitionProposal.t) : result unit ContextError.t :=
  let range := TransitionProposal.range p in
  let? _ := reject_if
    ((HistoryRange.end_ range <=? HistoryRange.start range)%N
     || (SessionState.settled_history_items s <? HistoryRange.end_ range)%N
     || (history_len s <? HistoryRange.end_ range)%N)
    (ContextError.Transition "range must be nonempty and entirely settled; active request history is protected") in
  let? _ := reject_if
    (existsb (λ prior, ranges_overlap range (ContextTransition.range prior)) (SessionState.context_transitions s))
    (ContextError.Transition "range overlaps an accepted transition") in
  let obligations := TransitionProposal.pending_obligations p in
  let? _ := reject_if
    (trim_is_empty (TransitionProposal.purpose p) || (1024 <? str_len (TransitionProposal.purpose p))%N
     || trim_is_empty (TransitionProposal.summary p) || (24 * 1024 <? str_len (TransitionProposal.summary p))%N
     || (64 <? length obligations)
     || existsb (λ item, trim_is_empty item || (2048 <? str_len item)%N) obligations)
    (ContextError.Transition "purpose, summary, or declared obligations exceed the tool bounds") in
  let? pending := protocol_scan (SessionState.history s) range in
  reject_if (bool_decide (pending ≠ ∅))
    (ContextError.Transition "range ends inside an unresolved tool protocol pair").

Section transitions.
Context `{!Sha256, !Serde (list Value)}.

Definition validate_source (c : ContextTransition.t) (s : SessionState.t) : result unit ContextError.t :=
  let range := ContextTransition.range c in
  let source := ContextTransition.source c in
  let identity := ContextError.Transition "transition source identity is invalid" in
  let? _ := reject_if
    (negb (SessionCursor.version source =? 1)%N
     || negb (SessionCursor.session source =? SessionState.id s)%N
     || (SessionState.revision s <? SessionCursor.revision source)%N
     || (HistoryRange.end_ range <=? HistoryRange.start range)%N
     || (SessionState.settled_history_items s <? HistoryRange.end_ range)%N
     || (history_len s <? HistoryRange.end_ range)%N
     || (history_len s <? ContextTransition.source_history_items c)%N
     || (ContextTransition.source_history_items c <? HistoryRange.end_ range)%N)
    identity in
  let? history := ok_or
    (of_value (take (N.to_nat (ContextTransition.source_history_items c)) (SessionState.history s)))
    ContextError.Json in
  let? _ := reject_if (bool_decide (history ≠ ContextTransition.source_history c)) identity in
  let? covered := ok_or (of_value (slice (SessionState.history s) range)) ContextError.Json in
  reject_if (bool_decide (covered ≠ ContextTransition.source_digest c)) identity.

(** The model asked for this transition in a call that is still open. *)
Definition proposed (c : ContextTransition.t) (s : SessionState.t) : bool :=
  match SessionState.tool_calls s !! ContextTransition.call_id c with
  | Some call =>
      (RecordedToolCall.request call =? ContextTransition.request c)%N
      && bool_decide (RecordedToolCall.output call = None)
  | None => false
  end
  && existsb (λ item, is_call item && value_is (index item "call_id") (ContextTransition.call_id c)
                      && value_is (index item "name") "transition_context") (SessionState.history s).

Definition validate_acceptance (c : ContextTransition.t) (s : SessionState.t) : result unit ContextError.t :=
  let? _ := reject_if
    (bool_decide (ContextTransition.source c ≠ SessionState.cursor s)
     || negb (ContextTransition.source_history_items c =? history_len s)%N
     || bool_decide (SessionState.active_request s ≠ Some (ContextTransition.request c))
     || negb (proposed c s))
    (ContextError.Transition "transition provenance does not match the active proposal") in
  let? _ := validate_proposal s (ContextTransition.proposal c) in
  validate_source c s.

Definition prepare (s : SessionState.t) (request : Uuid) (call_id : string) (p : TransitionProposal.t) :
    result ContextTransition.t ContextError.t :=
  let? _ := validate_proposal s p in
  let? history := ok_or (of_value (SessionState.history s)) ContextError.Json in
  let? covered := ok_or (of_value (slice (SessionState.history s) (TransitionProposal.range p)))
                    ContextError.Json in
  let transition := ContextTransition.mk (SessionState.cursor s) (history_len s) history covered
                      request call_id p in
  let? _ := validate_acceptance transition s in
  Ok transition.
End transitions.

(** ** Applying a command *)

(** [json!({..})]: serde_json keeps the keys of an object sorted. *)
Definition assistant_message (text : string) : Value :=
  VObject [("content", VString text); ("role", VString "assistant")].
Definition developer_message (text : string) : Value :=
  VObject [("content", VString text); ("role", VString "developer")].
Definition call_output (call_id output : string) : Value :=
  VObject [("call_id", VString call_id); ("output", VString output);
           ("type", VString "function_call_output")].

Module Apply.
Import SessionState.

(** [get_mut(&id)] followed by an assignment. *)
Definition update_submission (f : Submission.t → Submission.t) (request : Uuid) (s : t) : t :=
  s <| submissions := alter f request s.(submissions) |>.

(** [queue_order.retain(|id| id != request)] *)
Definition unqueue (request : Uuid) (queue : list Uuid) : list Uuid :=
  base.filter (λ id, id ≠ request) queue.

(** [queue.insert(position, id)] *)
Definition insert_at (position : nat) (id : Uuid) (queue : list Uuid) : list Uuid :=
  take position queue ++ id :: drop position queue.

Definition move_queue (queue : list Uuid) (request : Uuid) (before : option Uuid) : list Uuid :=
  let queue := unqueue request queue in
  let position :=
    match before ≫= λ b, fst <$> list_find (eq b) queue with
    | Some position => position
    | None => length queue
    end in
  insert_at position request queue.

(** The digests of the reviews an input refers to, in order. *)
Definition review_digests (content : list Value) : result (list Digest) SessionError.t :=
  for_each (λ digests part,
    if value_is (index part "type") "tact_review" then
      let? d := ok_or (digest_from_value (index part "digest")) SessionError.Json in
      Ok (digests ++ [d])
    else Ok digests) []
    (content ≫= λ message, default [] (as_array (index message "content"))).

Definition record_calls (request : Uuid) (items : list Value) (calls : gmap string RecordedToolCall.t) :
    gmap string RecordedToolCall.t :=
  foldl (λ calls item,
    if is_call item then
      match as_str (index item "call_id") with
      | Some id => <[id := RecordedToolCall.mk request None]> calls
      | None => calls
      end
    else calls) calls items.

(** The call is open in the active request. *)
Definition pending_call (s : t) (request : Uuid) (call_id : string) : bool :=
  bool_decide (s.(active_request) = Some request)
  && match s.(tool_calls) !! call_id with
     | Some call => (RecordedToolCall.request call =? request)%N
                    && bool_decide (RecordedToolCall.output call = None)
     | None => false
     end.

Definition begin_request (operation : Uuid) (k : RequestKind) (s : t) : t :=
  let s := s <| active_request := Some operation |> in
  let s := s <| kind := k |> in
  let s := s <| outcome := None |> in
  s <| error := None |>.

Section apply.
Context `{!Sha256, !Serde (list Value), !Serde SessionCommand.t, !Serde SessionConfig.t,
  !Serde RevisionManifest.t, !Serde Value, !Serde SessionAdmissionRequest.t, !Serde ModelSettings.t}.
(** [Uuid::new_v5] for hooks and the text of a [Uuid]. *)
Variable hook_id : Uuid → Uuid → Uuid.
Variable uuid_text : Uuid → string.

Definition tool_result (s : t) (call_id output : string) : t :=
  let s := s <| tool_calls :=
    alter (λ c, c <| RecordedToolCall.output := Some (digest_of output) |>) call_id s.(tool_calls) |> in
  s <| history := s.(history) ++ [call_output call_id output] |>.

(** The end of [apply]: the operation is recorded under the digest of its command
    and the revision advances; between requests everything so far is settled. *)
Definition commit (s : t) (operation : Uuid) (command : SessionCommand.t) : result t SessionError.t :=
  let? digest := ok_or (of_value command) SessionError.Json in
  let s := s <| operations := <[operation := digest]> s.(operations) |> in
  let s := s <| revision := u64_succ s.(revision) |> in
  Ok (if bool_decide (s.(active_request) = None) then
        let s := s <| settled_revision := s.(revision) |> in
        s <| settled_history_items := N.of_nat (length s.(history)) |>
      else s).

(** What a command does before [commit]. *)
Definition effect (s : t) (operation : Uuid) (command : SessionCommand.t) : result t SessionError.t :=
  match command with
  | SessionCommand.CompletionHook event =>
      let? deliveries := ok_or (DeliveryEvent.apply hook_id s.(id) s.(completion_deliveries) event)
                           SessionError.InvalidDelivery in
      Ok (s <| completion_deliveries := deliveries |>)
  | SessionCommand.AdmissionPinned profile legacy_config_digest =>
      let? _ := reject_if (bool_decide (is_Some s.(admission))) SessionError.InvalidAdmissionPin in
      let? digest := ok_or (of_value s.(config)) SessionError.Json in
      let? _ := reject_if (bool_decide (digest ≠ legacy_config_digest)
                           || bool_decide (SessionAdmissionProfile.validate_recorded profile ≠ Ok tt))
                  SessionError.InvalidAdmissionPin in
      Ok (s <| admission := Some profile |>)
  | SessionCommand.ReviewRecorded feedback =>
      Ok (s <| feedbacks := {[feedback]} ∪ s.(feedbacks) |>)
  | SessionCommand.ShellStarted job =>
      let s := s <| branch := s.(branch) <| SessionBranch.pending_shell := Some operation |>
                              <| SessionBranch.workspace :=
                                   Some (WorkspaceSeed.mk (ManualJob.origin job) (ManualJob.before job)
                                           (ManualJob.task job)) |> |> in
      let s := begin_request operation Auxiliary s in
      let s := update_submission (λ b, b <| Submission.manual_job := Some job |>) operation s in
      Ok (match ManualJob.task job with
          | Some task =>
              let s := s <| tasks_by_request := <[operation := task]> s.(tasks_by_request) |> in
              s <| branch := s.(branch) <| SessionBranch.pending_task := Some task |> |>
          | None => s
          end)
  | SessionCommand.ShellPublished request report seed settled =>
      let s := if settled : bool
               then s <| branch := s.(branch) <| SessionBranch.pending_shell := None |> |> else s in
      let s := update_submission (λ b, b <| Submission.result := Some report |>) request s in
      Ok (match seed with
          | Some seed =>
              s <| branch := s.(branch) <| SessionBranch.workspace := Some seed |>
                                        <| SessionBranch.pending_task := None |>
                                        <| SessionBranch.pending_shell := None |> |>
          | None => s
          end)
  | SessionCommand.WorkspaceSaved _ seed =>
      Ok (s <| branch := s.(branch) <| SessionBranch.workspace := Some seed |>
                                    <| SessionBranch.pending_task := None |> |>)
  | SessionCommand.AuxiliaryStarted => Ok (begin_request operation Auxiliary s)
  | SessionCommand.AuxiliaryRecorded request record =>
      Ok (update_submission (λ b, b <| Submission.records := Submission.records b ++ [record] |>) request s)
  | SessionCommand.AuxiliaryPublished request report text =>
      let s := update_submission (λ b, b <| Submission.result := Some report |>) request s in
      Ok (match text with
          | Some text => s <| history := s.(history) ++ [assistant_message text] |>
          | None => s
          end)
  | SessionCommand.QueueMoved request _ before =>
      Ok (s <| queue_order := move_queue s.(queue_order) request before |>)
  | SessionCommand.QueueEdited request _ input =>
      Ok (match s.(submissions) !! request with
          | None => s
          | Some _ =>
              match input with
              | Some input => update_submission (λ b, b <| Submission.input := input |>) request s
              | None => s <| queue_order := insert_at 0 request (unqueue request s.(queue_order)) |>
              end
          end)
  | SessionCommand.Submitted submission =>
      let s := s <| submissions := <[Submission.id submission := submission]> s.(submissions) |> in
      Ok (s <| queue_order := s.(queue_order) ++ [Submission.id submission] |>)
  | SessionCommand.SubmissionChanged request status =>
      let s := update_submission (λ b, b <| Submission.status := status |>) request s in
      Ok (if SubmissionStatus.pending status then s
          else s <| queue_order := unqueue request s.(queue_order) |>)
  | SessionCommand.Input k content =>
      let? digests := review_digests content in
      let s := s <| feedbacks := list_to_set digests ∪ s.(feedbacks) |> in
      let s := match s.(title) with None => s <| title := first_title content |> | Some _ => s end in
      let s := begin_request operation k s in
      Ok (s <| history := s.(history) ++ content |>)
  | SessionCommand.Response request items =>
      let s := s <| tool_calls := record_calls request items s.(tool_calls) |> in
      Ok (s <| history := s.(history) ++ items |>)
  | SessionCommand.Interpreter request event =>
      Ok (s <| interpreter := InterpreterState.apply uuid_text s.(interpreter) request event |>)
  | SessionCommand.Feedback message => Ok (s <| history := s.(history) ++ [developer_message message] |>)
  | SessionCommand.ToolResultPart request call_id offset output =>
      let? _ := reject_if (negb (pending_call s request call_id)) SessionError.NoPendingCall in
      let? buffers := map_err SessionError.ToolOutput
        (ToolOutputBuffers.append s.(tool_output_buffers) request call_id offset output) in
      Ok (s <| tool_output_buffers := buffers |>)
  | SessionCommand.ToolResultEnd request call_id digest =>
      let? _ := reject_if (bool_decide (s.(active_request) ≠ Some request)) SessionError.InactiveRequest in
      let? '(buffers, output) := map_err SessionError.ToolOutput
        (ToolOutputBuffers.finish s.(tool_output_buffers) request call_id digest) in
      Ok (tool_result (s <| tool_output_buffers := buffers |>) call_id output)
  | SessionCommand.ToolResult _ call_id output => Ok (tool_result s call_id output)
  | SessionCommand.TaskLinked request task =>
      let s := s <| branch := s.(branch) <| SessionBranch.pending_task := Some task |> |> in
      let s := s <| current_task := Some task |> in
      Ok (s <| tasks_by_request := <[request := task]> s.(tasks_by_request) |>)
  | SessionCommand.TurnSettled request outcome' error' =>
      let s := s <| interpreter := InterpreterState.interrupt s.(interpreter) request |> in
      let s := s <| tool_output_buffers := ToolOutputBuffers.default |> in
      let s := s <| active_request := None |> in
      let s := s <| outcome := outcome' |> in
      Ok (s <| error := error' |>)
  | SessionCommand.SettingsChanged settings =>
      let? _ := reject_if (bool_decide (is_Some s.(admission))) SessionError.SettingsImmutable in
      Ok (s <| config := s.(config) <| SessionConfig.model := settings |> |>)
  | SessionCommand.ContextTransitioned transition =>
      let? _ := map_err SessionError.Context (validate_acceptance transition s) in
      Ok (s <| context_transitions := s.(context_transitions) ++ [transition] |>)
  | SessionCommand.ContextProjected _ view _ => Ok (s <| context_view := ContextView.manifest <$> view |>)
  | SessionCommand.LegacyImportBound _ | SessionCommand.ProviderUsage _ _ _ _
  | SessionCommand.ProviderCost _ _ _ | SessionCommand.ContextPrepared _ _ _
  | SessionCommand.TraceRecorded _ _ | SessionCommand.ChildLifecycle _ => Ok s
  end.

(** The command whose digest identifies a retry: the end of a fragmented tool
    result stands for the whole result. *)
Definition logical_command (s : t) (command : SessionCommand.t) : SessionCommand.t :=
  match command with
  | SessionCommand.ToolResultEnd request call_id _ =>
      SessionCommand.ToolResult request call_id
        (match s.(tool_output_buffers) !! call_id with
         | Some pending => PendingOutput.text pending
         | None => ""
         end)
  | _ => command
  end.

Definition apply (s : t) (operation : Uuid) (command : SessionCommand.t) : result t SessionError.t :=
  let? s' := effect s operation command in
  commit s' operation (logical_command s command).
End apply.
End Apply.

(** [SessionState::create] *)
Definition create (id : Uuid) (c : SessionCreation.t) : SessionState.t := {|
  SessionState.tool_output_buffers := ToolOutputBuffers.default;
  SessionState.interpreter := InterpreterState.default;
  SessionState.completion_deliveries := ∅;
  SessionState.feedbacks := ∅;
  SessionState.branch := SessionCreation.branch c;
  SessionState.id := id;
  SessionState.revision := 1;
  SessionState.settled_revision := 1;
  SessionState.admission := SessionCreation.admission c;
  SessionState.initial_config := SessionCreation.config c;
  SessionState.config := SessionCreation.config c;
  SessionState.parent := SessionCreation.parent c;
  SessionState.history := SessionCreation.history c;
  SessionState.settled_history_items := N.of_nat (length (SessionCreation.history c));
  SessionState.context_view := None;
  SessionState.context_transitions := [];
  SessionState.operations :=
    match SessionCreation.parent c with
    | None =>
        match SessionCreation.imported c with
        | Some source =>
            match ImportedSource.first_operation source with
            | Some operation => {[ operation := ImportedSource.request_fingerprint source ]}
            | None => ∅
            end
        | None => ∅
        end
    | Some _ => ∅
    end;
  SessionState.current_task := None;
  SessionState.tasks_by_request := ∅;
  SessionState.tool_calls := ∅;
  SessionState.kind := Conversation;
  SessionState.active_request := None;
  SessionState.outcome := None;
  SessionState.error := None;
  SessionState.started_ms := SessionCreation.started_ms c;
  SessionState.title :=
    match SessionCreation.imported c with
    | Some source => Some (clip_title (ImportedSource.title source))
    | None => first_title (SessionCreation.history c)
    end;
  SessionState.imported := SessionCreation.imported c;
  SessionState.submissions := ∅;
  SessionState.queue_order := [];
|}.

(** ** Lemmas *)

Lemma Ok_inj {A E} (a b : A) : @Ok A E a = Ok b → a = b.
Proof. congruence. Qed.

(** The accepted transitions cover disjoint ranges. *)
Definition disjoint_ranges (l : list ContextTransition.t) : Prop :=
  ∀ i j c d, i < j → l !! i = Some c → l !! j = Some d →
    ranges_overlap (ContextTransition.range d) (ContextTransition.range c) = false.

Lemma take_prefix {A} (n : nat) (l k : list A) : l `prefix_of` k → n ≤ length l → take n k = take n l.
Proof. intros [m ->] Hn. by rewrite take_app_le. Qed.

Lemma slice_prefix (l k : list Value) (r : HistoryRange.t) :
  l `prefix_of` k → (HistoryRange.end_ r ≤ N.of_nat (length l))%N → slice k r = slice l r.
Proof.
  intros Hp He. unfold slice.
  destruct (N.le_gt_cases (HistoryRange.end_ r) (HistoryRange.start r)) as [Hle|Hlt].
  { replace (HistoryRange.end_ r - HistoryRange.start r)%N with 0%N by lia. done. }
  rewrite !take_drop_commute. f_equal. apply take_prefix; [done|lia].
Qed.

(** One state extends another: the history grows, nothing settled is undone. *)
Record extends (s s' : SessionState.t) : Prop := {
  ex_id : SessionState.id s' = SessionState.id s;
  ex_revision : (SessionState.revision s ≤ SessionState.revision s')%N;
  ex_settled : (SessionState.settled_history_items s ≤ SessionState.settled_history_items s')%N;
  ex_history : SessionState.history s `prefix_of` SessionState.history s';
}.

Lemma extends_refl s : extends s s.
Proof. by split. Qed.
Lemma extends_trans s1 s2 s3 : extends s1 s2 → extends s2 s3 → extends s1 s3.
Proof.
  intros [] []. split; [congruence|lia|lia|]. etransitivity; eassumption.
Qed.

Section session.
Context `{!Sha256, !Serde (list Value), !Serde SessionCommand.t, !Serde SessionConfig.t,
  !Serde RevisionManifest.t, !Serde Value, !Serde SessionAdmissionRequest.t, !Serde ModelSettings.t}.
Variable hook_id : Uuid → Uuid → Uuid.
Variable uuid_text : Uuid → string.
Implicit Types s : SessionState.t.

(** A transition accepted in a state stays valid in every state that extends it. *)
Lemma validate_source_extends c s s' :
  extends s s' → validate_source c s = Ok tt → validate_source c s' = Ok tt.
Proof.
  intros [Hid Hrev Hset Hhist]. unfold validate_source, history_len.
  pose proof (prefix_length _ _ Hhist) as Hlen.
  intros ([] & Hb%reject_if_Ok & Hv)%rbind_Ok. rewrite !orb_false_iff in Hb.
  destruct Hb as [[[[[[[Hver Hses] Hrevc] Hne] Hs] He] Hi] Hie].
  apply negb_false_iff, N.eqb_eq in Hver, Hses. apply N.ltb_ge in Hrevc, Hs, He, Hi, Hie.
  rewrite Hver, Hses, Hne, Hid, !N.eqb_refl. cbn [negb orb].
  repeat rewrite (proj2 (N.ltb_ge _ _)) by lia. cbn [orb reject_if rbind].
  rewrite (take_prefix _ _ _ Hhist) by lia. by rewrite (slice_prefix _ _ _ Hhist) by done.
Qed.

(** What every command leaves alone, and what it may do to the transitions. *)
Lemma effect_frame s operation command s' :
  Apply.effect hook_id uuid_text s operation command = Ok s' →
  SessionState.id s' = SessionState.id s ∧
  SessionState.revision s' = SessionState.revision s ∧
  SessionState.settled_revision s' = SessionState.settled_revision s ∧
  SessionState.settled_history_items s' = SessionState.settled_history_items s ∧
  SessionState.operations s' = SessionState.operations s ∧
  SessionState.history s `prefix_of` SessionState.history s' ∧
  (SessionState.context_transitions s' = SessionState.context_transitions s ∨
   ∃ c, validate_acceptance c s = Ok tt ∧ SessionState.history s' = SessionState.history s ∧
     SessionState.context_transitions s' = SessionState.context_transitions s ++ [c]).
Proof.
  intros He. destruct command; cbn [Apply.effect] in He;
    repeat match goal with
    | H : rbind _ _ = Ok _ |- _ =>
        let x := fresh "x" in let Hx := fresh "Hx" in apply rbind_Ok in H; destruct H as (x & Hx & H)
    | H : (match ?x with (_, _) => _ end) = Ok _ |- _ => destruct x
    | H : Ok _ = Ok _ |- _ => apply Ok_inj in H; rewrite <-H; clear H
    end;
    repeat match goal with |- context [match ?x with _ => _ end] => destruct x end;
    try (split_and!; [reflexivity..|first [reflexivity | by apply prefix_app_r]|by left]).
  all: split_and!; try reflexivity.
  all: right; eexists; split_and!; [|reflexivity..].
  all: match goal with H : map_err _ _ = Ok ?u |- _ => apply map_err_Ok in H; destruct u; exact H end.
Qed.

(** The end of a command. *)
Lemma commit_frame s operation command s' :
  (SessionState.revision s < u64_MAX)%N →
  Apply.commit s operation command = Ok s' →
  SessionState.id s' = SessionState.id s ∧
  SessionState.revision s' = (SessionState.revision s + 1)%N ∧
  SessionState.history s' = SessionState.history s ∧
  SessionState.context_transitions s' = SessionState.context_transitions s ∧
  SessionState.active_request s' = SessionState.active_request s ∧
  (SessionState.active_request s = None →
     SessionState.settled_revision s' = SessionState.revision s' ∧
     SessionState.settled_history_items s' = N.of_nat (length (SessionState.history s'))) ∧
  (SessionState.active_request s ≠ None →
     SessionState.settled_revision s' = SessionState.settled_revision s ∧
     SessionState.settled_history_items s' = SessionState.settled_history_items s) ∧
  ∃ digest, of_value command = Some digest ∧
    SessionState.operations s' = <[operation := digest]> (SessionState.operations s).
Proof.
  intros Hrev Hc. unfold Apply.commit in Hc.
  apply rbind_Ok in Hc as (digest & Hd%ok_or_Ok & Hc%Ok_inj). rewrite <-Hc. clear Hc.
  pose proof (u64_succ_small _ Hrev) as Hsucc.
  match goal with |- context [bool_decide ?P] => destruct (bool_decide P) eqn:Ha end.
  - apply bool_decide_eq_true in Ha. split_and!; try reflexivity; [exact Hsucc|done| |by exists digest].
    intros Hn. by destruct (Hn Ha).
  - apply bool_decide_eq_false in Ha. split_and!; try reflexivity; [exact Hsucc| |done|by exists digest].
    intros Hn. by destruct (Ha Hn).
Qed.

(** ** Well-formed sessions *)

Record session_ok s : Prop := {
  ok_settled_revision : (SessionState.settled_revision s ≤ SessionState.revision s)%N;
  ok_settled_items : (SessionState.settled_history_items s ≤ N.of_nat (length (SessionState.history s)))%N;
  ok_idle : SessionState.active_request s = None →
    SessionState.settled_revision s = SessionState.revision s ∧
    SessionState.settled_history_items s = N.of_nat (length (SessionState.history s));
  ok_transitions : Forall (λ c, validate_source c s = Ok tt) (SessionState.context_transitions s);
  ok_disjoint : disjoint_ranges (SessionState.context_transitions s);
}.

Lemma apply_frame s operation command s' :
  session_ok s → (SessionState.revision s < u64_MAX)%N →
  Apply.apply hook_id uuid_text s operation command = Ok s' →
  extends s s' ∧ SessionState.revision s' = (SessionState.revision s + 1)%N ∧
  (SessionState.context_transitions s' = SessionState.context_transitions s ∨
   ∃ c, validate_acceptance c s = Ok tt ∧
     SessionState.context_transitions s' = SessionState.context_transitions s ++ [c]).
Proof.
  intros Hok Hrev Ha. unfold Apply.apply in Ha. apply rbind_Ok in Ha as (s1 & He & Hc).
  apply effect_frame in He as (Hid & Hr & Hsr & Hsi & _ & Hh & Ht).
  apply commit_frame in Hc as (Hid' & Hr' & Hh' & Ht' & Ha' & Hidle & Hbusy & _); [|by rewrite Hr].
  split_and!.
  - split; [congruence|lia| |by rewrite Hh'].
    pose proof (ok_settled_items _ Hok). pose proof (prefix_length _ _ Hh).
    destruct (decide (SessionState.active_request s1 = None)) as [Hn|Hn].
    + destruct (Hidle Hn) as [_ ->]. rewrite Hh'. lia.
    + destruct (Hbusy Hn) as [_ ->]. by rewrite Hsi.
  - by rewrite Hr', Hr.
  - rewrite Ht'. destruct Ht as [->|(c & ? & _ & ->)]; eauto.
Qed.

Lemma validate_proposal_disjoint s p :
  validate_proposal s p = Ok tt →
  ∀ prior, prior ∈ SessionState.context_transitions s →
    ranges_overlap (TransitionProposal.range p) (ContextTransition.range prior) = false.
Proof.
  unfold validate_proposal. intros ([] & _ & ([] & Hn%reject_if_Ok & _)%rbind_Ok)%rbind_Ok prior Hin.
  apply not_true_iff_false. intros Ho. apply not_true_iff_false in Hn. apply Hn, existsb_exists.
  exists prior. by rewrite <-list_elem_of_In.
Qed.

Lemma apply_session_ok s operation command s' :
  session_ok s → (SessionState.revision s < u64_MAX)%N →
  Apply.apply hook_id uuid_text s operation command = Ok s' → session_ok s'.
Proof.
  intros Hok Hrev Happ. pose proof (apply_frame _ _ _ _ Hok Hrev Happ) as (Hext & Hr & Ht).
  unfold Apply.apply in Happ. apply rbind_Ok in Happ as (s1 & He & Hc).
  apply effect_frame in He as (_ & Hr1 & Hsr & Hsi & _ & Hh & _).
  apply commit_frame in Hc as (_ & _ & Hh' & _ & Ha' & Hidle & Hbusy & _); [|by rewrite Hr1].
  pose proof (prefix_length _ _ Hh) as Hlen. destruct Hok as [Hsr0 Hsi0 Hidle0 Htr0 Hd0].
  assert (Hsettled : (SessionState.settled_revision s' ≤ SessionState.revision s')%N ∧
    (SessionState.settled_history_items s' ≤ N.of_nat (length (SessionState.history s')))%N).
  { destruct (decide (SessionState.active_request s1 = None)) as [Hn|Hn].
    - destruct (Hidle Hn) as [-> ->]. lia.
    - destruct (Hbusy Hn) as [-> ->]. rewrite Hr, Hh', Hsr, Hsi. lia. }
  split; [apply Hsettled..| | |].
  - rewrite Ha'. intros Hn. by apply Hidle.
  - assert (Hold : Forall (λ c, validate_source c s' = Ok tt) (SessionState.context_transitions s)).
    { eapply Forall_impl; [exact Htr0|]. intros c. by apply validate_source_extends. }
    destruct Ht as [->|(c & Hacc & ->)]; [done|]. apply Forall_app. split; [done|].
    apply Forall_singleton. apply (validate_source_extends _ s); [done|].
    unfold validate_acceptance in Hacc. by apply rbind_Ok in Hacc as ([] & _ & ([] & _ & ?)%rbind_Ok).
  - destruct Ht as [->|(c & Hacc & ->)]; [done|].
    unfold validate_acceptance in Hacc. apply rbind_Ok in Hacc as ([] & _ & ([] & Hp & _)%rbind_Ok).
    intros i j a b Hij Hi Hj. apply lookup_app_Some in Hj as [Hj|[Hlen' Hj]].
    + rewrite lookup_app_l in Hi by (apply lookup_lt_Some in Hj; lia). by eapply Hd0.
    + apply list_lookup_singleton_Some in Hj as [Hj <-].
      rewrite lookup_app_l in Hi by lia.
      apply (validate_proposal_disjoint _ _ Hp). by apply list_elem_of_lookup_2 in Hi.
Qed.

Lemma create_session_ok id creation : session_ok (create id creation).
Proof.
  split; cbn [create SessionState.settled_revision SessionState.revision
    SessionState.settled_history_items SessionState.history SessionState.active_request
    SessionState.context_transitions]; done.
Qed.

(** The state a journal of commands leads to. *)
Definition replay s (commands : list (Uuid * SessionCommand.t)) : result SessionState.t SessionError.t :=
  for_each (λ s '(operation, command), Apply.apply hook_id uuid_text s operation command) s commands.

Lemma replay_session_ok s commands s' :
  session_ok s → (SessionState.revision s + N.of_nat (length commands) ≤ u64_MAX)%N →
  replay s commands = Ok s' →
  session_ok s' ∧ extends s s' ∧
  SessionState.revision s' = (SessionState.revision s + N.of_nat (length commands))%N.
Proof.
  unfold replay. revert s. induction commands as [|[operation command] commands IH]; intros s Hok Hrev.
  - simpl. intros <-%Ok_inj. split_and!; [done|apply extends_refl|lia].
  - cbn [for_each length] in *. intros (s1 & Ha & Hr)%rbind_Ok.
    assert (SessionState.revision s < u64_MAX)%N as Hlt by lia.
    pose proof (apply_frame _ _ _ _ Hok Hlt Ha) as (Hext & Hr1 & _).
    destruct (IH s1) as (Hok' & Hext' & Hrev'); [by eapply apply_session_ok|lia|done|].
    split_and!; [done|by eapply extends_trans|lia].
Qed.
End session.
