(* ===== verification/SessionStore.v ===== *)
(** * The session journal (crates/harness/src/store.rs)

    Sessions are journaled beside tasks in the same database: a row per session, a
    hash-chained event per command, checkpoints every 128 revisions. A command
    whose event is too long for one row is refused, except the result of a tool,
    which is stored as parts and an end. [load_session_state] rebuilds a session
    at its present revision or at any earlier one, which is what a cursor names. *)

From S2P Require Import Prelude Digest Contract State Artifacts Workspace Input ArtifactGraph Journal.
From S2P Require Import Cost Conversation Admission Session Context.

(** ** Serialization and the host *)

Class SessionSerde := {
  #[global] serde_sevent :: Serde SessionEvent.t;
  #[global] serde_sstate :: Serde SessionState.t;
  #[global] serde_command :: Serde SessionCommand.t;
  #[global] serde_sconfig :: Serde SessionConfig.t;
  #[global] serde_revision :: Serde RevisionManifest.t;
  #[global] serde_value :: Serde Value;
  #[global] serde_request :: Serde SessionAdmissionRequest.t;
  #[global] serde_settings :: Serde ModelSettings.t;
}.

(** What the journal asks of code outside the repository: [Uuid::new_v5], the text
    of a [Uuid], the JSON text of a transition item, the directory test of the
    file system, and serde_json's raw values (the [type] and [data] texts of an
    event, the [operation] and [command] of a command's data). *)
Class Host := {
  new_v5 : Uuid → string → Uuid;
  uuid_text : Uuid → string;
  transition_text : ContextTransition.t → option string;
  is_dir : string → bool;
  raw_event : string → option (string * string);
  raw_command : string → option (Uuid * string);
}.

(** ** Tables: those of the tasks and, keyed by session, the rows of kind [session].
    [session_order] lists the sessions by [rowid]. *)

Record SessionDb : Type := mk_sdb {
  tables : Db;
  sessions : gmap Uuid TaskRow.t;
  session_order : list Uuid;
  session_events : gmap Uuid (gmap Z EventRow.t);
  session_checkpoints : gmap Uuid (gmap Z CheckpointRow.t);
}.
#[global] Instance eta_sdb : Eta SessionDb := λ d,
  mk_sdb (tables d) (sessions d) (session_order d) (session_events d) (session_checkpoints d).
Definition empty_sdb : SessionDb := mk_sdb empty_db ∅ [] ∅ ∅.

Definition events_of (db : SessionDb) (id : Uuid) : gmap Z EventRow.t := default ∅ (session_events db !! id).
Definition checkpoints_of (db : SessionDb) (id : Uuid) : gmap Z CheckpointRow.t :=
  default ∅ (session_checkpoints db !! id).

(** [... AND revision>?2 AND revision<=?3 ORDER BY revision] *)
Definition events_between (db : SessionDb) (id : Uuid) (after last : Z) : list (Z * EventRow.t) :=
  base.filter (λ '(revision, _), (after < revision ≤ last)%Z) (btree_iter (events_of db id)).
Definition checkpoint_through (db : SessionDb) (id : Uuid) (through : Z) : option (Z * CheckpointRow.t) :=
  last (base.filter (λ '(revision, _), (revision ≤ through)%Z) (btree_iter (checkpoints_of db id))).

(** [INSERT INTO events ... 'session']: refused when the revision exists. *)
Definition insert_session_event (db : SessionDb) (id : Uuid) (revision : Z) (bytes hash : string) :
    result SessionDb StoreError.t :=
  let? _ := reject_if (bool_decide (is_Some (events_of db id !! revision))) StoreError.Sql in
  Ok (db <| session_events := <[id := <[revision := EventRow.mk (next_sequence (tables db)) bytes hash]>
                                        (events_of db id)]> (session_events db) |>
         <| tables := tables db <| next_sequence := (next_sequence (tables db) + 1)%N |> |>).
Definition insert_session_row (db : SessionDb) (id : Uuid) (row : TaskRow.t) : result SessionDb StoreError.t :=
  let? _ := reject_if (bool_decide (is_Some (sessions db !! id))) StoreError.Sql in
  Ok (db <| sessions := <[id := row]> (sessions db) |> <| session_order := session_order db ++ [id] |>).
Definition update_session_row (db : SessionDb) (id : Uuid) (row : TaskRow.t) : SessionDb :=
  db <| sessions := alter (λ _, row) id (sessions db) |>.

(** [str::floor_char_boundary]: at most three bytes before [index]. *)
Definition is_boundary (s : string) (i : nat) : bool :=
  match String.get i s with Some c => negb (ascii_between 128 191 c) | None => true end.
Definition floor_char_boundary (s : string) (i : nat) : nat :=
  if bool_decide (String.length s ≤ i) then String.length s
  else if is_boundary s i then i
  else if is_boundary s (i - 1) then i - 1
  else if is_boundary s (i - 2) then i - 2
  else i - 3.

(** [u64::to_le_bytes] for [n = 8] *)
Fixpoint to_le_bytes (n : nat) (x : N) : string :=
  match n with
  | O => EmptyString
  | S n => String (ascii_of_N (x mod 256)) (to_le_bytes n (x / 256))
  end.

(** [64 * 1024] *)
Definition PART_BYTES : nat := N.to_nat 65536.

Section journal.
Context {SHA : Sha256} {SER : StoreSerde} {SES : SessionSerde} {HOST : Host}.
Implicit Types (db : SessionDb) (s : SessionState.t).

(** [format!("orvek-completion-hook-v1:{request}")] *)
Definition hook_id (session request : Uuid) : Uuid :=
  new_v5 session ("orvek-completion-hook-v1:" +:+ uuid_text request).

Definition session_apply s (operation : Uuid) (command : SessionCommand.t) :
    result SessionState.t SessionError.t :=
  Apply.apply hook_id uuid_text s operation command.

(** [session_checkpoint]: [store_checkpoint] at kind [session] *)
Definition store_session_checkpoint db (id : Uuid) (revision : N) s (head : Digest) :
    result SessionDb StoreError.t :=
  let? revision := ok_or (i64_try_from revision) (StoreError.Invalid "checkpoint revision exhausted") in
  let? state := ok_or (to_vec s) StoreError.Json in
  Ok (db <| session_checkpoints := <[id := <[revision := CheckpointRow.mk state (digest_to_string head)]>
                                             (checkpoints_of db id)]> (session_checkpoints db) |>).

(** ** Loading *)

Definition legacy_context_command (bytes : string) : result (option (Uuid * Digest)) StoreError.t :=
  let? '(kind, data) := ok_or (raw_event bytes) StoreError.Json in
  if negb (str_eqb kind "command") then Ok None else
  let? '(operation, command) := ok_or (raw_command data) StoreError.Json in
  let? value := ok_or (from_slice (A := Value) command) StoreError.Json in
  if negb (value_is (index value "type") "context_projected")
     || bool_decide (as_array (index (index (index value "data") "view") "input") = None)
  then Ok None
  else Ok (Some (operation, digest_of command)).

(** [legacy["context_view"] = manifest] *)
Fixpoint set_field (name : string) (v : Value) (fields : list (string * Value)) : list (string * Value) :=
  match fields with
  | [] => [(name, v)]
  | (key, w) :: fields =>
      if str_eqb key name then (key, v) :: fields else (key, w) :: set_field name v fields
  end.

Definition session_cache_matches s (cached : string) : result bool StoreError.t :=
  let? canonical := ok_or (to_vec s) StoreError.Json in
  if str_eqb canonical cached then Ok true else
  let? legacy := ok_or (from_slice (A := Value) cached) StoreError.Json in
  match legacy with
  | VObject fields =>
      match field "context_view" fields with
      | Some (VObject wrapper) =>
          match bool_decide (length wrapper = 2), field "input" wrapper, field "manifest" wrapper with
          | true, Some (VArray _), Some manifest =>
              let? value := ok_or (from_slice (A := Value) canonical) StoreError.Json in
              Ok (bool_decide (VObject (set_field "context_view" manifest fields) = value))
          | _, _, _ => Ok false
          end
      | _ => Ok false
      end
  | _ => Ok false
  end.

(** The loop's locals: state, head and sequence. *)
Definition session_loading : Type := option SessionState.t * option Digest * N.

(** The [match] on the state so far and the next event of the journal. *)
Definition load_session_event (id : Uuid) (state : option SessionState.t) (bytes : string)
    (event : SessionEvent.t) : result SessionState.t StoreError.t :=
  match state, event with
  | None, SessionEvent.Created creation => Ok (create id creation)
  | Some s, SessionEvent.Command operation command _ =>
      let? legacy := match command with
                     | SessionCommand.ContextProjected _ _ _ => legacy_context_command bytes
                     | _ => Ok None
                     end in
      let? s := map_err (λ _, StoreError.Json) (session_apply s operation command) in
      match legacy with
      | Some (journaled_operation, command_digest) =>
          let? _ := reject_if (negb (journaled_operation =? operation)%N)
                      (StoreError.Integrity "session command operation") in
          Ok (s <| SessionState.operations := <[operation := command_digest]> (SessionState.operations s) |>)
      | None => Ok s
      end
  | _, _ => Err (StoreError.Integrity "session creation sequence")
  end.

Definition load_session_row (id : Uuid) (acc : session_loading) (item : Z * EventRow.t) :
    result session_loading StoreError.t :=
  let '(state, head, sequence) := acc in
  let '(revision, row) := item in
  let bytes := EventRow.event row in
  let sequence := u64_succ sequence in
  let? event_revision := ok_or (u64_try_from revision) (StoreError.Integrity "negative session event revision") in
  let? _ := reject_if (negb (event_revision =? sequence)%N || (MAX_EVENT_BYTES <? str_len bytes)%N)
              (StoreError.Integrity "session journal ordering or size") in
  let? hash := aggregate_hash "session" id event_revision head bytes in
  let? _ := reject_if (negb (str_eqb (EventRow.hash row) (digest_to_string hash)))
              (StoreError.Integrity "session journal hash") in
  let? event := ok_or (from_slice bytes) StoreError.Json in
  let? state := load_session_event id state bytes event in
  Ok (Some state, Some hash, sequence).

Definition load_session_checkpoint (id : Uuid) (checkpoint : option (Z * CheckpointRow.t)) :
    result session_loading StoreError.t :=
  match checkpoint with
  | Some (revision, row) =>
      let? checkpoint_revision :=
        ok_or (u64_try_from revision) (StoreError.Integrity "negative session checkpoint revision") in
      let? state := ok_or (from_slice (CheckpointRow.state row)) StoreError.Json in
      let? _ := reject_if (negb (SessionState.id state =? id)%N
                           || negb (SessionState.revision state =? checkpoint_revision)%N)
                  (StoreError.Integrity "invalid session checkpoint") in
      let? head := map_err (λ _, StoreError.Integrity "session checkpoint hash")
                     (digest_from_str (CheckpointRow.head row)) in
      Ok (Some state, Some head, checkpoint_revision)
  | None => Ok (None, None, 0%N)
  end.

(** The state through [last]: checkpoint and events, without the final comparison. *)
Definition load_through db (id : Uuid) (last : N) : result (SessionState.t * Digest) StoreError.t :=
  let? start := load_session_checkpoint id (checkpoint_through db id (Z.of_N last)) in
  let? '(state, head, _) :=
    for_each (load_session_row id) start (events_between db id (Z.of_N start.2) (Z.of_N last)) in
  let? state := ok_or state (StoreError.Integrity "session creation missing") in
  let? head := ok_or head (StoreError.Integrity "session head missing") in
  let? _ := reject_if (negb (SessionState.revision state =? last)%N)
              (StoreError.Integrity "session projection differs from journal") in
  Ok (state, head).

Definition load_session_state db (id : Uuid) (through : option N) :
    result (SessionState.t * Digest) StoreError.t :=
  let? row := ok_or (sessions db !! id) (StoreError.MissingSession id) in
  let? current_revision := ok_or (u64_try_from (TaskRow.revision row))
                             (StoreError.Integrity "negative session revision") in
  let last := default current_revision through in
  let? _ := reject_if ((last =? 0)%N || (current_revision <? last)%N)
              (StoreError.Invalid "session cursor is outside persisted history") in
  let? '(state, head) := load_through db id last in
  if (last =? current_revision)%N then
    let? _ := reject_if (negb (str_eqb (digest_to_string head) (TaskRow.head row)))
                (StoreError.Integrity "session projection differs from journal") in
    let? matches := session_cache_matches state (TaskRow.state row) in
    let? _ := reject_if (negb matches) (StoreError.Integrity "session projection differs from journal") in
    Ok (state, head)
  else Ok (state, head).

Definition load_session db (id : Uuid) : result SessionState.t StoreError.t :=
  let? '(s, _) := load_session_state db id None in Ok s.

Definition load_session_cursor db (cursor : SessionCursor.t) : result SessionState.t StoreError.t :=
  let? _ := reject_if (negb (SessionCursor.version cursor =? 1)%N)
              (StoreError.Invalid "unsupported session cursor") in
  let? '(s, _) := load_session_state db (SessionCursor.session cursor) (Some (SessionCursor.revision cursor)) in
  let? _ := reject_if (bool_decide (SessionState.admission s = None))
              (StoreError.Invalid "session cursor predates trusted admission") in
  Ok s.

(** ** Writing *)

(** The writes of one event whose bytes fit a row. *)
Definition write_session_event db s (head : Digest) (operation : Uuid) (command : SessionCommand.t)
    (bytes : string) : result (SessionDb * SessionState.t * Digest) StoreError.t :=
  let? s := map_err (λ _, StoreError.Json) (session_apply s operation command) in
  let id := SessionState.id s in
  let? head := aggregate_hash "session" id (SessionState.revision s) (Some head) bytes in
  let? revision := ok_or (i64_try_from (SessionState.revision s))
                     (StoreError.Invalid "session revision exhausted") in
  let? db := insert_session_event db id revision bytes (digest_to_string head) in
  let? state := ok_or (to_vec s) StoreError.Json in
  let db := update_session_row db id (TaskRow.mk revision state (digest_to_string head)) in
  let? db := if checkpoint_due (SessionState.revision s)
             then store_session_checkpoint db id (SessionState.revision s) s head
             else Ok db in
  Ok (db, s, head).

Section clock.
(** The clock, read when the event after a revision is written. *)
Variable now_ms : N → N.

(** A command that is not fragmented further. *)
Definition append_whole db s (head : Digest) (operation : Uuid) (command : SessionCommand.t) :
    result (SessionDb * SessionState.t * Digest) StoreError.t :=
  let? bytes := ok_or (to_vec (SessionEvent.Command operation command (now_ms (SessionState.revision s))))
                  StoreError.Json in
  let? _ := reject_if (MAX_EVENT_BYTES <? str_len bytes)%N
              (StoreError.Invalid "session command exceeds journal limit") in
  write_session_event db s head operation command bytes.

(** The [while offset < output.len()] loop over the parts of a tool result. *)
Fixpoint append_parts (fuel : nat) db s (head : Digest) (operation request : Uuid) (call_id output : string)
    (offset : nat) : option (result (SessionDb * SessionState.t * Digest) StoreError.t) :=
  if bool_decide (String.length output ≤ offset) then Some (Ok (db, s, head)) else
  match fuel with
  | O => None
  | S fuel =>
      let end_ := floor_char_boundary output (Nat.min (offset + PART_BYTES) (String.length output)) in
      match append_whole db s head (new_v5 operation (to_le_bytes 8 (N.of_nat offset)))
              (SessionCommand.ToolResultPart request call_id (N.of_nat offset)
                 (String.substring offset (end_ - offset) output)) with
      | Ok (db, s, head) => append_parts fuel db s head operation request call_id output end_
      | Err e => Some (Err e)
      end
  end.

(** [None] would be a loop that does not end; [append_terminates] excludes it. *)
Definition append_session_command db s (head : Digest) (operation : Uuid) (command : SessionCommand.t) :
    option (result (SessionDb * SessionState.t * Digest) StoreError.t) :=
  match to_vec (SessionEvent.Command operation command (now_ms (SessionState.revision s))) with
  | None => Some (Err StoreError.Json)
  | Some bytes =>
      if (MAX_EVENT_BYTES <? str_len bytes)%N then
        match command with
        | SessionCommand.ToolResult request call_id output =>
            written ← append_parts (S (String.length output)) db s head operation request call_id output 0;
            Some (let? '(db, s, head) := written in
                  append_whole db s head operation
                    (SessionCommand.ToolResultEnd request call_id (digest_of output)))
        | _ => Some (Err (StoreError.Invalid "session command exceeds journal limit"))
        end
      else Some (write_session_event db s head operation command bytes)
  end.
End clock.
End journal.

(** ** Serialization laws

    [serde_json] reads back what it wrote, up to what the source does not write: a
    view is journaled without its items, and an interpreter state without cells and
    checkpoint is left out of the session, so that calls pending in it would be
    lost. *)

Definition persisted (command : SessionCommand.t) : SessionCommand.t :=
  match command with
  | SessionCommand.ContextProjected revision (Some view) projection =>
      SessionCommand.ContextProjected revision (Some (ContextView.mk (ContextView.manifest view) [])) projection
  | _ => command
  end.
Definition persisted_event (event : SessionEvent.t) : SessionEvent.t :=
  match event with
  | SessionEvent.Command operation command at_ms => SessionEvent.Command operation (persisted command) at_ms
  | SessionEvent.Created _ => event
  end.
Definition serializable (s : SessionState.t) : Prop :=
  InterpreterState.is_empty (SessionState.interpreter s) = true →
  InterpreterState.pending_calls (SessionState.interpreter s) = ∅.

Class SessionSerdeOk `{!StoreSerde, !SessionSerde, !Host} := {
  sevent_ok event bytes : to_vec event = Some bytes → from_slice bytes = Some (persisted_event event);
  sstate_ok (s : SessionState.t) bytes : serializable s → to_vec s = Some bytes → from_slice bytes = Some s;
  command_ok (command : SessionCommand.t) : to_vec (persisted command) = to_vec command;
  raw_ok operation revision view projection at_ms bytes :
    to_vec (SessionEvent.Command operation (SessionCommand.ContextProjected revision view projection) at_ms)
      = Some bytes →
    ∃ data command value, raw_event bytes = Some ("command", data) ∧
      raw_command data = Some (operation, command) ∧ from_slice command = Some value ∧
      as_array (index (index (index value "data") "view") "input") = None;
}.

Section refinement.
Context {SHA : Sha256} {SER : StoreSerde} {SES : SessionSerde} {HOST : Host}.
Implicit Types (db : SessionDb) (s : SessionState.t).

(** ** What the tables hold of a session *)

Record session_at db (id : Uuid) (n : N) s (head : Digest) : Prop := {
  sa_row : ∃ bytes, to_vec s = Some bytes ∧
    sessions db !! id = Some (TaskRow.mk (Z.of_N n) bytes (digest_to_string head));
  sa_width : (1 ≤ n ≤ i64_MAX)%N;
  sa_events z : is_Some (events_of db id !! z) ↔ (1 ≤ z ≤ Z.of_N n)%Z;
  sa_checkpoints z : is_Some (checkpoints_of db id !! z) → (1 ≤ z ≤ Z.of_N n)%Z;
  sa_identity : SessionState.id s = id ∧ SessionState.revision s = n;
  sa_loop : ∃ start, load_session_checkpoint id (checkpoint_through db id (Z.of_N n)) = Ok start ∧
    for_each (load_session_row id) start (events_between db id (Z.of_N start.2) (Z.of_N n))
      = Ok (Some s, Some head, n);
}.

Definition same_session db db' (id : Uuid) : Prop :=
  sessions db' !! id = sessions db !! id ∧ events_of db' id = events_of db id ∧
  checkpoints_of db' id = checkpoints_of db id.

Lemma same_session_load db db' id through :
  same_session db db' id → load_session_state db' id through = load_session_state db id through.
Proof.
  intros (Hs & He & Hc). unfold load_session_state, load_through, checkpoint_through, events_between.
  by rewrite Hs, He, Hc.
Qed.

Lemma same_session_at db db' id n s h : same_session db db' id → session_at db id n s h → session_at db' id n s h.
Proof.
  intros (Hs & He & Hc) [H1 H2 H3 H4 H5 (start & H6 & H7)].
  split; rewrite ?Hs, ?He, ?Hc; try done. exists start.
  unfold checkpoint_through, events_between in *. by rewrite Hc, He.
Qed.

Lemma session_cache_matches_refl s bytes :
  to_vec s = Some bytes → session_cache_matches s bytes = Ok true.
Proof.
  intros H. unfold session_cache_matches. rewrite H. simpl. unfold str_eqb.
  by rewrite bool_decide_eq_true_2.
Qed.

Lemma session_at_through db id n s h : session_at db id n s h → load_through db id n = Ok (s, h).
Proof.
  intros [_ _ _ _ [_ Hrev] (start & Hstart & Hloop)]. unfold load_through. rewrite Hstart. cbn [rbind].
  rewrite Hloop. cbn [rbind ok_or]. by rewrite Hrev, N.eqb_refl.
Qed.

(** The loader returns what the tables hold, at the present and at its revision. *)
Lemma session_at_load db id n s h :
  session_at db id n s h →
  load_session_state db id None = Ok (s, h) ∧ load_session_state db id (Some n) = Ok (s, h).
Proof.
  intros Hat. pose proof (session_at_through _ _ _ _ _ Hat) as Hthrough.
  destruct Hat as [(bytes & Hb & Hrow) Hn _ _ _ _].
  assert (Hz : (n =? 0)%N = false) by (apply N.eqb_neq; lia).
  unfold load_session_state. rewrite Hrow. cbn [ok_or rbind TaskRow.revision TaskRow.state TaskRow.head].
  rewrite u64_try_from_of_N. cbn [ok_or rbind default from_option Datatypes.id].
  rewrite Hz, N.ltb_irrefl. cbn [orb reject_if rbind]. rewrite Hthrough. cbn [rbind]. rewrite N.eqb_refl.
  unfold str_eqb. rewrite bool_decide_eq_true_2 by done. cbn [negb reject_if rbind].
  rewrite (session_cache_matches_refl _ _ Hb). done.
Qed.

(** ** One event *)

Lemma session_apply_identity s operation command s' :
  (SessionState.revision s < u64_MAX)%N → session_apply s operation command = Ok s' →
  SessionState.id s' = SessionState.id s ∧ SessionState.revision s' = (SessionState.revision s + 1)%N.
Proof.
  intros Hr. unfold session_apply, Apply.apply. intros (s1 & He & Hc)%rbind_Ok.
  apply effect_frame in He as (Hid & Hrev & _). apply commit_frame in Hc as (Hid' & Hrev' & _); [|by rewrite Hrev].
  split; [congruence|]. by rewrite Hrev', Hrev.
Qed.

Context {OK : SessionSerdeOk}.

Lemma apply_persisted s operation command :
  session_apply s operation (persisted command) = session_apply s operation command.
Proof.
  unfold session_apply, Apply.apply.
  destruct command; try reflexivity. destruct view as [view|]; [|reflexivity].
  cbn [persisted Apply.effect Apply.logical_command rbind fmap option_fmap option_map ContextView.manifest].
  unfold Apply.commit, of_value.
  pose proof (command_ok (SessionCommand.ContextProjected source_revision (Some view) projection)) as Hv.
  cbn [persisted] in Hv. by rewrite Hv.
Qed.

Lemma load_written id s operation command at_ms bytes :
  to_vec (SessionEvent.Command operation command at_ms) = Some bytes →
  load_session_event id (Some s) bytes (persisted_event (SessionEvent.Command operation command at_ms))
    = map_err (λ _, StoreError.Json) (session_apply s operation command).
Proof.
  intros Hb. cbn [persisted_event load_session_event]. rewrite apply_persisted.
  assert (Hlegacy : match persisted command with
     | SessionCommand.ContextProjected _ _ _ => legacy_context_command bytes
     | _ => Ok None end = Ok None).
  { destruct command; try reflexivity.
    destruct (raw_ok _ _ _ _ _ _ Hb) as (data & cmd & value & Hr & Hc & Hv & Hnone).
    destruct view as [view|]; cbn [persisted]; unfold legacy_context_command; rewrite Hr; cbn [ok_or rbind];
      unfold str_eqb; rewrite bool_decide_eq_true_2 by done; cbn [negb]; rewrite Hc; cbn [ok_or rbind];
      rewrite Hv; cbn [ok_or rbind]; rewrite Hnone, bool_decide_eq_true_2 by done; by rewrite orb_true_r. }
  rewrite Hlegacy. cbn [rbind]. destruct (session_apply s operation command); done.
Qed.

(** The tables after the writes of an event. *)
Lemma write_session_event_Ok db s h operation command bytes db' s' h' :
  write_session_event db s h operation command bytes = Ok (db', s', h') →
  ∃ sb seq z,
    session_apply s operation command = Ok s' ∧
    aggregate_hash "session" (SessionState.id s') (SessionState.revision s') (Some h) bytes = Ok h' ∧
    i64_try_from (SessionState.revision s') = Some z ∧ to_vec s' = Some sb ∧
    sessions db' = alter (λ _, TaskRow.mk z sb (digest_to_string h')) (SessionState.id s') (sessions db) ∧
    (∀ id, events_of db' id = if decide (SessionState.id s' = id)
       then <[z := EventRow.mk seq bytes (digest_to_string h')]> (events_of db id) else events_of db id) ∧
    (∀ id, checkpoints_of db' id = checkpoints_of db id ∨
       (SessionState.id s' = id ∧ checkpoints_of db' id =
          <[z := CheckpointRow.mk sb (digest_to_string h')]> (checkpoints_of db id))) ∧
    tables db' = tables db <| next_sequence := (next_sequence (tables db) + 1)%N |>.
Proof.
  unfold write_session_event. intros (s1 & Ha%map_err_Ok & Hw)%rbind_Ok.
  apply rbind_Ok in Hw as (h1 & Hh & Hw). apply rbind_Ok in Hw as (z & Hz%ok_or_Ok & Hw).
  apply rbind_Ok in Hw as (db1 & Hi & Hw). apply rbind_Ok in Hw as (sb & Hsb%ok_or_Ok & Hw).
  apply rbind_Ok in Hw as (db2 & Hc & Hw). apply Ok_inj in Hw. injection Hw as -> -> ->.
  unfold insert_session_event in Hi. apply rbind_Ok in Hi as ([] & _ & Hi%Ok_inj).
  exists sb, (next_sequence (tables db)), z.
  assert (Hev : ∀ id, events_of db1 id = if decide (SessionState.id s' = id)
       then <[z := EventRow.mk (next_sequence (tables db)) bytes (digest_to_string h')]> (events_of db id)
       else events_of db id).
  { intros id. rewrite <-Hi. unfold events_of. cbn. destruct (decide _) as [<-|];
      [by rewrite lookup_insert_eq|by rewrite lookup_insert_ne]. }
  assert (Hcp : ∀ id, checkpoints_of db1 id = checkpoints_of db id) by (intros id; by rewrite <-Hi).
  assert (Hs : sessions db1 = sessions db) by by rewrite <-Hi.
  assert (Ht : tables db1 = tables db <| next_sequence := (next_sequence (tables db) + 1)%N |>) by by rewrite <-Hi.
  clear Hi. destruct (checkpoint_due _).
  - unfold store_session_checkpoint in Hc. apply rbind_Ok in Hc as (z' & Hz'%ok_or_Ok & Hc).
    apply rbind_Ok in Hc as (sb' & Hsb'%ok_or_Ok & Hc%Ok_inj).
    assert (z' = z) as -> by congruence. assert (sb' = sb) as -> by congruence. rewrite <-Hc.
    split_and!; try done.
    + unfold update_session_row, put. cbn. by rewrite Hs.
    + intros id. destruct (decide (SessionState.id s' = id)) as [<-|Hne]; [right|left].
      * split; [done|]. unfold checkpoints_of at 1. cbn. rewrite lookup_insert_eq. cbn.
        f_equal. apply Hcp.
      * unfold checkpoints_of at 1. cbn. rewrite lookup_insert_ne by done. apply Hcp.
  - apply Ok_inj in Hc. rewrite <-Hc. split_and!; try done.
    + unfold update_session_row, put. cbn. by rewrite Hs.
    + intros id. left. apply Hcp.
Qed.

Lemma rbind_ext {A B E} (r : result A E) (f g : A → result B E) :
  (∀ a, f a = g a) → rbind r f = rbind r g.
Proof. intros Hfg. destruct r; cbn; auto. Qed.

Lemma load_session_checkpoint_le id db n start :
  load_session_checkpoint id (checkpoint_through db id (Z.of_N n)) = Ok start → (start.2 ≤ n)%N.
Proof.
  unfold checkpoint_through. destruct (last _) as [[z row]|] eqn:Hl; cbn; [|intros <-%Ok_inj; cbn; lia].
  apply last_elem_of, list_elem_of_filter in Hl as [Hz _].
  intros (r & Hr%ok_or_Ok & H)%rbind_Ok. apply rbind_Ok in H as (? & _ & H).
  apply rbind_Ok in H as (? & _ & H). apply rbind_Ok in H as (? & _ & <-%Ok_inj). cbn.
  unfold u64_try_from in Hr. destruct (Z.leb_spec 0 z); [|done]. injection Hr as <-. lia.
Qed.

Lemma filter_none {A} (P : A → Prop) `{!∀ a, Decision (P a)} (l : list A) :
  (∀ a, ¬ P a) → base.filter P l = [].
Proof. intros HP. induction l; [done|]. by rewrite filter_cons_False. Qed.

(** Rows up to a revision are not touched by a row after it. *)
Lemma filter_below {A} (m : gmap Z A) (x : A) (k r : Z) (P : Z → Prop) `{!∀ z, Decision (P z)} :
  (∀ z, is_Some (m !! z) → (z < k)%Z) → ¬ P k →
  base.filter (λ '(z, _), P z) (btree_iter (<[k := x]> m)) = base.filter (λ '(z, _), P z) (btree_iter m).
Proof.
  intros Hk HP. rewrite btree_iter_insert_last by done. rewrite filter_app, filter_cons_False by done.
  by rewrite filter_nil, app_nil_r.
Qed.

(** The loader's step on the row that was just written. *)
Lemma load_row_written id s' n s h operation command at_ms bytes h' seq :
  to_vec (SessionEvent.Command operation command at_ms) = Some bytes → (str_len bytes ≤ MAX_EVENT_BYTES)%N →
  (n + 1 ≤ i64_MAX)%N → session_apply s operation command = Ok s' →
  aggregate_hash "session" id (n + 1) (Some h) bytes = Ok h' →
  load_session_row id (Some s, Some h, n) (Z.of_N (n + 1), EventRow.mk seq bytes (digest_to_string h'))
    = Ok (Some s', Some h', (n + 1)%N).
Proof.
  intros Hbytes Hlen Hmax Happ Hhash. unfold load_session_row. rewrite u64_try_from_of_N.
  cbn [ok_or rbind EventRow.event EventRow.hash].
  rewrite u64_succ_small by (unfold i64_MAX, u64_MAX in *; lia).
  rewrite N.eqb_refl, (proj2 (N.ltb_ge _ _)) by done. cbn [negb orb reject_if rbind].
  rewrite Hhash. cbn [rbind]. unfold str_eqb. rewrite bool_decide_eq_true_2 by done. cbn [negb reject_if rbind].
  rewrite (sevent_ok _ _ Hbytes). cbn [ok_or rbind]. rewrite (load_written _ _ _ _ _ _ Hbytes), Happ. done.
Qed.

Lemma write_session_at db id n s h operation command at_ms bytes db' s' h' :
  session_at db id n s h → serializable s' →
  to_vec (SessionEvent.Command operation command at_ms) = Some bytes → (str_len bytes ≤ MAX_EVENT_BYTES)%N →
  write_session_event db s h operation command bytes = Ok (db', s', h') →
  session_apply s operation command = Ok s' ∧ session_at db' id (n + 1) s' h' ∧
  (∀ r, (r ≤ n)%N → load_session_state db' id (Some r) = load_session_state db id (Some r)) ∧
  (∀ other, other ≠ id → same_session db db' other).
Proof.
  intros Hat Hser Hbytes Hlen Hw. pose proof (session_at_load _ _ _ _ _ Hat) as [_ Hn].
  pose proof (session_at_through _ _ _ _ _ Hat) as Hthrough.
  destruct Hat as [(sb0 & Hsb0 & Hrow) Hwidth Hev Hcp [Hid Hrev] (start & Hstart & Hloop)].
  apply write_session_event_Ok in Hw as (sb & seq & z & Happ & Hhash & Hz & Hsb & Hs & He & Hc & _).
  assert (SessionState.revision s < u64_MAX)%N as Hlt by (unfold i64_MAX, u64_MAX in *; lia).
  destruct (session_apply_identity _ _ _ _ Hlt Happ) as [Hid' Hrev'].
  rewrite Hid', Hid, Hrev', Hrev in *. apply i64_try_from_Some in Hz as [Hmax ->].
  set (k := Z.of_N (n + 1)) in *.
  assert (Heid : events_of db' id = <[k := EventRow.mk seq bytes (digest_to_string h')]> (events_of db id)).
  { rewrite He. by rewrite decide_True. }
  assert (Hkev : ∀ z, is_Some (events_of db id !! z) → (z < k)%Z) by (intros z ?%Hev; lia).
  assert (Hkcp : ∀ z, is_Some (checkpoints_of db id !! z) → (z < k)%Z) by (intros z ?%Hcp; lia).
  assert (Hbefore : ∀ r a, (r ≤ n)%N → events_between db' id a (Z.of_N r) = events_between db id a (Z.of_N r)).
  { intros r a Hr. unfold events_between. rewrite Heid. apply (filter_below _ _ _ k); [done|lia]. }
  assert (Hcbefore : ∀ r, (r ≤ n)%N → checkpoint_through db' id (Z.of_N r) = checkpoint_through db id (Z.of_N r)).
  { intros r Hr. unfold checkpoint_through. f_equal. destruct (Hc id) as [->|[_ ->]]; [done|].
    apply (filter_below _ _ _ k); [done|lia]. }
  assert (Hthrough' : ∀ r, (r ≤ n)%N → load_through db' id r = load_through db id r).
  { intros r Hr. unfold load_through. rewrite Hcbefore by done.
    apply rbind_ext. intros st. by rewrite Hbefore. }
  split_and!; [done| | |].
  - split; [exists sb; split; [done|]; by rewrite Hs, lookup_alter_eq, Hrow|lia| | |done|].
    + intros z. rewrite Heid, lookup_insert_is_Some', Hev. unfold k. lia.
    + intros z. destruct (Hc id) as [->|[_ ->]]; [intros ?%Hcp; lia|].
      rewrite lookup_insert_is_Some'. unfold k. intros [<-|?%Hcp]; lia.
    + fold k. destruct (Hc id) as [Hsame|[_ Hins]].
      * exists start. pose proof (load_session_checkpoint_le _ _ _ _ Hstart).
        assert (checkpoint_through db' id k = checkpoint_through db id (Z.of_N n)) as ->.
        { unfold checkpoint_through. rewrite Hsame. f_equal. apply filter_ext_in. intros [z row] Hin.
          apply elem_of_btree_iter in Hin.
          assert (1 ≤ z ≤ Z.of_N n)%Z by (apply Hcp; eauto). unfold k. lia. }
        split; [done|].
        assert (events_between db' id (Z.of_N start.2) k = events_between db id (Z.of_N start.2) (Z.of_N n)
          ++ [(k, EventRow.mk seq bytes (digest_to_string h'))]) as ->.
        { unfold events_between. rewrite Heid, btree_iter_insert_last, filter_app by done. f_equal.
          - apply filter_ext_in. intros [z row] Hin. apply elem_of_btree_iter in Hin.
            assert (1 ≤ z ≤ Z.of_N n)%Z by (apply Hev; eauto). unfold k. lia.
          - rewrite filter_cons_True; [done|]. unfold k. lia. }
        rewrite for_each_app, Hloop. cbn [rbind for_each]. unfold k.
        by rewrite (load_row_written id s' n s h operation command at_ms bytes h' seq).
      * exists (Some s', Some h', (n + 1)%N).
        assert (checkpoint_through db' id k = Some (k, CheckpointRow.mk sb (digest_to_string h'))) as ->.
        { unfold checkpoint_through. rewrite Hins, btree_iter_insert_last, filter_app by done.
          rewrite filter_cons_True by (unfold k; lia). apply last_snoc. }
        split.
        -- unfold k. cbn [load_session_checkpoint]. rewrite u64_try_from_of_N. cbn [ok_or rbind CheckpointRow.state].
           rewrite (sstate_ok _ _ Hser Hsb). cbn [ok_or rbind]. rewrite Hid', Hrev', !N.eqb_refl.
           cbn [negb orb reject_if rbind CheckpointRow.head]. by rewrite digest_from_to_string.
        -- unfold events_between. rewrite filter_none; [done|]. intros [z row]. cbn. unfold k. lia.
  - intros r Hr. unfold load_session_state. rewrite Hs, lookup_alter_eq, Hrow.
    cbn [fmap option_fmap option_map ok_or rbind TaskRow.revision TaskRow.state TaskRow.head].
    unfold k. rewrite !u64_try_from_of_N. cbn [ok_or rbind from_option Datatypes.id].
    rewrite (proj2 (N.ltb_ge (n + 1) r)), (proj2 (N.ltb_ge n r)) by lia. rewrite !orb_false_r.
    apply rbind_ext. intros []. rewrite Hthrough' by done. rewrite (proj2 (N.eqb_neq r (n + 1))) by lia.
    destruct (N.eqb_spec r n) as [->|Hne]; [|done]. rewrite Hthrough. cbn [rbind].
    unfold str_eqb. rewrite bool_decide_eq_true_2 by done. cbn [negb reject_if rbind].
    by rewrite (session_cache_matches_refl _ _ Hsb0).
  - intros other Hne. split_and!.
    + rewrite Hs. by rewrite lookup_alter_ne.
    + rewrite He. by rewrite decide_False.
    + by destruct (Hc other) as [->|[-> _]].
Qed.
End refinement.

(** ** Interpreter states survive the journal *)

(** The guard of [session_command] that matters here: a call starts in a cell. *)
Definition call_in_cell (s : SessionState.t) (command : SessionCommand.t) : Prop :=
  match command with
  | SessionCommand.Interpreter _ (InterpreterEvent.CallStarted cell _ _ _ _) =>
      is_Some (InterpreterState.cells (SessionState.interpreter s) !! cell)
  | _ => True
  end.

Lemma interpreter_empty i :
  InterpreterState.is_empty i = true ↔ InterpreterState.cells i = ∅ ∧ InterpreterState.checkpoint i = None.
Proof. unfold InterpreterState.is_empty. by rewrite andb_true_iff, !bool_decide_eq_true. Qed.

Definition closed_interpreter (i : InterpreterState.t) : Prop :=
  InterpreterState.is_empty i = true → InterpreterState.pending_calls i = ∅.

Lemma interrupt_interpreter i request :
  closed_interpreter i → closed_interpreter (InterpreterState.interrupt i request).
Proof.
  unfold closed_interpreter. rewrite !interpreter_empty. intros Hi [Hc Hn]. cbn in *.
  apply fmap_empty_inv in Hc. auto.
Qed.

Lemma apply_interpreter text i request event :
  match event with InterpreterEvent.CallStarted cell _ _ _ _ => is_Some (InterpreterState.cells i !! cell) | _ => True end →
  closed_interpreter i → closed_interpreter (InterpreterState.apply text i request event).
Proof.
  unfold closed_interpreter. rewrite !interpreter_empty. intros Hg Hi. destruct event; cbn.
  - intros [Hc _]. by apply insert_non_empty in Hc.
  - intros [Hc _]. rewrite Hc, lookup_empty in Hg. by destruct Hg.
  - intros Hc. rewrite (Hi Hc). apply delete_empty.
  - intros [Hc Hn]. destruct checkpoint; cbn in *; [done|].
    assert (InterpreterState.cells i = ∅) as He.
    { apply map_eq. intros k. rewrite lookup_empty. apply (f_equal (lookup k)) in Hc.
      rewrite lookup_empty in Hc. destruct (decide (k = cell)) as [->|Hne].
      - rewrite lookup_alter_eq in Hc. by destruct (_ !! cell).
      - by rewrite lookup_alter_ne in Hc. }
    rewrite (Hi (conj He Hn)). apply map_filter_empty.
Qed.

Section grown.
Context {SHA : Sha256} {SER : StoreSerde} {SES : SessionSerde} {HOST : Host} {OK : SessionSerdeOk}.
Implicit Types (db : SessionDb) (s : SessionState.t).

Lemma apply_serializable s operation command s' :
  call_in_cell s command → serializable s → session_apply s operation command = Ok s' → serializable s'.
Proof.
  unfold session_apply, Apply.apply. intros Hg Hs (s1 & He & Hc)%rbind_Ok.
  assert (SessionState.interpreter s' = SessionState.interpreter s1) as Hsame.
  { unfold Apply.commit in Hc. apply rbind_Ok in Hc as (d & _ & Hc%Ok_inj). rewrite <-Hc.
    by match goal with |- context [bool_decide ?P] => destruct (bool_decide P) end. }
  unfold serializable. rewrite Hsame. change (closed_interpreter (SessionState.interpreter s1)).
  change (closed_interpreter (SessionState.interpreter s)) in Hs. clear Hc Hsame s'.
  destruct command; cbn [Apply.effect] in He;
    repeat match goal with
    | H : rbind _ _ = Ok _ |- _ =>
        let x := fresh "x" in let Hx := fresh "Hx" in apply rbind_Ok in H; destruct H as (x & Hx & H)
    | H : (match ?x with (_, _) => _ end) = Ok _ |- _ => destruct x
    | H : Ok _ = Ok _ |- _ => apply Ok_inj in H; rewrite <-H; clear H
    end;
    repeat match goal with |- context [match ?x with _ => _ end] => destruct x end;
    try exact Hs.
  - by apply apply_interpreter.
  - by apply interrupt_interpreter.
Qed.

(** Every past revision of a session denotes a state, which the later ones extend. *)
Definition past_ok db (id : Uuid) (n : N) : Prop := ∀ r r', (1 ≤ r ≤ r')%N → (r' ≤ n)%N →
  ∃ sr hr tr kr, load_session_state db id (Some r) = Ok (sr, hr) ∧
    load_session_state db id (Some r') = Ok (tr, kr) ∧ SessionState.revision sr = r ∧ extends sr tr.

(** A session the tables hold, with what every write keeps of it. *)
Record held db (id : Uuid) (n : N) s (h : Digest) : Prop := {
  hd_at : session_at db id n s h;
  hd_ok : session_ok s;
  hd_serializable : serializable s;
  hd_past : past_ok db id n;
}.

(** What a session's writes establish: the tables hold its new state, every cursor
    of its past denotes what it did, and no other session is touched. *)
Record grown db (id : Uuid) (n : N) s db' (n' : N) s' (h' : Digest) : Prop := {
  gr_held : held db' id n' s' h';
  gr_le : (n ≤ n')%N;
  gr_extends : extends s s';
  gr_cursors r : (r ≤ n)%N → load_session_state db' id (Some r) = load_session_state db id (Some r);
  gr_others other : other ≠ id → same_session db db' other;
}.

Lemma held_identity db id n s h :
  held db id n s h → SessionState.id s = id ∧ SessionState.revision s = n ∧ (n ≤ i64_MAX)%N.
Proof. intros [[_ ? _ _ [? ?] _] _ _ _]. split_and!; [done..|lia]. Qed.

Lemma grown_refl db id n s h : held db id n s h → grown db id n s db n s h.
Proof. intros. split; [done..|apply extends_refl|done|done]. Qed.

Lemma grown_trans db1 db2 db3 id n1 n2 n3 s1 s2 h2 s3 h3 :
  grown db1 id n1 s1 db2 n2 s2 h2 → grown db2 id n2 s2 db3 n3 s3 h3 → grown db1 id n1 s1 db3 n3 s3 h3.
Proof.
  intros [_ Hle1 He1 Hc1 Ho1] [Hh Hle2 He2 Hc2 Ho2]. split; [done|lia|by eapply extends_trans| |].
  - intros r Hr. rewrite Hc2 by lia. by apply Hc1.
  - intros other Hne. destruct (Ho1 other Hne) as (? & ? & ?), (Ho2 other Hne) as (? & ? & ?).
    split_and!; congruence.
Qed.

Lemma write_grown db id n s h operation command at_ms bytes db' s' h' :
  held db id n s h → call_in_cell s command →
  to_vec (SessionEvent.Command operation command at_ms) = Some bytes → (str_len bytes ≤ MAX_EVENT_BYTES)%N →
  write_session_event db s h operation command bytes = Ok (db', s', h') →
  session_apply s operation command = Ok s' ∧ grown db id n s db' (n + 1) s' h'.
Proof.
  intros Hheld Hg Hb Hl Hw. pose proof (held_identity _ _ _ _ _ Hheld) as (_ & Hrev & Hmax).
  destruct Hheld as [Hat Hok Hser Hpast].
  assert (session_apply s operation command = Ok s') as Happ.
  { by apply write_session_event_Ok in Hw as (? & ? & ? & ? & _). }
  pose proof (apply_serializable _ _ _ _ Hg Hser Happ) as Hser'.
  destruct (write_session_at _ _ _ _ _ _ _ _ _ _ _ _ Hat Hser' Hb Hl Hw) as (_ & Hat' & Hcur & Hoth).
  assert (SessionState.revision s < u64_MAX)%N as Hlt by (rewrite Hrev; unfold i64_MAX, u64_MAX in *; lia).
  destruct (apply_frame _ _ _ _ _ _ Hok Hlt Happ) as (Hext & Hrev' & _).
  split; [done|]. split; [split|lia|done..]; [done|by eapply apply_session_ok|done|].
  pose proof (proj2 (session_at_load _ _ _ _ _ Hat)) as Hn. pose proof (proj2 (session_at_load _ _ _ _ _ Hat')) as Hn'.
  intros r r' Hr Hr'. destruct (decide (r' ≤ n)%N) as [Hle|Hgt].
  { rewrite !Hcur by lia. by apply Hpast. }
  replace r' with (n + 1)%N by lia. destruct (decide (r ≤ n)%N) as [Hle|Hgt'].
  - destruct (Hpast r n ltac:(lia) ltac:(lia)) as (sr & hr & tr & kr & Hl1 & Hl2 & ? & ?).
    rewrite Hn in Hl2. injection Hl2 as <- <-. exists sr, hr, s', h'. rewrite Hcur by lia.
    split_and!; [done..|by eapply extends_trans].
  - replace r with (n + 1)%N by lia. exists s', h', s', h'. split_and!; [done..|lia|apply extends_refl].
Qed.

Section clock.
Variable now_ms : N → N.

Lemma append_whole_grown db id n s h operation command db' s' h' :
  held db id n s h → call_in_cell s command →
  append_whole now_ms db s h operation command = Ok (db', s', h') →
  session_apply s operation command = Ok s' ∧ grown db id n s db' (n + 1) s' h'.
Proof.
  intros Hheld Hg. unfold append_whole.
  intros (bytes & Hb%ok_or_Ok & Hw)%rbind_Ok. apply rbind_Ok in Hw as ([] & Hl%reject_if_Ok%N.ltb_ge & Hw).
  by eapply write_grown.
Qed.

(** ** Parts of a tool result *)

(** What storing the parts changes: the revision, the operations and the call's
    buffer. *)
Record buffering s s' (request : Uuid) (call_id received : string) : Prop := {
  bf_history : SessionState.history s' = SessionState.history s;
  bf_calls : SessionState.tool_calls s' = SessionState.tool_calls s;
  bf_active : SessionState.active_request s' = SessionState.active_request s;
  bf_buffers : SessionState.tool_output_buffers s' =
    if str_is_empty received then SessionState.tool_output_buffers s
    else <[call_id := PendingOutput.mk request received]> (SessionState.tool_output_buffers s);
}.

Lemma substring_take n k (output : string) :
  n + k ≤ String.length output →
  String.substring 0 (n + k) output = String.substring 0 n output +:+ String.substring n k output.
Proof. intros. by rewrite (substring_split 0 n k) by lia. Qed.

Lemma str_empty_length (text : string) : str_is_empty text = bool_decide (String.length text = 0).
Proof. by destruct text. Qed.

Lemma substring_len n m (output : string) :
  n + m ≤ String.length output → String.length (String.substring n m output) = m.
Proof.
  revert n m. induction output as [|c t IH]; intros n m Hle; cbn [String.length] in Hle.
  { by replace n with 0 by lia; replace m with 0 by lia. }
  destruct n as [|n]; [destruct m as [|m]|]; cbn; [done| |apply IH; lia].
  f_equal. apply (IH 0). lia.
Qed.

(** One part applied to a state that has received the text before it. *)
Lemma apply_part s0 s operation request call_id output offset k s' :
  buffering s0 s request call_id (String.substring 0 offset output) →
  SessionState.tool_output_buffers s0 !! call_id = None →
  0 < k → offset + k ≤ String.length output → (SessionState.revision s < u64_MAX)%N →
  session_apply s operation (SessionCommand.ToolResultPart request call_id (N.of_nat offset)
    (String.substring offset k output)) = Ok s' →
  buffering s0 s' request call_id (String.substring 0 (offset + k) output).
Proof.
  intros [Hh Hc Ha Hb] Hnone Hk Hlen Hrev. unfold session_apply, Apply.apply. cbn [Apply.effect].
  intros (s1 & He & Hcommit)%rbind_Ok. apply rbind_Ok in He as ([] & _ & He).
  apply rbind_Ok in He as (buffers & Hbuf%map_err_Ok & He%Ok_inj).
  apply append_Ok in Hbuf as (_ & _ & _ & ->).
  assert (Hkeep : SessionState.history s' = SessionState.history s1 ∧
    SessionState.tool_calls s' = SessionState.tool_calls s1 ∧
    SessionState.active_request s' = SessionState.active_request s1 ∧
    SessionState.tool_output_buffers s' = SessionState.tool_output_buffers s1).
  { unfold Apply.commit in Hcommit. apply rbind_Ok in Hcommit as (d & _ & Hcommit%Ok_inj). rewrite <-Hcommit.
    by match goal with |- context [bool_decide ?P] => destruct (bool_decide P) end. }
  destruct Hkeep as (K1 & K2 & K3 & K4).
  split; [by rewrite K1, <-He|by rewrite K2, <-He|by rewrite K3, <-He|].
  rewrite K4, <-He. cbn [SessionState.tool_output_buffers put]. rewrite (substring_take offset k) by done.
  rewrite str_empty_length, str_length_app, !substring_len by lia. rewrite bool_decide_eq_false_2 by lia.
  unfold buffered. rewrite Hb. rewrite str_empty_length, substring_len by lia.
  destruct (decide (offset = 0)) as [->|Hne].
  - rewrite bool_decide_eq_true_2 by done. rewrite Hnone.
    by replace (String.substring 0 0 output) with "" by (by destruct output).
  - rewrite bool_decide_eq_false_2 by done. unfold ToolOutputBuffers.t. rewrite lookup_insert_eq. cbn [from_option PendingOutput.text].
    by rewrite insert_insert_eq.
Qed.
(** A part ends after it starts and within the text. *)
Lemma part_end (output : string) offset :
  offset < String.length output →
  let e := floor_char_boundary output (Nat.min (offset + PART_BYTES) (String.length output)) in
  offset < e ≤ String.length output.
Proof.
  intros Hlt. assert (4 ≤ PART_BYTES) as Hpart by (unfold PART_BYTES; lia).
  generalize dependent PART_BYTES. intros part Hpart. unfold floor_char_boundary.
  case_bool_decide; [cbv zeta; lia|]. repeat case_match; cbv zeta; lia.
Qed.

(** The loop over the parts keeps what every part keeps. *)
Lemma append_parts_inv (P : nat → SessionState.t → Prop) request call_id output operation fuel :
  (∀ s offset k op s', P offset s → 0 < k → offset + k ≤ String.length output →
     (SessionState.revision s < u64_MAX)%N →
     session_apply s op (SessionCommand.ToolResultPart request call_id (N.of_nat offset)
       (String.substring offset k output)) = Ok s' → P (offset + k) s') →
  ∀ db id n s h offset db' s' h',
  held db id n s h → P offset s → offset ≤ String.length output →
  append_parts now_ms fuel db s h operation request call_id output offset = Some (Ok (db', s', h')) →
  ∃ n', grown db id n s db' n' s' h' ∧ P (String.length output) s'.
Proof.
  intros Hstep. induction fuel as [|fuel IH]; intros db id n s h offset db' s' h' Hheld HP Hle;
    cbn [append_parts]; case_bool_decide as Hend; try done.
  1,2: intros [= <- <- <-]; exists n; split; [by apply grown_refl|];
    by replace (String.length output) with offset by lia.
  destruct (part_end output offset ltac:(lia)) as [Hlo Hhi].
  set (e := floor_char_boundary _ _) in *.
  destruct (append_whole _ _ _ _ _ _) as [[[db1 s1] h1]|] eqn:Hw; [|done]. intros Hrest.
  apply (append_whole_grown db id n) in Hw as [Happ Hg]; [|done..].
  pose proof (held_identity _ _ _ _ _ Hheld) as (_ & Hrev & Hmax).
  assert (P e s1) as HP1.
  { replace e with (offset + (e - offset)) by lia. eapply Hstep; [exact HP|lia|lia| |exact Happ].
    rewrite Hrev. unfold i64_MAX, u64_MAX in *. lia. }
  destruct (IH db1 id (n + 1)%N s1 h1 e db' s' h' (gr_held _ _ _ _ _ _ _ _ Hg) HP1 Hhi Hrest) as (n' & Hg' & HP').
  exists n'. split; [by eapply grown_trans|done].
Qed.

(** The loop over the parts ends: every iteration advances. *)
Lemma append_parts_ends operation request call_id output fuel : ∀ db s h offset,
  String.length output < offset + fuel →
  is_Some (append_parts now_ms fuel db s h operation request call_id output offset).
Proof.
  induction fuel as [|fuel IH]; intros db s h offset Hf; cbn [append_parts];
    case_bool_decide as Hend; try (by eexists); [lia|].
  destruct (part_end output offset ltac:(lia)) as [Hlo Hhi].
  destruct (append_whole _ _ _ _ _ _) as [[[db1 s1] h1]|]; [|by eexists]. apply IH. lia.
Qed.

Lemma append_terminates db s h operation command :
  is_Some (append_session_command now_ms db s h operation command).
Proof.
  unfold append_session_command. destruct (to_vec _) as [bytes|]; [|by eexists].
  destruct (MAX_EVENT_BYTES <? str_len bytes)%N; [|by eexists].
  destruct command; try (by eexists).
  destruct (append_parts_ends operation request call_id output (S (String.length output)) db s h 0) as [r Hr]; [lia|].
  rewrite Hr. by eexists.
Qed.

(** The end of a fragmented result is the result itself. *)
Lemma apply_end s0 s operation request call_id output s' :
  buffering s0 s request call_id output → SessionState.tool_output_buffers s0 !! call_id = None →
  session_apply s operation (SessionCommand.ToolResultEnd request call_id (digest_of output)) = Ok s' →
  SessionState.history s' = SessionState.history s0 ++ [call_output call_id output] ∧
  SessionState.tool_calls s' =
    alter (λ c, c <| RecordedToolCall.output := Some (digest_of output) |>) call_id (SessionState.tool_calls s0) ∧
  SessionState.tool_output_buffers s' = SessionState.tool_output_buffers s0 ∧
  SessionState.active_request s' = SessionState.active_request s0 ∧
  ∃ d, of_value (SessionCommand.ToolResult request call_id output) = Some d ∧
    SessionState.operations s' !! operation = Some d.
Proof.
  intros [Hh Hc Ha Hb] Hnone. unfold session_apply, Apply.apply. cbn [Apply.effect].
  intros (s1 & He & Hcommit)%rbind_Ok. apply rbind_Ok in He as ([] & _ & He).
  apply rbind_Ok in He as ([buffers text] & Hf%map_err_Ok & He%Ok_inj).
  apply output_finish_Ok in Hf as (Hbuf & _ & ->).
  assert (text = output ∧ base.delete call_id (SessionState.tool_output_buffers s) = SessionState.tool_output_buffers s0)
    as [-> Hdel].
  { rewrite Hb in Hbuf |- *. destruct (str_is_empty output); [by rewrite Hnone in Hbuf|].
    unfold ToolOutputBuffers.t in *. rewrite lookup_insert_eq in Hbuf. injection Hbuf as ->.
    split; [done|]. by apply delete_insert_id. }
  cbn [Apply.logical_command] in Hcommit. rewrite Hbuf in Hcommit. cbn [PendingOutput.text] in Hcommit.
  unfold Apply.commit in Hcommit. apply rbind_Ok in Hcommit as (d & Hd%ok_or_Ok & Hcommit%Ok_inj).
  rewrite <-Hcommit. split_and!; [..|exists d; split; [done|]];
    match goal with |- context [bool_decide ?P] => destruct (bool_decide P) end; cbn; rewrite <-He; cbn;
    rewrite ?Hh, ?Hc, ?Ha, ?Hdel; try done; apply lookup_insert_eq.
Qed.
End clock.
End grown.
