(* ===== verification/SessionCommands.v ===== *)
(** * Commands on sessions (crates/harness/src/store.rs)

    What the store lets a caller do with a session: create, fork or import it, send
    it a command with its guards, start or resume a task in it, read its history
    through its ancestry, and total its cost. The clock and fresh identifiers are
    inputs; an operation that fails leaves the store unchanged, as its transaction
    is dropped. *)

From S2P Require Import Prelude Digest Contract State Artifacts Workspace Input ArtifactGraph Journal Store StoreTasks.
From S2P Require Import Cost Conversation Admission Session Context SessionStore.

(** ** Cost *)

Module ProviderCostSummary.
Record t : Type := mk { total : UsdCost; uncertain : bool }.
End ProviderCostSummary.

(** The loop's locals: the calls with usage, the receipts and the uncertainty. *)
Definition cost_loop : Type := gset Uuid * gmap Uuid (option UsdCost) * bool.

Definition cost_step (acc : cost_loop) (command : SessionCommand.t) : cost_loop :=
  let '(usage_calls, receipts, uncertain) := acc in
  match command with
  | SessionCommand.ProviderUsage _ (Some call) _ _ => ({[call]} ∪ usage_calls, receipts, uncertain)
  | SessionCommand.ProviderUsage _ None _ _ => (usage_calls, receipts, true)
  | SessionCommand.ProviderCost _ call cost_usd =>
      match receipts !! call with
      | Some previous =>
          if bool_decide (previous ≠ cost_usd) then (usage_calls, receipts, true) else acc
      | None => (usage_calls, <[call := cost_usd]> receipts, uncertain)
      end
  | _ => acc
  end.

Definition add_cost (acc : UsdCost * bool) (cost : option UsdCost) : UsdCost * bool :=
  match cost ≫= UsdCost.checked_add acc.1 with
  | Some next => (next, acc.2)
  | None => (acc.1, true)
  end.

Definition cost_of (commands : list SessionCommand.t) : ProviderCostSummary.t :=
  let '(usage_calls, receipts, uncertain) := foldl cost_step (∅, ∅, false) commands in
  let uncertain := uncertain || negb (bool_decide (usage_calls ⊆ dom receipts)) in
  let '(total, uncertain) := foldl add_cost (UsdCost.ZERO, uncertain) (btree_values receipts) in
  ProviderCostSummary.mk total uncertain.

Section commands.
Context {SHA : Sha256} {SER : StoreSerde} {SES : SessionSerde} {HOST : Host}.
Implicit Types (db : SessionDb) (s : SessionState.t) (a : ArtifactStore.t).
Variable now_ms : N → N.

Notation invalid reason := (StoreError.Invalid reason).
Notation integrity reason := (StoreError.Integrity reason).

(** [append_terminates]: the loop over the parts always ends. *)
Definition append_session db s (head : Digest) (operation : Uuid) (command : SessionCommand.t) :
    result (SessionDb * SessionState.t * Digest) StoreError.t :=
  default (Err StoreError.Json) (append_session_command now_ms db s head operation command).

(** [uuid::Uuid::new_v5(&id, b"...")] of the operations a request derives. *)
Definition task_link (operation : Uuid) : Uuid := new_v5 operation "task-link".

(** ** Creation *)

(** The two snapshots a workspace refers to are stored with their files. *)
Definition seed_available a (seed : WorkspaceSeed.t) (origin source : StoreError.t) :
    result unit StoreError.t :=
  let available digest error :=
    map_err (λ _, error)
      (let? snapshot := Snapshot.load digest a in Snapshot.verify_artifacts snapshot a) in
  let? _ := available (WorkspaceSeed.origin seed) origin in
  available (WorkspaceSeed.source seed) source.

(** The parent's history, import and workspace a fork starts from. *)
Definition fork_source db (admission : SessionAdmissionProfile.t) (cursor : SessionCursor.t)
    (fresh_context : bool) :
    result (list Value * option ImportedSource.t * option WorkspaceSeed.t) StoreError.t :=
  let? _ := reject_if (negb (SessionCursor.version cursor =? 1)%N) (invalid "unsupported session cursor") in
  let? '(parent, _) :=
    load_session_state db (SessionCursor.session cursor) (Some (SessionCursor.revision cursor)) in
  let? _ := reject_if (bool_decide (is_Some (SessionState.active_request parent)))
              (invalid "fork cursor must select a settled turn") in
  let? _ := reject_if (bool_decide (is_Some (SessionBranch.pending_task (SessionState.branch parent))))
              (invalid "parent workspace has no settled source checkpoint") in
  let? _ := reject_if (bool_decide (is_Some (SessionBranch.pending_shell (SessionState.branch parent))))
              (invalid "parent has an unresolved shell operation") in
  let? _ := reject_if (bool_decide (SessionState.admission parent ≠ Some admission))
              (invalid "child session admission differs from its parent") in
  Ok (if fresh_context then [] else SessionState.history parent,
      SessionState.imported parent, SessionBranch.workspace (SessionState.branch parent)).

(** The session an identifier already names is the one asked for. *)
Definition same_creation (existing : SessionState.t) (config : SessionConfig.t)
    (admission : SessionAdmissionProfile.t) (parent : option SessionCursor.t)
    (seed : option (ImportedSource.t * list Value)) (fresh_context : bool) : bool :=
  bool_decide (SessionState.initial_config existing = config)
  && bool_decide (SessionState.admission existing = Some admission)
  && Bool.eqb (SessionBranch.fresh_context (SessionState.branch existing)) fresh_context
  && bool_decide (SessionState.parent existing = parent)
  && match seed with
     | None => bool_decide (SessionState.imported existing = None) || bool_decide (is_Some parent)
     | Some (source, _) => bool_decide (SessionState.imported existing = Some source)
     end.

(** The writes of a new session. *)
Definition insert_session db (id : Uuid) (creation : SessionCreation.t) :
    result (SessionDb * SessionState.t) StoreError.t :=
  let? bytes := ok_or (to_vec (SessionEvent.Created creation)) StoreError.Json in
  let? _ := reject_if (MAX_EVENT_BYTES <? str_len bytes)%N
              (invalid "initial session context exceeds journal limit") in
  let s := create id creation in
  let? hash := aggregate_hash "session" id 1 None bytes in
  let? state := ok_or (to_vec s) StoreError.Json in
  let? db := insert_session_row db id (TaskRow.mk 1 state (digest_to_string hash)) in
  let? db := insert_session_event db id 1 bytes (digest_to_string hash) in
  let? db := store_session_checkpoint db id 1 s hash in
  Ok (db, s).

Definition create_session_seeded db a (now : N) (id : Uuid) (config : SessionConfig.t)
    (admission : SessionAdmissionProfile.t) (parent : option SessionCursor.t)
    (seed : option (ImportedSource.t * list Value)) (fresh_context : bool) :
    result (SessionDb * SessionState.t) StoreError.t :=
  let? _ := reject_if (negb (path_is_absolute (SessionConfig.workspace config))
                       || negb (is_dir (SessionConfig.workspace config)))
              (invalid "session workspace must be an absolute directory") in
  match load_session db id with
  | Ok existing =>
      if same_creation existing config admission parent seed fresh_context then Ok (db, existing)
      else Err (invalid "session ID reused with different configuration or import")
  | Err (StoreError.MissingSession _) =>
      let? '(history, imported, workspace) :=
        match parent, seed with
        | None, Some (source, history) => Ok (history, Some source, None)
        | Some _, Some _ => Err (invalid "session cannot be both a native fork and a new legacy import")
        | Some cursor, None => fork_source db admission cursor fresh_context
        | None, None => Ok ([], None, None)
        end in
      let? _ := match workspace with
                | Some seed => seed_available a seed (integrity "workspace seed origin is unavailable")
                                 (integrity "workspace seed source is unavailable")
                | None => Ok tt
                end in
      insert_session db id
        (SessionCreation.mk (SessionBranch.mk workspace fresh_context None None) config (Some admission)
           parent history now imported)
  | Err e => Err e
  end.

(** ** The guards of a command *)

(** The request a result must belong to. *)
Definition owner (command : SessionCommand.t) : option Uuid :=
  match command with
  | SessionCommand.Response request _ | SessionCommand.Interpreter request _
  | SessionCommand.ProviderUsage request _ _ _ | SessionCommand.WorkspaceSaved request _
  | SessionCommand.ToolResult request _ _ | SessionCommand.ToolResultPart request _ _ _
  | SessionCommand.ToolResultEnd request _ _ | SessionCommand.TaskLinked request _
  | SessionCommand.TurnSettled request _ _ => Some request
  | _ => None
  end.

Definition guard_owner s (command : SessionCommand.t) : result unit StoreError.t :=
  match owner command with
  | Some request =>
      reject_if (bool_decide (SessionState.active_request s ≠ Some request))
        (invalid "late result belongs to a superseded request")
  | None => Ok tt
  end.

(** The call is recorded for the request and has no output. *)
Definition open_call s (request : Uuid) (call_id : string) : bool :=
  match SessionState.tool_calls s !! call_id with
  | Some call => (RecordedToolCall.request call =? request)%N
                 && bool_decide (RecordedToolCall.output call = None)
  | None => false
  end.

(** The cell belongs to the request and is pending. *)
Definition open_cell s (request cell : Uuid) : bool :=
  match InterpreterState.cells (SessionState.interpreter s) !! cell with
  | Some cell => (CellState.request cell =? request)%N && CellStatus.pending (CellState.status cell)
  | None => false
  end.

Definition guard_interpreter s a (request : Uuid) (event : InterpreterEvent.t) : result unit StoreError.t :=
  let calls := InterpreterState.pending_calls (SessionState.interpreter s) in
  match event with
  | InterpreterEvent.Started cell task outer_call source _ _ environment =>
      let? _ := reject_if
        (bool_decide (is_Some (InterpreterState.cells (SessionState.interpreter s) !! cell))
         || bool_decide (SessionState.tasks_by_request s !! request ≠ Some task)
         || negb (open_call s request outer_call))
        (invalid "interpreter cell has no pending outer call") in
      let? _ := read a source in
      let? _ := read a environment in Ok tt
  | InterpreterEvent.CallStarted cell ordinal call_id _ arguments =>
      let? _ := reject_if
        ((ordinal =? 0)%N
         || negb (str_eqb call_id (InterpreterState.call_name uuid_text cell ordinal))
         || bool_decide (is_Some (calls !! call_id))
         || negb (open_cell s request cell))
        (invalid "interpreter call has no active owning cell") in
      let? _ := read a arguments in Ok tt
  | InterpreterEvent.CallSettled cell ordinal result =>
      let? _ := reject_if
        (bool_decide (calls !! InterpreterState.call_name uuid_text cell ordinal ≠ Some cell)
         || negb (open_cell s request cell))
        (invalid "interpreter result has no pending call") in
      let? _ := read a result in Ok tt
  | InterpreterEvent.Settled cell result checkpoint _ =>
      let? _ := reject_if
        (negb (open_cell s request cell)
         || existsb (λ owner, (owner =? cell)%N) (btree_values calls))
        (invalid "interpreter cell is not ready to settle") in
      let? _ := read a result in
      match checkpoint with
      | Some checkpoint => let? _ := read a (CheckpointRef.artifact checkpoint) in Ok tt
      | None => Ok tt
      end
  end.

Definition guard_workspace db s a (request : Uuid) (seed : WorkspaceSeed.t) : result unit StoreError.t :=
  let? id := ok_or (SessionState.tasks_by_request s !! request)
               (invalid "workspace publication has no task owner") in
  let? '(task, _) := load_state (tables db) id in
  let? _ := reject_if
    (bool_decide (WorkspaceSeed.task seed ≠ Some id)
     || bool_decide (match TaskState.workspace_origin task with
                     | Some origin => Some origin
                     | None => TaskState.origin task
                     end ≠ Some (WorkspaceSeed.origin seed))
     || negb match TaskState.candidate task with
             | Some candidate => Candidate.frozen candidate
                                 && bool_decide (Candidate.source candidate = WorkspaceSeed.source seed)
             | None => false
             end
     || existsb active_writer (btree_values (TaskState.jobs task)))
    (invalid "workspace publication differs from its frozen task source") in
  seed_available a seed (integrity "published workspace is unavailable")
    (integrity "published workspace is unavailable").

Definition within (lo hi : N) (text : option string) : bool :=
  match text with Some text => (lo <=? str_len text)%N && (str_len text <=? hi)%N | None => false end.

(** One proposed tool call; the accumulator is the set of the identifiers seen. *)
Definition guard_proposal s (seen : gset string) (item : Value) : result (gset string) StoreError.t :=
  let? id := ok_or (match as_str (index item "call_id") with
                    | Some id => if within 1 256 (Some id) then Some id else None
                    | None => None
                    end) (invalid "tool proposal requires an ID") in
  let? _ := reject_if
    (bool_decide (id ∈ seen)
     || existsb (λ item, is_call item && value_is (index item "call_id") id) (SessionState.history s))
    (invalid "provider reused a tool call ID; execution was not repeated") in
  let? _ := reject_if
    (negb (within 1 128 (as_str (index item "name")))
     || bool_decide (as_str (index item "arguments") = None))
    (invalid "malformed tool proposal") in
  Ok ({[id]} ∪ seen).

Definition proposals (items : list Value) : list Value := base.filter (λ item, is_call item = true) items.

Definition guard_response s (items : list Value) : result unit StoreError.t :=
  let? _ := reject_if (bool_decide (256 < length items) || bool_decide (64 < length (proposals items)))
              (invalid "provider response exceeds item or tool proposal limits") in
  let? _ := for_each (guard_proposal s) (dom (SessionState.tool_calls s)) (proposals items) in
  Ok tt.

Definition guard db s a (command : SessionCommand.t) : result unit StoreError.t :=
  match command with
  | SessionCommand.Interpreter request event => guard_interpreter s a request event
  | SessionCommand.AdmissionPinned profile _ =>
      map_err StoreError.Invalid (SessionAdmissionProfile.validate is_dir profile)
  | SessionCommand.WorkspaceSaved request seed => guard_workspace db s a request seed
  | SessionCommand.Response _ items => guard_response s items
  | SessionCommand.ToolResult request call_id _ | SessionCommand.ToolResultPart request call_id _ _
  | SessionCommand.ToolResultEnd request call_id _ =>
      reject_if (negb (open_call s request call_id))
        (invalid "tool result has no pending call in this request")
  | SessionCommand.Input _ content =>
      let? _ := reject_if (bool_decide (is_Some (SessionState.active_request s)))
                  (invalid "session already has an active request") in
      reject_if (bool_decide (content = [])) (invalid "empty input")
  | SessionCommand.TaskLinked _ task => let? _ := load_state (tables db) task in Ok tt
  | SessionCommand.TurnSettled request (Some outcome) _ =>
      let? id := ok_or (SessionState.tasks_by_request s !! request) (invalid "task outcome without a task") in
      let? '(task, _) := load_state (tables db) id in
      reject_if (bool_decide (TaskState.outcome task ≠ Some outcome))
        (invalid "session cannot manufacture task outcomes")
  | SessionCommand.ContextProjected source_revision view projection =>
      let? _ := reject_if (negb (source_revision =? SessionState.revision s)%N)
                  (invalid "stale context projection") in
      match view with
      | Some view =>
          reject_if (bool_decide (projection ≠ []) || negb (valid_for uuid_text transition_text view s))
            (invalid "context view does not match its source")
      | None => Err (invalid "context view manifest is required")
      end
  | _ => Ok tt
  end.

Definition session_command db a (id : Uuid) (revision : N) (operation : Uuid) (command : SessionCommand.t) :
    result (SessionDb * SessionState.t) StoreError.t :=
  let? '(s, head) := load_session_state db id None in
  let? fingerprint := ok_or (of_value command) StoreError.Json in
  match SessionState.operations s !! operation with
  | Some previous =>
      if bool_decide (previous = fingerprint) then Ok (db, s)
      else Err (invalid "command ID reused with different input")
  | None =>
      let? _ := reject_if (negb (SessionState.revision s =? revision)%N)
                  (StoreError.Revision revision (SessionState.revision s)) in
      let? _ := guard_owner s command in
      let? _ := guard db s a command in
      let? '(db, s, _) := append_session db s head operation command in
      Ok (db, s)
  end.

Definition pin_session_admission db a (id : Uuid) (profile : SessionAdmissionProfile.t) :
    result (SessionDb * SessionState.t) StoreError.t :=
  let? _ := map_err StoreError.Invalid (SessionAdmissionProfile.validate is_dir profile) in
  let? s := load_session db id in
  match SessionState.admission s with
  | Some existing =>
      if bool_decide (existing = profile) then Ok (db, s)
      else Err (integrity "session admission is already pinned differently")
  | None =>
      let? _ := reject_if
        (negb (str_eqb (SessionConfig.workspace (SessionState.config s)) (SessionAdmissionProfile.workspace profile))
         || bool_decide (SessionConfig.model (SessionState.config s) ≠ SessionAdmissionProfile.model profile)
         || negb (SessionConfig.context_window_tokens (SessionState.config s)
                  =? SessionAdmissionProfile.context_window_tokens profile)%N)
        (integrity "legacy session configuration differs from its admission") in
      let? legacy := ok_or (of_value (SessionState.config s)) StoreError.Json in
      session_command db a id (SessionState.revision s) (new_v5 id "orvek-admission-pin-v1")
        (SessionCommand.AdmissionPinned profile legacy)
  end.

Definition save_task_workspace db a (session request task : Uuid) :
    result (SessionDb * SessionState.t) StoreError.t :=
  let? s := load_session db session in
  let? '(task, _) := load_state (tables db) task in
  let origin := match TaskState.workspace_origin task with
                | Some origin => Some origin
                | None => TaskState.origin task
                end in
  match origin, TaskState.candidate task with
  | Some origin, Some candidate =>
      if negb (Candidate.frozen candidate) || existsb active_writer (btree_values (TaskState.jobs task))
      then Ok (db, s)
      else session_command db a session (SessionState.revision s) (new_v5 request "workspace-saved")
             (SessionCommand.WorkspaceSaved request
                (WorkspaceSeed.mk origin (Candidate.source candidate) (Some (TaskState.id task))))
  | _, _ => Ok (db, s)
  end.

(** ** Tasks of a session *)

Definition user_text (text : string) : Value := VObject [("content", VString text); ("role", VString "user")].

(** The first event of a task is the one these arguments would write. *)
Definition same_start (first : TaskEvent.t) (request : string) (limits : Limits.t)
    (contract : option Contract.t) (intake prepared : option Digest) : bool :=
  match first, contract with
  | TaskEvent.Created initial _, Some contract => bool_decide (initial = contract)
  | TaskEvent.Requested initial initial_limits initial_intake initial_input _, None =>
      str_eqb initial request && bool_decide (initial_limits = limits)
      && bool_decide (Some initial_intake = intake) && bool_decide (initial_input = prepared)
  | _, _ => false
  end.

Definition is_ordinary (submission : Submission.t) : bool :=
  match Submission.intent submission with WorkIntent.Ordinary _ _ _ => true | _ => false end.

(** The submission admitted exactly this execution. *)
Definition admits_start (submission : Submission.t) (limits : Limits.t) (contract : option Contract.t)
    (intake prepared : option Digest) : bool :=
  bool_decide (Submission.status submission = SubmissionStatus.Running)
  && bool_decide (prepared = Some (Submission.input submission))
  && match Submission.intent submission with
     | WorkIntent.NewTask accepted policy | WorkIntent.Ordinary accepted policy _ =>
         bool_decide (accepted = limits) && bool_decide (Some policy = intake) && bool_decide (contract = None)
     | _ => false
     end.

Definition guard_start s (operation : Uuid) (limits : Limits.t) (contract : option Contract.t)
    (intake prepared : option Digest) : result unit StoreError.t :=
  let submission := SessionState.submissions s !! operation in
  let ordinary := match submission with Some b => is_ordinary b | None => false end in
  let? _ := reject_if
    match SessionState.active_request s with
    | Some active => negb (active =? operation)%N || negb ordinary
    | None => false
    end (invalid "session request is already active") in
  let classified := ordinary
    && bool_decide (is_Some (SessionState.operations s !! new_v5 operation "classification-intended")) in
  let? _ := reject_if
    (negb classified && bool_decide (is_Some (SessionBranch.pending_shell (SessionState.branch s))))
    (invalid "reconcile the pending shell before starting another task") in
  reject_if match submission with
            | Some b => negb (admits_start b limits contract intake prepared)
            | None => false
            end (invalid "execution differs from its admitted submission").

(** The input of the request and the link to its task. *)
Definition append_started db s (head : Digest) (operation : Uuid) (content : list Value) (task : Uuid) :
    result (SessionDb * SessionState.t) StoreError.t :=
  let? '(db, s, head) := append_session db s head operation (SessionCommand.Input Task content) in
  let? '(db, s, _) := append_session db s head (task_link operation)
                        (SessionCommand.TaskLinked operation task) in
  Ok (db, s).

(** [start_record]: [fresh] is [TaskId::new()] and [now] the clock. The result says
    whether the task is new. *)
Definition start_record db a (fresh : Uuid) (now : N) (session operation : Uuid) (request : string)
    (limits : Limits.t) (contract : option Contract.t) (intake : option Digest)
    (prepared : option (Digest * list Value)) :
    result (SessionDb * SessionState.t * TaskState.t * bool) StoreError.t :=
  let? '(s, head) := load_session_state db session None in
  let artifact := fst <$> prepared in
  match SessionState.tasks_by_request s !! operation with
  | Some id =>
      let? '(task, _) := load_state (tables db) id in
      let? row := ok_or (task_events (tables db) id !! 1%Z) StoreError.Sql in
      let? first := ok_or (from_slice (EventRow.event row)) StoreError.Json in
      if same_start first request limits contract intake artifact then Ok (db, s, task, false)
      else Err (invalid "request ID reused with different task input")
  | None =>
      let? _ := guard_start s operation limits contract intake artifact in
      let content := from_option snd [user_text request] prepared in
      let? '(t, task) := start_task (tables db) a fresh now request limits contract intake artifact in
      let? '(db, s) := append_started (db <| tables := t |>) s head operation content fresh in
      Ok (db, s, task, true)
  end.

Definition resume_task_record db a (now : N) (session operation id : Uuid) (revision : N) (reason : string) :
    result (SessionDb * SessionState.t * TaskState.t * bool) StoreError.t :=
  let? _ := reject_if (trim_is_empty reason) (invalid "resuming requires a user basis") in
  let content := [user_text reason] in
  let? '(s, head) := load_session_state db session None in
  let? '(task, task_head) := load_state (tables db) id in
  match SessionState.tasks_by_request s !! operation with
  | Some previous =>
      let reused := invalid "resume request ID reused with different input" in
      let? _ := reject_if (negb (previous =? id)%N) reused in
      let? digest := ok_or (of_value (SessionCommand.Input Task content)) StoreError.Json in
      let? _ := reject_if (bool_decide (SessionState.operations s !! operation ≠ Some digest)) reused in
      Ok (db, s, task, false)
  | None =>
      let? _ := reject_if (bool_decide (is_Some (SessionState.active_request s))
                           || bool_decide (is_Some (SessionState.operations s !! operation)))
                  (invalid "session already has an active request") in
      let? _ := reject_if (negb (existsb (λ task, (task =? id)%N) (btree_values (SessionState.tasks_by_request s))))
                  (invalid "task does not belong to this session") in
      let? '(t, task) := resume_task (tables db) a now task task_head revision reason in
      let? '(db, s) := append_started (db <| tables := t |>) s head operation content id in
      Ok (db, s, task, true)
  end.

(** ** Execution jobs

    [start_job_record] with an invocation: the job runs on behalf of a call of the
    session's active request, or of a call an interpreter cell made. *)

Definition guard_execution db a (id : Uuid) (invocation : JobInvocation.t) : result unit StoreError.t :=
  let? _ := read a (JobInvocation.input invocation) in
  let? _ := read a (JobInvocation.environment invocation) in
  let? '(s, _) := load_session_state db (JobInvocation.session invocation) None in
  let request := JobInvocation.request invocation in
  let? _ := reject_if (bool_decide (SessionState.tasks_by_request s !! request ≠ Some id)
                       || bool_decide (SessionState.active_request s ≠ Some request))
              (invalid "execution actor does not own this active request") in
  reject_if match JobInvocation.call_id invocation with
            | Some call => negb (open_call s request call)
                           && negb (InterpreterState.admits (SessionState.interpreter s) call request id)
            | None => false
            end (invalid "execution has no pending admitted tool call").

Definition start_job_record db a (id : Uuid) (revision : N) (mutates_candidate : bool) (timeout_ms : N)
    (invocation : option JobInvocation.t) (job_id : Uuid) (now now' : N) :
    result (SessionDb * (TaskState.t * Uuid)) StoreError.t :=
  let? '(st, r) := start_job_with (mk_store (tables db) a) id revision mutates_candidate timeout_ms invocation
    (λ t a, match invocation with
            | Some invocation => guard_execution (db <| tables := t |>) a id invocation
            | None => Ok tt
            end) job_id now now' in
  Ok (db <| tables := connection st |>, r).

(** ** Ancestry *)

(** The loop over the parents, [fuel] at most the number of sessions: every
    iteration visits another. [None] would be a loop that does not end. *)
Fixpoint lineage_loop (fuel : nat) db (lineage : Uuid) s (visited : gset Uuid) :
    option (result Uuid StoreError.t) :=
  match SessionState.parent s with
  | None => Some (Ok lineage)
  | Some parent =>
      match fuel with
      | O => None
      | S fuel =>
          let id := SessionCursor.session parent in
          if bool_decide (id ∈ visited) then Some (Err (integrity "cyclic session ancestry")) else
          match load_session db id with
          | Ok s => lineage_loop fuel db id s ({[id]} ∪ visited)
          | Err e => Some (Err e)
          end
      end
  end.

Definition prompt_cache_lineage db (id : Uuid) : option (result Uuid StoreError.t) :=
  match load_session db id with
  | Ok s => lineage_loop (size (sessions db)) db id s {[id]}
  | Err e => Some (Err e)
  end.

(** [for _ in 0..128] *)
Fixpoint scoped_loop (n : nat) db (scope : SessionState.t) (source : Uuid) (revision : option N) :
    result SessionState.t StoreError.t :=
  match n with
  | O => Err (invalid "history lineage exceeds its traversal bound")
  | S n =>
      if (SessionState.id scope =? source)%N then
        let revision := default (SessionState.revision scope) revision in
        let? _ := reject_if (SessionState.revision scope <? revision)%N
                    (invalid "history lies beyond the branch cutoff") in
        load_session_cursor db (SessionCursor.mk 1 source revision)
      else
        let? parent := ok_or (SessionState.parent scope) (invalid "history source is outside this branch") in
        let? scope := load_session_cursor db parent in
        scoped_loop n db scope source revision
  end.

Definition scoped_history db (actor source : Uuid) (revision : option N) :
    result SessionState.t StoreError.t :=
  let? scope := load_session db actor in
  scoped_loop 128 db scope source revision.

(** ** The cost of a journal *)

Definition session_cost db (session : Uuid) : result ProviderCostSummary.t StoreError.t :=
  let? commands := for_each (λ commands '(_, row),
      let? event := ok_or (from_slice (EventRow.event row)) StoreError.Json in
      Ok (match event with
          | SessionEvent.Command _ command _ => commands ++ [command]
          | SessionEvent.Created _ => commands
          end)) [] (btree_iter (events_of db session)) in
  Ok (cost_of commands).
End commands.
