(* ===== verification/Verification.v ===== *)
(** * Verification of a candidate (crates/harness/src/verification.rs)

    A check is a program of probes. It runs against the frozen candidate and, when the
    contract asks for a control, against a source on which it must fail for the stated
    reason. What the host observed is decided here, in the trusted host, and becomes
    the evidence of the check. Executing a command, comparing a directory with a
    snapshot, the clock and cancellation are the observations of a [World]. *)

From S2P Require Import Prelude Digest Contract State Artifacts Workspace Input ArtifactGraph Journal Store StoreTasks.
From S2P Require Import Conversation.

(** ** Check programs *)

Module Expectation.
Inductive t : Type := Equals (text : string) | Contains (text : string).
#[global] Instance eq_dec : EqDecision t.
Proof. solve_decision. Defined.
Definition matches (e : t) (bytes : string) : bool :=
  match e with
  | Equals text => str_eqb bytes text
  | Contains text => negb (str_is_empty text) && str_contains bytes text
  end.
Definition valid (e : t) : bool := match e with Contains text => negb (str_is_empty text) | Equals _ => true end.
(** [is_none_or(|value| value.matches(bytes))] and [is_some_and(|e| !e.valid())] *)
Definition holds (e : option t) (bytes : string) : bool :=
  match e with Some e => matches e bytes | None => true end.
Definition invalid (e : option t) : bool := match e with Some e => negb (valid e) | None => false end.
End Expectation.

Module Probe.
Inductive t : Type :=
| Command (id command : string) (exit_code : Z) (stdout stderr : option Expectation.t)
| File (id path : string) (content : Digest).
#[global] Instance eq_dec : EqDecision t.
Proof. solve_decision. Defined.
Definition id (p : t) : string := match p with Command id _ _ _ _ | File id _ _ => id end.
End Probe.

Module ControlFailure.
Record t : Type := mk { probe : string; stdout : option Expectation.t; stderr : option Expectation.t }.
#[global] Instance eq_dec : EqDecision t.
Proof. solve_decision. Defined.
End ControlFailure.

Module CheckProgram.
Record t : Type := mk { version : N; probes : list Probe.t; control_failure : option ControlFailure.t }.
#[global] Instance eq_dec : EqDecision t.
Proof. solve_decision. Defined.

(** One probe; the accumulator is the set of the identifiers seen. *)
Definition validate_probe (ids : gset string) (probe : Probe.t) : result (gset string) StoreError.t :=
  let id := Probe.id probe in
  let? _ := reject_if (str_is_empty id || bool_decide (id ∈ ids))
              (StoreError.Invalid "verification probe IDs must be unique") in
  let? _ :=
    match probe with
    | Probe.Command _ command _ stdout stderr =>
        reject_if
          (trim_is_empty command || (MAX_COMMAND_BYTES <? str_len command)%N
           || (bool_decide (stdout = None) && bool_decide (stderr = None))
           || Expectation.invalid stdout || Expectation.invalid stderr)
          (StoreError.Invalid "command probes require a bounded command and observable output expectation")
    | Probe.File _ path _ =>
        reject_if (str_is_empty path || negb (forallb is_normal (components path)))
          (StoreError.Invalid "file probe escapes candidate")
    end in
  Ok ({[id]} ∪ ids).

Definition validate (p : t) : result unit StoreError.t :=
  let? _ := reject_if (negb (p.(version) =? 1)%N || bool_decide (p.(probes) = []) || bool_decide (128 < length p.(probes)))
              (StoreError.Invalid "invalid verification program version or probe count") in
  let? ids := for_each validate_probe ∅ p.(probes) in
  reject_if
    match p.(control_failure) with
    | Some control =>
        negb (bool_decide (ControlFailure.probe control ∈ ids))
        || (bool_decide (ControlFailure.stdout control = None) && bool_decide (ControlFailure.stderr control = None))
        || Expectation.invalid (ControlFailure.stdout control) || Expectation.invalid (ControlFailure.stderr control)
    | None => false
    end (StoreError.Invalid "control must name a probe and a non-empty expected behavioral failure").
End CheckProgram.

(** ** Execution *)

(** [ExecutionResult] (runtime.rs) *)
Module ExecutionResult.
Record t : Type := mk {
  job_id : Uuid;
  status : ExecutionStatus.t;
  stdout : string;
  stderr : string;
  elapsed_ms : N;
  image_id : string;
  container_name : string;
}.
#[global] Instance eq_dec : EqDecision t.
Proof. solve_decision. Defined.
End ExecutionResult.

Module ProbeReport.
Record t : Type := mk {
  id : string;
  passed : bool;
  infrastructure_ok : bool;
  assertions : N;
  stdout : string;
  stderr : string;
  execution : option ExecutionResult.t;
}.
#[global] Instance eq_dec : EqDecision t.
Proof. solve_decision. Defined.
End ProbeReport.

Module VerificationReport.
Record t : Type := mk {
  job_id : Uuid;
  probes : list ProbeReport.t;
  control : list ProbeReport.t;
  limitations : list string;
  cancelled : bool;
  control_required : bool;
  control_matched : bool;
  image_id : string;
  source : option Digest;
  control_source : option Digest;
}.
#[global] Instance eta_t : Eta t := λ s,
  mk (s.(job_id)) (s.(probes)) (s.(control)) (s.(limitations)) (s.(cancelled)) (s.(control_required))
     (s.(control_matched)) (s.(image_id)) (s.(source)) (s.(control_source)).
End VerificationReport.

Module VerificationTicket.
Record t : Type := mk {
  lease : VerificationLease.t;
  program : CheckProgram.t;
  candidate : Snapshot.t;
  environment : Digest;
  timeout_ms : N;
  control_required : bool;
  control_kind : ControlRequirement.t;
  control_source : option Digest;
}.
End VerificationTicket.

(** What the world answers while a check runs. The first argument of the functions
    says whether the control runs, the second is the index of the probe. *)
Module World.
Record t : Type := mk {
  (** [Digest::of_value(&executor.environment()).ok()] and [executor.image_id()] *)
  environment : option Digest;
  image_id : string;
  (** [matches_exact] of the candidate before and after, a failure being [false] *)
  candidate_before : bool;
  candidate_after : bool;
  (** the control's snapshot and [matches_exact] of its directory before and after *)
  control : option (Snapshot.t * bool * bool);
  (** the milliseconds left when a probe starts *)
  remaining : bool → nat → N;
  (** the cancellation token: when a probe starts, read again when the loop breaks,
      and at the end *)
  cancelled : bool → nat → bool;
  cancelled_again : nat → bool;
  cancelled_end : bool;
  (** [executor.run]: the command, its job and its timeout; the error as its text *)
  run : bool → Uuid → string → N → result ExecutionResult.t string;
}.
End World.

Section verification.
Context {SHA : Sha256} {SER : StoreSerde}.
Context `{!Serde CheckProgram.t, !Serde VerificationReport.t, !Serde (list ProbeReport.t)}.
(** [Uuid::new_v5] *)
Variable new_v5 : Uuid → string → Uuid.

#[local] Notation invalid reason := (StoreError.Invalid reason).

(** [format!("{control}:{probe}")] *)
Definition probe_job_id (job : Uuid) (probe : string) (control : bool) : Uuid :=
  new_v5 job ((if control then "true:" else "false:") +:+ probe).

Definition prepare (st : Store) (task : Uuid) (revision : N) (check : string) (job_id : Uuid) (token : string)
    (now now' : N) : result (Store * VerificationTicket.t) StoreError.t :=
  let? s := load st task in
  let? _ := reject_if (negb (TaskState.revision s =? revision)%N)
              (StoreError.Revision revision (TaskState.revision s)) in
  let? c := accepted_contract s in
  let? definition := ok_or (Contract.checks c !! check) (invalid "unknown check") in
  let? bytes := read (artifacts st) (CheckDefinition.verifier definition) in
  let? program := ok_or (from_slice (A := CheckProgram.t) bytes) StoreError.Json in
  let? _ := CheckProgram.validate program in
  let? candidate := ok_or (TaskState.candidate s) (invalid "missing candidate") in
  let? snapshot := map_err (λ _, invalid "invalid candidate snapshot")
                     (Snapshot.load (Candidate.source candidate) (artifacts st)) in
  let kind := CheckDefinition.control definition in
  let required := bool_decide (kind ≠ ControlRequirement.None) in
  let? source :=
    match kind with
    | ControlRequirement.None => Ok None
    | ControlRequirement.BaselineFailure =>
        let? baseline := ok_or (TaskState.baseline s)
                           (invalid "baseline must be established before verification") in
        Ok (Some (Candidate.source baseline))
    | ControlRequirement.NegativeControl => Ok (CheckDefinition.control_source definition)
    end in
  let? _ := reject_if (required && bool_decide (CheckProgram.control_failure program = None))
              (invalid "required negative control is unspecified") in
  let? '(st, lease) := begin_check st task revision check job_id token now now' in
  Ok (st, VerificationTicket.mk lease program snapshot (Candidate.environment candidate)
            (CheckDefinition.timeout_ms definition) required kind source).

(** *** One probe *)

(** [u64::from(expectation.is_some())] *)
Definition count (e : option Expectation.t) : N := match e with Some _ => 1 | None => 0 end.

Definition run_probe (w : World.t) (control : bool) (job_id : Uuid) (probe : Probe.t) (snapshot : Snapshot.t)
    (timeout_ms : N) : ProbeReport.t :=
  match probe with
  | Probe.File id path content =>
      let passed := match Snapshot.entries snapshot !! path with
                    | Some (Entry.File actual _) => bool_decide (actual = content)
                    | _ => false
                    end in
      ProbeReport.mk id passed true 1 "" "" None
  | Probe.Command id command exit_code stdout stderr =>
      match World.run w control job_id command timeout_ms with
      | Ok e =>
          let ok := match ExecutionResult.status e with
                    | ExecutionStatus.Exited code => negb (code =? 126)%Z && negb (code =? 127)%Z
                    | _ => false
                    end in
          let passed := bool_decide (ExecutionResult.status e = ExecutionStatus.Exited exit_code)
                        && Expectation.holds stdout (ExecutionResult.stdout e)
                        && Expectation.holds stderr (ExecutionResult.stderr e) in
          ProbeReport.mk id passed ok
            (if ok then 1 + count stdout + count stderr else 0)%N
            (ExecutionResult.stdout e) (ExecutionResult.stderr e) (Some e)
      | Err text => ProbeReport.mk id false false 0 "" text None
      end
  end.

(** The loop over the probes: their reports, and the index at which it broke. *)
Fixpoint run_probes (w : World.t) (job : Uuid) (control : bool) (snapshot : Snapshot.t) (i : nat)
    (probes : list Probe.t) : list ProbeReport.t * option nat :=
  match probes with
  | [] => ([], None)
  | probe :: probes =>
      let remaining := World.remaining w control i in
      if (remaining =? 0)%N || World.cancelled w control i then ([], Some i) else
      let report := run_probe w control (probe_job_id job (Probe.id probe) control) probe snapshot remaining in
      let '(reports, broke) := run_probes w job control snapshot (S i) probes in
      (report :: reports, broke)
  end.

(** *** The whole check *)

Definition control_matches (expected : ControlFailure.t) (probe : ProbeReport.t) : bool :=
  str_eqb (ProbeReport.id probe) (ControlFailure.probe expected)
  && negb (ProbeReport.passed probe) && ProbeReport.infrastructure_ok probe
  && Expectation.holds (ControlFailure.stdout expected) (ProbeReport.stdout probe)
  && Expectation.holds (ControlFailure.stderr expected) (ProbeReport.stderr probe).

Definition limit (text : string) (r : VerificationReport.t) : VerificationReport.t :=
  r <| VerificationReport.limitations := VerificationReport.limitations r ++ [text] |>.

Definition execute_control (w : World.t) (ticket : VerificationTicket.t) (r : VerificationReport.t) :
    VerificationReport.t :=
  let job := VerificationLease.job (VerificationTicket.lease ticket) in
  let program := VerificationTicket.program ticket in
  match World.control w with
  | Some (snapshot, true, after) =>
      if bool_decide (of_value snapshot ≠ VerificationTicket.control_source ticket)
      then limit "required baseline/control workspace unavailable or changed" r else
      let r := r <| VerificationReport.control_source := of_value snapshot |> in
      let '(reports, broke) := run_probes w job true snapshot 0 (CheckProgram.probes program) in
      let r := match broke with Some _ => limit "negative control was interrupted" r | None => r end in
      let r := r <| VerificationReport.control := reports |> in
      let r := match CheckProgram.control_failure program with
               | Some expected => r <| VerificationReport.control_matched := existsb (control_matches expected) reports |>
               | None => r
               end in
      if (after : bool) then r else limit "control source changed during verification" r
  | _ => limit "required baseline/control workspace unavailable or changed" r
  end.

Definition execute (w : World.t) (ticket : VerificationTicket.t) : VerificationReport.t :=
  let job := VerificationLease.job (VerificationTicket.lease ticket) in
  let program := VerificationTicket.program ticket in
  let candidate := VerificationTicket.candidate ticket in
  let r := VerificationReport.mk job [] [] [] false (VerificationTicket.control_required ticket) false
             (World.image_id w) (of_value candidate) None in
  if bool_decide (World.environment w ≠ Some (VerificationTicket.environment ticket))
  then limit "execution environment differs from the admitted identity" r else
  if negb (World.candidate_before w) then limit "candidate bytes differ from the frozen manifest" r else
  let '(reports, broke) := run_probes w job false candidate 0 (CheckProgram.probes program) in
  let r := match broke with
           | Some i => limit "verification interrupted or deadline exhausted"
                         (r <| VerificationReport.cancelled := World.cancelled_again w i |>)
           | None => r
           end in
  let r := r <| VerificationReport.probes := reports |> in
  let r := if VerificationTicket.control_required ticket then execute_control w ticket r else r in
  let r := if World.candidate_after w then r else limit "candidate changed during verification" r in
  r <| VerificationReport.cancelled := VerificationReport.cancelled r || World.cancelled_end w |>.

(** *** What the report means *)

Definition all_observed (ticket : VerificationTicket.t) (r : VerificationReport.t) : bool :=
  bool_decide (length (VerificationReport.probes r)
               = length (CheckProgram.probes (VerificationTicket.program ticket)))
  && forallb ProbeReport.infrastructure_ok (VerificationReport.probes r)
  && bool_decide (VerificationReport.limitations r = []).

Definition passed (ticket : VerificationTicket.t) (r : VerificationReport.t) : bool :=
  all_observed ticket r && forallb ProbeReport.passed (VerificationReport.probes r)
  && (negb (VerificationReport.control_required r) || VerificationReport.control_matched r).

Definition verdict (ticket : VerificationTicket.t) (r : VerificationReport.t) : CheckStatus.t :=
  if VerificationReport.cancelled r then CheckStatus.Cancelled
  else if negb (all_observed ticket r) then CheckStatus.Inconclusive
  else if passed ticket r then CheckStatus.Passed else CheckStatus.Failed.

Definition unreconciled_jobs (r : VerificationReport.t) : list Uuid :=
  ExecutionResult.job_id <$> base.filter (λ e, ExecutionStatus.unknown (ExecutionResult.status e) = true)
    (omap ProbeReport.execution (VerificationReport.probes r ++ VerificationReport.control r)).

Definition observation (ticket : VerificationTicket.t) (r : VerificationReport.t) (report : Digest)
    (control_report : option Digest) : Observation.t := {|
  Observation.status := verdict ticket r;
  Observation.report := report;
  Observation.assertions := foldr N.add 0%N (ProbeReport.assertions <$> VerificationReport.probes r);
  Observation.discovered := Some (N.of_nat (length (CheckProgram.probes (VerificationTicket.program ticket))));
  Observation.skipped := N.of_nat (length (CheckProgram.probes (VerificationTicket.program ticket))
                                   - length (VerificationReport.probes r));
  Observation.exit_code := Some (if passed ticket r then 0%Z else 1%Z);
  Observation.signal := None;
  Observation.control :=
    source ← VerificationReport.control_source r;
    digest ← control_report;
    Some (ControlObservation.mk (VerificationTicket.control_kind ticket) source
            (existsb (λ probe, negb (ProbeReport.passed probe)) (VerificationReport.control r))
            (VerificationReport.control_matched r) digest);
  Observation.baseline_unchanged := false;
  Observation.limitations := VerificationReport.limitations r;
  Observation.unreconciled_jobs := unreconciled_jobs r;
|}.

Definition put_artifact (st : Store) (bytes : string) : result (Store * Digest) StoreError.t :=
  let? '(a, d) := map_err StoreError.Artifact (ArtifactStore.put (artifacts st) bytes) in
  Ok (st <| artifacts := a |>, d).

(** [finish]. The artifacts are stored even when the evidence is then refused; the
    model drops them with the rest of a failed operation. *)
Definition finish (st : Store) (ticket : VerificationTicket.t) (r : VerificationReport.t) (now : N) :
    result (Store * TaskState.t) StoreError.t :=
  let? _ := reject_if (negb (VerificationReport.job_id r =? VerificationLease.job (VerificationTicket.lease ticket))%N)
              StoreError.Lease in
  let? bytes := ok_or (to_vec r) StoreError.Json in
  let? '(st, report) := put_artifact st bytes in
  let? '(st, control_report) :=
    if VerificationReport.control_required r then
      let? bytes := ok_or (to_vec (VerificationReport.control r)) StoreError.Json in
      let? '(st, d) := put_artifact st bytes in Ok (st, Some d)
    else Ok (st, None) in
  finish_check st (VerificationTicket.lease ticket) (observation ticket r report control_report) now.
End verification.

(** ** What a pass means *)

Section passes.
Context {SHA : Sha256} {SER : StoreSerde}.
Variable new_v5 : Uuid → string → Uuid.
Implicit Types (w : World.t) (ticket : VerificationTicket.t).

(** There was time left for the probe and no cancellation. *)
Definition starts w (control : bool) (i : nat) : Prop :=
  World.remaining w control i ≠ 0%N ∧ World.cancelled w control i = false.

Definition probe_report w (control : bool) (job : Uuid) (snapshot : Snapshot.t) (i : nat) (probe : Probe.t) :
    ProbeReport.t :=
  run_probe w control (probe_job_id new_v5 job (Probe.id probe) control) probe snapshot (World.remaining w control i).

(** What the probe asks for was observed. *)
Definition probe_holds w (control : bool) (job : Uuid) (snapshot : Snapshot.t) (i : nat) (probe : Probe.t) : Prop :=
  match probe with
  | Probe.File _ path content => ∃ executable, Snapshot.entries snapshot !! path = Some (Entry.File content executable)
  | Probe.Command id command code stdout stderr =>
      ∃ e, World.run w control (probe_job_id new_v5 job id control) command (World.remaining w control i) = Ok e ∧
        ExecutionResult.status e = ExecutionStatus.Exited code ∧ code ≠ 126%Z ∧ code ≠ 127%Z ∧
        Expectation.holds stdout (ExecutionResult.stdout e) = true ∧
        Expectation.holds stderr (ExecutionResult.stderr e) = true
  end.

Lemma run_probe_passed w control job snapshot i probe :
  ProbeReport.infrastructure_ok (probe_report w control job snapshot i probe)
    && ProbeReport.passed (probe_report w control job snapshot i probe) = true ↔
  probe_holds w control job snapshot i probe.
Proof.
  unfold probe_report. destruct probe as [id command code stdout stderr|id path content]; cbn.
  - destruct (World.run _ _ _ _ _) as [e|text]; cbn; [|split; [done|by intros (e & ? & _)]].
    rewrite !andb_true_iff, bool_decide_eq_true. split.
    + intros (Hok & (Hs & Ho) & He). exists e. rewrite Hs in Hok.
      rewrite andb_true_iff, !negb_true_iff, !Z.eqb_neq in Hok. naive_solver.
    + intros (e' & [= ->] & Hs & H1 & H2 & Ho & He). rewrite Hs.
      by rewrite andb_true_iff, !negb_true_iff, !Z.eqb_neq.
  - destruct (Snapshot.entries snapshot !! path) as [[| |]|]; cbn; try (split; [done|by intros [? ?]]).
    rewrite bool_decide_eq_true. split; [intros ->; by eexists|by intros [? [= -> _]]].
Qed.

(** The reports of all the probes from an index on. *)
Fixpoint reports_from w (control : bool) (job : Uuid) (snapshot : Snapshot.t) (i : nat) (probes : list Probe.t) :
    list ProbeReport.t :=
  match probes with
  | [] => []
  | probe :: probes => probe_report w control job snapshot i probe :: reports_from w control job snapshot (S i) probes
  end.

Lemma reports_from_lookup w control job snapshot probes : ∀ i j,
  reports_from w control job snapshot i probes !! j = probe_report w control job snapshot (i + j) <$> probes !! j.
Proof.
  induction probes as [|probe probes IH]; intros i [|j]; cbn; [done..|by rewrite Nat.add_0_r|].
  by rewrite IH, Nat.add_succ_r.
Qed.
Lemma reports_from_length w control job snapshot probes i :
  length (reports_from w control job snapshot i probes) = length probes.
Proof. revert i. induction probes; intros i; cbn; [done|by f_equal]. Qed.

Lemma starts_iff w control i :
  (World.remaining w control i =? 0)%N || World.cancelled w control i = false ↔ starts w control i.
Proof. unfold starts. by rewrite orb_false_iff, N.eqb_neq. Qed.

(** The loop runs to its end exactly when every probe starts. *)
Lemma run_probes_None w job control snapshot : ∀ probes i reports,
  run_probes new_v5 w job control snapshot i probes = (reports, None) ↔
  (∀ j, j < length probes → starts w control (i + j)) ∧ reports = reports_from w control job snapshot i probes.
Proof.
  induction probes as [|probe probes IH]; intros i reports; cbn [run_probes length reports_from].
  { split; [intros [= <-]; split; [lia|done]|by intros [_ ->]]. }
  assert (Hsplit : (∀ j, j < S (length probes) → starts w control (i + j)) ↔
    starts w control i ∧ ∀ j, j < length probes → starts w control (S i + j)).
  { split.
    - intros Hs. split; [rewrite <-(Nat.add_0_r i); apply Hs; lia|]. intros j Hj.
      replace (S i + j) with (i + S j) by lia. apply Hs. lia.
    - intros [H0 Hs] [|j] Hj; [by rewrite Nat.add_0_r|]. replace (i + S j) with (S i + j) by lia. apply Hs. lia. }
  rewrite Hsplit, <-starts_iff. destruct (_ || _); [split; [done|by intros [[? _] _]]|].
  specialize (IH (S i)). destruct (run_probes _ _ _ _ _ (S i) probes) as [rs broke]. split.
  - intros [= <- ->]. destruct (proj1 (IH rs) eq_refl) as [Hs ->]. done.
  - intros [[_ Hs] ->]. pose proof (proj2 (IH _) (conj Hs eq_refl)) as [= -> ->]. done.
Qed.

Lemma run_probes_short w job control snapshot : ∀ probes i reports k,
  run_probes new_v5 w job control snapshot i probes = (reports, Some k) → length reports < length probes.
Proof.
  induction probes as [|probe probes IH]; intros i reports k; cbn [run_probes]; [done|].
  destruct (_ || _); [intros [= <- _]; cbn; lia|].
  destruct (run_probes _ _ _ _ _ (S i) probes) as [rs broke] eqn:Hr. intros [= <- ->]. cbn.
  apply IH in Hr. lia.
Qed.

Notation job_of ticket := (VerificationLease.job (VerificationTicket.lease ticket)).
Notation probes_of ticket := (CheckProgram.probes (VerificationTicket.program ticket)).

(** The control source, unchanged, fails the named probe for the stated reason. *)
Definition control_rejects w ticket : Prop := ∃ snapshot expected i probe,
  World.control w = Some (snapshot, true, true) ∧
  of_value snapshot = VerificationTicket.control_source ticket ∧
  (∀ j, j < length (probes_of ticket) → starts w true j) ∧
  CheckProgram.control_failure (VerificationTicket.program ticket) = Some expected ∧
  probes_of ticket !! i = Some probe ∧
  control_matches expected (probe_report w true (job_of ticket) snapshot i probe) = true.

Lemma limit_not_nil text r : VerificationReport.limitations (limit text r) ≠ [].
Proof. cbn. by destruct (VerificationReport.limitations r). Qed.

Lemma execute_control_frame w ticket r :
  VerificationReport.probes (execute_control new_v5 w ticket r) = VerificationReport.probes r ∧
  VerificationReport.cancelled (execute_control new_v5 w ticket r) = VerificationReport.cancelled r ∧
  VerificationReport.control_required (execute_control new_v5 w ticket r) = VerificationReport.control_required r ∧
  VerificationReport.limitations r `prefix_of` VerificationReport.limitations (execute_control new_v5 w ticket r).
Proof.
  unfold execute_control. destruct (World.control w) as [[[snapshot []] after]|];
    try (split_and!; try done; by apply prefix_app_r).
  case_bool_decide; [split_and!; try done; by apply prefix_app_r|].
  destruct (run_probes _ _ _ _ _ _ _) as [reports [k|]];
    destruct (CheckProgram.control_failure _); destruct after; split_and!; try done;
    cbn; by repeat apply prefix_app_r.
Qed.

Lemma execute_control_passes w ticket r :
  VerificationReport.limitations r = [] → VerificationReport.control_matched r = false →
  VerificationReport.limitations (execute_control new_v5 w ticket r) = [] ∧
    VerificationReport.control_matched (execute_control new_v5 w ticket r) = true ↔ control_rejects w ticket.
Proof.
  intros Hl Hm. unfold execute_control, control_rejects. split.
  - destruct (World.control w) as [[[snapshot []] after]|];
      try (intros [Hn _]; by apply limit_not_nil in Hn).
    case_bool_decide as Hs; [intros [Hn _]; by apply limit_not_nil in Hn|].
    destruct (run_probes _ _ _ _ _ _ _) as [reports [k|]] eqn:Hr.
    { intros [Hn _]. exfalso. revert Hn.
      destruct (CheckProgram.control_failure _), after; cbn; by destruct (VerificationReport.limitations r). }
    apply run_probes_None in Hr as [Hst ->].
    destruct after; [|intros [Hn _]; by apply limit_not_nil in Hn].
    destruct (CheckProgram.control_failure _) as [expected|]; [|cbn; rewrite Hm; by intros [_ ?]].
    intros [_ He]. cbn in He. apply existsb_exists in He as (report & Hin%list_elem_of_In & Hc).
    apply list_elem_of_lookup in Hin as [i Hi]. rewrite reports_from_lookup in Hi.
    apply fmap_Some in Hi as (probe & Hp & ->). exists snapshot, expected, i, probe.
    by split_and!.
  - intros (snapshot & expected & i & probe & -> & Hs & Hst & -> & Hp & Hc).
    rewrite bool_decide_eq_false_2 by (intros Hn; by apply Hn).
    rewrite (proj2 (run_probes_None _ _ _ _ _ 0 _) (conj Hst eq_refl)). cbn. rewrite Hl. split; [done|].
    apply existsb_exists. exists (probe_report w true (job_of ticket) snapshot i probe). split; [|done].
    apply list_elem_of_In, list_elem_of_lookup. exists i. by rewrite reports_from_lookup, Hp.
Qed.

Lemma verdict_passed ticket r :
  verdict ticket r = CheckStatus.Passed ↔
  VerificationReport.cancelled r = false ∧ VerificationReport.limitations r = [] ∧
  length (VerificationReport.probes r) = length (probes_of ticket) ∧
  (∀ i report, VerificationReport.probes r !! i = Some report →
     ProbeReport.infrastructure_ok report && ProbeReport.passed report = true) ∧
  (VerificationReport.control_required r = true → VerificationReport.control_matched r = true).
Proof.
  unfold verdict. destruct (VerificationReport.cancelled r); [split; [done|by intros [? _]]|].
  assert (Hp : passed ticket r = true ↔ all_observed ticket r = true ∧ passed ticket r = true).
  { unfold passed. rewrite !andb_true_iff. tauto. }
  transitivity (all_observed ticket r = true ∧ passed ticket r = true).
  { destruct (all_observed ticket r), (passed ticket r); cbn; naive_solver. }
  rewrite <-Hp. clear Hp. unfold passed, all_observed. rewrite !andb_true_iff, !bool_decide_eq_true, !forallb_forall.
  assert (Hc : negb (VerificationReport.control_required r) || VerificationReport.control_matched r = true ↔
    (VerificationReport.control_required r = true → VerificationReport.control_matched r = true)).
  { destruct (VerificationReport.control_required r), (VerificationReport.control_matched r); cbn; naive_solver. }
  rewrite Hc. setoid_rewrite <-list_elem_of_In. split.
  - intros ((((Hlen & Hi) & Hl) & Hps) & Hctl). split_and!; try done. intros i report Hr.
    apply list_elem_of_lookup_2 in Hr. by rewrite Hi, Hps.
  - intros (_ & Hl & Hlen & Hr & Hctl).
    assert (∀ x, x ∈ VerificationReport.probes r → ProbeReport.infrastructure_ok x = true ∧ ProbeReport.passed x = true).
    { intros x [i Hi]%list_elem_of_lookup. apply andb_true_iff. by eapply Hr. }
    split_and!; try done; intros x Hx; by apply H.
Qed.

(** The report of a check whose probes all ran. *)
Definition full_report w ticket : VerificationReport.t :=
  VerificationReport.mk (job_of ticket)
    (reports_from w false (job_of ticket) (VerificationTicket.candidate ticket) 0 (probes_of ticket))
    [] [] false (VerificationTicket.control_required ticket) false (World.image_id w)
    (of_value (VerificationTicket.candidate ticket)) None.

Lemma verdict_probes w ticket :
  (∀ i report, VerificationReport.probes (full_report w ticket) !! i = Some report →
     ProbeReport.infrastructure_ok report && ProbeReport.passed report = true) ↔
  (∀ i probe, probes_of ticket !! i = Some probe →
     probe_holds w false (job_of ticket) (VerificationTicket.candidate ticket) i probe).
Proof.
  cbn [VerificationReport.probes full_report]. split.
  - intros Hr i probe Hp. apply run_probe_passed, (Hr i). by rewrite reports_from_lookup, Hp.
  - intros Hr i report Hi. rewrite reports_from_lookup in Hi. apply fmap_Some in Hi as (probe & Hp & ->).
    by apply run_probe_passed, Hr.
Qed.

(** A limitation recorded on the way keeps the check from passing. *)
Lemma limited_not_passed w ticket r (after again : bool) :
  VerificationReport.limitations r ≠ [] →
  let r := if VerificationTicket.control_required ticket then execute_control new_v5 w ticket r else r in
  let r := if after then r else limit "candidate changed during verification" r in
  verdict ticket (r <| VerificationReport.cancelled := again |>) ≠ CheckStatus.Passed.
Proof.
  intros Hr. cbv zeta. intros (_ & Hl & _)%verdict_passed.
  assert (Hp : VerificationReport.limitations r `prefix_of` VerificationReport.limitations
    (if VerificationTicket.control_required ticket then execute_control new_v5 w ticket r else r)).
  { destruct (VerificationTicket.control_required ticket); [apply execute_control_frame|done]. }
  destruct after; cbn in Hl; [rewrite Hl in Hp; by apply prefix_nil_inv in Hp|].
  by apply app_nil in Hl as [_ ?].
Qed.

(** C25: a check passes exactly when everything it claims was observed: the admitted
    environment, the frozen candidate before and after, every probe run to the result
    it expects, no cancellation, and, when the contract asks for a control, the control
    source failing the named probe for the stated reason. *)
Theorem verification_passes_iff w ticket :
  verdict ticket (execute new_v5 w ticket) = CheckStatus.Passed ↔
  World.environment w = Some (VerificationTicket.environment ticket) ∧
  World.candidate_before w = true ∧ World.candidate_after w = true ∧ World.cancelled_end w = false ∧
  (∀ i probe, probes_of ticket !! i = Some probe →
     starts w false i ∧ probe_holds w false (job_of ticket) (VerificationTicket.candidate ticket) i probe) ∧
  (VerificationTicket.control_required ticket = true → control_rejects w ticket).
Proof.
  unfold execute. set (r0 := VerificationReport.mk _ _ _ _ _ _ _ _ _ _).
  case_bool_decide as Henv.
  { split; [|by intros [? _]]. intros (_ & Hl & _)%verdict_passed. done. }
  destruct (World.candidate_before w); cbn [negb];
    [|split; [by intros (_ & Hl & _)%verdict_passed|by intros (_ & ? & _)]].
  destruct (run_probes _ _ _ _ _ _ _) as [reports [k|]] eqn:Hrun.
  { split.
    - intros Hv. exfalso. revert Hv. apply (limited_not_passed w ticket (r0 <| VerificationReport.cancelled := _ |>
        <| VerificationReport.limitations := _ |> <| VerificationReport.probes := _ |>)). done.
    - intros (_ & _ & _ & _ & Hp & _). exfalso.
      assert (run_probes new_v5 w (job_of ticket) false (VerificationTicket.candidate ticket) 0 (probes_of ticket)
        = (reports_from w false (job_of ticket) (VerificationTicket.candidate ticket) 0 (probes_of ticket), None)) as He.
      { apply run_probes_None. split; [|done]. intros j [probe Hj]%lookup_lt_is_Some. by apply (Hp j probe). }
      rewrite Hrun in He. done. }
  apply run_probes_None in Hrun as [Hst ->].
  change (r0 <| VerificationReport.probes := _ |>) with (full_report w ticket).
  pose proof (verdict_probes w ticket) as Hprobes.
  assert (Hlen : length (VerificationReport.probes (full_report w ticket)) = length (probes_of ticket))
    by apply reports_from_length.
  assert (Hsplit : (∀ i probe, probes_of ticket !! i = Some probe → starts w false i ∧
      probe_holds w false (job_of ticket) (VerificationTicket.candidate ticket) i probe) ↔
    ∀ i probe, probes_of ticket !! i = Some probe →
      probe_holds w false (job_of ticket) (VerificationTicket.candidate ticket) i probe).
  { split; [naive_solver|]. intros Hp i probe Hi. split; [apply (Hst i); by apply lookup_lt_Some in Hi|by apply Hp]. }
  rewrite Hsplit, <-Hprobes. clear Hsplit Hprobes. set (f := full_report w ticket) in *.
  destruct (World.candidate_after w);
    [|split; [by intros (_ & Hl & _)%verdict_passed; apply limit_not_nil in Hl|by intros (_ & _ & ? & _)]].
  rewrite verdict_passed. destruct (VerificationTicket.control_required ticket) eqn:Hreq; cbn [put].
  - destruct (execute_control_frame w ticket f) as (Hpr & Hca & Hcr & _).
    pose proof (execute_control_passes w ticket f eq_refl eq_refl) as Hctl.
    cbn [VerificationReport.cancelled VerificationReport.limitations VerificationReport.probes
      VerificationReport.control_required VerificationReport.control_matched].
    rewrite Hpr, Hca, Hcr. change (VerificationReport.control_required f) with (VerificationTicket.control_required ticket).
    rewrite Hreq. change (VerificationReport.cancelled f) with false. cbn [orb]. naive_solver.
  - cbn [VerificationReport.cancelled VerificationReport.limitations VerificationReport.probes
      VerificationReport.control_required VerificationReport.control_matched].
    change (VerificationReport.cancelled f) with false. change (VerificationReport.limitations f) with (@nil string).
    change (VerificationReport.control_required f) with (VerificationTicket.control_required ticket).
    rewrite Hreq. cbn [orb]. naive_solver.
Qed.
End passes.
