(* ===== verification/ContractAdmission.v ===== *)
(** * Contract admission (crates/harness/src/admission.rs, input.rs)

    A model proposes a contract; the host compiles it against the operator's profile
    and the user's words. A proposal cannot weaken the profile's checks, invent what
    the user asked for, or, for a follow-up, give up an accepted obligation. *)

From S2P Require Import Prelude Digest Contract State Artifacts Workspace Input ArtifactGraph Journal Codec Codecs Store.
From S2P Require Import Obligations Conversation Session Verification.

(** ** User input (input.rs) *)

Module PreparedInput.
Record t : Type := mk { text : string; messages : list Value; artifact : Digest }.
End PreparedInput.

Section load.
Context {SHA : Sha256} `{!Serde (list Value)}.

Definition is_input_part (part : Value) : bool :=
  value_is (index part "type") "input_text" || value_is (index part "type") "tact_image"
  || value_is (index part "type") "tact_review".

(** [input::load] *)
Definition load_input (artifact : Digest) (a : ArtifactStore.t) : result PreparedInput.t StoreError.t :=
  let? bytes := read a artifact in
  let? messages := ok_or (from_slice (A := list Value) bytes) StoreError.Json in
  match messages with
  | [message] =>
      let? _ := reject_if (negb (value_is (index message "role") "user"))
                  (StoreError.Integrity "input artifact must contain one user message") in
      let? parts := ok_or (as_array (index message "content"))
                      (StoreError.Integrity "input artifact has no content parts") in
      let? _ := reject_if (bool_decide (parts = []) || existsb (λ part, negb (is_input_part part)) parts)
                  (StoreError.Integrity "invalid input artifact content") in
      Ok (PreparedInput.mk (str_concat "" (omap (λ part, as_str (index part "text")) parts)) messages artifact)
  | _ => Err (StoreError.Integrity "input artifact must contain one user message")
  end.
End load.

(** ** Data *)

Module ProposedCheck.
Record t : Type := mk {
  purpose : string;
  kind : CheckKind;
  program : CheckProgram.t;
  baseline_failure : bool;
  control_omission : option string;
}.
#[global] Instance eq_dec : EqDecision t.
Proof. solve_decision. Defined.
End ProposedCheck.

Module Proposal.
Record t : Type := mk {
  outcome : string;
  scope : string;
  requirements : list Requirement.t;
  checks : gmap string ProposedCheck.t;
  protected_behavior : list string;
  assumptions : list string;
  open_questions : list string;
}.
End Proposal.

Module RepositoryProfile.
Record t : Type := mk { version : N; name : string; checks : gmap string ProposedCheck.t }.
End RepositoryProfile.

Module RequestPolicy.
Record t : Type := mk { version : N; profile : RepositoryProfile.t; delivery : DeliveryKind.t }.
End RequestPolicy.

(** The object the receipt of an admission serializes. *)
Module AdmissionReceipt.
Record t : Type := mk {
  request : string;
  limits : Limits.t;
  delivery : DeliveryKind.t;
  profile : RepositoryProfile.t;
  proposal : Proposal.t;
  baseline : Digest;
}.
End AdmissionReceipt.

#[local] Notation invalid reason := (StoreError.Invalid reason).

Definition newline : string := String (ascii_of_N 10) EmptyString.

(** ** Checks *)

Definition validate_check (check : ProposedCheck.t) : result unit StoreError.t :=
  let? _ := CheckProgram.validate (ProposedCheck.program check) in
  let? _ := reject_if (trim_is_empty (ProposedCheck.purpose check)) (invalid "acceptance check requires a purpose") in
  if ProposedCheck.baseline_failure check then
    reject_if (bool_decide (CheckProgram.control_failure (ProposedCheck.program check) = None)
               || bool_decide (ProposedCheck.control_omission check ≠ None))
      (invalid "baseline control requires its intended failure observation")
  else
    reject_if match ProposedCheck.control_omission check with
              | Some reason => trim_is_empty reason
              | None => true
              end (invalid "omitting a negative control requires a visible reason").

Definition supported_delivery (kind : DeliveryKind.t) : bool :=
  bool_decide (kind = DeliveryKind.Source) || bool_decide (kind = DeliveryKind.Patch).

Definition validate_profile (p : RepositoryProfile.t) : result unit StoreError.t :=
  let? _ := reject_if (negb (RepositoryProfile.version p =? 1)%N || trim_is_empty (RepositoryProfile.name p)
                       || bool_decide (128 < size (RepositoryProfile.checks p)))
              (invalid "invalid repository profile identity or size") in
  for_each (λ _, validate_check) tt (btree_values (RepositoryProfile.checks p)).

Definition validate_policy (p : RequestPolicy.t) : result unit StoreError.t :=
  let? _ := reject_if (negb (RequestPolicy.version p =? 1)%N || negb (supported_delivery (RequestPolicy.delivery p)))
              (invalid "unsupported intake policy or delivery adapter") in
  validate_profile (RequestPolicy.profile p).

(** ** Follow-ups *)

(** The accepted items that the new list lacks are added to it. *)
Definition push_missing {A} `{EqDecision A} (new old : list A) : list A :=
  foldl (λ l x, if bool_decide (x ∈ l) then l else l ++ [x]) new old.

Definition merge_requirements (new old : list Requirement.t) : result (list Requirement.t) StoreError.t :=
  for_each (λ new r,
    match List.find (λ p, str_eqb (Requirement.id p) (Requirement.id r)) new with
    | Some p =>
        let? _ := reject_if (bool_decide (p ≠ r))
                    (invalid "follow-up cannot weaken or rewrite an accepted requirement") in
        Ok new
    | None => Ok (new ++ [r])
    end) new old.

Definition merge_checks (new : gmap string CheckDefinition.t) (old : list (string * CheckDefinition.t)) :
    result (gmap string CheckDefinition.t) StoreError.t :=
  for_each (λ new '(id, check),
    match new !! id with
    | Some p =>
        let? _ := reject_if (bool_decide (p ≠ check))
                    (invalid "follow-up cannot change a protected acceptance check") in
        Ok new
    | None => Ok (<[id := check]> new)
    end) new old.

Definition follow_up_text (old new : string) : string :=
  if bool_decide (new = old) then new else old +:+ newline +:+ "Follow-up: " +:+ new.

Definition merge_accepted (old new : Contract.t) : result Contract.t StoreError.t :=
  let? requirements := merge_requirements (Contract.requirements new) (Contract.requirements old) in
  let? checks := merge_checks (Contract.checks new) (btree_iter (Contract.checks old)) in
  let contract := Contract.mk (Contract.request new)
    (follow_up_text (Contract.outcome old) (Contract.outcome new))
    (follow_up_text (Contract.scope old) (Contract.scope new)) requirements checks
    (push_missing (Contract.protected_behavior new) (Contract.protected_behavior old))
    (push_missing (Contract.assumptions new) (Contract.assumptions old))
    (Contract.open_questions new) (Contract.delivery new) (Contract.limits new) in
  let? _ := preserves_obligations old contract in
  Ok contract.

(** ** Compilation *)

Section compile.
Context {SHA : Sha256} {SER : StoreSerde}.
Context `{!Serde CheckProgram.t, !Serde RepositoryProfile.t, !Serde RequestPolicy.t, !Serde AdmissionReceipt.t}.

(** [definition]: the check and the assumptions with its omission disclosed. *)
Definition definition (id : string) (check : ProposedCheck.t) (assumptions : list string) :
    result (CheckDefinition.t * list string) StoreError.t :=
  let? _ := validate_check check in
  let assumptions := match ProposedCheck.control_omission check with
                     | Some reason => assumptions ++ ["Check " +:+ id +:+ " omits a negative control: " +:+ reason]
                     | None => assumptions
                     end in
  let? verifier := ok_or (of_value (ProposedCheck.program check)) StoreError.Json in
  Ok (CheckDefinition.mk (ProposedCheck.purpose check) (ProposedCheck.kind check) verifier
        ["tact-protected-verifier"; id] 60000 1
        (if ProposedCheck.baseline_failure check then ControlRequirement.BaselineFailure else ControlRequirement.None)
        None MustPass RejectAnyFailure, assumptions).

Definition user_basis (task : TaskState.t) (a : ArtifactStore.t) : result string StoreError.t :=
  for_each (λ basis '(_, input),
    let? prepared := load_input input a in
    Ok (basis +:+ newline +:+ PreparedInput.text prepared)) (TaskState.request task) (TaskState.directives task).

Definition check_origin (basis : string) (baseline : Snapshot.t) (r : Requirement.t) : result unit StoreError.t :=
  match Requirement.origin r with
  | User quote =>
      reject_if (trim_is_empty quote || negb (str_contains basis quote))
        (invalid "user-origin requirement must quote the original request")
  | Repository path =>
      reject_if (bool_decide (Snapshot.entries baseline !! path = None))
        (invalid "repository-origin requirement must name an inspected baseline path")
  | Inferred _ => Ok tt
  end.

Definition behavioral (check : ProposedCheck.t) : bool :=
  negb (bool_decide (ProposedCheck.kind check = Build) || bool_decide (ProposedCheck.kind check = Static)).

Definition compiling : Type := gmap string CheckDefinition.t * list string * list Requirement.t.

(** A check of the proposal. *)
Definition compile_proposed (acc : compiling) (item : string * ProposedCheck.t) : result compiling StoreError.t :=
  let '(checks, assumptions, requirements) := acc in
  let '(id, check) := item in
  let? _ := reject_if (starts_with id "profile-") (invalid "profile check IDs are reserved") in
  let? '(d, assumptions) := definition id check assumptions in
  Ok (<[id := d]> checks, assumptions, requirements).

Definition profile_id (id : string) : string := "profile-" +:+ id.

(** A check of the profile, which brings its own requirement. *)
Definition compile_profile (name : string) (profile_digest : Digest) (acc : compiling)
    (item : string * ProposedCheck.t) : result compiling StoreError.t :=
  let '(checks, assumptions, requirements) := acc in
  let '(id, check) := item in
  let id := profile_id id in
  let? '(d, assumptions) := definition id check assumptions in
  Ok (<[id := d]> checks, assumptions,
      requirements ++ [Requirement.mk id (ProposedCheck.purpose check)
        (Repository ("protected profile " +:+ name +:+ " @ " +:+ digest_to_string profile_digest)) [id] []]).

Definition put_all (a : ArtifactStore.t) (l : list string) : result ArtifactStore.t StoreError.t :=
  for_each (λ a bytes, let? '(a, _) := map_err StoreError.Artifact (ArtifactStore.put a bytes) in Ok a) a l.

Definition programs_of (proposal : Proposal.t) (profile : RepositoryProfile.t) : result (list string) StoreError.t :=
  for_each (λ l check, let? bytes := ok_or (to_vec (ProposedCheck.program check)) StoreError.Json in Ok (l ++ [bytes]))
    [] (btree_values (Proposal.checks proposal) ++ btree_values (RepositoryProfile.checks profile)).

Definition compile (task : TaskState.t) (proposal : Proposal.t) (baseline : Snapshot.t) (a : ArtifactStore.t) :
    result (ArtifactStore.t * Contract.t * Digest) StoreError.t :=
  let? intake := ok_or (TaskState.intake task) (invalid "missing durable intake policy") in
  let? bytes := read a intake in
  let? policy := ok_or (from_slice (A := RequestPolicy.t) bytes) StoreError.Json in
  let? _ := validate_policy policy in
  let profile := RequestPolicy.profile policy in
  let delivery := RequestPolicy.delivery policy in
  let? _ := reject_if (bool_decide (TaskState.contract task ≠ None) && negb (TaskState.amendment_pending task))
              (invalid "accepted contracts require the amendment path") in
  let? _ := reject_if (negb (supported_delivery delivery)) (invalid "unsupported delivery adapter") in
  let? _ := validate_profile profile in
  let? basis := user_basis task a in
  let? _ := reject_if (bool_decide (128 < length (Proposal.requirements proposal))
                       || bool_decide (128 < size (Proposal.checks proposal)))
              (invalid "contract proposal exceeds requirement/check bounds") in
  let? _ := for_each (λ _, check_origin basis baseline) tt (Proposal.requirements proposal) in
  let? _ := reject_if (negb (existsb behavioral (btree_values (Proposal.checks proposal))))
              (invalid "a coding task requires behavior-specific acceptance beyond build/static checks") in
  let? baseline_digest := ok_or (of_value baseline) StoreError.Json in
  let? receipt_bytes := ok_or (to_vec (AdmissionReceipt.mk (TaskState.request task) (TaskState.initial_limits task)
                                         delivery profile proposal baseline_digest)) StoreError.Json in
  let? programs := programs_of proposal profile in
  let? compiled := for_each compile_proposed (∅, Proposal.assumptions proposal, Proposal.requirements proposal)
                     (btree_iter (Proposal.checks proposal)) in
  let? profile_digest := ok_or (of_value profile) StoreError.Json in
  let? '(checks, assumptions, requirements) :=
    for_each (compile_profile (RepositoryProfile.name profile) profile_digest) compiled
      (btree_iter (RepositoryProfile.checks profile)) in
  let contract := Contract.mk (TaskState.request task) (Proposal.outcome proposal) (Proposal.scope proposal)
    requirements checks (Proposal.protected_behavior proposal) assumptions (Proposal.open_questions proposal)
    delivery (TaskState.initial_limits task) in
  let? contract := match TaskState.contract task with
                   | Some old => merge_accepted old contract
                   | None => Ok contract
                   end in
  let? _ := map_err StoreError.Contract (Contract.validate contract) in
  let? a := put_all a programs in
  let? '(a, receipt) := map_err StoreError.Artifact (ArtifactStore.put a receipt_bytes) in
  Ok (a, contract, receipt).
End compile.

(** ** What a compiled contract holds *)

Section admitted.
Context {SHA : Sha256} {SER : StoreSerde}.
Context `{!Serde CheckProgram.t, !Serde RepositoryProfile.t, !Serde RequestPolicy.t, !Serde AdmissionReceipt.t}.
Implicit Types (a : ArtifactStore.t) (c old new : Contract.t).

(** The check of the contract runs the program of the proposed check, under its control. *)
Record enforces (id : string) (check : ProposedCheck.t) (d : CheckDefinition.t) : Prop := {
  en_checked : validate_check check = Ok tt;
  en_purpose : CheckDefinition.purpose d = ProposedCheck.purpose check;
  en_kind : CheckDefinition.kind d = ProposedCheck.kind check;
  en_verifier : of_value (ProposedCheck.program check) = Some (CheckDefinition.verifier d);
  en_command : CheckDefinition.command d = ["tact-protected-verifier"; id];
  en_control : CheckDefinition.control d = ControlRequirement.BaselineFailure ↔ ProposedCheck.baseline_failure check = true;
  en_policy : CheckDefinition.baseline d = MustPass ∧ CheckDefinition.flake d = RejectAnyFailure;
}.

Definition omission_disclosed (id : string) (check : ProposedCheck.t) (assumptions : list string) : Prop :=
  ∀ reason, ProposedCheck.control_omission check = Some reason →
    ("Check " +:+ id +:+ " omits a negative control: " +:+ reason) ∈ assumptions.

Lemma definition_Ok id check assumptions d assumptions' :
  definition id check assumptions = Ok (d, assumptions') →
  enforces id check d ∧ omission_disclosed id check assumptions' ∧ assumptions ⊆ assumptions'.
Proof.
  unfold definition. intros ([] & Hv & (v & Hd%ok_or_Ok & [= <- <-])%rbind_Ok)%rbind_Ok. split_and!.
  - split; try done; simpl; by destruct (ProposedCheck.baseline_failure check).
  - intros reason ->. apply elem_of_app. right. by left.
  - destruct (ProposedCheck.control_omission check); [|done]. apply list_subseteq_app_l. done.
Qed.

(** The state of the compilation covers the checks of [seen], under names [f]. *)
Record covers (f : string → string) (seen : list (string * ProposedCheck.t)) (acc : compiling) : Prop := {
  co_checks id check : (id, check) ∈ seen →
    ∃ d, acc.1.1 !! f id = Some d ∧ enforces (f id) check d ∧ omission_disclosed (f id) check acc.1.2;
}.

Lemma covers_mono f seen acc acc' :
  covers f seen acc → (∀ id, f id ∈ f <$> seen.*1 → acc'.1.1 !! f id = acc.1.1 !! f id) →
  acc.1.2 ⊆ acc'.1.2 → covers f seen acc'.
Proof.
  intros [H] Hc Ha. split. intros id check Hin. destruct (H id check Hin) as (d & Hd & He & Ho).
  exists d. split_and!; [|done|].
  - rewrite Hc; [done|]. apply list_elem_of_fmap. exists id. split; [done|].
    apply list_elem_of_fmap. by exists (id, check).
  - intros reason Hr. by apply Ha, Ho.
Qed.

Lemma fst_NoDup_ne {B} (seen : list (string * B)) l id (x : B) :
  NoDup (l.*1) → seen ++ [(id, x)] `prefix_of` l → id ∉ seen.*1.
Proof.
  intros Hl [k ->]. rewrite !fmap_app in Hl. apply NoDup_app in Hl as (Hl & _ & _).
  apply NoDup_app in Hl as (_ & Hl & _). intros Hin. apply (Hl id Hin). by left.
Qed.

Lemma compile_proposed_Ok assumptions requirements l acc' :
  NoDup l.*1 →
  for_each compile_proposed (∅, assumptions, requirements) l = Ok acc' →
  covers id l acc' ∧ acc'.2 = requirements ∧ assumptions ⊆ acc'.1.2 ∧
  (∀ k, is_Some (acc'.1.1 !! k) → starts_with k "profile-" = false).
Proof.
  intros Hnd. apply (for_each_inv (λ seen acc, covers id seen acc ∧ acc.2 = requirements ∧ assumptions ⊆ acc.1.2 ∧
    (∀ k, is_Some (acc.1.1 !! k) → starts_with k "profile-" = false))).
  - split_and!; [|done|done|].
    + split. by intros ?? ?%not_elem_of_nil.
    + simpl. intros k. rewrite lookup_empty. by intros [].
  - intros seen [i check] [[cs asm] reqs] acc1 Hpre (Hc & Hr & Ha & Hk). cbn [fst snd] in *.
    unfold compile_proposed.
    intros ([] & Hstart%reject_if_Ok & ([d asm'] & (He & Ho & Hsub)%definition_Ok & [= <-])%rbind_Ok)%rbind_Ok.
    split_and!; cbn [fst snd].
    + pose proof (fst_NoDup_ne _ _ _ _ Hnd Hpre) as Hne.
      destruct (covers_mono id seen (cs, asm, reqs) (<[i:=d]> cs, asm', reqs) Hc) as [Hc']; cbn [fst snd].
      { intros k Hin. rewrite list_fmap_id in Hin. rewrite lookup_insert_ne; [done|]. intros ->. done. }
      { done. }
      split. cbn [fst snd] in *. intros k ck [Hin|[= -> ->]%list_elem_of_singleton]%elem_of_app; [by apply Hc'|].
      exists d. unfold id. by rewrite lookup_insert_eq.
    + done.
    + by etrans.
    + intros k. destruct (decide (i = k)) as [->|]; [done|]. rewrite lookup_insert_ne by done. apply Hk.
Qed.

Lemma profile_id_inj i j : profile_id i = profile_id j → i = j.
Proof. unfold profile_id. by intros [= ?]. Qed.

Definition required_by (requirements : list Requirement.t) (id : string) : Prop :=
  ∃ r, r ∈ requirements ∧ Requirement.id r = id ∧ Requirement.checks r = [id] ∧ Requirement.depends_on r = [].

Lemma compile_profile_Ok name digest l acc acc' :
  NoDup l.*1 → (∀ k, is_Some (acc.1.1 !! k) → starts_with k "profile-" = false) →
  for_each (compile_profile name digest) acc l = Ok acc' →
  covers profile_id l acc' ∧
  (∀ k, starts_with k "profile-" = false → acc'.1.1 !! k = acc.1.1 !! k) ∧
  acc.1.2 ⊆ acc'.1.2 ∧
  (∀ k, k ∈ l.*1 → required_by acc'.2 (profile_id k)) ∧
  (∀ r quote, r ∈ acc'.2 → Requirement.origin r = User quote → r ∈ acc.2).
Proof.
  intros Hnd Hk. apply (for_each_inv (λ seen acc', covers profile_id seen acc' ∧
    (∀ k, starts_with k "profile-" = false → acc'.1.1 !! k = acc.1.1 !! k) ∧ acc.1.2 ⊆ acc'.1.2 ∧
    (∀ k, k ∈ seen.*1 → required_by acc'.2 (profile_id k)) ∧
    (∀ r quote, r ∈ acc'.2 → Requirement.origin r = User quote → r ∈ acc.2))).
  - split_and!; [|done|done| |done].
    + split. by intros ?? ?%not_elem_of_nil.
    + by intros ? ?%not_elem_of_nil.
  - intros seen [i check] [[cs asm] reqs] acc1 Hpre (Hc & Hf & Ha & Hq & Hu). cbn [fst snd] in *.
    unfold compile_profile.
    intros ([d asm'] & (He & Ho & Hsub)%definition_Ok & [= <-])%rbind_Ok. cbn [fst snd].
    pose proof (fst_NoDup_ne _ _ _ _ Hnd Hpre) as Hne. split_and!.
    + set (reqs' := reqs ++ _).
      destruct (covers_mono profile_id seen (cs, asm, reqs) (<[profile_id i:=d]> cs, asm', reqs') Hc) as [Hc']; cbn [fst snd].
      { intros k (j & <-%profile_id_inj & Hj)%list_elem_of_fmap. rewrite lookup_insert_ne; [done|].
        intros <-%profile_id_inj. done. }
      { done. }
      split. cbn [fst snd] in *. intros k ck [Hin|[= -> ->]%list_elem_of_singleton]%elem_of_app; [by apply Hc'|].
      exists d. by rewrite lookup_insert_eq.
    + intros k Hs. rewrite lookup_insert_ne; [by apply Hf|]. intros <-.
      unfold profile_id in Hs. by rewrite starts_with_app in Hs.
    + by etrans.
    + intros k. rewrite fmap_app. intros [Hin|[= ->]%list_elem_of_singleton]%elem_of_app.
      * destruct (Hq k Hin) as (r & Hr & ?). exists r. split; [|done]. apply elem_of_app. by left.
      * eexists. split; [apply elem_of_app; right; by left|done].
    + intros r quote [Hin|Hr%list_elem_of_singleton]%elem_of_app; [by apply Hu|by subst r].
Qed.
End admitted.

(** ** The accepted contract of a follow-up *)

Section follow_up.
Lemma merge_requirements_sub (new old new' : list Requirement.t) r :
  merge_requirements new old = Ok new' → r ∈ new' → r ∈ new ∨ r ∈ old.
Proof.
  apply (for_each_inv (λ seen acc, r ∈ acc → r ∈ new ∨ r ∈ seen)); [by left|].
  intros seen q acc acc' _ IH Hstep Hr.
  assert (r ∈ acc ∨ r = q) as [Hin| ->].
  { destruct (List.find _ _); [|simplify_eq; set_solver].
    apply rbind_Ok in Hstep as ([] & _ & [= <-]). by left. }
  - destruct (IH Hin); [by left|right]. set_solver.
  - right. set_solver.
Qed.

Lemma merge_requirements_keep (new old new' : list Requirement.t) : merge_requirements new old = Ok new' → new ⊆ new'.
Proof.
  apply (for_each_inv (λ _ acc, new ⊆ acc)); [done|]. intros seen q acc acc' _ IH Hstep.
  destruct (List.find _ _); [|simplify_eq; set_solver].
  by apply rbind_Ok in Hstep as ([] & _ & [= <-]).
Qed.

Lemma merge_checks_keep (new new' : gmap string CheckDefinition.t) old : merge_checks new old = Ok new' → new ⊆ new'.
Proof.
  apply (for_each_inv (λ _ acc, new ⊆ acc)); [done|]. intros seen [i q] acc acc' _ IH Hstep.
  destruct (acc !! i) eqn:Hi; [by apply rbind_Ok in Hstep as ([] & _ & [= <-])|].
  injection Hstep as <-. etrans; [done|]. by apply insert_subseteq.
Qed.

Lemma push_missing_keep {A} `{EqDecision A} (old new : list A) : new ⊆ push_missing new old.
Proof.
  unfold push_missing. revert new. induction old as [|x old IH]; intros new; cbn [foldl]; [done|].
  case_bool_decide; [apply IH|]. etrans; [|apply IH]. by apply list_subseteq_app_l.
Qed.

(** A merge loses neither the new items nor the accepted ones. *)
Lemma merge_accepted_Ok (old new c : Contract.t) :
  merge_accepted old new = Ok c →
  retains old c ∧ Contract.request c = Contract.request new ∧ Contract.limits c = Contract.limits new ∧
  Contract.delivery c = Contract.delivery new ∧ Contract.requirements new ⊆ Contract.requirements c ∧
  Contract.checks new ⊆ Contract.checks c ∧ Contract.assumptions new ⊆ Contract.assumptions c ∧
  (∀ r, r ∈ Contract.requirements c → r ∈ Contract.requirements new ∨ r ∈ Contract.requirements old).
Proof.
  unfold merge_accepted.
  intros (rs & Hrs & (cs & Hcs & ([] & Hk%preserves_obligations_Ok & [= <-])%rbind_Ok)%rbind_Ok)%rbind_Ok.
  split_and!; try done; cbn.
  - by eapply merge_requirements_keep.
  - by eapply merge_checks_keep.
  - apply push_missing_keep.
  - intros r. by apply merge_requirements_sub.
Qed.
End follow_up.

(** ** The programs in the store *)

Section programs.
Context {SHA : Sha256}.
Implicit Types a : ArtifactStore.t.

(** Some bytes of the digest read back. *)
Definition stored a (d : Digest) : Prop := ∃ bytes, ArtifactStore.read a d = Ok bytes.

Lemma put_stored a bytes a' d :
  ArtifactStore.put a bytes = Ok (a', d) → stored a' (digest_of bytes) ∧ ∀ d', stored a d' → stored a' d'.
Proof.
  intros (-> & Hlen & [[-> Hr]|[Hnone ->]])%put_spec; [done|]. split.
  - exists bytes. apply read_Ok. unfold put. simpl. by rewrite lookup_insert_eq.
  - intros d' [b (Hb & ? & ?)%read_Ok]. exists b. apply read_Ok. unfold put. simpl.
    rewrite lookup_insert_ne; [done|]. intros Heq. congruence.
Qed.

Lemma put_all_stored a l a' :
  put_all a l = Ok a' → (∀ bytes, bytes ∈ l → stored a' (digest_of bytes)) ∧ ∀ d, stored a d → stored a' d.
Proof.
  apply (for_each_inv (λ seen a',
    (∀ bytes, bytes ∈ seen → stored a' (digest_of bytes)) ∧ ∀ d, stored a d → stored a' d)).
  - split; [|done]. by intros ? ?%not_elem_of_nil.
  - intros seen b a1 a2 _ [IH1 IH2] ([a3 d] & Hp%map_err_Ok & [= <-])%rbind_Ok.
    destruct (put_stored _ _ _ _ Hp) as [Hb Hm]. split; [|by eauto].
    intros bytes [Hin| ->%list_elem_of_singleton]%elem_of_app; eauto.
Qed.

Context `{!Serde CheckProgram.t}.

Lemma programs_of_Ok proposal profile l :
  programs_of proposal profile = Ok l → ∀ check d,
  check ∈ btree_values (Proposal.checks proposal) ++ btree_values (RepositoryProfile.checks profile) →
  of_value (ProposedCheck.program check) = Some d → ∃ bytes, bytes ∈ l ∧ d = digest_of bytes.
Proof.
  apply (for_each_inv (λ seen l, ∀ check d, check ∈ seen → of_value (ProposedCheck.program check) = Some d →
    ∃ bytes, bytes ∈ l ∧ d = digest_of bytes)).
  - by intros ? ? ?%not_elem_of_nil.
  - intros seen q l1 l2 _ IH (bytes & Hb%ok_or_Ok & [= <-])%rbind_Ok check d Hin Hd.
    apply elem_of_app in Hin as [Hin|Hq].
    + destruct (IH check d Hin Hd) as (b & ? & ?). exists b. split; [|done]. apply elem_of_app. by left.
    + apply list_elem_of_singleton in Hq as ->. exists bytes. split; [apply elem_of_app; right; by left|].
      unfold of_value in Hd. rewrite Hb in Hd. by injection Hd as <-.
Qed.
End programs.

(** ** The contract *)

Section compiled.
Context {SHA : Sha256} {SER : StoreSerde}.
Context `{!Serde CheckProgram.t, !Serde RepositoryProfile.t, !Serde RequestPolicy.t, !Serde AdmissionReceipt.t}.

(** The check of the contract named [id] enforces the proposed one, its program is in
    the store and an omitted control is disclosed among the assumptions. *)
Definition enforced (a : ArtifactStore.t) (c : Contract.t) (id : string) (check : ProposedCheck.t) : Prop :=
  ∃ d, Contract.checks c !! id = Some d ∧ enforces id check d ∧
    omission_disclosed id check (Contract.assumptions c) ∧ stored a (CheckDefinition.verifier d).

Lemma covers_enforced (f : string → string) m acc (a : ArtifactStore.t) (c : Contract.t) (checks : gmap string CheckDefinition.t)
    (assumptions : list string) (l : list string) :
  covers f (btree_iter m) acc →
  (∀ id, is_Some (m !! id) → checks !! f id = acc.1.1 !! f id) → acc.1.2 ⊆ assumptions →
  checks ⊆ Contract.checks c → assumptions ⊆ Contract.assumptions c →
  (∀ check d, check ∈ btree_values m → of_value (ProposedCheck.program check) = Some d → stored a d) →
  ∀ id check, m !! id = Some check → enforced a c (f id) check.
Proof.
  intros [Hco] Hsame Ha Hc Has Hst id check Hid.
  destruct (Hco id check) as (d & Hd & He & Ho); [by apply elem_of_btree_iter|].
  exists d. split_and!.
  - eapply lookup_weaken; [|exact Hc]. by rewrite Hsame by eauto.
  - done.
  - intros reason Hr. by apply Has, Ha, Ho.
  - eapply Hst; [|apply He]. apply elem_of_btree_values. eauto.
Qed.

Lemma check_origin_User basis baseline r quote :
  check_origin basis baseline r = Ok tt → Requirement.origin r = User quote →
  trim_is_empty quote = false ∧ str_contains basis quote = true.
Proof.
  unfold check_origin. intros H Ho. rewrite Ho, reject_if_Ok, orb_false_iff, negb_false_iff in H. done.
Qed.

(** The contract before the follow-up rules and what they make of it. *)
Lemma merged_Ok (old : option Contract.t) (c0 c : Contract.t) :
  match old with Some old => merge_accepted old c0 | None => Ok c0 end = Ok c →
  Contract.request c = Contract.request c0 ∧ Contract.limits c = Contract.limits c0 ∧
  Contract.delivery c = Contract.delivery c0 ∧ Contract.requirements c0 ⊆ Contract.requirements c ∧
  Contract.checks c0 ⊆ Contract.checks c ∧ Contract.assumptions c0 ⊆ Contract.assumptions c ∧
  (∀ r, r ∈ Contract.requirements c → r ∈ Contract.requirements c0 ∨
     ∃ old', old = Some old' ∧ r ∈ Contract.requirements old') ∧
  (∀ old', old = Some old' → retains old' c).
Proof.
  destruct old as [old|].
  - intros (Hk & ? & ? & ? & ? & ? & ? & Hr)%merge_accepted_Ok. split_and!; try done; [|by intros ? [= ->]].
    intros r [|]%Hr; [by left|right; eauto].
  - intros [= <-]. split_and!; try done. by left.
Qed.

Lemma required_by_mono (rs rs' : list Requirement.t) id : rs ⊆ rs' → required_by rs id → required_by rs' id.
Proof. intros Hs (r & Hr & ?). exists r. split; [by apply Hs|done]. Qed.

(** C24: a compiled contract is well formed and keeps its host's terms. Its limits are
    those the task was created with and its delivery is the one of the stored policy;
    every check of the repository profile is in it under its reserved name, with a
    requirement of its own, and every proposed check under its own name, each running
    the proposed program in full (its bytes are in the store) and disclosing an omitted
    control; every requirement that claims the user's authority quotes the user's
    words; and of a follow-up every obligation of the accepted contract is kept. The receipt stored with it names the
    policy, the proposal and the baseline it was compiled from. *)
Theorem compiled_contract_sound (task : TaskState.t) (proposal : Proposal.t) (baseline : Snapshot.t)
    (a a' : ArtifactStore.t) (c : Contract.t) (receipt : Digest) :
  compile task proposal baseline a = Ok (a', c, receipt) →
  contract_wf c ∧ Contract.request c = TaskState.request task ∧ Contract.limits c = TaskState.initial_limits task ∧
  (∃ intake bytes policy, TaskState.intake task = Some intake ∧ ArtifactStore.read a intake = Ok bytes ∧
     from_slice bytes = Some policy ∧ Contract.delivery c = RequestPolicy.delivery policy ∧
     (∀ id check, RepositoryProfile.checks (RequestPolicy.profile policy) !! id = Some check →
       enforced a' c (profile_id id) check ∧ required_by (Contract.requirements c) (profile_id id)) ∧
     ∃ bd, of_value baseline = Some bd ∧ stored a' receipt ∧
       of_value (AdmissionReceipt.mk (TaskState.request task) (TaskState.initial_limits task)
         (RequestPolicy.delivery policy) (RequestPolicy.profile policy) proposal bd) = Some receipt) ∧
  (∀ id check, Proposal.checks proposal !! id = Some check → enforced a' c id check) ∧
  (∃ id check, Proposal.checks proposal !! id = Some check ∧ behavioral check = true) ∧
  (∀ r quote, r ∈ Contract.requirements c → Requirement.origin r = User quote →
     (∃ old, TaskState.contract task = Some old ∧ r ∈ Contract.requirements old) ∨
     (∃ basis, user_basis task a = Ok basis ∧ trim_is_empty quote = false ∧ str_contains basis quote = true)) ∧
  (∀ old, TaskState.contract task = Some old → TaskState.amendment_pending task = true ∧ retains old c).
Proof.
  unfold compile.
  intros (intake & Hi%ok_or_Ok & (bytes & Hb%map_err_Ok & (policy & Hp%ok_or_Ok & ([] & _ & H)%rbind_Ok)%rbind_Ok)%rbind_Ok)%rbind_Ok.
  cbn zeta in H. apply rbind_Ok in H as ([] & Ham%reject_if_Ok & ([] & _ & ([] & _ & H)%rbind_Ok)%rbind_Ok).
  apply rbind_Ok in H as (basis & Hbasis & ([] & _ & ([] & Horigin%for_each_unit_Ok & H)%rbind_Ok)%rbind_Ok).
  apply rbind_Ok in H as ([] & Hbeh%reject_if_Ok & (bd & Hbd%ok_or_Ok & (rb & Hrb%ok_or_Ok & H)%rbind_Ok)%rbind_Ok).
  apply rbind_Ok in H as (programs & Hprogs & (acc & Hacc & (pd & _ & ([[cs asm] reqs] & Hprof & H)%rbind_Ok)%rbind_Ok)%rbind_Ok).
  apply rbind_Ok in H as (c0 & (Hreq & Hlim & Hdel & Hrs & Hcs & Has & Hback & Hkeep)%merged_Ok & H).
  apply rbind_Ok in H as ([] & Hv%map_err_Ok & (a1 & Hput & ([a2 d2] & Hrec%map_err_Ok & H)%rbind_Ok)%rbind_Ok).
  injection H as -> -> ->. cbn [Contract.request Contract.limits Contract.delivery Contract.requirements
    Contract.checks Contract.assumptions] in *.
  destruct (put_all_stored _ _ _ Hput) as [Hstored _]. destruct (put_stored _ _ _ _ Hrec) as [Hr2 Hmono].
  apply compile_proposed_Ok in Hacc as (Hco & Hreqs & _ & Hfree); [|apply NoDup_btree_keys].
  pose proof Hprof as (Hcp & Hsame & Hasm & Hqs & Huser)%compile_profile_Ok; [|apply NoDup_btree_keys|done].
  cbn [fst snd] in *.
  assert (Hst : ∀ check d, check ∈ btree_values (Proposal.checks proposal) ∨
      check ∈ btree_values (RepositoryProfile.checks (RequestPolicy.profile policy)) →
    of_value (ProposedCheck.program check) = Some d → stored a' d).
  { intros check d Hin Hd. destruct (programs_of_Ok _ _ _ Hprogs check d) as (b & Hb' & ->);
      [by apply elem_of_app|done|]. by apply Hmono, Hstored. }
  pose proof (proj1 (put_spec _ _ _ _ Hrec)) as ->.
  split_and!; [by apply validate_wf|done|done| | | | |].
  - exists intake, bytes, policy. split_and!; try done; [intros id check Hid; split|].
    + eapply (covers_enforced profile_id _ _ a' c cs asm); eauto.
    + eapply required_by_mono; [exact Hrs|]. apply Hqs, elem_of_btree_keys. eauto.
    + exists bd. unfold of_value at 2. by rewrite Hrb.
  - eapply (covers_enforced (λ id, id) _ _ a' c cs asm); eauto. intros id [check Hid].
    apply Hsame, Hfree. destruct Hco as [Hco].
    destruct (Hco id check) as (d & Hd & _); [by apply elem_of_btree_iter|by exists d].
  - apply negb_false_iff, existsb_exists in Hbeh as (check & Hin%list_elem_of_In & Hb').
    apply elem_of_btree_values in Hin as [id Hid]. eauto.
  - intros r quote [Hr|(old & Hold & Hr)]%Hback Hq; [right|by left; eauto].
    exists basis. split; [done|]. eapply check_origin_User; [|done].
    rewrite Forall_forall in Horigin. apply Horigin. rewrite <-Hreqs. by eapply Huser.
  - intros old Hold. split; [|by apply Hkeep]. rewrite Hold, bool_decide_true in Ham by done.
    by apply negb_false_iff in Ham.
Qed.
End compiled.

(** ** A compilation *)

Section compiled_example.
#[local] Instance demo_sha : Sha256 := checksum_sha256.

Definition demo_program : CheckProgram.t :=
  CheckProgram.mk 1 [Probe.Command "runs" "cargo test" 0 (Some (Expectation.Contains "ok")) None] None.
Definition demo_proposed (kind : CheckKind) : ProposedCheck.t :=
  ProposedCheck.mk "tests pass" kind demo_program false (Some "no stable failure").
Definition demo_policy : RequestPolicy.t :=
  RequestPolicy.mk 1 (RepositoryProfile.mk 1 "rust" {["lint" := demo_proposed Static]}) DeliveryKind.Source.
Definition demo_proposal : Proposal.t :=
  Proposal.mk "flag" "src" [Requirement.mk "flag" "parses" (User "asked") ["unit"] []] {["unit" := demo_proposed Behavior]}
    [] [] [].
Definition demo_baseline : Snapshot.t := Snapshot.mk 1 (SnapshotPolicy.mk [] 1 1) ∅.

#[local] Instance demo_serde_program : Serde CheckProgram.t :=
  {| to_vec _ := Some "program"; from_slice _ := Some demo_program |}.
#[local] Instance demo_serde_profile : Serde RepositoryProfile.t :=
  {| to_vec _ := Some "profile"; from_slice _ := Some (RequestPolicy.profile demo_policy) |}.
#[local] Instance demo_serde_policy : Serde RequestPolicy.t :=
  {| to_vec _ := Some "policy"; from_slice _ := Some demo_policy |}.
#[local] Instance demo_serde_admission : Serde AdmissionReceipt.t :=
  {| to_vec _ := Some "receipt"; from_slice _ := None |}.

Definition demo_artifacts : ArtifactStore.t :=
  ArtifactStore.mk {[ArtifactStore.path (checksum "policy") := RegularFile "policy"]} 1000.
Definition demo_request : TaskState.t :=
  (TaskState.created 7 (demo_contract false) 5)
    <| TaskState.request := "as asked" |> <| TaskState.contract := None |>
    <| TaskState.intake := Some (checksum "policy") |>.

Definition demo_compiled : result (ArtifactStore.t * Contract.t * Digest) StoreError.t :=
  compile demo_request demo_proposal demo_baseline demo_artifacts.

Lemma compiled_contract_sound_witness :
  ∃ a' c receipt, demo_compiled = Ok (a', c, receipt) ∧ contract_wf c ∧
    enforced a' c "profile-lint" (demo_proposed Static) ∧ enforced a' c "unit" (demo_proposed Behavior).
Proof.
  destruct demo_compiled as [[[a' c] receipt]|err] eqn:H; [|vm_compute in H; discriminate H].
  exists a', c, receipt. split; [reflexivity|].
  destruct (compiled_contract_sound demo_request demo_proposal demo_baseline demo_artifacts a' c receipt H)
    as (Hwf & _ & _ & (intake & bytes & policy & _ & _ & [= <-] & _ & Hp & _) & Hc & _).
  split; [exact Hwf|]. split.
  - apply (Hp "lint"). reflexivity.
  - apply (Hc "unit"). reflexivity.
Defined.
End compiled_example.
