(* ===== verification/Queue.v ===== *)
(** * The queue of a session (crates/harness/src/session.rs, submission.rs)

    A session keeps the submissions it accepted and the order of those that still wait
    or run. This file states what the queue promises, independently of the store: which
    submissions it lists, how the status of one may change, and what of one never
    changes; and it proves that the fold of the session keeps the promises for every
    command whose guard held. *)

From S2P Require Import Prelude Digest Contract State Artifacts Workspace Input ArtifactGraph Journal.
From S2P Require Import Cost Conversation Admission Session.

(** ** The status of a submission *)

Definition settled (b : Submission.t) : Prop := SubmissionStatus.pending (Submission.status b) = false.

(** The changes of status; [started] says whether the request has an operation of its
    own, i.e. whether its execution began. *)
Definition status_allowed (started : bool) (previous status : SubmissionStatus.t) : bool :=
  match previous, status with
  | SubmissionStatus.Queued, (SubmissionStatus.Running | SubmissionStatus.Cancelled)
  | SubmissionStatus.Running,
      (SubmissionStatus.Queued | SubmissionStatus.Finished _ _ _ | SubmissionStatus.Interrupted) => true
  | SubmissionStatus.Running, SubmissionStatus.Cancelled => negb started
  | _, _ => false
  end.

Definition status_step (p q : SubmissionStatus.t) : Prop := ∃ started, status_allowed started p q = true.

Lemma settled_no_step p q : SubmissionStatus.pending p = false → ¬ status_step p q.
Proof. intros Hp [started Ha]. by destruct p. Qed.

Lemma settled_steps p q : SubmissionStatus.pending p = false → rtc status_step p q → q = p.
Proof. intros Hp Hs. inversion Hs as [|? y ? Hstep]; subst; [done|]. by apply settled_no_step in Hstep. Qed.

(** ** What of a submission is kept *)

Record kept (b b' : Submission.t) : Prop := {
  kp_id : Submission.id b' = Submission.id b;
  kp_intent : Submission.intent b' = Submission.intent b;
  kp_initial : Submission.initial_input b' = Submission.initial_input b;
  kp_revision : Submission.submitted_revision b' = Submission.submitted_revision b;
  kp_status : rtc status_step (Submission.status b) (Submission.status b');
  kp_settled : settled b → Submission.status b' = Submission.status b ∧ Submission.input b' = Submission.input b;
  kp_records : Submission.records b `prefix_of` Submission.records b';
}.

Lemma kept_refl b : kept b b.
Proof. by split. Qed.

Lemma kept_trans b1 b2 b3 : kept b1 b2 → kept b2 b3 → kept b1 b3.
Proof.
  intros [] []. split; try congruence; [by etransitivity| |by etransitivity].
  intros Hs. destruct (kp_settled0 Hs) as [E1 E2]. unfold settled in *.
  destruct (kp_settled1 ltac:(congruence)). split; congruence.
Qed.

(** Every submission is kept. *)
Definition all_kept (m m' : gmap Uuid Submission.t) : Prop :=
  ∀ id b, m !! id = Some b → ∃ b', m' !! id = Some b' ∧ kept b b'.

#[global] Instance all_kept_preorder : PreOrder all_kept.
Proof.
  split; [intros m id b Hb; exists b; by split; [|apply kept_refl]|].
  intros m1 m2 m3 H12 H23 id b Hb. destruct (H12 _ _ Hb) as (b2 & Hb2 & Hk).
  destruct (H23 _ _ Hb2) as (b3 & Hb3 & Hk3). exists b3. split; [done|by eapply kept_trans].
Qed.

Lemma all_kept_alter m request (f : Submission.t → Submission.t) :
  (∀ b, m !! request = Some b → kept b (f b)) → all_kept m (alter f request m).
Proof.
  intros Hf id b Hb. destruct (decide (id = request)) as [->|Hne].
  - exists (f b). split; [|by apply Hf]. by rewrite lookup_alter_eq, Hb.
  - exists b. by rewrite lookup_alter_ne by done.
Qed.

Lemma all_kept_insert m (b : Submission.t) : m !! Submission.id b = None → all_kept m (<[Submission.id b := b]> m).
Proof.
  intros Hn id b' Hb. exists b'. split; [|apply kept_refl]. rewrite lookup_insert_ne; [done|]. congruence.
Qed.

(** ** The queue *)

Definition QUEUE_LIMIT : nat := 16.

Definition pending_in (m : gmap Uuid Submission.t) (id : Uuid) : bool :=
  match m !! id with Some b => SubmissionStatus.pending (Submission.status b) | None => false end.

(** The queue lists exactly the pending submissions, each once, and is bounded; a
    submission is filed under its identifier. *)
Record queue_wf (m : gmap Uuid Submission.t) (q : list Uuid) : Prop := {
  qw_once : NoDup q;
  qw_exact id : id ∈ q ↔ pending_in m id = true;
  qw_filed id b : m !! id = Some b → Submission.id b = id;
  qw_bounded : length q ≤ QUEUE_LIMIT;
}.

Definition queue_ok (s : SessionState.t) : Prop :=
  queue_wf (SessionState.submissions s) (SessionState.queue_order s).

Lemma queue_wf_empty : queue_wf ∅ [].
Proof. split; [apply NoDup_nil_2|intros id; split; [by intros ?%not_elem_of_nil|done]|done|unfold QUEUE_LIMIT; cbn; lia]. Qed.

(** [.values().filter(|s| s.status.pending())] *)
Definition pending_values (m : gmap Uuid Submission.t) : list Submission.t :=
  base.filter (λ b, SubmissionStatus.pending (Submission.status b) = true) (btree_values m).

Lemma pending_values_length m q : queue_wf m q → length (pending_values m) = length q.
Proof.
  intros [Hd He _ _]. set (P := λ e : Uuid * Submission.t, SubmissionStatus.pending (Submission.status e.2) = true).
  assert (length (pending_values m) = length (base.filter P (btree_iter m)).*1) as ->.
  { unfold pending_values, btree_values. generalize (btree_iter m) as l. induction l as [|e l IH]; [done|].
    rewrite fmap_cons. destruct (decide (P e)) as [Hp|Hp].
    - rewrite !filter_cons_True by done. cbn. by rewrite IH.
    - by rewrite !filter_cons_False by done. }
  apply Permutation_length, NoDup_Permutation; [| done|].
  - eapply sublist_NoDup; [apply (NoDup_btree_keys m)|]. apply fmap_sublist, sublist_filter.
  - intros id. rewrite He, list_elem_of_fmap. unfold pending_in. split.
    + intros ([k b] & -> & [Hp Hin%elem_of_btree_iter]%list_elem_of_filter). cbn. by rewrite Hin.
    + destruct (m !! id) as [b|] eqn:Hb; [|done]. intros Hp. exists (id, b). split; [done|].
      apply list_elem_of_filter. by rewrite elem_of_btree_iter.
Qed.

Lemma pending_in_alter m request f id :
  pending_in (alter f request m) id =
    if bool_decide (id = request)
    then match m !! id with Some b => SubmissionStatus.pending (Submission.status (f b)) | None => false end
    else pending_in m id.
Proof.
  unfold pending_in. case_bool_decide as Hid; [subst; rewrite lookup_alter_eq; by destruct (m !! request)|].
  by rewrite lookup_alter_ne by congruence.
Qed.

Lemma filed_alter (m : gmap Uuid Submission.t) request f :
  (∀ b, Submission.id (f b) = Submission.id b) → (∀ id b, m !! id = Some b → Submission.id b = id) →
  ∀ id b, alter f request m !! id = Some b → Submission.id b = id.
Proof.
  intros Hf Hm id b. rewrite lookup_alter_Some. intros [(-> & b' & Hb & ->)|[_ Hb]]; [|by apply Hm].
  rewrite Hf. by apply Hm.
Qed.

(** A change that leaves the submission pending, or settled. *)
Lemma queue_wf_alter m q request f :
  (∀ b, Submission.id (f b) = Submission.id b) →
  (∀ b, m !! request = Some b →
     SubmissionStatus.pending (Submission.status (f b)) = SubmissionStatus.pending (Submission.status b)) →
  queue_wf m q → queue_wf (alter f request m) q.
Proof.
  intros Hid Hp [Hd He Hf Hb]. split; [done| |by apply filed_alter|done]. intros id.
  rewrite He, pending_in_alter. case_bool_decide as E; [subst id|done]. unfold pending_in.
  destruct (m !! request) as [b|] eqn:Hm; [|done]. by rewrite (Hp b eq_refl).
Qed.

Lemma elem_of_unqueue request q id : id ∈ Apply.unqueue request q ↔ id ≠ request ∧ id ∈ q.
Proof. unfold Apply.unqueue. by rewrite list_elem_of_filter. Qed.

Lemma queue_wf_settle m q request f :
  (∀ b, Submission.id (f b) = Submission.id b) →
  (∀ b, SubmissionStatus.pending (Submission.status (f b)) = false) →
  queue_wf m q → queue_wf (alter f request m) (Apply.unqueue request q).
Proof.
  intros Hid Hp [Hd He Hf Hb]. split; [by apply NoDup_filter| |by apply filed_alter|].
  - intros id. rewrite elem_of_unqueue, He, pending_in_alter. case_bool_decide; [subst id|naive_solver].
    destruct (m !! request); [rewrite Hp|]; naive_solver.
  - etransitivity; [|exact Hb]. apply sublist_length, sublist_filter.
Qed.

Lemma queue_wf_submit m q (b : Submission.t) :
  m !! Submission.id b = None → SubmissionStatus.pending (Submission.status b) = true → length q < QUEUE_LIMIT →
  queue_wf m q → queue_wf (<[Submission.id b := b]> m) (q ++ [Submission.id b]).
Proof.
  intros Hn Hp Hl [Hd He Hf Hb]. split.
  - apply NoDup_app. split_and!; [done| |apply NoDup_singleton]. intros id Hin Heq%list_elem_of_singleton.
    subst id. apply He in Hin. unfold pending_in in Hin. by rewrite Hn in Hin.
  - intros id. rewrite elem_of_app, list_elem_of_singleton, He. unfold pending_in.
    destruct (decide (id = Submission.id b)) as [->|Hne]; [rewrite lookup_insert_eq; naive_solver|].
    rewrite lookup_insert_ne by congruence. naive_solver.
  - intros id b' [[<- <-]|[_ Hb']]%lookup_insert_Some; [done|by apply Hf].
  - rewrite length_app. cbn. lia.
Qed.

Lemma queue_wf_perm m q q' : q' ≡ₚ q → queue_wf m q → queue_wf m q'.
Proof. intros Hq [Hd He Hf Hb]. split; [by rewrite Hq|intros id; by rewrite Hq|done|by rewrite Hq]. Qed.

Lemma insert_at_perm n id q : Apply.insert_at n id q ≡ₚ id :: q.
Proof.
  unfold Apply.insert_at. rewrite <-Permutation_middle. by rewrite take_drop.
Qed.

Lemma unqueue_perm request q : NoDup q → request ∈ q → request :: Apply.unqueue request q ≡ₚ q.
Proof.
  intros Hd Hin. apply NoDup_Permutation; [|done|].
  - constructor; [rewrite elem_of_unqueue; naive_solver|by apply NoDup_filter].
  - intros id. rewrite elem_of_cons, elem_of_unqueue. destruct (decide (id = request)); naive_solver.
Qed.

Lemma move_queue_perm q request before :
  NoDup q → request ∈ q → Apply.move_queue q request before ≡ₚ q.
Proof. intros Hd Hin. unfold Apply.move_queue. by rewrite insert_at_perm, unqueue_perm. Qed.

(** Moving puts the submission right before its neighbour, or last, and keeps the order
    of the others. *)
Lemma move_queue_spec q request before :
  let q' := Apply.move_queue q request before in
  Apply.unqueue request q' = Apply.unqueue request q ∧
  (∀ b, before = Some b → b ≠ request → b ∈ q → ∃ l k, q' = l ++ request :: b :: k) ∧
  (before = None → ∃ l, q' = l ++ [request]).
Proof.
  cbn. unfold Apply.move_queue, Apply.insert_at. set (k := Apply.unqueue request q).
  assert (Hk : Apply.unqueue request k = k).
  { unfold k, Apply.unqueue. rewrite list_filter_filter. apply list_filter_iff. naive_solver. }
  assert (Hu : ∀ n, Apply.unqueue request (take n k ++ request :: drop n k) = k).
  { intros n. unfold Apply.unqueue at 1. rewrite filter_app, filter_cons_False by naive_solver.
    rewrite <-filter_app, take_drop. exact Hk. }
  split_and!; [apply Hu| |].
  - intros b -> Hne Hin. cbn [mbind option_bind].
    assert (b ∈ k) as Hb by (by apply elem_of_unqueue).
    destruct (list_find_elem_of (eq b) k b Hb eq_refl) as [[i x] Hf]. rewrite Hf. cbn.
    apply list_find_Some in Hf as (Hi & <- & _). exists (take i k), (drop (S i) k).
    by rewrite (drop_S k b i Hi).
  - intros ->. cbn. exists k. by rewrite take_ge, drop_ge by done.
Qed.

(** ** The commands that touch the queue, and their guards *)

Definition queue_command (command : SessionCommand.t) : bool :=
  match command with
  | SessionCommand.Submitted _ | SessionCommand.QueueMoved _ _ _ | SessionCommand.QueueEdited _ _ _
  | SessionCommand.SubmissionChanged _ _ => true
  | _ => false
  end.

(** The submission waits, under the input the caller saw. *)
Definition waits (s : SessionState.t) (request : Uuid) (input : Digest) : Prop :=
  ∃ b, SessionState.submissions s !! request = Some b ∧
    Submission.status b = SubmissionStatus.Queued ∧ Submission.input b = input.

Definition queue_guard (s : SessionState.t) (command : SessionCommand.t) : Prop :=
  match command with
  | SessionCommand.Submitted b =>
      SessionState.submissions s !! Submission.id b = None ∧ Submission.status b = SubmissionStatus.Queued ∧
      length (pending_values (SessionState.submissions s)) < QUEUE_LIMIT
  | SessionCommand.QueueMoved request input _ | SessionCommand.QueueEdited request input _ => waits s request input
  | SessionCommand.SubmissionChanged request status =>
      ∃ b started, SessionState.submissions s !! request = Some b ∧
        status_allowed started (Submission.status b) status = true
  | _ => True
  end.

Lemma queue_guard_other s command : queue_command command = false → queue_guard s command.
Proof. by destruct command. Qed.

Section fold.
Context `{!Sha256, !Serde (list Value), !Serde SessionCommand.t, !Serde SessionConfig.t,
  !Serde RevisionManifest.t, !Serde Value, !Serde SessionAdmissionRequest.t, !Serde ModelSettings.t}.
Variable hook_id : Uuid → Uuid → Uuid.
Variable uuid_text : Uuid → string.
Implicit Types s : SessionState.t.

(** The other commands leave the queue alone and change at most the results of one
    submission. *)
Lemma effect_queue_other s operation command s' :
  queue_command command = false → Apply.effect hook_id uuid_text s operation command = Ok s' →
  SessionState.queue_order s' = SessionState.queue_order s ∧
  ∃ request f, SessionState.submissions s' = alter f request (SessionState.submissions s) ∧
    ∀ b, kept b (f b) ∧ Submission.status (f b) = Submission.status b.
Proof.
  intros Hc He. destruct command; try discriminate Hc; cbn [Apply.effect] in He;
    repeat match goal with
    | H : rbind _ _ = Ok _ |- _ =>
        let x := fresh "x" in let Hx := fresh "Hx" in apply rbind_Ok in H; destruct H as (x & Hx & H)
    | H : (match ?x with (_, _) => _ end) = Ok _ |- _ => destruct x
    | H : Ok _ = Ok _ |- _ => apply Ok_inj in H; rewrite <-H; clear H
    end;
    repeat match goal with |- context [match ?x with _ => _ end] => destruct x end;
    (split; [reflexivity|]);
    first
      [ exists 0%N, (λ b, b); split; [cbn; symmetry; apply map_eq; intros k;
          destruct (decide (k = 0%N)) as [->|Hk];
            [rewrite lookup_alter_eq; by destruct (_ !! 0%N)|by rewrite lookup_alter_ne by done]
        | intros b; split; [apply kept_refl|done]]
      | do 2 eexists; split; [reflexivity|]; intros b; split; [by (split; try done; by apply prefix_app_r)|done] ].
Qed.

Lemma commit_queue s operation command s' :
  Apply.commit s operation command = Ok s' →
  SessionState.queue_order s' = SessionState.queue_order s ∧
  SessionState.submissions s' = SessionState.submissions s.
Proof.
  unfold Apply.commit. intros (d & _ & Hc%Ok_inj)%rbind_Ok. rewrite <-Hc.
  by match goal with |- context [bool_decide ?P] => destruct (bool_decide P) end.
Qed.

(** One command keeps the queue's promises when its guard held. *)
Lemma effect_queue s operation command s' :
  queue_ok s → queue_guard s command → Apply.effect hook_id uuid_text s operation command = Ok s' →
  queue_ok s' ∧ all_kept (SessionState.submissions s) (SessionState.submissions s').
Proof.
  intros Hok Hg He. destruct (queue_command command) eqn:Hcmd.
  2: { apply effect_queue_other in He as (Hq & request & f & Hm & Hf); [|done]. unfold queue_ok. rewrite Hq, Hm. split.
       - apply queue_wf_alter; [intros b; apply Hf|intros b _; by destruct (Hf b) as [_ ->]|done].
       - apply all_kept_alter. intros b _. apply Hf. }
  destruct command as [| | | | | | | | | | | | |request input before|request input edit|b|request status| | | | | | | | | | | | | |];
    try discriminate Hcmd; cbn [Apply.effect queue_guard] in He, Hg.
  - apply Ok_inj in He as <-. destruct Hg as (b & Hb & Hs & _). split; [|done]. apply (queue_wf_perm _ (SessionState.queue_order s)); [|done].
    apply move_queue_perm; [apply Hok|]. apply Hok. unfold pending_in. by rewrite Hb, Hs.
  - apply Ok_inj in He as <-. destruct Hg as (b & Hb & Hs & _). rewrite Hb. destruct edit as [edit|].
    + split; [by apply queue_wf_alter|]. apply all_kept_alter. intros b' Hb'. split; try done.
      unfold settled. assert (b' = b) as -> by congruence. by rewrite Hs.
    + split; [|done]. apply (queue_wf_perm _ (SessionState.queue_order s)); [|done].
      cbn. rewrite insert_at_perm. apply unqueue_perm; [apply Hok|]. apply Hok. unfold pending_in. by rewrite Hb, Hs.
  - apply Ok_inj in He as <-. destruct Hg as (Hn & Hs & Hl). split; [|by apply all_kept_insert].
    rewrite (pending_values_length _ _ Hok) in Hl. apply queue_wf_submit; [done|by rewrite Hs|done..].
  - apply Ok_inj in He as <-. destruct Hg as (b & started & Hb & Ha). split.
    + destruct (SubmissionStatus.pending status) eqn:Hp; [|by apply queue_wf_settle].
      apply queue_wf_alter; [done| |done]. intros b' Hb'. assert (b' = b) as -> by congruence. cbn. rewrite Hp.
      by destruct (Submission.status b), status.
    + assert (SessionState.submissions (if SubmissionStatus.pending status
        then Apply.update_submission (λ b, b <| Submission.status := status |>) request s
        else Apply.update_submission (λ b, b <| Submission.status := status |>) request s
             <| SessionState.queue_order := Apply.unqueue request
                  (SessionState.queue_order (Apply.update_submission (λ b, b <| Submission.status := status |>) request s)) |>)
        = alter (λ b, b <| Submission.status := status |>) request (SessionState.submissions s)) as ->
        by (by destruct (SubmissionStatus.pending status)).
      apply all_kept_alter. intros b' Hb'. assert (b' = b) as -> by congruence. split; try done.
      * apply rtc_once. by exists started.
      * unfold settled. intros Hp. by destruct (Submission.status b).
Qed.

Lemma apply_queue s operation command s' :
  queue_ok s → queue_guard s command → Apply.apply hook_id uuid_text s operation command = Ok s' →
  queue_ok s' ∧ all_kept (SessionState.submissions s) (SessionState.submissions s').
Proof.
  intros Hok Hg. unfold Apply.apply. intros (s1 & He & Hc)%rbind_Ok.
  apply commit_queue in Hc as [Hq Hm]. unfold queue_ok. rewrite Hq, Hm. by eapply effect_queue.
Qed.

Lemma create_queue id creation : queue_ok (create id creation).
Proof. exact queue_wf_empty. Qed.
End fold.
