(* ===== verification/Submissions.v ===== *)
(** * Submissions (crates/harness/src/store/submissions.rs, store.rs)

    What the operator sends waits in the queue of its session: it is admitted once,
    edited, moved and claimed, and it starts, steers or continues a task. The guards on
    the session are here; what the operations write of a task is in StoreTasks. *)

From S2P Require Import Prelude Digest Contract State Artifacts Workspace Input ArtifactGraph Journal Store StoreTasks.
From S2P Require Import Cost Conversation Admission Session Context SessionStore SessionCommands Queue.
From S2P Require Import ContractAdmission.

Module SubmissionPage.
Record t : Type := mk {
  submissions : list Submission.t;
  total : nat;
  next : option nat;
  journal_sequence : N;
}.
End SubmissionPage.

(** [str::strip_prefix] *)
Definition strip_prefix (prefix s : string) : option string :=
  if starts_with s prefix
  then Some (String.substring (String.length prefix) (String.length s - String.length prefix) s) else None.

(** [format!("! {}", spec.command)] *)
Definition shell_text (spec : ShellSpec.t) : string := "! " +:+ ShellSpec.command spec.

Definition with_command (spec : ShellSpec.t) (command : string) : ShellSpec.t :=
  ShellSpec.mk command (ShellSpec.expected_task spec) (ShellSpec.scope_revision spec)
    (ShellSpec.timeout_ms spec) (ShellSpec.output_bytes spec).

Section submissions.
Context {SHA : Sha256} {SER : StoreSerde} {SES : SessionSerde} {HOST : Host}.
Context `{!Serde RequestPolicy.t}.
Implicit Types (db : SessionDb) (s : SessionState.t) (a : ArtifactStore.t).
Variable now_ms : N → N.

#[local] Notation invalid reason := (StoreError.Invalid reason).

(** [SELECT COALESCE(MAX(sequence),0) FROM events]: events are never deleted. *)
Definition journal_head db : N := (next_sequence (tables db) - 1)%N.

(** [SELECT id FROM sessions ORDER BY rowid DESC LIMIT ?1 OFFSET ?2], each loaded. *)
Definition sessions_page db (offset limit : nat) : result (list SessionState.t) StoreError.t :=
  let? _ := reject_if (bool_decide (limit = 0) || bool_decide (64 < limit))
              (invalid "session page limit must be 1..64") in
  let? _ := ok_or (i64_try_from (N.of_nat offset)) (invalid "session offset exceeds its bound") in
  for_each (λ page id, let? s := load_session db id in Ok (page ++ [s])) []
    (take limit (drop offset (reverse (session_order db)))).

(** ** Reading *)

Definition submission db (session request : Uuid) : result Submission.t StoreError.t :=
  let? s := load_session db session in
  ok_or (SessionState.submissions s !! request) (invalid "submission has not been accepted").

(** The queue's submissions that [p] keeps, in its order. *)
Definition queued (p : Submission.t → bool) s : list Submission.t :=
  base.filter (λ b, p b = true) (omap (λ id, SessionState.submissions s !! id) (SessionState.queue_order s)).
Definition is_queued (b : Submission.t) : bool :=
  bool_decide (Submission.status b = SubmissionStatus.Queued).
Definition is_pending (b : Submission.t) : bool := SubmissionStatus.pending (Submission.status b).

Definition submissions_page db (session : Uuid) (offset limit : nat) : result SubmissionPage.t StoreError.t :=
  let? _ := reject_if (bool_decide (limit = 0) || bool_decide (64 < limit))
              (invalid "submission pages must contain 1..64 records") in
  let? s := load_session db session in
  let submissions := queued is_pending s in
  let total := length submissions in
  let? _ := reject_if (bool_decide (total < offset)) (invalid "submission offset exceeds pending count") in
  let submissions := take limit (drop offset submissions) in
  let end_ := offset + length submissions in
  Ok (SubmissionPage.mk submissions total (if bool_decide (end_ < total) then Some end_ else None) (journal_head db)).

Definition next_submission db (session : Uuid) : result (option Submission.t) StoreError.t :=
  let? s := load_session db session in Ok (head (queued is_queued s)).

(** The loop over pages of 64. [None] would be a loop that does not end. *)
Fixpoint pending_loop (fuel : nat) db (offset count : nat) : option (result nat StoreError.t) :=
  match sessions_page db offset 64 with
  | Err e => Some (Err e)
  | Ok page =>
      let count := count + sum_list ((λ s, length (pending_values (SessionState.submissions s))) <$> page) in
      if bool_decide (length page < 64) then Some (Ok count) else
      match fuel with
      | O => None
      | S fuel => pending_loop fuel db (offset + length page) count
      end
  end.
Definition pending_submissions db : result nat StoreError.t :=
  default (Err StoreError.Json) (pending_loop (length (session_order db)) db 0 0).

(** ** Editing, moving *)

(** What an edit writes of the task its submission continues. *)
Definition edit_continuation db s a (request : Uuid) (edit : option Digest) (replacement : Digest) (id : Uuid) :
    result Db StoreError.t :=
  let? _ := reject_if (bool_decide (SessionState.current_task s ≠ Some id))
              (invalid "continuation no longer targets the current task") in
  let? '(task, head) := load_state (tables db) id in
  let registered := TaskState.directive_scopes task !! request in
  let? _ := reject_if match registered with
                      | Some scope => (scope <=? TaskState.admitted_scope_revision task)%N
                      | None => false
                      end
              (invalid "this input has already entered the accepted contract; send a new follow-up") in
  if bool_decide (is_Some registered) || bool_decide (edit = None) then
    let? '(t, _) := direct_task (tables db) a task head
      (if bool_decide (is_Some registered) then TaskEvent.DirectiveReplaced request replacement
       else TaskEvent.DirectiveReceived request replacement) in
    Ok t
  else Ok (tables db).

Definition edit_submission db a (session operation request : Uuid) (expected_input : Digest)
    (input : option Digest) : result (SessionDb * Submission.t) StoreError.t :=
  let command := SessionCommand.QueueEdited request expected_input input in
  let? fingerprint := ok_or (of_value command) StoreError.Json in
  let? '(s, head) := load_session_state db session None in
  match SessionState.operations s !! operation with
  | Some previous =>
      let? _ := reject_if (bool_decide (previous ≠ fingerprint))
                  (invalid "queue edit operation ID reused with different input") in
      let? b := ok_or (SessionState.submissions s !! request) (invalid "unknown submission") in
      Ok (db, b)
  | None =>
      let? b := ok_or (SessionState.submissions s !! request) (invalid "unknown submission") in
      let? _ := reject_if (bool_decide (Submission.status b ≠ SubmissionStatus.Queued)
                           || bool_decide (Submission.input b ≠ expected_input))
                  (invalid "queued input was changed or claimed before the edit") in
      let replacement := default expected_input input in
      let? prepared := load_input replacement a in
      let? t :=
        match Submission.intent b with
        | WorkIntent.Shell spec =>
            let? command := ok_or (strip_prefix "! " (PreparedInput.text prepared))
                              (invalid "shell edit must keep its command prefix") in
            let? _ := ShellSpec.validate (with_command spec command) in
            Ok (tables db)
        | WorkIntent.NewTask _ _ =>
            let? _ := reject_if (trim_is_empty (PreparedInput.text prepared))
                        (invalid "new coding tasks require a textual objective") in
            Ok (tables db)
        | WorkIntent.Continue id _ _ => edit_continuation db s a request input replacement id
        | _ => Ok (tables db)
        end in
      let? '(db, s, _) := append_session now_ms (db <| tables := t |>) s head operation command in
      Ok (db, default b (SessionState.submissions s !! request))
  end.

Definition move_submission db a (session operation request : Uuid) (expected_input : Digest)
    (before : option Uuid) : result (SessionDb * Submission.t) StoreError.t :=
  let command := SessionCommand.QueueMoved request expected_input before in
  let? s := load_session db session in
  let? current := ok_or (SessionState.submissions s !! request) (invalid "unknown submission") in
  match SessionState.operations s !! operation with
  | Some previous =>
      let? fingerprint := ok_or (of_value command) StoreError.Json in
      if bool_decide (previous = fingerprint) then Ok (db, current)
      else Err (invalid "queue move operation ID reused")
  | None =>
      let? _ := reject_if (bool_decide (Submission.status current ≠ SubmissionStatus.Queued)
                           || bool_decide (Submission.input current ≠ expected_input))
                  (invalid "queued input was changed or claimed before the move") in
      let? _ := reject_if match before with
                          | Some id => (id =? request)%N
                                       || negb match SessionState.submissions s !! id with
                                               | Some b => is_queued b
                                               | None => false
                                               end
                          | None => false
                          end (invalid "queue neighbor is no longer pending") in
      let? '(db, _) := session_command now_ms db a session (SessionState.revision s) operation command in
      let? b := submission db session request in
      Ok (db, b)
  end.

(** ** Submitting *)

(** [serde_json::from_slice(&artifacts.read(policy)?)?] and its validation *)
Definition read_policy a (policy : Digest) : result unit StoreError.t :=
  let? bytes := read a policy in
  let? policy := ok_or (from_slice (A := RequestPolicy.t) bytes) StoreError.Json in
  validate_policy policy.

Definition validate_intent a (prepared : PreparedInput.t) (intent : WorkIntent.t) : result unit StoreError.t :=
  let text := PreparedInput.text prepared in
  match intent with
  | WorkIntent.Shell spec =>
      let? _ := ShellSpec.validate spec in
      reject_if (negb (str_eqb text (shell_text spec))) (invalid "shell input differs from its command")
  | WorkIntent.Auxiliary spec => AuxiliarySpec.validate spec
  | WorkIntent.NewTask limits policy =>
      let? _ := map_err StoreError.Contract (Limits.validate limits) in
      let? _ := read_policy a policy in
      reject_if (trim_is_empty text) (invalid "new coding tasks require a textual objective")
  | WorkIntent.Ordinary limits policy _ =>
      let? _ := map_err StoreError.Contract (Limits.validate limits) in
      let? _ := read_policy a policy in
      reject_if (trim_is_empty text) (invalid "ordinary input requires text")
  | WorkIntent.Continue _ _ _ => Ok tt
  end.

(** A continuation names the session's task in its present scope; one that steers
    directs the task at once. *)
Definition submit_continuation db s a (id : Uuid) (input : Digest) (task_id : Uuid) (scope_revision : N)
    (schedule : Schedule.t) : result Db StoreError.t :=
  let? _ := reject_if (bool_decide (SessionState.current_task s ≠ Some task_id))
              (invalid "continuation must name the session's current task") in
  let? '(task, head) := load_state (tables db) task_id in
  let? _ := reject_if (negb (TaskState.scope_revision task =? scope_revision)%N)
              (StoreError.Revision scope_revision (TaskState.scope_revision task)) in
  let? _ := reject_if (bool_decide (128 ≤ length (TaskState.directives task)))
              (invalid "task follow-up limit reached") in
  match schedule with
  | Schedule.Steer =>
      let? '(t, _) := direct_task (tables db) a task head (TaskEvent.DirectiveReceived id input) in
      Ok t
  | Schedule.Queue => Ok (tables db)
  end.

(** The host's capacity, asked of a submission the session does not have. *)
Definition admit_host db s (id : Uuid) : result unit StoreError.t :=
  match SessionState.submissions s !! id with
  | Some _ => Ok tt
  | None =>
      let? pending := pending_submissions db in
      reject_if (bool_decide (128 ≤ pending)) (invalid "host queue capacity reached")
  end.

Definition submit db a (now : N) (session id : Uuid) (input : Digest) (intent : WorkIntent.t) :
    result (SessionDb * Submission.t) StoreError.t :=
  let? s := load_session db session in
  let? _ := admit_host db s id in
  let? prepared := load_input input a in
  let? _ := validate_intent a prepared intent in
  let? '(s, head) := load_session_state db session None in
  match SessionState.submissions s !! id with
  | Some previous =>
      if bool_decide (Submission.initial_input previous = input) && bool_decide (Submission.intent previous = intent)
      then Ok (db, previous)
      else Err (invalid "submission ID reused with different input or intent")
  | None =>
      let? _ := reject_if (bool_decide (is_Some (SessionState.operations s !! id)))
                  (invalid "submission ID already belongs to another operation") in
      let? _ := reject_if (bool_decide (16 ≤ length (pending_values (SessionState.submissions s))))
                  (invalid "session queue capacity reached") in
      let? t := match intent with
                | WorkIntent.Continue task scope schedule => submit_continuation db s a id input task scope schedule
                | _ => Ok (tables db)
                end in
      let b := Submission.mk None id input input [] None intent SubmissionStatus.Queued
                 (u64_succ (SessionState.revision s)) now in
      let? '(db, _, _) := append_session now_ms (db <| tables := t |>) s head (new_v5 id "submitted")
                            (SessionCommand.Submitted b) in
      Ok (db, b)
  end.

(** ** Status and recovery *)

(** [operation] is [Uuid::new_v4()]. *)
Definition set_submission_status db a (operation session request : Uuid) (status : SubmissionStatus.t) :
    result (SessionDb * Submission.t) StoreError.t :=
  let? current := load_session db session in
  let? previous := ok_or (SessionState.submissions current !! request) (invalid "unknown submission") in
  if bool_decide (Submission.status previous = status) then Ok (db, previous) else
  let started := bool_decide (is_Some (SessionState.operations current !! request)) in
  let? _ := reject_if (negb (status_allowed started (Submission.status previous) status))
              (invalid "invalid submission status transition") in
  let? '(db, _) := session_command now_ms db a session (SessionState.revision current) operation
                     (SessionCommand.SubmissionChanged request status) in
  let? b := submission db session request in
  Ok (db, b).

Definition is_running (b : Submission.t) : bool :=
  bool_decide (Submission.status b = SubmissionStatus.Running).
Definition running_values (m : gmap Uuid Submission.t) : list Submission.t :=
  base.filter (λ b, is_running b = true) (btree_values m).

(** The status a submission found running recovers to: execution that began stays
    uncertain, execution that did not is queued again. *)
Definition recovered s (b : Submission.t) : SubmissionStatus.t :=
  if bool_decide (is_Some (SessionState.operations s !! Submission.id b))
  then SubmissionStatus.Interrupted else SubmissionStatus.Queued.

(** [fresh session request] is the identifier drawn for the change of the submission. *)
Definition recover_session a (fresh : Uuid → Uuid → Uuid) db s : result SessionDb StoreError.t :=
  for_each (λ db b,
    let? '(db, _) := set_submission_status db a (fresh (SessionState.id s) (Submission.id b))
                       (SessionState.id s) (Submission.id b) (recovered s b) in
    Ok db) db (running_values (SessionState.submissions s)).

Fixpoint recover_loop (fuel : nat) a (fresh : Uuid → Uuid → Uuid) db (offset : nat) :
    option (result SessionDb StoreError.t) :=
  match sessions_page db offset 64 with
  | Err e => Some (Err e)
  | Ok page =>
      match for_each (recover_session a fresh) db page with
      | Err e => Some (Err e)
      | Ok db =>
          if bool_decide (length page < 64) then Some (Ok db) else
          match fuel with
          | O => None
          | S fuel => recover_loop fuel a fresh db (offset + length page)
          end
      end
  end.
Definition recover_submissions db a (fresh : Uuid → Uuid → Uuid) : option (result SessionDb StoreError.t) :=
  recover_loop (length (session_order db)) a fresh db 0.

(** ** Continuing *)

Definition continuation_reason (request : Uuid) : string := "user continuation " +:+ uuid_text request.

Definition continue_submission_record db a (now : N) (session request : Uuid) :
    result (SessionDb * SessionState.t * TaskState.t * bool) StoreError.t :=
  let? b := submission db session request in
  let? id :=
    match Submission.intent b with
    | WorkIntent.Continue id _ _ => Ok id
    | WorkIntent.Ordinary _ _ _ =>
        let? s := load_session db session in
        ok_or (SessionState.current_task s) (invalid "ordinary action has no current task to continue")
    | _ => Err (invalid "submission is not a continuation")
    end in
  let? prepared := load_input (Submission.input b) a in
  let? '(s, head) := load_session_state db session None in
  let? _ := reject_if (bool_decide (is_Some (SessionBranch.pending_shell (SessionState.branch s))))
              (invalid "reconcile the pending shell before continuing") in
  let? '(task, task_head) := load_state (tables db) id in
  if bool_decide (SessionState.tasks_by_request s !! request = Some id) then Ok (db, s, task, false) else
  let? _ := reject_if (negb (is_running b)) (invalid "continuation is not claimed for execution") in
  let? _ := reject_if match SessionState.active_request s with
                      | Some active => negb (active =? request)%N
                      | None => false
                      end (invalid "session already has an active request") in
  let? _ := reject_if (bool_decide (SessionState.current_task s ≠ Some id))
              (invalid "queued continuation was superseded by another task") in
  let? '(t, task) := continue_task (tables db) a now task task_head request (Submission.input b)
                       (continuation_reason request) in
  let? '(db, s) := append_started now_ms (db <| tables := t |>) s head request (PreparedInput.messages prepared) id in
  Ok (db, s, task, true).

(** ** Starting a task *)

Definition start_task_request db a (fresh : Uuid) (now : N) (session operation : Uuid) (contract : Contract.t) :=
  let? _ := map_err StoreError.Contract (Contract.validate contract) in
  start_record now_ms db a fresh now session operation (Contract.request contract) (Contract.limits contract)
    (Some contract) None None.

Definition start_request db a (fresh : Uuid) (now : N) (session operation : Uuid) (request : string)
    (limits : Limits.t) (intake : Digest) :=
  let? _ := reject_if (trim_is_empty request) (invalid "empty task request") in
  let? _ := map_err StoreError.Contract (Limits.validate limits) in
  let? _ := read_policy a intake in
  start_record now_ms db a fresh now session operation request limits None (Some intake) None.

Definition start_prepared_request db a (fresh : Uuid) (now : N) (session operation : Uuid)
    (input : PreparedInput.t) (limits : Limits.t) (intake : Digest) :=
  let? _ := reject_if (trim_is_empty (PreparedInput.text input))
              (invalid "a new coding task requires a textual instruction with its images") in
  let? _ := map_err StoreError.Contract (Limits.validate limits) in
  let? _ := read_policy a intake in
  let? encoded := read a (PreparedInput.artifact input) in
  let? messages := ok_or (from_slice (A := list Value) encoded) StoreError.Json in
  let? _ := reject_if (bool_decide (messages ≠ PreparedInput.messages input))
              (StoreError.Integrity "input payload differs from its artifact") in
  start_record now_ms db a fresh now session operation (PreparedInput.text input) limits None (Some intake)
    (Some (PreparedInput.artifact input, PreparedInput.messages input)).
End submissions.

(** ** Pages *)

Section pages.
Context {SHA : Sha256} {SER : StoreSerde} {SES : SessionSerde} {HOST : Host}.
Implicit Types (db : SessionDb) (s : SessionState.t).

Lemma collect_Ok {A B E} (f : A → result B E) (l : list A) : ∀ (acc r : list B),
  for_each (λ acc x, let? y := f x in Ok (acc ++ [y])) acc l = Ok r →
  ∃ k, r = acc ++ k ∧ Forall2 (λ x y, f x = Ok y) l k.
Proof.
  induction l as [|x l IH]; intros acc r; cbn [for_each].
  { intros [= <-]. exists []. by rewrite app_nil_r. }
  intros (acc' & (y & Hy & [= <-])%rbind_Ok & Hr)%rbind_Ok.
  destruct (IH _ _ Hr) as (k & -> & Hk). exists (y :: k). rewrite <-app_assoc. split; [done|by constructor].
Qed.

Lemma sessions_page_Ok db offset limit page :
  sessions_page db offset limit = Ok page →
  Forall2 (λ id s, load_session db id = Ok s) (take limit (drop offset (reverse (session_order db)))) page.
Proof.
  unfold sessions_page. intros ([] & _ & H1)%rbind_Ok. apply rbind_Ok in H1 as (z & _ & H1).
  by apply collect_Ok in H1 as (k & -> & Hk).
Qed.

(** A page that is not full is the last one. *)
Lemma page_length db offset page :
  sessions_page db offset 64 = Ok page → length page = Nat.min 64 (length (session_order db) - offset).
Proof.
  intros Hp%sessions_page_Ok%Forall2_length. rewrite <-Hp, length_take, length_drop, length_reverse. done.
Qed.

(** The pending submissions of all sessions. *)
Definition pending_count db (id : Uuid) : nat :=
  match load_session db id with
  | Ok s => length (pending_values (SessionState.submissions s))
  | Err _ => 0
  end.
Definition total_pending db : nat := sum_list (pending_count db <$> session_order db).

Lemma page_pending db l page :
  Forall2 (λ id s, load_session db id = Ok s) l page →
  sum_list ((λ s, length (pending_values (SessionState.submissions s))) <$> page) = sum_list (pending_count db <$> l).
Proof.
  induction 1 as [|id s l page Hl _ IH]; [done|]. cbn. unfold pending_count at 1. by rewrite Hl, IH.
Qed.

Lemma sum_list_reverse (l : list nat) : sum_list (reverse l) = sum_list l.
Proof. induction l as [|x l IH]; [done|]. rewrite reverse_cons, sum_list_with_app. cbn. unfold sum_list in *. lia. Qed.

Lemma pending_loop_spec fuel db : ∀ offset count,
  length (session_order db) ≤ offset + fuel →
  ∃ r, pending_loop fuel db offset count = Some r ∧
    ∀ n, r = Ok n → n = count + sum_list (pending_count db <$> drop offset (reverse (session_order db))).
Proof.
  induction fuel as [|fuel IH]; intros offset count Hle; cbn [pending_loop];
    (destruct (sessions_page db offset 64) as [page|e] eqn:Hpage; [|by eexists]);
    pose proof (page_length _ _ _ Hpage) as Hlen; pose proof (page_pending _ _ _ (sessions_page_Ok _ _ _ _ Hpage)) as ->;
    case_bool_decide as Hlast.
  1,3: eexists; split; [done|]; intros n [= <-]; by rewrite take_ge by (rewrite length_drop, length_reverse; lia).
  - lia.
  - destruct (IH (offset + length page) (count + sum_list (pending_count db <$> take 64 (drop offset (reverse (session_order db))))))
      as (r & Hr & Hn); [lia|].
    exists r. split; [done|]. intros n Hok. rewrite (Hn n Hok).
    rewrite <-(take_drop 64 (drop offset (reverse (session_order db)))) at 2.
    rewrite fmap_app, sum_list_with_app, drop_drop. replace (length page) with 64 by lia. unfold sum_list. lia.
Qed.

(** The count of the host is exact. *)
Lemma pending_submissions_Ok db n : pending_submissions db = Ok n → n = total_pending db.
Proof.
  unfold pending_submissions. destruct (pending_loop_spec (length (session_order db)) db 0 0) as (r & -> & Hn); [lia|].
  cbn. intros ->. rewrite (Hn n eq_refl). cbn. rewrite drop_0. unfold total_pending.
  by rewrite fmap_reverse, sum_list_reverse.
Qed.
End pages.
