(* ===== verification/Shell.v ===== *)
(** * The operator's shell (crates/harness/src/store/manual.rs, manual.rs)

    A shell submission runs on the workspace of its session: it claims the session, and
    the task the session works on when there is one, and when it settles, its result is
    archived and, unless something came in between, becomes the workspace. What it
    writes of the task is in StoreTasks. *)

From S2P Require Import Prelude Digest Contract State Artifacts Workspace Input ArtifactGraph Journal Store StoreTasks.
From S2P Require Import Cost Conversation Admission Session Context SessionStore SessionCommands Verification.

Module ShellReport.
Record t : Type := mk {
  version : N;
  job : ManualJob.t;
  status : ExecutionStatus.t;
  stdout : Digest;
  stderr : Digest;
  elapsed_ms : N;
  receipt : Digest;
  after : option Digest;
  adopted : bool;
  error : option string;
}.
#[global] Instance eta_t : Eta t := λ r,
  mk (version r) (job r) (status r) (stdout r) (stderr r) (elapsed_ms r) (receipt r) (after r) (adopted r) (error r).
End ShellReport.

Section shell.
Context {SHA : Sha256} {SER : StoreSerde} {SES : SessionSerde} {HOST : Host}.
Context `{!Serde ShellReport.t}.
Implicit Types (db : SessionDb) (s : SessionState.t) (a : ArtifactStore.t).
Variable now_ms : N → N.

#[local] Notation invalid reason := (StoreError.Invalid reason).
#[local] Notation integrity reason := (StoreError.Integrity reason).

(** The session has nothing else under way. *)
Definition shell_busy s (b : Submission.t) (request : Uuid) : bool :=
  bool_decide (Submission.status b ≠ SubmissionStatus.Running)
  || bool_decide (is_Some (SessionState.active_request s))
  || bool_decide (is_Some (SessionState.operations s !! request))
  || bool_decide (is_Some (SessionBranch.pending_task (SessionState.branch s)))
  || bool_decide (is_Some (SessionBranch.pending_shell (SessionState.branch s))).

Definition retargeted s (spec : ShellSpec.t) (job : ManualJob.t) : bool :=
  bool_decide (ManualJob.task job ≠ SessionState.current_task s)
  || match ShellSpec.expected_task spec with
     | Some id => bool_decide (ManualJob.task job ≠ Some id)
     | None => false
     end.

Definition begin_shell_on (t : Db) a (id session request : Uuid) (b : Submission.t) (spec : ShellSpec.t)
    (job : ManualJob.t) : result Db StoreError.t :=
  let? '(task, head) := load_state t id in
  let? _ := reject_if
    (match ShellSpec.scope_revision spec with
     | Some scope => negb (scope =? TaskState.scope_revision task)%N
     | None => false
     end
     || bool_decide (ManualJob.scope_revision job ≠ Some (u64_succ (TaskState.scope_revision task))))
    (invalid "shell task scope changed") in
  let? '(t, _) := begin_shell_task t a task head (shell_job task session request (Submission.input b) (ManualJob.environment job)
    (ManualJob.job job) (ManualJob.started_ms job) (ShellSpec.timeout_ms spec)) request in
  Ok t.

Definition begin_shell db a (session request : Uuid) (job : ManualJob.t) : result SessionDb StoreError.t :=
  let? '(s, head) := load_session_state db session None in
  let? b := ok_or (SessionState.submissions s !! request) (invalid "unknown shell submission") in
  match Submission.intent b with
  | WorkIntent.Shell spec =>
      let? _ := ShellSpec.validate spec in
      let? _ := reject_if (shell_busy s b request)
                  (invalid "shell source is active, unresolved or already claimed") in
      let? _ := reject_if (retargeted s spec job) (invalid "shell target task changed") in
      let? _ := for_each (λ _ d, map_err (λ _, integrity "shell input snapshot is unavailable") (verify_snapshot a d)) tt
                  [ManualJob.before job; ManualJob.origin job] in
      let? _ := read a (ManualJob.environment job) in
      let? t := match ManualJob.task job with
                | Some id => begin_shell_on (tables db) a id session request b spec job
                | None => Ok (tables db)
                end in
      let? '(db, _, _) := append_session now_ms (db <| tables := t |>) s head request (SessionCommand.ShellStarted job) in
      Ok db
  | _ => Err (invalid "request is not a user shell command")
  end.

(** ** Settling *)

Definition SUPERSEDED : string :=
  "User input superseded source adoption; the command result remains archived".

(** The workspace the result offers: only a known outcome has one. *)
Definition shell_seed a (report : ShellReport.t) (known : bool) : result (option WorkspaceSeed.t) StoreError.t :=
  match ShellReport.after report with
  | Some source =>
      if known then
        let? _ := map_err (λ _, integrity "shell result source is unavailable") (verify_snapshot a source) in
        Ok (Some (WorkspaceSeed.mk (ManualJob.origin (ShellReport.job report)) source
                    (ManualJob.task (ShellReport.job report))))
      else Ok None
  | None => Ok None
  end.

Definition shell_candidate (report : ShellReport.t) (seed : WorkspaceSeed.t) : Candidate.t * Digest :=
  (shell_source (WorkspaceSeed.source seed) (ManualJob.environment (ShellReport.job report)), WorkspaceSeed.origin seed).

(** The task's part, and whether user input superseded the result. *)
Definition finish_shell_on (t : Db) a (request : Uuid) (report : ShellReport.t) (status : JobStatus.t)
    (seed : option WorkspaceSeed.t) : result (Db * bool) StoreError.t :=
  match ManualJob.task (ShellReport.job report) with
  | Some id =>
      let? '(task, head) := load_state t id in
      let? '(t, _, superseded) := finish_shell_task t a task head (ManualJob.job (ShellReport.job report)) request
        status (ShellReport.receipt report) (ManualJob.scope_revision (ShellReport.job report))
        (shell_candidate report <$> seed) in
      Ok (t, superseded)
  | None => Ok (t, false)
  end.

Definition finish_shell db a (session request : Uuid) (report : ShellReport.t) :
    result (SessionDb * ArtifactStore.t * Digest) StoreError.t :=
  let? '(s, head) := load_session_state db session None in
  let? b := ok_or (SessionState.submissions s !! request) (invalid "unknown shell submission") in
  let? _ := reject_if (bool_decide (SessionState.active_request s ≠ Some request)
                       || bool_decide (Submission.manual_job b ≠ Some (ShellReport.job report)))
              (invalid "shell result has no matching active actor") in
  let? _ := read_all a [ShellReport.stdout report; ShellReport.stderr report; ShellReport.receipt report] in
  let status := shell_status (ShellReport.status report) in
  let known := bool_decide (status ≠ JobStatus.Unknown) in
  let? seed := shell_seed a report known in
  let? '(t, superseded) := finish_shell_on (tables db) a request report status seed in
  let seed := if superseded : bool then None else seed in
  let report := if superseded : bool then report <| ShellReport.error := Some SUPERSEDED |> else report in
  let report := report <| ShellReport.adopted := bool_decide (is_Some seed) |> in
  let? bytes := ok_or (to_vec report) StoreError.Json in
  let? '(a, digest) := map_err StoreError.Artifact (ArtifactStore.put a bytes) in
  let? '(db, s, head) := append_session now_ms (db <| tables := t |>) s head (new_v5 request "shell-published")
    (SessionCommand.ShellPublished request digest seed known) in
  let? '(db, _, _) := append_session now_ms db s head (new_v5 request "shell-settled")
    (SessionCommand.TurnSettled request None (ShellReport.error report)) in
  Ok (db, a, digest).
End shell.
