(* ===== verification/Auxiliary.v ===== *)
(** * Auxiliary turns (crates/harness/src/auxiliary.rs, store/auxiliary.rs)

    Read-only assistance and the classification of ordinary requests: a turn claims the
    session, records its provider calls before and after they happen, is bounded by its
    own allowances, and publishes a report. The records are artifacts; what they add up
    to is replayed from them each time. *)

From S2P Require Import Prelude Digest Contract State Artifacts Workspace Input ArtifactGraph Journal Store StoreTasks.
From S2P Require Import Cost Conversation Admission Session Context SessionStore SessionCommands Queue.
From S2P Require Import Verification ContractAdmission Submissions Shell.

(** ** Records and accounting (auxiliary.rs) *)

Module AuxiliaryStatus.
Inductive t : Type := Completed | Failed | Cancelled | BudgetExhausted | UnknownBilling.
#[global] Instance eq_dec : EqDecision t.
Proof. solve_decision. Defined.
End AuxiliaryStatus.

Module AuxiliaryReport.
Record t : Type := mk {
  version : N;
  kind : AuxiliaryKind.t;
  status : AuxiliaryStatus.t;
  text : string;
  model_calls : nat;
  tokens : option N;
  records : list Digest;
  error : option string;
}.
End AuxiliaryReport.

Module AuxiliaryRecord.
Inductive t : Type :=
| ClassificationIntended (at_ms : N) (input : Digest) (call : Uuid)
| ClassificationObserved (call : Uuid) (receipt : ModelCallReceipt.t) (kind : string)
| Started (at_ms : N) (source review : option Digest)
| ModelIntended (call : Uuid) (input : Digest)
| ModelObserved (call : Uuid) (receipt : ModelCallReceipt.t)
| ToolObserved (call_id name : string) (input output : Digest).

(** The call a record announces. *)
Definition intended (r : t) : option Uuid :=
  match r with ModelIntended call _ | ClassificationIntended _ _ call => Some call | _ => None end.
Definition classification (r : t) : bool :=
  match r with ClassificationIntended _ _ _ | ClassificationObserved _ _ _ => true | _ => false end.

(** What a record refers to. *)
Definition artifacts (r : t) : list Digest :=
  match r with
  | ModelIntended _ input | ClassificationIntended _ input _ => [input]
  | ClassificationObserved _ receipt _ | ModelObserved _ receipt => [ModelCallReceipt.report receipt]
  | ToolObserved _ _ input output => [input; output]
  | Started _ source review => option_list source ++ option_list review
  end.
End AuxiliaryRecord.

Module Accounting.
Record t : Type := mk {
  started_ms : option N;
  classified_ms : option N;
  run_started_ms : option N;
  calls : gmap Uuid (option ModelCallReceipt.t);
}.
#[global] Instance eta_t : Eta t := λ a, mk (started_ms a) (classified_ms a) (run_started_ms a) (calls a).
Definition default : t := mk None None None ∅.

Definition earliest (existing : option N) (at_ms : N) : option N :=
  Some (match existing with Some existing => N.min existing at_ms | None => at_ms end).
Definition start_at (a : t) (at_ms : N) : t := a <| started_ms := earliest (started_ms a) at_ms |>.

Definition add_tokens (total : option N) (receipt : option ModelCallReceipt.t) : option N :=
  total ← total; receipt ← receipt; tokens ← ModelCallReceipt.tokens receipt; u64_checked_add total tokens.
(** [tokens] and [known_tokens] *)
Definition tokens (a : t) : option N := foldl add_tokens (Some 0%N) (btree_values (calls a)).

Definition has_pending_receipt (a : t) : bool := existsb (λ r, bool_decide (r = None)) (btree_values (calls a)).

(** The call was announced and has no receipt yet. *)
Definition awaits (a : t) (call : Uuid) : bool := bool_decide (calls a !! call = Some None).

Definition apply (a : t) (record : AuxiliaryRecord.t) : result t StoreError.t :=
  let refused := Err (StoreError.Invalid "invalid auxiliary accounting transition") in
  let settle call receipt :=
    if awaits a call then Ok (a <| calls := <[call := Some receipt]> (calls a) |>) else refused in
  match record with
  | AuxiliaryRecord.ClassificationIntended at_ms _ call =>
      let? _ := reject_if (bool_decide (is_Some (run_started_ms a)))
                  (StoreError.Invalid "classification cannot follow a started auxiliary run") in
      let? _ := reject_if (bool_decide (is_Some (calls a !! call)))
                  (StoreError.Invalid "classification call reused") in
      let a := start_at (a <| classified_ms := earliest (classified_ms a) at_ms |>) at_ms in
      Ok (a <| calls := <[call := None]> (calls a) |>)
  | AuxiliaryRecord.ClassificationObserved call receipt _ => settle call receipt
  | AuxiliaryRecord.Started at_ms _ _ =>
      if bool_decide (run_started_ms a = None)
      then Ok (start_at (a <| run_started_ms := Some at_ms |>) at_ms) else refused
  | AuxiliaryRecord.ModelIntended call _ =>
      if bool_decide (calls a !! call = None) then Ok (a <| calls := <[call := None]> (calls a) |>) else refused
  | AuxiliaryRecord.ModelObserved call receipt => settle call receipt
  | AuxiliaryRecord.ToolObserved _ _ _ _ =>
      if bool_decide (is_Some (run_started_ms a)) then Ok a else refused
  end.
End Accounting.

(** ** Operations (store/auxiliary.rs) *)

Section auxiliary.
Context {SHA : Sha256} {SER : StoreSerde} {SES : SessionSerde} {HOST : Host}.
Context `{!Serde AuxiliaryRecord.t, !Serde AuxiliaryReport.t}.
Implicit Types (db : SessionDb) (s : SessionState.t) (a : ArtifactStore.t).
Variable now_ms : N → N.

#[local] Notation invalid reason := (StoreError.Invalid reason).

Definition read_record a (digest : Digest) : result AuxiliaryRecord.t StoreError.t :=
  let? bytes := read a digest in ok_or (from_slice bytes) StoreError.Json.

Definition accounting_of a (records : list Digest) : result Accounting.t StoreError.t :=
  for_each (λ accounting digest, let? record := read_record a digest in Accounting.apply accounting record)
    Accounting.default records.

Definition auxiliary_accounting db a (session request : Uuid) : result Accounting.t StoreError.t :=
  let? b := submission db session request in accounting_of a (Submission.records b).

Definition classified_kind (kind : string) : option OrdinaryKind.t :=
  if str_eqb kind "information" then Some OrdinaryKind.Information
  else if str_eqb kind "action" then Some OrdinaryKind.Action
  else None.

(** The classification a record holds: one whose call completed with known tokens. *)
Definition observed_classification (record : AuxiliaryRecord.t) :
    option (OrdinaryKind.t * Uuid * ModelCallReceipt.t) :=
  match record with
  | AuxiliaryRecord.ClassificationObserved call receipt kind =>
      if bool_decide (is_Some (ModelCallReceipt.tokens receipt))
         && bool_decide (ModelCallReceipt.status receipt = ModelCallStatus.Completed)
      then kind ← classified_kind kind; Some (kind, call, receipt) else None
  | _ => None
  end.

Definition observe a (observed : option (OrdinaryKind.t * Uuid * ModelCallReceipt.t)) (digest : Digest) :
    result (option (OrdinaryKind.t * Uuid * ModelCallReceipt.t)) StoreError.t :=
  let? record := read_record a digest in
  match observed_classification record with
  | Some found =>
      let? _ := reject_if (bool_decide (is_Some observed)) (invalid "multiple ordinary classifications") in
      Ok (Some found)
  | None => Ok observed
  end.

(** The classification and when the request started; the code expects the start to be
    recorded, so a classification without one is a panic. *)
Definition ordinary_classification db a (session request : Uuid) :
    result (option (OrdinaryKind.t * Uuid * ModelCallReceipt.t * option N)) StoreError.t :=
  let? b := submission db session request in
  if negb (is_ordinary b) then Ok None else
  let? accounting := auxiliary_accounting db a session request in
  if bool_decide (Accounting.calls accounting = ∅) then Ok None else
  let? observed := for_each (observe a) None (Submission.records b) in
  Ok ((λ found, (found, Accounting.started_ms accounting)) <$> observed).

Definition has_classification db a (session request : Uuid) : result bool StoreError.t :=
  let? found := ordinary_classification db a session request in Ok (bool_decide (is_Some found)).

(** ** Starting *)

(** The session or the request has begun something. *)
Definition turn_begun s (b : Submission.t) (request : Uuid) : bool :=
  negb (is_running b) || bool_decide (is_Some (SessionState.active_request s))
  || bool_decide (is_Some (SessionState.operations s !! request)).

Definition begin_auxiliary db a (session request : Uuid) : result (SessionDb * SessionState.t) StoreError.t :=
  let? s := load_session db session in
  let? b := ok_or (SessionState.submissions s !! request) (invalid "unknown auxiliary submission") in
  match Submission.intent b with
  | WorkIntent.Auxiliary spec =>
      let? refused := if turn_begun s b request then Ok true else has_classification db a session request in
      let? _ := reject_if refused (invalid "auxiliary request is cancelled, active or already admitted") in
      let? command :=
        if AuxiliarySpec.visible spec then
          let? prepared := load_input (Submission.input b) a in
          Ok (SessionCommand.Input Auxiliary (PreparedInput.messages prepared))
        else Ok SessionCommand.AuxiliaryStarted in
      session_command now_ms db a session (SessionState.revision s) request command
  | WorkIntent.Ordinary _ _ _ =>
      let? ready := if negb (is_running b) || bool_decide (SessionState.active_request s ≠ Some request)
                    then Ok false else has_classification db a session request in
      let? _ := reject_if (negb ready) (invalid "ordinary request has no completed information classification") in
      Ok (db, s)
  | _ => Err (invalid "request is not auxiliary")
  end.

Definition begin_classification db a (session request : Uuid) : result SessionDb StoreError.t :=
  let? s := load_session db session in
  let? b := ok_or (SessionState.submissions s !! request) (invalid "unknown ordinary submission") in
  let? _ := reject_if (negb (is_ordinary b) || turn_begun s b request)
              (invalid "ordinary classification is cancelled, active or already admitted") in
  let? '(db, _) := session_command now_ms db a session (SessionState.revision s) request
                     SessionCommand.AuxiliaryStarted in
  Ok db.

Definition settle_failed_classification db a (session request : Uuid) (error : string) :
    result SessionDb StoreError.t :=
  let? s := load_session db session in
  if bool_decide (SessionState.active_request s ≠ Some request) then Ok db else
  let? '(db, _) := session_command now_ms db a session (SessionState.revision s)
                     (new_v5 request "classification-settled") (SessionCommand.TurnSettled request None (Some error)) in
  Ok db.

(** The classifier's call is charged to the task: a reservation, then its receipt. *)
Definition account_ordinary_classification (st : Store) (now : N) (task request : Uuid) (kind : OrdinaryKind.t)
    (call : Uuid) (receipt : ModelCallReceipt.t) (started_ms : N) : result (Store * TaskState.t) StoreError.t :=
  let? _ := reject_if (bool_decide (kind ≠ OrdinaryKind.Action) || (call =? request)%N || (started_ms =? 0)%N)
              (invalid "ordinary classifier cannot be charged to a task") in
  let operation := new_v5 request "ordinary-classifier" in
  let? '(st, _) := reserve_model_call st task operation now in
  record_model_call st task operation receipt.

(** ** Recording *)

Definition record_spec (b : Submission.t) : result AuxiliarySpec.t StoreError.t :=
  match Submission.intent b with
  | WorkIntent.Auxiliary spec => Ok spec
  | WorkIntent.Ordinary _ _ _ => Ok ordinary_conversation_spec
  | _ => Err (invalid "request is not auxiliary")
  end.

(** A record that announces a call needs room for it. *)
Definition call_refused (limits : AuxiliaryLimits.t) (accounting : Accounting.t) (now : N)
    (record : AuxiliaryRecord.t) : bool :=
  match AuxiliaryRecord.intended record with
  | Some call =>
      (AuxiliaryLimits.model_calls limits <=? N.of_nat (size (Accounting.calls accounting)))%N
      || (Accounting.has_pending_receipt accounting && bool_decide (Accounting.calls accounting !! call = None))
      || match Accounting.tokens accounting with
         | Some tokens => (AuxiliaryLimits.tokens limits <=? tokens)%N
         | None => false
         end
      || match Accounting.started_ms accounting with
         | Some start => (AuxiliaryLimits.elapsed_ms limits <=? saturating_sub now start)%N
         | None => false
         end
  | None => false
  end.

(** The record is stored before the checks; the model keeps it only when they pass. *)
Definition record_auxiliary db a (now : N) (session request operation : Uuid) (record : AuxiliaryRecord.t) :
    result (SessionDb * ArtifactStore.t) StoreError.t :=
  let? s := load_session db session in
  let? b := ok_or (SessionState.submissions s !! request) (invalid "unknown auxiliary submission") in
  let? spec := record_spec b in
  let? _ := reject_if (negb (AuxiliaryRecord.classification record)
                       && bool_decide (SessionState.active_request s ≠ Some request))
              (invalid "auxiliary actor no longer owns this request") in
  let? bytes := ok_or (to_vec record) StoreError.Json in
  let? '(a, digest) := map_err StoreError.Artifact (ArtifactStore.put a bytes) in
  let command := SessionCommand.AuxiliaryRecorded request digest in
  match SessionState.operations s !! operation with
  | Some previous =>
      let? fingerprint := ok_or (of_value command) StoreError.Json in
      if bool_decide (previous = fingerprint) then Ok (db, a)
      else Err (invalid "auxiliary operation ID reused")
  | None =>
      let? accounting := auxiliary_accounting db a session request in
      let? _ := reject_if (call_refused (AuxiliarySpec.limits spec) accounting now record) StoreError.Budget in
      let? _ := reject_if (bool_decide (256 ≤ length (Submission.records b))) StoreError.Budget in
      let? _ := read_all a (AuxiliaryRecord.artifacts record) in
      let? _ := Accounting.apply accounting record in
      let? '(db, _) := session_command now_ms db a session (SessionState.revision s) operation command in
      Ok (db, a)
  end.

(** ** Publishing *)

Definition unresolved_accounting (status : AuxiliaryStatus.t) (limits : AuxiliaryLimits.t)
    (accounting : Accounting.t) : bool :=
  bool_decide (status = AuxiliaryStatus.Completed)
  && (match Accounting.tokens accounting with
      | Some tokens => (AuxiliaryLimits.tokens limits <? tokens)%N
      | None => true
      end
      || bool_decide (Accounting.calls accounting = ∅)).

(** The report and the two commands that end the turn. *)
Definition publish_report db a (session : Uuid) s (request : Uuid) (spec : AuxiliarySpec.t) (records : list Digest)
    (status : AuxiliaryStatus.t) (text : string) (error : option string) :
    result (SessionDb * ArtifactStore.t * Digest) StoreError.t :=
  let? accounting := accounting_of a records in
  let? _ := reject_if (unresolved_accounting status (AuxiliarySpec.limits spec) accounting)
              (invalid "auxiliary answer has unresolved provider accounting") in
  let report := AuxiliaryReport.mk 1 (AuxiliarySpec.kind spec) status text (size (Accounting.calls accounting))
                  (Accounting.tokens accounting) records error in
  let? bytes := ok_or (to_vec report) StoreError.Json in
  let? '(a, digest) := map_err StoreError.Artifact (ArtifactStore.put a bytes) in
  let? '(db, s) := session_command now_ms db a session (SessionState.revision s) (new_v5 request "auxiliary-published")
    (SessionCommand.AuxiliaryPublished request digest (if AuxiliarySpec.visible spec then Some text else None)) in
  let? '(db, _) := session_command now_ms db a session (SessionState.revision s) (new_v5 request "auxiliary-settled")
    (SessionCommand.TurnSettled request None error) in
  Ok (db, a, digest).

Definition publish_auxiliary db a (session request : Uuid) (status : AuxiliaryStatus.t) (text : string)
    (error : option string) : result (SessionDb * ArtifactStore.t * Digest) StoreError.t :=
  let? s := load_session db session in
  let? b := ok_or (SessionState.submissions s !! request) (invalid "unknown auxiliary submission") in
  match Submission.intent b with
  | WorkIntent.Ordinary _ _ _ =>
      let? ready := if bool_decide (SessionState.active_request s ≠ Some request) then Ok false
                    else has_classification db a session request in
      let? _ := reject_if (negb ready) (invalid "ordinary auxiliary actor mismatch") in
      publish_report db a session s request ordinary_conversation_spec (Submission.records b) status text error
  | WorkIntent.Auxiliary spec =>
      let? _ := reject_if (bool_decide (SessionState.active_request s ≠ Some request)
                           || (256 * 1024 <? str_len text)%N) (invalid "invalid auxiliary result or actor") in
      publish_report db a session s request spec (Submission.records b) status text error
  | _ => Err (invalid "request is not auxiliary")
  end.
End auxiliary.

(** The serializations of this file, Shell and Submissions together. *)
Class TurnSerde := {
  #[global] serde_policy :: Serde RequestPolicy.t;
  #[global] serde_shell_report :: Serde ShellReport.t;
  #[global] serde_auxiliary_record :: Serde AuxiliaryRecord.t;
  #[global] serde_auxiliary_report :: Serde AuxiliaryReport.t;
}.
