(* ===== verification/SessionSteps.v ===== *)
(** * Operations on sessions as steps

    Every operation on sessions is a sequence of steps of an abstract machine: a
    session is inserted, one command is appended to it, or the tables of the tasks
    change. A database that steps lead to holds well-formed sessions whose past never
    changes. *)

From S2P Require Import Prelude Digest Contract State Artifacts Workspace Input ArtifactGraph Journal Store.
From S2P Require Import Cost Conversation Admission Session Context SessionStore SessionCommands Queue.
From S2P Require Import Verification ContractAdmission Submissions Shell Auxiliary.

Section machine.
Context {SHA : Sha256} {SER : StoreSerde} {SES : SessionSerde} {HOST : Host}.
Implicit Types (db : SessionDb) (s : SessionState.t).

(** A submission is admitted while the host has room for it. *)
Definition HOST_LIMIT : nat := 128.
Definition host_guard db (command : SessionCommand.t) : Prop :=
  match command with SessionCommand.Submitted _ => total_pending db < HOST_LIMIT | _ => True end.

Inductive session_step : SessionDb → SessionDb → Prop :=
| step_insert db id creation db' s : insert_session db id creation = Ok (db', s) → session_step db db'
| step_append now_ms db id s h operation command db' s' h' :
    load_session_state db id None = Ok (s, h) → call_in_cell s command → queue_guard s command → host_guard db command →
    append_session_command now_ms db s h operation command = Some (Ok (db', s', h')) → session_step db db'
| step_tables db t : session_step db (db <| tables := t |>).

Definition sessions_reachable : SessionDb → Prop := rtc session_step empty_sdb.

(** Every session is held with its past; there are no rows of other sessions. *)
Record sessions_ok db : Prop := {
  so_held id : is_Some (sessions db !! id) → ∃ n s h, held db id n s h;
  so_absent id : sessions db !! id = None → events_of db id = ∅ ∧ checkpoints_of db id = ∅;
}.

Lemma held_load db id n s h : held db id n s h → load_session_state db id None = Ok (s, h).
Proof. intros [Hat _ _ _]. exact (proj1 (session_at_load _ _ _ _ _ Hat)). Qed.

Lemma sessions_ok_load db id s h :
  sessions_ok db → load_session_state db id None = Ok (s, h) → held db id (SessionState.revision s) s h.
Proof.
  intros Hok Hl. assert (is_Some (sessions db !! id)) as Hs.
  { unfold load_session_state in Hl. apply rbind_Ok in Hl as (row & Hr%ok_or_Ok & _). by eexists. }
  destruct (so_held _ Hok _ Hs) as (n & s0 & h0 & Hh). rewrite (held_load _ _ _ _ _ Hh) in Hl.
  injection Hl as <- <-. pose proof (held_identity _ _ _ _ _ Hh) as (_ & -> & _). done.
Qed.

Lemma load_session_in db id s : load_session db id = Ok s → id ∈ dom (sessions db).
Proof.
  unfold load_session, load_session_state. intros ([t h] & (row & Hr%ok_or_Ok & _)%rbind_Ok & _)%rbind_Ok.
  by apply elem_of_dom_2 in Hr.
Qed.


Lemma same_session_held db db' id n s h : same_session db db' id → held db id n s h → held db' id n s h.
Proof.
  intros Hs [Hat Hok Hser Hpast]. split; [by eapply same_session_at|done..|].
  intros r r' Hr Hr'. rewrite !(same_session_load _ _ _ _ Hs). by apply Hpast.
Qed.

Lemma sessions_ok_others db db' id n s h :
  sessions_ok db → held db' id n s h → (∀ other, other ≠ id → same_session db db' other) → sessions_ok db'.
Proof.
  intros Hok Hh Hoth. split.
  - intros other Hs. destruct (decide (other = id)) as [->|Hne]; [by eauto|].
    destruct (Hoth other Hne) as (E & _). rewrite E in Hs. destruct (so_held _ Hok _ Hs) as (m & t & k & Ht).
    exists m, t, k. apply (same_session_held db); [by apply Hoth|done].
  - intros other Hs. destruct (decide (other = id)) as [->|Hne].
    { destruct Hh as [[(b & _ & Hrow) _ _ _ _ _] _ _ _]. congruence. }
    destruct (Hoth other Hne) as (E & -> & ->). rewrite E in Hs. by apply so_absent.
Qed.

Lemma empty_sessions_ok : sessions_ok empty_sdb.
Proof. split; [intros id Hs; cbn in Hs; rewrite lookup_empty in Hs; by destruct Hs|done]. Qed.

Lemma tables_same_session db t id : same_session db (db <| tables := t |>) id.
Proof. done. Qed.

Context {OK : SessionSerdeOk}.

(** ** One step *)

Lemma append_grown now_ms db id n s h operation command db' s' h' :
  held db id n s h → call_in_cell s command →
  append_session_command now_ms db s h operation command = Some (Ok (db', s', h')) →
  ∃ n', grown db id n s db' n' s' h'.
Proof.
  intros Hh Hg. unfold append_session_command.
  destruct (to_vec _) as [bytes|] eqn:Hb; [|done].
  destruct (N.ltb_spec MAX_EVENT_BYTES (str_len bytes)) as [Hlt|Hle].
  2: { intros [= Hw]. exists (n + 1)%N. by eapply write_grown. }
  destruct command; try done.
  destruct (append_parts _ _ _ _ _ _ _ _ _ _) as [[[[db1 s1] h1]|]|] eqn:Hparts; cbn; try done.
  intros [= Hend].
  apply (append_parts_inv now_ms (λ _ _, True) _ _ _ _ _ ltac:(done) db id n) in Hparts
    as (n1 & Hg1 & _); [|done..|lia].
  apply (append_whole_grown now_ms db1 id n1) in Hend as [_ Hg2]; [|by apply Hg1|done].
  exists (n1 + 1)%N. by eapply grown_trans.
Qed.

Lemma insert_session_held db id creation db' s :
  sessions_ok db → insert_session db id creation = Ok (db', s) →
  s = create id creation ∧ sessions db !! id = None ∧
  (∃ h, held db' id 1 s h) ∧ (∀ other, other ≠ id → same_session db db' other).
Proof.
  intros Hok. unfold insert_session. intros (bytes & Hb%ok_or_Ok & H1)%rbind_Ok.
  apply rbind_Ok in H1 as ([] & Hl%reject_if_Ok%N.ltb_ge & H1). apply rbind_Ok in H1 as (hash & Hh & H1).
  apply rbind_Ok in H1 as (sb & Hsb%ok_or_Ok & H1). apply rbind_Ok in H1 as (db1 & Hrow & H1).
  apply rbind_Ok in H1 as (db2 & Hev & H1). apply rbind_Ok in H1 as (db3 & Hcp & H1).
  apply Ok_inj in H1. injection H1 as <- <-.
  unfold insert_session_row in Hrow.
  apply rbind_Ok in Hrow as ([] & Hnone%reject_if_Ok%bool_decide_eq_false & Hrow%Ok_inj).
  assert (sessions db !! id = None) as Hn by (by apply eq_None_not_Some).
  destruct (so_absent _ Hok _ Hn) as [He Hc].
  unfold insert_session_event in Hev. apply rbind_Ok in Hev as ([] & _ & Hev%Ok_inj).
  unfold store_session_checkpoint in Hcp. cbn [i64_try_from] in Hcp.
  apply rbind_Ok in Hcp as (z & Hz%ok_or_Ok & Hcp). apply i64_try_from_Some in Hz as [Hz ->].
  apply rbind_Ok in Hcp as (sb' & Hsb'%ok_or_Ok & Hcp%Ok_inj). assert (sb' = sb) as -> by congruence.
  set (s := create id creation) in *. set (h := hash) in *.
  assert (Hs3 : sessions db3 = <[id := TaskRow.mk 1 sb (digest_to_string h)]> (sessions db)).
  { by rewrite <-Hcp, <-Hev, <-Hrow. }
  assert (He3 : events_of db3 id = <[1%Z := EventRow.mk (next_sequence (tables db)) bytes (digest_to_string h)]> ∅).
  { rewrite <-Hcp, <-Hev, <-Hrow. unfold events_of at 1. cbn. rewrite lookup_insert_eq. cbn.
    change (events_of _ id) with (events_of db id). by rewrite He. }
  assert (Hc3 : checkpoints_of db3 id = <[1%Z := CheckpointRow.mk sb (digest_to_string h)]> ∅).
  { rewrite <-Hcp, <-Hev, <-Hrow. unfold checkpoints_of at 1. cbn. rewrite lookup_insert_eq. cbn.
    change (checkpoints_of _ id) with (checkpoints_of db id). by rewrite Hc. }
  assert (Hoth : ∀ other, other ≠ id → same_session db db3 other).
  { intros other Hne. rewrite <-Hcp, <-Hev, <-Hrow. unfold same_session, events_of, checkpoints_of. cbn.
    by rewrite !lookup_insert_ne by done. }
  clear Hcp Hev Hrow.
  assert (Hser : serializable s) by done.
  assert (Hat : session_at db3 id 1 s h).
  { split; [exists sb; split; [done|]; by rewrite Hs3, lookup_insert_eq|done| | |done|].
    - intros k. rewrite He3, lookup_insert_is_Some', lookup_empty. split; [intros [<-|[? ?]]; [lia|done]|].
      intros ?. left. lia.
    - intros k. rewrite Hc3, lookup_insert_is_Some', lookup_empty. intros [<-|[? ?]]; [lia|done].
    - exists (Some s, Some h, 1%N). split.
      + unfold checkpoint_through. rewrite Hc3, btree_iter_insert_last by (intros ? [? ?%lookup_empty_Some]; done).
        rewrite filter_app, filter_cons_True by done. rewrite last_app. cbn.
        rewrite (sstate_ok _ _ Hser Hsb). cbn. rewrite N.eqb_refl. cbn. by rewrite digest_from_to_string.
      + unfold events_between. rewrite He3. done. }
  split_and!; [done|done| |done]. exists h. split; [done|apply create_session_ok|done|].
  intros r r' Hr Hr'. replace r with 1%N by lia. replace r' with 1%N by lia. exists s, h, s, h.
  pose proof (proj2 (session_at_load _ _ _ _ _ Hat)). split_and!; [done..|apply extends_refl].
Qed.

Lemma session_step_ok db db' : session_step db db' → sessions_ok db → sessions_ok db'.
Proof.
  intros [db0 id creation db1 s Hi|now_ms db0 id s h operation command db1 s' h' Hl Hg _ _ Ha|db0 t] Hok.
  - destruct (insert_session_held _ _ _ _ _ Hok Hi) as (_ & _ & (h & Hh) & Ho). by eapply sessions_ok_others.
  - apply (sessions_ok_load _ _ _ _ Hok) in Hl.
    destruct (append_grown _ _ _ _ _ _ _ _ _ _ _ Hl Hg Ha) as (n' & [Hh _ _ _ Ho]).
    by eapply sessions_ok_others.
  - destruct Hok as [Hh Ha]. split; [|done]. intros id Hs. destruct (Hh id Hs) as (n & s & h & ?).
    exists n, s, h. by apply (same_session_held db0).
Qed.

Lemma session_steps_ok db db' : rtc session_step db db' → sessions_ok db → sessions_ok db'.
Proof. induction 1; eauto using session_step_ok. Qed.

Lemma sessions_reachable_ok db : sessions_reachable db → sessions_ok db.
Proof. intros Hr. apply (session_steps_ok _ _ Hr), empty_sessions_ok. Qed.

(** A revision that loads keeps its state for ever. *)
Lemma session_step_past db db' id n s h :
  sessions_ok db → session_step db db' → held db id n s h →
  ∃ n' s' h', held db' id n' s' h' ∧ (n ≤ n')%N ∧ extends s s' ∧
    ∀ r, (r ≤ n)%N → load_session_state db' id (Some r) = load_session_state db id (Some r).
Proof.
  intros Hok Hstep Hh.
  assert (Hsame : same_session db db' id → ∃ n' s' h', held db' id n' s' h' ∧ (n ≤ n')%N ∧ extends s s' ∧
    ∀ r, (r ≤ n)%N → load_session_state db' id (Some r) = load_session_state db id (Some r)).
  { intros Hs. exists n, s, h. split_and!; [by eapply same_session_held|done|apply extends_refl|].
    intros r _. by apply same_session_load. }
  destruct Hstep as [db0 id0 creation db1 s1 Hi|now_ms db0 id0 s0 h0 operation command db1 s1 h1 Hl Hg _ _ Ha|db0 t];
    [| |by apply Hsame].
  - destruct (insert_session_held _ _ _ _ _ Hok Hi) as (_ & Hn & _ & Ho).
    apply Hsame, Ho. intros ->. destruct Hh as [[(b & _ & Hrow) _ _ _ _ _] _ _ _]. congruence.
  - pose proof (sessions_ok_load _ _ _ _ Hok Hl) as Hh0.
    destruct (append_grown _ _ _ _ _ _ _ _ _ _ _ Hh0 Hg Ha) as (n' & Hgr).
    destruct (decide (id = id0)) as [->|Hne]; [|by apply Hsame, Hgr].
    rewrite (held_load _ _ _ _ _ Hh) in Hl. injection Hl as -> ->.
    pose proof (held_identity _ _ _ _ _ Hh) as (_ & Hn & _). rewrite Hn in Hgr.
    exists n', s1, h1. split_and!; [apply Hgr..|]. apply Hgr.
Qed.

Lemma session_steps_past db db' id n s h :
  rtc session_step db db' → sessions_ok db → held db id n s h →
  ∃ n' s' h', held db' id n' s' h' ∧ (n ≤ n')%N ∧ extends s s' ∧
    ∀ r, (r ≤ n)%N → load_session_state db' id (Some r) = load_session_state db id (Some r).
Proof.
  intros Hsteps. revert n s h. induction Hsteps as [|db db1 db' Hstep _ IH]; intros n s h Hok Hh.
  { exists n, s, h. split_and!; [done..|apply extends_refl|done]. }
  destruct (session_step_past _ _ _ _ _ _ Hok Hstep Hh) as (n1 & s1 & h1 & Hh1 & Hle1 & Hx1 & Hp1).
  destruct (IH n1 s1 h1) as (n2 & s2 & h2 & Hh2 & Hle2 & Hx2 & Hp2); [by eapply session_step_ok|done|].
  exists n2, s2, h2. split_and!; [done|lia|by eapply extends_trans|].
  intros r Hr. rewrite Hp2 by lia. by apply Hp1.
Qed.
End machine.

(** ** The operations are sequences of steps *)

Section operations.
Context {SHA : Sha256} {SER : StoreSerde} {SES : SessionSerde} {HOST : Host} {TURN : TurnSerde}.
Implicit Types (db : SessionDb) (s : SessionState.t) (a : ArtifactStore.t).
Variable now_ms : N → N.

(** What a caller does to the store. The commands of the queue are sent by the
    operations of Submissions only; the tables of the tasks change as they will. *)
Inductive session_operation db db' : Prop :=
| op_create a now id config admission parent seed fresh_context s :
    create_session_seeded db a now id config admission parent seed fresh_context = Ok (db', s) →
    session_operation db db'
| op_command a id revision operation command s :
    queue_command command = false →
    session_command now_ms db a id revision operation command = Ok (db', s) → session_operation db db'
| op_pin a id profile s : pin_session_admission now_ms db a id profile = Ok (db', s) → session_operation db db'
| op_save a session request task s :
    save_task_workspace now_ms db a session request task = Ok (db', s) → session_operation db db'
| op_start a fresh now session operation request limits contract intake prepared s task created :
    start_record now_ms db a fresh now session operation request limits contract intake prepared
      = Ok (db', s, task, created) → session_operation db db'
| op_resume a now session operation id revision reason s task created :
    resume_task_record now_ms db a now session operation id revision reason = Ok (db', s, task, created) →
    session_operation db db'
| op_submit a now session id input intent b :
    submit now_ms db a now session id input intent = Ok (db', b) → session_operation db db'
| op_edit a session operation request expected input b :
    edit_submission now_ms db a session operation request expected input = Ok (db', b) → session_operation db db'
| op_move a session operation request expected before b :
    move_submission now_ms db a session operation request expected before = Ok (db', b) → session_operation db db'
| op_status a operation session request status b :
    set_submission_status now_ms db a operation session request status = Ok (db', b) → session_operation db db'
| op_continue a now session request s task created :
    continue_submission_record now_ms db a now session request = Ok (db', s, task, created) →
    session_operation db db'
| op_begin_shell a session request job : begin_shell now_ms db a session request job = Ok db' → session_operation db db'
| op_finish_shell a session request report a' digest :
    finish_shell now_ms db a session request report = Ok (db', a', digest) → session_operation db db'
| op_begin_auxiliary a session request s :
    begin_auxiliary now_ms db a session request = Ok (db', s) → session_operation db db'
| op_begin_classification a session request :
    begin_classification now_ms db a session request = Ok db' → session_operation db db'
| op_settle_classification a session request error :
    settle_failed_classification now_ms db a session request error = Ok db' → session_operation db db'
| op_record a now session request operation record a' :
    record_auxiliary now_ms db a now session request operation record = Ok (db', a') → session_operation db db'
| op_publish a session request status text error a' digest :
    publish_auxiliary now_ms db a session request status text error = Ok (db', a', digest) → session_operation db db'
| op_tables t : db' = db <| tables := t |> → session_operation db db'.

Definition operated : SessionDb → Prop := rtc session_operation empty_sdb.

Lemma append_session_total db s head operation command :
  append_session_command now_ms db s head operation command = Some (append_session now_ms db s head operation command).
Proof.
  unfold append_session. destruct (append_terminates now_ms db s head operation command) as [r Hr]. by rewrite Hr.
Qed.

Context {OK : SessionSerdeOk}.

Lemma append_session_step db id n s h operation command db' s' h' :
  held db id n s h → call_in_cell s command →
  append_session now_ms db s h operation command = Ok (db', s', h') →
  (queue_guard s command → host_guard db command → session_step db db') ∧ ∃ n', grown db id n s db' n' s' h'.
Proof.
  intros Hh Hg Ha. pose proof (append_session_total db s h operation command) as Ht. rewrite Ha in Ht.
  split; [|by eapply append_grown]. intros Hq Hhost. eapply step_append; [|exact Hg|exact Hq|exact Hhost|exact Ht]. by eapply held_load.
Qed.

Lemma open_cell_in s request cell :
  open_cell s request cell = true → is_Some (InterpreterState.cells (SessionState.interpreter s) !! cell).
Proof. unfold open_cell. destruct (_ !! cell); [by eexists|done]. Qed.

Lemma guard_call_in_cell db s a command : guard db s a command = Ok tt → call_in_cell s command.
Proof.
  destruct command as [request []| | | | | | | | | | | | | | | | | | | | | | | | | | | | | |]; try done.
  cbn [guard guard_interpreter call_in_cell]. intros ([] & Hc%reject_if_Ok & _)%rbind_Ok.
  apply orb_false_iff in Hc as [_ Hc%negb_false_iff]. by apply open_cell_in in Hc.
Qed.

(** An accepted command: it was accepted before, or it passed the guards and was
    appended. *)
Lemma session_command_Ok db a id revision operation command db' s' :
  sessions_ok db → session_command now_ms db a id revision operation command = Ok (db', s') →
  ∃ s h d, load_session_state db id None = Ok (s, h) ∧ of_value command = Some d ∧
    ((SessionState.operations s !! operation = Some d ∧ db' = db ∧ s' = s) ∨
     (SessionState.operations s !! operation = None ∧ SessionState.revision s = revision ∧
      guard_owner s command = Ok tt ∧ guard db s a command = Ok tt ∧ (queue_guard s command → host_guard db command → session_step db db') ∧
      ∃ n' h', append_session now_ms db s h operation command = Ok (db', s', h') ∧
        grown db id (SessionState.revision s) s db' n' s' h')).
Proof.
  intros Hok. unfold session_command. intros ([s h] & Hl & H1)%rbind_Ok.
  apply rbind_Ok in H1 as (d & Hd%ok_or_Ok & H1). exists s, h, d. split_and!; [done..|].
  destruct (SessionState.operations s !! operation) as [previous|].
  { case_bool_decide as Hp; [|done]. apply Ok_inj in H1. injection H1 as <- <-. left. by subst. }
  apply rbind_Ok in H1 as ([] & Hr%reject_if_Ok%negb_false_iff%N.eqb_eq & H1).
  apply rbind_Ok in H1 as ([] & Ho & H1). apply rbind_Ok in H1 as ([] & Hg & H1).
  apply rbind_Ok in H1 as ([[db1 s1] h1] & Ha & H1%Ok_inj). injection H1 as <- <-. right.
  pose proof (sessions_ok_load _ _ _ _ Hok Hl) as Hh.
  destruct (append_session_step _ _ _ _ _ _ _ _ _ _ Hh (guard_call_in_cell _ _ _ _ Hg) Ha) as (Hstep & n' & Hgr).
  split_and!; try done. exists n', h1. by split.
Qed.

Lemma session_command_steps db a id revision operation command db' s' :
  sessions_ok db → (∀ s h, load_session_state db id None = Ok (s, h) → queue_guard s command) → host_guard db command →
  session_command now_ms db a id revision operation command = Ok (db', s') → rtc session_step db db'.
Proof.
  intros Hok Hq Hh Hc. destruct (session_command_Ok _ _ _ _ _ _ _ _ Hok Hc) as (s & h & d & Hl & _ & [(_ & -> & _)|Hn]);
    [done|]. apply rtc_once, Hn; [by eapply Hq|done].
Qed.

Lemma other_command_steps db a id revision operation command db' s' :
  sessions_ok db → queue_command command = false →
  session_command now_ms db a id revision operation command = Ok (db', s') → rtc session_step db db'.
Proof.
  intros Hok Hc. apply session_command_steps; [done| |by destruct command]. intros s h _. by apply queue_guard_other.
Qed.

Lemma create_session_steps db a now id config admission parent seed fresh_context db' s :
  create_session_seeded db a now id config admission parent seed fresh_context = Ok (db', s) →
  rtc session_step db db'.
Proof.
  unfold create_session_seeded. intros ([] & _ & Hc)%rbind_Ok. destruct (load_session db id) as [e|[]]; try done.
  - destruct (same_creation _ _ _ _ _ _); [|done]. apply Ok_inj in Hc. by injection Hc as -> ->.
  - apply rbind_Ok in Hc as ([[history imported] workspace] & _ & Hc). apply rbind_Ok in Hc as ([] & _ & Hi).
    apply rtc_once. by eapply step_insert.
Qed.

Lemma append_started_steps db id n s h operation content task db' s' :
  held db id n s h → append_started now_ms db s h operation content task = Ok (db', s') → rtc session_step db db'.
Proof.
  intros Hh. unfold append_started. intros ([[db1 s1] h1] & Ha1 & Hr)%rbind_Ok.
  apply rbind_Ok in Hr as ([[db2 s2] h2] & Ha2 & Hr%Ok_inj). injection Hr as <- <-.
  apply (append_session_step _ id n) in Ha1 as (Hs1 & n1 & Hg1); [|done..].
  apply (append_session_step _ id n1) in Ha2 as (Hs2 & _); [|by apply Hg1|done].
  econstructor; [by apply Hs1|]. by apply rtc_once, Hs2.
Qed.

Lemma tables_started_steps db t id s h operation content task db' s' :
  sessions_ok db → load_session_state db id None = Ok (s, h) →
  append_started now_ms (db <| tables := t |>) s h operation content task = Ok (db', s') →
  rtc session_step db db'.
Proof.
  intros Hok Hl Ha. econstructor; [apply (step_tables db t)|].
  eapply append_started_steps; [|exact Ha]. apply (same_session_held db); [done|by apply sessions_ok_load].
Qed.

Definition is_tool_result (command : SessionCommand.t) : bool :=
  match command with SessionCommand.ToolResult _ _ _ => true | _ => false end.

Lemma append_session_apply db s h operation command db' s' h' :
  is_tool_result command = false →
  append_session now_ms db s h operation command = Ok (db', s', h') → session_apply s operation command = Ok s'.
Proof.
  intros Hc Ha. pose proof (append_session_total db s h operation command) as Ht. rewrite Ha in Ht. clear Ha.
  unfold append_session_command in Ht. destruct (to_vec _) as [bytes|]; [|done].
  destruct (MAX_EVENT_BYTES <? str_len bytes)%N; [by destruct command|].
  injection Ht as Hw. by apply write_session_event_Ok in Hw as (? & ? & ? & ? & _).
Qed.

(** The shape of most operations: the tables of the tasks change, then one command is
    appended to the session that was loaded. *)
Lemma tables_append db t id s h operation command db' s' h' :
  sessions_ok db → load_session_state db id None = Ok (s, h) →
  (∀ s0, call_in_cell s0 command) → queue_guard s command → host_guard db command →
  append_session now_ms (db <| tables := t |>) s h operation command = Ok (db', s', h') →
  rtc session_step db db' ∧ ∃ n n', grown (db <| tables := t |>) id n s db' n' s' h'.
Proof.
  intros Hok Hl Hc Hq Hhost Ha. apply (sessions_ok_load _ _ _ _ Hok) in Hl.
  apply (same_session_held _ (db <| tables := t |>)) in Hl; [|done].
  destruct (append_session_step _ _ _ _ _ _ _ _ _ _ Hl (Hc _) Ha) as (Hs & n' & Hg).
  split; [|by eauto]. econstructor; [apply (step_tables db t)|]. by apply rtc_once, Hs.
Qed.

(** What such an append leaves. *)
Lemma tables_append_one db t id s h operation command db' s' h' :
  sessions_ok db → load_session_state db id None = Ok (s, h) →
  (∀ s0, call_in_cell s0 command) → is_tool_result command = false →
  append_session now_ms (db <| tables := t |>) s h operation command = Ok (db', s', h') →
  load_session_state db' id None = Ok (s', h') ∧ session_apply s operation command = Ok s'.
Proof.
  intros Hok Hl Hc Hr Ha. apply (sessions_ok_load _ _ _ _ Hok) in Hl.
  apply (same_session_held _ (db <| tables := t |>)) in Hl; [|done].
  destruct (append_session_step _ _ _ _ _ _ _ _ _ _ Hl (Hc _) Ha) as (_ & n' & [Hh' _ _ _ _]).
  split; [by eapply held_load|by eapply append_session_apply].
Qed.

Lemma load_session_Ok db id s : load_session db id = Ok s → ∃ h, load_session_state db id None = Ok (s, h).
Proof. unfold load_session. intros ([t h] & Hl & [= ->])%rbind_Ok. by exists h. Qed.

Lemma edit_steps db a session operation request expected input db' b :
  sessions_ok db → edit_submission now_ms db a session operation request expected input = Ok (db', b) →
  rtc session_step db db'.
Proof.
  intros Hok. unfold edit_submission. intros (d & _ & He)%rbind_Ok. apply rbind_Ok in He as ([s h] & Hl & He).
  destruct (SessionState.operations s !! operation).
  { apply rbind_Ok in He as ([] & _ & He). apply rbind_Ok in He as (b0 & _ & He%Ok_inj). by injection He as -> _. }
  apply rbind_Ok in He as (b0 & Hb%ok_or_Ok & He).
  apply rbind_Ok in He as ([] & [Hs Hi]%reject_if_Ok%orb_false_iff & He).
  apply bool_decide_eq_false, dec_stable in Hs, Hi.
  apply rbind_Ok in He as (prepared & _ & He). apply rbind_Ok in He as (t & _ & He).
  apply rbind_Ok in He as ([[db1 s1] h1] & Ha & He%Ok_inj). injection He as <- _.
  apply (tables_append db t session) in Ha as [Hsteps _]; [done..|by exists b0|done].
Qed.

Lemma submit_steps db a now session id input intent db' b :
  sessions_ok db → submit now_ms db a now session id input intent = Ok (db', b) → rtc session_step db db'.
Proof.
  intros Hok. unfold submit. intros (s0 & Hl0 & He)%rbind_Ok. apply rbind_Ok in He as ([] & Hhost & He).
  apply rbind_Ok in He as (prepared & _ & He). apply rbind_Ok in He as ([] & _ & He).
  apply rbind_Ok in He as ([s h] & Hl & He).
  apply load_session_Ok in Hl0 as [h0 Hl0]. rewrite Hl in Hl0. injection Hl0 as <- _. unfold admit_host in Hhost.
  destruct (SessionState.submissions s !! id) eqn:Hn.
  { destruct (_ && _); [|done]. apply Ok_inj in He. by injection He as -> _. }
  apply rbind_Ok in Hhost as (count & Hcount%pending_submissions_Ok & Hhost%reject_if_Ok%bool_decide_eq_false).
  apply rbind_Ok in He as ([] & _ & He). apply rbind_Ok in He as ([] & Hf%reject_if_Ok%bool_decide_eq_false & He).
  apply rbind_Ok in He as (t & _ & He). apply rbind_Ok in He as ([[db1 s1] h1] & Ha & He%Ok_inj). injection He as <- _.
  apply (tables_append db t session) in Ha as [Hsteps _]; [done..| |].
  - split_and!; [done..|]. unfold QUEUE_LIMIT. cbn in Hf. lia.
  - unfold host_guard, HOST_LIMIT. lia.
Qed.

Lemma move_steps db a session operation request expected before db' b :
  sessions_ok db → move_submission now_ms db a session operation request expected before = Ok (db', b) →
  rtc session_step db db'.
Proof.
  intros Hok. unfold move_submission. intros (s & [h Hl]%load_session_Ok & He)%rbind_Ok.
  apply rbind_Ok in He as (b0 & Hb%ok_or_Ok & He). destruct (SessionState.operations s !! operation).
  { apply rbind_Ok in He as (fp & _ & He). case_bool_decide; [|done]. apply Ok_inj in He. by injection He as -> _. }
  apply rbind_Ok in He as ([] & [Hs Hi]%reject_if_Ok%orb_false_iff & He).
  apply bool_decide_eq_false, dec_stable in Hs, Hi.
  apply rbind_Ok in He as ([] & _ & He). apply rbind_Ok in He as ([db1 s1] & Hc & He).
  apply rbind_Ok in He as (b1 & _ & He%Ok_inj). injection He as <- _.
  eapply session_command_steps; [done| | |exact Hc]; [|done]. intros s2 h2 Hl2. rewrite Hl in Hl2. injection Hl2 as <- _. by exists b0.
Qed.

Lemma status_steps db a operation session request status db' b :
  sessions_ok db → set_submission_status now_ms db a operation session request status = Ok (db', b) →
  rtc session_step db db'.
Proof.
  intros Hok. unfold set_submission_status. intros (s & [h Hl]%load_session_Ok & He)%rbind_Ok.
  apply rbind_Ok in He as (b0 & Hb%ok_or_Ok & He). case_bool_decide.
  { apply Ok_inj in He. by injection He as -> _. }
  apply rbind_Ok in He as ([] & Ha%reject_if_Ok%negb_false_iff & He). apply rbind_Ok in He as ([db1 s1] & Hc & He).
  apply rbind_Ok in He as (b1 & _ & He%Ok_inj). injection He as <- _.
  eapply session_command_steps; [done| | |exact Hc]; [|done]. intros s2 h2 Hl2. rewrite Hl in Hl2. injection Hl2 as <- _.
  by exists b0, (bool_decide (is_Some (SessionState.operations s !! request))).
Qed.

Lemma continue_steps db a now session request db' s task created :
  sessions_ok db → continue_submission_record now_ms db a now session request = Ok (db', s, task, created) →
  rtc session_step db db'.
Proof.
  intros Hok. unfold continue_submission_record. intros (b & _ & He)%rbind_Ok.
  apply rbind_Ok in He as (id & _ & He). apply rbind_Ok in He as (prepared & _ & He).
  apply rbind_Ok in He as ([s0 h] & Hl & He). apply rbind_Ok in He as ([] & _ & He).
  apply rbind_Ok in He as ([t0 th] & _ & He). case_bool_decide.
  { apply Ok_inj in He. by injection He as -> _ _ _. }
  do 3 (apply rbind_Ok in He as ([] & _ & He)). apply rbind_Ok in He as ([t t1] & _ & He).
  apply rbind_Ok in He as ([db1 s1] & Ha & He%Ok_inj). injection He as <- _ _ _. by eapply tables_started_steps.
Qed.

Lemma begin_shell_steps db a session request job db' :
  sessions_ok db → begin_shell now_ms db a session request job = Ok db' → rtc session_step db db'.
Proof.
  intros Hok. unfold begin_shell. intros ([s h] & Hl & He)%rbind_Ok. apply rbind_Ok in He as (b & _ & He).
  destruct (Submission.intent b); try done. do 4 (apply rbind_Ok in He as ([] & _ & He)).
  apply rbind_Ok in He as (bytes & _ & He).
  apply rbind_Ok in He as (t & _ & He). apply rbind_Ok in He as ([[db1 s1] h1] & Ha & He%Ok_inj). subst db1.
  by eapply tables_append in Ha as [Hs _].
Qed.

Lemma finish_shell_steps db a session request report db' a' digest :
  sessions_ok db → finish_shell now_ms db a session request report = Ok (db', a', digest) → rtc session_step db db'.
Proof.
  intros Hok. unfold finish_shell. intros ([s h] & Hl & He)%rbind_Ok. apply rbind_Ok in He as (b & _ & He).
  do 2 (apply rbind_Ok in He as ([] & _ & He)). apply rbind_Ok in He as (seed & _ & He).
  apply rbind_Ok in He as ([t superseded] & _ & He). apply rbind_Ok in He as (bytes & _ & He).
  apply rbind_Ok in He as ([a1 d1] & _ & He). apply rbind_Ok in He as ([[db1 s1] h1] & Ha & He).
  apply rbind_Ok in He as ([[db2 s2] h2] & Hb & He%Ok_inj). injection He as <- _ _.
  eapply tables_append in Ha as (Hs & n & n' & Hg); [|done..].
  eapply append_session_step in Hb as (Hs2 & _); [|by apply Hg|done].
  etransitivity; [exact Hs|]. by apply rtc_once, Hs2.
Qed.

Lemma publish_steps db a session s request spec records status text error db' a' digest :
  sessions_ok db → publish_report now_ms db a session s request spec records status text error = Ok (db', a', digest) →
  rtc session_step db db'.
Proof.
  intros Hok. unfold publish_report. intros (accounting & _ & He)%rbind_Ok. apply rbind_Ok in He as ([] & _ & He).
  apply rbind_Ok in He as (bytes & _ & He). apply rbind_Ok in He as ([a1 d] & _ & He).
  apply rbind_Ok in He as ([db1 s1] & H1 & He). apply rbind_Ok in He as ([db2 s2] & H2 & He%Ok_inj). injection He as <- _ _.
  apply other_command_steps in H1; [|done..]. apply other_command_steps in H2; [|by eapply session_steps_ok|done].
  by etransitivity.
Qed.

Lemma auxiliary_steps db db' :
  sessions_ok db →
  (∃ a session request s, begin_auxiliary now_ms db a session request = Ok (db', s)) ∨
  (∃ a session request, begin_classification now_ms db a session request = Ok db') ∨
  (∃ a session request error, settle_failed_classification now_ms db a session request error = Ok db') ∨
  (∃ a now session request operation record a',
     record_auxiliary now_ms db a now session request operation record = Ok (db', a')) →
  rtc session_step db db'.
Proof.
  intros Hok [(a & session & request & s & He)|[(a & session & request & He)|[(a & session & request & error & He)|
    (a & now & session & request & operation & record & a' & He)]]].
  - unfold begin_auxiliary in He. apply rbind_Ok in He as (s0 & _ & He). apply rbind_Ok in He as (b & _ & He).
    destruct (Submission.intent b); try done.
    + apply rbind_Ok in He as (ready & _ & He). apply rbind_Ok in He as ([] & _ & He%Ok_inj). by injection He as -> _.
    + apply rbind_Ok in He as (refused & _ & He). apply rbind_Ok in He as ([] & _ & He).
      apply rbind_Ok in He as (command & Hcmd & He). eapply other_command_steps; [done| |exact He].
      destruct (AuxiliarySpec.visible spec); [apply rbind_Ok in Hcmd as (p & _ & Hcmd)|];
        by apply Ok_inj in Hcmd as <-.
  - unfold begin_classification in He. apply rbind_Ok in He as (s0 & _ & He). apply rbind_Ok in He as (b & _ & He).
    apply rbind_Ok in He as ([] & _ & He). apply rbind_Ok in He as ([db1 s1] & Hc & He%Ok_inj). subst.
    by eapply other_command_steps in Hc.
  - unfold settle_failed_classification in He. apply rbind_Ok in He as (s0 & _ & He).
    case_bool_decide; [by apply Ok_inj in He as ->|]. apply rbind_Ok in He as ([db1 s1] & Hc & He%Ok_inj). subst.
    by eapply other_command_steps in Hc.
  - unfold record_auxiliary in He. apply rbind_Ok in He as (s0 & _ & He). apply rbind_Ok in He as (b & _ & He).
    apply rbind_Ok in He as (spec & _ & He). apply rbind_Ok in He as ([] & _ & He).
    apply rbind_Ok in He as (bytes & _ & He). apply rbind_Ok in He as ([a1 d] & _ & He).
    destruct (SessionState.operations s0 !! operation).
    + apply rbind_Ok in He as (f & _ & He). case_bool_decide; [|done]. apply Ok_inj in He. by injection He as -> _.
    + apply rbind_Ok in He as (accounting & _ & He). do 3 (apply rbind_Ok in He as ([] & _ & He)).
      apply rbind_Ok in He as (accounting' & _ & He). apply rbind_Ok in He as ([db1 s1] & Hc & He%Ok_inj).
      injection He as <- _. by eapply other_command_steps in Hc.
Qed.

Lemma start_steps db a fresh now session operation request limits contract intake prepared db' s task created :
  sessions_ok db →
  start_record now_ms db a fresh now session operation request limits contract intake prepared
    = Ok (db', s, task, created) → rtc session_step db db'.
Proof.
  intros Hok. unfold start_record. intros ([s0 h0] & Hl & Hc)%rbind_Ok.
  destruct (SessionState.tasks_by_request s0 !! operation).
  + apply rbind_Ok in Hc as ([t0 th] & _ & Hc). apply rbind_Ok in Hc as (row & _ & Hc).
    apply rbind_Ok in Hc as (first & _ & Hc). destruct (same_start _ _ _ _ _ _); [|done].
    apply Ok_inj in Hc. by injection Hc as -> _ _ _.
  + apply rbind_Ok in Hc as ([] & _ & Hc). apply rbind_Ok in Hc as ([t t0] & _ & Hc).
    apply rbind_Ok in Hc as ([db1 s1] & Ha & Hc%Ok_inj).
    injection Hc as <- _ _ _. by eapply tables_started_steps.
Qed.

Lemma resume_steps db a now session operation id revision reason db' s task created :
  sessions_ok db →
  resume_task_record now_ms db a now session operation id revision reason = Ok (db', s, task, created) →
  rtc session_step db db'.
Proof.
  intros Hok. unfold resume_task_record. intros ([] & _ & Hc)%rbind_Ok.
  apply rbind_Ok in Hc as ([s0 h0] & Hl & Hc). apply rbind_Ok in Hc as ([t0 th] & _ & Hc).
  destruct (SessionState.tasks_by_request s0 !! operation).
  + apply rbind_Ok in Hc as ([] & _ & Hc). apply rbind_Ok in Hc as (d & _ & Hc).
    apply rbind_Ok in Hc as ([] & _ & Hc%Ok_inj). by injection Hc as -> _ _ _.
  + do 2 (apply rbind_Ok in Hc as ([] & _ & Hc)). apply rbind_Ok in Hc as ([t t1] & _ & Hc).
    apply rbind_Ok in Hc as ([db1 s1] & Ha & Hc%Ok_inj). injection Hc as <- _ _ _.
    by eapply tables_started_steps.
Qed.

Lemma pin_steps db a id profile db' s :
  sessions_ok db → pin_session_admission now_ms db a id profile = Ok (db', s) → rtc session_step db db'.
Proof.
  intros Hok. unfold pin_session_admission. intros ([] & _ & Hc)%rbind_Ok. apply rbind_Ok in Hc as (s0 & _ & Hc).
  destruct (SessionState.admission s0).
  + case_bool_decide; [|done]. apply Ok_inj in Hc. by injection Hc as -> ->.
  + apply rbind_Ok in Hc as ([] & _ & Hc). apply rbind_Ok in Hc as (d & _ & Hc). by eapply other_command_steps in Hc.
Qed.

Lemma save_steps db a session request task db' s :
  sessions_ok db → save_task_workspace now_ms db a session request task = Ok (db', s) → rtc session_step db db'.
Proof.
  intros Hok. unfold save_task_workspace. intros (s0 & _ & Hc)%rbind_Ok. apply rbind_Ok in Hc as ([t0 h0] & _ & Hc).
  destruct (match TaskState.workspace_origin t0 with Some _ => _ | None => _ end);
    [destruct (TaskState.candidate t0)|]; try (apply Ok_inj in Hc; by injection Hc as -> ->).
  destruct (_ || _); [apply Ok_inj in Hc; by injection Hc as -> ->|]. by eapply other_command_steps in Hc.
Qed.

Lemma publish_auxiliary_steps db a session request status text error db' a' digest :
  sessions_ok db → publish_auxiliary now_ms db a session request status text error = Ok (db', a', digest) →
  rtc session_step db db'.
Proof.
  intros Hok. unfold publish_auxiliary. intros (s & _ & He)%rbind_Ok. apply rbind_Ok in He as (b & _ & He).
  destruct (Submission.intent b); try done.
  - apply rbind_Ok in He as (ready & _ & He). apply rbind_Ok in He as ([] & _ & He). by eapply publish_steps.
  - apply rbind_Ok in He as ([] & _ & He). by eapply publish_steps.
Qed.

Lemma session_operation_steps db db' : sessions_ok db → session_operation db db' → rtc session_step db db'.
Proof.
  intros Hok Hop. destruct Hop; try (eapply auxiliary_steps; [done|by eauto 20]);
    eauto using create_session_steps, other_command_steps, pin_steps, save_steps, start_steps, resume_steps,
      submit_steps, edit_steps, move_steps, status_steps, continue_steps, begin_shell_steps, finish_shell_steps,
      publish_auxiliary_steps.
  subst. apply rtc_once, step_tables.
Qed.

Lemma operations_steps db db' : sessions_ok db → rtc session_operation db db' → rtc session_step db db'.
Proof.
  intros Hok Hops. induction Hops as [|db db1 db' Hop _ IH]; [done|].
  pose proof (session_operation_steps _ _ Hok Hop) as Hs. etransitivity; [exact Hs|].
  apply IH. by eapply session_steps_ok.
Qed.

Lemma operated_ok db : operated db → sessions_ok db.
Proof.
  intros Hr. apply (session_steps_ok empty_sdb); [|apply empty_sessions_ok].
  by apply operations_steps; [apply empty_sessions_ok|].
Qed.
End operations.
