(* ===== verification/SessionGuarantees.v ===== *)
(** * What the session journal guarantees

    Databases the operations lead to hold well-formed sessions whose past never
    changes. Then the promises a caller relies on: retries are harmless, late results
    and made-up outcomes are refused, a fragmented result is the result, history is
    read within a branch, and a certain cost is exact. *)

From S2P Require Import Prelude Digest Contract State Artifacts Workspace Input ArtifactGraph Journal Store.
From S2P Require Import Cost Conversation Admission Session Context SessionStore SessionCommands Queue.
From S2P Require Import Verification ContractAdmission Submissions Shell Auxiliary SessionSteps.

Section operations.
Context {SHA : Sha256} {SER : StoreSerde} {SES : SessionSerde} {HOST : Host} {TURN : TurnSerde} {OK : SessionSerdeOk}.
Implicit Types (db : SessionDb) (s : SessionState.t) (a : ArtifactStore.t).
Variable now_ms : N → N.

(** ** Properties *)

Lemma commit_operation s operation command s' :
  Apply.commit s operation command = Ok s' →
  ∃ d, of_value command = Some d ∧ SessionState.operations s' !! operation = Some d.
Proof.
  unfold Apply.commit. intros (d & Hd%ok_or_Ok & Hc%Ok_inj)%rbind_Ok. exists d. split; [done|]. rewrite <-Hc.
  match goal with |- context [bool_decide ?P] => destruct (bool_decide P) end; cbn; apply lookup_insert_eq.
Qed.

Lemma commit_keeps s operation command s' :
  Apply.commit s operation command = Ok s' →
  SessionState.history s' = SessionState.history s ∧ SessionState.tool_calls s' = SessionState.tool_calls s ∧
  SessionState.tool_output_buffers s' = SessionState.tool_output_buffers s ∧
  SessionState.active_request s' = SessionState.active_request s.
Proof.
  unfold Apply.commit. intros (d & _ & Hc%Ok_inj)%rbind_Ok. rewrite <-Hc.
  by match goal with |- context [bool_decide ?P] => destruct (bool_decide P) end.
Qed.

(** What a tool's result does to the conversation. *)
Record result_recorded s s' (call_id output : string) : Prop := {
  rr_history : SessionState.history s' = SessionState.history s ++ [call_output call_id output];
  rr_calls : SessionState.tool_calls s' =
    alter (λ c, c <| RecordedToolCall.output := Some (digest_of output) |>) call_id (SessionState.tool_calls s);
  rr_buffers : SessionState.tool_output_buffers s' = SessionState.tool_output_buffers s;
  rr_active : SessionState.active_request s' = SessionState.active_request s;
}.

(** Whole or in parts, the stored result is the result, under its own operation. *)
Lemma append_tool_result db id n s h operation request call_id output db' s' h' :
  held db id n s h → SessionState.tool_output_buffers s !! call_id = None →
  append_session now_ms db s h operation (SessionCommand.ToolResult request call_id output) = Ok (db', s', h') →
  result_recorded s s' call_id output ∧
  ∃ d, of_value (SessionCommand.ToolResult request call_id output) = Some d ∧
    SessionState.operations s' !! operation = Some d.
Proof.
  intros Hh Hnone Ha. pose proof (append_session_total now_ms db s h operation
    (SessionCommand.ToolResult request call_id output)) as Ht. rewrite Ha in Ht. clear Ha.
  unfold append_session_command in Ht. destruct (to_vec _) as [bytes|] eqn:Hb; [|done].
  destruct (N.ltb_spec MAX_EVENT_BYTES (str_len bytes)) as [Hlt|Hle].
  - destruct (append_parts _ _ _ _ _ _ _ _ _ _) as [[[[db1 s1] h1]|]|] eqn:Hparts; cbn in Ht; try done.
    injection Ht as Hend.
    apply (append_parts_inv now_ms (λ offset t, buffering s t request call_id (String.substring 0 offset output)))
      with (id := id) (n := n) in Hparts as (n1 & Hg1 & Hbuf); [| |done| |lia].
    2: { intros t offset k op t' HP Hk Hlen Hrev Hap. by eapply apply_part. }
    2: { replace (String.substring 0 0 output) with "" by (by destruct output). by split. }
    rewrite substring_full in Hbuf.
    apply (append_whole_grown now_ms db1 id n1) in Hend as [Hap _]; [|by apply Hg1|done].
    destruct (apply_end _ _ _ _ _ _ _ Hbuf Hnone Hap) as (? & ? & ? & ? & ?). split; [by split|done].
  - injection Ht as Hw. destruct (write_grown _ _ _ _ _ _ (SessionCommand.ToolResult request call_id output) _ _ _ _ _ Hh I Hb Hle Hw) as [Hap _].
    unfold session_apply, Apply.apply in Hap. cbn [Apply.effect Apply.logical_command] in Hap.
    apply rbind_Ok in Hap as (s1 & Hs1%Ok_inj & Hc). split; [|by eapply commit_operation].
    apply commit_keeps in Hc as (E1 & E2 & E3 & E4). by split; rewrite ?E1, ?E2, ?E3, ?E4, <-Hs1.
Qed.

(** A result that is sent whole does not follow loose parts of its call. *)
Definition unobstructed s (command : SessionCommand.t) : Prop :=
  match command with
  | SessionCommand.ToolResult _ call_id _ => SessionState.tool_output_buffers s !! call_id = None
  | _ => True
  end.
(** The command an operation stands for once [command] has succeeded under it: the command
    itself, or, for the end of a result that came in parts, the whole result. *)
Definition stands_for s (operation : Uuid) (command : SessionCommand.t) : SessionCommand.t :=
  match SessionState.operations s !! operation with
  | Some _ => command
  | None => Apply.logical_command s command
  end.

Lemma append_operation db id n s h operation command db' s' h' :
  held db id n s h → unobstructed s command →
  append_session now_ms db s h operation command = Ok (db', s', h') →
  ∃ d, of_value (Apply.logical_command s command) = Some d ∧ SessionState.operations s' !! operation = Some d.
Proof.
  intros Hh Hr Ha. destruct (is_tool_result command) eqn:Hc.
  { destruct command; try done. by eapply append_tool_result. }
  apply append_session_apply in Ha; [|done]. unfold session_apply, Apply.apply in Ha.
  apply rbind_Ok in Ha as (s1 & _ & Ha). by eapply commit_operation.
Qed.

Lemma turn_settled_apply s operation request outcome error s' :
  session_apply s operation (SessionCommand.TurnSettled request outcome error) = Ok s' →
  SessionState.active_request s' = None ∧ SessionState.outcome s' = outcome.
Proof.
  unfold session_apply, Apply.apply, Apply.commit. intros (s1 & He%Ok_inj & Hc)%rbind_Ok.
  apply rbind_Ok in Hc as (d & _ & Hc%Ok_inj). rewrite <-Hc, <-He.
  by match goal with |- context [bool_decide ?P] => destruct (bool_decide P) end.
Qed.

(** C2: a session the operations of the store lead to loads, to a well-formed state of
    its identifier; every past revision loads too, to the state of that revision, and
    a later one only adds to its history. *)
Theorem operated_sessions_sound db id :
  operated now_ms db → is_Some (sessions db !! id) →
  ∃ s h, load_session_state db id None = Ok (s, h) ∧ SessionState.id s = id ∧ session_ok s ∧
    ∀ r r', (1 ≤ r ≤ r')%N → (r' ≤ SessionState.revision s)%N →
      ∃ sr hr tr kr, load_session_state db id (Some r) = Ok (sr, hr) ∧
        load_session_state db id (Some r') = Ok (tr, kr) ∧ SessionState.revision sr = r ∧ extends sr tr.
Proof.
  intros Hop Hs. destruct (so_held _ (operated_ok now_ms _ Hop) _ Hs) as (n & s & h & Hh).
  destruct (held_identity _ _ _ _ _ Hh) as (Hid & Hrev & _). exists s, h.
  split_and!; [by eapply held_load|done|by apply Hh|]. rewrite Hrev. apply Hh.
Qed.

(** a cursor denotes the same session state for ever, whatever the store does
    after it was taken. *)
Theorem cursors_immutable db db' cursor s :
  operated now_ms db → rtc (session_operation now_ms) db db' → load_session_cursor db cursor = Ok s →
  load_session_cursor db' cursor = Ok s.
Proof.
  intros Hop Hops Hl. pose proof (operated_ok now_ms _ Hop) as Hok. unfold load_session_cursor in *.
  apply rbind_Ok in Hl as ([] & -> & Hl). cbn [rbind]. apply rbind_Ok in Hl as ([t h] & Hl & Ht).
  pose proof Hl as Hl'. unfold load_session_state in Hl. apply rbind_Ok in Hl as (row & Hrow%ok_or_Ok & Hl).
  destruct (so_held _ Hok (SessionCursor.session cursor)) as (n & s0 & h0 & Hh); [by eexists|].
  apply rbind_Ok in Hl as (current & Hcur%ok_or_Ok & Hl). cbn [default from_option Datatypes.id] in Hl.
  apply rbind_Ok in Hl as ([] & [_ Hle%N.ltb_ge]%reject_if_Ok%orb_false_iff & _).
  assert (current = n) as ->.
  { destruct Hh as [[(b & _ & Hr) _ _ _ _ _] _ _ _]. rewrite Hrow in Hr. injection Hr as ->.
    cbn [TaskRow.revision] in Hcur. rewrite u64_try_from_of_N in Hcur. by injection Hcur. }
  destruct (session_steps_past _ _ _ _ _ _ (operations_steps now_ms _ _ Hok Hops) Hok Hh) as (_ & _ & _ & _ & _ & _ & Hpast).
  by rewrite (Hpast _ Hle), Hl'.
Qed.

(** C9: the result of a tool is recorded as one output of its call, under the digest of
    the whole result, whether its event fits a row or is stored as parts; the session
    the tables hold after it is the one returned. *)
Theorem tool_result_stored_whole db id s h operation request call_id output db' s' h' :
  operated now_ms db → load_session_state db id None = Ok (s, h) →
  SessionState.tool_output_buffers s !! call_id = None →
  append_session now_ms db s h operation (SessionCommand.ToolResult request call_id output) = Ok (db', s', h') →
  result_recorded s s' call_id output ∧ load_session_state db' id None = Ok (s', h') ∧
  SessionState.operations s' !! operation = of_value (SessionCommand.ToolResult request call_id output).
Proof.
  intros Hop Hl Hnone Ha. apply (sessions_ok_load _ _ _ _ (operated_ok now_ms _ Hop)) in Hl.
  destruct (append_tool_result _ _ _ _ _ _ _ _ _ _ _ _ Hl Hnone Ha) as (Hr & d & Hd & Ho).
  destruct (append_session_step now_ms _ _ _ _ _ _ (SessionCommand.ToolResult request call_id output) _ _ _ Hl I Ha)
    as (_ & n' & [Hh' _ _ _ _]).
  split_and!; [done|by eapply held_load|congruence].
Qed.

(** C7: A command may be sent again: under the same operation it changes nothing and
    returns the same session, at whatever revision, and any other command is refused
    under that operation. The end of a result that came in parts counts as the whole
    result, so that this is what may be sent again; a result that is sent whole must not
    follow loose parts of its own call. *)
Theorem session_retry_idempotent db a id revision operation command db' s s' a' revision' :
  operated now_ms db → load_session db id = Ok s → unobstructed s command →
  session_command now_ms db a id revision operation command = Ok (db', s') →
  session_command now_ms db' a' id revision' operation (stands_for s operation command) = Ok (db', s') ∧
  ∀ other d, of_value other = Some d → of_value (stands_for s operation command) ≠ Some d →
    session_command now_ms db' a' id revision' operation other
      = Err (StoreError.Invalid "command ID reused with different input").
Proof.
  intros Hop Hs Hr Hc. pose proof (operated_ok now_ms _ Hop) as Hok.
  assert (∃ h' d, load_session_state db' id None = Ok (s', h') ∧ of_value (stands_for s operation command) = Some d ∧
    SessionState.operations s' !! operation = Some d) as (h' & d & Hl' & Hd & Ho).
  { destruct (session_command_Ok now_ms _ _ _ _ _ _ _ _ Hok Hc) as (s1 & h & d & Hl & Hd & Hcases).
    unfold load_session in Hs. rewrite Hl in Hs. injection Hs as ->. unfold stands_for.
    destruct Hcases as [(Ho & -> & ->)|(Hnone & _ & _ & Hg & _ & n' & h' & Ha & [Hh' _ _ _ _])].
    { exists h, d. by rewrite Ho. }
    rewrite Hnone. apply (sessions_ok_load _ _ _ _ Hok) in Hl.
    destruct (append_operation _ _ _ _ _ _ _ _ _ _ Hl Hr Ha) as (d' & Hd' & Ho).
    exists h', d'. split_and!; [by eapply held_load|done..]. }
  unfold session_command. rewrite Hl'. cbn [rbind]. rewrite Hd. cbn [ok_or rbind]. rewrite Ho.
  rewrite bool_decide_eq_true_2 by done. split; [done|]. intros other e He Hne. rewrite He. cbn [ok_or rbind].
  rewrite bool_decide_eq_false_2 by congruence. done.
Qed.

(** C8: a session settles with the outcome of a task only if that task, the one of the
    active request, has exactly that outcome in its own journal. *)
Theorem session_outcomes_not_manufactured db a id revision operation request outcome error db' s s' :
  operated now_ms db → load_session db id = Ok s → SessionState.operations s !! operation = None →
  session_command now_ms db a id revision operation (SessionCommand.TurnSettled request (Some outcome) error)
    = Ok (db', s') →
  SessionState.active_request s = Some request ∧
  (∃ task t h, SessionState.tasks_by_request s !! request = Some task ∧
    load_state (tables db) task = Ok (t, h) ∧ TaskState.outcome t = Some outcome) ∧
  extends s s' ∧ SessionState.active_request s' = None ∧ SessionState.outcome s' = Some outcome.
Proof.
  intros Hop Hs Ho Hc. pose proof (operated_ok now_ms _ Hop) as Hok.
  destruct (session_command_Ok now_ms _ _ _ _ _ _ _ _ Hok Hc) as (s1 & h & d & Hl & _ & [(Ho' & _)|Hn]);
    unfold load_session in Hs; rewrite Hl in Hs; injection Hs as ->; [congruence|].
  destruct Hn as (_ & _ & Hown & Hg & _ & n' & h' & Ha & Hgr).
  apply reject_if_Ok, bool_decide_eq_false in Hown. cbn [guard] in Hg.
  apply rbind_Ok in Hg as (task & Ht%ok_or_Ok & Hg). apply rbind_Ok in Hg as ([t th] & Hload & Hout).
  apply reject_if_Ok, bool_decide_eq_false in Hout.
  apply append_session_apply in Ha; [|done]. apply turn_settled_apply in Ha as Hset.
  split_and!; [by destruct (decide (SessionState.active_request s = Some request))| |by apply Hgr|apply Hset|apply Hset].
  exists task, t, th. split_and!; [done..|]. by destruct (decide (TaskState.outcome t = Some outcome)).
Qed.
End operations.

(** ** Ancestry and cost *)

Section reading.
Context {SHA : Sha256} {SER : StoreSerde} {SES : SessionSerde} {HOST : Host}.
Implicit Types (db : SessionDb) (s : SessionState.t).

(** [t] is [s] or a state one of the cursors of its ancestry denotes. *)
Inductive ancestor db : SessionState.t → SessionState.t → Prop :=
| ancestor_self s : ancestor db s s
| ancestor_parent s cursor p t :
    SessionState.parent s = Some cursor → load_session_cursor db cursor = Ok p → ancestor db p t →
    ancestor db s t.

Lemma scoped_loop_ancestor n db scope source revision s :
  scoped_loop n db scope source revision = Ok s →
  ∃ t, ancestor db scope t ∧ SessionState.id t = source ∧
    (default (SessionState.revision t) revision ≤ SessionState.revision t)%N ∧
    load_session_cursor db (SessionCursor.mk 1 source (default (SessionState.revision t) revision)) = Ok s.
Proof.
  revert scope. induction n as [|n IH]; intros scope; cbn [scoped_loop]; [done|].
  destruct (N.eqb_spec (SessionState.id scope) source) as [Hid|Hid].
  - intros ([] & Hle%reject_if_Ok%N.ltb_ge & Hl)%rbind_Ok. exists scope. split_and!; [constructor|done..].
  - intros (cursor & Hp%ok_or_Ok & Hr)%rbind_Ok. apply rbind_Ok in Hr as (p & Hl & Hr).
    destruct (IH p Hr) as (t & Ha & Ht). exists t. split; [|done]. by eapply ancestor_parent.
Qed.

(** history is read only within a branch: the state returned belongs to the actor's
    session or one of its ancestors, and is not later than what the branch inherited
    from it. *)
Theorem scoped_history_within_branch db actor source revision s :
  scoped_history db actor source revision = Ok s →
  ∃ own t, load_session db actor = Ok own ∧ ancestor db own t ∧ SessionState.id t = source ∧
    (default (SessionState.revision t) revision ≤ SessionState.revision t)%N ∧
    load_session_cursor db (SessionCursor.mk 1 source (default (SessionState.revision t) revision)) = Ok s.
Proof.
  unfold scoped_history. intros (own & Hl & Hs)%rbind_Ok.
  destruct (scoped_loop_ancestor _ _ _ _ _ _ Hs) as (t & ?). by exists own, t.
Qed.

(** [t] is reached from [s] by loading parents. *)
Inductive descends db : SessionState.t → SessionState.t → Prop :=
| descends_self s : descends db s s
| descends_parent s cursor p t :
    SessionState.parent s = Some cursor → load_session db (SessionCursor.session cursor) = Ok p →
    descends db p t → descends db s t.

Lemma lineage_loop_spec fuel db : ∀ lineage s (visited : gset Uuid),
  visited ⊆ dom (sessions db) → size (dom (sessions db)) < size visited + fuel →
  ∃ r, lineage_loop fuel db lineage s visited = Some r ∧
    ∀ root, r = Ok root → (root = lineage ∧ SessionState.parent s = None) ∨
      ∃ t, load_session db root = Ok t ∧ SessionState.parent t = None ∧ descends db s t.
Proof.
  induction fuel as [|fuel IH]; intros lineage s visited Hsub Hlt; cbn [lineage_loop];
    destruct (SessionState.parent s) as [parent|] eqn:Hp.
  - apply subseteq_size in Hsub. lia.
  - eexists. split; [done|]. intros root [= ->]. by left.
  - case_bool_decide as Hin; [eexists; split; done|].
    destruct (load_session db _) as [p|e] eqn:Hl; [|eexists; split; done].
    pose proof (load_session_in _ _ _ Hl) as Hd.
    destruct (IH (SessionCursor.session parent) p ({[SessionCursor.session parent]} ∪ visited)) as (r & Hr & Hroot).
    { set_solver. }
    { rewrite size_union by set_solver. rewrite size_singleton. lia. }
    exists r. split; [done|]. intros root Hok. right. destruct (Hroot root Hok) as [[-> Hn]|(t & Ht & Hn & Hdesc)].
    + exists p. split_and!; [done..|]. eapply descends_parent; [done..|constructor].
    + exists t. split_and!; [done..|]. by eapply descends_parent.
  - eexists. split; [done|]. intros root [= ->]. by left.
Qed.

(** the search for the root of a session's ancestry ends for every database, cyclic
    ones included; what it returns is a session without a parent that the session
    descends from. *)
Theorem prompt_cache_lineage_terminates db id :
  ∃ r, prompt_cache_lineage db id = Some r ∧
    ∀ root, r = Ok root → ∃ s t, load_session db id = Ok s ∧ load_session db root = Ok t ∧
      SessionState.parent t = None ∧ descends db s t.
Proof.
  unfold prompt_cache_lineage. destruct (load_session db id) as [s|e] eqn:Hl; [|eexists; split; done].
  destruct (lineage_loop_spec (size (sessions db)) db id s {[id]}) as (r & Hr & Hroot).
  { apply load_session_in in Hl. set_solver. }
  { rewrite size_dom, size_singleton. lia. }
  exists r. split; [done|]. intros root Hok. destruct (Hroot root Hok) as [[-> Hn]|(t & ?)].
  - exists s, s. split_and!; [done..|constructor].
  - exists s, t. naive_solver.
Qed.

(** *** Cost *)

(** What the loop knows while nothing is uncertain. *)
Record cost_known (commands : list SessionCommand.t) (usage_calls : gset Uuid)
    (receipts : gmap Uuid (option UsdCost)) : Prop := {
  ck_usage request call usage representation :
    SessionCommand.ProviderUsage request call usage representation ∈ commands →
    ∃ c, call = Some c ∧ c ∈ usage_calls;
  ck_receipts c x : receipts !! c = Some x ↔ ∃ request, SessionCommand.ProviderCost request c x ∈ commands;
}.

Lemma cost_step_uncertain acc command : acc.2 = true → (cost_step acc command).2 = true.
Proof.
  destruct acc as [[usage receipts] u]. cbn. intros ->. destruct command; try done; cbn.
  - by destruct call.
  - by destruct (receipts !! call); [case_bool_decide|].
Qed.

Lemma cost_loop_uncertain commands acc : acc.2 = true → (foldl cost_step acc commands).2 = true.
Proof. revert acc. induction commands; intros acc Hu; [done|]. cbn. by apply IHcommands, cost_step_uncertain. Qed.

Lemma cost_known_step done_ command usage receipts usage' receipts' :
  cost_known done_ usage receipts → cost_step (usage, receipts, false) command = (usage', receipts', false) →
  cost_known (done_ ++ [command]) usage' receipts'.
Proof.
  intros [Hu Hr] Hs.
  assert (Hframe : (∀ q c u r, command ≠ SessionCommand.ProviderUsage q c u r) →
    (∀ q c x, command ≠ SessionCommand.ProviderCost q c x) → cost_known (done_ ++ [command]) usage receipts).
  { intros Hnu Hnr. split.
    - intros q c u r [Hin|Hin%list_elem_of_singleton]%elem_of_app; [by eapply Hu|by edestruct Hnu].
    - intros c x. rewrite Hr. split; intros [q Hq]; exists q; [by apply elem_of_app; left|].
      apply elem_of_app in Hq as [?|Hq%list_elem_of_singleton]; [done|by edestruct Hnr]. }
  destruct command; cbn in Hs; try (injection Hs as <- <-; by apply Hframe); clear Hframe.
  - destruct call as [c0|]; [|done]. injection Hs as <- <-. split.
    + intros q c u r [Hin|Hin%list_elem_of_singleton]%elem_of_app.
      * destruct (Hu _ _ _ _ Hin) as (c1 & -> & ?). exists c1. set_solver.
      * injection Hin as _ -> _ _. exists c0. set_solver.
    + intros c x. rewrite Hr. split; intros [q Hq]; exists q; [by apply elem_of_app; left|].
      by apply elem_of_app in Hq as [?|Hq%list_elem_of_singleton].
  - destruct (receipts !! call) as [previous|] eqn:Hc.
    + case_bool_decide as Hp; [done|]. injection Hs as <- <-. subst. split.
      * intros q c u r [Hin|Hin%list_elem_of_singleton]%elem_of_app; [by eapply Hu|done].
      * intros c x. rewrite Hr. split; intros [q Hq]; [exists q; by apply elem_of_app; left|].
        apply elem_of_app in Hq as [?|Hq%list_elem_of_singleton]; [by exists q|]. injection Hq as -> -> ->. by apply Hr.
    + injection Hs as <- <-. split.
      * intros q c u r [Hin|Hin%list_elem_of_singleton]%elem_of_app; [by eapply Hu|done].
      * intros c x. rewrite lookup_insert_Some, Hr. split.
        -- intros [[-> ->]|[_ [q Hq]]]; [exists request|exists q]; apply elem_of_app; [right|by left].
           by apply list_elem_of_singleton.
        -- intros [q [Hq|Hq%list_elem_of_singleton]%elem_of_app].
           ++ right. split; [|by exists q]. intros <-. assert (receipts !! call = Some x) by (apply Hr; by exists q).
              congruence.
           ++ injection Hq as _ -> ->. by left.
Qed.

Lemma cost_known_loop commands : ∀ done_ usage receipts usage' receipts',
  cost_known done_ usage receipts → foldl cost_step (usage, receipts, false) commands = (usage', receipts', false) →
  cost_known (done_ ++ commands) usage' receipts'.
Proof.
  induction commands as [|command commands IH]; intros done_ usage receipts usage' receipts' Hk.
  { intros [= <- <-]. by rewrite app_nil_r. }
  cbn [foldl]. destruct (cost_step _ command) as [[u1 r1] b] eqn:Hs. intros Hl. destruct b.
  { pose proof (cost_loop_uncertain commands (u1, r1, true) eq_refl) as Ht. by rewrite Hl in Ht. }
  rewrite cons_middle, app_assoc. eapply IH; [|exact Hl]. by eapply cost_known_step.
Qed.

Definition sum_costs (l : list UsdCost) : UsdCost := foldr N.add 0%N l.

Lemma add_costs_uncertain l total : (foldl add_cost (total, true) l).2 = true.
Proof. revert total. induction l as [|x l IH]; intros total; [done|]. cbn. unfold add_cost at 2. destruct (_ ≫= _); apply IH. Qed.

Lemma add_costs_exact l : ∀ total total',
  foldl add_cost (total, false) l = (total', false) →
  ∃ costs, l = Some <$> costs ∧ total' = (total + sum_costs costs)%N.
Proof.
  induction l as [|x l IH]; intros total total'.
  { intros [= <-]. exists []. split; [done|]. cbn. by rewrite N.add_0_r. }
  cbn [foldl]. unfold add_cost at 2. cbn [fst snd]. destruct (x ≫= UsdCost.checked_add total) as [next|] eqn:Hx.
  - destruct x as [x|]; [|done]. cbn in Hx. unfold UsdCost.checked_add, u128_checked_add in Hx.
    destruct (_ <=? _)%N; [|done]. injection Hx as <-. intros Hl. destruct (IH _ _ Hl) as (costs & -> & ->).
    exists (x :: costs). split; [done|]. cbn. apply eq_sym, N.add_assoc.
  - intros Hl. pose proof (add_costs_uncertain l total) as Hu. by rewrite Hl in Hu.
Qed.

(** a cost reported as certain is exact: every call with usage has a receipt, the
    receipts of a call agree and name a cost, and the total adds up each call once. *)
Theorem session_cost_exact commands :
  ProviderCostSummary.uncertain (cost_of commands) = false →
  (∀ request call usage representation,
     SessionCommand.ProviderUsage request call usage representation ∈ commands →
     ∃ c request' x, call = Some c ∧ SessionCommand.ProviderCost request' c (Some x) ∈ commands) ∧
  (∀ request c x, SessionCommand.ProviderCost request c x ∈ commands → is_Some x) ∧
  ∃ calls costs, NoDup calls ∧ ProviderCostSummary.total (cost_of commands) = sum_costs costs ∧
    length calls = length costs ∧
    ∀ c x, (c, x) ∈ zip calls costs ↔ ∃ request, SessionCommand.ProviderCost request c (Some x) ∈ commands.
Proof.
  unfold cost_of. destruct (foldl cost_step _ commands) as [[usage receipts] u] eqn:Hl.
  destruct (foldl add_cost _ _) as [total u'] eqn:Ha. cbn [ProviderCostSummary.uncertain ProviderCostSummary.total].
  intros ->. destruct (u || _) eqn:Hu.
  { pose proof (add_costs_uncertain (btree_values receipts) UsdCost.ZERO) as Ht. by rewrite Ha in Ht. }
  apply orb_false_iff in Hu as [-> Hsub%negb_false_iff%bool_decide_eq_true].
  apply (cost_known_loop _ []) in Hl as [Hk Hr].
  2: { split; [by intros ???? ?%not_elem_of_nil|]. intros c x. rewrite lookup_empty.
       split; [done|by intros [? ?%not_elem_of_nil]]. }
  cbn [app] in Hk, Hr. apply add_costs_exact in Ha as (costs & Hcosts & Htotal).
  assert (Hsome : ∀ c x, receipts !! c = Some x → is_Some x).
  { intros c x Hc. assert (x ∈ btree_values receipts) as Hin by (apply elem_of_btree_values; eauto).
    rewrite Hcosts in Hin. apply list_elem_of_fmap in Hin as (y & -> & _). by eexists. }
  split_and!.
  - intros q call w r Hin. destruct (Hk _ _ _ _ Hin) as (c & -> & Hc). apply Hsub, elem_of_dom in Hc as [x Hx].
    destruct (Hsome c x Hx) as [y ->]. apply Hr in Hx as [q' Hq]. by exists c, q', y.
  - intros q c x Hin. apply (Hsome c). apply Hr. by exists q.
  - exists (btree_keys receipts), costs. split_and!; [apply NoDup_btree_keys|done| |].
    + apply (f_equal length) in Hcosts. rewrite length_fmap in Hcosts. rewrite <-Hcosts.
      unfold btree_keys, btree_values. by rewrite !length_fmap.
    + intros c x. rewrite <-Hr, <-elem_of_btree_iter.
      assert (btree_iter receipts = zip (btree_keys receipts) (Some <$> costs)) as ->.
      { rewrite <-Hcosts. unfold btree_keys, btree_values. by rewrite zip_fst_snd. }
      rewrite zip_with_fmap_r. split.
      * intros Hin. apply elem_of_lookup_zip_with in Hin as (i & a & b & [= <- <-] & H1 & H2).
        apply elem_of_lookup_zip_with. by exists i, c, x.
      * intros Hin. apply elem_of_lookup_zip_with in Hin as (i & a & b & [= <- <-] & H1 & H2).
        apply elem_of_lookup_zip_with. by exists i, c, x.
Qed.
End reading.
