(* ===== verification/SessionWitnesses.v ===== *)
(** * A session at work

    A concrete run of the session store, at which the theorems of
    [SessionGuarantees] apply: a session is created, takes a request, links a task,
    receives a response with a tool call, records the tool's result and settles with
    the outcome of its task. The codecs of events and states are tables of those of
    the run, which is all the laws ask. *)

From S2P Require Import Prelude Digest Codec Contract State Artifacts Workspace Input ArtifactGraph Journal.
From S2P Require Import Codecs Replay Store JsonValue Cost Conversation Admission Session Context.
From S2P Require Import Representation SessionStore SessionCommands Queue Verification ContractAdmission.
From S2P Require Import Submissions Shell Auxiliary SessionSteps SessionGuarantees.

#[local] Existing Instance checksum_sha256.

(** ** Equality of events and states *)

#[local] Instance TransitionProposal_eq_dec : EqDecision TransitionProposal.t.
Proof. solve_decision. Defined.
#[local] Instance ContextTransition_eq_dec : EqDecision ContextTransition.t.
Proof. solve_decision. Defined.
#[local] Instance ContextView_eq_dec : EqDecision ContextView.t.
Proof. solve_decision. Defined.
#[local] Instance Spawn_eq_dec : EqDecision Child.Spawn.
Proof. solve_decision. Defined.
#[local] Instance Message_eq_dec : EqDecision Child.Message.
Proof. solve_decision. Defined.
#[local] Instance ChildOutcome_eq_dec : EqDecision Child.Outcome.
Proof. solve_decision. Defined.
#[local] Instance ChildEvent_eq_dec : EqDecision Child.Event.
Proof. solve_decision. Defined.
#[local] Instance DeliveryEvent_eq_dec : EqDecision DeliveryEvent.t.
Proof. solve_decision. Defined.
#[local] Instance PairedInputTokens_eq_dec : EqDecision PairedInputTokens.t.
Proof. solve_decision. Defined.
#[local] Instance ModelUsage_eq_dec : EqDecision ModelUsage.t.
Proof. solve_decision. Defined.
#[local] Instance RepresentationObservation_eq_dec : EqDecision RepresentationObservation.t.
Proof. solve_decision. Defined.
#[local] Instance SessionCommand_eq_dec : EqDecision SessionCommand.t.
Proof. solve_decision. Defined.
#[local] Instance SessionCreation_eq_dec : EqDecision SessionCreation.t.
Proof. solve_decision. Defined.
#[local] Instance SessionEvent_eq_dec : EqDecision SessionEvent.t.
Proof. solve_decision. Defined.
#[local] Instance SessionState_eq_dec : EqDecision SessionState.t.
Proof. solve_decision. Defined.

(** ** Table codecs *)

Section table.
Context {A : Type} `{!EqDecision A}.
Variable table : list (string * A).

Definition table_to_vec (x : A) : option string :=
  fst <$> List.find (λ '(_, y), bool_decide (x = y)) table.
Definition table_from_slice (text : string) : option A :=
  snd <$> List.find (λ '(key, _), str_eqb key text) table.

Lemma NoDup_fst_inj (l : list (string * A)) (k : string) (x y : A) :
  NoDup l.*1 → (k, x) ∈ l → (k, y) ∈ l → x = y.
Proof.
  induction l as [|[k' z] l IH]; cbn; [by intros _ ?%not_elem_of_nil|].
  intros [Hk Hnd]%NoDup_cons H1 H2. rewrite !elem_of_cons in *. destruct H1 as [[= -> ->]|H1], H2 as [[=]|H2]; subst; try done.
  - destruct Hk. apply list_elem_of_fmap. by exists (k', y).
  - destruct Hk. apply list_elem_of_fmap. by exists (k', x).
  - by apply IH.
Qed.

Lemma table_ok x text : NoDup table.*1 → table_to_vec x = Some text → (text, x) ∈ table ∧ table_from_slice text = Some x.
Proof.
  unfold table_to_vec, table_from_slice. intros Hnd. destruct (List.find _ table) as [[key y]|] eqn:Hf; [|done].
  intros [= ->]. apply find_some in Hf as [Hin Hx%bool_decide_eq_true]. subst y.
  apply list_elem_of_In in Hin. split; [done|].
  destruct (List.find (λ '(key, _), str_eqb key text) table) as [[key' y]|] eqn:Hf'.
  - apply find_some in Hf' as [Hin'%list_elem_of_In Heq%bool_decide_eq_true]. subst key'. cbn. f_equal.
    symmetry. by apply (NoDup_fst_inj table text).
  - apply list_elem_of_In in Hin. by apply (find_none _ _ Hf' (text, x)), bool_decide_eq_false in Hin.
Qed.
End table.

(** ** The run *)

Definition demo_config : SessionConfig.t := SessionConfig.mk "/w" ModelSettings.default "Work." 272000.
Definition demo_creation : SessionCreation.t :=
  SessionCreation.mk SessionBranch.default demo_config (Some (demo_profile "a")) None [] 100 None.
Definition demo_call : Value :=
  VObject [("arguments", VString "{}"); ("call_id", VString "c1"); ("name", VString "read");
           ("type", VString "function_call")].
Definition demo_commands : list (Uuid * SessionCommand.t) := [
  (10%N, SessionCommand.Input Task [user_text "go"]);
  (11%N, SessionCommand.TaskLinked 10 7);
  (12%N, SessionCommand.Response 10 [demo_call]);
  (13%N, SessionCommand.ToolResult 10 "c1" "hi");
  (14%N, SessionCommand.TurnSettled 10 (Some Outcome.Blocked) None)].

Definition command_text (command : SessionCommand.t) : string :=
  match command with
  | SessionCommand.Input _ _ => "input"
  | SessionCommand.TaskLinked _ _ => "link"
  | SessionCommand.Response _ _ => "response"
  | SessionCommand.ToolResult _ _ output => "result:" +:+ output
  | SessionCommand.TurnSettled _ _ _ => "settled"
  | SessionCommand.Feedback message => "feedback:" +:+ message
  | _ => "other"
  end.
#[local] Instance demo_command_serde : Serde SessionCommand.t :=
  {| to_vec command := Some (command_text command); from_slice _ := None |}.
#[local] Instance demo_config_serde : Serde SessionConfig.t :=
  {| to_vec _ := Some "config"; from_slice _ := None |}.
#[local] Instance demo_host : Host := {|
  new_v5 := λ id name, (id + 1000 + str_len name)%N;
  uuid_text := u128_to_string;
  transition_text := λ _, None;
  is_dir := λ _, true;
  raw_event := λ _, None;
  raw_command := λ _, None;
|}.

Definition demo_events : list (string * SessionEvent.t) :=
  ("created", SessionEvent.Created demo_creation)
  :: ((λ '(operation, command), (command_text command, SessionEvent.Command operation command 5)) <$> demo_commands).

(** The states the commands lead through. *)
Fixpoint demo_trace (s : SessionState.t) (commands : list (Uuid * SessionCommand.t)) : list SessionState.t :=
  s :: match commands with
       | [] => []
       | (operation, command) :: commands =>
           match Apply.apply hook_id uuid_text s operation command with
           | Ok s => demo_trace s commands
           | Err _ => []
           end
       end.
Definition demo_states : list (string * SessionState.t) :=
  Eval vm_compute in zip ["s1"; "s2"; "s3"; "s4"; "s5"; "s6"] (demo_trace (create 1 demo_creation) demo_commands).

#[local] Instance demo_serde : SessionSerde := {|
  serde_sevent := {| to_vec := table_to_vec demo_events; from_slice := table_from_slice demo_events |};
  serde_sstate := {| to_vec := table_to_vec demo_states; from_slice := table_from_slice demo_states |};
  serde_command := demo_command_serde;
  serde_sconfig := demo_config_serde;
  serde_revision := codec_serde;
  serde_value := codec_serde;
  serde_request := codec_serde;
  serde_settings := codec_serde;
|}.

#[local] Instance demo_serde_ok : SessionSerdeOk.
Proof.
  split.
  - intros event bytes Hb. apply table_ok in Hb as [Hin Hf]; [|by apply (bool_decide_unpack _); vm_compute].
    etransitivity; [exact Hf|]. f_equal. clear Hf. unfold demo_events, demo_commands in Hin. cbn [fmap list_fmap] in Hin.
    repeat (apply elem_of_cons in Hin as [[= -> ->]|Hin]; [done|]). by apply not_elem_of_nil in Hin.
  - intros s bytes _ Hb. apply table_ok in Hb as [_ Hf]; [done|by apply (bool_decide_unpack _); vm_compute].
  - intros []; try done. by destruct view.
  - intros operation revision view projection at_ms bytes Hb.
    apply table_ok in Hb as [Hin _]; [|by apply (bool_decide_unpack _); vm_compute]. exfalso.
    unfold demo_events, demo_commands in Hin. cbn [fmap list_fmap] in Hin.
    repeat (apply elem_of_cons in Hin as [[=]|Hin]). by apply not_elem_of_nil in Hin.
Qed.

(** The run has no turns of these kinds. *)
#[local] Instance demo_turn_serde : TurnSerde := {|
  serde_policy := {| to_vec _ := None; from_slice _ := None |};
  serde_shell_report := {| to_vec _ := None; from_slice _ := None |};
  serde_auxiliary_record := {| to_vec _ := None; from_slice _ := None |};
  serde_auxiliary_report := {| to_vec _ := None; from_slice _ := None |};
|}.

(** The tables of a task that is blocked. *)
Definition demo_tables : Db :=
  Eval vm_compute in
  match append_task_event demo_db demo_state demo_head (TaskEvent.Stopped Outcome.Blocked "out of ideas") demo_store with
  | Ok (db, _) => db
  | Err _ => empty_db
  end.
Definition demo_clock : N → N := λ _, 5%N.
Definition demo_created : option SessionDb :=
  fst <$> to_option (create_session_seeded empty_sdb demo_store 100 1 demo_config (demo_profile "a") None None false).
(** The database after some of the commands. *)
Fixpoint demo_run (db : SessionDb) (revision : N) (commands : list (Uuid * SessionCommand.t)) : option SessionDb :=
  match commands with
  | [] => Some db
  | (operation, command) :: commands =>
      if queue_command command then None else
      match session_command demo_clock db demo_store 1 revision operation command with
      | Ok (db, _) => demo_run db (revision + 1) commands
      | Err _ => None
      end
  end.
Definition demo_1 : SessionDb := Eval vm_compute in (default empty_sdb demo_created) <| tables := demo_tables |>.
Definition demo_at (n : nat) : option SessionDb := demo_run demo_1 1 (take n demo_commands).
Definition demo_4 : SessionDb := Eval vm_compute in default empty_sdb (demo_at 3).
Definition demo_5 : SessionDb := Eval vm_compute in default empty_sdb (demo_at 4).
Definition demo_6 : SessionDb := Eval vm_compute in default empty_sdb (demo_run demo_5 5 (drop 4 demo_commands)).
Definition demo_session (n : nat) : SessionState.t := nth n demo_states.*2 (create 1 demo_creation).
Definition demo_loaded_at (db : SessionDb) (s : SessionState.t) : option Digest :=
  match load_session_state db 1 None with
  | Ok (t, h) => if bool_decide (s = t) then Some h else None
  | Err _ => None
  end.
Definition demo_head_5 : Digest := Eval vm_compute in default (checksum "") (demo_loaded_at demo_5 (demo_session 4)).
Definition demo_head_4 : Digest := Eval vm_compute in default (checksum "") (demo_loaded_at demo_4 (demo_session 3)).

Lemma demo_run_operations commands : ∀ db revision db',
  demo_run db revision commands = Some db' → rtc (session_operation demo_clock) db db'.
Proof.
  induction commands as [|[operation command] commands IH]; intros db revision db'; cbn [demo_run]; [by intros [= ->]|].
  destruct (queue_command command) eqn:Hq; [done|].
  destruct (session_command _ _ _ _ _ _ _) as [[db1 s1]|] eqn:Hc; [|done]. intros Hr.
  eapply rtc_l; [by eapply op_command|]. by eapply IH.
Qed.

Lemma demo_operated_1 : operated demo_clock demo_1.
Proof.
  assert (is_Some demo_created) as [db Hdb] by (vm_compute; by eexists).
  assert (demo_1 = db <| tables := demo_tables |>) as Heq.
  { transitivity ((default empty_sdb demo_created) <| tables := demo_tables |>);
      [by vm_compute|by rewrite Hdb]. }
  unfold demo_created in Hdb.
  destruct (create_session_seeded _ _ _ _ _ _ _ _ _) as [[db1 s1]|] eqn:Hc; [|done].
  injection Hdb as ->. eapply rtc_l; [by eapply op_create|]. apply rtc_once. by eapply op_tables.
Qed.

Lemma demo_run_4 : demo_run demo_1 1 (take 3 demo_commands) = Some demo_4.
Proof. by vm_compute. Qed.
Lemma demo_run_5 : demo_run demo_4 4 (take 1 (drop 3 demo_commands)) = Some demo_5.
Proof. by vm_compute. Qed.
Lemma demo_run_6 : demo_run demo_5 5 (drop 4 demo_commands) = Some demo_6.
Proof. by vm_compute. Qed.

Lemma demo_operated_4 : operated demo_clock demo_4.
Proof. unfold operated. etransitivity; [apply demo_operated_1|]. eapply demo_run_operations, demo_run_4. Qed.
Lemma demo_operated_5 : operated demo_clock demo_5.
Proof. unfold operated. etransitivity; [apply demo_operated_4|]. eapply demo_run_operations, demo_run_5. Qed.

Lemma demo_loads_session db s h :
  demo_loaded_at db s = Some h → load_session_state db 1 None = Ok (s, h).
Proof.
  unfold demo_loaded_at. destruct (load_session_state db 1 None) as [[t k]|]; [|done].
  case_bool_decide as Heq; [|done]. intros [= ->]. by rewrite Heq.
Qed.
Lemma demo_load_4 : load_session_state demo_4 1 None = Ok (demo_session 3, demo_head_4).
Proof. apply demo_loads_session. by vm_compute. Qed.
Lemma demo_load_5 : load_session_state demo_5 1 None = Ok (demo_session 4, demo_head_5).
Proof. apply demo_loads_session. by vm_compute. Qed.

(** ** Witnesses *)

Lemma operated_sessions_sound_witness :
  ∃ s h, load_session_state demo_5 1 None = Ok (s, h) ∧ SessionState.id s = 1%N ∧ session_ok s ∧
    ∀ r r', (1 ≤ r ≤ r')%N → (r' ≤ SessionState.revision s)%N →
      ∃ sr hr tr kr, load_session_state demo_5 1 (Some r) = Ok (sr, hr) ∧
        load_session_state demo_5 1 (Some r') = Ok (tr, kr) ∧ SessionState.revision sr = r ∧ extends sr tr.
Proof.
  apply (operated_sessions_sound demo_clock demo_5 1 demo_operated_5). vm_compute. by eexists.
Defined.

Lemma cursors_immutable_witness :
  load_session_cursor demo_6 (SessionCursor.mk 1 1 3) = Ok (demo_session 2).
Proof.
  apply (cursors_immutable demo_clock demo_5 demo_6 (SessionCursor.mk 1 1 3) (demo_session 2) demo_operated_5).
  - exact (demo_run_operations _ _ _ _ demo_run_6).
  - vm_compute. reflexivity.
Defined.

Lemma tool_result_stored_whole_witness :
  result_recorded (demo_session 3) (demo_session 4) "c1" "hi" ∧
  load_session_state demo_5 1 None = Ok (demo_session 4, demo_head_5) ∧
  SessionState.operations (demo_session 4) !! 13%N = of_value (SessionCommand.ToolResult 10 "c1" "hi").
Proof.
  apply (tool_result_stored_whole demo_clock demo_4 1 (demo_session 3) demo_head_4 13 10 "c1" "hi" demo_5
    (demo_session 4) demo_head_5 demo_operated_4 demo_load_4).
  - vm_compute. reflexivity.
  - vm_compute. reflexivity.
Defined.

Lemma session_retry_idempotent_witness :
  session_command demo_clock demo_5 demo_store 1 9 13 (SessionCommand.ToolResult 10 "c1" "hi")
    = Ok (demo_5, demo_session 4) ∧
  ∀ other d, of_value other = Some d → of_value (SessionCommand.ToolResult 10 "c1" "hi") ≠ Some d →
    session_command demo_clock demo_5 demo_store 1 9 13 other
      = Err (StoreError.Invalid "command ID reused with different input").
Proof.
  apply (session_retry_idempotent demo_clock demo_4 demo_store 1 4 13 (SessionCommand.ToolResult 10 "c1" "hi")
    demo_5 (demo_session 3) (demo_session 4) demo_store 9 demo_operated_4).
  - unfold load_session. by rewrite demo_load_4.
  - vm_compute. reflexivity.
  - vm_compute. reflexivity.
Defined.

Lemma session_outcomes_not_manufactured_witness :
  SessionState.active_request (demo_session 4) = Some 10%N ∧
  (∃ task t h, SessionState.tasks_by_request (demo_session 4) !! 10%N = Some task ∧
    load_state (tables demo_5) task = Ok (t, h) ∧ TaskState.outcome t = Some Outcome.Blocked) ∧
  extends (demo_session 4) (demo_session 5) ∧ SessionState.active_request (demo_session 5) = None ∧
  SessionState.outcome (demo_session 5) = Some Outcome.Blocked.
Proof.
  apply (session_outcomes_not_manufactured demo_clock demo_5 demo_store 1 5 14 10 Outcome.Blocked None demo_6
    (demo_session 4) (demo_session 5) demo_operated_5).
  - unfold load_session. by rewrite demo_load_5.
  - vm_compute. reflexivity.
  - vm_compute. reflexivity.
Defined.

Lemma scoped_history_within_branch_witness :
  ∃ own t, load_session demo_5 1 = Ok own ∧ ancestor demo_5 own t ∧ SessionState.id t = 1%N ∧
    (3 ≤ SessionState.revision t)%N ∧ load_session_cursor demo_5 (SessionCursor.mk 1 1 3) = Ok (demo_session 2).
Proof.
  apply (scoped_history_within_branch demo_5 1 1 (Some 3%N)). vm_compute. reflexivity.
Defined.

Definition demo_costs : list SessionCommand.t := [
  SessionCommand.ProviderUsage 10 (Some 2%N) ModelUsage.default None;
  SessionCommand.ProviderCost 10 2 (Some 30%N);
  SessionCommand.ProviderCost 10 3 (Some 12%N);
  SessionCommand.ProviderCost 10 2 (Some 30%N)].

Lemma session_cost_exact_witness :
  (∀ request call usage representation,
     SessionCommand.ProviderUsage request call usage representation ∈ demo_costs →
     ∃ c request' x, call = Some c ∧ SessionCommand.ProviderCost request' c (Some x) ∈ demo_costs) ∧
  (∀ request c x, SessionCommand.ProviderCost request c x ∈ demo_costs → is_Some x) ∧
  ∃ calls costs, NoDup calls ∧ 42%N = sum_costs costs ∧ length calls = length costs ∧
    ∀ c x, (c, x) ∈ zip calls costs ↔ ∃ request, SessionCommand.ProviderCost request c (Some x) ∈ demo_costs.
Proof. exact (session_cost_exact demo_costs eq_refl). Defined.
