(* ===== verification/QueueGuarantees.v ===== *)
(** * What the queues guarantee (crates/harness/src/store/submissions.rs)

    Every database the operations lead to has well-formed queues, no more submissions
    waiting than the host allows, and keeps what it admitted: a submission is admitted
    once, its status moves only along the allowed changes and a settled one is settled
    for ever. After a restart, recovery leaves nothing running. *)

From S2P Require Import Prelude Digest Contract State Artifacts Workspace Input ArtifactGraph Journal Store.
From S2P Require Import Cost Conversation Admission Session Context SessionStore SessionCommands Queue.
From S2P Require Import Verification ContractAdmission Submissions Shell Auxiliary SessionSteps.

(** ** One command *)

Section step.
Context {SHA : Sha256} {SER : StoreSerde} {SES : SessionSerde} {HOST : Host} {OK : SessionSerdeOk}.
Implicit Types (db : SessionDb) (s : SessionState.t).

(** What the append of a command does to the queue of its session. *)
Record queue_grows (command : SessionCommand.t) s s' : Prop := {
  qg_ok : queue_ok s';
  qg_kept : all_kept (SessionState.submissions s) (SessionState.submissions s');
  qg_length : length (SessionState.queue_order s') ≤
    length (SessionState.queue_order s) + match command with SessionCommand.Submitted _ => 1 | _ => 0 end;
}.

Lemma apply_grows s operation command s' :
  queue_ok s → queue_guard s command → session_apply s operation command = Ok s' → queue_grows command s s'.
Proof.
  intros Hok Hg Ha. pose proof (apply_queue _ _ _ _ _ _ Hok Hg Ha) as [Hok' Hk]. split; [done..|].
  unfold session_apply, Apply.apply in Ha. apply rbind_Ok in Ha as (s1 & He & Hc).
  apply commit_queue in Hc as [-> _].
  destruct (queue_command command) eqn:Hcmd; [|apply effect_queue_other in He as [-> _]; [lia|done]].
  destruct command; try discriminate Hcmd; cbn [Apply.effect queue_guard] in He, Hg; apply Ok_inj in He as <-.
  - destruct Hg as (b & Hb & Hs & _). cbn. rewrite move_queue_perm; [lia|apply Hok|].
    apply Hok. unfold pending_in. by rewrite Hb, Hs.
  - destruct Hg as (b & Hb & Hs & _). rewrite Hb. destruct input; [cbn; lia|]. cbn.
    rewrite insert_at_perm, unqueue_perm; [lia|apply Hok|]. apply Hok. unfold pending_in. by rewrite Hb, Hs.
  - cbn. rewrite length_app. cbn. lia.
  - destruct (SubmissionStatus.pending status); cbn; [lia|].
    unfold Apply.unqueue. pose proof (length_filter (λ id, id ≠ request) (SessionState.queue_order s)). lia.
Qed.

Lemma append_grows now_ms db id n s h operation command db' s' h' :
  held db id n s h → call_in_cell s command → queue_ok s → queue_guard s command →
  append_session_command now_ms db s h operation command = Some (Ok (db', s', h')) → queue_grows command s s'.
Proof.
  intros Hh Hc Hok Hg. unfold append_session_command. destruct (to_vec _) as [bytes|] eqn:Hb; [|done].
  destruct (N.ltb_spec MAX_EVENT_BYTES (str_len bytes)) as [Hlt|Hle].
  2: { intros [= Hw]. apply apply_grows with operation; [done..|].
       by apply write_session_event_Ok in Hw as (? & ? & ? & ? & _). }
  destruct command as [| | | | | | | | | | | | | | | | | | | | | | | | |request call_id output| | | | |]; try done.
  destruct (append_parts _ _ _ _ _ _ _ _ _ _) as [[[[db1 s1] h1]|]|] eqn:Hparts; cbn; try done. intros [= Hend].
  apply (append_parts_inv now_ms (λ _ t, queue_ok t ∧
      all_kept (SessionState.submissions s) (SessionState.submissions t) ∧
      length (SessionState.queue_order t) ≤ length (SessionState.queue_order s))) with (id := id) (n := n) in Hparts
    as (n1 & [Hh1 _ _ _ _] & Hok1 & Hk1 & Hl1); [| |done|by split_and!|lia].
  2: { intros t offset k op t' (Hokt & Hkt & Hlt') _ _ _ Hap.
       apply apply_grows in Hap as [H1 H2 H3]; [|done..]. split_and!; [done|by etransitivity|]. lia. }
  apply (append_whole_grown now_ms db1 id n1) in Hend as [Hap _]; [|done..].
  apply apply_grows in Hap as [H1 H2 H3]; [|done..]. split; [done|by etransitivity|]. lia.
Qed.
End step.

(** ** The list of sessions *)

Section order.
Context {SHA : Sha256} {SER : StoreSerde} {SES : SessionSerde} {HOST : Host}.
Implicit Types (db : SessionDb) (s : SessionState.t).

(** The sessions are listed once each, and no others. *)
Record order_ok db : Prop := {
  oo_once : NoDup (session_order db);
  oo_listed id : id ∈ session_order db ↔ is_Some (sessions db !! id);
}.

Definition same_order db db' : Prop :=
  session_order db' = session_order db ∧ ∀ id, is_Some (sessions db' !! id) ↔ is_Some (sessions db !! id).

Lemma same_order_ok db db' : same_order db db' → order_ok db → order_ok db'.
Proof. intros [Ho Hd] [H1 H2]. split; rewrite Ho; [done|]. intros id. by rewrite H2, Hd. Qed.

Lemma same_order_trans db1 db2 db3 : same_order db1 db2 → same_order db2 db3 → same_order db1 db3.
Proof. intros [H1 H2] [H3 H4]. split; [congruence|]. intros id. by rewrite H4, H2. Qed.

Lemma write_order db s h operation command bytes db' s' h' :
  write_session_event db s h operation command bytes = Ok (db', s', h') → same_order db db'.
Proof.
  intros Hw. split.
  - unfold write_session_event in Hw. apply rbind_Ok in Hw as (s1 & _ & Hw). apply rbind_Ok in Hw as (h1 & _ & Hw).
    apply rbind_Ok in Hw as (z & _ & Hw). apply rbind_Ok in Hw as (db1 & Hi & Hw).
    apply rbind_Ok in Hw as (sb & _ & Hw). apply rbind_Ok in Hw as (db2 & Hc & Hw%Ok_inj). injection Hw as <- _ _.
    unfold insert_session_event in Hi. apply rbind_Ok in Hi as ([] & _ & Hi%Ok_inj).
    assert (session_order db1 = session_order db) as <- by (by rewrite <-Hi).
    destruct (checkpoint_due _); [|by apply Ok_inj in Hc as <-].
    unfold store_session_checkpoint in Hc. apply rbind_Ok in Hc as (z' & _ & Hc).
    apply rbind_Ok in Hc as (b & _ & Hc%Ok_inj). by rewrite <-Hc.
  - apply write_session_event_Ok in Hw as (sb & seq & z & _ & _ & _ & _ & -> & _). intros id.
    rewrite lookup_alter_is_Some. done.
Qed.

Lemma append_whole_order now_ms db s h operation command db' s' h' :
  append_whole now_ms db s h operation command = Ok (db', s', h') → same_order db db'.
Proof.
  unfold append_whole. intros (bytes & _ & Hw)%rbind_Ok. apply rbind_Ok in Hw as ([] & _ & Hw). by eapply write_order.
Qed.

Lemma append_parts_order now_ms fuel operation request call_id output : ∀ offset db s h db' s' h',
  append_parts now_ms fuel db s h operation request call_id output offset = Some (Ok (db', s', h')) → same_order db db'.
Proof.
  induction fuel as [|fuel IH]; intros offset db s h db' s' h'; cbn [append_parts]; case_bool_decide; try done;
    try (by intros [= <- _ _]).
  destruct (append_whole _ _ _ _ _ _) as [[[db1 s1] h1]|] eqn:Hw; [|done]. intros Hrest%IH.
  eapply same_order_trans; [by eapply append_whole_order|done].
Qed.

Lemma append_order now_ms db s h operation command db' s' h' :
  append_session_command now_ms db s h operation command = Some (Ok (db', s', h')) → same_order db db'.
Proof.
  unfold append_session_command. destruct (to_vec _) as [bytes|]; [|done].
  destruct (_ <? _)%N; [|intros [= Hw]; by eapply write_order].
  destruct command; try done.
  destruct (append_parts _ _ _ _ _ _ _ _ _ _) as [[[[db1 s1] h1]|]|] eqn:Hparts; cbn; try done. intros [= Hend].
  eapply same_order_trans; [by eapply append_parts_order|by eapply append_whole_order].
Qed.

Lemma insert_order db id creation db' s :
  insert_session db id creation = Ok (db', s) → order_ok db → order_ok db' ∧ session_order db' = session_order db ++ [id].
Proof.
  unfold insert_session. intros (bytes & _ & H1)%rbind_Ok. apply rbind_Ok in H1 as ([] & _ & H1).
  apply rbind_Ok in H1 as (hash & _ & H1). apply rbind_Ok in H1 as (sb & _ & H1).
  apply rbind_Ok in H1 as (db1 & Hrow & H1). apply rbind_Ok in H1 as (db2 & Hev & H1).
  apply rbind_Ok in H1 as (db3 & Hcp & H1). apply Ok_inj in H1. injection H1 as <- _.
  unfold insert_session_row in Hrow. apply rbind_Ok in Hrow as ([] & Hnone%reject_if_Ok%bool_decide_eq_false & Hrow%Ok_inj).
  unfold insert_session_event in Hev. apply rbind_Ok in Hev as ([] & _ & Hev%Ok_inj).
  unfold store_session_checkpoint in Hcp. apply rbind_Ok in Hcp as (z & _ & Hcp).
  apply rbind_Ok in Hcp as (sb' & _ & Hcp%Ok_inj).
  assert (session_order db3 = session_order db ++ [id]) as Ho by (by rewrite <-Hcp, <-Hev, <-Hrow).
  assert (sessions db3 = <[id := TaskRow.mk 1 sb (digest_to_string hash)]> (sessions db)) as Hs
    by (by rewrite <-Hcp, <-Hev, <-Hrow).
  intros [H1 H2]. split; [|done]. split; rewrite Ho.
  - apply NoDup_app. split_and!; [done| |apply NoDup_singleton]. intros x Hx ->%list_elem_of_singleton.
    by apply Hnone, H2.
  - intros x. rewrite Hs, elem_of_app, list_elem_of_singleton, H2, lookup_insert_is_Some'. naive_solver.
Qed.

(** A sum of which one summand grows. *)
Lemma sum_list_le (f g : Uuid → nat) (l : list Uuid) :
  (∀ x, x ∈ l → g x ≤ f x) → sum_list (g <$> l) ≤ sum_list (f <$> l).
Proof.
  induction l as [|x l IH]; intros H; [done|]. cbn. pose proof (H x ltac:(set_solver)).
  pose proof (IH ltac:(set_solver)). unfold sum_list in *. lia.
Qed.
Lemma sum_list_grow (f g : Uuid → nat) (l : list Uuid) id k :
  NoDup l → (∀ x, x ≠ id → g x ≤ f x) → g id ≤ f id + k → sum_list (g <$> l) ≤ sum_list (f <$> l) + k.
Proof.
  intros Hd Hoth Hid. induction Hd as [|x l Hx Hd IH]; [cbn; lia|]. cbn. destruct (decide (x = id)) as [->|Hne].
  - pose proof (sum_list_le f g l) as Hle. unfold sum_list in *.
    assert (∀ x, x ∈ l → g x ≤ f x) as Hl by (intros y Hy; apply Hoth; congruence). specialize (Hle Hl). lia.
  - pose proof (Hoth x Hne). unfold sum_list in *. lia.
Qed.
End order.

(** ** Every step keeps the queues *)

Section invariant.
Context {SHA : Sha256} {SER : StoreSerde} {SES : SessionSerde} {HOST : Host} {OK : SessionSerdeOk}.
Implicit Types (db : SessionDb) (s : SessionState.t).

Record queues_ok db : Prop := {
  qs_sessions : sessions_ok db;
  qs_order : order_ok db;
  qs_queue id s h : load_session_state db id None = Ok (s, h) → queue_ok s;
  qs_host : total_pending db ≤ HOST_LIMIT;
}.

Definition submissions_kept db db' : Prop :=
  ∀ id s h, load_session_state db id None = Ok (s, h) →
    ∃ s' h', load_session_state db' id None = Ok (s', h') ∧
      all_kept (SessionState.submissions s) (SessionState.submissions s').

#[global] Instance submissions_kept_preorder : PreOrder submissions_kept.
Proof.
  split; [by intros db id s h Hl; exists s, h|].
  intros db1 db2 db3 H12 H23 id s h Hl. destruct (H12 _ _ _ Hl) as (s2 & h2 & Hl2 & Hk2).
  destruct (H23 _ _ _ Hl2) as (s3 & h3 & Hl3 & Hk3). exists s3, h3. split; [done|by etransitivity].
Qed.

Lemma load_None_absent db id : sessions db !! id = None → ∀ s h, load_session_state db id None ≠ Ok (s, h).
Proof. intros Hn s h Hl. unfold load_session_state in Hl. by rewrite Hn in Hl. Qed.

Lemma pending_count_load db id s h :
  load_session_state db id None = Ok (s, h) → pending_count db id = length (pending_values (SessionState.submissions s)).
Proof. intros Hl. unfold pending_count, load_session. by rewrite Hl. Qed.

Lemma pending_count_queue db id s h :
  load_session_state db id None = Ok (s, h) → queue_ok s → pending_count db id = length (SessionState.queue_order s).
Proof. intros Hl Hq. rewrite (pending_count_load _ _ _ _ Hl). by apply pending_values_length. Qed.

Lemma same_session_count db db' id : same_session db db' id → pending_count db' id = pending_count db id.
Proof. intros Hs. unfold pending_count, load_session. by rewrite (same_session_load _ _ _ _ Hs). Qed.

Lemma empty_queues_ok : queues_ok empty_sdb.
Proof.
  split; [apply empty_sessions_ok| | |unfold HOST_LIMIT; cbn; lia].
  - split; [apply NoDup_nil_2|]. intros id. cbn. rewrite lookup_empty. split; [by intros ?%not_elem_of_nil|by intros []].
  - intros id s h Hl. by apply load_None_absent in Hl.
Qed.

Lemma insert_queues db id creation db' s :
  queues_ok db → insert_session db id creation = Ok (db', s) → queues_ok db' ∧ submissions_kept db db'.
Proof.
  intros [Hok Hord Hq Hhost] Hi. pose proof (insert_order _ _ _ _ _ Hi Hord) as [Hord' Ho].
  pose proof (session_step_ok _ _ (step_insert _ _ _ _ _ Hi) Hok) as Hok'.
  destruct (insert_session_held _ _ _ _ _ Hok Hi) as (-> & Hnone & (h & Hh) & Hoth).
  assert (Hl' : load_session_state db' id None = Ok (create id creation, h)) by (by eapply held_load).
  assert (Hcase : ∀ x t k, load_session_state db' x None = Ok (t, k) →
    (x = id ∧ t = create id creation) ∨ (x ≠ id ∧ load_session_state db x None = Ok (t, k))).
  { intros x t k Hx. destruct (decide (x = id)) as [->|Hne].
    - left. rewrite Hl' in Hx. by injection Hx as <- _.
    - right. split; [done|]. by rewrite <-(same_session_load _ _ _ _ (Hoth x Hne)). }
  split; [split; [done|done| |]|].
  - intros x t k [[-> ->]|[_ Hx]]%Hcase; [apply create_queue|by eapply Hq].
  - unfold total_pending. rewrite Ho, fmap_app, sum_list_with_app. cbn.
    rewrite (pending_count_queue _ _ _ _ Hl' (create_queue _ _)). cbn.
    assert (sum_list (pending_count db' <$> session_order db) ≤ sum_list (pending_count db <$> session_order db)) as Hle.
    { apply sum_list_le. intros x Hx. rewrite (same_session_count db); [done|]. apply Hoth. intros ->.
      apply (oo_listed _ Hord) in Hx. rewrite Hnone in Hx. by destruct Hx. }
    unfold total_pending, sum_list in *. lia.
  - intros x t k Hx. exists t, k. split; [|done]. rewrite (same_session_load db); [done|]. apply Hoth. intros ->.
    by eapply load_None_absent.
Qed.

Lemma append_queues now_ms db id s h operation command db' s' h' :
  queues_ok db → load_session_state db id None = Ok (s, h) → call_in_cell s command → queue_guard s command →
  host_guard db command → append_session_command now_ms db s h operation command = Some (Ok (db', s', h')) →
  queues_ok db' ∧ submissions_kept db db'.
Proof.
  intros [Hok Hord Hq Hhost] Hl Hc Hg Hroom Ha.
  pose proof (session_step_ok _ _ (step_append _ _ _ _ _ _ _ _ _ _ Hl Hc Hg Hroom Ha) Hok) as Hok'.
  pose proof (append_order _ _ _ _ _ _ _ _ _ Ha) as Hsame.
  pose proof (sessions_ok_load _ _ _ _ Hok Hl) as Hh.
  destruct (append_grown _ _ _ _ _ _ _ _ _ _ _ Hh Hc Ha) as (n' & [Hh' _ _ _ Hoth]).
  apply held_load in Hh'. destruct (append_grows _ _ _ _ _ _ _ _ _ _ _ Hh Hc (Hq _ _ _ Hl) Hg Ha) as [Hqs Hkept Hlen].
  assert (Hcase : ∀ x, x ≠ id → load_session_state db' x None = load_session_state db x None).
  { intros x Hne. by apply same_session_load, Hoth. }
  split; [split; [done|by eapply same_order_ok| |]|].
  - intros x t k Hx. destruct (decide (x = id)) as [->|Hne]; [rewrite Hh' in Hx; by injection Hx as <- _|].
    rewrite Hcase in Hx by done. by eapply Hq.
  - destruct Hsame as [Ho _]. unfold total_pending. rewrite Ho.
    assert (sum_list (pending_count db' <$> session_order db) ≤ sum_list (pending_count db <$> session_order db)
      + match command with SessionCommand.Submitted _ => 1 | _ => 0 end) as Hle.
    { apply sum_list_grow with id; [apply Hord| |].
      - intros x Hne. by rewrite (same_session_count db) by by apply Hoth.
      - rewrite (pending_count_queue _ _ _ _ Hl) by (by eapply Hq). by rewrite (pending_count_queue _ _ _ _ Hh'). }
    unfold host_guard, total_pending, HOST_LIMIT in *. destruct command; unfold sum_list in *; lia.
  - intros x t k Hx. destruct (decide (x = id)) as [->|Hne]; [|exists t, k; by rewrite Hcase].
    rewrite Hl in Hx. injection Hx as <- <-. by exists s', h'.
Qed.

Lemma step_queues db db' : queues_ok db → session_step db db' → queues_ok db' ∧ submissions_kept db db'.
Proof.
  intros Hok Hs. revert Hok.
  destruct Hs as [db0 id creation db1 s Hi|now_ms db0 id s h operation command db1 s' h' Hl Hc Hg Hroom Ha|db0 t];
    intros Hok.
  - by eapply insert_queues.
  - by eapply append_queues.
  - split; [|by intros id s h Hl; exists s, h]. destruct Hok as [Hs [Ho1 Ho2] Hq Hh].
    split; [by apply (session_step_ok db0); [apply step_tables|]|by split|done|done].
Qed.

Lemma steps_queues db db' : queues_ok db → rtc session_step db db' → queues_ok db' ∧ submissions_kept db db'.
Proof.
  intros Hok Hs. induction Hs as [|db db1 db' Hstep _ IH]; [by split|].
  destruct (step_queues _ _ Hok Hstep) as [Hok1 Hk1]. destruct (IH Hok1) as [Hok2 Hk2]. split; [done|by etransitivity].
Qed.
End invariant.

(** ** What the operations promise *)

Section operations.
Context {SHA : Sha256} {SER : StoreSerde} {SES : SessionSerde} {HOST : Host} {TURN : TurnSerde} {OK : SessionSerdeOk}.
Implicit Types (db : SessionDb) (s : SessionState.t) (a : ArtifactStore.t).
Variable now_ms : N → N.

Lemma operations_queues db db' :
  queues_ok db → rtc (session_operation now_ms) db db' → queues_ok db' ∧ submissions_kept db db'.
Proof.
  intros Hok Hops. apply steps_queues; [done|]. exact (operations_steps now_ms db db' (qs_sessions _ Hok) Hops).
Qed.

Lemma operated_queues db : operated now_ms db → queues_ok db.
Proof. intros Hop. by apply (operations_queues empty_sdb); [apply empty_queues_ok|]. Qed.

(** C16: the queue of a session lists exactly the submissions that wait or run, each
    once and under its own identifier, and never more than the session's limit. *)
Theorem queues_consistent db id s :
  operated now_ms db → load_session db id = Ok s → queue_ok s.
Proof. intros Hop%operated_queues [h Hl]%load_session_Ok. by eapply qs_queue. Qed.

(** the host never holds more waiting and running submissions than its limit, over
    all sessions; the count that guards it ends and is that number. *)
Theorem host_queue_bounded db :
  operated now_ms db →
  total_pending db ≤ HOST_LIMIT ∧
  (∃ r, pending_loop (length (session_order db)) db 0 0 = Some r) ∧
  ∀ n, pending_submissions db = Ok n → n = total_pending db.
Proof.
  intros Hop%operated_queues. split_and!; [apply Hop| |apply pending_submissions_Ok].
  destruct (pending_loop_spec (length (session_order db)) db 0 0) as (r & ? & _); [lia|]. by exists r.
Qed.

(** C15: what was admitted stays: whatever the store does later, the submission is still
    there with its identifier, intent and first input; its status has moved only along
    the allowed changes, and once settled it has kept status and input. *)
Theorem submissions_never_lost db db' id s request b :
  operated now_ms db → rtc (session_operation now_ms) db db' →
  load_session db id = Ok s → SessionState.submissions s !! request = Some b →
  ∃ s' b', load_session db' id = Ok s' ∧ SessionState.submissions s' !! request = Some b' ∧ kept b b'.
Proof.
  intros Hop%operated_queues Hops [h Hl]%load_session_Ok Hb.
  destruct (operations_queues _ _ Hop Hops) as [_ Hk]. destruct (Hk _ _ _ Hl) as (s' & h' & Hl' & Hk').
  destruct (Hk' _ _ Hb) as (b' & Hb' & ?). exists s', b'. split_and!; [|done..].
  unfold load_session. by rewrite Hl'.
Qed.

Lemma submitted_apply s operation (b : Submission.t) s' :
  session_apply s operation (SessionCommand.Submitted b) = Ok s' →
  SessionState.submissions s' = <[Submission.id b := b]> (SessionState.submissions s).
Proof.
  unfold session_apply, Apply.apply. intros (s1 & He & Hc)%rbind_Ok. apply commit_queue in Hc as [_ ->].
  cbn [Apply.effect] in He. by apply Ok_inj in He as <-.
Qed.

Lemma submit_Ok db a now session id input intent db' b :
  sessions_ok db → submit now_ms db a now session id input intent = Ok (db', b) →
  ∃ s h prepared, load_session_state db' session None = Ok (s, h) ∧ SessionState.submissions s !! id = Some b ∧
    Submission.initial_input b = input ∧ Submission.intent b = intent ∧
    load_input input a = Ok prepared ∧ validate_intent a prepared intent = Ok tt.
Proof.
  intros Hok. unfold submit. intros (s0 & _ & He)%rbind_Ok. apply rbind_Ok in He as ([] & _ & He).
  apply rbind_Ok in He as (prepared & Hp & He). apply rbind_Ok in He as ([] & Hv & He).
  apply rbind_Ok in He as ([s h] & Hl & He).
  destruct (SessionState.submissions s !! id) as [previous|] eqn:Hb.
  - destruct (_ && _) eqn:Hsame; [|done]. apply Ok_inj in He. injection He as <- <-.
    apply andb_true_iff in Hsame as [Hi%bool_decide_eq_true Hw%bool_decide_eq_true]. by exists s, h, prepared.
  - do 2 (apply rbind_Ok in He as ([] & _ & He)). apply rbind_Ok in He as (t & _ & He).
    apply rbind_Ok in He as ([[db1 s1] h1] & Ha & He%Ok_inj). injection He as <- <-.
    apply (tables_append_one now_ms db t session) in Ha as [Hl' Hap%submitted_apply]; [|done..].
    exists s1, h1, prepared. split_and!; [done| |done..]. rewrite Hap.
    cbn [Submission.id]. by rewrite lookup_insert_eq.
Qed.

(** C10: a submission is admitted once: sent again, at any later time, it returns the
    same submission as it is now and writes nothing; under its identifier nothing else
    is admitted. *)
Theorem submission_admitted_once db db1 db2 a now session id input intent b now' :
  operated now_ms db → submit now_ms db a now session id input intent = Ok (db1, b) →
  rtc (session_operation now_ms) db1 db2 →
  ∃ b', kept b b' ∧ submit now_ms db2 a now' session id input intent = Ok (db2, b') ∧
    ∀ a' input' intent' r, (input', intent') ≠ (input, intent) →
      submit now_ms db2 a' now' session id input' intent' ≠ Ok r.
Proof.
  intros Hop Hsub Hops. pose proof (operated_queues _ Hop) as Hq.
  destruct (submit_Ok _ _ _ _ _ _ _ _ _ (qs_sessions _ Hq) Hsub) as (s1 & h1 & prepared & Hl1 & Hb & Hi & Hw & Hp & Hv).
  destruct (operations_queues db db1 Hq) as [Hq1 _]; [by eapply rtc_once, op_submit|].
  destruct (operations_queues _ _ Hq1 Hops) as [_ Hk]. destruct (Hk _ _ _ Hl1) as (s2 & h2 & Hl2 & Hk2).
  destruct (Hk2 _ _ Hb) as (b' & Hb' & Hkept). exists b'.
  assert (Submission.initial_input b' = input ∧ Submission.intent b' = intent) as [Hi' Hw'].
  { destruct Hkept. split; congruence. }
  split_and!; [done| |].
  - unfold submit, load_session, admit_host. rewrite Hl2. cbn [rbind]. rewrite Hb'. cbn [rbind].
    rewrite Hp. cbn [rbind]. rewrite Hv. cbn [rbind]. rewrite Hi', Hw'. by rewrite !bool_decide_eq_true_2 by done.
  - intros a' input' intent' r Hne. unfold submit, load_session, admit_host. rewrite Hl2. cbn [rbind]. rewrite Hb'.
    cbn [rbind]. destruct (load_input input' a') as [p|]; [|done]. cbn [rbind].
    destruct (validate_intent a' p intent') as [[]|]; [|done]. cbn [rbind]. rewrite Hi', Hw'.
    destruct (decide (input = input')) as [->|]; [|by rewrite bool_decide_eq_false_2].
    destruct (decide (intent = intent')) as [->|]; [done|].
    by rewrite bool_decide_eq_true_2, bool_decide_eq_false_2 by done.
Qed.
End operations.

(** ** Recovery *)

Section recovery.
Context {SHA : Sha256} {SER : StoreSerde} {SES : SessionSerde} {HOST : Host} {TURN : TurnSerde} {OK : SessionSerdeOk}.
Implicit Types (db : SessionDb) (s : SessionState.t) (a : ArtifactStore.t).
Variable now_ms : N → N.

Definition with_status (status : SubmissionStatus.t) (b : Submission.t) : Submission.t :=
  b <| Submission.status := status |>.

Lemma changed_apply s operation request status s' :
  session_apply s operation (SessionCommand.SubmissionChanged request status) = Ok s' →
  SessionState.submissions s' = alter (with_status status) request (SessionState.submissions s) ∧
  ∃ d, SessionState.operations s' = <[operation := d]> (SessionState.operations s).
Proof.
  unfold session_apply, Apply.apply. intros (s1 & He & Hc)%rbind_Ok. pose proof (commit_queue _ _ _ _ Hc) as [_ ->].
  pose proof (effect_frame _ _ _ _ _ _ He) as (_ & _ & _ & _ & Ho & _).
  cbn [Apply.effect] in He. apply Ok_inj in He. split.
  - rewrite <-He. by destruct (SubmissionStatus.pending status).
  - unfold Apply.commit in Hc. apply rbind_Ok in Hc as (d & _ & Hc%Ok_inj). exists d. rewrite <-Hc, <-Ho.
    by match goal with |- context [bool_decide ?P] => destruct (bool_decide P) end.
Qed.

(** What changing a session's submissions leaves of the rest of the store. *)
Record elsewhere db db' (P : Uuid → Prop) : Prop := {
  el_ok : sessions_ok db';
  el_order : same_order db db';
  el_others other : ¬ P other → same_session db db' other;
}.

Lemma same_session_trans db1 db2 db3 id :
  same_session db1 db2 id → same_session db2 db3 id → same_session db1 db3 id.
Proof. intros (A & B & C) (D & E & F). split_and!; congruence. Qed.

Lemma elsewhere_trans db1 db2 db3 (P Q R : Uuid → Prop) :
  (∀ x, P x ∨ Q x → R x) → elsewhere db1 db2 P → elsewhere db2 db3 Q → elsewhere db1 db3 R.
Proof.
  intros HR [_ O1 S1] [K2 O2 S2]. split; [done|by eapply same_order_trans|].
  intros x Hx. eapply same_session_trans; [apply S1|apply S2]; naive_solver.
Qed.

Lemma session_command_order db a id revision operation command r :
  session_command now_ms db a id revision operation command = Ok r → same_order db r.1.
Proof.
  unfold session_command. intros ([s h] & _ & H1)%rbind_Ok. apply rbind_Ok in H1 as (d & _ & H1).
  destruct (SessionState.operations s !! operation).
  { case_bool_decide; [|done]. by apply Ok_inj in H1 as <-. }
  do 3 (apply rbind_Ok in H1 as ([] & _ & H1)). apply rbind_Ok in H1 as ([[db1 s1] h1] & Ha & H1%Ok_inj). subst r.
  pose proof (append_session_total now_ms db s h operation command) as Ht. rewrite Ha in Ht. by apply append_order in Ht.
Qed.

Lemma set_status_Ok db a operation id request status db' b' s h b :
  sessions_ok db → load_session_state db id None = Ok (s, h) →
  SessionState.submissions s !! request = Some b → Submission.status b ≠ status →
  SessionState.operations s !! operation = None →
  set_submission_status now_ms db a operation id request status = Ok (db', b') →
  elsewhere db db' (eq id) ∧ ∃ s' h' d, load_session_state db' id None = Ok (s', h') ∧
    SessionState.submissions s' = alter (with_status status) request (SessionState.submissions s) ∧
    SessionState.operations s' = <[operation := d]> (SessionState.operations s).
Proof.
  intros Hok Hl Hb Hne Hnew. unfold set_submission_status, load_session. rewrite Hl. cbn [rbind]. rewrite Hb.
  cbn [ok_or rbind]. rewrite bool_decide_eq_false_2 by done. intros ([] & Ha%reject_if_Ok%negb_false_iff & He)%rbind_Ok.
  apply rbind_Ok in He as ([db1 s1] & Hc & He). apply rbind_Ok in He as (b1 & _ & He%Ok_inj). injection He as <- _.
  pose proof (session_command_order _ _ _ _ _ _ _ Hc) as Hord.
  destruct (session_command_Ok now_ms _ _ _ _ _ _ _ _ Hok Hc) as (s0 & h0 & d0 & Hl0 & _ & Hcase).
  rewrite Hl in Hl0. injection Hl0 as <- <-. destruct Hcase as [(Hold & _)|(_ & _ & _ & _ & Hstep & n' & h' & Hap & [Hh' _ _ _ Hoth])];
    [congruence|].
  apply append_session_apply in Hap; [|done]. apply changed_apply in Hap as (Hm & d & Ho).
  split; [|exists s1, h', d; split_and!; [by eapply held_load|done..]].
  split; [|done|intros other Hne'; apply Hoth; congruence]. eapply session_step_ok; [|exact Hok]. apply Hstep; [|done].
  by exists b, (bool_decide (is_Some (SessionState.operations s !! request))).
Qed.

Lemma recovered_not_running s b : recovered s b ≠ SubmissionStatus.Running.
Proof. unfold recovered. by destruct (bool_decide _). Qed.

(** The changes of one session, the list being those still to make. *)
Lemma recover_list a fresh id s0 l : ∀ db db' s h,
  sessions_ok db → load_session_state db id None = Ok (s, h) → SessionState.id s0 = id →
  NoDup (Submission.id <$> l) → Inj eq eq (fresh id) →
  (∀ b, b ∈ l → SessionState.submissions s !! Submission.id b = Some b ∧ is_running b = true ∧
     SessionState.operations s !! fresh id (Submission.id b) = None) →
  for_each (λ db b, let? '(db, _) := set_submission_status now_ms db a (fresh (SessionState.id s0) (Submission.id b))
                       (SessionState.id s0) (Submission.id b) (recovered s0 b) in Ok db) db l = Ok db' →
  elsewhere db db' (eq id) ∧ ∃ s' h', load_session_state db' id None = Ok (s', h') ∧
    (∀ b, b ∈ l → SessionState.submissions s' !! Submission.id b = Some (with_status (recovered s0 b) b)) ∧
    (∀ r, r ∉ Submission.id <$> l → SessionState.submissions s' !! r = SessionState.submissions s !! r).
Proof.
  induction l as [|b l IH]; intros db db' s h Hok Hl Hid Hd Hinj Hin; cbn [for_each].
  { intros [= <-]. split; [by split|]. exists s, h. split_and!; [done|by intros ? ?%not_elem_of_nil|done]. }
  intros (db1 & ([db2 b2] & Hset & [= ->])%rbind_Ok & Hrest)%rbind_Ok. rewrite Hid in Hset.
  destruct (Hin b ltac:(set_solver)) as (Hb & Hrun & Hnew). apply bool_decide_eq_true in Hrun.
  destruct (set_status_Ok _ _ _ _ _ _ _ _ _ _ _ Hok Hl Hb ltac:(rewrite Hrun; apply not_eq_sym, recovered_not_running) Hnew Hset)
    as (Hel & s1 & h1 & d & Hl1 & Hm & Ho).
  cbn in Hd. apply NoDup_cons in Hd as [Hnb Hd].
  assert (Hne : ∀ c, c ∈ l → Submission.id c ≠ Submission.id b).
  { intros c Hc Heq. apply Hnb. rewrite <-Heq. by apply list_elem_of_fmap_2. }
  edestruct (IH db1 db' s1 h1) as (Hel' & s' & h' & Hl' & Hdone & Hkeep);
    [apply Hel|exact Hl1|done|done|done| |exact Hrest|].
  { intros c Hc. destruct (Hin c ltac:(set_solver)) as (Hcb & Hcr & Hcn). split_and!; [|done|].
    - rewrite Hm, lookup_alter_ne by (apply not_eq_sym; by apply Hne). done.
    - rewrite Ho, lookup_insert_ne; [done|]. intros Heq%(inj (fresh id)). by apply (Hne c). }
  split; [eapply elsewhere_trans; [|exact Hel|exact Hel']; naive_solver|]. exists s', h'. split_and!; [done| |].
  - intros c [->|Hc]%elem_of_cons; [|by apply Hdone]. rewrite Hkeep by done. by rewrite Hm, lookup_alter_eq, Hb.
  - intros r Hr. cbn in Hr. apply not_elem_of_cons in Hr as [Hr1 Hr2]. rewrite Hkeep by done.
    by rewrite Hm, lookup_alter_ne by congruence.
Qed.

(** Recovery of one submission, and of a whole session. *)
Definition recover_one s (b : Submission.t) : Submission.t :=
  if is_running b then with_status (recovered s b) b else b.
Definition session_recovered s s' : Prop :=
  ∀ r, SessionState.submissions s' !! r = recover_one s <$> SessionState.submissions s !! r.

Lemma session_recovered_settled s s' r b :
  session_recovered s s' → SessionState.submissions s' !! r = Some b → is_running b = false.
Proof.
  intros Hs. rewrite Hs. destruct (SessionState.submissions s !! r) as [c|]; [|done]. cbn. intros [= <-].
  unfold recover_one. destruct (is_running c) eqn:Hr; [|done].
  apply bool_decide_eq_false. cbn. apply recovered_not_running.
Qed.

Lemma recover_session_Ok a fresh db db' id s h :
  sessions_ok db → load_session_state db id None = Ok (s, h) → queue_ok s → Inj eq eq (fresh id) →
  (∀ r, SessionState.operations s !! fresh id r = None) →
  recover_session now_ms a fresh db s = Ok db' →
  elsewhere db db' (eq id) ∧ ∃ s' h', load_session_state db' id None = Ok (s', h') ∧ session_recovered s s'.
Proof.
  intros Hok Hl Hq Hinj Hnew Hr. pose proof (held_identity _ _ _ _ _ (sessions_ok_load _ _ _ _ Hok Hl)) as (Hid & _).
  assert (Hrun : ∀ b, b ∈ running_values (SessionState.submissions s) ↔
    is_running b = true ∧ SessionState.submissions s !! Submission.id b = Some b).
  { intros b. unfold running_values. rewrite list_elem_of_filter, elem_of_btree_values. split.
    - intros (Hb & k & Hk). split; [done|]. by rewrite (qw_filed _ _ Hq k b Hk).
    - intros (Hb & Hk). by eauto. }
  eapply recover_list in Hr as (Hel & s' & h' & Hl' & Hdone & Hkeep); [|exact Hok|exact Hl|done| |done|].
  2: { eapply sublist_NoDup; [apply (NoDup_btree_keys (SessionState.submissions s))|].
       assert (btree_keys (SessionState.submissions s) = Submission.id <$> btree_values (SessionState.submissions s)) as ->.
       { unfold btree_keys, btree_values. rewrite <-list_fmap_compose. apply list_fmap_ext. intros i [k b] Hi. cbn.
         apply list_elem_of_lookup_2, elem_of_btree_iter in Hi. symmetry. by apply (qw_filed _ _ Hq). }
       apply fmap_sublist, sublist_filter. }
  2: { intros b [Hb Hk]%Hrun. by split_and!. }
  split; [done|]. exists s', h'. split; [done|]. intros r.
  destruct (SessionState.submissions s !! r) as [b|] eqn:Hb.
  - pose proof (qw_filed _ _ Hq r b Hb) as <-. cbn. unfold recover_one. destruct (is_running b) eqn:Hr.
    + apply Hdone, Hrun. by split.
    + rewrite Hkeep; [done|]. intros (c & Hc & [Hcr Hck]%Hrun)%list_elem_of_fmap. rewrite <-Hc in Hck. congruence.
  - rewrite Hkeep, Hb; [done|]. intros (c & -> & [_ Hck]%Hrun)%list_elem_of_fmap. congruence.
Qed.


(** The identifiers drawn for the changes are new. *)
Record fresh_ids db (fresh : Uuid → Uuid → Uuid) : Prop := {
  fi_inj id : Inj eq eq (fresh id);
  fi_new id s r : load_session db id = Ok s → SessionState.operations s !! fresh id r = None;
}.

Lemma same_session_load_session db db' id : same_session db db' id → load_session db' id = load_session db id.
Proof. intros Hs. unfold load_session. by rewrite (same_session_load _ _ _ _ Hs). Qed.

Section pass.
(** The store recovery starts from; [cur] and [db'] below are the store on the way. *)
Variables (db : SessionDb) (a : ArtifactStore.t) (fresh : Uuid → Uuid → Uuid).
Hypothesis Hdb : queues_ok db.
Hypothesis Hfresh : fresh_ids db fresh.

Definition recovered_in db' (id : Uuid) : Prop :=
  ∀ s, load_session db id = Ok s → ∃ s', load_session db' id = Ok s' ∧ session_recovered s s'.

Lemma recovered_in_same db1 db2 id : same_session db1 db2 id → recovered_in db1 id → recovered_in db2 id.
Proof. intros Hs Hr s Hl. destruct (Hr s Hl) as (s' & Hl' & ?). exists s'. by rewrite (same_session_load_session db1). Qed.

(** A page of sessions, each as it was at the start. *)
Lemma recover_page ids page : ∀ cur db',
  sessions_ok cur → NoDup ids → Forall2 (λ id s, load_session db id = Ok s) ids page →
  (∀ id, id ∈ ids → same_session db cur id) →
  for_each (recover_session now_ms a fresh) cur page = Ok db' →
  elsewhere cur db' (λ x, x ∈ ids) ∧ ∀ id, id ∈ ids → recovered_in db' id.
Proof.
  intros cur db' Hok Hd Hpage. revert cur Hok Hd. induction Hpage as [|id s ids page Hl _ IH]; intros cur Hok Hd Hsame;
    cbn [for_each].
  { intros [= <-]. split; [by split|]. by intros ? ?%not_elem_of_nil. }
  intros (db1 & Hone & Hrest)%rbind_Ok. apply NoDup_cons in Hd as [Hni Hd].
  apply load_session_Ok in Hl as [h Hl].
  assert (Hl1 : load_session_state cur id None = Ok (s, h)) by (rewrite (same_session_load db); [done|set_solver]).
  eapply recover_session_Ok in Hone as (Hel & s' & h' & Hl' & Hrec); [|exact Hok|exact Hl1| |apply (fi_inj _ _ Hfresh)|].
  2: by eapply qs_queue.
  2: { intros r. eapply (fi_new _ _ Hfresh id). unfold load_session. by rewrite Hl. }
  destruct (IH db1) as [Hel' Hdone]; [apply Hel|done| |done|].
  { intros x Hx. eapply same_session_trans; [apply Hsame; set_solver|]. apply Hel. intros ->. done. }
  split; [eapply elsewhere_trans; [|exact Hel|exact Hel']; set_solver|].
  intros x [->|Hx]%elem_of_cons; [|by apply Hdone]. apply (recovered_in_same db1); [by apply Hel'|].
  intros t Ht. exists s'. unfold load_session in *. rewrite Hl' . rewrite Hl in Ht. by injection Ht as <-.
Qed.

Lemma Forall2_on {A B} (P Q : A → B → Prop) l k :
  Forall2 P l k → (∀ x y, x ∈ l → P x y → Q x y) → Forall2 Q l k.
Proof. induction 1 as [|x y l k Hx _ IH]; intros HPQ; constructor; [|apply IH]; set_solver. Qed.

(** What is left from an offset on. *)
Definition remaining (offset : nat) : list Uuid := drop offset (reverse (session_order db)).

Lemma recover_next cur offset page db1 :
  sessions_ok cur → session_order cur = session_order db →
  (∀ id, id ∈ remaining offset → same_session db cur id) →
  sessions_page cur offset 64 = Ok page → for_each (recover_session now_ms a fresh) cur page = Ok db1 →
  elsewhere cur db1 (λ x, x ∈ take 64 (remaining offset)) ∧
  (∀ id, id ∈ take 64 (remaining offset) → recovered_in db1 id) ∧
  (∀ id, id ∈ drop 64 (remaining offset) → same_session db db1 id).
Proof.
  intros Hok Hord Hsame Hpage%sessions_page_Ok Heach. rewrite Hord in Hpage. fold (remaining offset) in Hpage.
  assert (NoDup (take 64 (remaining offset) ++ drop 64 (remaining offset))) as (Hd1 & Hdis & _)%NoDup_app.
  { rewrite take_drop. unfold remaining. eapply sublist_NoDup; [|apply sublist_drop].
    rewrite reverse_Permutation. apply Hdb. }
  assert (Hin : ∀ id, id ∈ take 64 (remaining offset) ∨ id ∈ drop 64 (remaining offset) → id ∈ remaining offset).
  { intros id Hid. rewrite <-(take_drop 64 (remaining offset)). by apply elem_of_app. }
  eapply recover_page in Heach as [Hel Hdone]; [|done|exact Hd1| |by eauto].
  - split_and!; [done..|]. intros id Hid. eapply same_session_trans; [by eauto|]. apply Hel. intros ?. by eapply Hdis.
  - eapply Forall2_on; [exact Hpage|]. intros id s Hid Hl. rewrite <-Hl. symmetry.
    apply same_session_load_session, Hsame. by eauto.
Qed.

(** The pages from an offset on: what is recovered when recovery succeeds, and that it
    ends either way. *)
Lemma recover_loop_Ok fuel : ∀ cur offset,
  sessions_ok cur → session_order cur = session_order db →
  (∀ id, id ∈ remaining offset → same_session db cur id) → length (session_order db) ≤ offset + fuel →
  ∃ r, recover_loop now_ms fuel a fresh cur offset = Some r ∧ ∀ db', r = Ok db' →
    elsewhere cur db' (λ x, x ∈ remaining offset) ∧ ∀ id, id ∈ remaining offset → recovered_in db' id.
Proof.
  induction fuel as [|fuel IH]; intros cur offset Hok Hord Hsame Hle; cbn [recover_loop];
    (destruct (sessions_page cur offset 64) as [page|e] eqn:Hpage; [|by eexists]);
    (destruct (for_each _ cur page) as [db1|e] eqn:Heach; [|by eexists]);
    pose proof (page_length _ _ _ Hpage) as Hlen; rewrite Hord in Hlen;
    destruct (recover_next _ _ _ _ Hok Hord Hsame Hpage Heach) as (Hel & Hdone & Hleft);
    case_bool_decide as Hlast; try lia.
  1,2: eexists; split; [done|]; intros db' [= <-]; rewrite take_ge in Hel, Hdone
    by (unfold remaining; rewrite length_drop, length_reverse; lia); done.
  assert (drop 64 (remaining offset) = remaining (offset + length page)) as Hdrop.
  { unfold remaining. rewrite drop_drop. f_equal. lia. }
  rewrite Hdrop in Hleft. destruct (IH db1 (offset + length page)) as (r & Hr & Hrec);
    [apply Hel|rewrite (proj1 (el_order _ _ _ Hel)); done|done|lia|].
  exists r. split; [done|]. intros db' ->. destruct (Hrec db' eq_refl) as [Hel' Hdone'].
  assert (Hin : ∀ x, x ∈ remaining offset ↔ x ∈ take 64 (remaining offset) ∨ x ∈ remaining (offset + length page)).
  { intros x. rewrite <-Hdrop. rewrite <-(take_drop 64 (remaining offset)) at 1. apply elem_of_app. }
  split; [eapply elsewhere_trans; [|exact Hel|exact Hel']; intros x; by rewrite Hin|].
  intros x [Hx|Hx]%Hin; [|by apply Hdone'].
  destruct (decide (x ∈ remaining (offset + length page))) as [Hy|Hy]; [by apply Hdone'|].
  apply (recovered_in_same db1); [by apply Hel'|by apply Hdone].
Qed.
End pass.

(** C14: recovery ends, and when it succeeds nothing is running: in every session a
    submission found running is queued again if its execution never began and settled as
    interrupted if it did, and every other submission is as it was. *)
Theorem recovery_leaves_none_running db a fresh :
  operated now_ms db → fresh_ids db fresh →
  ∃ r, recover_submissions now_ms db a fresh = Some r ∧ ∀ db' id s, r = Ok db' → load_session db id = Ok s →
    ∃ s', load_session db' id = Ok s' ∧ session_recovered s s' ∧
      ∀ request b, SessionState.submissions s' !! request = Some b → is_running b = false.
Proof.
  intros Hop%operated_queues Hfresh.
  destruct (recover_loop_Ok db a fresh Hop Hfresh (length (session_order db)) db 0) as (r & Hr & Hrec);
    [apply Hop|done|done|lia|].
  exists r. split; [done|]. intros db' id s -> Hl. destruct (Hrec db' eq_refl) as [_ Hdone].
  destruct (Hdone id) with (s := s) as (s' & Hl' & Hs'); [|done|].
  { unfold remaining. rewrite drop_0, elem_of_reverse. apply (oo_listed _ (qs_order _ Hop)).
    by apply load_session_in, elem_of_dom in Hl. }
  exists s'. split_and!; [done..|]. intros request b. by eapply session_recovered_settled.
Qed.
End recovery.
