(* ===== verification/QueueWitnesses.v ===== *)
(** * A queue at work

    A concrete run at which the theorems of [QueueGuarantees] apply: a session takes two
    submissions, one is claimed, and the host restarts. The codecs of events and states
    are tables of those of the run, as in [SessionWitnesses]. *)

From S2P Require Import Prelude Digest Codec Contract State Artifacts Workspace Input ArtifactGraph Journal.
From S2P Require Import Codecs Replay Store JsonValue Cost Conversation Admission Session Context.
From S2P Require Import SessionStore SessionCommands Queue Verification ContractAdmission.
From S2P Require Import Submissions Shell Auxiliary SessionSteps SessionGuarantees SessionWitnesses QueueGuarantees.

#[local] Existing Instance checksum_sha256.
#[local] Existing Instance demo_config_serde.
#[local] Existing Instance demo_host.
#[local] Existing Instance demo_turn_serde.
#[local] Existing Instance SessionCommand_eq_dec.
#[local] Existing Instance SessionEvent_eq_dec.
#[local] Existing Instance SessionState_eq_dec.

(** Inputs are decoded here. *)
#[local] Instance queue_store_serde : StoreSerde := {|
  serde_receipt := {| to_vec _ := None; from_slice _ := None |};
  serde_messages := codec_serde;
|}.
#[local] Instance queue_store_ok : StoreSerdeOk.
Proof. split; apply _. Qed.

Definition queue_text : string :=
  Eval vm_compute in default "" (to_vec [VObject [("content", VArray [VObject [("text", VString "why?");
    ("type", VString "input_text")]]); ("role", VString "user")]]).
Definition queue_input : Digest := Eval vm_compute in digest_of queue_text.
Definition queue_store : ArtifactStore.t := Replay.stored [queue_text].
Definition question : WorkIntent.t :=
  WorkIntent.Auxiliary (AuxiliarySpec.mk AuxiliaryKind.Question AuxiliaryContext.Clean None AuxiliaryLimits.default).
Definition waiting (id revision : N) : Submission.t :=
  Submission.mk None id queue_input queue_input [] None question SubmissionStatus.Queued revision 7.

Definition queue_commands : list (Uuid * SessionCommand.t) := [
  (1029%N, SessionCommand.Submitted (waiting 20 2));
  (1030%N, SessionCommand.Submitted (waiting 21 3));
  (40%N, SessionCommand.SubmissionChanged 20 SubmissionStatus.Running);
  (2021%N, SessionCommand.SubmissionChanged 20 SubmissionStatus.Queued)].

Definition queue_command_text (command : SessionCommand.t) : string :=
  match command with
  | SessionCommand.Submitted b => "submitted " +:+ u128_to_string (Submission.id b)
  | SessionCommand.SubmissionChanged _ SubmissionStatus.Running => "running"
  | SessionCommand.SubmissionChanged _ SubmissionStatus.Queued => "queued"
  | _ => "other"
  end.
#[local] Instance queue_command_serde : Serde SessionCommand.t :=
  {| to_vec command := Some (queue_command_text command); from_slice _ := None |}.

Definition queue_events : list (string * SessionEvent.t) :=
  ("created", SessionEvent.Created demo_creation)
  :: ((λ '(operation, command), (queue_command_text command, SessionEvent.Command operation command 5)) <$> queue_commands).

Fixpoint queue_trace (s : SessionState.t) (commands : list (Uuid * SessionCommand.t)) : list SessionState.t :=
  s :: match commands with
       | [] => []
       | (operation, command) :: commands =>
           match Apply.apply hook_id uuid_text s operation command with
           | Ok s => queue_trace s commands
           | Err _ => []
           end
       end.
Definition queue_states : list (string * SessionState.t) :=
  Eval vm_compute in zip ["s1"; "s2"; "s3"; "s4"; "s5"] (queue_trace (create 1 demo_creation) queue_commands).
Definition queue_session (n : nat) : SessionState.t := nth n queue_states.*2 (create 1 demo_creation).

#[local] Instance queue_serde : SessionSerde := {|
  serde_sevent := {| to_vec := table_to_vec queue_events; from_slice := table_from_slice queue_events |};
  serde_sstate := {| to_vec := table_to_vec queue_states; from_slice := table_from_slice queue_states |};
  serde_command := queue_command_serde;
  serde_sconfig := demo_config_serde;
  serde_revision := codec_serde;
  serde_value := codec_serde;
  serde_request := codec_serde;
  serde_settings := codec_serde;
|}.

#[local] Instance queue_serde_ok : SessionSerdeOk.
Proof.
  split.
  - intros event bytes Hb. apply table_ok in Hb as [Hin Hf]; [|by apply (bool_decide_unpack _); vm_compute].
    etransitivity; [exact Hf|]. f_equal. clear Hf. unfold queue_events, queue_commands in Hin. cbn [fmap list_fmap] in Hin.
    repeat (apply elem_of_cons in Hin as [[= -> ->]|Hin]; [done|]). by apply not_elem_of_nil in Hin.
  - intros s bytes _ Hb. apply table_ok in Hb as [_ Hf]; [done|by apply (bool_decide_unpack _); vm_compute].
  - intros []; try done. by destruct view.
  - intros operation revision view projection at_ms bytes Hb.
    apply table_ok in Hb as [Hin _]; [|by apply (bool_decide_unpack _); vm_compute]. exfalso.
    unfold queue_events, queue_commands in Hin. cbn [fmap list_fmap] in Hin.
    repeat (apply elem_of_cons in Hin as [[=]|Hin]). by apply not_elem_of_nil in Hin.
Qed.

(** ** The run *)

Definition fst_of {A B} (r : result (SessionDb * A) B) : SessionDb :=
  match r with Ok (db, _) => db | Err _ => empty_sdb end.
Definition queue_1 : SessionDb := Eval vm_compute in
  fst_of (create_session_seeded empty_sdb queue_store 100 1 demo_config (demo_profile "a") None None false).
Definition queue_2 : SessionDb := Eval vm_compute in
  fst_of (submit demo_clock queue_1 queue_store 7 1 20 queue_input question).
Definition queue_3 : SessionDb := Eval vm_compute in
  fst_of (submit demo_clock queue_2 queue_store 7 1 21 queue_input question).
Definition queue_4 : SessionDb := Eval vm_compute in
  fst_of (set_submission_status demo_clock queue_3 queue_store 40 1 20 SubmissionStatus.Running).

Lemma queue_created :
  create_session_seeded empty_sdb queue_store 100 1 demo_config (demo_profile "a") None None false
    = Ok (queue_1, queue_session 0).
Proof. by vm_compute. Qed.
Lemma queue_submitted : submit demo_clock queue_1 queue_store 7 1 20 queue_input question = Ok (queue_2, waiting 20 2).
Proof. by vm_compute. Qed.
Lemma queue_submitted_second :
  submit demo_clock queue_2 queue_store 7 1 21 queue_input question = Ok (queue_3, waiting 21 3).
Proof. by vm_compute. Qed.
Lemma queue_claimed :
  set_submission_status demo_clock queue_3 queue_store 40 1 20 SubmissionStatus.Running
    = Ok (queue_4, with_status SubmissionStatus.Running (waiting 20 2)).
Proof. by vm_compute. Qed.

Lemma queue_operated_1 : operated demo_clock queue_1.
Proof. apply rtc_once. eapply op_create, queue_created. Qed.
Lemma queue_operations_2 : rtc (session_operation demo_clock) queue_2 queue_4.
Proof.
  eapply rtc_l; [eapply op_submit, queue_submitted_second|]. apply rtc_once. eapply op_status, queue_claimed.
Qed.
Lemma queue_operated_4 : operated demo_clock queue_4.
Proof.
  unfold operated. etransitivity; [apply queue_operated_1|].
  eapply rtc_l; [eapply op_submit, queue_submitted|apply queue_operations_2].
Qed.
Lemma queue_loads_2 : load_session queue_2 1 = Ok (queue_session 1).
Proof. by vm_compute. Qed.
Lemma queue_loads_4 : load_session queue_4 1 = Ok (queue_session 3).
Proof. by vm_compute. Qed.

(** ** Witnesses *)

Lemma queues_consistent_witness : queue_ok (queue_session 3).
Proof. exact (queues_consistent demo_clock queue_4 1 (queue_session 3) queue_operated_4 queue_loads_4). Defined.

Lemma host_queue_bounded_witness :
  total_pending queue_4 ≤ HOST_LIMIT ∧
  (∃ r, pending_loop (length (session_order queue_4)) queue_4 0 0 = Some r) ∧
  ∀ n, pending_submissions queue_4 = Ok n → n = total_pending queue_4.
Proof. exact (host_queue_bounded demo_clock queue_4 queue_operated_4). Defined.

Lemma submissions_never_lost_witness :
  ∃ s' b', load_session queue_4 1 = Ok s' ∧ SessionState.submissions s' !! 20%N = Some b' ∧ kept (waiting 20 2) b'.
Proof.
  apply (submissions_never_lost demo_clock queue_2 queue_4 1 (queue_session 1) 20 (waiting 20 2)).
  - unfold operated. etransitivity; [apply queue_operated_1|]. apply rtc_once. eapply op_submit, queue_submitted.
  - exact queue_operations_2.
  - exact queue_loads_2.
  - by vm_compute.
Defined.

Lemma submission_admitted_once_witness :
  ∃ b', kept (waiting 20 2) b' ∧
    submit demo_clock queue_4 queue_store 99 1 20 queue_input question = Ok (queue_4, b') ∧
    ∀ a' input' intent' r, (input', intent') ≠ (queue_input, question) →
      submit demo_clock queue_4 a' 99 1 20 input' intent' ≠ Ok r.
Proof.
  exact (submission_admitted_once demo_clock queue_1 queue_2 queue_4 queue_store 7 1 20 queue_input question
    (waiting 20 2) 99 queue_operated_1 queue_submitted queue_operations_2).
Defined.

Definition queue_fresh (session request : Uuid) : Uuid := (2000 + session + request)%N.

Lemma recovery_leaves_none_running_witness :
  ∃ r, recover_submissions demo_clock queue_4 queue_store queue_fresh = Some r ∧
    ∀ db' id s, r = Ok db' → load_session queue_4 id = Ok s →
    ∃ s', load_session db' id = Ok s' ∧ session_recovered s s' ∧
      ∀ request b, SessionState.submissions s' !! request = Some b → is_running b = false.
Proof.
  apply (recovery_leaves_none_running demo_clock queue_4 queue_store queue_fresh queue_operated_4). split.
  - intros id x y. unfold queue_fresh. lia.
  - intros id s r Hl. assert (id = 1%N) as ->.
    { apply load_session_in in Hl. assert (dom (sessions queue_4) = {[1%N]}) as Hd by by vm_compute. set_solver. }
    rewrite queue_loads_4 in Hl. injection Hl as <-.
    assert (∀ k, is_Some (SessionState.operations (queue_session 3) !! k) → (k < 2000)%N) as Hsmall.
    { intros k Hk. assert (k ∈ btree_keys (SessionState.operations (queue_session 3))) as Hin by by apply elem_of_btree_keys.
      assert (btree_keys (SessionState.operations (queue_session 3)) = [40; 1029; 1030]%N) as Heq by by vm_compute.
      rewrite Heq in Hin. set_solver by lia. }
    apply eq_None_not_Some. intros Hk%Hsmall. unfold queue_fresh in Hk. lia.
Defined.

(** Recovery succeeds on it. *)
Lemma queue_recovers :
  match recover_submissions demo_clock queue_4 queue_store queue_fresh with
  | Some (Ok db) => load_session db 1 = Ok (queue_session 4)
  | _ => False
  end.
Proof. by vm_compute. Qed.
