(* ===== verification/Media.v ===== *)
(** * User media (crates/harness/src/input.rs, feedback.rs)

    What a user attaches (text, images, review notes) is checked, its images stored as
    artifacts, and the message that refers to them stored as one more. Before a request
    the references are replaced by what they refer to, newest first, within a byte
    budget. *)

From S2P Require Import Prelude Digest Codec Contract State Artifacts Workspace Input ArtifactGraph Journal Store JsonValue.
From S2P Require Import Cost Session SessionStore ContractAdmission Submissions.

(** The [STANDARD] engine of base64. *)
Class Base64 := {
  b64_encode : string → string;
  b64_decode : string → option string;
}.

(** ** Review feedback (feedback.rs, review.rs) *)

Module ReviewRange.
Inductive t : Type :=
| Snapshots (before after : Digest)
| WorkingTree (base : option string)
| Staged (base : option string)
| Commit (revision : string)
| Between (base head : string).
End ReviewRange.

Module ReviewManifest.
Record t : Type := mk {
  version : N;
  source_identity : Digest;
  repository : string;
  range : ReviewRange.t;
  base_revision : option string;
  head_revision : option string;
  before : Digest;
  after : Digest;
  patch : Digest;
  git_executable : Digest;
  metadata_changes : list string;
}.

(** The tuple whose digest identifies the source of a review. *)
Definition identity : Type := N * ReviewRange.t * option string * option string * Digest * Digest * Digest.
Definition identity_of (m : t) : identity :=
  (1%N, range m, base_revision m, head_revision m, before m, after m, patch m).
End ReviewManifest.

Module Disposition.
Inductive t : Type := Approved | ChangesRequested | Comment.
(** [{:?}] *)
Definition debug (d : t) : string :=
  match d with Approved => "Approved" | ChangesRequested => "ChangesRequested" | Comment => "Comment" end.
End Disposition.

Module ReviewFeedback.
Record t : Type := mk {
  version : N;
  session : Uuid;
  manifest : Digest;
  source_identity : Digest;
  disposition : Disposition.t;
  body : string;
}.
End ReviewFeedback.

Class ReviewSerde := {
  #[global] serde_identity :: Serde ReviewManifest.identity;
  #[global] serde_manifest :: Serde ReviewManifest.t;
  #[global] serde_feedback :: Serde ReviewFeedback.t;
}.

(** A page of the host (inference/protocol.rs). *)
Module InternalContextMedia.
Record t : Type := mk {
  digest : Digest;
  mime : string;
  locator : string;
  provider_file_id : option string;
}.
End InternalContextMedia.

(** ** Content (input.rs) *)

Module Content.
Inductive t : Type :=
| Review (digest : Digest)
| Text (text : string)
| Image (image_url detail : string).

(** [deny_unknown_fields] *)
Definition only (allowed : list string) (fields : list (string * Value)) : bool :=
  forallb (λ f, bool_decide (f.1 ∈ "type" :: allowed)) fields.
Definition string_field (name : string) (fields : list (string * Value)) : option string :=
  v ← field name fields; as_str v.

(** The variants by their tags. *)
Definition review_of (digest : Value) : option t := digest ← digest_from_value digest; Some (Review digest).
Definition text_of (text : Value) : option t := text ← as_str text; Some (Text text).
Definition image_of (url : Value) (detail : option Value) : option t :=
  url ← as_str url;
  detail ← match detail with Some v => as_str v | None => Some "auto" end;
  Some (Image url detail).

(** [serde_json::from_value]: tagged by [type], or an array with the tag first and the fields in order; [detail] has a
    default. *)
Definition from_value (v : Value) : option t :=
  match v with
  | VObject fields =>
      tag ← string_field "type" fields;
      if str_eqb tag "input_review" then
        if only ["digest"] fields then field "digest" fields ≫= review_of else None
      else if str_eqb tag "input_text" then
        if only ["text"] fields then field "text" fields ≫= text_of else None
      else if str_eqb tag "input_image" then
        if only ["image_url"; "detail"] fields
        then url ← field "image_url" fields; image_of url (field "detail" fields) else None
      else None
  | VArray (VString tag :: values) =>
      match values with
      | [v] => if str_eqb tag "input_review" then review_of v
               else if str_eqb tag "input_text" then text_of v
               else if str_eqb tag "input_image" then image_of v None else None
      | [v; detail] => if str_eqb tag "input_image" then image_of v (Some detail) else None
      | _ => None
      end
  | _ => None
  end.
End Content.

Definition text_part (text : string) : Value := VObject [("text", VString text); ("type", VString "input_text")].
Definition review_part (digest : Digest) : Value :=
  VObject [("digest", VString (digest_to_string digest)); ("type", VString "tact_review")].
Definition image_part (digest : Digest) (mime detail : string) : Value :=
  VObject [("detail", VString detail); ("digest", VString (digest_to_string digest)); ("mime", VString mime);
           ("type", VString "tact_image")].
Definition user_parts (parts : list Value) : Value :=
  VObject [("content", VArray parts); ("role", VString "user")].

Definition is_comma (c : ascii) : bool := ascii_is 44 c.

(** [str::strip_suffix] *)
Definition strip_suffix (suffix s : string) : option string :=
  let n := (String.length s - String.length suffix)%nat in
  if str_eqb (String.substring n (String.length suffix) s) suffix && bool_decide (String.length suffix ≤ String.length s)%nat
  then Some (String.substring 0 n s) else None.

(** The bytes named by their codes. *)
Definition bytes_of (codes : list N) : string := String.string_of_list_ascii (ascii_of_N <$> codes).
(** [b"\x89PNG\r\n\x1a\n"], [b"\xff\xd8\xff"] *)
Definition png_signature : string := bytes_of [137; 80; 78; 71; 13; 10; 26; 10]%N.
Definition jpeg_signature : string := bytes_of [255; 216; 255]%N.

(** The bytes begin as their media type does; only four types are known. *)
Definition media_valid (mime bytes : string) : bool :=
  if str_eqb mime "image/png" then starts_with bytes png_signature
  else if str_eqb mime "image/jpeg" then starts_with bytes jpeg_signature
  else if str_eqb mime "image/gif" then starts_with bytes "GIF87a" || starts_with bytes "GIF89a"
  else if str_eqb mime "image/webp" then
    starts_with bytes "RIFF" && str_eqb (String.substring 8 4 bytes) "WEBP"
  else false.

Definition KIB : N := 1024.
Definition MIB : N := 1024 * 1024.

Module Preparing.
(** The mutable variables of [prepare]. *)
Record t : Type := mk {
  text : string;
  normalized : list Value;
  media_bytes : N;
  images : N;
  review_bytes : N;
  store : ArtifactStore.t;
}.
#[global] Instance eta_t : Eta t :=
  λ p, mk (text p) (normalized p) (media_bytes p) (images p) (review_bytes p) (store p).
End Preparing.

Section media.
Context {SHA : Sha256} {REV : ReviewSerde} {B64 : Base64} `{!Serde (list Value)}.
Implicit Types (a : ArtifactStore.t).

#[local] Notation invalid reason := (StoreError.Invalid reason).
#[local] Notation integrity reason := (StoreError.Integrity reason).

(** [review::read_json]: a regular file of at most 16 MiB whose digest is its name. *)
Definition review_json {A} `{!Serde A} a (digest : Digest) : option A :=
  match ArtifactStore.root a !! ArtifactStore.path digest with
  | Some (RegularFile bytes) =>
      if (16 * MIB <? str_len bytes)%N || bool_decide (digest_of bytes ≠ digest) then None else from_slice bytes
  | _ => None
  end.

(** [review::manifest]; its errors are told apart by no caller here. *)
Definition review_manifest a (digest : Digest) : option ReviewManifest.t :=
  m ← review_json a digest;
  identity ← of_value (ReviewManifest.identity_of m);
  if negb (ReviewManifest.version m =? 1)%N || bool_decide (ReviewManifest.source_identity m ≠ identity)
  then None else Some m.

(** [feedback::read] *)
Definition read_feedback a (digest : Digest) : result ReviewFeedback.t StoreError.t :=
  let? bytes := read a digest in
  let? _ := reject_if (68 * KIB <? str_len bytes)%N (invalid "review feedback exceeds its bound") in
  let? feedback := ok_or (from_slice (A := ReviewFeedback.t) bytes) StoreError.Json in
  let? _ := reject_if (negb (ReviewFeedback.version feedback =? 1)%N
                       || (64 * KIB <? str_len (ReviewFeedback.body feedback))%N)
              (invalid "unsupported review feedback") in
  let? m := ok_or (review_manifest a (ReviewFeedback.manifest feedback))
              (integrity "review feedback has no valid source manifest") in
  let? _ := reject_if (bool_decide (ReviewManifest.source_identity m ≠ ReviewFeedback.source_identity feedback))
              (integrity "review feedback source identity mismatch") in
  Ok feedback.

(** The media type and the text of a data URL. *)
Definition data_url (url : string) : result (string * string) StoreError.t :=
  let? '(header, encoded) := ok_or (split_once is_comma url) (invalid "image input must be an embedded data URL") in
  let? mime := ok_or (header ← strip_prefix "data:" header; strip_suffix ";base64" header)
                 (invalid "image input must be base64 data") in
  Ok (mime, encoded).

Definition supported_detail (detail : string) : bool :=
  str_eqb detail "auto" || str_eqb detail "low" || str_eqb detail "high".

(** One turn of the loop of [prepare]. *)
Definition prepare_part (p : Preparing.t) (part : Content.t) : result Preparing.t StoreError.t :=
  let store := Preparing.store p in
  match part with
  | Content.Review digest =>
      let? feedback := read_feedback store digest in
      let p := p <| Preparing.review_bytes := (Preparing.review_bytes p + str_len (ReviewFeedback.body feedback))%N |> in
      let? _ := reject_if (128 * KIB <? Preparing.review_bytes p + str_len (Preparing.text p))%N
                  (invalid "input text and review attachments exceed 128 KiB") in
      Ok (p <| Preparing.normalized := Preparing.normalized p ++ [review_part digest] |>)
  | Content.Text text =>
      let p := p <| Preparing.text := Preparing.text p +:+ text |> in
      let? _ := reject_if (128 * KIB <? str_len (Preparing.text p) + Preparing.review_bytes p)%N
                  (invalid "input text exceeds 128 KiB") in
      Ok (p <| Preparing.normalized := Preparing.normalized p ++ [text_part text] |>)
  | Content.Image url detail =>
      let? _ := reject_if (negb (supported_detail detail)) (invalid "unsupported image detail") in
      let p := p <| Preparing.images := (Preparing.images p + 1)%N |> in
      let? _ := reject_if ((8 <? Preparing.images p) || (12 * MIB <? str_len url))%N
                  (invalid "image input exceeds its bounds") in
      let? '(mime, encoded) := data_url url in
      let? bytes := ok_or (b64_decode encoded) (invalid "invalid image encoding") in
      let p := p <| Preparing.media_bytes := (Preparing.media_bytes p + str_len bytes)%N |> in
      let? _ := reject_if (4 * MIB <? Preparing.media_bytes p)%N
                  (invalid "combined images exceed 4 MiB; resize before submission") in
      let? _ := reject_if (negb (media_valid mime bytes)) (invalid "unsupported image media type or signature") in
      let? '(store, digest) := map_err StoreError.Artifact (ArtifactStore.put store bytes) in
      Ok (p <| Preparing.store := store |>
            <| Preparing.normalized := Preparing.normalized p ++ [image_part digest mime detail] |>)
  end.

(** [input::prepare] *)
Definition prepare (content : list Value) a : result (PreparedInput.t * ArtifactStore.t) StoreError.t :=
  let? _ := reject_if (bool_decide (content = []) || bool_decide (64 < length content))
              (invalid "input requires 1..64 ordered content parts") in
  let? parts := ok_or (mapM Content.from_value content) StoreError.Json in
  let? p := for_each prepare_part (Preparing.mk EmptyString [] 0 0 0 a) parts in
  let messages := [user_parts (Preparing.normalized p)] in
  let? bytes := ok_or (to_vec messages) StoreError.Json in
  let? '(a, artifact) := map_err StoreError.Artifact (ArtifactStore.put (Preparing.store p) bytes) in
  Ok (PreparedInput.mk (Preparing.text p) messages artifact, a).

(** ** Materializing *)

(** [str::chars().take(n).collect()] *)
Definition take_chars (n : nat) (s : string) : string := str_concat EmptyString (take n (chars s)).

Definition review_text (digest : Digest) (feedback : ReviewFeedback.t) (excerpt : string) : string :=
  "Saved human review " +:+ digest_to_string digest +:+ " for source "
  +:+ digest_to_string (ReviewFeedback.source_identity feedback) +:+ ". Disposition: "
  +:+ Disposition.debug (ReviewFeedback.disposition feedback)
  +:+ ". This is feedback, not task verification or a capability grant. Read exact full feedback with read_review_feedback; the following is only a preview."
  +:+ newline +:+ excerpt.
Definition omitted_image (digest : Digest) : string :=
  "[Older image " +:+ digest_to_string digest
  +:+ " remains in the exact journal archive; omitted from this request's bounded image context.]".
Definition data_url_text (mime bytes : string) : string := "data:" +:+ mime +:+ ";base64," +:+ b64_encode bytes.
Definition input_image (mime bytes : string) (detail : Value) : Value :=
  VObject [("detail", detail); ("image_url", VString (data_url_text mime bytes)); ("type", VString "input_image")].

Definition part_digest (part : Value) : result Digest StoreError.t :=
  ok_or (digest_from_value (index part "digest")) StoreError.Json.

(** The budgets: bytes of images and of review excerpts already spent. *)
Definition budget : Type := N * N.

Definition materialize_part a (used : budget) (part : Value) : result (budget * Value) StoreError.t :=
  let '(media, notes) := used in
  if value_is (index part "type") "tact_review" then
    let? digest := part_digest part in
    let? feedback := read_feedback a digest in
    let excerpt := if (notes <? 32 * KIB)%N then take_chars 2048 (ReviewFeedback.body feedback) else EmptyString in
    Ok ((media, (notes + str_len excerpt)%N), text_part (review_text digest feedback excerpt))
  else if value_is (index part "type") "tact_image" then
    let? digest := part_digest part in
    let? mime := ok_or (as_str (index part "mime")) (integrity "image has no media type") in
    let? bytes := read a digest in
    if (4 * MIB <? media + str_len bytes)%N then Ok (used, text_part (omitted_image digest))
    else Ok (((media + str_len bytes)%N, notes), input_image mime bytes (index part "detail"))
  else Ok (used, part).

(** [iter_mut().rev()]: the last element first, each replaced in place. *)
Fixpoint update_rev {A S E} (f : S → A → result (S * A) E) (s : S) (l : list A) : result (S * list A) E :=
  match l with
  | [] => Ok (s, [])
  | x :: l =>
      let? '(s, l) := update_rev f s l in
      let? '(s, x) := f s x in
      Ok (s, x :: l)
  end.

(** [Map::insert], the keys of a map being in order. *)
Fixpoint insert_key (name : string) (v : Value) (fields : list (string * Value)) : list (string * Value) :=
  match fields with
  | [] => [(name, v)]
  | (key, old) :: fields =>
      if String.ltb name key then (name, v) :: (key, old) :: fields else (key, old) :: insert_key name v fields
  end.
Definition set_key (name : string) (v : Value) (fields : list (string * Value)) : list (string * Value) :=
  if bool_decide (is_Some (field name fields)) then set_field name v fields else insert_key name v fields.

(** [message["content"].as_array_mut()]: a key that is missing is created with [null]. *)
Definition materialize_message a (used : budget) (message : Value) : result (budget * Value) StoreError.t :=
  if negb (value_is (index message "role") "user") then Ok (used, message) else
  match message with
  | VObject fields =>
      match index message "content" with
      | VArray parts =>
          let? '(used, parts) := update_rev (materialize_part a) used parts in
          Ok (used, VObject (set_key "content" (VArray parts) fields))
      | content => Ok (used, VObject (set_key "content" content fields))
      end
  | _ => Ok (used, message)
  end.

(** [input::materialize] *)
Definition materialize (messages : list Value) a : result (list Value) StoreError.t :=
  let? '(_, messages) := update_rev (materialize_message a) (0, 0)%N messages in Ok messages.

(** ** Pages of the host *)

(** [chars().any(char::is_control)] *)
Definition has_control (s : string) : bool := existsb char_is_control (chars s).
(** [u8::is_ascii_graphic] *)
Definition is_ascii_graphic (c : ascii) : bool := ascii_between 33 126 c.

Definition internal_page a (page : InternalContextMedia.t) : result (list Value) StoreError.t :=
  let locator := InternalContextMedia.locator page in
  let mime := InternalContextMedia.mime page in
  let? _ := reject_if (str_is_empty locator || (512 <? str_len locator)%N || has_control locator)
              (invalid "invalid internal context page locator") in
  let? bytes := read a (InternalContextMedia.digest page) in
  let? _ := reject_if (negb (media_valid mime bytes))
              (integrity "internal context media has an invalid type or signature") in
  let label := text_part ("[Host context page: " +:+ locator +:+ "]") in
  match InternalContextMedia.provider_file_id page with
  | Some file_id =>
      let? _ := reject_if (str_is_empty file_id || (512 <? str_len file_id)%N
                           || negb (str_forallb is_ascii_graphic file_id)) (invalid "invalid provider file identity") in
      Ok [label; VObject [("detail", VString "high"); ("file_id", VString file_id); ("type", VString "input_image")]]
  | None => Ok [label; input_image mime bytes (VString "high")]
  end.

(** [input::materialize_internal_context_parts] *)
Definition internal_parts a (media : list InternalContextMedia.t) : result (list Value) StoreError.t :=
  let? _ := reject_if (bool_decide (media = [])) (invalid "internal context media is empty") in
  for_each (λ parts page, let? page := internal_page a page in Ok (parts ++ page)) [] media.

(** [input::materialize_internal_context_media] *)
Definition internal_message a (media : list InternalContextMedia.t) : result Value StoreError.t :=
  let? parts := internal_parts a media in Ok (user_parts parts).
End media.

(** ** Lemmas *)

Section media_lemmas.
Context {SHA : Sha256} {REV : ReviewSerde} {B64 : Base64} `{!Serde (list Value)}.
Implicit Types (a : ArtifactStore.t) (p : Preparing.t).

(** The artifact that a part of a stored message refers to. *)
Definition part_reference (part : Value) : option Digest := digest_from_value (index part "digest").

Lemma str_concat_snoc l s : str_concat "" (l ++ [s]) = str_concat "" l +:+ s.
Proof.
  induction l as [|x [|y l] IH]; [done|done|].
  change (x +:+ ("" +:+ str_concat "" ((y :: l) ++ [s])) = (x +:+ ("" +:+ str_concat "" (y :: l))) +:+ s).
  rewrite IH, !str_app_nil. symmetry; apply str_app_assoc.
Qed.

(** What [prepare] keeps of its variables while it takes the parts in turn. *)
Definition preparing_ok p : Prop :=
  Preparing.text p = str_concat "" (omap (λ part, as_str (index part "text")) (Preparing.normalized p)) ∧
  Forall (λ part, is_input_part part = true) (Preparing.normalized p) ∧
  Forall (λ part, is_media part = true → ∃ d, part_reference part = Some d ∧ stored (Preparing.store p) d)
    (Preparing.normalized p) ∧
  (Preparing.media_bytes p ≤ 4 * MIB)%N ∧ (Preparing.images p ≤ 8)%N ∧
  (str_len (Preparing.text p) + Preparing.review_bytes p ≤ 128 * KIB)%N.

Lemma part_reference_text d fields :
  field "digest" fields = Some (VString (digest_to_string d)) → part_reference (VObject fields) = Some d.
Proof. intros Hf. unfold part_reference. cbn [index]. by rewrite Hf; cbn; rewrite digest_from_to_string. Qed.

Lemma prepare_part_ok p part p' :
  preparing_ok p → prepare_part p part = Ok p' →
  preparing_ok p' ∧ length (Preparing.normalized p') = S (length (Preparing.normalized p)).
Proof.
  intros (Ht & Hi & Hr & Hm & Hn & Hb). destruct part as [d|text|url detail]; cbn [prepare_part].
  - intros (f & Hf & ([] & Hlt%reject_if_Ok%N.ltb_ge & [= <-])%rbind_Ok)%rbind_Ok. revert Hlt.
    destruct p as [txt nz mb im rb st]. unfold put. cbn. intros Hlt. rewrite length_app. cbn.
    split; [|lia]. split_and!; cbn.
    + rewrite omap_app. cbn in *. by rewrite app_nil_r.
    + by apply Forall_app_2; [|constructor].
    + apply Forall_app_2; [done|constructor; [|done]]. intros _. exists d. split; [by apply part_reference_text|].
      apply rbind_Ok in Hf as (bytes & Hread%map_err_Ok & _). by exists bytes.
    + done.
    + done.
    + cbn in *. lia.
  - intros ([] & Hlt%reject_if_Ok%N.ltb_ge & [= <-])%rbind_Ok. revert Hlt.
    destruct p as [txt nz mb im rb st]. unfold put. cbn. intros Hlt. rewrite length_app. cbn.
    split; [|lia]. split_and!; cbn.
    + rewrite omap_app. change (omap _ [text_part text]) with [text]. cbn in Ht. by rewrite str_concat_snoc, <-Ht.
    + by apply Forall_app_2; [|constructor].
    + apply Forall_app_2; [done|constructor; [|done]]. by intros [=].
    + done.
    + done.
    + done.
  - intros ([] & _ & ([] & Himg%reject_if_Ok & H)%rbind_Ok)%rbind_Ok.
    apply rbind_Ok in H as ([mime encoded] & _ & (bytes & _ & H)%rbind_Ok).
    apply rbind_Ok in H as ([] & Hmb%reject_if_Ok%N.ltb_ge & ([] & _ & H)%rbind_Ok).
    apply rbind_Ok in H as ([st' d] & Hput%map_err_Ok & [= <-]).
    apply orb_false_iff in Himg as [Himg%N.ltb_ge _]. revert Himg Hmb Hput.
    destruct p as [txt nz mb im rb st]. unfold put. cbn. intros Himg Hmb Hput. rewrite length_app. cbn.
    apply put_stored in Hput as Hst. apply put_spec in Hput as [-> _]. destruct Hst as [Hst Hmono].
    split; [|lia]. split_and!; cbn.
    + rewrite omap_app. cbn in *. by rewrite app_nil_r.
    + by apply Forall_app_2; [|constructor].
    + apply Forall_app_2; [|constructor; [|done]].
      * eapply Forall_impl; [exact Hr|]. intros x Hx Hmx. destruct (Hx Hmx) as (d & ? & ?). eauto.
      * intros _. exists (digest_of bytes). split; [by apply part_reference_text|done].
    + lia.
    + lia.
    + done.
Qed.

Lemma prepare_parts_ok a parts p :
  for_each prepare_part (Preparing.mk EmptyString [] 0 0 0 a) parts = Ok p →
  preparing_ok p ∧ length (Preparing.normalized p) = length parts.
Proof.
  apply (for_each_inv (λ seen p, preparing_ok p ∧ length (Preparing.normalized p) = length seen)).
  - split; [|done]. by split_and!; try constructor; cbn; try lia.
  - intros seen part p1 p2 _ [Hok Hlen] Hp. destruct (prepare_part_ok _ _ _ Hok Hp) as [Hok' Hlen'].
    split; [done|]. rewrite Hlen', Hlen, length_app. cbn. lia.
Qed.

Lemma is_input_part_forall parts :
  Forall (λ part, is_input_part part = true) parts → existsb (λ part, negb (is_input_part part)) parts = false.
Proof. induction 1 as [|part parts Hp _ IH]; [done|]. cbn. by rewrite Hp. Qed.

Lemma mapM_references a parts :
  Forall (λ part, is_media part = true → ∃ d, part_reference part = Some d ∧ stored a d) parts →
  ∃ refs, mapM part_reference (base.filter (λ part, is_media part = true) parts) = Some refs ∧ Forall (stored a) refs.
Proof.
  induction 1 as [|part parts Hp _ (refs & Hrefs & Hst)]; [by exists []|].
  rewrite filter_cons. destruct (decide _) as [Hm|_]; [|by eauto].
  destruct (Hp Hm) as (d & Hd & Hs). exists (d :: refs). split; [|by constructor].
  cbn [mapM]. by rewrite Hd; cbn; rewrite Hrefs.
Qed.

(** The references of the message that [prepare] stores read back. *)
Lemma user_parts_references a parts :
  Forall (λ part, is_media part = true → ∃ d, part_reference part = Some d ∧ stored a d) parts →
  ∃ refs, message_references (user_parts parts) = Some refs ∧ Forall (stored a) refs.
Proof. intros (refs & ? & ?)%mapM_references. by exists refs. Qed.

(** A put reads back as what was put, unless other bytes have the same digest. *)
Lemma put_reads a bytes a' d :
  ArtifactStore.put a bytes = Ok (a', d) →
  ArtifactStore.read a' d = Ok bytes ∨ ∃ other, other ≠ bytes ∧ digest_of other = digest_of bytes.
Proof.
  intros (-> & Hlen & [[-> [other Hr]]|[_ ->]])%put_spec.
  - destruct (decide (other = bytes)) as [->|Hne]; [by left|].
    apply read_Ok in Hr as (_ & _ & Hd). right. by exists other.
  - left. apply read_Ok. unfold put. cbn. by rewrite lookup_insert_eq.
Qed.

(** What reads stays readable when artifacts are added. *)
Definition reads_kept a a' : Prop := ∀ d bytes, ArtifactStore.read a d = Ok bytes → ArtifactStore.read a' d = Ok bytes.

Lemma reads_kept_refl a : reads_kept a a.
Proof. by intros d bytes. Qed.
Lemma reads_kept_trans a1 a2 a3 : reads_kept a1 a2 → reads_kept a2 a3 → reads_kept a1 a3.
Proof. intros H1 H2 d bytes ?. by apply H2, H1. Qed.

Lemma put_keeps a bytes a' d : ArtifactStore.put a bytes = Ok (a', d) → reads_kept a a'.
Proof.
  intros (-> & _ & [[-> _]|[Hn ->]])%put_spec; [apply reads_kept_refl|].
  intros d b (Hr & ? & ?)%read_Ok. apply read_Ok. unfold put. cbn. split_and!; [|done..].
  rewrite lookup_insert_ne; [done|]. intros Heq. congruence.
Qed.

Lemma prepare_part_keeps p part p' : prepare_part p part = Ok p' → reads_kept (Preparing.store p) (Preparing.store p').
Proof.
  destruct part as [d|text|url detail]; cbn [prepare_part].
  - intros (f & _ & ([] & _ & [= <-])%rbind_Ok)%rbind_Ok. apply reads_kept_refl.
  - intros ([] & _ & [= <-])%rbind_Ok. apply reads_kept_refl.
  - intros ([] & _ & ([] & _ & H)%rbind_Ok)%rbind_Ok. apply rbind_Ok in H as ([mime encoded] & _ & (bytes & _ & H)%rbind_Ok).
    apply rbind_Ok in H as ([] & _ & ([] & _ & H)%rbind_Ok). apply rbind_Ok in H as ([st' d] & Hput%map_err_Ok & [= <-]).
    by apply put_keeps in Hput.
Qed.

Lemma prepare_keeps content a input a' : prepare content a = Ok (input, a') → reads_kept a a'.
Proof.
  unfold prepare. intros ([] & _ & (parts & _ & H)%rbind_Ok)%rbind_Ok.
  apply rbind_Ok in H as (st & Hst & (bytes & _ & H)%rbind_Ok).
  apply rbind_Ok in H as ([a1 d] & Hput%map_err_Ok & [= _ <-]).
  eapply reads_kept_trans; [|by eapply put_keeps].
  revert Hst. apply (for_each_inv (λ _ p, reads_kept a (Preparing.store p))); [apply reads_kept_refl|].
  intros seen part p1 p2 _ H1 Hp. eapply reads_kept_trans; [exact H1|by eapply prepare_part_keeps].
Qed.

(** *** What a prepared message is made of *)

(** Adding artifacts changes no entry that is there. *)
Definition entries_kept a a' : Prop :=
  ArtifactStore.root a ⊆ ArtifactStore.root a' ∧
  ArtifactStore.max_artifact_bytes a' = ArtifactStore.max_artifact_bytes a.

Lemma entries_kept_refl a : entries_kept a a.
Proof. by split. Qed.
Lemma entries_kept_trans a1 a2 a3 : entries_kept a1 a2 → entries_kept a2 a3 → entries_kept a1 a3.
Proof. intros [H1 E1] [H2 E2]. split; [by etrans|congruence]. Qed.

Lemma put_entries a bytes a' d : ArtifactStore.put a bytes = Ok (a', d) → entries_kept a a'.
Proof.
  intros (-> & _ & [[-> _]|[Hn ->]])%put_spec; [apply entries_kept_refl|]. split; [|done]. by apply insert_subseteq.
Qed.

Lemma entries_kept_reads a a' : entries_kept a a' → reads_kept a a'.
Proof. intros [Hr Hm] d bytes (Hl & ? & ?)%read_Ok. apply read_Ok. rewrite Hm. split_and!; [|done..]. by eapply lookup_weaken. Qed.

Lemma entries_kept_review_json {A} `{!Serde A} a a' d (x : A) : entries_kept a a' → review_json a d = Some x → review_json a' d = Some x.
Proof.
  intros [Hr _]. unfold review_json. destruct (ArtifactStore.root a !! _) as [entry|] eqn:Hl; [|done].
  by rewrite (lookup_weaken _ _ _ _ Hl Hr).
Qed.

Lemma entries_kept_feedback a a' d f : entries_kept a a' → read_feedback a d = Ok f → read_feedback a' d = Ok f.
Proof.
  intros Hg. unfold read_feedback, read. intros (bytes & Hread%map_err_Ok & H)%rbind_Ok.
  rewrite (entries_kept_reads _ _ Hg _ _ Hread). cbn [map_err rbind].
  apply rbind_Ok in H as ([] & -> & (g & -> & ([] & Hv & H)%rbind_Ok)%rbind_Ok). cbn [rbind]. rewrite Hv. cbn [rbind].
  apply rbind_Ok in H as (m & Hm%ok_or_Ok & H). unfold review_manifest in *.
  apply bind_Some in Hm as (m1 & Hj & Hm). by rewrite (entries_kept_review_json _ _ _ _ Hg Hj); cbn; rewrite Hm.
Qed.

(** The stored form of a part, and what it was accepted for: an image has a supported detail, an address within its
    bound, and bytes of the type it names. *)
Definition accepted_part a (part : Content.t) (stored_as : Value) : Prop :=
  match part with
  | Content.Text text => stored_as = text_part text
  | Content.Review digest => stored_as = review_part digest ∧ ∃ feedback, read_feedback a digest = Ok feedback
  | Content.Image url detail => ∃ mime encoded bytes,
      data_url url = Ok (mime, encoded) ∧ b64_decode encoded = Some bytes ∧
      stored_as = image_part (digest_of bytes) mime detail ∧
      detail ∈ ["auto"; "low"; "high"] ∧ (str_len url ≤ 12 * MIB)%N ∧ media_valid mime bytes = true
  end.

(** How many images the parts have, how many bytes these hold, and how many the reviews. *)
Definition part_image (part : Content.t) : bool := match part with Content.Image _ _ => true | _ => false end.
Definition part_texts (parts : list Content.t) : list string :=
  omap (λ part, match part with Content.Text text => Some text | _ => None end) parts.
Definition image_bytes (part : Content.t) : N :=
  match part with
  | Content.Image url _ =>
      match data_url url with
      | Ok (_, encoded) => match b64_decode encoded with Some bytes => str_len bytes | None => 0 end
      | Err _ => 0
      end
  | _ => 0
  end.
Definition feedback_bytes a (part : Content.t) : N :=
  match part with
  | Content.Review digest =>
      match read_feedback a digest with Ok feedback => str_len (ReviewFeedback.body feedback) | Err _ => 0 end
  | _ => 0
  end.

Lemma accepted_part_entries a a' part v : entries_kept a a' → accepted_part a part v → accepted_part a' part v.
Proof. intros Hg. destruct part; cbn; [|done..]. intros (-> & f & Hf). split; [done|]. exists f. by eapply entries_kept_feedback. Qed.

Lemma feedback_bytes_entries a a' parts vs :
  entries_kept a a' → Forall2 (accepted_part a) parts vs → feedback_bytes a' <$> parts = feedback_bytes a <$> parts.
Proof.
  intros Hg. induction 1 as [|part v parts vs Ha _ IH]; [done|]. cbn. f_equal; [|done]. destruct part; [|done..].
  cbn. destruct Ha as (_ & f & Hf). by rewrite Hf, (entries_kept_feedback _ _ _ _ Hg Hf).
Qed.

Definition sum_N (l : list N) : N := foldr N.add 0%N l.
Lemma sum_N_snoc {A} (f : A → N) l x : sum_N (f <$> l ++ [x]) = (sum_N (f <$> l) + f x)%N.
Proof. induction l as [|y l IH]; cbn; [lia|]. unfold sum_N in IH. rewrite IH. lia. Qed.

Lemma supported_detail_in detail : supported_detail detail = true → detail ∈ ["auto"; "low"; "high"].
Proof.
  unfold supported_detail, str_eqb. rewrite !orb_true_iff, !bool_decide_eq_true. intros [[->| ->]| ->]; set_solver.
Qed.

(** The variables of [prepare] once it has taken some parts. *)
Record prepared_from p (parts : list Content.t) : Prop := {
  pf_parts : Forall2 (accepted_part (Preparing.store p)) parts (Preparing.normalized p);
  pf_text : Preparing.text p = str_concat "" (part_texts parts);
  pf_images : Preparing.images p = N.of_nat (length (base.filter (λ part, part_image part = true) parts));
  pf_media : Preparing.media_bytes p = sum_N (image_bytes <$> parts);
  pf_reviews : Preparing.review_bytes p = sum_N (feedback_bytes (Preparing.store p) <$> parts);
}.

Lemma prepared_from_entries p parts a :
  entries_kept (Preparing.store p) a → prepared_from p parts → prepared_from (p <| Preparing.store := a |>) parts.
Proof.
  intros Hg [H1 H2 H3 H4 H5]. split; try done.
  - eapply Forall2_impl; [exact H1|]. intros. by eapply accepted_part_entries.
  - change (Preparing.store (p <| Preparing.store := a |>)) with a. by rewrite (feedback_bytes_entries _ _ _ _ Hg H1).
Qed.

(** One more part: the variables grow by what it holds. *)
Lemma prepared_from_snoc p parts part v p' :
  prepared_from p parts → accepted_part (Preparing.store p) part v →
  p' = Preparing.mk (str_concat "" (part_texts parts ++ part_texts [part])) (Preparing.normalized p ++ [v])
         (Preparing.media_bytes p + image_bytes part) (Preparing.images p + if part_image part then 1 else 0)
         (Preparing.review_bytes p + feedback_bytes (Preparing.store p) part) (Preparing.store p) →
  prepared_from p' (parts ++ [part]).
Proof.
  intros [H1 H2 H3 H4 H5] Ha ->. split; cbn.
  - apply Forall2_app; [done|by constructor].
  - unfold part_texts. by rewrite omap_app.
  - rewrite filter_app, length_app, filter_cons, filter_nil, H3.
    destruct part; cbn [part_image]; case_decide; try done; cbn; lia.
  - by rewrite sum_N_snoc, H4.
  - by rewrite sum_N_snoc, H5.
Qed.

Lemma prepare_part_from p parts part p' :
  prepared_from p parts → prepare_part p part = Ok p' →
  prepared_from p' (parts ++ [part]) ∧ entries_kept (Preparing.store p) (Preparing.store p').
Proof.
  intros Hf. pose proof (pf_text _ _ Hf) as Ht. destruct part as [d|text|url detail]; cbn [prepare_part].
  - intros (f & Hd & ([] & _ & [= <-])%rbind_Ok)%rbind_Ok. split; [|apply entries_kept_refl].
    eapply (prepared_from_snoc p parts _ (review_part d)); [done|cbn; by eauto|].
    cbn. rewrite Hd, app_nil_r, <-Ht, !N.add_0_r. by destruct p.
  - intros ([] & _ & [= <-])%rbind_Ok. split; [|apply entries_kept_refl].
    eapply (prepared_from_snoc p parts _ (text_part text)); [done|done|].
    cbn. rewrite str_concat_snoc, <-Ht, !N.add_0_r. by destruct p.
  - intros ([] & Hsup%reject_if_Ok%negb_false_iff & ([] & Himg%reject_if_Ok & H)%rbind_Ok)%rbind_Ok.
    apply orb_false_iff in Himg as [_ Hurl%N.ltb_ge].
    apply rbind_Ok in H as ([mime encoded] & Hdata & (bytes & Hb%ok_or_Ok & H)%rbind_Ok).
    apply rbind_Ok in H as ([] & _ & ([] & Hvalid%reject_if_Ok%negb_false_iff & H)%rbind_Ok).
    apply rbind_Ok in H as ([a d] & Hput%map_err_Ok & [= <-]). apply put_entries in Hput as Hg.
    apply put_spec in Hput as [-> _]. split; [|exact Hg].
    eapply (prepared_from_snoc _ parts _ (image_part (digest_of bytes) mime detail)
              _ (prepared_from_entries _ _ _ Hg Hf)).
    + cbn. exists mime, encoded, bytes. split_and!; try done. by apply supported_detail_in.
    + cbn. rewrite Hdata, Hb, app_nil_r, <-Ht, N.add_0_r. by destruct p.
Qed.

Lemma prepare_parts_from a parts p :
  for_each prepare_part (Preparing.mk EmptyString [] 0 0 0 a) parts = Ok p → prepared_from p parts.
Proof.
  apply (for_each_inv (λ seen p, prepared_from p seen)); [by split|].
  intros seen part p1 p2 _ H1 Hp. by destruct (prepare_part_from _ _ _ _ H1 Hp).
Qed.

(** A stored message of one user loads as the text of its parts. *)
Lemma load_user_parts a d bytes parts :
  ArtifactStore.read a d = Ok bytes → from_slice bytes = Some [user_parts parts] → parts ≠ [] →
  Forall (λ part, is_input_part part = true) parts →
  load_input d a = Ok (PreparedInput.mk (str_concat "" (omap (λ part, as_str (index part "text")) parts))
                         [user_parts parts] d).
Proof.
  intros Hread Hs Hne Hi. unfold load_input, read. rewrite Hread. cbn [map_err rbind]. rewrite Hs. cbn [ok_or rbind].
  change (value_is (index (user_parts parts) "role") "user") with true. cbn [negb reject_if rbind].
  change (as_array (index (user_parts parts) "content")) with (Some parts). cbn [ok_or rbind].
  by rewrite (is_input_part_forall _ Hi), bool_decide_false.
Qed.

(** ** Materializing *)

Lemma update_rev_Ok {A S E} (f : S → A → result (S * A) E) (I : S → Prop) (P : A → A → Prop) l : ∀ s s' l',
  (∀ s x s' x', I s → f s x = Ok (s', x') → I s' ∧ P x x') →
  I s → update_rev f s l = Ok (s', l') → I s' ∧ Forall2 P l l'.
Proof.
  induction l as [|x l IH]; intros s s' l' Hf HI; cbn [update_rev]; [by intros [= <- <-]|].
  intros ([s1 l1] & H1 & ([s2 x2] & H2 & [= <- <-])%rbind_Ok)%rbind_Ok.
  destruct (IH _ _ _ Hf HI H1) as [HI1 HP1]. destruct (Hf _ _ _ _ HI1 H2). split; [done|by constructor].
Qed.

Lemma update_rev_id {A S E} (f : S → A → result (S * A) E) s l :
  Forall (λ x, f s x = Ok (s, x)) l → update_rev f s l = Ok (s, l).
Proof. induction 1 as [|x l Hx _ IH]; [done|]. cbn [update_rev]. rewrite IH. cbn. by rewrite Hx. Qed.

Lemma materialize_part_ok a used part used' part' :
  (used.1 ≤ 4 * MIB)%N → materialize_part a used part = Ok (used', part') →
  (used'.1 ≤ 4 * MIB)%N ∧ is_media part' = false.
Proof.
  unfold materialize_part. destruct used as [media notes]. cbn [fst]. intros Hm.
  destruct (value_is _ "tact_review") eqn:Hr.
  { intros (d & _ & (f & _ & [= <- <-])%rbind_Ok)%rbind_Ok. done. }
  destruct (value_is _ "tact_image") eqn:Hi.
  - intros (d & _ & (mime & _ & H)%rbind_Ok)%rbind_Ok. apply rbind_Ok in H as (bytes & _ & H). revert H. case_match eqn:Hlt; intros [= <- <-]; [done|]. apply N.ltb_ge in Hlt. done.
  - intros [= <- <-]. split; [done|]. unfold is_media. by rewrite Hr, Hi.
Qed.

(** A message with no reference left to resolve. *)
Definition resolved (message : Value) : bool :=
  negb (value_is (index message "role") "user")
  || match message with
     | VObject fields =>
         match field "content" fields with
         | Some (VArray parts) => forallb (λ part, negb (is_media part)) parts
         | Some _ => true
         | None => false
         end
     | _ => true
     end.

Lemma field_key_eq name v fields : field name ((name, v) :: fields) = Some v.
Proof. cbn. unfold str_eqb. by rewrite bool_decide_true. Qed.

Lemma field_set_key name v fields : field name (set_key name v fields) = Some v.
Proof.
  unfold set_key. case_bool_decide as Hs.
  - destruct Hs as [w Hw]. revert Hw. induction fields as [|[k old] fields IH]; cbn; [done|].
    destruct (str_eqb k name) eqn:Hk; cbn; rewrite Hk; [done|]. exact IH.
  - apply eq_None_not_Some in Hs. revert Hs. induction fields as [|[k old] fields IH]; [intros _; apply field_key_eq|].
    cbn [field insert_key]. destruct (str_eqb k name) eqn:Hk; [done|]. intros Hn.
    destruct (String.ltb name k); [apply field_key_eq|]. cbn [field]. rewrite Hk. auto.
Qed.

Lemma field_key_ne name other v fields : name ≠ other → field other ((name, v) :: fields) = field other fields.
Proof. intros Hne. cbn. unfold str_eqb. by rewrite bool_decide_false. Qed.

Lemma field_set_key_ne name other v fields : name ≠ other → field other (set_key name v fields) = field other fields.
Proof.
  intros Hne. unfold set_key. case_bool_decide as Hs; clear Hs.
  - induction fields as [|[k old] fields IH]; [by apply field_key_ne|]. cbn [set_field].
    destruct (str_eqb k name) eqn:Hk; cbn [field]; [|by rewrite IH].
    apply bool_decide_eq_true in Hk as ->. unfold str_eqb. by rewrite bool_decide_false.
  - induction fields as [|[k old] fields IH]; [by apply field_key_ne|]. cbn [insert_key].
    destruct (String.ltb name k); [by apply field_key_ne|]. cbn [field]. by rewrite IH.
Qed.

Lemma set_key_same name v fields : field name fields = Some v → set_key name v fields = fields.
Proof.
  intros Hf. unfold set_key. rewrite bool_decide_true by eauto. revert Hf.
  induction fields as [|[k old] fields IH]; cbn; [done|].
  destruct (str_eqb k name) eqn:Hk; [by intros [= ->]|]. intros Hf. by rewrite IH.
Qed.

Lemma materialize_part_resolved a used part : is_media part = false → materialize_part a used part = Ok (used, part).
Proof.
  unfold materialize_part, is_media. intros [Hi Hr]%orb_false_iff. destruct used. by rewrite Hi, Hr.
Qed.

(** A resolved message is left as it is. *)
Lemma materialize_resolved a used message :
  resolved message = true → materialize_message a used message = Ok (used, message).
Proof.
  unfold resolved, materialize_message. destruct (negb _); [done|]. cbn [orb].
  destruct message as [| | | | |fields]; try done. cbn [index].
  destruct (field "content" fields) as [content|] eqn:Hf; [|done]. cbn [default]. intros Hc.
  assert (Hsame : set_key "content" content fields = fields) by by apply set_key_same.
  destruct content as [| | | |parts|]; try by cbn; rewrite Hsame. cbn [from_option id].
  rewrite update_rev_id; [cbn; by rewrite Hsame|].
  apply Forall_forall. intros part Hin%list_elem_of_In. apply materialize_part_resolved.
  by apply forallb_forall with (x := part) in Hc; [apply negb_true_iff|].
Qed.

Lemma set_content_resolved fields content :
  (∀ parts, content = VArray parts → Forall (λ part, is_media part = false) parts) →
  resolved (VObject (set_key "content" content fields)) = true.
Proof.
  intros Hc. unfold resolved. rewrite field_set_key. apply orb_true_iff. right.
  destruct content as [| | | |parts|]; try done. apply forallb_forall. intros part Hin%list_elem_of_In.
  apply negb_true_iff. by apply (proj1 (Forall_forall _ _) (Hc _ eq_refl)).
Qed.

Lemma materialize_message_ok a used message used' message' :
  (used.1 ≤ 4 * MIB)%N → materialize_message a used message = Ok (used', message') →
  (used'.1 ≤ 4 * MIB)%N ∧ resolved message' = true ∧
  (value_is (index message "role") "user" = false → message' = message).
Proof.
  unfold materialize_message. intros Hm. destruct (value_is (index message "role") "user") eqn:Hrole; cbn [negb].
  2: { intros [= <- <-]. unfold resolved. by rewrite Hrole. }
  destruct message as [| | | | |fields]; try (cbn in Hrole; discriminate).
  destruct (index (VObject fields) "content") as [| | | |parts|] eqn:Hc;
    try (intros [= <- <-]; split_and!; [done|apply set_content_resolved; discriminate|discriminate]).
  intros ([used1 parts'] & Hu & [= <- <-])%rbind_Ok.
  apply (update_rev_Ok _ (λ used, (used.1 ≤ 4 * MIB)%N) (λ _ part, is_media part = false)) in Hu as [Hu1 Hp];
    [|intros; by eapply materialize_part_ok|done].
  split_and!; [done| |discriminate]. apply set_content_resolved. intros ? [= <-].
  apply Forall_forall. intros part Hin. apply list_elem_of_lookup in Hin as [i Hi].
  by destruct (Forall2_lookup_r _ _ _ _ _ Hp Hi) as (x & _ & Hx).
Qed.

(** The bytes of the images that a part, a message, a history is given in place of references. *)
Definition inlined_part a (parts : Value * Value) : N :=
  let '(part, part') := parts in
  if value_is (index part "type") "tact_image" && value_is (index part' "type") "input_image" then
    match part_reference part ≫= λ d, to_option (ArtifactStore.read a d) with
    | Some bytes => str_len bytes
    | None => 0
    end
  else 0.
Definition message_parts (message : Value) : list Value :=
  match index message "content" with VArray parts => parts | _ => [] end.
Definition inlined_message a (messages : Value * Value) : N :=
  let '(message, message') := messages in
  if value_is (index message "role") "user"
  then sum_N (inlined_part a <$> zip (message_parts message) (message_parts message')) else 0.
Definition inlined a (messages out : list Value) : N := sum_N (inlined_message a <$> zip messages out).

Lemma update_rev_sum {A S E} (f : S → A → result (S * A) E) (cost : S → N) (g : A * A → N) l : ∀ s s' l',
  (∀ s x s' x', f s x = Ok (s', x') → cost s' = (cost s + g (x, x'))%N) →
  update_rev f s l = Ok (s', l') → cost s' = (cost s + sum_N (g <$> zip l l'))%N.
Proof.
  induction l as [|x l IH]; intros s s' l' Hf; cbn [update_rev]; [intros [= <- <-]; cbn; lia|].
  intros ([s1 l1] & H1 & ([s2 x2] & H2 & [= <- <-])%rbind_Ok)%rbind_Ok.
  rewrite (Hf _ _ _ _ H2), (IH _ _ _ Hf H1). cbn [zip zip_with fmap list_fmap sum_N foldr]. fold (sum_N (g <$> zip l l1)). lia.
Qed.

Lemma text_part_image text : value_is (index (text_part text) "type") "input_image" = false.
Proof. done. Qed.
Lemma input_image_image mime bytes detail :
  value_is (index (input_image mime bytes detail) "type") "input_image" = true.
Proof. done. Qed.

Lemma materialize_part_cost a used part used' part' :
  materialize_part a used part = Ok (used', part') → used'.1 = (used.1 + inlined_part a (part, part'))%N.
Proof.
  unfold materialize_part, inlined_part. destruct used as [media notes]. cbn [fst].
  destruct (value_is (index part "type") "tact_review") eqn:Hr.
  { intros (d & _ & (f & _ & [= <- <-])%rbind_Ok)%rbind_Ok. rewrite text_part_image, andb_false_r. cbn. lia. }
  destruct (value_is (index part "type") "tact_image") eqn:Hi; [|intros [= <- <-]; cbn; lia].
  intros (d & Hd%ok_or_Ok & (mime & _ & H)%rbind_Ok)%rbind_Ok.
  apply rbind_Ok in H as (bytes & Hread%map_err_Ok & H). revert H. case_match; intros [= <- <-].
  { rewrite text_part_image. cbn. lia. }
  rewrite input_image_image. cbn. unfold part_reference. rewrite Hd. cbn. by rewrite Hread.
Qed.

Lemma materialize_message_cost a used message used' message' :
  materialize_message a used message = Ok (used', message') →
  used'.1 = (used.1 + inlined_message a (message, message'))%N.
Proof.
  unfold materialize_message, inlined_message. destruct (value_is (index message "role") "user") eqn:Hrole; cbn [negb].
  2: { intros [= <- <-]. lia. }
  destruct message as [| | | | |fields]; try (cbn in Hrole; discriminate).
  unfold message_parts. destruct (index (VObject fields) "content") as [| | | |parts|] eqn:Hc;
    try (intros [= <- <-]; cbn; lia).
  intros ([used1 parts'] & Hu & [= <- <-])%rbind_Ok. cbn [index]. rewrite field_set_key. cbn [default from_option id].
  exact (update_rev_sum _ fst _ _ _ _ _ (materialize_part_cost a) Hu).
Qed.
End media_lemmas.

(** ** Properties *)

(** C13: What [prepare] stores is what [load] returns, text and messages alike, unless other bytes have its digest. It
    takes 1 to 64 parts and stores each in its place: a text as it is, a review whose feedback reads, an image under
    the digest of its bytes, with a supported detail, an address of at most 12 MiB and the signature of its media
    type. There are at most 8 images, of at most 4 MiB in all; text and feedback hold at most 128 KiB. Every artifact
    the stored message refers to reads back, so the artifact graph of a task that starts from it is complete. *)
Theorem prepare_loads {SHA : Sha256} {REV : ReviewSerde} {B64 : Base64} `{!Serde (list Value), !SerdeOk (list Value)}
    content a p a' :
  prepare content a = Ok (p, a') →
  (load_input (PreparedInput.artifact p) a' = Ok p ∨
   ∃ bytes other, other ≠ bytes ∧ digest_of other = digest_of bytes ∧ PreparedInput.artifact p = digest_of bytes) ∧
  1 ≤ length content ≤ 64 ∧
  ∃ parts stored_parts refs,
    mapM Content.from_value content = Some parts ∧
    PreparedInput.messages p = [user_parts stored_parts] ∧ Forall2 (accepted_part a') parts stored_parts ∧
    PreparedInput.text p = str_concat "" (part_texts parts) ∧
    length (base.filter (λ part, part_image part = true) parts) ≤ 8 ∧
    (sum_N (image_bytes <$> parts) ≤ 4 * MIB)%N ∧
    (str_len (PreparedInput.text p) + sum_N (feedback_bytes a' <$> parts) ≤ 128 * KIB)%N ∧
    message_references (user_parts stored_parts) = Some refs ∧ Forall (stored a') refs.
Proof.
  unfold prepare. intros ([] & Hlen%reject_if_Ok & (parts & Hparts%ok_or_Ok & H)%rbind_Ok)%rbind_Ok.
  apply orb_false_iff in Hlen as [Hne%bool_decide_eq_false Hlen%bool_decide_eq_false].
  apply rbind_Ok in H as (st & Hst & (bytes & Hv%ok_or_Ok & H)%rbind_Ok).
  apply prepare_parts_ok in Hst as Hok. destruct Hok as [Hok Hn]. apply prepare_parts_from in Hst as Hfrom.
  apply rbind_Ok in H as ([a1 d] & Hput%map_err_Ok & [= <- <-]). cbn [PreparedInput.text PreparedInput.messages PreparedInput.artifact].
  destruct Hok as (Ht & Hi & Hr & Hmb & Him & Hb). destruct (put_stored _ _ _ _ Hput) as [_ Hmono].
  apply (prepared_from_entries _ _ a1) in Hfrom; [|by eapply put_entries]. destruct Hfrom as [F1 F2 F3 F4 F5].
  change (Preparing.images st = N.of_nat (length (base.filter (λ part, part_image part = true) parts))) in F3.
  change (Preparing.media_bytes st = sum_N (image_bytes <$> parts)) in F4.
  change (Preparing.review_bytes st = sum_N (feedback_bytes a1 <$> parts)) in F5.
  destruct (user_parts_references a1 (Preparing.normalized st)) as (refs & Hrefs & Hrst).
  { eapply Forall_impl; [exact Hr|]. intros x Hx Hmx. destruct (Hx Hmx) as (d' & ? & ?). eauto. }
  assert (Hc : 1 ≤ length content) by (destruct content; [done|cbn; lia]).
  split_and!; [|done|lia|].
  - destruct (put_reads _ _ _ _ Hput) as [Hread|(other & Hne' & Hd)].
    + left. rewrite (load_user_parts _ _ _ (Preparing.normalized st) Hread); [by rewrite <-Ht| | |done].
      * by rewrite (from_slice_to_vec _ _ Hv).
      * intros Hnil. rewrite Hnil in Hn. apply mapM_Some, Forall2_length in Hparts. cbn in Hn. lia.
    + right. exists bytes, other. apply put_spec in Hput as [-> _]. done.
  - exists parts, (Preparing.normalized st), refs. split_and!; try done; lia.
Qed.

(** Materializing resolves every reference of a user message and changes no other message: what it returns refers to
    no artifact, so materializing it again, from any store, changes nothing; within one request the images that are
    inlined hold at most 4 MiB. *)
Theorem materialize_resolves {SHA : Sha256} {REV : ReviewSerde} {B64 : Base64} a messages out :
  materialize messages a = Ok out →
  (inlined a messages out ≤ 4 * MIB)%N ∧
  Forall2 (λ message message', resolved message' = true ∧
             (value_is (index message "role") "user" = false → message' = message)) messages out ∧
  ∀ a', materialize out a' = Ok out.
Proof.
  intros ([used out'] & Hu & [= <-])%rbind_Ok.
  apply (update_rev_Ok _ (λ used, (used.1 ≤ 4 * MIB)%N)
    (λ message message', resolved message' = true ∧
       (value_is (index message "role") "user" = false → message' = message))) in Hu as Hbp;
    [|intros; by eapply materialize_message_ok|done].
  destruct Hbp as [Hb Hp].
  apply (update_rev_sum _ fst _ _ _ _ _ (materialize_message_cost a)) in Hu as Hcost.
  split_and!; [by rewrite Hcost in Hb|done|]. intros a'. unfold materialize. rewrite update_rev_id; [done|].
  apply Forall_forall. intros message Hin. apply list_elem_of_lookup in Hin as [i Hi].
  destruct (Forall2_lookup_r _ _ _ _ _ Hp Hi) as (x & _ & Hx & _). by apply materialize_resolved.
Qed.

(** ** Text and an image *)

Section media_example.
#[local] Instance media_sha : Sha256 := checksum_sha256.
#[local] Instance media_base64 : Base64 := {| b64_encode s := s; b64_decode := Some |}.
#[local] Instance media_reviews : ReviewSerde := {|
  serde_identity := {| to_vec _ := None; from_slice _ := None |};
  serde_manifest := {| to_vec _ := None; from_slice _ := None |};
  serde_feedback := {| to_vec _ := None; from_slice _ := None |};
|}.

#[local] Instance media_serde : Serde (list Value) := codec_serde.
#[local] Instance media_serde_ok : SerdeOk (list Value) := codec_serde_ok.

Definition media_content : list Value := [
  text_part "What is "; VArray [VString "input_text"; VString "this?"];
  VObject [("image_url", VString "data:image/gif;base64,GIF89a!"); ("type", VString "input_image")]].
Definition media_store : ArtifactStore.t := ArtifactStore.mk ∅ 10000.
Definition media_prepared : result (PreparedInput.t * ArtifactStore.t) StoreError.t :=
  prepare media_content media_store.

Lemma prepare_loads_witness :
  ∃ p a', media_prepared = Ok (p, a') ∧ PreparedInput.text p = "What is this?" ∧
    size (ArtifactStore.root a') = 2 ∧ load_input (PreparedInput.artifact p) a' = Ok p ∧
    ∃ parts stored_parts, mapM Content.from_value media_content = Some parts ∧
      PreparedInput.messages p = [user_parts stored_parts] ∧ Forall2 (accepted_part a') parts stored_parts ∧
      sum_N (image_bytes <$> parts) = 7%N.
Proof.
  destruct media_prepared as [[p a']|e] eqn:H; [|vm_compute in H; discriminate H].
  exists p, a'. split; [reflexivity|].
  destruct (prepare_loads media_content media_store p a' H)
    as (_ & _ & parts & stored_parts & refs & Hp & Hm & Ha & _).
  vm_compute in H. injection H as Hp' Ha'.
  split; [rewrite <-Hp'; reflexivity|]. split; [rewrite <-Ha'; vm_compute; reflexivity|].
  split; [rewrite <-Hp', <-Ha'; vm_compute; reflexivity|]. exists parts, stored_parts.
  refine (conj Hp (conj Hm (conj Ha _))). vm_compute in Hp. injection Hp as <-. vm_compute. reflexivity.
Defined.

Definition media_messages : list Value :=
  match media_prepared with Ok (p, _) => PreparedInput.messages p | Err _ => [] end.
Definition media_after : ArtifactStore.t := match media_prepared with Ok (_, a') => a' | Err _ => media_store end.

Lemma materialize_resolves_witness :
  ∃ out, materialize media_messages media_after = Ok out ∧ out ≠ media_messages ∧
    inlined media_after media_messages out = 7%N ∧ (inlined media_after media_messages out ≤ 4 * MIB)%N ∧
    materialize out media_store = Ok out.
Proof.
  destruct (materialize media_messages media_after) as [out|e] eqn:H; [|vm_compute in H; discriminate H].
  exists out. split; [reflexivity|].
  destruct (materialize_resolves media_after media_messages out H) as (Hb & _ & Hid).
  assert (Hout : bool_decide (out ≠ media_messages) && (inlined media_after media_messages out =? 7)%N = true).
  { vm_compute in H. injection H as <-. vm_compute. reflexivity. }
  apply andb_true_iff in Hout as [Hne Hc].
  split; [by apply bool_decide_eq_true in Hne|]. split; [by apply N.eqb_eq in Hc|]. split; [exact Hb|apply Hid].
Defined.
End media_example.
