(* ===== verification/HostQueue.v ===== *)
(** * The queue of the host (crates/harness/src/controller/submissions.rs, admission in controller.rs)

    The host stands between a client and the store: it prepares the input, turns the
    intent of a request into the intent the store records, claims the next submission
    for its worker and records how it ended. Its locks, tokens and wake-ups order these
    operations and carry no data; the model has the operations, one at a time. *)

From S2P Require Import Prelude Digest Contract State Artifacts Workspace Input ArtifactGraph Journal Store StoreTasks.
From S2P Require Import Cost Conversation Admission Session Context SessionStore SessionCommands.
From S2P Require Import ContractAdmission Queue Submissions Media.

Module HostError.
Inductive t : Type :=
| ShuttingDown
| Store (e : StoreError.t)
| Json
| Io
| Busy
| Invalid (reason : string).
End HostError.

Module SubmitIntent.
Inductive t : Type :=
| Ordinary (limits : Limits.t) (policy : RequestPolicy.t) (schedule : Schedule.t)
| Shell (spec : ShellSpec.t)
| Auxiliary (spec : AuxiliarySpec.t)
| NewTask (limits : Limits.t) (policy : RequestPolicy.t)
| Continue (task : Uuid) (scope_revision : N) (schedule : Schedule.t).
End SubmitIntent.

(** What does not change while a host runs: whether it has the native tools, and the
    identities that its build, its runtime and its configuration hash to. *)
Module HostConfig.
Record t : Type := mk {
  native_tools : bool;
  protocol : Digest;
  environment : Digest;
  task_profile : Digest;
  config_identity : option Digest;
}.
End HostConfig.

(** The tuple whose digest is the authority of a session. The build's version and
    instructions, which it also names, are constants of the program. *)
Definition AuthorityIdentity : Type := option Digest * TargetProfile.t * Digest.

(** How a claimed request ended: [TaskRequest] and its error, or the status it gives. *)
Inductive Execution : Type :=
| Ran (status : SubmissionStatus.t)
| ExecutionBusy
| ExecutionFailed (error : string).

(** What the worker does with an ordinary request once it is classified. *)
Inductive OrdinaryAction : Type := AnswerOrdinary | ContinueTask | DiscoverTask.

Section host.
Context {SHA : Sha256} {SER : StoreSerde} {SES : SessionSerde} {HOST : Host}.
Context {SET : SerdeErrorText} {DET : StoreErrorText} {REV : ReviewSerde} {B64 : Base64}.
Context `{!Serde RequestPolicy.t, !Serde AuthorityIdentity}.
Implicit Types (db : SessionDb) (s : SessionState.t) (a : ArtifactStore.t) (h : HostConfig.t).
Variable now_ms : N → N.

#[local] Notation invalid reason := (StoreError.Invalid reason).
#[local] Notation of_store r := (map_err HostError.Store r).

(** ** Admission of a session by this host *)

Definition target_profile h (model : ModelSettings.t) (channel : Channel) : option TargetProfile.t :=
  identity ← of_value model;
  Some (TargetProfile.mk identity (HostConfig.protocol h) (HostConfig.environment h) (HostConfig.task_profile h) channel).

Definition admission_authority h (target : TargetProfile.t) (request : SessionAdmissionRequest.t) : option Digest :=
  request ← of_value request; of_value (HostConfig.config_identity h, target, request).

Definition validate_session_admission h s : result unit HostError.t :=
  let? p := ok_or (SessionState.admission s) (HostError.Invalid "session has no trusted admission profile") in
  let? _ := map_err (λ reason, HostError.Store (invalid reason)) (SessionAdmissionProfile.validate is_dir p) in
  let request := SessionAdmissionProfile.request p in
  let? target := ok_or (target_profile h (SessionAdmissionProfile.model p) (SessionAdmissionRequest.channel request))
                   HostError.Json in
  let? authority := ok_or (admission_authority h target request) HostError.Json in
  reject_if (bool_decide (target ≠ HarnessBinding.target (SessionAdmissionProfile.binding p))
             || bool_decide (authority ≠ SessionAdmissionProfile.authority p))
    (HostError.Invalid "session admission is incompatible with this Host runtime").

(** ** Submitting *)

(** The text a request without content stands for. *)
Definition default_content (intent : SubmitIntent.t) (content : list Value) : list Value :=
  match content, intent with
  | [], SubmitIntent.Shell spec => [text_part (shell_text spec)]
  | [], SubmitIntent.Auxiliary spec =>
      if bool_decide (AuxiliarySpec.kind spec = AuxiliaryKind.Reflection)
      then [text_part "Reflect on this session."] else []
  | _, _ => content
  end.

Definition put_policy a (limits : Limits.t) (policy : RequestPolicy.t) : result (ArtifactStore.t * Digest) StoreError.t :=
  let? _ := validate_policy policy in
  let? _ := map_err StoreError.Contract (Limits.validate limits) in
  let? bytes := ok_or (to_vec policy) StoreError.Json in
  map_err StoreError.Artifact (ArtifactStore.put a bytes).

Definition work_intent a (intent : SubmitIntent.t) : result (ArtifactStore.t * WorkIntent.t) StoreError.t :=
  match intent with
  | SubmitIntent.Shell spec => Ok (a, WorkIntent.Shell spec)
  | SubmitIntent.Auxiliary spec => let? _ := AuxiliarySpec.validate spec in Ok (a, WorkIntent.Auxiliary spec)
  | SubmitIntent.NewTask limits policy =>
      let? '(a, policy) := put_policy a limits policy in Ok (a, WorkIntent.NewTask limits policy)
  | SubmitIntent.Ordinary limits policy schedule =>
      let? '(a, policy) := put_policy a limits policy in Ok (a, WorkIntent.Ordinary limits policy schedule)
  | SubmitIntent.Continue task scope schedule => Ok (a, WorkIntent.Continue task scope schedule)
  end.

(** [Host::submit]; [accepting] is the host's flag. *)
Definition host_submit h (accepting : bool) db a (now : N) (session request : Uuid) (content : list Value)
    (intent : SubmitIntent.t) : result (SessionDb * ArtifactStore.t * Submission.t) HostError.t :=
  let? _ := reject_if (negb accepting) HostError.ShuttingDown in
  let? _ := of_store match intent with SubmitIntent.Shell spec => ShellSpec.validate spec | _ => Ok tt end in
  let content := default_content intent content in
  let? _ := reject_if (match intent with SubmitIntent.Shell _ => HostConfig.native_tools h | _ => false end)
    (HostError.Invalid "shell input runs in the isolated Docker workspace; native host mode has no sandbox shell") in
  let? '(input, a) := of_store (prepare content a) in
  let? '(a, intent) := of_store (work_intent a intent) in
  let? '(db, b) := of_store (submit now_ms db a now session request (PreparedInput.artifact input) intent) in
  Ok (db, a, b).

(** [Host::edit_submission] *)
Definition host_edit (accepting : bool) db a (session operation request : Uuid) (expected_input : Digest)
    (content : option (list Value)) : result (SessionDb * ArtifactStore.t * Submission.t) HostError.t :=
  let? _ := reject_if (negb accepting) HostError.ShuttingDown in
  let? '(a, input) := match content with
                      | Some content =>
                          let? '(input, a) := of_store (prepare content a) in
                          Ok (a, Some (PreparedInput.artifact input))
                      | None => Ok (a, None)
                      end in
  let? '(db, b) := of_store (edit_submission now_ms db a session operation request expected_input input) in
  Ok (db, a, b).

(** ** Cancelling *)

(** [Host::cancel_request]: the task of the request is asked to stop. *)
Definition cancel_request db a (session request : Uuid) : result (SessionDb * bool) StoreError.t :=
  let? s := load_session db session in
  if bool_decide (SessionState.active_request s ≠ Some request) then Ok (db, false) else
  match SessionState.tasks_by_request s !! request with
  | Some id =>
      if bool_decide (SessionState.kind s ≠ Task) then Ok (db, true) else
      let st := mk_store (tables db) a in
      let? task := load st id in
      if bool_decide (TaskState.outcome task = None) then
        let? '(st, _) := request_cancellation st id in Ok (db <| tables := connection st |>, true)
      else Ok (db, true)
  | None => Ok (db, true)
  end.

(** Nothing of the request has begun. *)
Definition unstarted s (b : Submission.t) (request : Uuid) : bool :=
  is_queued b || (is_running b && bool_decide (SessionState.operations s !! request = None)).

(** [Host::cancel_submission]; [operation] is drawn for the change of the status. *)
Definition cancel_submission db a (operation session request : Uuid) :
    result (SessionDb * Submission.t) StoreError.t :=
  let? b := submission db session request in
  let? s := load_session db session in
  if unstarted s b request
  then set_submission_status now_ms db a operation session request SubmissionStatus.Cancelled
  else
    let? db := if is_running b && bool_decide (SessionState.active_request s = Some request)
               then let? '(db, _) := cancel_request db a session request in Ok db
               else Ok db in
    let? b := submission db session request in
    Ok (db, b).

(** ** The worker *)

(** The next submission, claimed. *)
Definition claim_next db a (operation session : Uuid) : result (option (SessionDb * Submission.t)) StoreError.t :=
  let? next := next_submission db session in
  match next with
  | Some b =>
      let? claimed := set_submission_status now_ms db a operation session (Submission.id b) SubmissionStatus.Running in
      Ok (Some claimed)
  | None => Ok None
  end.

Definition ordinary_action (kind : OrdinaryKind.t) (incomplete_task : bool) : OrdinaryAction :=
  match kind with
  | OrdinaryKind.Information => AnswerOrdinary
  | OrdinaryKind.Action => if incomplete_task then ContinueTask else DiscoverTask
  end.

(** An ordinary action continues the session's task only while it is not complete. *)
Definition incomplete_task db a s : result bool StoreError.t :=
  match SessionState.current_task s with
  | Some id => let? task := load (mk_store (tables db) a) id in
               Ok (bool_decide (TaskState.outcome task ≠ Some Outcome.Complete))
  | None => Ok false
  end.

Definition failed_status s (request : Uuid) (error : string) : SubmissionStatus.t :=
  SubmissionStatus.Finished (SessionState.tasks_by_request s !! request) None (Some error).

(** The end of a turn of [run_queue]: a request cancelled meanwhile stays so, one that
    found the session busy is queued again. *)
Definition settle_claimed db a (operation session request : Uuid) (r : Execution) : result SessionDb StoreError.t :=
  let? current := submission db session request in
  if bool_decide (Submission.status current = SubmissionStatus.Cancelled) then Ok db else
  let? status := match r with
                 | Ran status => Ok status
                 | ExecutionBusy => Ok SubmissionStatus.Queued
                 | ExecutionFailed error => let? s := load_session db session in Ok (failed_status s request error)
                 end in
  let? '(db, _) := set_submission_status now_ms db a operation session request status in
  Ok db.

(** The worker itself failed: what it had claimed is finished with the error; a change
    that fails is passed over. *)
Definition abandon_claimed db a (fresh : Uuid → Uuid) (session : Uuid) (error : string) : SessionDb :=
  match load_session db session with
  | Ok s =>
      foldl (λ db b,
        let request := Submission.id b in
        match set_submission_status now_ms db a (fresh request) session request (failed_status s request error) with
        | Ok (db, _) => db
        | Err _ => db
        end) db (running_values (SessionState.submissions s))
  | Err _ => db
  end.
End host.
