(* ===== verification/IntakeGuarantees.v ===== *)
(** * What event intake guarantees

    Invariants of the tables of EventIntake over every sequence of its operations, what
    a repeated delivery is answered, what the clock of a source skips and never repeats,
    and how an event and its submission are brought together. *)

From stdpp Require Import pretty.
From S2P Require Import Prelude Digest Codec Contract State Artifacts Workspace Input ArtifactGraph Journal Store StoreTasks.
From S2P Require Import JsonValue Cost Conversation Admission Session Context SessionStore SessionCommands.
From S2P Require Import ContractAdmission Queue Submissions Media HostQueue EventIntake.

Class IntakeSerdeOk `{!IntakeSerde} := {
  #[global] source_record_ok :: SerdeOk SourceRecord.t;
  #[global] event_record_ok :: SerdeOk EventRecord.t;
}.

(** ** The clock *)

(** The occurrences of an interval. *)
Definition on_schedule (first interval t : N) : Prop := ∃ k, t = (first + k * interval)%N.

(** How many occurrences are due is the quotient, however long the host was away. *)
Lemma quotient_bounds next interval now :
  (0 < interval)%N → (next ≤ now)%N →
  let q := ((now - next) / interval)%N in (q * interval ≤ now - next < q * interval + interval)%N.
Proof.
  intros Hi Hle q. assert (Hm : ((now - next) mod interval < interval)%N) by (apply N.mod_lt; lia).
  pose proof (N.Div0.div_mod (now - next) interval) as Hd. fold q in Hd. clearbody q.
  revert Hm Hd. generalize ((now - next) mod interval)%N as m. intros m Hm Hd. rewrite N.mul_comm in Hd. lia.
Qed.

Lemma latest_due_Some next interval now latest following count :
  (0 < interval)%N → latest_due next interval now = Some (latest, following, count) →
  (next ≤ latest)%N ∧ (latest ≤ now)%N ∧ (now < following)%N ∧ (following ≤ u64_MAX)%N ∧
  latest = (next + (count - 1) * interval)%N ∧ following = (latest + interval)%N ∧ (1 ≤ count)%N.
Proof.
  intros Hi. unfold latest_due. destruct (N.ltb_spec now next) as [|Hle]; [done|].
  pose proof (quotient_bounds next interval now Hi Hle) as Hq. revert Hq. cbn zeta.
  generalize ((now - next) / interval)%N as q. intros q Hq. unfold u64_checked_add. rewrite N.add_sub.
  case_match eqn:Hc; [|done]. cbn. intros [= <- <- <-]. apply N.leb_le in Hc. rewrite N.add_sub. lia.
Qed.

Lemma on_schedule_add first interval t k :
  on_schedule first interval t → on_schedule first interval (t + k * interval)%N.
Proof. intros [j ->]. exists (j + k)%N. lia. Qed.

Lemma tick_key_inj t1 t2 : tick_key t1 = tick_key t2 → t1 = t2.
Proof. intros H. apply (inj (pretty (A := N))). by injection H. Qed.

(** ** The tables *)

Section intake_ok.
Context {SHA : Sha256} {SER : StoreSerde} {SES : SessionSerde} {INT : IntakeSerde} {INTOK : IntakeSerdeOk}.
Context {HOST : Host} {REV : ReviewSerde} {B64 : Base64}.
Implicit Types (i : IntakeDb) (a : ArtifactStore.t) (row : IntakeRow.t) (e : EventRecord.t) (r : SourceRecord.t).

#[local] Notation source_id r := (SourceConfig.id (SourceRecord.config r)).

(** The input of an event is the message of its objective, its envelope and its payload. *)
Definition pinned e : Prop :=
  ∃ objective envelope_text payload bytes,
    EventRecord.payload_digest e = digest_of payload ∧
    to_vec (envelope (uuid_text (EventRecord.source e)) (EventRecord.key e)) = Some envelope_text ∧
    to_vec [user_parts [text_part (event_text objective envelope_text payload)]] = Some bytes ∧
    EventRecord.input e = digest_of bytes.

(** A row and the event it holds agree; the request is derived from the source and the key, the input from these and
    the payload. *)
Definition event_row row e : Prop :=
  decode_event row = Ok e ∧ IntakeRow.request row = EventRecord.request e ∧ IntakeRow.source row = EventRecord.source e ∧
  IntakeRow.dedup_key row = EventRecord.key e ∧ IntakeRow.settled row = EventRecord.settled e ∧
  EventRecord.request e = new_v5 (EventRecord.source e) (event_name (EventRecord.key e)) ∧ pinned e.

Definition source_row (id : Uuid) (row : SourceRow.t) r : Prop :=
  decode_source row = Ok r ∧ source_id r = id ∧ SourceRecord.disabled r = SourceRow.disabled row ∧
  SourceConfig.validate (SourceRecord.config r) = Ok tt.

(** The cursor of a clock is an occurrence after every one it has turned into an event;
    at most one of its events is outstanding. *)
Definition cursor_ok (rows : list IntakeRow.t) r : Prop :=
  match SourceConfig.trigger (SourceRecord.config r) with
  | TriggerKind.Webhook => SourceRecord.next_due_ms r = None
  | TriggerKind.Interval first interval =>
      ∃ n, SourceRecord.next_due_ms r = Some n ∧ on_schedule first interval n ∧ (n ≤ u64_MAX)%N ∧
        (∀ row, row ∈ rows → IntakeRow.source row = source_id r →
           ∃ t, IntakeRow.dedup_key row = tick_key t ∧ on_schedule first interval t ∧ (t < n)%N) ∧
        length (base.filter (λ row, IntakeRow.source row = source_id r ∧ IntakeRow.settled row = false) rows) ≤ 1
  end.

(** The rows of events: each names a known source; requests and keys are unique; the
    outstanding ones are bounded. *)
Record rows_ok i : Prop := {
  io_events : ∀ row, row ∈ event_intake i → ∃ e, event_row row e ∧ is_Some (event_sources i !! IntakeRow.source row);
  io_requests : NoDup (IntakeRow.request <$> event_intake i);
  io_keys : NoDup ((λ row, (IntakeRow.source row, IntakeRow.dedup_key row)) <$> event_intake i);
  io_pending : length (pending_rows i) ≤ MAX_PENDING_EVENTS;
}.
Definition sources_ok (rows : list IntakeRow.t) (sources : gmap Uuid SourceRow.t) : Prop :=
  ∀ id srow, sources !! id = Some srow → ∃ r, source_row id srow r ∧ cursor_ok rows r.

Record intake_ok i : Prop := {
  io_rows : rows_ok i;
  io_sources : sources_ok (event_intake i) (event_sources i);
}.

(** What of an event never changes. *)
Definition same_event e e' : Prop :=
  EventRecord.source e' = EventRecord.source e ∧ EventRecord.key e' = EventRecord.key e ∧
  EventRecord.payload_digest e' = EventRecord.payload_digest e ∧ EventRecord.input e' = EventRecord.input e ∧
  EventRecord.session e' = EventRecord.session e ∧ EventRecord.request e' = EventRecord.request e ∧
  EventRecord.received_ms e' = EventRecord.received_ms e ∧
  (EventRecord.settled e = true → EventRecord.settled e' = true).

(** The operations of the store on these tables. An event is saved by who read it. *)
Inductive intake_step i i' : Prop :=
| step_register config authority r : register_event_source i config authority = Ok (i', r) → intake_step i i'
| step_admission r error :
    event_source i (source_id r) = Ok r → record_event_source_admission i r error = Ok i' → intake_step i i'
| step_disable id r : disable_event_source i id = Ok (i', r) → intake_step i i'
| step_receive a source key payload now a' e :
    receive_event i a source key payload now = Ok (i', a', e) → intake_step i i'
| step_tick a id now a' ticked : tick_event_source i a id now = Ok (i', a', ticked) → intake_step i i'
| step_save e e' :
    event i (EventRecord.source e) (EventRecord.key e) = Ok (Some e) → same_event e e' → save_event i e' = Ok i' →
    intake_step i i'.
Definition taken : IntakeDb → Prop := rtc intake_step empty_intake.

(** *** Reading *)

Lemma is_event_true source key row :
  is_event source key row = true ↔ IntakeRow.source row = source ∧ IntakeRow.dedup_key row = key.
Proof. unfold is_event, str_eqb. rewrite andb_true_iff, N.eqb_eq, bool_decide_eq_true. done. Qed.

Lemma event_source_Ok i id r :
  event_source i id = Ok r ↔ ∃ srow, event_sources i !! id = Some srow ∧ decode_source srow = Ok r.
Proof.
  unfold event_source, find_event_source. destruct (event_sources i !! id) as [srow|]; cbn.
  - destruct (decode_source srow) as [r'|err] eqn:Hds; cbn.
    + split; [intros [= <-]; by exists srow|intros (x & [= <-] & Hd); congruence].
    + split; [done|intros (x & [= <-] & Hd); congruence].
  - split; [done|by intros (? & ? & ?)].
Qed.

Lemma event_source_ok i id r :
  intake_ok i → event_source i id = Ok r →
  ∃ srow, event_sources i !! id = Some srow ∧ source_row id srow r ∧ cursor_ok (event_intake i) r.
Proof.
  intros Hok (srow & Hrow & Hd)%event_source_Ok. destruct (io_sources _ Hok _ _ Hrow) as (r' & Hr & Hc).
  assert (r' = r) as -> by (destruct Hr as [Hd' _]; congruence). by exists srow.
Qed.

Lemma event_Some i source key e :
  event i source key = Ok (Some e) →
  ∃ row, row ∈ event_intake i ∧ IntakeRow.source row = source ∧ IntakeRow.dedup_key row = key ∧ decode_event row = Ok e.
Proof.
  unfold event. destruct (List.find _ _) as [row|] eqn:Hf; [|done].
  apply List.find_some in Hf as [Hin [Hs Hk]%is_event_true]. apply list_elem_of_In in Hin.
  intros (e' & He & [= <-])%rbind_Ok. by exists row.
Qed.

Lemma event_None i source key :
  event i source key = Ok None ↔
  ∀ row, row ∈ event_intake i → IntakeRow.source row = source → IntakeRow.dedup_key row ≠ key.
Proof.
  unfold event. destruct (List.find _ _) as [row|] eqn:Hf.
  - apply List.find_some in Hf as [Hin [Hs Hk]%is_event_true]. apply list_elem_of_In in Hin. split.
    + by intros (e & _ & [=])%rbind_Ok.
    + intros Hn. by destruct (Hn row Hin Hs).
  - split; [intros _ row Hin Hs Hk|done]. apply list_elem_of_In in Hin.
    pose proof (List.find_none _ _ Hf row Hin) as Hn. cbn in Hn. by rewrite (proj2 (is_event_true _ _ _)) in Hn.
Qed.

Lemma event_row_of i row :
  intake_ok i → row ∈ event_intake i →
  ∃ e, event_row row e ∧ event i (IntakeRow.source row) (IntakeRow.dedup_key row) = Ok (Some e).
Proof.
  intros Hok Hin. destruct (io_events _ (io_rows _ Hok) _ Hin) as (e & He & _). exists e. split; [done|].
  unfold event. destruct (List.find _ _) as [row'|] eqn:Hf.
  - apply List.find_some in Hf as [Hin' [Hs Hk]%is_event_true]. apply list_elem_of_In in Hin'.
    assert (row' = row) as ->; [|by destruct He as [-> _]].
    apply list_elem_of_lookup in Hin as [n1 H1]. apply list_elem_of_lookup in Hin' as [n2 H2].
    pose proof (io_keys _ (io_rows _ Hok)) as Hnd.
    assert (n2 = n1) as ->; [|congruence].
    eapply NoDup_lookup; [exact Hnd|by rewrite list_lookup_fmap, H2|by rewrite list_lookup_fmap, H1; cbn; rewrite Hs, Hk].
  - apply list_elem_of_In in Hin. pose proof (List.find_none _ _ Hf row Hin) as Hn. cbn in Hn.
    by rewrite (proj2 (is_event_true _ _ _)) in Hn.
Qed.

(** *** Writing *)

Lemma rows_ok_sources i i' :
  rows_ok i → event_intake i' = event_intake i →
  (∀ id, is_Some (event_sources i !! id) → is_Some (event_sources i' !! id)) → rows_ok i'.
Proof.
  intros [He Hr Hk Hp] Hrows Hdom. split; [|by rewrite Hrows..|by unfold pending_rows in *; rewrite Hrows].
  intros row. rewrite Hrows. intros (e & ? & ?)%He. eauto.
Qed.

Lemma insert_intake_Ok i row i' :
  insert_intake i row = Ok i' →
  i' = i <| event_intake := event_intake i ++ [row] |> ∧ is_Some (event_sources i !! IntakeRow.source row) ∧
  ∀ row', row' ∈ event_intake i →
    IntakeRow.request row' ≠ IntakeRow.request row ∧
    ¬ (IntakeRow.source row' = IntakeRow.source row ∧ IntakeRow.dedup_key row' = IntakeRow.dedup_key row).
Proof.
  unfold insert_intake. intros ([] & Hf%reject_if_Ok & [= <-])%rbind_Ok.
  rewrite !orb_false_iff, bool_decide_eq_false in Hf. destruct Hf as [[Hr Hk] Hs].
  split_and!; [done|by apply not_eq_None_Some|]. intros row' Hin%list_elem_of_In. split.
  - intros Heq. assert (Ht : existsb (is_request (IntakeRow.request row)) (event_intake i) = true); [|congruence].
    apply existsb_exists. exists row'. split; [done|]. by apply N.eqb_eq.
  - intros [Hsrc Hkey].
    assert (Ht : existsb (is_event (IntakeRow.source row) (IntakeRow.dedup_key row)) (event_intake i) = true);
      [|congruence]. apply existsb_exists. exists row'. split; [done|]. by apply is_event_true.
Qed.

Lemma rows_ok_insert i row e i' :
  rows_ok i → event_row row e → (length (pending_rows i) < MAX_PENDING_EVENTS)%nat →
  insert_intake i row = Ok i' → rows_ok i'.
Proof.
  intros [He Hr Hk Hp] Hrow Hlt (-> & Hs & Hfresh)%insert_intake_Ok. unfold put; split; cbn.
  - intros row' [Hin|Heq%list_elem_of_singleton]%elem_of_app; [by apply He|]. subst. by exists e.
  - rewrite fmap_app. apply NoDup_app. split_and!; [done| |by apply NoDup_singleton].
    intros x (row' & -> & Hin)%list_elem_of_fmap Hx%list_elem_of_singleton. by destruct (Hfresh _ Hin).
  - rewrite fmap_app. apply NoDup_app. split_and!; [done| |by apply NoDup_singleton].
    intros x (row' & -> & Hin)%list_elem_of_fmap Hx%list_elem_of_singleton. destruct (Hfresh _ Hin) as [_ Hn].
    apply Hn. by injection Hx.
  - unfold pending_rows in *. cbn. rewrite filter_app, length_app.
    pose proof (length_filter (λ row, is_unsettled row = true) [row]). cbn [length] in *. lia.
Qed.

Lemma cursor_ok_other rows row r :
  IntakeRow.source row ≠ source_id r → cursor_ok rows r → cursor_ok (rows ++ [row]) r.
Proof.
  intros Hne. unfold cursor_ok. destruct (SourceConfig.trigger _) as [|first interval]; [done|].
  intros (n & Hn & Hs & Hm & Hk & Hl). exists n. split_and!; [done..| |].
  - intros row' [Hin|Heq%list_elem_of_singleton]%elem_of_app; [by apply Hk|]. by subst.
  - rewrite filter_app, filter_cons_False, filter_nil, app_nil_r; [done|]. by intros [].
Qed.

Lemma update_source_ok rows rows' sources id srow r r' bytes d :
  sources_ok rows sources → sources !! id = Some srow → source_row id srow r →
  SourceRecord.config r' = SourceRecord.config r → SourceRecord.disabled r' = default (SourceRow.disabled srow) d →
  to_vec r' = Some bytes → cursor_ok rows' r' →
  (∀ other, source_id other ≠ id → cursor_ok rows other → cursor_ok rows' other) →
  sources_ok rows' (alter (λ old, SourceRow.mk bytes (default (SourceRow.disabled old) d)) id sources).
Proof.
  intros Hok Hid (Hd & Hsid & Hdis & Hv) Hc Hdis' Hb Hcur Hother id' srow'. destruct (decide (id' = id)) as [->|Hne].
  - rewrite lookup_alter_eq, Hid. intros [= <-]. exists r'. split; [|done].
    unfold source_row, decode_source. cbn. rewrite (from_slice_to_vec _ _ Hb), Hc. done.
  - rewrite lookup_alter_ne by done. intros Hl. destruct (Hok _ _ Hl) as (r0 & Hr0 & Hc0). exists r0. split; [done|].
    apply Hother; [|done]. destruct Hr0 as (_ & -> & _). done.
Qed.

(** A text prepared is the message of its one part. *)
Lemma prepare_text text a input a' :
  prepare [text_part text] a = Ok (input, a') →
  ∃ bytes, to_vec [user_parts [text_part text]] = Some bytes ∧ PreparedInput.artifact input = digest_of bytes.
Proof.
  unfold prepare. intros ([] & _ & (parts & Hparts%ok_or_Ok & H)%rbind_Ok)%rbind_Ok. cbn in Hparts. injection Hparts as <-.
  apply rbind_Ok in H as (st & Hst & H). cbn [for_each prepare_part] in Hst.
  apply rbind_Ok in Hst as (st1 & ([] & _ & [= <-])%rbind_Ok & [= <-]).
  apply rbind_Ok in H as (bytes & Hbytes%ok_or_Ok & ([a2 d2] & Hput%map_err_Ok & [= <- _])%rbind_Ok).
  apply put_spec in Hput as [-> _]. by exists bytes.
Qed.

(** The event a source makes of a key, and what it reports when the key is known. *)
Definition fresh_event r (key payload : string) (now : N) (input : Digest) : EventRecord.t :=
  EventRecord.mk (source_id r) key (digest_of payload) input (SourceConfig.session (SourceRecord.config r))
    (new_v5 (source_id r) (event_name key)) now false None false None.

Lemma record_event_Ok i a r key payload now i' a' e :
  insert_event i a r key payload now = Ok (i', a', e) →
  (i' = i ∧ a' = a ∧ event i (source_id r) key = Ok (Some e) ∧ EventRecord.payload_digest e = digest_of payload) ∨
  (event i (source_id r) key = Ok None ∧ SourceRecord.disabled r = false ∧
   (length (pending_rows i) < MAX_PENDING_EVENTS)%nat ∧
   ∃ input bytes, e = fresh_event r key payload now input ∧ (to_vec e = Some bytes ∧ pinned e) ∧
     insert_intake i (IntakeRow.mk (EventRecord.request e) (source_id r) key bytes false) = Ok i').
Proof.
  unfold insert_event. intros ([previous|] & Hev & H)%rbind_Ok.
  - apply rbind_Ok in H as ([] & Hd%reject_if_Ok%bool_decide_eq_false%dec_stable & [= <- <- <-]). by left.
  - right. apply rbind_Ok in H as ([] & Hdis%reject_if_Ok & H).
    apply rbind_Ok in H as ([] & Hcap%reject_if_Ok%bool_decide_eq_false & H).
    apply rbind_Ok in H as ([a1 d1] & _ & H). apply rbind_Ok in H as (env & Henv%ok_or_Ok & H).
    apply rbind_Ok in H as ([input a2] & Hprep & H). apply rbind_Ok in H as (bytes & Hb%ok_or_Ok & H).
    apply rbind_Ok in H as (i1 & Hi & [= <- <- <-]). split_and!; [done..|lia|].
    exists (PreparedInput.artifact input), bytes. split_and!; [done..| |done].
    destruct (prepare_text _ _ _ _ Hprep) as (message & ? & ?). by exists (SourceConfig.objective (SourceRecord.config r)), env, payload, message.
Qed.

Lemma fresh_event_row r key payload now input bytes :
  to_vec (fresh_event r key payload now input) = Some bytes ∧ pinned (fresh_event r key payload now input) →
  event_row (IntakeRow.mk (EventRecord.request (fresh_event r key payload now input)) (source_id r) key bytes false)
    (fresh_event r key payload now input).
Proof. intros [Hb Hp]. unfold event_row, decode_event. cbn -[fresh_event pinned]. by rewrite (from_slice_to_vec _ _ Hb). Qed.

Lemma validate_interval (c : SourceConfig.t) first interval :
  SourceConfig.validate c = Ok tt → SourceConfig.trigger c = TriggerKind.Interval first interval →
  (1000 ≤ interval)%N ∧ (first + interval ≤ u64_MAX)%N.
Proof.
  unfold SourceConfig.validate. intros Hv Htr. rewrite Htr in Hv. apply rbind_Ok in Hv as ([] & _ & Hv).
  apply rbind_Ok in Hv as (? & _ & Hv). do 3 apply rbind_Ok in Hv as ([] & _ & Hv).
  apply reject_if_Ok, orb_false_iff in Hv as [Hi%N.ltb_ge Hn%bool_decide_eq_false]. split; [done|].
  unfold u64_checked_add in Hn. case_match eqn:Hle; [by apply N.leb_le|done].
Qed.

Lemma register_ok i config authority i' r :
  intake_ok i → register_event_source i config authority = Ok (i', r) → intake_ok i'.
Proof.
  intros [Hrows Hsrc]. unfold register_event_source. intros ([] & Hv & (found & Hf & H)%rbind_Ok)%rbind_Ok.
  destruct found as [previous|].
  { apply rbind_Ok in H as (old & _ & (new & _ & ([] & _ & [= <- <-])%rbind_Ok)%rbind_Ok). by split. }
  apply rbind_Ok in H as ([] & _ & (bytes & Hb%ok_or_Ok & [= <- <-])%rbind_Ok).
  assert (Hnone : event_sources i !! SourceConfig.id config = None).
  { revert Hf. unfold find_event_source. destruct (_ !! _); [|done]. by intros (? & _ & [=])%rbind_Ok. }
  unfold put. split; cbn.
  - eapply rows_ok_sources; [exact Hrows|done|]. cbn. intros id Hid. destruct (decide (id = SourceConfig.id config)) as [->|].
    + by rewrite lookup_insert_eq.
    + by rewrite lookup_insert_ne.
  - intros id srow. destruct (decide (id = SourceConfig.id config)) as [->|Hne].
    + rewrite lookup_insert_eq. intros [= <-]. eexists. split.
      { unfold source_row, decode_source. cbn. rewrite (from_slice_to_vec _ _ Hb). by split_and!. }
      unfold cursor_ok. cbn. destruct (SourceConfig.trigger config) as [|first interval] eqn:Htr; [done|].
      assert (Hno : ∀ row, row ∈ event_intake i → IntakeRow.source row ≠ SourceConfig.id config).
      { intros row Hin Heq. destruct (io_events _ Hrows _ Hin) as (e & _ & [x Hx]). rewrite Heq in Hx. congruence. }
      exists first. split_and!; [done|by exists 0%N; lia| |by intros row Hin Heq; destruct (Hno row)|].
      * destruct (validate_interval _ _ _ Hv Htr). lia.
      * rewrite filter_none_in; [cbn; lia|]. intros row Hin [Heq _]. by destruct (Hno row).
    + rewrite lookup_insert_ne by done. apply Hsrc.
Qed.

(** A row that replaces another keeps its source and key and is not unsettled again. *)
Definition row_update row row' : Prop :=
  IntakeRow.request row' = IntakeRow.request row ∧ IntakeRow.source row' = IntakeRow.source row ∧
  IntakeRow.dedup_key row' = IntakeRow.dedup_key row ∧ (IntakeRow.settled row = true → IntakeRow.settled row' = true).

Lemma cursor_ok_update (f : IntakeRow.t → IntakeRow.t) rows r :
  (∀ row, row ∈ rows → row_update row (f row)) → cursor_ok rows r → cursor_ok (f <$> rows) r.
Proof.
  intros Hf. unfold cursor_ok. destruct (SourceConfig.trigger _) as [|first interval]; [done|].
  intros (n & Hn & Hs & Hm & Hk & Hl). exists n. split_and!; [done..| |].
  - intros row' (row & -> & Hin)%list_elem_of_fmap. destruct (Hf _ Hin) as (_ & -> & -> & _). by apply Hk.
  - etrans; [|exact Hl]. clear -Hf. induction rows as [|row rows IH]; [done|].
    assert (IH' := IH ltac:(intros; apply Hf; by right)). cbn [fmap list_fmap].
    destruct (Hf row) as (_ & Hsrc & _ & Hset); [by left|]. rewrite !filter_cons.
    destruct (decide (_ ∧ IntakeRow.settled (f row) = false)) as [[Hs1 Hs2]|_].
    + rewrite decide_True; [cbn; lia|]. split; [by rewrite <-Hsrc|]. destruct (IntakeRow.settled row); [|done].
      by rewrite Hset in Hs2.
    + destruct (decide _); cbn; lia.
Qed.

Lemma save_event_Ok i e i' :
  save_event i e = Ok i' → ∃ bytes, to_vec e = Some bytes ∧
    i' = i <| event_intake :=
      (λ row, if is_request (EventRecord.request e) row
              then IntakeRow.mk (IntakeRow.request row) (IntakeRow.source row) (IntakeRow.dedup_key row) bytes
                     (EventRecord.settled e)
              else row) <$> event_intake i |>.
Proof. unfold save_event. intros (bytes & Hb%ok_or_Ok & [= <-])%rbind_Ok. by exists bytes. Qed.

(** The one row that a save replaces is the one its event was read from. *)
Lemma row_of_request i row e :
  rows_ok i → row ∈ event_intake i → IntakeRow.request row = EventRecord.request e →
  event i (EventRecord.source e) (EventRecord.key e) = Ok (Some e) → event_row row e.
Proof.
  intros Hok Hin Hreq (row' & Hin' & Hs & Hk & Hd)%event_Some.
  destruct (io_events _ Hok _ Hin') as (e' & (Hd' & Hr' & Hrest) & _).
  assert (e' = e) as -> by congruence. replace row with row'; [by split|].
  apply list_elem_of_lookup in Hin as [n1 H1]. apply list_elem_of_lookup in Hin' as [n2 H2].
  assert (n2 = n1) as ->; [|congruence]. eapply NoDup_lookup; [exact (io_requests _ Hok)| |].
  - by rewrite list_lookup_fmap, H2.
  - rewrite list_lookup_fmap, H1. cbn. congruence.
Qed.

Lemma same_event_row row e e' bytes :
  event_row row e → same_event e e' → to_vec e' = Some bytes →
  event_row (IntakeRow.mk (IntakeRow.request row) (IntakeRow.source row) (IntakeRow.dedup_key row) bytes
               (EventRecord.settled e')) e'.
Proof.
  intros (_ & Hr & Hs & Hk & _ & Hn & Hp) (Es & Ek & Ed & Ei & _ & Er & _ & _) Hb. unfold event_row, decode_event.
  cbn -[pinned]. rewrite (from_slice_to_vec _ _ Hb).
  split_and!; [done|congruence..|done|congruence|]. unfold pinned in *. by rewrite Es, Ek, Ed, Ei.
Qed.

Lemma save_ok i e e' i' :
  intake_ok i → event i (EventRecord.source e) (EventRecord.key e) = Ok (Some e) → same_event e e' →
  save_event i e' = Ok i' → intake_ok i'.
Proof.
  intros [Hrows Hsrc] Hev Hsame (bytes & Hb & ->)%save_event_Ok.
  assert (Hreq : EventRecord.request e' = EventRecord.request e) by by destruct Hsame as (_ & _ & _ & _ & _ & -> & _).
  rewrite Hreq. set (f := λ row, _).
  assert (Hrow : ∀ row, row ∈ event_intake i → IntakeRow.request row = EventRecord.request e → event_row row e).
  { intros row Hin Heq. by eapply row_of_request. }
  assert (Hf : ∀ row, row ∈ event_intake i → row_update row (f row)).
  { intros row Hin. unfold f, row_update, is_request. destruct (N.eqb_spec (IntakeRow.request row) (EventRecord.request e))
      as [Heq|]; [|done]. cbn. destruct (Hrow _ Hin Heq) as (_ & _ & _ & _ & -> & _). split_and!; try done. apply Hsame. }
  unfold put. split; cbn.
  - split; cbn.
    + intros row' (row & -> & Hin)%list_elem_of_fmap. destruct (Hf _ Hin) as (_ & -> & _ & _).
      destruct (io_events _ Hrows _ Hin) as (e0 & He0 & Hsome). unfold f, is_request.
      destruct (N.eqb_spec (IntakeRow.request row) (EventRecord.request e)) as [Heq|]; [|by exists e0].
      exists e'. split; [|done]. eapply same_event_row; [by apply Hrow|done|done].
    + rewrite <-list_fmap_compose. rewrite (list_fmap_ext _ IntakeRow.request); [apply Hrows|].
      intros n row Hl%list_elem_of_lookup_2. by destruct (Hf _ Hl) as (? & _).
    + rewrite <-list_fmap_compose.
      rewrite (list_fmap_ext _ (λ row, (IntakeRow.source row, IntakeRow.dedup_key row))); [apply Hrows|].
      intros n row Hl%list_elem_of_lookup_2. cbn. by destruct (Hf _ Hl) as (_ & -> & -> & _).
    + etrans; [|exact (io_pending _ Hrows)]. unfold pending_rows. cbn. clear -Hf.
      induction (event_intake i) as [|row rows IH]; [done|].
      assert (IH' := IH ltac:(intros; apply Hf; by right)). cbn [fmap list_fmap].
      destruct (Hf row) as (_ & _ & _ & Hset); [by left|]. rewrite !filter_cons. unfold is_unsettled in *.
      destruct (decide (negb (IntakeRow.settled (f row)) = true)) as [Hs|_].
      * rewrite decide_True; [cbn; lia|]. destruct (IntakeRow.settled row); [by rewrite Hset in Hs|done].
      * destruct (decide _); cbn; lia.
  - intros id srow Hl. destruct (Hsrc _ _ Hl) as (r & Hr & Hc). exists r. split; [done|]. by apply cursor_ok_update.
Qed.

(** A source is rewritten with the configuration it has. *)
Lemma update_ok i id r r' bytes d :
  intake_ok i → event_source i id = Ok r →
  SourceRecord.config r' = SourceRecord.config r → SourceRecord.next_due_ms r' = SourceRecord.next_due_ms r →
  SourceRecord.disabled r' = default (SourceRecord.disabled r) d → to_vec r' = Some bytes →
  intake_ok (update_source i id bytes d).
Proof.
  intros Hok Hr Hc Hn Hdis Hb. destruct (event_source_ok _ _ _ Hok Hr) as (srow & Hl & Hrow & Hcur).
  unfold update_source, put. split; cbn.
  - eapply rows_ok_sources; [apply Hok|done|]. cbn. intros id' [x Hx]. destruct (decide (id' = id)) as [->|].
    + by rewrite lookup_alter_eq, Hx; eexists.
    + by rewrite lookup_alter_ne, Hx.
  - eapply update_source_ok; [apply Hok|exact Hl|exact Hrow|exact Hc| |exact Hb| |done].
    + destruct Hrow as (_ & _ & Hd & _). by rewrite <-Hd.
    + revert Hcur. unfold cursor_ok. by rewrite Hc, Hn.
Qed.

Lemma admission_ok i r error i' :
  intake_ok i → event_source i (source_id r) = Ok r → record_event_source_admission i r error = Ok i' → intake_ok i'.
Proof.
  intros Hok Hr. unfold record_event_source_admission. case_bool_decide; [by intros [= <-]|].
  intros (bytes & Hb%ok_or_Ok & [= <-])%rbind_Ok.
  eapply (update_ok i _ r _ bytes None Hok Hr); [| | |exact Hb]; done.
Qed.

Lemma disable_ok i id i' r : intake_ok i → disable_event_source i id = Ok (i', r) → intake_ok i'.
Proof.
  intros Hok. unfold disable_event_source.
  intros (r0 & Hr & (bytes & Hb%ok_or_Ok & [= <- <-])%rbind_Ok)%rbind_Ok.
  eapply (update_ok i _ r0 _ bytes (Some true) Hok Hr); [| | |exact Hb]; done.
Qed.

(** An event of a webhook leaves every clock as it is. *)
Lemma receive_ok i a source key payload now i' a' e :
  intake_ok i → receive_event i a source key payload now = Ok (i', a', e) → intake_ok i'.
Proof.
  intros Hok. unfold receive_event. intros ([] & _ & (r & Hr & H)%rbind_Ok)%rbind_Ok. revert H.
  destruct (SourceConfig.trigger _) eqn:Htr; [|done].
  intros [(-> & _)|(Hev & Hdis & Hlt & input & bytes & -> & Hb & Hi)]%record_event_Ok; [done|].
  destruct (event_source_ok _ _ _ Hok Hr) as (srow & Hl & (Hdec & Hid & Hrest) & Hcur). split.
  - eapply rows_ok_insert; [apply Hok|by apply fresh_event_row|done|exact Hi].
  - apply insert_intake_Ok in Hi as (-> & _ & _). unfold put. cbn.
    intros id' srow' Hl'. destruct (io_sources _ Hok _ _ Hl') as (r' & Hr' & Hc'). exists r'. split; [done|].
    destruct (decide (source_id r = source_id r')) as [Heq|]; [|by apply cursor_ok_other].
    destruct Hr' as (Hdec' & Hid' & _). rewrite <-Hid', <-Heq, Hid, Hl in Hl'. injection Hl' as <-.
    assert (r' = r) as -> by congruence.
    unfold cursor_ok in *. by rewrite Htr in *.
Qed.

Lemma not_busy i id :
  is_busy i id = false →
  base.filter (λ row, IntakeRow.source row = id ∧ IntakeRow.settled row = false) (event_intake i) = [].
Proof.
  intros Hb. apply filter_none_in. intros row Hin%list_elem_of_In [Hs Hu].
  assert (Ht : is_busy i id = true); [|congruence]. apply existsb_exists. exists row. split; [done|].
  apply andb_true_iff. split; [by apply N.eqb_eq|]. unfold is_unsettled. by rewrite Hu.
Qed.

(** What a tick that makes an event does: the event is new, its time is the last that
    is due, and the cursor moves past the present. *)
Lemma tick_Ok i a id now i' a' e :
  intake_ok i → tick_event_source i a id now = Ok (i', a', Some e) →
  ∃ r first interval next latest following count payload input bytes srow i1 sbytes,
    event_sources i !! id = Some srow ∧ source_row id srow r ∧ cursor_ok (event_intake i) r ∧
    SourceRecord.disabled r = false ∧
    SourceConfig.trigger (SourceRecord.config r) = TriggerKind.Interval first interval ∧ (1000 ≤ interval)%N ∧
    SourceRecord.next_due_ms r = Some next ∧ latest_due next interval now = Some (latest, following, count) ∧
    to_vec (tick_payload next latest count) = Some payload ∧
    is_busy i id = false ∧ event i id (tick_key latest) = Ok None ∧
    (length (pending_rows i) < MAX_PENDING_EVENTS)%nat ∧
    e = fresh_event r (tick_key latest) payload now input ∧ (to_vec e = Some bytes ∧ pinned e) ∧
    insert_intake i (IntakeRow.mk (EventRecord.request e) id (tick_key latest) bytes false) = Ok i1 ∧
    to_vec (r <| SourceRecord.next_due_ms := Some following |> <| SourceRecord.last_key := Some (tick_key latest) |>)
      = Some sbytes ∧ i' = update_source i1 id sbytes None.
Proof.
  intros Hok. unfold tick_event_source. intros (r & Hr & H)%rbind_Ok.
  destruct (event_source_ok _ _ _ Hok Hr) as (srow & Hl & Hrow & Hcur). revert H.
  destruct (SourceRecord.disabled r) eqn:Hdis; [done|].
  destruct (SourceConfig.trigger _) as [|first interval] eqn:Htr; [done|].
  destruct (is_busy i id) eqn:Hbusy; [done|]. intros (next & Hn%ok_or_Ok & H)%rbind_Ok. revert H.
  destruct (latest_due next interval now) as [[[latest following] count]|] eqn:Hdue; [|done].
  intros (payload & Hp%ok_or_Ok & ([[i1 a1] e1] & Hi & (sbytes & Hb%ok_or_Ok & [= <- <- <-])%rbind_Ok)%rbind_Ok)%rbind_Ok.
  destruct Hrow as (Hdec & Hid & Hd & Hv). destruct (validate_interval _ _ _ Hv Htr) as [Hiv _].
  apply record_event_Ok in Hi as [(-> & -> & Hev & _)|(Hev & _ & Hlt & input & bytes & -> & [Hbe Hpin] & Hi)].
  - exfalso. apply event_Some in Hev as (row & Hin & Hs & Hk & _). rewrite Hid in Hs.
    pose proof Hcur as Hcur'. unfold cursor_ok in Hcur'. rewrite Htr in Hcur'.
    destruct Hcur' as (n & Hn' & _ & _ & Hkeys & _). destruct (Hkeys row Hin) as (t & Ht & _ & Hlt); [by rewrite Hid|].
    rewrite Hk in Ht. apply tick_key_inj in Ht as <-. apply latest_due_Some in Hdue; [|lia].
    assert (n = next) as -> by congruence. lia.
  - rewrite Hid in Hev, Hi. exists r, first, interval, next, latest, following, count, payload, input, bytes, srow, i1, sbytes.
    by split_and!.
Qed.

Lemma tick_None i a id now i' a' : tick_event_source i a id now = Ok (i', a', None) → i' = i.
Proof.
  unfold tick_event_source. intros (r & _ & H)%rbind_Ok. revert H.
  destruct (SourceRecord.disabled r); [by intros [= <- _]|].
  destruct (SourceConfig.trigger _) as [|first interval]; [by intros [= <- _]|].
  destruct (is_busy i id); [by intros [= <- _]|]. intros (next & _ & H)%rbind_Ok. revert H.
  destruct (latest_due next interval now) as [[[latest following] count]|]; [|by intros [= <- _]].
  by intros (payload & _ & ([[i1 a1] e1] & _ & (sbytes & _ & [=])%rbind_Ok)%rbind_Ok)%rbind_Ok.
Qed.

Lemma tick_ok i a id now i' a' ticked : intake_ok i → tick_event_source i a id now = Ok (i', a', ticked) → intake_ok i'.
Proof.
  intros Hok Ht. destruct ticked as [e|]; [|by rewrite (tick_None _ _ _ _ _ _ Ht)].
  destruct (tick_Ok _ _ _ _ _ _ _ Hok Ht) as (r & first & interval & next & latest & following & count & payload & input
    & bytes & srow & i1 & sbytes & Hl & Hrow & Hcur & Hdis & Htr & Hiv & Hn & Hdue & _ & Hbusy & _ & Hlt & -> & Hb & Hi & Hsb & ->).
  destruct Hrow as (Hdec & Hid & Hd & Hv).
  assert (Hrows : rows_ok i1).
  { eapply rows_ok_insert; [apply Hok| |done|exact Hi]. rewrite <-Hid at 1. by apply fresh_event_row. }
  apply insert_intake_Ok in Hi as (-> & _ & _). unfold update_source, put in *. cbn in *. split; cbn.
  - eapply rows_ok_sources; [exact Hrows|done|]. cbn. intros id' [x Hx]. destruct (decide (id' = id)) as [->|].
    + by rewrite lookup_alter_eq, Hx; eexists.
    + by rewrite lookup_alter_ne, Hx.
  - refine (update_source_ok _ _ _ id srow r _ sbytes None (io_sources _ Hok) Hl _ _ _ Hsb _ _).
    + by split_and!.
    + done.
    + done.
    + unfold cursor_ok in *. cbn. rewrite Htr in *. rewrite Hid in *.
      destruct Hcur as (n & Hn' & Hs & Hm & Hkeys & _). assert (n = next) as -> by congruence.
      apply latest_due_Some in Hdue as (? & ? & ? & ? & Hlat & Hfol & ?); [|lia].
      assert (Hslat : on_schedule first interval latest) by (rewrite Hlat; by apply on_schedule_add).
      exists following. split_and!; [done| |done| |].
      * rewrite Hfol. replace interval with (1 * interval)%N at 2 by lia. by apply on_schedule_add.
      * intros row [Hin|Heq%list_elem_of_singleton]%elem_of_app Hsrc.
        -- destruct (Hkeys _ Hin Hsrc) as (t & ? & ? & ?). exists t. split_and!; [done..|lia].
        -- subst row. exists latest. split_and!; [done..|lia].
      * rewrite filter_app, (not_busy _ _ Hbusy), length_app.
        etrans; [apply Nat.add_le_mono_l, length_filter|done].
    + intros other Hne Hc. by apply cursor_ok_other.
Qed.

Lemma intake_step_ok i i' : intake_ok i → intake_step i i' → intake_ok i'.
Proof.
  intros Hok []; eauto using register_ok, admission_ok, disable_ok, receive_ok, tick_ok, save_ok.
Qed.

Lemma empty_intake_ok : intake_ok empty_intake.
Proof.
  split; [split|]; cbn; try constructor; [by intros row ?%not_elem_of_nil|lia|by intros id srow; rewrite lookup_empty].
Qed.

Lemma taken_ok i : taken i → intake_ok i.
Proof.
  intros Hr. unfold taken in Hr. remember empty_intake as i0 eqn:Hi0.
  assert (Hok : intake_ok i0) by (subst; apply empty_intake_ok). clear Hi0.
  induction Hr as [|i0 i1 i2 Hs _ IH]; [done|]. apply IH. by eapply intake_step_ok.
Qed.

(** *** What lasts *)

Lemma same_event_refl e : same_event e e.
Proof. by split_and!. Qed.
Lemma same_event_trans e1 e2 e3 : same_event e1 e2 → same_event e2 e3 → same_event e1 e3.
Proof.
  intros (A1 & A2 & A3 & A4 & A5 & A6 & A7 & A8) (B1 & B2 & B3 & B4 & B5 & B6 & B7 & B8).
  unfold same_event. rewrite B1, B2, B3, B4, B5, B6, B7. split_and!; auto.
Qed.

(** The tables of events only grow, or are saved to. *)
Lemma register_rows i config authority i' r :
  register_event_source i config authority = Ok (i', r) → event_intake i' = event_intake i.
Proof.
  unfold register_event_source. intros ([] & _ & (found & _ & H)%rbind_Ok)%rbind_Ok. destruct found as [previous|].
  - by apply rbind_Ok in H as (old & _ & (new & _ & ([] & _ & [= <- _])%rbind_Ok)%rbind_Ok).
  - by apply rbind_Ok in H as ([] & _ & (bytes & _ & [= <- _])%rbind_Ok).
Qed.
Lemma admission_rows i r error i' : record_event_source_admission i r error = Ok i' → event_intake i' = event_intake i.
Proof.
  unfold record_event_source_admission. case_bool_decide; [by intros [= <-]|]. by intros (bytes & _ & [= <-])%rbind_Ok.
Qed.
Lemma disable_rows i id i' r : disable_event_source i id = Ok (i', r) → event_intake i' = event_intake i.
Proof. unfold disable_event_source. by intros (r0 & _ & (bytes & _ & [= <- _])%rbind_Ok)%rbind_Ok. Qed.

Lemma insert_rows i row i' : insert_intake i row = Ok i' → event_intake i' = event_intake i ++ [row].
Proof. by intros (-> & _ & _)%insert_intake_Ok. Qed.
Lemma insert_event_rows i a r key payload now i' a' e :
  insert_event i a r key payload now = Ok (i', a', e) → event_intake i `prefix_of` event_intake i'.
Proof.
  intros [(-> & _)|(_ & _ & _ & input & bytes & _ & _ & Hi%insert_rows)]%record_event_Ok; [done|].
  rewrite Hi. by eexists.
Qed.

Lemma step_rows i i' row :
  intake_ok i → intake_step i i' → row ∈ event_intake i →
  ∃ row', row' ∈ event_intake i' ∧ row_update row row' ∧
    ∀ e e', event_row row e → event_row row' e' → same_event e e'.
Proof.
  intros Hok Hstep Hin.
  assert (Hkeep : event_intake i `prefix_of` event_intake i' → ∃ row', row' ∈ event_intake i' ∧ row_update row row' ∧
    ∀ e e', event_row row e → event_row row' e' → same_event e e').
  { intros [l Hl]. exists row. rewrite Hl. split_and!; [by apply elem_of_app; left|done|].
    intros e e' [He _] [He' _]. assert (e' = e) as -> by congruence. apply same_event_refl. }
  destruct Hstep as [c au r H|r er _ H|id r H|a src k pl now a' e H|a id now a' ticked H|e e' Hev Hsame H].
  - apply register_rows in H as H'. apply Hkeep. by rewrite H'.
  - apply admission_rows in H as H'. apply Hkeep. by rewrite H'.
  - apply disable_rows in H as H'. apply Hkeep. by rewrite H'.
  - apply Hkeep. revert H. unfold receive_event. intros ([] & _ & (r & _ & H)%rbind_Ok)%rbind_Ok. revert H.
    destruct (SourceConfig.trigger _); [|done]. by apply insert_event_rows.
  - apply Hkeep. destruct ticked as [e|]; [|by rewrite (tick_None _ _ _ _ _ _ H)].
    destruct (tick_Ok _ _ _ _ _ _ _ Hok H) as (r & first & interval & next & latest & following & count & payload & input
      & bytes & srow & i1 & sbytes & _ & _ & _ & _ & _ & _ & _ & _ & _ & _ & _ & _ & _ & _ & Hi%insert_rows & _ & ->).
    unfold update_source, put. cbn. rewrite Hi. by eexists.
  - apply save_event_Ok in H as (bytes & Hb & ->). unfold put. cbn. eexists. split; [by apply list_elem_of_fmap_2|].
    unfold is_request. assert (Hreq : EventRecord.request e' = EventRecord.request e) by apply Hsame.
    destruct (N.eqb_spec (IntakeRow.request row) (EventRecord.request e')) as [Heq|].
    + rewrite Hreq in Heq. pose proof (row_of_request _ _ _ (io_rows _ Hok) Hin Heq Hev) as Hrow. split.
      * destruct Hrow as (_ & _ & _ & _ & Hset & _). unfold row_update. rewrite Hset. split_and!; try done. apply Hsame.
      * intros e1 e2 [He1 _] He2. destruct Hrow as [He _]. assert (e1 = e) as -> by congruence.
        destruct He2 as [He2 _]. unfold decode_event in He2. cbn in He2. rewrite (from_slice_to_vec _ _ Hb) in He2.
        by injection He2 as <-.
    + split; [done|]. intros e1 e2 [He1 _] [He2 _]. assert (e2 = e1) as -> by congruence. apply same_event_refl.
Qed.

Lemma steps_event i i' source key e :
  intake_ok i → rtc intake_step i i' → event i source key = Ok (Some e) →
  ∃ e', event i' source key = Ok (Some e') ∧ same_event e e'.
Proof.
  intros Hok Hr. revert e Hok. induction Hr as [|i0 i1 i2 Hs _ IH]; intros e Hok He; [eauto using same_event_refl|].
  apply event_Some in He as (row & Hin & <- & <- & Hd).
  destruct (io_events _ (io_rows _ Hok) _ Hin) as (e0 & He0 & _).
  assert (e0 = e) as -> by (destruct He0 as [? _]; congruence).
  destruct (step_rows _ _ _ Hok Hs Hin) as (row' & Hin' & (_ & Hsrc & Hkey & _) & Hsame).
  assert (Hok1 : intake_ok i1) by by eapply intake_step_ok.
  destruct (event_row_of _ _ Hok1 Hin') as (e1 & He1 & Hev1). rewrite Hsrc, Hkey in Hev1.
  destruct (IH _ Hok1 Hev1) as (e2 & Hev2 & Hs2). exists e2. split; [done|].
  eapply same_event_trans; [by apply Hsame|done].
Qed.

(** What of a source never changes; its clock never goes back. *)
Definition same_source r r' : Prop :=
  SourceRecord.config r' = SourceRecord.config r ∧ SourceRecord.authority r' = SourceRecord.authority r ∧
  (SourceRecord.disabled r = true → SourceRecord.disabled r' = true) ∧
  ∀ n, SourceRecord.next_due_ms r = Some n → ∃ n', SourceRecord.next_due_ms r' = Some n' ∧ (n ≤ n')%N.

Lemma same_source_refl r : same_source r r.
Proof. split_and!; try done. intros n Hn. by exists n. Qed.
Lemma same_source_trans r1 r2 r3 : same_source r1 r2 → same_source r2 r3 → same_source r1 r3.
Proof.
  intros (A1 & A2 & A3 & A4) (B1 & B2 & B3 & B4). unfold same_source. rewrite B1, B2. split_and!; auto.
  intros n (n1 & Hn1 & ?)%A4. destruct (B4 _ Hn1) as (n2 & ? & ?). exists n2. split; [done|lia].
Qed.

Lemma update_source_same i id0 r0 r0' bytes d id r :
  event_source i id0 = Ok r0 → same_source r0 r0' → to_vec r0' = Some bytes → event_source i id = Ok r →
  ∃ r', event_source (update_source i id0 bytes d) id = Ok r' ∧ same_source r r'.
Proof.
  intros H0 Hsame Hb Hr. destruct (proj1 (event_source_Ok _ _ _) Hr) as (srow & Hl & Hd).
  destruct (decide (id = id0)) as [->|Hne].
  - assert (r0 = r) as -> by congruence. exists r0'. split; [|done]. apply event_source_Ok.
    unfold update_source, put. cbn. rewrite lookup_alter_eq, Hl. cbn. eexists. split; [done|].
    unfold decode_source. cbn. by rewrite (from_slice_to_vec _ _ Hb).
  - exists r. split; [|apply same_source_refl]. apply event_source_Ok. unfold update_source, put. cbn.
    rewrite lookup_alter_ne by done. by exists srow.
Qed.

Lemma event_source_sources i i' id : event_sources i' = event_sources i → event_source i' id = event_source i id.
Proof. intros Heq. unfold event_source, find_event_source. by rewrite Heq. Qed.

Lemma insert_sources i row i' : insert_intake i row = Ok i' → event_sources i' = event_sources i.
Proof. by intros (-> & _ & _)%insert_intake_Ok. Qed.

Lemma step_source i i' id r :
  intake_ok i → intake_step i i' → event_source i id = Ok r → ∃ r', event_source i' id = Ok r' ∧ same_source r r'.
Proof.
  intros Hok Hstep Hr.
  assert (Hkeep : event_sources i' = event_sources i → ∃ r', event_source i' id = Ok r' ∧ same_source r r').
  { intros Heq. exists r. split; [by rewrite (event_source_sources _ _ _ Heq)|apply same_source_refl]. }
  destruct Hstep as [c au r0 H|r0 er Hr0 H|id0 r0 H|a src k pl now a' e H|a id0 now a' ticked H|e e' Hev Hsame H].
  - revert H. unfold register_event_source. intros ([] & _ & (found & Hf & H)%rbind_Ok)%rbind_Ok.
    destruct found as [previous|].
    + apply rbind_Ok in H as (old & _ & (new & _ & ([] & _ & [= <- _])%rbind_Ok)%rbind_Ok). by apply Hkeep.
    + apply rbind_Ok in H as ([] & _ & (bytes & _ & [= <- _])%rbind_Ok).
      destruct (proj1 (event_source_Ok _ _ _) Hr) as (srow & Hl & Hd). exists r. split; [|apply same_source_refl].
      apply event_source_Ok. exists srow. split; [|done]. unfold put. cbn. rewrite lookup_insert_ne; [done|].
      intros Heq. revert Hf. unfold find_event_source. rewrite Heq, Hl. by intros (? & _ & [=])%rbind_Ok.
  - revert H. unfold record_event_source_admission. case_bool_decide; [intros [= <-]; by apply Hkeep|].
    intros (bytes & Hb%ok_or_Ok & [= <-])%rbind_Ok. eapply update_source_same; [exact Hr0| |exact Hb|exact Hr].
    split_and!; try done. intros n Hn. by exists n.
  - revert H. unfold disable_event_source. intros (r1 & Hr1 & (bytes & Hb%ok_or_Ok & [= <- _])%rbind_Ok)%rbind_Ok.
    eapply update_source_same; [exact Hr1| |exact Hb|exact Hr]. split_and!; try done. intros n Hn. by exists n.
  - apply Hkeep. revert H. unfold receive_event. intros ([] & _ & (r0 & _ & H)%rbind_Ok)%rbind_Ok. revert H.
    destruct (SourceConfig.trigger _); [|done].
    by intros [(-> & _)|(_ & _ & _ & input & bytes & _ & _ & Hi%insert_sources)]%record_event_Ok.
  - destruct ticked as [e|]; [|rewrite (tick_None _ _ _ _ _ _ H) in *; by apply Hkeep].
    destruct (tick_Ok _ _ _ _ _ _ _ Hok H) as (r0 & first & interval & next & latest & following & count & payload & input
      & bytes & srow & i1 & sbytes & Hl & (Hd & _) & _ & _ & _ & Hiv & Hn & Hdue & _ & _ & _ & _ & _ & _ & Hi%insert_sources
      & Hsb & ->).
    eapply update_source_same; [| |exact Hsb|by rewrite (event_source_sources _ _ _ Hi)].
    + rewrite (event_source_sources _ _ _ Hi). apply event_source_Ok. by exists srow.
    + split_and!; try done. intros n Hn'. assert (n = next) as -> by congruence. exists following. split; [done|].
      apply latest_due_Some in Hdue; lia.
  - apply save_event_Ok in H as (bytes & _ & ->). by apply Hkeep.
Qed.

Lemma steps_source i i' id r :
  intake_ok i → rtc intake_step i i' → event_source i id = Ok r → ∃ r', event_source i' id = Ok r' ∧ same_source r r'.
Proof.
  intros Hok Hr. revert r Hok. induction Hr as [|i0 i1 i2 Hs _ IH]; intros r Hok Hrec; [eauto using same_source_refl|].
  destruct (step_source _ _ _ _ Hok Hs Hrec) as (r1 & Hr1 & Hs1). assert (Hok1 : intake_ok i1) by by eapply intake_step_ok.
  destruct (IH _ Hok1 Hr1) as (r2 & Hr2 & Hs2). exists r2. split; [done|]. by eapply same_source_trans.
Qed.
End intake_ok.

(** ** Saving an event *)

Section saving.
Context {SHA : Sha256} {SER : StoreSerde} {SES : SessionSerde} {INT : IntakeSerde} {INTOK : IntakeSerdeOk}.
Context {HOST : Host} {REV : ReviewSerde} {B64 : Base64}.

Lemma find_fmap {A} (p : A → bool) (f : A → A) l :
  (∀ x, p (f x) = p x) → List.find p (f <$> l) = f <$> List.find p l.
Proof. intros Hp. induction l as [|x l IH]; [done|]. cbn. rewrite Hp. by destruct (p x). Qed.

(** What is saved is what is read; other events and the sources are as they were. *)
Lemma save_current i e0 e i' :
  rows_ok i → event i (EventRecord.source e0) (EventRecord.key e0) = Ok (Some e0) → same_event e0 e →
  save_event i e = Ok i' →
  event i' (EventRecord.source e) (EventRecord.key e) = Ok (Some e) ∧ event_sources i' = event_sources i ∧
  ∀ e2, EventRecord.request e2 ≠ EventRecord.request e →
    event i (EventRecord.source e2) (EventRecord.key e2) = Ok (Some e2) →
    event i' (EventRecord.source e2) (EventRecord.key e2) = Ok (Some e2).
Proof.
  intros Hok Hev0 (Es & Ek & _ & _ & _ & Er & _ & _) (bytes & Hb & ->)%save_event_Ok. rewrite Er, Es, Ek.
  unfold event, put in *. cbn. set (f := λ row, _).
  assert (Hf : ∀ src key, List.find (is_event src key) (f <$> event_intake i) = f <$> List.find (is_event src key) (event_intake i)).
  { intros src key. apply find_fmap. intros row. unfold f. by destruct (is_request _ _). }
  rewrite !Hf. split_and!; [|done|].
  - destruct (List.find _ _) as [row|] eqn:Hfind; [|done]. cbn.
    apply List.find_some in Hfind as [Hin%list_elem_of_In _].
    destruct (io_events _ Hok _ Hin) as (e1 & (Hd & Hreq & _) & _). rewrite Hd in Hev0. cbn in Hev0. injection Hev0 as ->.
    unfold f, is_request. rewrite (proj2 (N.eqb_eq _ _) Hreq). unfold decode_event. cbn.
    by rewrite (from_slice_to_vec _ _ Hb).
  - intros e2 Hne. rewrite Hf. destruct (List.find (is_event (EventRecord.source e2) _) _) as [row|] eqn:Hfind; [|done].
    intros Hd2. cbn. apply List.find_some in Hfind as [Hin%list_elem_of_In _].
    destruct (io_events _ Hok _ Hin) as (e1 & (Hd & Hreq & _) & _). rewrite Hd in Hd2. cbn in Hd2. injection Hd2 as ->.
    unfold f, is_request. rewrite (proj2 (N.eqb_neq _ _)); [by rewrite Hd|congruence].
Qed.
End saving.

(** ** What an operation returns *)

Section returned.
Context {SHA : Sha256} {SER : StoreSerde} {SES : SessionSerde} {INT : IntakeSerde} {INTOK : IntakeSerdeOk}.
Context {HOST : Host} {REV : ReviewSerde} {B64 : Base64}.

Lemma insert_event_files i a r key payload now i' a' e :
  insert_event i a r key payload now = Ok (i', a', e) → reads_kept a a'.
Proof.
  unfold insert_event. intros ([previous|] & _ & H)%rbind_Ok.
  - apply rbind_Ok in H as ([] & _ & [= _ <- _]). apply reads_kept_refl.
  - do 2 apply rbind_Ok in H as ([] & _ & H). apply rbind_Ok in H as ([a1 d1] & Hp%map_err_Ok & H).
    apply rbind_Ok in H as (env & _ & H). apply rbind_Ok in H as ([input a2] & Hi & H).
    apply rbind_Ok in H as (bytes & _ & H). apply rbind_Ok in H as (i1 & _ & [= _ <- _]).
    eapply reads_kept_trans; [by eapply put_keeps|by eapply prepare_keeps].
Qed.

Lemma receive_files i a source key payload now i' a' e :
  receive_event i a source key payload now = Ok (i', a', e) → reads_kept a a'.
Proof.
  unfold receive_event. intros ([] & _ & (r & _ & H)%rbind_Ok)%rbind_Ok. revert H.
  destruct (SourceConfig.trigger _); [|done]. apply insert_event_files.
Qed.

Lemma tick_files i a id now i' a' ticked :
  tick_event_source i a id now = Ok (i', a', ticked) → reads_kept a a'.
Proof.
  unfold tick_event_source. intros (r & _ & H)%rbind_Ok. revert H.
  destruct (SourceRecord.disabled r); [intros [= _ <- _]; apply reads_kept_refl|].
  destruct (SourceConfig.trigger _) as [|first interval]; [intros [= _ <- _]; apply reads_kept_refl|].
  destruct (is_busy i id); [intros [= _ <- _]; apply reads_kept_refl|]. intros (next & _ & H)%rbind_Ok. revert H.
  destruct (latest_due next interval now) as [[[latest following] count]|]; [|intros [= _ <- _]; apply reads_kept_refl].
  intros (payload & _ & ([[i1 a1] e1] & Hi & (sbytes & _ & [= _ <- _])%rbind_Ok)%rbind_Ok)%rbind_Ok.
  by eapply insert_event_files.
Qed.

(** The event that is returned is the one the tables hold. *)
Lemma insert_event_current i a r key payload now i' a' e :
  intake_ok i' → insert_event i a r key payload now = Ok (i', a', e) →
  EventRecord.source e = SourceConfig.id (SourceRecord.config r) → EventRecord.key e = key →
  event i' (EventRecord.source e) (EventRecord.key e) = Ok (Some e).
Proof.
  intros Hok Hins Hs Hk. rewrite Hs, Hk.
  apply record_event_Ok in Hins as [(-> & _ & Hev & _)|(_ & _ & _ & input & bytes & -> & Hb & Hi)]; [done|].
  apply insert_rows in Hi. set (row := IntakeRow.mk _ _ _ _ _) in *.
  assert (Hin : row ∈ event_intake i') by (rewrite Hi; apply elem_of_app; right; by left).
  destruct (event_row_of _ _ Hok Hin) as (e' & (Hd & _) & Hev). cbn in Hev.
  unfold decode_event in Hd. cbn -[fresh_event] in Hd. rewrite (from_slice_to_vec _ _ (proj1 Hb)) in Hd. by injection Hd as <-.
Qed.

Lemma event_identity i source key e :
  intake_ok i → event i source key = Ok (Some e) → EventRecord.source e = source ∧ EventRecord.key e = key.
Proof.
  intros Hok (row & Hin & <- & <- & Hd)%event_Some.
  destruct (io_events _ (io_rows _ Hok) _ Hin) as (e' & (Hd' & _ & Hs & Hk & _) & _).
  assert (e' = e) as -> by congruence. done.
Qed.

Lemma event_pinned i source key e : intake_ok i → event i source key = Ok (Some e) → pinned e.
Proof.
  intros Hok (row & Hin & _ & _ & Hd)%event_Some.
  destruct (io_events _ (io_rows _ Hok) _ Hin) as (e' & (Hd' & _ & _ & _ & _ & _ & Hp) & _).
  assert (e' = e) as -> by congruence. done.
Qed.

Lemma insert_event_identity i a r key payload now i' a' e :
  intake_ok i → insert_event i a r key payload now = Ok (i', a', e) →
  EventRecord.source e = SourceConfig.id (SourceRecord.config r) ∧ EventRecord.key e = key.
Proof.
  intros Hok [(_ & _ & Hev & _)|(_ & _ & _ & input & bytes & -> & _ & _)]%record_event_Ok; [|done].
  by apply (event_identity i).
Qed.

Lemma receive_current i a source key payload now i' a' e :
  intake_ok i → receive_event i a source key payload now = Ok (i', a', e) →
  event i' (EventRecord.source e) (EventRecord.key e) = Ok (Some e).
Proof.
  intros Hok Hrec. pose proof (receive_ok _ _ _ _ _ _ _ _ _ Hok Hrec) as Hok'. revert Hrec.
  unfold receive_event. intros ([] & _ & (r & _ & H)%rbind_Ok)%rbind_Ok. revert H.
  destruct (SourceConfig.trigger _); [|done]. intros Hins. destruct (insert_event_identity _ _ _ _ _ _ _ _ _ Hok Hins).
  by eapply insert_event_current.
Qed.

Lemma tick_current i a id now i' a' e :
  intake_ok i → tick_event_source i a id now = Ok (i', a', Some e) →
  EventRecord.source e = id ∧ event i' (EventRecord.source e) (EventRecord.key e) = Ok (Some e).
Proof.
  intros Hok Ht. pose proof (tick_ok _ _ _ _ _ _ _ Hok Ht) as Hok'.
  destruct (tick_Ok _ _ _ _ _ _ _ Hok Ht) as (r & first & interval & next & latest & following & count & payload & input
    & bytes & srow & i1 & sbytes & _ & (_ & Hid & _) & _ & _ & _ & _ & _ & _ & _ & _ & _ & _ & -> & Hb & Hi%insert_rows & _ & ->).
  split; [exact Hid|]. set (row := IntakeRow.mk _ _ _ _ _) in *.
  assert (Hin : row ∈ event_intake (update_source i1 id sbytes None)).
  { unfold update_source, put. cbn. rewrite Hi. apply elem_of_app. right. by left. }
  destruct (event_row_of _ _ Hok' Hin) as (e' & (Hd & _) & Hev). cbn in Hev.
  unfold decode_event in Hd. cbn -[fresh_event] in Hd. rewrite (from_slice_to_vec _ _ (proj1 Hb)) in Hd. injection Hd as <-.
  cbn. by rewrite Hid.
Qed.
End returned.

(** ** Properties *)

Section intake_properties.
Context {SHA : Sha256} {SER : StoreSerde} {SES : SessionSerde} {INT : IntakeSerde} {INTOK : IntakeSerdeOk}.
Context {HOST : Host} {REV : ReviewSerde} {B64 : Base64}.

(** Whatever is registered, delivered, ticked, saved and disabled, in any order: no two events share a request or a
    source and key, each event's request is derived from both and its row agrees with its record, at most 128 events
    are outstanding, every source keeps the identity its row is stored under, and every clock stands on an occurrence
    of its schedule that lies after all it has reported, with at most one of its events outstanding. *)
Theorem intake_consistent i : taken i → intake_ok i.
Proof. apply taken_ok. Qed.

(** A delivery is answered the same for ever: once recorded, the same key with the same payload is answered with that
    event, and records nothing, whatever happened meanwhile (even after its source was disabled); the same key with
    another payload is refused. *)
Theorem delivery_answered_once i a source key payload now i1 a1 e i2 :
  taken i → receive_event i a source key payload now = Ok (i1, a1, e) → rtc intake_step i1 i2 →
  ∃ e2, same_event e e2 ∧ EventRecord.payload_digest e = digest_of payload ∧
    ∀ a2 payload2 now2, validate_delivery key payload2 = Ok tt →
      receive_event i2 a2 source key payload2 now2 =
        if bool_decide (digest_of payload2 = digest_of payload) then Ok (i2, a2, e2)
        else Err (StoreError.Invalid "event key reused with a different payload").
Proof.
  intros Ht Hrec Hsteps. pose proof (taken_ok _ Ht) as Hok. pose proof (receive_ok _ _ _ _ _ _ _ _ _ Hok Hrec) as Hok1.
  assert (Hstep : intake_step i i1) by by eapply step_receive.
  revert Hrec. unfold receive_event at 1. intros ([] & _ & (r & Hr & H)%rbind_Ok)%rbind_Ok. revert H.
  destruct (SourceConfig.trigger _) eqn:Htr; [|done]. intros Hins.
  destruct (event_source_ok _ _ _ Hok Hr) as (srow & _ & (_ & Hid & _) & _).
  assert (He : event i1 source key = Ok (Some e) ∧ EventRecord.payload_digest e = digest_of payload).
  { apply record_event_Ok in Hins as [(-> & _ & Hev & Hd)|(_ & _ & _ & input & bytes & -> & Hb & Hi)].
    { by rewrite Hid in Hev. }
    split; [|done]. apply insert_rows in Hi. set (row := IntakeRow.mk _ _ _ _ _) in *.
    assert (Hin : row ∈ event_intake i1) by (rewrite Hi; apply elem_of_app; right; by left).
    destruct (event_row_of _ _ Hok1 Hin) as (e' & (Hd & _) & Hev). cbn in Hev. rewrite Hid in Hev.
    unfold decode_event in Hd. cbn -[fresh_event] in Hd. rewrite (from_slice_to_vec _ _ (proj1 Hb)) in Hd. by injection Hd as <-. }
  destruct He as [He Hdig]. destruct (steps_event _ _ _ _ _ Hok1 Hsteps He) as (e2 & He2 & Hsame).
  destruct (step_source _ _ _ _ Hok Hstep Hr) as (r1 & Hr1 & Hc1 & _).
  destruct (steps_source _ _ _ _ Hok1 Hsteps Hr1) as (r2 & Hr2 & Hc2 & _).
  exists e2. split_and!; [done..|]. intros a2 payload2 now2 Hv. unfold receive_event. rewrite Hv. cbn [rbind].
  rewrite Hr2. cbn [rbind]. rewrite Hc2, Hc1, Htr. unfold insert_event. rewrite Hc2, Hc1, Hid, He2. cbn [rbind].
  assert (Hd2 : EventRecord.payload_digest e2 = digest_of payload) by (destruct Hsame as (_ & _ & -> & _); done).
  rewrite Hd2. destruct (decide (digest_of payload2 = digest_of payload)) as [->|Hne].
  - by rewrite !bool_decide_false, bool_decide_true by (done || by intros []).
  - by rewrite (bool_decide_true (_ ≠ _)), bool_decide_false by done.
Qed.

(** The clock of a source reports occurrences of its schedule: each time the last that is due (those missed are
    coalesced into it), never one that is to come, never one it has reported, and each time a later one. *)
Theorem clock_reports_latest_once i a id now i1 a1 e i2 a2 now2 i3 a3 e2 :
  taken i → tick_event_source i a id now = Ok (i1, a1, Some e) → rtc intake_step i1 i2 →
  tick_event_source i2 a2 id now2 = Ok (i3, a3, Some e2) →
  ∃ r first interval t t2, event_source i id = Ok r ∧
    SourceConfig.trigger (SourceRecord.config r) = TriggerKind.Interval first interval ∧
    EventRecord.key e = tick_key t ∧ EventRecord.key e2 = tick_key t2 ∧
    on_schedule first interval t ∧ on_schedule first interval t2 ∧
    (t ≤ now < t + interval)%N ∧ (t2 ≤ now2 < t2 + interval)%N ∧ (t < t2)%N ∧
    event i id (tick_key t) = Ok None ∧ event i2 id (tick_key t2) = Ok None.
Proof.
  intros Ht Htick Hsteps Htick2. pose proof (taken_ok _ Ht) as Hok. pose proof (tick_ok _ _ _ _ _ _ _ Hok Htick) as Hok1.
  assert (Hok2 : intake_ok i2).
  { clear -Hok1 Hsteps INTOK. induction Hsteps; [done|]. apply IHHsteps. by eapply intake_step_ok. }
  destruct (tick_Ok _ _ _ _ _ _ _ Hok Htick) as (r & first & interval & next & latest & following & count & payload & input
    & bytes & srow & j1 & sbytes & Hl & (Hd & Hid & Hdis & Hv) & Hcur & _ & Htr & Hiv & Hn & Hdue & _ & _ & Hev & _ & -> & _
    & Hi%insert_sources & Hsb & ->).
  destruct (tick_Ok _ _ _ _ _ _ _ Hok2 Htick2) as (r2 & first2 & interval2 & next2 & latest2 & following2 & count2 & payload2
    & input2 & bytes2 & srow2 & j2 & sbytes2 & Hl2 & (Hd2 & _) & Hcur2 & _ & Htr2 & Hiv2 & Hn2 & Hdue2 & _ & _ & Hev2
    & _ & -> & _ & _ & _ & _).
  assert (Hr : event_source i id = Ok r) by (apply event_source_Ok; by exists srow).
  set (r' := r <| SourceRecord.next_due_ms := Some following |> <| SourceRecord.last_key := Some (tick_key latest) |>) in *.
  assert (Hr1 : event_source (update_source j1 id sbytes None) id = Ok r').
  { apply event_source_Ok. unfold update_source, put. cbn. rewrite Hi, lookup_alter_eq, Hl. cbn. eexists.
    split; [done|]. unfold decode_source. cbn. by rewrite (from_slice_to_vec _ _ Hsb). }
  destruct (steps_source _ _ _ _ Hok1 Hsteps Hr1) as (r2' & Hr2' & Hc & _ & _ & Hmono).
  assert (r2' = r2) as -> by (apply event_source_Ok in Hr2' as (? & ? & ?); congruence).
  assert (Hcfg : SourceRecord.config r2 = SourceRecord.config r) by done.
  rewrite Hcfg, Htr in Htr2. injection Htr2 as <- <-.
  destruct (Hmono following eq_refl) as (n & Hnn & Hle). assert (n = next2) as -> by congruence.
  apply latest_due_Some in Hdue as (? & ? & ? & ? & Hlat & Hfol & ?); [|lia].
  apply latest_due_Some in Hdue2 as (? & ? & ? & ? & Hlat2 & Hfol2 & ?); [|lia].
  unfold cursor_ok in Hcur, Hcur2. rewrite Htr in Hcur. rewrite Hcfg, Htr in Hcur2.
  destruct Hcur as (m & Hm & Hs & _). destruct Hcur2 as (m2 & Hm2 & Hs2 & _).
  assert (m = next) as -> by congruence. assert (m2 = next2) as -> by congruence.
  exists r, first, interval, latest, latest2. split_and!; try done; try lia.
  - rewrite Hlat. by apply on_schedule_add.
  - rewrite Hlat2. by apply on_schedule_add.
Qed.
End intake_properties.
