(* ===== verification/IntakeHost.v ===== *)
(** * What the host makes of events

    The operations of EventIntake's host are sequences of transactions: each is shown to
    be made of operations of the session journal and steps of the intake tables, so that
    the invariants of both hold after it, also when it fails half way; and an event is
    brought together with the submission it stands for, once. *)

From S2P Require Import Prelude Transactions Digest Codec Contract State Artifacts Workspace Input ArtifactGraph Journal Store StoreTasks.
From S2P Require Import JsonValue Cost Conversation Admission Session Context SessionStore SessionCommands.
From S2P Require Import ContractAdmission Queue Submissions Shell Auxiliary SessionSteps QueueGuarantees.
From S2P Require Import Media HostQueue EventIntake IntakeGuarantees.

Section intake_host.
Context {SHA : Sha256} {SER : StoreSerde} {SES : SessionSerde} {INT : IntakeSerde} {INTOK : IntakeSerdeOk}.
Context {HOST : Host} {TURN : TurnSerde} {OK : SessionSerdeOk} {SET : SerdeErrorText} {DET : StoreErrorText}.
Context {HET : HostErrorText} {REV : ReviewSerde} {B64 : Base64} `{!Serde AuthorityIdentity}.
Variable now_ms : N → N.
Variable h : HostConfig.t.
Implicit Types (w : Books) (e : EventRecord.t) (src : SourceRecord.t).

(** ** Books that were kept *)

Record grown_books w w' : Prop := {
  gb_sessions : rtc (session_operation now_ms) (session_db w) (session_db w');
  gb_intake : rtc intake_step (intake_db w) (intake_db w');
  gb_files : reads_kept (files w) (files w');
}.
Definition good_books w : Prop := queues_ok (session_db w) ∧ intake_ok (intake_db w).

#[export] Instance grown_books_preorder : PreOrder grown_books.
Proof.
  split.
  - intros w. split; [done..|apply reads_kept_refl].
  - intros w1 w2 w3 [A1 A2 A3] [B1 B2 B3]. split; [by etrans..|by eapply reads_kept_trans].
Qed.

Lemma intake_steps_ok i i' : intake_ok i → rtc intake_step i i' → intake_ok i'.
Proof. intros Hok Hs. induction Hs; [done|]. apply IHHs. by eapply intake_step_ok. Qed.

#[export] Instance grown_books_good : Keeps good_books grown_books.
Proof.
  intros w w' [Hq Hi] [Hs Ht _]. split; [by eapply operations_queues|by eapply intake_steps_ok].
Qed.

#[local] Notation triple := (Transactions.triple good_books grown_books).

(** ** Transactions *)

(** The store holds [e] as it is. *)
Definition current w e : Prop :=
  event (intake_db w) (EventRecord.source e) (EventRecord.key e) = Ok (Some e).

(** [F] does not depend on the sessions, the artifacts or the event [e]. *)
Definition frame e (F : Books → Prop) : Prop :=
  ∀ w w', F w → event_sources (intake_db w') = event_sources (intake_db w) →
    (∀ e2, EventRecord.request e2 ≠ EventRecord.request e → current w e2 → current w' e2) → F w'.

Lemma frame_same e e' F : same_event e e' → frame e F → frame e' F.
Proof. intros (_ & _ & _ & _ & _ & Hr & _) HF w w' Hw Hs Hc. eapply HF; [done|done|]. by rewrite <-Hr. Qed.

Lemma frame_elsewhere e F w w' : frame e F → intake_db w' = intake_db w → F w → F w'.
Proof. intros HF Hi Hw. eapply HF; [exact Hw|by rewrite Hi|]. intros e2 _. unfold current. by rewrite Hi. Qed.

Lemma save_triple e0 e F :
  same_event e0 e → frame e F → triple (λ w, current w e0 ∧ F w) (save e) (λ _ w, current w e ∧ F w).
Proof.
  intros Hsame HF. apply triple_transaction. intros w w' [] [_ Hi] [Hcur Hw].
  intros (i & Hs%map_err_Ok & [= <-])%rbind_Ok.
  destruct (save_current _ _ _ _ (io_rows _ Hi) Hcur Hsame Hs) as (Hev & Hsrc & Hoth).
  split; [split; [done| |apply reads_kept_refl]|].
  - by eapply rtc_once, step_save.
  - split; [exact Hev|]. by eapply HF.
Qed.

Lemma host_submit_Ok accepting db a now session request content intent db' a' b :
  sessions_ok db → host_submit now_ms h accepting db a now session request content intent = Ok (db', a', b) →
  rtc (session_operation now_ms) db db' ∧ reads_kept a a' ∧
  ∃ s input a1 work, load_session db' session = Ok s ∧ SessionState.submissions s !! request = Some b ∧
    prepare (default_content intent content) a = Ok (input, a1) ∧ work_intent a1 intent = Ok (a', work) ∧
    Submission.initial_input b = PreparedInput.artifact input ∧ Submission.intent b = work.
Proof.
  intros Hok. unfold host_submit. intros ([] & _ & ([] & _ & ([] & _ & H)%rbind_Ok)%rbind_Ok)%rbind_Ok.
  apply rbind_Ok in H as ([input a1] & Hp%map_err_Ok & H). apply rbind_Ok in H as ([a2 work] & Hw%map_err_Ok & H).
  apply rbind_Ok in H as ([db1 b1] & Hs%map_err_Ok & [= <- <- <-]). split_and!.
  - by eapply rtc_once, op_submit.
  - eapply reads_kept_trans; [by eapply prepare_keeps|]. clear -Hw. destruct intent; cbn [work_intent] in Hw.
    + apply rbind_Ok in Hw as ([a3 d] & Hput & [= <- _]). unfold put_policy in Hput.
      apply rbind_Ok in Hput as ([] & _ & ([] & _ & (bytes & _ & Hput%map_err_Ok)%rbind_Ok)%rbind_Ok). by eapply put_keeps.
    + injection Hw as <- _. apply reads_kept_refl.
    + apply rbind_Ok in Hw as ([] & _ & [= <- _]). apply reads_kept_refl.
    + apply rbind_Ok in Hw as ([a3 d] & Hput & [= <- _]). unfold put_policy in Hput.
      apply rbind_Ok in Hput as ([] & _ & ([] & _ & (bytes & _ & Hput%map_err_Ok)%rbind_Ok)%rbind_Ok). by eapply put_keeps.
    + injection Hw as <- _. apply reads_kept_refl.
  - destruct (submit_Ok now_ms _ _ _ _ _ _ _ _ _ Hok Hs) as (s & hd & prepared & Hl & Hb & Hi & Hint & _).
    exists s, input, a1, work. split_and!; try done. unfold load_session. by rewrite Hl.
Qed.

(** A session has the submission of an event. *)
Definition submitted w e (b : Submission.t) : Prop :=
  ∃ s, load_session (session_db w) (EventRecord.session e) = Ok s ∧
    SessionState.submissions s !! EventRecord.request e = Some b.

Lemma admit_triple accepting now src e0 e F :
  frame e F →
  triple (λ w, current w e0 ∧ F w) (admit_event now_ms h accepting now src e)
    (λ b w, current w e0 ∧ F w ∧ submitted w e b).
Proof.
  intros HF. apply triple_transaction. intros w w' b [Hq Hi] [Hcur Hw] ([] & _ & (input & _ & H)%rbind_Ok)%rbind_Ok.
  apply rbind_Ok in H as ([[db a] b1] & Hs & [= <- <-]).
  apply host_submit_Ok in Hs as (Hops & Hread & s & input' & a1 & work & Hl & Hb & _); [|apply Hq].
  split; [by split|]. split_and!; [exact Hcur|by apply (frame_elsewhere e F w)|]. by exists s.
Qed.

Lemma cancel_request_operations db a session request db' b :
  cancel_request db a session request = Ok (db', b) → rtc (session_operation now_ms) db db'.
Proof.
  unfold cancel_request. intros (s & _ & H)%rbind_Ok. revert H. case_bool_decide as Ha; [by intros [= <- _]|].
  destruct (_ !! request) as [id|]; [|by intros [= <- _]]. case_bool_decide as Hk; [by intros [= <- _]|].
  intros (task & _ & H)%rbind_Ok. revert H. case_bool_decide as Ho; [|by intros [= <- _]].
  intros ([st task'] & _ & [= <- _])%rbind_Ok. by eapply rtc_once, op_tables.
Qed.

Lemma cancel_submission_operations db a operation session request db' b :
  cancel_submission now_ms db a operation session request = Ok (db', b) → rtc (session_operation now_ms) db db'.
Proof.
  unfold cancel_submission. intros (b0 & _ & (s & _ & H)%rbind_Ok)%rbind_Ok. destruct (unstarted _ _ _).
  { by eapply rtc_once, op_status. }
  apply rbind_Ok in H as (db1 & Hc & H). apply rbind_Ok in H as (b1 & _ & [= <- _]). revert Hc.
  destruct (_ && _); [|by intros [= <-]]. intros ([db2 x] & Hc & [= <-])%rbind_Ok. by eapply cancel_request_operations.
Qed.

Lemma cancel_event_triple operation e0 e F :
  same_event e0 e → EventRecord.settled e = false → frame e F →
  triple (λ w, current w e0 ∧ F w) (cancel_event_submission now_ms operation e)
    (λ e' w, current w e0 ∧ F w ∧ same_event e e').
Proof.
  intros Hsame Hset HF. unfold cancel_event_submission. destruct (EventRecord.submission e) as [b|].
  - apply triple_transaction. intros w w' e' [Hq Hi] [Hcur Hw] ([db b'] & Hc%map_err_Ok & [= <- <-])%rbind_Ok.
    apply cancel_submission_operations in Hc. split; [by split; [|done|apply reads_kept_refl]|].
    split_and!; [exact Hcur|by apply (frame_elsewhere e F w)|]. split_and!; try done. cbn. by rewrite Hset.
  - apply triple_ret. intros w [Hcur Hw]. split_and!; [done..|]. by split_and!.
Qed.

(** ** Reconciliation *)

Lemma settle_finished_same e : same_event e (settle_finished e).
Proof. unfold settle_finished. destruct (is_finished _); by split_and!. Qed.

Lemma reconcile_triple accepting now operation e F :
  frame e F →
  triple (λ w, current w e ∧ F w) (reconcile_event now_ms h accepting now operation e)
    (λ e' w, current w e' ∧ F w ∧ same_event e e').
Proof.
  intros HF. unfold reconcile_event. destruct (EventRecord.settled e) eqn:Hset.
  { apply triple_ret. intros w [Hcur Hw]. split_and!; [done..|apply same_event_refl]. }
  eapply triple_bind; [apply (triple_query _ _ (λ _ w, current w e ∧ F w)); by intros|].
  intros [src existing]. eapply triple_bind; [apply (triple_query _ _ (λ _ w, current w e ∧ F w)); by intros|].
  intros [].
  - set (e1 := e <| EventRecord.error := _ |> <| EventRecord.settled := true |>).
    assert (Hs1 : same_event e e1) by by split_and!.
    eapply triple_bind; [apply save_triple; [exact Hs1|by eapply frame_same]|]. intros [].
    apply triple_ret. intros w [Hcur Hw]. by split_and!.
  - set (e1 := e <| EventRecord.cancel_requested := _ |> <| EventRecord.submission := existing |>
                 <| EventRecord.error := None |>).
    assert (Hs1 : same_event e e1) by by split_and!. assert (HF1 : frame e1 F) by by eapply frame_same.
    eapply (triple_bind _ _ _ (λ e2 w, ∃ e0, same_event e e0 ∧ same_event e0 e2 ∧ current w e0 ∧ F w)).
    + destruct (EventRecord.cancel_requested e1).
      * eapply triple_bind; [by apply save_triple|]. intros [].
        eapply triple_weaken; [apply (cancel_event_triple operation e1 e1 F); [apply same_event_refl|done|done]|done|].
        intros e2 w (Hcur & Hw & Hs). by exists e1.
      * case_bool_decide.
        -- eapply triple_bind; [apply triple_attempt, (admit_triple accepting now src e e1 F HF1)|].
           intros [b|err]; apply triple_ret; intros w Hw; exists e; split_and!; try done; try apply same_event_refl;
             apply Hw.
        -- apply triple_ret. intros w [Hcur Hw]. exists e. by split_and!.
    + intros e2 w w' r Hg (e0 & Hs0 & Hs2 & Hcur & Hw).
      assert (Hs3 : same_event e0 (settle_finished e2)) by (eapply same_event_trans; [exact Hs2|apply settle_finished_same]).
      assert (Hse : same_event e (settle_finished e2)) by by eapply same_event_trans.
      assert (Ht : triple (λ w, current w e0 ∧ F w) (_ ← save (settle_finished e2); mret (settle_finished e2))
                     (λ e' w, current w e' ∧ F w ∧ same_event e e')).
      { eapply triple_bind; [apply save_triple; [exact Hs3|by eapply frame_same]|]. intros [].
        apply triple_ret. intros w1 [Hcur1 Hw1]. by split_and!. }
      by apply Ht.
Qed.

(** [F] depends on the sources only. *)
Definition frames (F : Books → Prop) : Prop := ∀ e, frame e F.

Lemma frames_true : frames (λ _, True).
Proof. by intros e w w'. Qed.

Lemma collect_decoded {A B} (f : A → result B StoreError.t) (rows : list A) l :
  for_each (λ l row, let? x := f row in Ok (l ++ [x])) [] rows = Ok l → Forall2 (λ row x, f row = Ok x) rows l.
Proof. intros (k & -> & Hk)%collect_Ok. exact Hk. Qed.

(** What is pending is current, and no request is twice among it. *)
Lemma pending_current i l :
  intake_ok i → pending_events i = Ok l →
  Forall (λ e, event i (EventRecord.source e) (EventRecord.key e) = Ok (Some e)) l ∧ NoDup (EventRecord.request <$> l).
Proof.
  intros Hok Hl%collect_decoded.
  assert (Hsub : take 128 (pending_rows i) `sublist_of` event_intake i).
  { etrans; [apply sublist_take|apply sublist_filter]. }
  assert (Hreq : EventRecord.request <$> l = IntakeRow.request <$> take 128 (pending_rows i)).
  { assert (Hin : ∀ row, row ∈ take 128 (pending_rows i) → row ∈ event_intake i).
    { intros row Hrow. by eapply elem_of_sublist. }
    clear -Hl Hok Hin. induction Hl as [|row e rows l Hd _ IH]; [done|]. cbn.
    destruct (io_events _ (io_rows _ Hok) row) as (e' & (Hd' & Hr & _) & _); [apply Hin; by left|].
    assert (e' = e) as -> by congruence. rewrite Hr. f_equal. apply IH. intros. apply Hin. by right. }
  split.
  - apply Forall_forall. intros e He. apply list_elem_of_lookup in He as [n Hn].
    destruct (Forall2_lookup_r _ _ _ _ _ Hl Hn) as (row & Hrow & Hd).
    assert (Hin : row ∈ event_intake i).
    { eapply elem_of_sublist; [by eapply list_elem_of_lookup_2|exact Hsub]. }
    destruct (event_row_of _ _ Hok Hin) as (e' & (Hd' & _ & Hs & Hk & _) & Hev).
    assert (e' = e) as -> by congruence. by rewrite <-Hs, <-Hk.
  - rewrite Hreq. eapply sublist_NoDup; [exact (io_requests _ (io_rows _ Hok))|]. by apply fmap_sublist.
Qed.

Lemma reconcile_all_triple accepting now fresh l F :
  frames F →
  triple (λ w, Forall (current w) l ∧ NoDup (EventRecord.request <$> l) ∧ F w)
    (reconcile_all now_ms h accepting now fresh l) (λ _ w, F w).
Proof.
  intros HF. set (P := λ l w, Forall (current w) l ∧ NoDup (EventRecord.request <$> l) ∧ F w).
  apply (triple_weaken _ (P l) _ _ (λ _, P [])); [|done|by intros [] w (_ & _ & Hw)].
  apply (triple_each P). clear l. intros e l.
  set (G := λ w, EventRecord.request e ∉ (EventRecord.request <$> l) ∧ P l w).
  apply (triple_bind _ _ _ (λ _, P l)).
  - apply (triple_weaken _ (λ w, current w e ∧ G w) _ _ (λ e' w, current w e' ∧ G w ∧ same_event e e')).
    + apply reconcile_triple. intros w w' (Hn & Hc & Hnd & Hw) Hs Hcur. unfold G, P. split_and!; [done| |done|by eapply HF].
      apply Forall_forall. intros e2 He2. apply Hcur; [|by apply (proj1 (Forall_forall _ _) Hc)].
      intros Heq. apply Hn. rewrite <-Heq. by apply list_elem_of_fmap_2.
    + intros w (Hc & Hnd & Hw). apply Forall_cons in Hc as [Hce Hc]. cbn in Hnd. apply NoDup_cons in Hnd as [Hn Hnd].
      by split_and!.
    + intros e' w (_ & (_ & Hp) & _). exact Hp.
  - intros e'. by apply triple_ret.
Qed.

Lemma pending_triple F :
  triple F pending (λ l w, Forall (current w) l ∧ NoDup (EventRecord.request <$> l) ∧ F w).
Proof.
  apply triple_query. intros w l [_ Hi] Hw Hl%map_err_Ok. destruct (pending_current _ _ Hi Hl). by split_and!.
Qed.

Lemma deliver_triple accepting now operation source key payload :
  triple (λ _, True) (deliver_event now_ms h accepting now operation source key payload) (λ e w, current w e).
Proof.
  unfold deliver_event. eapply triple_bind; [apply (triple_query _ _ (λ _ _, True)); by intros|]. intros [].
  eapply (triple_bind _ _ _ (λ e w, current w e ∧ True)).
  - apply triple_transaction. intros w w' e [_ Hi] _ (known & _ & ([] & _ & H)%rbind_Ok)%rbind_Ok.
    apply rbind_Ok in H as ([[i a] e1] & Hr%map_err_Ok & [= <- <-]).
    split; [split; [done|by eapply rtc_once, step_receive|]|split; [|done]].
    + cbn. by eapply receive_files.
    + unfold current. cbn. by eapply receive_current.
  - intros e. eapply triple_weaken; [apply (reconcile_triple _ _ _ e (λ _, True) (frames_true e))|done|].
    by intros e' w (? & _).
Qed.

Lemma cancel_triple accepting now operation source key :
  triple (λ _, True) (cancel_event now_ms h accepting now operation source key) (λ e w, current w e).
Proof.
  unfold cancel_event. eapply (triple_bind _ _ _ (λ e w, current w e ∧ True)).
  - apply triple_query. intros w e [_ Hi] _ (found & Hf%map_err_Ok & Hs%ok_or_Ok)%rbind_Ok. subst found.
    destruct (event_identity _ _ _ _ Hi Hf) as [Hsrc Hkey]. split; [|done]. unfold current. by rewrite Hsrc, Hkey.
  - intros e. set (e1 := e <| EventRecord.cancel_requested := true |>).
    eapply triple_bind; [apply (save_triple e e1 (λ _, True)); [by split_and!|apply frames_true]|]. intros [].
    eapply triple_weaken; [apply (reconcile_triple _ _ _ e1 (λ _, True) (frames_true e1))|done|by intros e' w (? & _)].
Qed.

Lemma Forall_current_filter (P : EventRecord.t → Prop) `{!∀ e, Decision (P e)} w l :
  Forall (current w) l → Forall (current w) (base.filter P l).
Proof. intros Hl. apply Forall_forall. intros e [_ He]%list_elem_of_filter. by apply (proj1 (Forall_forall _ _) Hl). Qed.

Lemma NoDup_request_filter (P : EventRecord.t → Prop) `{!∀ e, Decision (P e)} l :
  NoDup (EventRecord.request <$> l) → NoDup (EventRecord.request <$> base.filter P l).
Proof. intros Hl. eapply sublist_NoDup; [exact Hl|]. apply fmap_sublist, sublist_filter. Qed.

Lemma disable_triple accepting now fresh source :
  triple (λ _, True) (disable_source now_ms h accepting now fresh source) (λ _ _, True).
Proof.
  unfold disable_source. eapply triple_bind.
  - apply (triple_transaction _ _ (λ _ _, True)). intros w w' r _ _ ([i r1] & Hd%map_err_Ok & [= <- <-])%rbind_Ok.
    split; [|done]. split; [done|by eapply rtc_once, step_disable|apply reads_kept_refl].
  - intros record. eapply triple_bind; [apply (pending_triple (λ _, True))|]. intros l.
    eapply (triple_bind _ _ _ (λ _ _, True)); [|intros []; by apply triple_ret].
    eapply triple_weaken; [apply (reconcile_all_triple accepting now fresh _ (λ _, True) frames_true)| |done].
    intros w (Hc & Hn & _). split_and!; [by apply Forall_current_filter|by apply NoDup_request_filter|done].
Qed.

Lemma register_triple config :
  triple (λ _, True) (register_event_source_at h config) (λ _ _, True).
Proof.
  apply triple_transaction. intros w w' r _ _ (s & _ & ([] & _ & (p & _ & H)%rbind_Ok)%rbind_Ok)%rbind_Ok.
  apply rbind_Ok in H as ([i r1] & Hr%map_err_Ok & [= <- <-]). split; [|done].
  split; [done|by eapply rtc_once, step_register|apply reads_kept_refl].
Qed.

(** ** The pass over the clocks *)

#[local] Notation source_id src := (SourceConfig.id (SourceRecord.config src)).

(** The sources still to be visited are as they were read. *)
Definition unvisited (l : list SourceRecord.t) w : Prop :=
  Forall (λ src, event_source (intake_db w) (source_id src) = Ok src) l ∧ NoDup ((λ src, source_id src) <$> l).

Lemma unvisited_frames l : frames (unvisited l).
Proof.
  intros e w w' [Hl Hn] Hs _. split; [|done]. eapply Forall_impl; [exact Hl|]. intros src Hsrc.
  by rewrite (event_source_sources _ _ _ Hs).
Qed.

Lemma update_source_other i id bytes d id' :
  id' ≠ id → event_source (update_source i id bytes d) id' = event_source i id'.
Proof.
  intros Hne. unfold event_source, find_event_source, update_source, put. cbn. by rewrite lookup_alter_ne.
Qed.

(** The source [id] is being visited, those of [l] are not yet. *)
Definition ahead (id : Uuid) (l : list SourceRecord.t) w : Prop :=
  unvisited l w ∧ id ∉ ((λ src, source_id src) <$> l).

Lemma unvisited_ahead src l w : unvisited (src :: l) w → ahead (source_id src) l w.
Proof.
  intros [Hl Hn]. apply Forall_cons in Hl as [_ Hl]. cbn in Hn. by apply NoDup_cons in Hn as [Hni Hn].
Qed.

Lemma ahead_update id l i w w' bytes d :
  ahead id l w → event_sources i = event_sources (intake_db w) → intake_db w' = update_source i id bytes d →
  ahead id l w'.
Proof.
  intros [[Hl Hn] Hni] Hi Hw. split; [|done]. split; [|done]. rewrite Hw. apply Forall_forall. intros s Hs.
  rewrite update_source_other.
  - rewrite (event_source_sources _ _ _ Hi). by apply (proj1 (Forall_forall _ _) Hl).
  - intros Heq. apply Hni. rewrite <-Heq. by apply (list_elem_of_fmap_2 (λ src, source_id src)).
Qed.

Lemma ahead_frames id l : frames (ahead id l).
Proof. intros e w w' [Hu Hni] Hs Hc. split; [|done]. by eapply unvisited_frames. Qed.

Lemma record_admission_triple src l error :
  triple (unvisited (src :: l))
    (transaction (λ w,
       let? i := map_err HostError.Store (record_event_source_admission (intake_db w) src error) in
       Ok (w <| intake_db := i |>, tt))) (λ _, ahead (source_id src) l).
Proof.
  apply triple_transaction. intros w w' [] _ Hu (i & Hi%map_err_Ok & [= <-])%rbind_Ok. split.
  - split; [done| |apply reads_kept_refl]. destruct Hu as [Hl _]. apply Forall_cons in Hl as [Hsrc _].
    by eapply rtc_once, step_admission.
  - apply unvisited_ahead in Hu. revert Hi. unfold record_event_source_admission. case_bool_decide.
    + intros [= <-]. exact Hu.
    + intros (bytes & _ & [= <-])%rbind_Ok. by eapply ahead_update.
Qed.

Lemma tick_triple id now l :
  triple (ahead id l)
    (transaction (λ w,
       let? '(i, a, e) := map_err HostError.Store (tick_event_source (intake_db w) (files w) id now) in
       Ok (w <| intake_db := i |> <| files := a |>, e)))
    (λ ticked w, ahead id l w ∧ match ticked with Some e => current w e | None => True end).
Proof.
  apply triple_transaction. intros w w' ticked [_ Hi] Ha ([[i a] e] & Ht%map_err_Ok & [= <- <-])%rbind_Ok. split.
  - split; [done|by eapply rtc_once, step_tick|by eapply tick_files].
  - destruct e as [e|]; [|rewrite (tick_None _ _ _ _ _ _ Ht); split; [exact Ha|done]].
    split; [|by apply (tick_current (intake_db w) (files w) id now i a e)].
    destruct (tick_Ok _ _ _ _ _ _ _ Hi Ht) as (r & first & interval & next & latest & following & count & payload & input
      & bytes & srow & i1 & sbytes & _ & _ & _ & _ & _ & _ & _ & _ & _ & _ & _ & _ & _ & _ & Hins%insert_sources & _ & ->).
    by eapply (ahead_update id l i1 w).
Qed.

Lemma tick_source_triple accepting now fresh src l :
  triple (unvisited (src :: l)) (tick_source now_ms h accepting now fresh src) (λ _, unvisited l).
Proof.
  unfold tick_source. eapply triple_bind; [apply triple_attempt_query|]. intros verdict. cbn zeta.
  eapply triple_bind; [apply record_admission_triple|]. intros []. case_bool_decide.
  { apply triple_ret. by intros w [Hu _]. }
  eapply triple_bind; [apply triple_attempt, tick_triple|]. intros [[e|]|err].
  - eapply (triple_bind _ _ _ (λ _, unvisited l)); [|intros e'; by apply triple_ret].
    eapply triple_weaken; [apply (reconcile_triple _ _ _ e _ (unvisited_frames l e))| |by intros e' w (_ & Hu & _)].
    by intros w [[Hu _] Hc].
  - apply triple_ret. by intros w [[Hu _] _].
  - destruct (at_capacity err); [apply triple_ret; by intros w [Hu _]|]. apply triple_query. by intros.
Qed.

Lemma enabled_unvisited i l :
  intake_ok i → enabled_sources i = Ok l →
  Forall (λ src, event_source i (source_id src) = Ok src) l ∧ NoDup ((λ src, source_id src) <$> l).
Proof.
  intros Hok Hl%collect_decoded. unfold btree_values in Hl.
  assert (Hkv : Forall (λ kv, event_sources i !! kv.1 = Some kv.2) (btree_iter (event_sources i))).
  { apply Forall_forall. intros [id srow] Hin. by apply elem_of_btree_iter in Hin. }
  pose proof (NoDup_btree_keys (event_sources i)) as Hnd. unfold btree_keys in Hnd.
  assert (Hids : Forall (λ src, event_source i (source_id src) = Ok src ∧
                   source_id src ∈ (btree_iter (event_sources i)).*1) l ∧ NoDup ((λ src, source_id src) <$> l)).
  { revert Hkv Hnd l Hl. generalize (btree_iter (event_sources i)). intros kvs.
    induction kvs as [|[id srow] kvs IH]; intros Hkv Hnd l Hl.
    { inversion Hl. split; [done|apply NoDup_nil_2]. }
    apply Forall_cons in Hkv as [Hid Hkv]. cbn [fmap list_fmap snd fst] in Hnd, Hl, Hid. apply NoDup_cons in Hnd as [Hni Hnd].
    assert (Htail : ∀ k, Forall2 (λ row x, decode_source row = Ok x) (base.filter (λ row, enabled row = true) kvs.*2) k →
      Forall (λ src, event_source i (source_id src) = Ok src ∧ source_id src ∈ id :: kvs.*1) k ∧
      Forall (λ src, source_id src ∈ kvs.*1) k ∧ NoDup ((λ src, source_id src) <$> k)).
    { intros k Hk. destruct (IH Hkv Hnd k Hk) as [Hf Hn]. split_and!; [| |done].
      - eapply Forall_impl; [exact Hf|]. intros x [? ?]. split; [done|by right].
      - eapply Forall_impl; [exact Hf|]. by intros x [_ ?]. }
    rewrite filter_cons in Hl. destruct (decide _).
    - inversion Hl as [|? src ? l' Hd Hl']; subst. destruct (Htail _ Hl') as (Hf & Hin & Hn).
      destruct (io_sources _ Hok _ _ Hid) as (r & (Hd' & Hrid & _) & _). assert (r = src) as -> by congruence. split.
      + constructor; [|done]. split; [|rewrite Hrid; by left]. rewrite Hrid. apply event_source_Ok. by exists srow.
      + cbn. apply NoDup_cons. split; [|done]. rewrite Hrid. intros (x & Hx & Hxl)%list_elem_of_fmap.
        apply Hni. rewrite Hx. by apply (proj1 (Forall_forall _ _) Hin).
    - destruct (Htail _ Hl) as (Hf & _ & Hn). by split. }
  destruct Hids as [Hf Hn]. split; [|done]. eapply Forall_impl; [exact Hf|]. by intros x [? _].
Qed.

Lemma pass_triple accepting now fresh :
  triple (λ _, True) (intake_pass now_ms h accepting now fresh) (λ _ _, True).
Proof.
  unfold intake_pass. destruct (negb accepting); [by apply triple_ret|].
  eapply triple_bind; [apply (pending_triple (λ _, True))|]. intros l.
  eapply triple_bind; [apply (reconcile_all_triple accepting now fresh l (λ _, True) frames_true)|]. intros [].
  eapply (triple_bind _ _ _ unvisited).
  - apply triple_query. intros w srcs [_ Hi] _ Hs%map_err_Ok. by apply (enabled_unvisited _ _ Hi).
  - intros srcs. eapply triple_weaken; [apply (triple_each unvisited)|done|done].
    intros src l0. apply tick_source_triple.
Qed.

(** ** What reconciling an event does *)

Lemma save_Ok e w w' u :
  save e w = (w', Ok u) → ∃ i, save_event (intake_db w) e = Ok i ∧ w' = w <| intake_db := i |>.
Proof.
  unfold save, transaction. destruct (save_event (intake_db w) e) as [i|err]; cbn; [|done]. intros [= <- <-]. by exists i.
Qed.

(** The event as the host takes it up: cancelled with its source, with the submission
    the session has. *)
Definition taken_up src e (existing : option Submission.t) : EventRecord.t :=
  e <| EventRecord.cancel_requested := EventRecord.cancel_requested e || SourceRecord.disabled src |>
    <| EventRecord.submission := existing |> <| EventRecord.error := None |>.

Definition conflicted e : EventRecord.t :=
  e <| EventRecord.error := Some "event request ID conflicts with another queue submission" |>
    <| EventRecord.settled := true |>.

Lemma reconcile_Ok accepting now operation e w w' e' :
  EventRecord.settled e = false →
  reconcile_event now_ms h accepting now operation e w = (w', Ok e') →
  ∃ src s, event_source (intake_db w) (EventRecord.source e) = Ok src ∧
    load_session (session_db w) (EventRecord.session e) = Ok s ∧
    let existing := SessionState.submissions s !! EventRecord.request e in
    let e1 := taken_up src e existing in
    (conflicts src e existing = Ok true ∧ e' = conflicted e ∧ session_db w' = session_db w ∧ files w' = files w) ∨
    (conflicts src e existing = Ok false ∧ ∃ w2 e2,
       e' = settle_finished e2 ∧ session_db w' = session_db w2 ∧ files w' = files w2 ∧
       if EventRecord.cancel_requested e1 then
         ∃ w1, session_db w1 = session_db w ∧ cancel_event_submission now_ms operation e1 w1 = (w2, Ok e2)
       else if bool_decide (existing = None) then
         (∃ b, admit_event now_ms h accepting now src e1 w = (w2, Ok b) ∧ e2 = e1 <| EventRecord.submission := Some b |>) ∨
         (∃ err, admit_event now_ms h accepting now src e1 w = (w2, Err err) ∧
            e2 = e1 <| EventRecord.error := Some (host_error_text err) |>)
       else w2 = w ∧ e2 = e1).
Proof.
  unfold reconcile_event. intros ->. intros (w0 & [src existing] & Hq%query_Ok & H)%bind_Ok.
  destruct Hq as [-> Hq]. apply rbind_Ok in Hq as (src' & Hsrc%map_err_Ok & Hq).
  apply rbind_Ok in Hq as (s & Hs%map_err_Ok & [= <- Hex]). subst existing.
  apply bind_Ok in H as (w0 & conflict & Hq%query_Ok & H). destruct Hq as [-> Hconf].
  exists src', s. split_and!; [done..|]. cbn zeta. destruct conflict.
  - left. apply bind_Ok in H as (w1 & [] & (i & Hi & ->)%save_Ok & [= <- <-]). by split_and!.
  - right. split; [done|]. fold (taken_up src' e (SessionState.submissions s !! EventRecord.request e)) in H.
    set (e1 := taken_up src' e _) in *. apply bind_Ok in H as (w2 & e2 & H2 & H).
    apply bind_Ok in H as (w3 & [] & (i & Hi & ->)%save_Ok & [= <- <-]). exists w2, e2. split_and!; [done..|].
    destruct (EventRecord.cancel_requested e1).
    + apply bind_Ok in H2 as (w1 & [] & (i1 & _ & ->)%save_Ok & H2). by exists (w <| intake_db := i1 |>).
    + destruct (bool_decide _).
      * apply bind_Ok in H2 as (w1 & r & Ha & H2). unfold attempt in Ha.
        destruct (admit_event now_ms h accepting now src' e1 w) as [wa [b|err]] eqn:Hadm; injection Ha as <- <-.
        -- left. injection H2 as <- <-. by exists b.
        -- right. injection H2 as <- <-. by exists err.
      * by injection H2 as <- <-.
Qed.

(** Two texts with one digest. *)
Definition collision (d : Digest) : Prop := ∃ bytes other, other ≠ bytes ∧ digest_of bytes = d ∧ digest_of other = d.

(** The text that the input of an event loads as is the one it was made of. *)
Lemma load_pinned `{!SerdeOk (list Value)} e a p :
  pinned e → load_input (EventRecord.input e) a = Ok p →
  collision (EventRecord.input e) ∨ ∃ bytes, to_vec [user_parts [text_part (PreparedInput.text p)]] = Some bytes ∧
                                      digest_of bytes = EventRecord.input e.
Proof.
  intros (objective & env & payload & bytes & _ & _ & Hb & Hd) (other & Hread%map_err_Ok & H)%rbind_Ok.
  destruct (decide (other = bytes)) as [->|Hne].
  - right. exists bytes. split; [|done]. rewrite (from_slice_to_vec _ _ Hb) in H. cbn in H. by injection H as <-.
  - left. exists bytes, other. apply read_verified in Hread as [Hother _]. done.
Qed.

Lemma admit_Ok `{!SerdeOk (list Value)} accepting now src e w w' b :
  sessions_ok (session_db w) → pinned e → admit_event now_ms h accepting now src e w = (w', Ok b) →
  collision (EventRecord.input e) ∨
  submitted w' e b ∧ Submission.initial_input b = EventRecord.input e ∧ event_intent src = Some (Submission.intent b).
Proof.
  intros Hok Hpin. unfold admit_event, transaction.
  destruct (validate_event_source h w src) as [[]|]; cbn [rbind]; [|done].
  destruct (load_input (EventRecord.input e) (files w)) as [p|] eqn:Hp; cbn [map_err rbind]; [|done].
  destruct (host_submit now_ms h accepting (session_db w) (files w) now (EventRecord.session e) (EventRecord.request e)
    [text_part (PreparedInput.text p)] (SubmitIntent.NewTask (SourceConfig.limits (SourceRecord.config src))
    (SourceConfig.policy (SourceRecord.config src)))) as [[[db a] b1]|] eqn:Hs; cbn [rbind]; [|done].
  intros [= <- <-].
  apply host_submit_Ok in Hs as (_ & _ & s & input & a1 & work & Hl & Hb & Hprep & Hwork & Hin & Hint); [|done].
  destruct (load_pinned _ _ _ Hpin Hp) as [|(message & Hmessage & Hd)]; [by left|]. right.
  split; [by exists s|]. split.
  - rewrite Hin. cbn [default_content] in Hprep. apply prepare_text in Hprep as (message' & ? & ->). congruence.
  - cbn [work_intent] in Hwork. apply rbind_Ok in Hwork as ([a3 d] & Hput & [= _ <-]). unfold put_policy in Hput.
    apply rbind_Ok in Hput as ([] & _ & ([] & _ & (bytes & Hbytes%ok_or_Ok & Hput%map_err_Ok)%rbind_Ok)%rbind_Ok).
    apply put_spec in Hput as [-> _]. unfold event_intent, of_value. rewrite Hbytes. cbn. by rewrite Hint.
Qed.
End intake_host.

(** ** Properties *)

Section intake_host_properties.
Context {SHA : Sha256} {SER : StoreSerde} {SES : SessionSerde} {INT : IntakeSerde} {INTOK : IntakeSerdeOk}.
Context {HOST : Host} {TURN : TurnSerde} {OK : SessionSerdeOk} {SET : SerdeErrorText} {DET : StoreErrorText}.
Context {HET : HostErrorText} {REV : ReviewSerde} {B64 : Base64} `{!Serde AuthorityIdentity, !SerdeOk (list Value)}.
Variable now_ms : N → N.
Variable h : HostConfig.t.
Implicit Types (w : Books) (e : EventRecord.t).

(** What the host does with events, to its end or to the error that stopped it, and what
    else it does with sessions and artifacts meanwhile. *)
Inductive intake_operation w w' : Prop :=
| op_register config r : register_event_source_at h config w = (w', r) → intake_operation w w'
| op_deliver accepting now operation source key payload r :
    deliver_event now_ms h accepting now operation source key payload w = (w', r) → intake_operation w w'
| op_cancel_event accepting now operation source key r :
    cancel_event now_ms h accepting now operation source key w = (w', r) → intake_operation w w'
| op_disable accepting now fresh source r :
    disable_source now_ms h accepting now fresh source w = (w', r) → intake_operation w w'
| op_pass accepting now fresh r : intake_pass now_ms h accepting now fresh w = (w', r) → intake_operation w w'
| op_elsewhere :
    session_operation now_ms (session_db w) (session_db w') → intake_db w' = intake_db w →
    reads_kept (files w) (files w') → intake_operation w w'.

Lemma triple_grown {A} P (m : Transactions A) Q w w' r :
  Transactions.triple good_books (grown_books now_ms) P m Q → good_books w → P w → m w = (w', r) → grown_books now_ms w w'.
Proof. intros Hm Hg HP Hmw. by destruct (Hm _ _ _ Hg HP Hmw). Qed.

Lemma intake_operation_grown w w' : good_books w → intake_operation w w' → grown_books now_ms w w'.
Proof.
  intros Hg [config r H|? ? ? ? ? ? r H|? ? ? ? ? r H|? ? ? ? r H|? ? ? r H|Hs Hi Hf].
  - exact (triple_grown _ _ _ _ _ _ (register_triple now_ms h config) Hg I H).
  - exact (triple_grown _ _ _ _ _ _ (deliver_triple now_ms h _ _ _ _ _ _) Hg I H).
  - exact (triple_grown _ _ _ _ _ _ (cancel_triple now_ms h _ _ _ _ _) Hg I H).
  - exact (triple_grown _ _ _ _ _ _ (disable_triple now_ms h _ _ _ _) Hg I H).
  - exact (triple_grown _ _ _ _ _ _ (pass_triple now_ms h _ _ _) Hg I H).
  - split; [by apply rtc_once|by rewrite Hi|done].
Qed.

(** C12: The host of event intake is the composition of its store and of the session journal: whatever sequence of its
    operations runs, each to its end or only to the error that stops it half way, interleaved with any operations on
    sessions, is a sequence of journal operations, of intake steps and of artifacts added; so the queues of the
    sessions and the tables of intake keep their invariants throughout. *)
Theorem intake_host_refines w w' :
  good_books w → rtc intake_operation w w' → good_books w' ∧ grown_books now_ms w w'.
Proof.
  intros Hg Hr. revert Hg. induction Hr as [w|w w1 w' Hop _ IH]; intros Hg; [done|].
  pose proof (intake_operation_grown _ _ Hg Hop) as Hgr.
  destruct (IH (grown_books_good _ _ _ Hg Hgr)) as [Hg' Hgr']. split; [done|by etrans].
Qed.

Lemma settle_finished_fields e :
  EventRecord.cancel_requested (settle_finished e) = EventRecord.cancel_requested e ∧
  EventRecord.submission (settle_finished e) = EventRecord.submission e ∧
  EventRecord.error (settle_finished e) = EventRecord.error e.
Proof. unfold settle_finished. by destruct (is_finished _). Qed.

Lemma conflicts_false src e (b : Submission.t) :
  conflicts src e (Some b) = Ok false → Submission.initial_input b = EventRecord.input e ∧
  event_intent src = Some (Submission.intent b).
Proof.
  intros (intent & Hi%ok_or_Ok & [= Hc])%rbind_Ok.
  apply orb_false_iff in Hc as [H1%bool_decide_eq_false%dec_stable H2%bool_decide_eq_false%dec_stable]. by subst.
Qed.

Lemma conflicts_none src e (b : Submission.t) :
  Submission.initial_input b = EventRecord.input e → event_intent src = Some (Submission.intent b) →
  conflicts src e (Some b) = Ok false.
Proof. intros Hi Hint. cbn. rewrite Hint. cbn. by rewrite Hi, !bool_decide_false by naive_solver. Qed.

(** The first time an event is given a submission. *)
Lemma reconcile_submission accepting now operation e w w1 e1 b :
  good_books w → pinned e → EventRecord.settled e = false →
  reconcile_event now_ms h accepting now operation e w = (w1, Ok e1) →
  EventRecord.cancel_requested e1 = false → EventRecord.error e1 = None → EventRecord.submission e1 = Some b →
  collision (EventRecord.input e) ∨
  submitted w1 e b ∧ Submission.initial_input b = EventRecord.input e ∧
  ∃ src, event_source (intake_db w) (EventRecord.source e) = Ok src ∧ event_intent src = Some (Submission.intent b).
Proof.
  intros [Hq _] Hpin Hset Hrec Hcan Herr Hsub.
  destruct (reconcile_Ok now_ms h _ _ _ _ _ _ _ Hset Hrec) as (src & s & Hsrc & Hs & Hcase). cbn zeta in Hcase.
  destruct Hcase as [(_ & -> & _)|(Hconf & w2 & e2 & -> & Hsess & _ & Hcase)]; [discriminate Herr|].
  destruct (settle_finished_fields e2) as (Fc & Fs & Fe). rewrite Fc in Hcan. rewrite Fs in Hsub. rewrite Fe in Herr.
  destruct (EventRecord.cancel_requested (taken_up src e _)) eqn:Hc1.
  { destruct Hcase as (w0 & _ & Hcase). exfalso. unfold cancel_event_submission in Hcase.
    destruct (EventRecord.submission (taken_up src e _)); [|by injection Hcase as <- <-; cbn in *; congruence].
    unfold transaction in Hcase. destruct (rbind _ _) as [[? ?]|] eqn:Hb in Hcase; [|done]. injection Hcase as <- <-.
    apply rbind_Ok in Hb as ([? ?] & _ & [= <- <-]). cbn in *. congruence. }
  revert Hcase. case_bool_decide as Hnone.
  - intros [(b0 & Hadm & ->)|(err & Hadm & ->)]; [|discriminate Herr]. cbn in Hsub. injection Hsub as ->.
    apply (admit_Ok now_ms h) in Hadm as [|((s' & Hl & Hb) & Hin & Hint)]; [by left| |apply Hq|done]. right. split_and!.
    + exists s'. by rewrite Hsess.
    + done.
    + by exists src.
  - intros [-> ->]. cbn in Hsub. rewrite Hsub in Hconf. apply conflicts_false in Hconf as [Hi Hint]. right. split_and!.
    + exists s. by rewrite Hsess.
    + done.
    + by exists src.
Qed.

(** An event whose submission the session has is not submitted again. *)
Lemma reconcile_again accepting now operation e w w1 e1 b :
  EventRecord.settled e = false → submitted w e b → Submission.initial_input b = EventRecord.input e →
  (∀ src, event_source (intake_db w) (EventRecord.source e) = Ok src → event_intent src = Some (Submission.intent b)) →
  reconcile_event now_ms h accepting now operation e w = (w1, Ok e1) → EventRecord.cancel_requested e1 = false →
  session_db w1 = session_db w ∧ files w1 = files w ∧ EventRecord.submission e1 = Some b.
Proof.
  intros Hset (s0 & Hs0 & Hb) Hi Hint Hrec Hcan.
  destruct (reconcile_Ok now_ms h _ _ _ _ _ _ _ Hset Hrec) as (src & s & Hsrc & Hs & Hcase). cbn zeta in Hcase.
  assert (s0 = s) as -> by congruence. rewrite Hb in Hcase.
  destruct Hcase as [(Hconf & _)|(Hconf & w2 & e2 & -> & Hsess & Hfiles & Hcase)].
  { rewrite (conflicts_none src e b Hi (Hint _ Hsrc)) in Hconf. discriminate. }
  destruct (settle_finished_fields e2) as (Fc & Fs & Fe). rewrite Fc in Hcan. rewrite Fs.
  destruct (EventRecord.cancel_requested (taken_up src e _)) eqn:Hc1.
  { destruct Hcase as (w0 & _ & Hcase). exfalso. unfold cancel_event_submission in Hcase. cbn [EventRecord.submission taken_up] in Hcase.
    unfold put, transaction in Hcase. cbn in Hcase. destruct (rbind _ _) as [[? ?]|] eqn:Hb2 in Hcase; [|done].
    injection Hcase as <- <-. apply rbind_Ok in Hb2 as ([? ?] & _ & [= <- <-]). cbn in *. congruence. }
  rewrite bool_decide_false in Hcase by done. destruct Hcase as [-> ->]. by split_and!.
Qed.

(** C11: An event becomes one submission, unless two texts have the digest of its input: when reconciling it gives it
    a submission, that is the session's, under the event's request, with the input pinned when the event was received
    and the intent of its source; and however the books go on (a crash, a restart, other operations), reconciling it
    again, unless it is to be cancelled, submits nothing and changes no session, but reports that submission as it is
    then. *)
Theorem event_submitted_once accepting now operation e w w1 e1 b :
  good_books w → current w e → EventRecord.settled e = false →
  reconcile_event now_ms h accepting now operation e w = (w1, Ok e1) →
  EventRecord.cancel_requested e1 = false → EventRecord.error e1 = None → EventRecord.submission e1 = Some b →
  collision (EventRecord.input e) ∨
  submitted w1 e b ∧ Submission.initial_input b = EventRecord.input e ∧
  (∃ src, event_source (intake_db w) (EventRecord.source e) = Ok src ∧ event_intent src = Some (Submission.intent b)) ∧
  ∀ accepting2 now2 operation2 w2 e2 w3 e3,
    grown_books now_ms w1 w2 → current w2 e2 → same_event e e2 →
    reconcile_event now_ms h accepting2 now2 operation2 e2 w2 = (w3, Ok e3) → EventRecord.cancel_requested e3 = false →
    session_db w3 = session_db w2 ∧ files w3 = files w2 ∧
    (EventRecord.settled e2 = false → ∃ b2, EventRecord.submission e3 = Some b2 ∧ kept b b2 ∧ submitted w2 e b2).
Proof.
  intros Hg Hcur Hset Hrec Hcan Herr Hsub. pose proof (event_pinned _ _ _ _ (proj2 Hg) Hcur) as Hpin.
  destruct (reconcile_submission _ _ _ _ _ _ _ _ Hg Hpin Hset Hrec Hcan Herr Hsub)
    as [|(Hsubm & Hin & src & Hsrc & Hint)]; [by left|]. right.
  split_and!; [done..|by exists src|]. intros accepting2 now2 operation2 w2 e2 w3 e3 Hgr _ Hsame Hrec2 Hcan2.
  destruct (EventRecord.settled e2) eqn:Hset2.
  { revert Hrec2. unfold reconcile_event. rewrite Hset2. intros [= <- <-]. by split_and!. }
  pose proof (triple_grown _ _ _ _ _ _ (reconcile_triple now_ms h accepting now operation e (λ _, True) (frames_true e))
    Hg (conj Hcur I) Hrec) as Hgr1.
  pose proof (grown_books_good _ _ _ Hg Hgr1) as [Hq1 Hi1].
  destruct Hsubm as (s1 & Hs1 & Hb1). destruct (load_session_Ok _ _ _ Hs1) as [h1 Hl1].
  destruct (operations_queues now_ms _ _ Hq1 (gb_sessions _ _ _ Hgr)) as [_ Hk].
  destruct (Hk _ _ _ Hl1) as (s2 & h2 & Hl2 & Hk2). destruct (Hk2 _ _ Hb1) as (b2 & Hb2 & Hkept).
  assert (Hsubm2 : submitted w2 e b2) by (exists s2; split; [by unfold load_session; rewrite Hl2|done]).
  destruct Hsame as (Es & _ & _ & Ei & Ese & Er & _ & _).
  assert (Hsubm2' : submitted w2 e2 b2) by (unfold submitted; rewrite Ese, Er; exact Hsubm2).
  destruct Hg as [_ Hi].
  destruct (steps_source _ _ _ _ Hi (gb_intake _ _ _ Hgr1) Hsrc) as (src1 & Hsrc1 & Hc1 & _).
  destruct (steps_source _ _ _ _ Hi1 (gb_intake _ _ _ Hgr) Hsrc1) as (src2 & Hsrc2 & Hc2 & _).
  destruct (reconcile_again accepting2 now2 operation2 e2 w2 w3 e3 b2 Hset2 Hsubm2') as (? & ? & ?); [| |exact Hrec2|done|].
  - destruct Hkept. congruence.
  - intros src2' Hsrc2'. rewrite Es in Hsrc2'. assert (src2' = src2) as -> by congruence. unfold event_intent in *.
    rewrite Hc2, Hc1, Hint. destruct Hkept. congruence.
  - split_and!; [done..|]. intros _. by exists b2.
Qed.
End intake_host_properties.
