(* ===== verification/IntakeWitnesses.v ===== *)
(** * Two sources at work

    A concrete run at which the theorems of [IntakeGuarantees] and [IntakeHost] apply: a
    webhook is delivered an event, a clock ticks twice, and the host submits the event.
    The codecs of records, events and states are tables of those of the run. *)

From S2P Require Import Prelude Digest Codec Contract State Artifacts Workspace Input ArtifactGraph Journal.
From S2P Require Import Codecs Replay Store JsonValue Cost Conversation Admission Session Context.
From S2P Require Import SessionStore SessionCommands Queue Verification ContractAdmission.
From S2P Require Import Submissions Shell Auxiliary SessionSteps SessionGuarantees SessionWitnesses QueueGuarantees QueueWitnesses.
From S2P Require Import Media HostQueue EventIntake IntakeGuarantees IntakeHost.

#[local] Existing Instance checksum_sha256.
#[local] Existing Instance demo_config_serde.
#[local] Existing Instance SessionCommand_eq_dec.
#[local] Existing Instance SessionEvent_eq_dec.
#[local] Existing Instance SessionState_eq_dec.
#[local] Existing Instance queue_store_serde.
#[local] Existing Instance media_base64.
#[local] Existing Instance media_reviews.

#[local] Instance RepositoryProfile_eq_dec : EqDecision RepositoryProfile.t.
Proof. solve_decision. Defined.
#[local] Instance RequestPolicy_eq_dec : EqDecision RequestPolicy.t.
Proof. solve_decision. Defined.
#[local] Instance TriggerKind_eq_dec : EqDecision TriggerKind.t.
Proof. solve_decision. Defined.
#[local] Instance SourceConfig_eq_dec : EqDecision SourceConfig.t.
Proof. solve_decision. Defined.
#[local] Instance SourceRecord_eq_dec : EqDecision SourceRecord.t.
Proof. solve_decision. Defined.
#[local] Instance EventRecord_eq_dec : EqDecision EventRecord.t.
Proof. solve_decision. Defined.

(** A name-based identifier: the namespace and a sum over the name. *)
Fixpoint name_sum (s : string) (acc : N) : N :=
  match s with
  | EmptyString => acc
  | String c s => name_sum s ((acc * 31 + N_of_ascii c) mod 1000000007)%N
  end.
#[local] Instance intake_demo_host : Host := {|
  new_v5 := λ id name, (id * 10000000000 + name_sum name 7)%N;
  uuid_text := u128_to_string;
  transition_text := λ _, None;
  is_dir := λ _, true;
  raw_event := λ _, None;
  raw_command := λ _, None;
|}.

(** ** The records *)

Definition hook_config : SourceConfig.t :=
  SourceConfig.mk 5 1 "Summarize the note." ContractAdmission.demo_policy Limits.default TriggerKind.Webhook.
Definition clock_config : SourceConfig.t :=
  SourceConfig.mk 6 1 "Check the build." ContractAdmission.demo_policy Limits.default (TriggerKind.Interval 1000 1000).
Definition authority_a : Digest := Eval vm_compute in digest_of "a".
Definition hook_source (disabled : bool) : SourceRecord.t := SourceRecord.mk hook_config authority_a disabled None None None.
Definition clock_source (next : N) (last_key : option string) : SourceRecord.t :=
  SourceRecord.mk clock_config authority_a false (Some next) last_key None.

(** The input an event of a source is given. *)
Definition pinned_text (config : SourceConfig.t) (key payload : string) : string :=
  event_text (SourceConfig.objective config)
    (default EmptyString (to_vec (envelope (uuid_text (SourceConfig.id config)) key))) payload.
Definition pinned_bytes (config : SourceConfig.t) (key payload : string) : string :=
  default EmptyString (to_vec [user_parts [text_part (pinned_text config key payload)]]).
Definition demo_event (config : SourceConfig.t) (key payload : string) (now : N) : EventRecord.t :=
  EventRecord.mk (SourceConfig.id config) key (digest_of payload) (digest_of (pinned_bytes config key payload)) 1
    (new_v5 (SourceConfig.id config) (event_name key)) now false None false None.

Definition note_event : EventRecord.t := Eval vm_compute in demo_event hook_config "k" "data" 20.
Definition tick_text (next latest count : N) : string := default EmptyString (to_vec (tick_payload next latest count)).
Definition tick_event (next latest count now : N) : EventRecord.t :=
  demo_event clock_config (tick_key latest) (tick_text next latest count) now.
Definition tick_1 : EventRecord.t := Eval vm_compute in tick_event 1000 3000 3 3500.
Definition tick_2 : EventRecord.t := Eval vm_compute in tick_event 4000 9000 6 9999.
Definition tick_1_settled : EventRecord.t := tick_1 <| EventRecord.settled := true |>.

Definition note_request : Uuid := Eval vm_compute in EventRecord.request note_event.
Definition note_submission : Submission.t :=
  Submission.mk None note_request (EventRecord.input note_event) (EventRecord.input note_event) []
    None (WorkIntent.NewTask Limits.default (digest_of "policy")) SubmissionStatus.Queued 2 20.
Definition note_submitted : EventRecord.t := note_event <| EventRecord.submission := Some note_submission |>.

Definition intake_sources : list (string * SourceRecord.t) := [
  ("hook", hook_source false); ("hook off", hook_source true); ("clock", clock_source 1000 None);
  ("clock 1", clock_source 4000 (Some (tick_key 3000))); ("clock 2", clock_source 10000 (Some (tick_key 9000)))].
Definition intake_events : list (string * EventRecord.t) := [
  ("note", note_event); ("note submitted", note_submitted); ("tick 1", tick_1); ("tick 1 settled", tick_1_settled);
  ("tick 2", tick_2)].

#[local] Instance intake_demo_serde : IntakeSerde := {|
  serde_source_config := {| to_vec c := Some ("config " +:+ u128_to_string (SourceConfig.id c)); from_slice _ := None |};
  serde_source_record := {| to_vec := table_to_vec intake_sources; from_slice := table_from_slice intake_sources |};
  serde_event_record := {| to_vec := table_to_vec intake_events; from_slice := table_from_slice intake_events |};
|}.
#[local] Instance intake_demo_ok : IntakeSerdeOk.
Proof.
  split.
  - split. intros r bytes Hb. apply table_ok in Hb as [_ Hf]; [exact Hf|by apply (bool_decide_unpack _); vm_compute].
  - split. intros e bytes Hb. apply table_ok in Hb as [_ Hf]; [exact Hf|by apply (bool_decide_unpack _); vm_compute].
Qed.

(** ** The session *)

Definition submit_operation : Uuid := Eval vm_compute in new_v5 note_request "submitted".
Definition intake_commands : list (Uuid * SessionCommand.t) := [(submit_operation, SessionCommand.Submitted note_submission)].
Definition intake_session_events : list (string * SessionEvent.t) :=
  ("created", SessionEvent.Created demo_creation)
  :: ((λ '(operation, command), ("submitted", SessionEvent.Command operation command 5)) <$> intake_commands).
#[local] Instance intake_command_serde : Serde SessionCommand.t :=
  {| to_vec command := Some (match command with SessionCommand.Submitted _ => "submitted" | _ => "other" end);
     from_slice _ := None |}.
Fixpoint intake_trace (s : SessionState.t) (commands : list (Uuid * SessionCommand.t)) : list SessionState.t :=
  s :: match commands with
       | [] => []
       | (operation, command) :: commands =>
           match Apply.apply hook_id uuid_text s operation command with
           | Ok s => intake_trace s commands
           | Err _ => []
           end
       end.
Definition intake_states : list (string * SessionState.t) :=
  Eval vm_compute in zip ["s1"; "s2"] (intake_trace (create 1 demo_creation) intake_commands).

#[local] Instance intake_session_serde : SessionSerde := {|
  serde_sevent := {| to_vec := table_to_vec intake_session_events; from_slice := table_from_slice intake_session_events |};
  serde_sstate := {| to_vec := table_to_vec intake_states; from_slice := table_from_slice intake_states |};
  serde_command := intake_command_serde;
  serde_sconfig := demo_config_serde;
  serde_revision := codec_serde;
  serde_value := codec_serde;
  serde_request := codec_serde;
  serde_settings := codec_serde;
|}.
#[local] Instance intake_session_ok : SessionSerdeOk.
Proof.
  split.
  - intros event bytes Hb. apply table_ok in Hb as [Hin Hf]; [|by apply (bool_decide_unpack _); vm_compute].
    etransitivity; [exact Hf|]. f_equal. clear Hf. unfold intake_session_events, intake_commands in Hin. cbn [fmap list_fmap] in Hin.
    repeat (apply elem_of_cons in Hin as [[= -> ->]|Hin]; [done|]). by apply not_elem_of_nil in Hin.
  - intros s bytes _ Hb. apply table_ok in Hb as [_ Hf]; [done|by apply (bool_decide_unpack _); vm_compute].
  - intros []; try done. by destruct view.
  - intros operation revision view projection at_ms bytes Hb.
    apply table_ok in Hb as [Hin _]; [|by apply (bool_decide_unpack _); vm_compute]. exfalso.
    unfold intake_session_events, intake_commands in Hin. cbn [fmap list_fmap] in Hin.
    repeat (apply elem_of_cons in Hin as [[=]|Hin]). by apply not_elem_of_nil in Hin.
Qed.
#[local] Instance intake_turn_serde : TurnSerde := {|
  serde_policy := {| to_vec _ := Some "policy"; from_slice _ := Some ContractAdmission.demo_policy |};
  serde_shell_report := {| to_vec _ := None; from_slice _ := None |};
  serde_auxiliary_record := {| to_vec _ := None; from_slice _ := None |};
  serde_auxiliary_report := {| to_vec _ := None; from_slice _ := None |};
|}.
#[local] Instance intake_authority_serde : Serde AuthorityIdentity := {| to_vec _ := Some "a"; from_slice _ := None |}.
#[local] Instance intake_error_text : SerdeErrorText := "error".
#[local] Instance intake_store_text : StoreErrorText := λ _, "error".
#[local] Instance intake_host_text : HostErrorText := λ _, "error".

(** The identities of the host that the profile of the session names. *)
Definition intake_host : HostConfig.t :=
  HostConfig.mk false (TargetProfile.protocol Admission.demo_target) (TargetProfile.environment Admission.demo_target)
    (TargetProfile.task_profile Admission.demo_target) None.

(** ** The run of the tables *)

Definition intake_files : ArtifactStore.t := ArtifactStore.mk ∅ 100000.
Definition tables_of {B E} (r : result (IntakeDb * B) E) : IntakeDb := match r with Ok (i, _) => i | Err _ => empty_intake end.
Definition received_of {B E} (r : result (IntakeDb * ArtifactStore.t * B) E) : IntakeDb * ArtifactStore.t :=
  match r with Ok (i, a, _) => (i, a) | Err _ => (empty_intake, intake_files) end.

Definition intake_1 : IntakeDb := Eval vm_compute in tables_of (register_event_source empty_intake hook_config authority_a).
Definition intake_2 : IntakeDb := Eval vm_compute in tables_of (register_event_source intake_1 clock_config authority_a).
Definition intake_3 : IntakeDb * ArtifactStore.t :=
  Eval vm_compute in received_of (receive_event intake_2 intake_files 5 "k" "data" 20).
Definition intake_4 : IntakeDb * ArtifactStore.t :=
  Eval vm_compute in received_of (tick_event_source intake_3.1 intake_3.2 6 3500).
Definition intake_5 : IntakeDb := Eval vm_compute in tables_of (disable_event_source intake_4.1 5).
Definition intake_6 : IntakeDb :=
  Eval vm_compute in match save_event intake_5 tick_1_settled with Ok i => i | Err _ => empty_intake end.
Definition intake_7 : IntakeDb * ArtifactStore.t :=
  Eval vm_compute in received_of (tick_event_source intake_6 intake_4.2 6 9999).

Lemma hook_registered : register_event_source empty_intake hook_config authority_a = Ok (intake_1, hook_source false).
Proof. vm_compute. reflexivity. Qed.
Lemma clock_registered : register_event_source intake_1 clock_config authority_a = Ok (intake_2, clock_source 1000 None).
Proof. vm_compute. reflexivity. Qed.
Lemma note_received :
  receive_event intake_2 intake_files 5 "k" "data" 20 = Ok (intake_3.1, intake_3.2, note_event).
Proof. vm_compute. reflexivity. Qed.
Lemma clock_ticked : tick_event_source intake_3.1 intake_3.2 6 3500 = Ok (intake_4.1, intake_4.2, Some tick_1).
Proof. vm_compute. reflexivity. Qed.
Lemma hook_disabled : disable_event_source intake_4.1 5 = Ok (intake_5, hook_source true).
Proof. vm_compute. reflexivity. Qed.
Lemma tick_settled : save_event intake_5 tick_1_settled = Ok intake_6.
Proof. vm_compute. reflexivity. Qed.
Lemma clock_ticked_again : tick_event_source intake_6 intake_4.2 6 9999 = Ok (intake_7.1, intake_7.2, Some tick_2).
Proof. vm_compute. reflexivity. Qed.

Lemma intake_taken_2 : taken intake_2.
Proof.
  eapply rtc_l; [eapply step_register, hook_registered|]. apply rtc_once. eapply step_register, clock_registered.
Qed.
Lemma intake_taken_3 : taken intake_3.1.
Proof. eapply rtc_r; [exact intake_taken_2|eapply step_receive, note_received]. Qed.
Lemma intake_steps_4_6 : rtc intake_step intake_4.1 intake_6.
Proof.
  eapply rtc_l; [eapply step_disable, hook_disabled|]. apply rtc_once.
  apply (step_save _ _ tick_1 tick_1_settled); [by vm_compute|by split_and!|exact tick_settled].
Qed.
Lemma intake_steps_3_7 : rtc intake_step intake_3.1 intake_7.1.
Proof.
  eapply rtc_l; [eapply step_tick, clock_ticked|]. eapply rtc_r; [exact intake_steps_4_6|].
  eapply step_tick, clock_ticked_again.
Qed.

(** ** Witnesses of the tables *)

Lemma intake_consistent_witness : intake_ok intake_7.1 ∧ length (pending_rows intake_7.1) = 2.
Proof.
  split; [|reflexivity]. apply intake_consistent. unfold taken. etransitivity; [exact intake_taken_3|exact intake_steps_3_7].
Defined.

Lemma delivery_answered_once_witness :
  ∃ e2, same_event note_event e2 ∧
    receive_event intake_7.1 intake_files 5 "k" "data" 99 = Ok (intake_7.1, intake_files, e2) ∧
    receive_event intake_7.1 intake_files 5 "k" "other" 99
      = Err (StoreError.Invalid "event key reused with a different payload").
Proof.
  destruct (delivery_answered_once intake_2 intake_files 5 "k" "data" 20 intake_3.1 intake_3.2 note_event intake_7.1
    intake_taken_2 note_received intake_steps_3_7) as (e2 & Hsame & _ & Hagain).
  exists e2. split; [exact Hsame|]. split.
  - rewrite (Hagain intake_files "data" 99%N eq_refl). reflexivity.
  - rewrite (Hagain intake_files "other" 99%N eq_refl). reflexivity.
Defined.

Lemma clock_reports_latest_once_witness :
  ∃ r first interval t t2, event_source intake_3.1 6 = Ok r ∧
    SourceConfig.trigger (SourceRecord.config r) = TriggerKind.Interval first interval ∧
    EventRecord.key tick_1 = tick_key t ∧ EventRecord.key tick_2 = tick_key t2 ∧ (t < t2)%N ∧
    (t ≤ 3500 < t + interval)%N ∧ (t2 ≤ 9999 < t2 + interval)%N.
Proof.
  destruct (clock_reports_latest_once intake_3.1 intake_3.2 6 3500 intake_4.1 intake_4.2 tick_1 intake_6 intake_4.2 9999
    intake_7.1 intake_7.2 tick_2 intake_taken_3 clock_ticked intake_steps_4_6 clock_ticked_again)
    as (r & first & interval & t & t2 & H1 & H2 & H3 & H4 & _ & _ & H5 & H6 & H7 & _).
  exists r, first, interval, t, t2. exact (conj H1 (conj H2 (conj H3 (conj H4 (conj H7 (conj H5 H6)))))).
Defined.

(** ** The host *)

Definition intake_sessions : SessionDb := Eval vm_compute in
  fst_of (create_session_seeded empty_sdb intake_files 100 1 demo_config (demo_profile "a") None None false).
Lemma intake_session_created :
  create_session_seeded empty_sdb intake_files 100 1 demo_config (demo_profile "a") None None false
    = Ok (intake_sessions, create 1 demo_creation).
Proof. vm_compute. reflexivity. Qed.
Definition books_0 : Books := mk_books intake_sessions empty_intake intake_files.
Definition books_1 : Books :=
  Eval vm_compute in (register_event_source_at intake_host hook_config books_0).1.
Definition books_2 : Books :=
  Eval vm_compute in (deliver_event demo_clock intake_host true 20 77 5 "k" "data" books_1).1.
(** The host stops after the event is recorded: nothing is submitted yet. *)
Definition books_crashed : Books :=
  Eval vm_compute in
  match receive_event (intake_db books_1) intake_files 5 "k" "data" 20 with
  | Ok (i, a, _) => mk_books intake_sessions i a
  | Err _ => books_1
  end.
Definition books_recovered : Books :=
  Eval vm_compute in (reconcile_event demo_clock intake_host true 20 77 note_event books_crashed).1.

Lemma hook_registered_at : register_event_source_at intake_host hook_config books_0 = (books_1, Ok (hook_source false)).
Proof. vm_compute. reflexivity. Qed.
Lemma note_delivered :
  deliver_event demo_clock intake_host true 20 77 5 "k" "data" books_1 = (books_2, Ok note_submitted).
Proof. vm_compute. reflexivity. Qed.
Lemma note_recovered :
  reconcile_event demo_clock intake_host true 20 77 note_event books_crashed = (books_recovered, Ok note_submitted).
Proof. vm_compute. reflexivity. Qed.
Lemma note_recovered_again :
  reconcile_event demo_clock intake_host true 30 78 note_submitted books_recovered = (books_recovered, Ok note_submitted).
Proof. vm_compute. reflexivity. Qed.

Lemma intake_sessions_ok : queues_ok intake_sessions.
Proof. apply (operated_queues demo_clock). apply rtc_once. eapply op_create, intake_session_created. Qed.
Lemma books_0_good : good_books books_0.
Proof. split; [exact intake_sessions_ok|exact empty_intake_ok]. Qed.
Lemma note_received_alone :
  receive_event (intake_db books_1) intake_files 5 "k" "data" 20
    = Ok (intake_db books_crashed, files books_crashed, note_event).
Proof. vm_compute. reflexivity. Qed.
Lemma hook_registered_alone :
  register_event_source empty_intake hook_config authority_a = Ok (intake_db books_1, hook_source false).
Proof. vm_compute. reflexivity. Qed.
Lemma books_crashed_good : good_books books_crashed.
Proof.
  split; [exact intake_sessions_ok|]. apply taken_ok.
  eapply rtc_l; [eapply step_register, hook_registered_alone|]. apply rtc_once. eapply step_receive, note_received_alone.
Qed.

Lemma intake_host_refines_witness :
  good_books books_2 ∧ grown_books demo_clock books_0 books_2 ∧ submitted books_2 note_event note_submission.
Proof.
  destruct (intake_host_refines demo_clock intake_host books_0 books_2 books_0_good) as [Hgood Hgrown].
  - eapply rtc_l; [eapply op_register, hook_registered_at|]. apply rtc_once. eapply op_deliver, note_delivered.
  - split; [exact Hgood|]. split; [exact Hgrown|]. eexists. split; [vm_compute; reflexivity|vm_compute; reflexivity].
Defined.

Lemma event_submitted_once_witness :
  submitted books_recovered note_event note_submission ∧
  Submission.initial_input note_submission = EventRecord.input note_event ∧
  session_db books_recovered ≠ session_db books_crashed ∧
  ∃ b2, EventRecord.submission note_submitted = Some b2 ∧ kept note_submission b2 ∧ submitted books_recovered note_event b2.
Proof.
  destruct (event_submitted_once demo_clock intake_host true 20 77 note_event books_crashed books_recovered note_submitted
    note_submission) as [(bytes & other & Hne & Hb & Ho)|(Hsub & Hin & _ & Hagain)].
  - exact books_crashed_good.
  - vm_compute. reflexivity.
  - reflexivity.
  - exact note_recovered.
  - reflexivity.
  - reflexivity.
  - reflexivity.
  - split; [eexists; split; vm_compute; reflexivity|]. split; [reflexivity|]. split.
    + intros Heq. apply (f_equal (λ db, size (session_events db !!! 1%N))) in Heq. vm_compute in Heq. discriminate Heq.
    + exists note_submission. split; [reflexivity|]. split; [apply kept_refl|]. eexists. split; vm_compute; reflexivity.
  - split; [exact Hsub|]. split; [exact Hin|]. split.
    + intros Heq. apply (f_equal (λ db, size (session_events db !!! 1%N))) in Heq. vm_compute in Heq. discriminate Heq.
    + destruct (Hagain true 30%N 78%N books_recovered note_submitted books_recovered note_submitted)
        as (_ & _ & Hb); [reflexivity|vm_compute; reflexivity|by split_and!|exact note_recovered_again|reflexivity|].
      apply Hb. reflexivity.
Defined.
