(* ===== verification/MemoryRecords.v ===== *)
(** * Memories (crates/memory/src/model.rs, evidence.rs, the namespaces of server/protocol.rs)

    A memory is a text with a key, counters of its use and metadata that say where it
    applies and what it cites. This file holds the data, their validation and the
    identities under which two memories are the same. *)

From S2P Require Import Prelude Digest Contract Cost Workspace Session Secrets.

(** serde_json's text of types that always serialize: structs and enums of strings,
    integers and sequences. *)
Class JsonText (A : Type) := {
  to_string : A → string;
  from_str : string → option A;
}.
Class JsonTextOk (A : Type) `{!JsonText A} := {
  from_str_to_string (a : A) : from_str (to_string a) = Some a;
}.

(** The Unicode tables behind [char] and [str], on the bytes of one character and of a
    text. *)
Class Unicode := {
  is_alphanumeric : string → bool;
  is_uppercase : string → bool;
  is_lowercase : string → bool;
  to_lowercase : string → string;
}.

Module MemoryError.
Inductive t : Type :=
| InvalidMetadata
| MetadataUnsupported
| EmptyContent
| ContentTooLarge (maximum_bytes : N)
| QueryTooLarge (maximum_bytes : N)
| RecordCapacity (maximum : N)
| ContentCapacity (maximum_bytes : N)
| StorageCapacity
| SecretRejected
| Duplicate
| NotFound
| Conflict
| RemoteReadOnly
| InvalidPagination
| UnsupportedSchemaVersion (found supported : Z)
| Backend
| Unavailable.
#[global] Instance eq_dec : EqDecision t.
Proof. solve_decision. Defined.
(** [is_retryable] *)
Definition is_retryable (e : t) : bool := match e with Unavailable => true | _ => false end.
End MemoryError.

(** ** Keys *)

Module MemoryKey.
Record t : Type := mk { id : Z; version : N; namespace : option string }.
#[global] Instance eq_dec : EqDecision t.
Proof. solve_decision. Defined.
Definition local (id : Z) (version : N) : t := mk id version None.
Definition remote (namespace : string) (id : Z) (version : N) : t := mk id version (Some namespace).
Definition is_local (k : t) : bool := bool_decide (namespace k = None).
End MemoryKey.

Definition MAX_NAMESPACE_BYTES : N := 128.
Definition is_namespace_byte (c : ascii) : bool := is_ascii_alphanumeric c || is_dash c || is_underscore c || is_dot c.
Definition is_valid_namespace (namespace : string) : bool :=
  negb (str_is_empty namespace) && (str_len namespace <=? MAX_NAMESPACE_BYTES)%N
  && str_forallb is_namespace_byte namespace.

(** ** Scope and evidence *)

Module MemoryScope.
Inductive t : Type := LegacyUnscoped | Global | Repository (identity : string).
#[global] Instance eq_dec : EqDecision t.
Proof. solve_decision. Defined.
End MemoryScope.

Module LineRange.
Record t : Type := mk { start : N; end_ : N }.
#[global] Instance eq_dec : EqDecision t.
Proof. solve_decision. Defined.
End LineRange.

Module SourceEvidence.
Inductive t : Type :=
| File (repository path : string) (range : option LineRange.t) (checked_revision content_digest : string)
| Artifact (digest source : string).
#[global] Instance eq_dec : EqDecision t.
Proof. solve_decision. Defined.
End SourceEvidence.

Module ProposalState.
Inductive t : Type := Pending | Proposed.
#[global] Instance eq_dec : EqDecision t.
Proof. solve_decision. Defined.
End ProposalState.

Module MemoryKind.
Inductive t : Type :=
| Unverified
| Preference
| Procedure
| CodeClaim
| LessonProposal (behavior_test : SourceEvidence.t) (state : ProposalState.t).
#[global] Instance eq_dec : EqDecision t.
Proof. solve_decision. Defined.
End MemoryKind.

Module MemoryOrigin.
Inductive t : Type := LegacyUnknown | User | Model.
#[global] Instance eq_dec : EqDecision t.
Proof. solve_decision. Defined.
End MemoryOrigin.

Module TraceReference.
Record t : Type := mk { session : string; request : string; task : string }.
#[global] Instance eq_dec : EqDecision t.
Proof. solve_decision. Defined.
Definition is_empty (trace : t) : bool :=
  str_is_empty (session trace) || str_is_empty (request trace) || str_is_empty (task trace).
End TraceReference.

Module OwnershipReference.
Record t : Type := mk { ownership_id : string; key : MemoryKey.t }.
#[global] Instance eq_dec : EqDecision t.
Proof. solve_decision. Defined.
End OwnershipReference.

Module MemoryMetadata.
Record t : Type := mk {
  scope : MemoryScope.t;
  kind : MemoryKind.t;
  origin : MemoryOrigin.t;
  evidence : list SourceEvidence.t;
  producing_traces : list TraceReference.t;
  imported_from : list MemoryKey.t;
  ownership_id : option string;
  transferred_from : list OwnershipReference.t;
  pending_run : option TraceReference.t;
  historical_evidence : list SourceEvidence.t;
}.
#[global] Instance eq_dec : EqDecision t.
Proof. solve_decision. Defined.
#[global] Instance eta_t : Eta t := λ m,
  mk (scope m) (kind m) (origin m) (evidence m) (producing_traces m) (imported_from m) (ownership_id m)
    (transferred_from m) (pending_run m) (historical_evidence m).
#[global] Instance set_scope : Setter scope.
Proof. derive_setter scope. Defined.
#[global] Instance set_kind : Setter kind.
Proof. derive_setter kind. Defined.
#[global] Instance set_producing_traces : Setter producing_traces.
Proof. derive_setter producing_traces. Defined.
#[global] Instance set_imported_from : Setter imported_from.
Proof. derive_setter imported_from. Defined.
#[global] Instance set_ownership_id : Setter ownership_id.
Proof. derive_setter ownership_id. Defined.
#[global] Instance set_transferred_from : Setter transferred_from.
Proof. derive_setter transferred_from. Defined.
#[global] Instance set_pending_run : Setter pending_run.
Proof. derive_setter pending_run. Defined.
#[global] Instance set_historical_evidence : Setter historical_evidence.
Proof. derive_setter historical_evidence. Defined.

(** [Default] *)
Definition default : t :=
  mk MemoryScope.LegacyUnscoped MemoryKind.Unverified MemoryOrigin.LegacyUnknown [] [] [] None [] None [].
End MemoryMetadata.

(** What identifies the content of a transferred memory. *)
Definition TransferPayload : Type := option string * option string * string * MemoryMetadata.t.
(** What names a record of an archive that knew no owner. *)
Definition LegacyRecord : Type := MemoryKey.t * string * MemoryMetadata.t * Z.

Class MemoryText := {
  #[global] metadata_text :: JsonText MemoryMetadata.t;
  #[global] scope_text :: JsonText MemoryScope.t;
  #[global] payload_text :: JsonText TransferPayload;
  #[global] legacy_text :: JsonText LegacyRecord;
}.

Definition valid_hex (length : N) (value : string) : bool :=
  (str_len value =? length)%N && str_forallb is_ascii_hexdigit value.
Definition valid_ownership (value : string) : bool := valid_hex 32 value.
Definition valid_digest (value : string) : bool := valid_hex 64 value.

(** A path that is absolute or has a component other than a name. *)
Definition abnormal_path (path : string) : bool :=
  starts_with path "/" || bool_decide (head (split_slash path) = Some ".")
  || existsb (str_eqb "..") (split_slash path).

Definition is_lesson (kind : MemoryKind.t) : bool :=
  match kind with MemoryKind.LessonProposal _ _ => true | _ => false end.
Definition is_pending_lesson (kind : MemoryKind.t) : bool :=
  match kind with MemoryKind.LessonProposal _ ProposalState.Pending => true | _ => false end.
(** The kinds that must cite evidence. *)
Definition claims (kind : MemoryKind.t) : bool :=
  match kind with MemoryKind.CodeClaim => true | _ => is_lesson kind end.
Definition behavior_tests (kind : MemoryKind.t) : list SourceEvidence.t :=
  match kind with MemoryKind.LessonProposal behavior_test _ => [behavior_test] | _ => [] end.

Definition invalid_key (key : MemoryKey.t) : bool := (MemoryKey.id key <=? 0)%Z || (MemoryKey.version key =? 0)%N.

Definition invalid_evidence (evidence : SourceEvidence.t) : bool :=
  match evidence with
  | SourceEvidence.File repository path range checked_revision content_digest =>
      str_is_empty repository || str_is_empty checked_revision || str_is_empty path || abnormal_path path
      || match range with
         | Some r => (LineRange.start r =? 0)%N || (LineRange.end_ r <? LineRange.start r)%N
         | None => false
         end
      || negb (valid_digest content_digest)
  | SourceEvidence.Artifact digest source => str_is_empty source || negb (valid_digest digest)
  end.

Section metadata.
Context {TXT : MemoryText} {UNI : Unicode}.
Implicit Types (m : MemoryMetadata.t).
Import MemoryMetadata.

(** [normalize_identity] *)
Definition normalize_identity (content : string) : string :=
  str_concat " " (to_lowercase <$> split_whitespace content).

(** The bounds of [validate], with room for an owner. *)
Definition exceeds_bounds m : bool :=
  (16 * 1024 <? str_len (to_string m) + (if bool_decide (ownership_id m = None) then 32 else 0))%N
  || (16 <? length (evidence m)) || (32 <? length (producing_traces m)) || (32 <? length (imported_from m))
  || (32 <? length (transferred_from m)) || (64 <? length (historical_evidence m)).

Definition invalid_ownership m : bool :=
  match ownership_id m with Some id => negb (valid_ownership id) | None => false end
  || existsb (λ source, negb (valid_ownership (OwnershipReference.ownership_id source))
                        || invalid_key (OwnershipReference.key source)) (transferred_from m).

Definition invalid_pending_run m : bool :=
  match pending_run m with
  | Some trace =>
      TraceReference.is_empty trace || negb (bool_decide (trace ∈ producing_traces m))
      || negb (is_pending_lesson (kind m))
  | None => false
  end.

Definition invalid_provenance m : bool :=
  match scope m with MemoryScope.Repository identity => str_is_empty identity | _ => false end
  || (claims (kind m) && bool_decide (evidence m = []))
  || (claims (kind m) && bool_decide (origin m = MemoryOrigin.Model) && bool_decide (producing_traces m = []))
  || existsb TraceReference.is_empty (producing_traces m)
  || existsb (λ key, invalid_key key
                     || match MemoryKey.namespace key with
                        | Some namespace => negb (is_valid_namespace namespace)
                        | None => false
                        end) (imported_from m).

Definition citations m : list SourceEvidence.t :=
  evidence m ++ historical_evidence m ++ behavior_tests (kind m).

Definition validate m : result unit MemoryError.t :=
  let? _ := reject_if (exceeds_bounds m || invalid_ownership m || invalid_pending_run m) MemoryError.InvalidMetadata in
  let? _ := reject_if (invalid_provenance m) MemoryError.InvalidMetadata in
  reject_if (existsb invalid_evidence (citations m)) MemoryError.InvalidMetadata.

Definition reject_likely_secret m : result unit MemoryError.t :=
  reject_if (contains_likely_secret (to_string m)) MemoryError.SecretRejected.

Definition transfer_identity m (content : string) (namespace : option string) : string :=
  let origin := match transferred_from m with
                | source :: _ => Some (OwnershipReference.ownership_id source)
                | [] => ownership_id m
                end in
  let namespace := match transferred_from m with
                   | source :: _ => MemoryKey.namespace (OwnershipReference.key source)
                   | [] => namespace
                   end in
  let payload := m <| ownership_id := None |> <| transferred_from := [] |> <| imported_from := [] |> in
  to_string (A := TransferPayload) (origin, namespace, content, payload).

Definition identity m (content : string) : string :=
  if bool_decide (transferred_from m ≠ []) || bool_decide (imported_from m ≠ [])
  then "import:" +:+ transfer_identity m content None
  else if bool_decide (scope m = MemoryScope.LegacyUnscoped) then normalize_identity content
  else to_string (scope m) +:+ ":" +:+ normalize_identity content.

Definition visible_in m (repository : option string) : bool :=
  match scope m with
  | MemoryScope.Repository identity => bool_decide (Some identity = repository)
  | MemoryScope.Global | MemoryScope.LegacyUnscoped => true
  end.
End metadata.

(** ** Records *)

Module MemoryRecord.
Record t : Type := mk {
  metadata : MemoryMetadata.t;
  key : MemoryKey.t;
  content : string;
  created_at_ms : Z;
  updated_at_ms : Z;
  last_scanned_at_ms : option Z;
  scan_count : N;
  last_used_at_ms : option Z;
  use_count : N;
  probation_until_ms : option Z;
}.
#[global] Instance eq_dec : EqDecision t.
Proof. solve_decision. Defined.
End MemoryRecord.

Module MemoryRecordScope.
Inductive t : Type := Local | Remote (namespace : string) | AnyRemote | Portable.
End MemoryRecordScope.

Module MemoryLimits.
Record t : Type := mk {
  content_bytes : N;
  records : N;
  total_content_bytes : N;
  database_bytes : N;
  scan_results : nat;
  query_bytes : N;
  probation_duration_ms : Z;
}.
Definition PRODUCTION : t := mk 1024 512 (256 * 1024) (4 * 1024 * 1024) 5 512 (7 * 24 * 60 * 60 * 1000).
End MemoryLimits.

Definition option_ge (lower : Z) (value : option Z) : bool :=
  match value with Some value => (lower <=? value)%Z | None => true end.

Section records.
Context {TXT : MemoryText} {UNI : Unicode}.
Import MemoryRecord.
Implicit Types (r : MemoryRecord.t).

Definition scope_matches (scope : MemoryRecordScope.t) (namespace : option string) : bool :=
  match scope with
  | MemoryRecordScope.Local => bool_decide (namespace = None)
  | MemoryRecordScope.Remote expected => bool_decide (namespace = Some expected)
  | MemoryRecordScope.AnyRemote => bool_decide (namespace ≠ None)
  | MemoryRecordScope.Portable => true
  end.

Definition times_valid r : bool :=
  (0 <=? created_at_ms r)%Z && (created_at_ms r <=? updated_at_ms r)%Z
  && option_ge (updated_at_ms r) (last_scanned_at_ms r) && option_ge (updated_at_ms r) (last_used_at_ms r)
  && option_ge (updated_at_ms r) (probation_until_ms r).

Definition exceeds_i64 (n : N) : bool := bool_decide (i64_try_from n = None).

(** [MemoryRecord::validate] *)
Definition validate_record r (scope : MemoryRecordScope.t) (limits : MemoryLimits.t) : result unit MemoryError.t :=
  let valid_namespace := match MemoryKey.namespace (key r) with
                         | Some namespace => is_valid_namespace namespace
                         | None => true
                         end in
  let scanned_coherent :=
    Bool.eqb (scan_count r =? 0)%N (bool_decide (last_scanned_at_ms r = None)) in
  let used_coherent := Bool.eqb (use_count r =? 0)%N (bool_decide (last_used_at_ms r = None)) in
  let probation_coherent := bool_decide (probation_until_ms r = None) || (use_count r =? 0)%N in
  reject_if
    ((MemoryKey.id (key r) <=? 0)%Z || (MemoryKey.version (key r) =? 0)%N
     || exceeds_i64 (MemoryKey.version (key r)) || exceeds_i64 (scan_count r) || exceeds_i64 (use_count r)
     || negb valid_namespace || negb (scope_matches scope (MemoryKey.namespace (key r)))
     || trim_is_empty (content r) || (MemoryLimits.content_bytes limits <? str_len (content r))%N
     || negb (times_valid r) || negb scanned_coherent || negb used_coherent || negb probation_coherent
     || match validate (metadata r) with Err _ => true | Ok _ => false end)
    MemoryError.InvalidMetadata.
End records.

(** ** Queries of lessons *)

Module LessonQuery.
Inductive t : Type :=
| Matching (scope : MemoryScope.t) (content_identity : string)
| Pending (trace : TraceReference.t).
End LessonQuery.

(** [LessonQuery::matches] *)
Definition query_matches `{!Unicode} (query : LessonQuery.t) (record : MemoryRecord.t) : bool :=
  let metadata := MemoryRecord.metadata record in
  is_lesson (MemoryMetadata.kind metadata)
  && match query with
     | LessonQuery.Matching scope content_identity =>
         bool_decide (MemoryMetadata.scope metadata = scope)
         && str_eqb (normalize_identity (MemoryRecord.content record)) content_identity
     | LessonQuery.Pending trace =>
         bool_decide (MemoryMetadata.pending_run metadata = Some trace)
         && is_pending_lesson (MemoryMetadata.kind metadata)
     end.
