(* ===== verification/Retrieval.v ===== *)
(** * Retrieval of memories (crates/memory/src/retrieval.rs)

    A query is split into terms, the memories are scored with BM25 and the best are
    returned with a preview. Arithmetic on [f64] is the class [Float64]. *)

From S2P Require Import Prelude Digest Contract Cost Workspace Session SessionStore Secrets MemoryRecords.

(** [f64]: [decimal n e] is the literal n * 10^-e, [f_total_le] is
    [total_cmp] not being [Greater], [f_sum] is [Iterator::sum]. *)
Class Float64 := {
  F : Type;
  decimal : N → N → F;
  of_usize : nat → F;
  f_add : F → F → F;
  f_sub : F → F → F;
  f_mul : F → F → F;
  f_div : F → F → F;
  f_ln : F → F;
  f_sum : list F → F;
  f_eqb : F → F → bool;
  f_total_le : F → F → bool;
}.
(** What IEEE 754 says of the total order, and that nothing sums to zero. *)
Class Float64Laws `{!Float64} := {
  total_le_trans a b c : f_total_le a b = true → f_total_le b c = true → f_total_le a c = true;
  total_le_total a b : f_total_le a b = true ∨ f_total_le b a = true;
  sum_nil : f_eqb (f_sum []) (decimal 0 0) = true;
}.

Definition PREVIEW_MAX_BYTES : nat := 64.

(** ** Terms *)

Section tokens.
Context {UNI : Unicode}.

Definition ascii_digit_char (c : string) : bool :=
  match c with String a EmptyString => is_digit a | _ => false end.

(** The loop over the characters: the component being read, and whether the last
    character was in lower case or a digit. *)
Fixpoint camel_case (current : string) (previous_was_lowercase_or_digit : bool) (l : list string) : list string :=
  match l with
  | [] => [current]
  | character :: l =>
      let next := is_lowercase character || ascii_digit_char character in
      if negb (str_is_empty current) && is_uppercase character && previous_was_lowercase_or_digit
      then current :: camel_case character next l
      else camel_case (current +:+ character) next l
  end.
Definition split_camel_case (identifier : string) : list string := camel_case EmptyString false (chars identifier).

(** Components in lower case, each once and none that is the identifier itself. *)
Fixpoint distinct_components (lowercase : string) (seen l : list string) : list string :=
  match l with
  | [] => []
  | component :: l =>
      let component := to_lowercase component in
      if negb (str_eqb component lowercase) && negb (existsb (str_eqb component) seen)
      then component :: distinct_components lowercase (component :: seen) l
      else distinct_components lowercase seen l
  end.

Definition identifier_tokens (identifier : string) : list string :=
  if str_is_empty identifier then []
  else
    let lowercase := to_lowercase identifier in
    lowercase :: distinct_components lowercase []
      (mjoin (split_camel_case <$> base.filter (λ component, str_is_empty component = false)
                                     (split_at is_underscore identifier))).

Fixpoint tokens_of (identifier : string) (l : list string) : list string :=
  match l with
  | [] => identifier_tokens identifier
  | character :: l =>
      if is_alphanumeric character || str_eqb character "_"
      then tokens_of (identifier +:+ character) l
      else identifier_tokens identifier ++ tokens_of EmptyString l
  end.
Definition tokenize (content : string) : list string := tokens_of EmptyString (chars content).
End tokens.

Definition preview (content : string) : string :=
  if bool_decide (String.length content ≤ PREVIEW_MAX_BYTES) then content
  else String.substring 0 (floor_char_boundary content PREVIEW_MAX_BYTES) content.

(** ** Scores *)

Module MemoryCandidate.
Record t `{!Float64} : Type := mk {
  metadata : MemoryMetadata.t;
  key : MemoryKey.t;
  preview : string;
  score : F;
}.
Arguments t {_}.
Arguments mk {_} _ _ _ _.
End MemoryCandidate.

Module MemoryScan.
Record t `{!Float64} : Type := mk { abstained : bool; candidates : list MemoryCandidate.t }.
Arguments t {_}.
Arguments mk {_} _ _.
End MemoryScan.

Module Document.
Record t : Type := mk { memory : MemoryRecord.t; term_frequencies : gmap string nat; length : nat }.
(** [Document::new] *)
Definition new (memory : MemoryRecord.t) (tokens : list string) : t :=
  mk memory (foldl (λ m token, partial_alter (λ n, Some (S (default 0 n))) token m) ∅ tokens) (List.length tokens).
End Document.

(** [Ord] for [Option<String>] *)
Definition namespace_le (a b : option string) : bool :=
  match a, b with
  | None, _ => true
  | Some _, None => false
  | Some a, Some b => bool_decide (key_le a b)
  end.

Section rank.
Context {UNI : Unicode} {FLT : Float64}.

#[local] Notation "x + y" := (f_add x y).
#[local] Notation "x - y" := (f_sub x y).
#[local] Notation "x * y" := (f_mul x y).
#[local] Notation "x / y" := (f_div x y).

Definition BM25_K1 : F := decimal 12 1.
Definition BM25_B : F := decimal 75 2.

Definition contains_term (term : string) (document : Document.t) : bool :=
  bool_decide (is_Some (Document.term_frequencies document !! term)).

(** The entry of [term] in [inverse_document_frequencies]. *)
Definition inverse_document_frequency (documents : list Document.t) (term : string) : F :=
  let document_frequency := of_usize (List.length (base.filter (λ d, contains_term term d = true) documents)) in
  let document_count := of_usize (List.length documents) in
  f_ln (decimal 1 0 + (document_count - document_frequency + decimal 5 1) / (document_frequency + decimal 5 1)).

Definition bm25_score (document : Document.t) (query_terms : list string) (idf : string → F) (average : F) : F :=
  f_sum (omap (λ term,
    frequency ← Document.term_frequencies document !! term;
    let term_frequency := of_usize frequency in
    let length_ratio := if f_eqb average (decimal 0 0) then decimal 0 0
                        else of_usize (Document.length document) / average in
    let denominator := term_frequency + BM25_K1 * (decimal 1 0 - BM25_B + BM25_B * length_ratio) in
    Some (idf term * term_frequency * (BM25_K1 + decimal 1 0) / denominator)) query_terms).

(** The comparison is not [Greater]: the higher score first, then namespace and id. *)
Definition candidate_le (left right : MemoryCandidate.t) : bool :=
  let ls := MemoryCandidate.score left in
  let rs := MemoryCandidate.score right in
  let lk := MemoryCandidate.key left in
  let rk := MemoryCandidate.key right in
  if negb (f_total_le rs ls) then false
  else if negb (f_total_le ls rs) then true
  else if negb (namespace_le (MemoryKey.namespace lk) (MemoryKey.namespace rk)) then false
  else if negb (namespace_le (MemoryKey.namespace rk) (MemoryKey.namespace lk)) then true
  else (MemoryKey.id lk <=? MemoryKey.id rk)%Z.

Definition ranked (left right : MemoryCandidate.t) : Prop := candidate_le left right = true.
#[global] Instance ranked_dec : RelDecision ranked := λ left right, decide (candidate_le left right = true).

Definition query_terms (query : string) : list string := bset_iter (list_to_set (C := gset string) (tokenize query)).
Definition document_of (memory : MemoryRecord.t) : Document.t :=
  Document.new memory (tokenize (MemoryRecord.content memory)).

Definition candidate_of (terms : list string) (documents : list Document.t) (document : Document.t) :
    option MemoryCandidate.t :=
  let average :=
    f_sum ((λ d, of_usize (Document.length d)) <$> documents) / of_usize (List.length documents) in
  let score := bm25_score document terms (inverse_document_frequency documents) average in
  if f_eqb score (decimal 0 0) then None
  else
    let memory := Document.memory document in
    Some (MemoryCandidate.mk (MemoryRecord.metadata memory) (MemoryRecord.key memory)
            (preview (MemoryRecord.content memory)) score).

(** Every memory that has a score. *)
Definition scored (query : string) (memories : list MemoryRecord.t) : list MemoryCandidate.t :=
  let documents := document_of <$> memories in
  omap (candidate_of (query_terms query) documents) documents.

(** [retrieval::rank] *)
Definition rank (query : string) (memories : list MemoryRecord.t) (limit : nat) : list MemoryCandidate.t :=
  if bool_decide (limit = 0) || bool_decide (memories = []) then []
  else if bool_decide (query_terms query = []) then []
  else take limit (merge_sort ranked (scored query memories)).

(** [MemoryScan::rank] *)
Definition scan_rank (query : string) (memories : list MemoryRecord.t) (limit : nat) : MemoryScan.t :=
  let candidates := rank query memories limit in
  MemoryScan.mk (bool_decide (List.length candidates = 0)) candidates.
End rank.

(** ** What a ranking is *)

Section ranking.
Context {UNI : Unicode} {FLT : Float64} {LAWS : Float64Laws}.
Implicit Types (c d : MemoryCandidate.t).

Lemma namespace_le_total (a b : option string) : namespace_le a b = true ∨ namespace_le b a = true.
Proof.
  destruct a as [a|], b as [b|]; cbn; auto. destruct (total key_le a b); [left|right]; by apply bool_decide_eq_true.
Qed.
Lemma namespace_le_trans (a b c : option string) : namespace_le a b = true → namespace_le b c = true → namespace_le a c = true.
Proof.
  destruct a as [a|], b as [b|], c as [c|]; cbn; try done. rewrite !bool_decide_eq_true. apply transitivity.
Qed.

#[local] Instance candidate_le_total : Total ranked.
Proof.
  intros c d. unfold ranked, candidate_le.
  destruct (f_total_le (MemoryCandidate.score d) _) eqn:E1, (f_total_le (MemoryCandidate.score c) _) eqn:E2; cbn; auto.
  2: { destruct (total_le_total (MemoryCandidate.score c) (MemoryCandidate.score d)); congruence. }
  destruct (namespace_le (MemoryKey.namespace (MemoryCandidate.key c)) _) eqn:N1,
    (namespace_le (MemoryKey.namespace (MemoryCandidate.key d)) _) eqn:N2; cbn; auto.
  - rewrite !Z.leb_le. lia.
  - destruct (namespace_le_total (MemoryKey.namespace (MemoryCandidate.key c))
                (MemoryKey.namespace (MemoryCandidate.key d))); congruence.
Qed.

#[local] Instance candidate_le_transitive : Transitive ranked.
Proof.
  intros a b c. unfold ranked, candidate_le.
  set (sa := MemoryCandidate.score a). set (sb := MemoryCandidate.score b). set (sc := MemoryCandidate.score c).
  set (na := MemoryKey.namespace (MemoryCandidate.key a)). set (nb := MemoryKey.namespace (MemoryCandidate.key b)).
  set (nc := MemoryKey.namespace (MemoryCandidate.key c)).
  destruct (f_total_le sb sa) eqn:Eba; [|done]. destruct (f_total_le sc sb) eqn:Ecb; [|done].
  rewrite (total_le_trans _ _ _ Ecb Eba). cbn [negb].
  destruct (f_total_le sa sc) eqn:Eac; [|done]. cbn [negb].
  rewrite (total_le_trans _ _ _ Eac Ecb), (total_le_trans _ _ _ Eba Eac). cbn [negb].
  destruct (namespace_le na nb) eqn:Nab; [|done]. destruct (namespace_le nb nc) eqn:Nbc; [|done].
  rewrite (namespace_le_trans _ _ _ Nab Nbc). cbn [negb].
  destruct (namespace_le nc na) eqn:Nca; [|done]. cbn [negb].
  rewrite (namespace_le_trans _ _ _ Nbc Nca), (namespace_le_trans _ _ _ Nca Nab). cbn [negb].
  rewrite !Z.leb_le. lia.
Qed.

(** A document that holds none of the terms has no score. *)
Lemma no_term_no_candidate terms documents document c :
  candidate_of terms documents document = Some c → existsb (λ term, contains_term term document) terms = true.
Proof.
  intros Hc. apply not_false_iff_true. intros Hn. revert Hc. unfold candidate_of.
  assert (∀ idf average, bm25_score document terms idf average = f_sum []) as E.
  { intros idf average. unfold bm25_score. f_equal. clear -Hn. induction terms as [|t l IH]; [done|]. cbn in Hn.
    apply orb_false_iff in Hn as [Ht Hn]. cbn. unfold contains_term in Ht. apply bool_decide_eq_false in Ht.
    destruct (_ !! t) as [?|] eqn:E; [by destruct Ht|]. cbn. by apply IH. }
  cbn zeta. by rewrite E, sum_nil.
Qed.

Definition mentions (query : string) (memory : MemoryRecord.t) : Prop :=
  ∃ term, term ∈ tokenize query ∧ term ∈ tokenize (MemoryRecord.content memory).

Lemma frequencies_mention tokens term (m : gmap string nat) :
  is_Some (foldl (λ m token, partial_alter (λ n, Some (S (default 0 n))) token m) m tokens !! term) →
  is_Some (m !! term) ∨ term ∈ tokens.
Proof.
  revert m. induction tokens as [|t tokens IH]; intros m; cbn; [by left|]. intros [H|H]%IH; [|right; by right].
  destruct (decide (t = term)) as [->|Hne]; [right; left|]. rewrite lookup_partial_alter_ne in H by done. by left.
Qed.

Lemma scored_elem query memories c :
  c ∈ scored query memories → ∃ memory, memory ∈ memories ∧ mentions query memory ∧
    MemoryCandidate.key c = MemoryRecord.key memory ∧ MemoryCandidate.metadata c = MemoryRecord.metadata memory ∧
    MemoryCandidate.preview c = preview (MemoryRecord.content memory).
Proof.
  unfold scored. rewrite list_elem_of_omap. intros (document & (memory & -> & Hm)%list_elem_of_fmap & Hc).
  exists memory. split; [done|]. split; [|by unfold candidate_of in Hc; destruct (f_eqb _ _); simplify_eq].
  apply no_term_no_candidate in Hc. apply existsb_exists in Hc as (term & Ht & Hd). apply list_elem_of_In in Ht.
  unfold query_terms in Ht. rewrite elem_of_bset_iter, elem_of_list_to_set in Ht.
  unfold contains_term in Hd. apply bool_decide_eq_true in Hd. unfold document_of, Document.new in Hd. cbn in Hd.
  apply frequencies_mention in Hd as [Hd|Hd]; [|by exists term]. rewrite lookup_empty in Hd. by destruct Hd.
Qed.

(** A ranking holds the best [limit] of the memories that have a score, the best first;
    each of them shares a term with the query. *)
Theorem rank_best query memories limit :
  ∃ rest, rank query memories limit ++ rest ≡ₚ
            (if bool_decide (query_terms query = []) then [] else scored query memories) ∧
    StronglySorted ranked (rank query memories limit) ∧
    (∀ c d, c ∈ rank query memories limit → d ∈ rest → candidate_le c d = true) ∧
    length (rank query memories limit) ≤ limit ∧ (rest = [] ∨ length (rank query memories limit) = limit) ∧
    ∀ c, c ∈ rank query memories limit → ∃ memory, memory ∈ memories ∧ mentions query memory ∧
      MemoryCandidate.key c = MemoryRecord.key memory ∧ MemoryCandidate.metadata c = MemoryRecord.metadata memory ∧
      MemoryCandidate.preview c = preview (MemoryRecord.content memory).
Proof.
  unfold rank. destruct (bool_decide (query_terms query = [])) eqn:Eq.
  { exists []. destruct (_ || _); cbn; (split_and!; [done|constructor|set_solver|lia|by left|set_solver]). }
  destruct (bool_decide_reflect (limit = 0)) as [->|Hl]; cbn [orb].
  { exists (scored query memories). cbn. split_and!; [done|constructor|set_solver|lia|by right|set_solver]. }
  destruct (bool_decide_reflect (memories = [])) as [->|Hm].
  { exists []. cbn. split_and!; [done|constructor|set_solver|lia|by left|set_solver]. }
  set (l := merge_sort ranked (scored query memories)).
  assert (Hs : StronglySorted ranked l) by apply (StronglySorted_merge_sort ranked).
  assert (Hp : l ≡ₚ scored query memories) by apply merge_sort_Permutation.
  exists (drop limit l). rewrite take_drop. rewrite <-(take_drop limit l) in Hs.
  split_and!; [done|by eapply StronglySorted_app_1_l| | | |].
  - intros c d Hc Hd. by eapply (StronglySorted_app_1_elem_of ranked).
  - rewrite length_take. lia.
  - destruct (decide (length l ≤ limit)); [left; by apply drop_ge|right]. rewrite length_take. lia.
  - intros c Hc. apply scored_elem. rewrite <-Hp. apply list_elem_of_In in Hc. apply list_elem_of_In.
    rewrite <-(take_drop limit l). apply in_app_iff. by left.
Qed.
End ranking.
