(* ===== verification/MemoryStore.v ===== *)
(** * The store of memories (crates/memory/src/store/local.rs, store/mod.rs)

    One SQLite table of memories and the allocator of their identifiers. Every operation
    is one transaction: it opens the database, prunes what expired, checks the bounds of
    the store and writes. The tables are those of the current schema; creating the file,
    its permissions and the migration of older schemas are not modelled. *)

From S2P Require Import Prelude Digest Contract Cost Workspace Session Secrets MemoryRecords Retrieval.

(** ** Integers *)

Definition in_i64 (z : Z) : bool := (- 2 ^ 63 <=? z)%Z && (z <? 2 ^ 63)%Z.
(** [i64::checked_add] and [saturating_add] *)
Definition i64_checked_add (x y : Z) : option Z := if in_i64 (x + y) then Some (x + y)%Z else None.
Definition i64_saturating_add (x y : Z) : Z := Z.max (- 2 ^ 63) (Z.min (x + y) (2 ^ 63 - 1)).
(** The casts between [i64] and [u64]. *)
Definition as_u64 (z : Z) : N := Z.to_N (z mod 2 ^ 64).
Definition as_i64 (n : N) : Z := if (n <? 2 ^ 63)%N then Z.of_N n else (Z.of_N n - 2 ^ 64)%Z.
Definition MAX_I64 : Z := 2 ^ 63 - 1.

(** ** The tables *)

Module MemoryRow.
Record t : Type := mk {
  content : string;
  normalized_identity : string;
  created_at_ms : Z;
  updated_at_ms : Z;
  last_scanned_at_ms : option Z;
  scan_count : Z;
  last_used_at_ms : option Z;
  use_count : Z;
  probation_until_ms : option Z;
  version : Z;
  metadata : string;
}.
#[global] Instance eq_dec : EqDecision t.
Proof. solve_decision. Defined.
#[global] Instance eta_t : Eta t := λ r,
  mk (content r) (normalized_identity r) (created_at_ms r) (updated_at_ms r) (last_scanned_at_ms r) (scan_count r)
    (last_used_at_ms r) (use_count r) (probation_until_ms r) (version r) (metadata r).
#[global] Instance set_normalized_identity : Setter normalized_identity.
Proof. derive_setter normalized_identity. Defined.
#[global] Instance set_last_scanned_at_ms : Setter last_scanned_at_ms.
Proof. derive_setter last_scanned_at_ms. Defined.
#[global] Instance set_scan_count : Setter scan_count.
Proof. derive_setter scan_count. Defined.
#[global] Instance set_last_used_at_ms : Setter last_used_at_ms.
Proof. derive_setter last_used_at_ms. Defined.
#[global] Instance set_use_count : Setter use_count.
Proof. derive_setter use_count. Defined.
#[global] Instance set_probation_until_ms : Setter probation_until_ms.
Proof. derive_setter probation_until_ms. Defined.
#[global] Instance set_version : Setter version.
Proof. derive_setter version. Defined.
#[global] Instance set_metadata : Setter metadata.
Proof. derive_setter metadata. Defined.
(** The CHECK constraints of the table. *)
Definition checks (r : t) : bool := (0 <=? scan_count r)%Z && (0 <=? use_count r)%Z && (0 <? version r)%Z.
End MemoryRow.

Record MemoryDb : Type := mk_memory_db { memories : gmap Z MemoryRow.t; next_id : Z }.
#[global] Instance memory_db_eta : Eta MemoryDb := λ d, mk_memory_db (memories d) (next_id d).
#[global] Instance set_memories : Setter memories.
Proof. derive_setter memories. Defined.
#[global] Instance set_next_id : Setter next_id.
Proof. derive_setter next_id. Defined.
Definition empty_memories : MemoryDb := mk_memory_db ∅ 1.

(** The row that another row with [identity] is refused for. *)
Definition identity_taken (db : MemoryDb) (identity : string) (excluded : option Z) : bool :=
  existsb (λ entry : Z * MemoryRow.t,
    str_eqb (MemoryRow.normalized_identity entry.2) identity && negb (bool_decide (excluded = Some entry.1)))
    (btree_iter (memories db)).

(** [INSERT INTO memories] without the trigger *)
Definition insert_row (db : MemoryDb) (id : Z) (row : MemoryRow.t) : result MemoryDb MemoryError.t :=
  let? _ := reject_if (bool_decide (is_Some (memories db !! id))
                       || identity_taken db (MemoryRow.normalized_identity row) None
                       || negb (MemoryRow.checks row)) MemoryError.Backend in
  Ok (db <| memories := <[id := row]> (memories db) |>).

(** [INSERT INTO memories] with the trigger [memory_id_allocator] *)
Definition insert_allocated (db : MemoryDb) (id : Z) (row : MemoryRow.t) : result MemoryDb MemoryError.t :=
  let? _ := reject_if (id <? next_id db)%Z MemoryError.Backend in
  let? db := insert_row db id row in
  Ok (if (next_id db <=? id)%Z then db <| next_id := id + 1 |> else db)%Z.

(** [UPDATE memories ... WHERE id]: nothing where the row is absent. *)
Definition update_row (db : MemoryDb) (id : Z) (f : MemoryRow.t → MemoryRow.t) : result MemoryDb MemoryError.t :=
  match memories db !! id with
  | None => Ok db
  | Some row =>
      let? _ := reject_if (identity_taken db (MemoryRow.normalized_identity (f row)) (Some id)
                           || negb (MemoryRow.checks (f row))) MemoryError.Backend in
      Ok (db <| memories := <[id := f row]> (memories db) |>)
  end.

Definition max_id (db : MemoryDb) : Z := default 0%Z (last (btree_keys (memories db))).

(** [open]: the allocator is moved past every row. *)
Definition open (db : MemoryDb) : result MemoryDb MemoryError.t :=
  let? next := ok_or (i64_checked_add (max_id db) 1) MemoryError.StorageCapacity in
  Ok (if (next_id db <? next)%Z then db <| next_id := next |> else db).

Definition expired (now_ms : Z) (row : MemoryRow.t) : bool :=
  match MemoryRow.probation_until_ms row with
  | Some until => (until <=? now_ms)%Z && (MemoryRow.use_count row =? 0)%Z
  | None => false
  end.
Definition prune_expired (db : MemoryDb) (now_ms : Z) : MemoryDb :=
  db <| memories := base.filter (λ entry : Z * MemoryRow.t, expired now_ms entry.2 = false) (memories db) |>.

Definition allocate_id (db : MemoryDb) : result Z MemoryError.t :=
  let? maximum := ok_or (i64_checked_add (max_id db) 1) MemoryError.StorageCapacity in
  let id := Z.max (next_id db) maximum in
  let? _ := ok_or (i64_checked_add id 1) MemoryError.StorageCapacity in
  Ok id.

Definition observe_id (db : MemoryDb) (id : Z) : result MemoryDb MemoryError.t :=
  let? next := ok_or (i64_checked_add id 1) MemoryError.StorageCapacity in
  Ok (db <| next_id := Z.max (next_id db) next |>).

(** ** Loading *)

Module StoredMemory.
Record t : Type := mk {
  metadata : MemoryMetadata.t;
  namespace : option string;
  id : Z;
  content : string;
  created_at_ms : Z;
  updated_at_ms : Z;
  last_scanned_at_ms : option Z;
  scan_count : N;
  last_used_at_ms : option Z;
  use_count : N;
  probation_until_ms : option Z;
  version : N;
}.
#[global] Instance eta_t : Eta t := λ r,
  mk (metadata r) (namespace r) (id r) (content r) (created_at_ms r) (updated_at_ms r) (last_scanned_at_ms r)
    (scan_count r) (last_used_at_ms r) (use_count r) (probation_until_ms r) (version r).
#[global] Instance set_metadata : Setter metadata.
Proof. derive_setter metadata. Defined.
#[global] Instance set_last_used_at_ms : Setter last_used_at_ms.
Proof. derive_setter last_used_at_ms. Defined.
#[global] Instance set_use_count : Setter use_count.
Proof. derive_setter use_count. Defined.
#[global] Instance set_probation_until_ms : Setter probation_until_ms.
Proof. derive_setter probation_until_ms. Defined.
#[global] Instance set_version : Setter version.
Proof. derive_setter version. Defined.
Definition key (m : t) : MemoryKey.t :=
  match namespace m with
  | Some namespace => MemoryKey.remote namespace (id m) (version m)
  | None => MemoryKey.local (id m) (version m)
  end.
(** [From<StoredMemory> for MemoryRecord] *)
Definition record (m : t) : MemoryRecord.t :=
  MemoryRecord.mk (metadata m) (key m) (content m) (created_at_ms m) (updated_at_ms m) (last_scanned_at_ms m)
    (scan_count m) (last_used_at_ms m) (use_count m) (probation_until_ms m).
End StoredMemory.

Module ScanScope.
Record t : Type := mk { repository : option string }.
End ScanScope.

Module ImportReport.
Record t : Type := mk { inserted : nat; skipped : nat }.
End ImportReport.

Module SyncReport.
Record t : Type := mk { inserted : nat; replaced : nat; unchanged : nat; deleted : nat }.
End SyncReport.

Module ExportCursor.
Record t : Type := mk { namespace : string; id : Z }.
End ExportCursor.
Definition MAX_EXPORT_PAGE_RECORDS : nat := 128.

Section store.
Context {TXT : MemoryText} {UNI : Unicode} {FLT : Float64} {SHA : Sha256}.
Variable limits : MemoryLimits.t.
Implicit Types (db : MemoryDb).

#[local] Notation E := MemoryError.t.

(** [row_to_memory] *)
Definition row_to_memory (id : Z) (row : MemoryRow.t) : result StoredMemory.t E :=
  let? metadata := ok_or (from_str (MemoryRow.metadata row)) MemoryError.Backend in
  Ok (StoredMemory.mk metadata None id (MemoryRow.content row) (MemoryRow.created_at_ms row)
        (MemoryRow.updated_at_ms row) (MemoryRow.last_scanned_at_ms row) (as_u64 (MemoryRow.scan_count row))
        (MemoryRow.last_used_at_ms row) (as_u64 (MemoryRow.use_count row)) (MemoryRow.probation_until_ms row)
        (as_u64 (MemoryRow.version row))).

Definition validate_loaded (memory : StoredMemory.t) : result StoredMemory.t E :=
  let? _ := validate_record (StoredMemory.record memory) MemoryRecordScope.Local limits in Ok memory.

Definition load_row (id : Z) (row : MemoryRow.t) : result StoredMemory.t E :=
  let? memory := row_to_memory id row in validate_loaded memory.

Definition load_all db : result (list StoredMemory.t) E :=
  for_each (λ l entry, let? memory := load_row entry.1 entry.2 in Ok (l ++ [memory])) [] (btree_iter (memories db)).

Definition load_one db (id : Z) : result (option StoredMemory.t) E :=
  match memories db !! id with
  | None => Ok None
  | Some row => let? memory := load_row id row in Ok (Some memory)
  end.

Definition save_metadata db (id : Z) (metadata : MemoryMetadata.t) : result MemoryDb E :=
  update_row db id (λ row, row <| MemoryRow.metadata := to_string metadata |>).

(** Neither the content nor the metadata looks like a secret. *)
Definition presentable (memory : StoredMemory.t) : bool :=
  match reject_likely_secret (StoredMemory.metadata memory) with
  | Ok _ => negb (contains_likely_secret (StoredMemory.content memory))
  | Err _ => false
  end.

Definition in_scope (scope : option ScanScope.t) (memory : StoredMemory.t) : bool :=
  match scope with
  | Some scope => visible_in (StoredMemory.metadata memory) (ScanScope.repository scope)
  | None => true
  end.

(** ** Scanning *)

Definition visible_records (scope : option ScanScope.t) (l : list StoredMemory.t) : list MemoryRecord.t :=
  StoredMemory.record <$>
    base.filter (λ memory, in_scope scope memory = true) (base.filter (λ memory, presentable memory = true) l).

(** The telemetry of one candidate. *)
Definition record_scan (now_ms : Z) db (candidate : MemoryCandidate.t) : result MemoryDb E :=
  let id := MemoryKey.id (MemoryCandidate.key candidate) in
  let? _ := reject_if (match memories db !! id with
                       | Some row => negb (MemoryRow.scan_count row <? MAX_I64)%Z
                       | None => true
                       end) MemoryError.InvalidMetadata in
  update_row db id (λ row,
    row <| MemoryRow.last_scanned_at_ms :=
             Some (Z.max now_ms (Z.max (MemoryRow.updated_at_ms row)
                     (default now_ms (MemoryRow.last_scanned_at_ms row)))) |>
        <| MemoryRow.scan_count := MemoryRow.scan_count row + 1 |>)%Z.

Definition scan_filtered db (query : string) (limit : nat) (now_ms : Z) (scope : option ScanScope.t) :
    result (MemoryDb * MemoryScan.t) E :=
  let? _ := reject_if (MemoryLimits.query_bytes limits <? str_len query)%N
              (MemoryError.QueryTooLarge (MemoryLimits.query_bytes limits)) in
  let? db := open db in
  let db := prune_expired db now_ms in
  let? all := load_all db in
  let limit := Nat.min limit (MemoryLimits.scan_results limits) in
  let scan := scan_rank query (visible_records scope all) limit in
  let? db := for_each (record_scan now_ms) db (MemoryScan.candidates scan) in
  Ok (db, scan).

(** ** Reading *)

(** The loop's locals: the database, the identifiers seen, the records read. *)
Definition Reading : Type := MemoryDb * gset Z * list MemoryRecord.t.

Definition read_reference (now_ms : Z) (scope : option ScanScope.t) (acc : Reading) (reference : Z * option N) :
    result Reading E :=
  let '(db, seen, records) := acc in
  let '(id, version) := reference in
  let? memory := load_one db id in
  match memory with
  | None => Ok acc
  | Some memory =>
      if negb (in_scope scope memory)
         || match version with Some version => negb (version =? StoredMemory.version memory)%N | None => false end
         || negb (presentable memory) then Ok acc
      else if bool_decide (id ∈ seen) then Ok acc
      else
        let last_used_at_ms :=
          Z.max (Z.max now_ms (StoredMemory.updated_at_ms memory))
                (default (- 2 ^ 63)%Z (StoredMemory.last_used_at_ms memory)) in
        let? _ := reject_if (match memories db !! id with
                             | Some row => negb (MemoryRow.use_count row <? MAX_I64)%Z
                             | None => true
                             end) MemoryError.InvalidMetadata in
        let? db := update_row db id (λ row,
          row <| MemoryRow.last_used_at_ms := Some last_used_at_ms |>
              <| MemoryRow.use_count := MemoryRow.use_count row + 1 |>
              <| MemoryRow.probation_until_ms := None |>)%Z in
        let? use_count := ok_or (u64_checked_add (StoredMemory.use_count memory) 1) MemoryError.InvalidMetadata in
        let memory := memory <| StoredMemory.last_used_at_ms := Some last_used_at_ms |>
                             <| StoredMemory.use_count := use_count |>
                             <| StoredMemory.probation_until_ms := None |> in
        Ok (db, {[id]} ∪ seen, records ++ [StoredMemory.record memory])
  end.

Definition read_filtered db (references : list (Z * option N)) (now_ms : Z) (scope : option ScanScope.t) :
    result (MemoryDb * list MemoryRecord.t) E :=
  let? db := open db in
  let db := prune_expired db now_ms in
  let? '(db, _, records) := for_each (read_reference now_ms scope) (db, ∅, []) references in
  Ok (db, records).

(** ** Writing *)

Definition validate_content (content : string) : result unit E :=
  let? _ := reject_if (trim_is_empty content) MemoryError.EmptyContent in
  reject_if (MemoryLimits.content_bytes limits <? str_len content)%N
    (MemoryError.ContentTooLarge (MemoryLimits.content_bytes limits)).

Definition validate_authored_content (content : string) (metadata : MemoryMetadata.t) : result unit E :=
  let? _ := validate_content content in
  let? _ := validate metadata in
  let? _ := reject_likely_secret metadata in
  reject_if (contains_likely_secret content) MemoryError.SecretRejected.

(** [totals] *)
Definition total_records db : N := N.of_nat (size (memories db)).
Definition total_content_bytes db : N := map_sum (λ row, str_len (MemoryRow.content row)) (memories db).

Definition check_content_capacity (current_bytes replaced_bytes new_bytes : N) : result unit E :=
  let resulting_bytes := u64_saturating_add (saturating_sub current_bytes replaced_bytes) new_bytes in
  reject_if (MemoryLimits.total_content_bytes limits <? resulting_bytes)%N
    (MemoryError.ContentCapacity (MemoryLimits.total_content_bytes limits)).

Definition found (memory : result (option StoredMemory.t) E) : result StoredMemory.t E :=
  let? memory := memory in ok_or memory MemoryError.NotFound.

Definition insert db (content identity : string) (now_ms : Z) : result (MemoryDb * StoredMemory.t) E :=
  let? _ := reject_if (identity_taken db identity None) MemoryError.Duplicate in
  let? _ := reject_if (MemoryLimits.records limits <=? total_records db)%N
              (MemoryError.RecordCapacity (MemoryLimits.records limits)) in
  let? _ := check_content_capacity (total_content_bytes db) 0 (str_len content) in
  let probation_until_ms := i64_saturating_add now_ms (MemoryLimits.probation_duration_ms limits) in
  let? id := allocate_id db in
  let? db := insert_allocated db id
               (MemoryRow.mk content identity now_ms now_ms None 0 None 0 (Some probation_until_ms) 1 "{}") in
  let? memory := found (load_one db id) in
  Ok (db, memory).

Definition replace db (content identity : string) (key : MemoryKey.t) (now_ms : Z) :
    result (MemoryDb * StoredMemory.t) E :=
  match memories db !! MemoryKey.id key with
  | None => Err MemoryError.NotFound
  | Some current =>
      let? _ := reject_if (negb (as_u64 (MemoryRow.version current) =? MemoryKey.version key)%N)
                  MemoryError.Conflict in
      let? _ := reject_if (identity_taken db identity (Some (MemoryKey.id key))) MemoryError.Duplicate in
      let? _ := check_content_capacity (total_content_bytes db) (str_len (MemoryRow.content current))
                  (str_len content) in
      let? next_version := ok_or (i64_checked_add (MemoryRow.version current) 1) MemoryError.Conflict in
      let probation_until_ms := i64_saturating_add now_ms (MemoryLimits.probation_duration_ms limits) in
      let? db := update_row db (MemoryKey.id key) (λ row,
        MemoryRow.mk content identity (MemoryRow.created_at_ms row) now_ms None 0 None 0 (Some probation_until_ms)
          next_version (MemoryRow.metadata row)) in
      let? memory := found (load_one db (MemoryKey.id key)) in
      Ok (db, memory)
  end.

(** The owner a record keeps: that of the record it replaces, else a new one. *)
Definition owner db (replacement : option MemoryKey.t) (drawn : string) : result string E :=
  match replacement with
  | None => Ok drawn
  | Some key =>
      let? memory := load_one db (MemoryKey.id key) in
      Ok (default drawn (memory ≫= λ memory, MemoryMetadata.ownership_id (StoredMemory.metadata memory)))
  end.

(** [put_metadata_local]; [drawn] is the identity [new_ownership] draws. *)
Definition put_metadata_local db (content : string) (metadata : MemoryMetadata.t)
    (replacement : option MemoryKey.t) (now_ms : Z) (drawn : string) : result (MemoryDb * MemoryRecord.t) E :=
  let? _ := validate_authored_content content metadata in
  let? db := open db in
  let db := prune_expired db now_ms in
  let? ownership := owner db replacement drawn in
  let metadata := metadata <| MemoryMetadata.ownership_id := Some ownership |> in
  let? _ := validate metadata in
  let normalized_identity := identity metadata content in
  let? '(db, result) := match replacement with
                        | Some key => replace db content normalized_identity key now_ms
                        | None => insert db content normalized_identity now_ms
                        end in
  let? db := save_metadata db (StoredMemory.id result) metadata in
  let? result := found (load_one db (StoredMemory.id result)) in
  Ok (db, StoredMemory.record result).

Definition delete_local db (key : MemoryKey.t) : result MemoryDb E :=
  let? db := open db in
  match memories db !! MemoryKey.id key with
  | None => Ok db
  | Some row =>
      let? _ := reject_if (negb (as_u64 (MemoryRow.version row) =? MemoryKey.version key)%N) MemoryError.Conflict in
      Ok (db <| memories := delete (MemoryKey.id key) (memories db) |>)
  end.

Definition list_local db (now_ms : Z) : result (MemoryDb * list MemoryRecord.t) E :=
  let? db := open db in
  let db := prune_expired db now_ms in
  let? all := load_all db in
  Ok (db, StoredMemory.record <$> base.filter (λ memory, presentable memory = true) all).
End store.
