(* ===== verification/MemoryTransfer.v ===== *)
(** * Transfer of memories and the interface of stores (crates/memory/src/store/local.rs,
    store/mod.rs, lessons.rs, archive.rs)

    Records move between stores by import, by snapshots and page by page. What a store
    offers is the class [MemoryStore]; lessons are proposed and finalized through it. *)

From S2P Require Import Prelude Digest Contract Cost Workspace Session Secrets MemoryRecords Retrieval MemoryStore.

#[local] Notation E := MemoryError.t.

(** [Vec::push] unless the vector has the value *)
Definition push_distinct {A} `{EqDecision A} (l : list A) (x : A) : list A := if decide (x ∈ l) then l else l ++ [x].
Definition push_all {A} `{EqDecision A} (l more : list A) : list A := foldl push_distinct l more.

Section transfer.
Context {TXT : MemoryText} {UNI : Unicode} {FLT : Float64} {SHA : Sha256}.
Variable limits : MemoryLimits.t.
Implicit Types (db : MemoryDb) (records : list MemoryRecord.t).

(** ** Import *)

(** The owner of an imported record: an archive that knew none has the digest of what it
    recorded. *)
Definition source_ownership (memory : MemoryRecord.t) : string :=
  match MemoryMetadata.ownership_id (MemoryRecord.metadata memory) with
  | Some id => id
  | None =>
      String.substring 0 32 (digest_to_string (digest_of (to_string (A := LegacyRecord)
        (MemoryRecord.key memory, MemoryRecord.content memory, MemoryRecord.metadata memory,
         MemoryRecord.created_at_ms memory))))
  end.

Definition import_identity (memory : MemoryRecord.t) : string :=
  transfer_identity
    (MemoryRecord.metadata memory <| MemoryMetadata.ownership_id := Some (source_ownership memory) |>)
    (MemoryRecord.content memory) (MemoryKey.namespace (MemoryRecord.key memory)).

(** The metadata with the key and the owner it comes from. *)
Definition imported_metadata (memory : MemoryRecord.t) : MemoryMetadata.t :=
  let metadata :=
    MemoryRecord.metadata memory <| MemoryMetadata.ownership_id := Some (source_ownership memory) |> in
  let metadata := metadata <| MemoryMetadata.imported_from :=
    push_distinct (MemoryMetadata.imported_from metadata) (MemoryRecord.key memory) |> in
  metadata <| MemoryMetadata.transferred_from :=
    push_distinct (MemoryMetadata.transferred_from metadata)
      (OwnershipReference.mk (source_ownership memory) (MemoryRecord.key memory)) |>.

Definition stored_identity (memory : StoredMemory.t) : string :=
  transfer_identity (StoredMemory.metadata memory) (StoredMemory.content memory) None.

(** The first record with this identity, and the list with it replaced. *)
Fixpoint find_existing (identity : string) (l : list StoredMemory.t) : option StoredMemory.t :=
  match l with
  | [] => None
  | memory :: l => if str_eqb (stored_identity memory) identity then Some memory else find_existing identity l
  end.
Fixpoint update_existing (identity : string) (memory' : StoredMemory.t) (l : list StoredMemory.t) :
    list StoredMemory.t :=
  match l with
  | [] => []
  | memory :: l => if str_eqb (stored_identity memory) identity then memory' :: l
                   else memory :: update_existing identity memory' l
  end.

Definition merge_provenance (current incoming : MemoryMetadata.t) : MemoryMetadata.t :=
  let merged := current <| MemoryMetadata.imported_from :=
    push_all (MemoryMetadata.imported_from current) (MemoryMetadata.imported_from incoming) |> in
  merged <| MemoryMetadata.transferred_from :=
    push_all (MemoryMetadata.transferred_from merged) (MemoryMetadata.transferred_from incoming) |>.

(** The loop's locals: the database, the records it holds, the report. *)
Definition Importing : Type := MemoryDb * list StoredMemory.t * ImportReport.t.

Definition merge_existing db existing report (current : StoredMemory.t) (metadata : MemoryMetadata.t)
    (identity_ : string) : result Importing E :=
  let merged := merge_provenance (StoredMemory.metadata current) metadata in
  let? _ := validate merged in
  let report := ImportReport.mk (ImportReport.inserted report) (S (ImportReport.skipped report)) in
  if decide (merged = StoredMemory.metadata current) then Ok (db, existing, report)
  else
    let? version := ok_or (u64_checked_add (StoredMemory.version current) 1) MemoryError.Conflict in
    let? db := update_row db (StoredMemory.id current) (λ row,
      row <| MemoryRow.version := as_i64 version |>
          <| MemoryRow.normalized_identity := identity merged (StoredMemory.content current) |>) in
    let? db := save_metadata db (StoredMemory.id current) merged in
    let current := current <| StoredMemory.version := version |> <| StoredMemory.metadata := merged |> in
    Ok (db, update_existing identity_ current existing, report).

(** The counters and the times of the record survive its new owner. *)
Definition restore_counters (memory : MemoryRecord.t) (row : MemoryRow.t) : MemoryRow.t :=
  MemoryRow.mk (MemoryRow.content row) (MemoryRow.normalized_identity row)
    (MemoryRecord.created_at_ms memory) (MemoryRecord.updated_at_ms memory)
    (MemoryRecord.last_scanned_at_ms memory) (as_i64 (MemoryRecord.scan_count memory))
    (MemoryRecord.last_used_at_ms memory) (as_i64 (MemoryRecord.use_count memory))
    (MemoryRecord.probation_until_ms memory) (as_i64 (MemoryKey.version (MemoryRecord.key memory)))
    (MemoryRow.metadata row).

Definition insert_imported db existing report (memory : MemoryRecord.t) (metadata : MemoryMetadata.t)
    (now_ms : Z) (drawn : string) : result Importing E :=
  let metadata := metadata <| MemoryMetadata.ownership_id := Some drawn |> in
  let? _ := validate metadata in
  let? '(db, inserted) :=
    insert limits db (MemoryRecord.content memory) (identity metadata (MemoryRecord.content memory)) now_ms in
  let? db := update_row db (StoredMemory.id inserted) (restore_counters memory) in
  let? db := save_metadata db (StoredMemory.id inserted) metadata in
  let? loaded := found (load_one limits db (StoredMemory.id inserted)) in
  Ok (db, existing ++ [loaded], ImportReport.mk (S (ImportReport.inserted report)) (ImportReport.skipped report)).

Definition import_record (now_ms : Z) (draw : nat → string) (acc : Importing) (memory : MemoryRecord.t) :
    result Importing E :=
  let '(db, existing, report) := acc in
  let identity := import_identity memory in
  let metadata := imported_metadata memory in
  match find_existing identity existing with
  | Some current => merge_existing db existing report current metadata identity
  | None => insert_imported db existing report memory metadata now_ms (draw (ImportReport.inserted report))
  end.

Definition check_portable (memory : MemoryRecord.t) : result unit E :=
  let? _ := validate_record memory MemoryRecordScope.Portable limits in
  validate_authored_content limits (MemoryRecord.content memory) (MemoryRecord.metadata memory).

Definition import_records_local db records (now_ms : Z) (draw : nat → string) :
    result (MemoryDb * ImportReport.t) E :=
  let? _ := for_each (λ _ memory, check_portable memory) tt records in
  let? db := open db in
  let db := prune_expired db now_ms in
  let? existing := load_all limits db in
  let? '(db, _, report) := for_each (import_record now_ms draw) (db, existing, ImportReport.mk 0 0) records in
  Ok (db, report).

Definition merge_remote_export_local db records (now_ms : Z) (draw : nat → string) :
    result (MemoryDb * ImportReport.t) E :=
  let? _ := for_each (λ _ memory, validate_record memory MemoryRecordScope.AnyRemote limits) tt records in
  import_records_local db records now_ms draw.

(** ** Snapshots *)

(** The loop's locals: identifiers, identities, bytes. *)
Definition Checking : Type := gset Z * gset string * N.

Definition check_snapshot_record (acc : Checking) (memory : MemoryRecord.t) : result Checking E :=
  let '(ids, identities, total) := acc in
  let metadata := MemoryRecord.metadata memory in
  let? _ := validate_record memory MemoryRecordScope.Local limits in
  let? _ := reject_if (bool_decide (MemoryKey.id (MemoryRecord.key memory) ∈ ids)) MemoryError.InvalidMetadata in
  let? _ := reject_if (bool_decide (identity metadata (MemoryRecord.content memory) ∈ identities))
              MemoryError.Duplicate in
  let? _ := reject_likely_secret metadata in
  let? _ := reject_if (contains_likely_secret (MemoryRecord.content memory)) MemoryError.SecretRejected in
  let? total := ok_or (u64_checked_add total (str_len (MemoryRecord.content memory)))
                  (MemoryError.ContentCapacity (MemoryLimits.total_content_bytes limits)) in
  Ok ({[MemoryKey.id (MemoryRecord.key memory)]} ∪ ids,
      {[identity metadata (MemoryRecord.content memory)]} ∪ identities, total).

Definition validate_authored_snapshot records : result unit E :=
  let? _ := reject_if (MemoryLimits.records limits <? N.of_nat (length records))%N
              (MemoryError.RecordCapacity (MemoryLimits.records limits)) in
  let? '(_, _, content_bytes) := for_each check_snapshot_record (∅, ∅, 0%N) records in
  reject_if (MemoryLimits.total_content_bytes limits <? content_bytes)%N
    (MemoryError.ContentCapacity (MemoryLimits.total_content_bytes limits)).

(** The row of a record of a snapshot; [metadata] is written next. *)
Definition snapshot_row (memory : MemoryRecord.t) : MemoryRow.t :=
  MemoryRow.mk (MemoryRecord.content memory) (identity (MemoryRecord.metadata memory) (MemoryRecord.content memory))
    (MemoryRecord.created_at_ms memory) (MemoryRecord.updated_at_ms memory)
    (MemoryRecord.last_scanned_at_ms memory) (as_i64 (MemoryRecord.scan_count memory))
    (MemoryRecord.last_used_at_ms memory) (as_i64 (MemoryRecord.use_count memory))
    (MemoryRecord.probation_until_ms memory) (as_i64 (MemoryKey.version (MemoryRecord.key memory))) "{}".

(** The loop's locals: the database, the report, the identities drawn. *)
Definition Syncing : Type := MemoryDb * SyncReport.t * nat.

Definition count_synced (report : SyncReport.t) (previous : option MemoryRecord.t) (memory : MemoryRecord.t) :
    SyncReport.t :=
  let '(SyncReport.mk inserted replaced unchanged deleted) := report in
  match previous with
  | Some previous =>
      if decide (previous = memory) then SyncReport.mk inserted replaced (S unchanged) deleted
      else SyncReport.mk inserted (S replaced) unchanged deleted
  | None => SyncReport.mk (S inserted) replaced unchanged deleted
  end.

Definition sync_record (previous : list StoredMemory.t) (draw : nat → string) (acc : Syncing)
    (memory : MemoryRecord.t) : result Syncing E :=
  let '(db, report, drawn) := acc in
  let id := MemoryKey.id (MemoryRecord.key memory) in
  let? db := observe_id db id in
  let report := count_synced report
    (StoredMemory.record <$> list_find (λ m, StoredMemory.id m = id) previous ≫= λ r, Some r.2) memory in
  let? db := insert_row db id (snapshot_row memory) in
  let metadata := MemoryRecord.metadata memory in
  match MemoryMetadata.ownership_id metadata with
  | Some _ => let? db := save_metadata db id metadata in Ok (db, report, drawn)
  | None =>
      let? db := save_metadata db id (metadata <| MemoryMetadata.ownership_id := Some (draw drawn) |>) in
      Ok (db, report, S drawn)
  end.

Definition sync_local_snapshot db records (now_ms : Z) (draw : nat → string) :
    result (MemoryDb * SyncReport.t) E :=
  let? _ := validate_authored_snapshot records in
  let? db := open db in
  let db := prune_expired db now_ms in
  let? existing := load_all limits db in
  let deleted := length (base.filter (λ memory : StoredMemory.t,
    StoredMemory.id memory ∉ ((λ r : MemoryRecord.t, MemoryKey.id (MemoryRecord.key r)) <$> records)) existing) in
  let db := db <| memories := ∅ |> in
  let? '(db, report, _) := for_each (sync_record existing draw) (db, SyncReport.mk 0 0 0 deleted, 0) records in
  Ok (db, report).

(** ** Pages *)

Definition record_id (record : MemoryRecord.t) : Z := MemoryKey.id (MemoryRecord.key record).

Definition page_of records (cursor : option ExportCursor.t) (limit : nat) :
    list MemoryRecord.t * option ExportCursor.t :=
  let after := match cursor with Some cursor => ExportCursor.id cursor | None => 0%Z end in
  let records := base.filter (λ record, (after <? record_id record)%Z = true) records in
  let limit := Nat.max 1 (Nat.min limit MAX_EXPORT_PAGE_RECORDS) in
  let page := take limit records in
  (page, if bool_decide (limit < length records)
         then (λ record, ExportCursor.mk "" (record_id record)) <$> last page else None).

Definition export_local_page db (cursor : option ExportCursor.t) (limit : nat) (now_ms : Z) :
    result (MemoryDb * (list MemoryRecord.t * option ExportCursor.t)) E :=
  let? '(db, records) := list_local limits db now_ms in
  Ok (db, page_of records cursor limit).

Definition lesson_page_local db (query : LessonQuery.t) (after : Z) (now_ms : Z) :
    result (MemoryDb * list MemoryRecord.t) E :=
  let? '(db, records) := list_local limits db now_ms in
  Ok (db, take MAX_EXPORT_PAGE_RECORDS
            (base.filter (λ record, ((after <? record_id record)%Z && query_matches query record) = true) records)).
End transfer.
