(* ===== verification/MemoryGuarantees.v ===== *)
(** * What the store of memories guarantees

    The invariant of the tables of [MemoryStore] over every sequence of operations, and
    what follows from it: keys are never reused, a stale key changes nothing, likely
    secrets are not shown, imports are idempotent, exports are complete. *)

From S2P Require Import Prelude Digest Contract Cost Workspace Session Secrets MemoryRecords Retrieval.
From S2P Require Import MemoryStore MemoryTransfer.

(** What serde_json writes of metadata is read back, and an owner adds its text. *)
Class MemoryTextOk `{!MemoryText} := {
  #[global] metadata_text_ok :: JsonTextOk MemoryMetadata.t;
  #[global] payload_text_ok :: JsonTextOk TransferPayload;
  ownership_fits (m : MemoryMetadata.t) (id : string) :
    MemoryMetadata.ownership_id m = None → valid_ownership id = true →
    (str_len (to_string (m <| MemoryMetadata.ownership_id := Some id |>)) ≤ str_len (to_string m) + 32)%N;
}.

Section rows.
Context {TXT : MemoryText} {UNI : Unicode} {FLT : Float64} {SHA : Sha256}.
Variable limits : MemoryLimits.t.
Implicit Types (db : MemoryDb) (row : MemoryRow.t) (id : Z).

(** ** A row that loads *)

Record row_ok id row : Prop := {
  ro_id : (0 < id)%Z;
  ro_version : (0 < MemoryRow.version row ≤ MAX_I64)%Z;
  ro_scan_count : (0 ≤ MemoryRow.scan_count row ≤ MAX_I64)%Z;
  ro_use_count : (0 ≤ MemoryRow.use_count row ≤ MAX_I64)%Z;
  ro_content : trim_is_empty (MemoryRow.content row) = false;
  ro_length : (str_len (MemoryRow.content row) ≤ MemoryLimits.content_bytes limits)%N;
  ro_created : (0 ≤ MemoryRow.created_at_ms row ≤ MemoryRow.updated_at_ms row)%Z;
  ro_scanned t : MemoryRow.last_scanned_at_ms row = Some t → (MemoryRow.updated_at_ms row ≤ t)%Z;
  ro_used t : MemoryRow.last_used_at_ms row = Some t → (MemoryRow.updated_at_ms row ≤ t)%Z;
  ro_until t : MemoryRow.probation_until_ms row = Some t → (MemoryRow.updated_at_ms row ≤ t)%Z;
  ro_scanned_iff : MemoryRow.scan_count row = 0%Z ↔ MemoryRow.last_scanned_at_ms row = None;
  ro_used_iff : MemoryRow.use_count row = 0%Z ↔ MemoryRow.last_used_at_ms row = None;
  ro_probation : MemoryRow.probation_until_ms row = None ∨ MemoryRow.use_count row = 0%Z;
  ro_metadata : ∃ m, from_str (MemoryRow.metadata row) = Some m ∧ validate m = Ok tt;
}.

Definition in_range row : Prop :=
  (0 < MemoryRow.version row ≤ MAX_I64)%Z ∧ (0 ≤ MemoryRow.scan_count row ≤ MAX_I64)%Z ∧
  (0 ≤ MemoryRow.use_count row ≤ MAX_I64)%Z.

(** The memory a row loads as. *)
Definition stored id row (m : MemoryMetadata.t) : StoredMemory.t :=
  StoredMemory.mk m None id (MemoryRow.content row) (MemoryRow.created_at_ms row) (MemoryRow.updated_at_ms row)
    (MemoryRow.last_scanned_at_ms row) (as_u64 (MemoryRow.scan_count row)) (MemoryRow.last_used_at_ms row)
    (as_u64 (MemoryRow.use_count row)) (MemoryRow.probation_until_ms row) (as_u64 (MemoryRow.version row)).

Lemma as_u64_small z : (0 ≤ z ≤ MAX_I64)%Z → as_u64 z = Z.to_N z ∧ Z.of_N (as_u64 z) = z.
Proof. unfold as_u64, MAX_I64. intros Hz. rewrite Z.mod_small by lia. split; [done|lia]. Qed.

Lemma exceeds_i64_false n : exceeds_i64 n = false ↔ (n ≤ i64_MAX)%N.
Proof.
  unfold exceeds_i64. rewrite bool_decide_eq_false. split.
  - intros Hn. destruct (i64_try_from n) as [z|] eqn:E; [|done]. by apply i64_try_from_Some in E as [? _].
  - intros Hn E. assert (i64_try_from n = Some (Z.of_N n)) as E' by (by apply i64_try_from_Some). congruence.
Qed.

Lemma option_ge_true lower value : option_ge lower value = true ↔ ∀ t, value = Some t → (lower ≤ t)%Z.
Proof.
  destruct value as [v|]; cbn; [|naive_solver]. rewrite Z.leb_le. split; [by intros ? ? [= <-]|by intros H; apply H].
Qed.

Lemma coherent_iff n (t : option Z) z : z = Z.of_N n → Bool.eqb (n =? 0)%N (bool_decide (t = None)) = true ↔ (z = 0%Z ↔ t = None).
Proof.
  intros ->. rewrite eqb_true_iff. assert (Z.of_N n = 0%Z ↔ n = 0%N) as -> by lia.
  destruct (N.eqb_spec n 0), (bool_decide_reflect (t = None)); naive_solver.
Qed.

Lemma validate_total m : validate m = Ok tt ∨ ∃ e, validate m = Err e.
Proof. destruct (validate m) as [[]|e]; eauto. Qed.

(** [validate_record] of a stored memory, as a proposition. *)
Lemma validate_stored_iff id row m :
  in_range row → from_str (MemoryRow.metadata row) = Some m →
  validate_record (StoredMemory.record (stored id row m)) MemoryRecordScope.Local limits = Ok tt ↔ row_ok id row.
Proof.
  intros (Hv & Hs & Hu) Hm. unfold validate_record. rewrite reject_if_Ok.
  destruct (as_u64_small _ (conj (Z.lt_le_incl _ _ (proj1 Hv)) (proj2 Hv))) as [Ev Ev'].
  destruct (as_u64_small _ Hs) as [Es Es']. destruct (as_u64_small _ Hu) as [Eu Eu'].
  unfold stored, StoredMemory.record, StoredMemory.key. cbn.
  assert (∀ b c : bool, b || c = false ↔ b = false ∧ c = false) as Hor by (intros [] []; naive_solver).
  rewrite !Hor, !exceeds_i64_false, !negb_false_iff. unfold times_valid. cbn.
  rewrite !andb_true_iff, !option_ge_true, Z.leb_gt, N.eqb_neq, N.ltb_ge, !Z.leb_le, orb_true_iff, bool_decide_eq_true.
  rewrite !(coherent_iff _ _ _ (eq_sym Es')), !(coherent_iff _ _ _ (eq_sym Eu')), N.eqb_eq.
  assert (as_u64 (MemoryRow.use_count row) = 0%N ↔ MemoryRow.use_count row = 0%Z) as -> by (clear -Eu'; lia).
  split.
  - intros (((((((((((((H1 & H2) & H3) & H4) & H5) & _) & _) & H6) & H7) & H8) & H9) & H10) & H11) & H12).
    destruct H8 as ((((H81 & H82) & H83) & H84) & H85).
    split; [done|done|done|done|done|done|split; [exact H81|exact H82]|done|done|done|done|done|done|].
    exists m. split; [done|]. by destruct (validate m) as [[]|].
  - intros H. destruct (ro_metadata _ _ H) as (m' & E & Hval). rewrite Hm in E. injection E as <-.
    assert (∀ z, (0 ≤ z ≤ MAX_I64)%Z → (as_u64 z ≤ i64_MAX)%N) as Hle.
    { intros z Hz. destruct (as_u64_small z Hz) as [-> _]. clear -Hz. unfold MAX_I64, i64_MAX in *. lia. }
    repeat apply conj; try apply H; try apply Hle; try done.
    + clear -Ev' Hv. lia.
    + clear -Hv. lia.
    + by rewrite Hval.
Qed.

Lemma row_ok_range id row : row_ok id row → in_range row.
Proof. intros H. split_and!; apply H. Qed.

Lemma row_ok_load id row : row_ok id row → ∃ m, from_str (MemoryRow.metadata row) = Some m ∧ load_row limits id row = Ok (stored id row m).
Proof.
  intros H. destruct (ro_metadata _ _ H) as (m & Hm & _). exists m. split; [done|].
  unfold load_row, row_to_memory. rewrite Hm. cbn. unfold validate_loaded. fold (stored id row m).
  by rewrite (proj2 (validate_stored_iff _ _ _ (row_ok_range _ _ H) Hm) H).
Qed.

Lemma load_row_ok id row m : in_range row → load_row limits id row = Ok m → row_ok id row.
Proof.
  intros Hr. unfold load_row, row_to_memory. intros (m' & (md & Hmd%ok_or_Ok & Hm')%rbind_Ok & H)%rbind_Ok.
  apply Ok_inj in Hm'. subst m'. unfold validate_loaded in H. apply rbind_Ok in H as ([] & Hv & _).
  by eapply validate_stored_iff.
Qed.
End rows.

(** ** The tables *)

Lemma map_sum_filter `{Countable K} {V} (f : V → N) (P : K * V → Prop) `{!∀ x, Decision (P x)} (m : gmap K V) :
  (map_sum f (base.filter P m) ≤ map_sum f m)%N.
Proof.
  induction m as [|k v m Hk IH] using map_ind; [rewrite map_filter_empty; lia|].
  rewrite map_sum_insert_new by done. destruct (decide (P (k, v))) as [Hp|Hp].
  - rewrite map_filter_insert_True by done.
    rewrite map_sum_insert_new; [lia|]. apply map_lookup_filter_None. by left.
  - rewrite map_filter_insert_False by done. rewrite delete_id by done. lia.
Qed.

Lemma map_size_filter `{Countable K} {V} (P : K * V → Prop) `{!∀ x, Decision (P x)} (m : gmap K V) :
  size (base.filter P m) ≤ size m.
Proof. apply map_subseteq_size, map_filter_subseteq. Qed.

Section tables.
Context {TXT : MemoryText} {UNI : Unicode} {FLT : Float64} {SHA : Sha256}.
Variable limits : MemoryLimits.t.
Implicit Types (db : MemoryDb) (row : MemoryRow.t) (id : Z).

Lemma identity_taken_false db ident ex :
  identity_taken db ident ex = false ↔
  ∀ id row, memories db !! id = Some row → MemoryRow.normalized_identity row = ident → ex = Some id.
Proof.
  unfold identity_taken. rewrite <-not_true_iff_false, existsb_exists. split.
  - intros H id row Hl E. destruct (decide (ex = Some id)) as [|Hne]; [done|]. destruct H. exists (id, row).
    rewrite <-list_elem_of_In, elem_of_btree_iter. split; [done|]. cbn. apply andb_true_iff. split.
    + by apply bool_decide_eq_true.
    + by apply negb_true_iff, bool_decide_eq_false.
  - intros H ([id row] & Hin & [E%bool_decide_eq_true Hx%negb_true_iff%bool_decide_eq_false]%andb_true_iff).
    apply list_elem_of_In, elem_of_btree_iter in Hin. by apply Hx, (H id row).
Qed.

Lemma max_id_spec db :
  (memories db = ∅ ∧ max_id db = 0%Z) ∨
  (is_Some (memories db !! max_id db) ∧ ∀ id, is_Some (memories db !! id) → (id ≤ max_id db)%Z).
Proof.
  unfold max_id. destruct (last (btree_keys (memories db))) as [z|] eqn:Hl; cbn.
  - right. pose proof Hl as Hin. apply last_Some_elem_of in Hin. split; [by apply elem_of_btree_keys|].
    intros id Hid%elem_of_btree_keys. pose proof (btree_iter_sorted (memories db)) as Hs. fold (btree_keys (memories db)) in Hs.
    apply last_Some in Hl as [l El]. rewrite El in Hid, Hs. apply elem_of_app in Hid as [Hid|Hid%list_elem_of_singleton]; [|lia].
    eapply (StronglySorted_app_1_elem_of Z.le); [exact Hs|done|by left].
  - left. split; [|done]. apply map_eq. intros id. rewrite lookup_empty.
    destruct (memories db !! id) as [row|] eqn:E; [|done]. assert (id ∈ btree_keys (memories db)) as Hin.
    { apply elem_of_btree_keys. by eexists. }
    apply last_None in Hl. rewrite Hl in Hin. by apply elem_of_nil in Hin.
Qed.

(** Records that were not transferred from another store. *)
Definition plain (m : MemoryMetadata.t) : Prop :=
  MemoryMetadata.transferred_from m = [] ∧ MemoryMetadata.imported_from m = [].

Record memories_ok db : Prop := {
  mo_row id row : memories db !! id = Some row → row_ok limits id row ∧ (id < next_id db)%Z;
  mo_next : (0 < next_id db ≤ MAX_I64)%Z;
  mo_unique id id' row row' : memories db !! id = Some row → memories db !! id' = Some row' →
    MemoryRow.normalized_identity row = MemoryRow.normalized_identity row' → id = id';
  mo_identity id row m : memories db !! id = Some row → from_str (MemoryRow.metadata row) = Some m → plain m →
    MemoryRow.normalized_identity row = identity m (MemoryRow.content row);
  mo_records : (total_records db ≤ MemoryLimits.records limits)%N;
  mo_bytes : (total_content_bytes db ≤ MemoryLimits.total_content_bytes limits)%N;
}.

Lemma empty_memories_ok : memories_ok empty_memories.
Proof.
  split; try (intros *; cbn; rewrite lookup_empty; done); [done|..].
  - unfold total_records, empty_memories. cbn [memories]. rewrite map_size_empty. lia.
  - unfold total_content_bytes, empty_memories. cbn [memories]. rewrite map_sum_empty. lia.
Qed.

(** One row is written. *)
Lemma ok_write db id row next :
  memories_ok db → row_ok limits id row → (id < next)%Z → (next_id db ≤ next ≤ MAX_I64)%Z →
  identity_taken db (MemoryRow.normalized_identity row) (Some id) = false →
  (∀ m, from_str (MemoryRow.metadata row) = Some m → plain m →
     MemoryRow.normalized_identity row = identity m (MemoryRow.content row)) →
  (total_records (mk_memory_db (<[id := row]> (memories db)) next) ≤ MemoryLimits.records limits)%N →
  (total_content_bytes (mk_memory_db (<[id := row]> (memories db)) next) ≤ MemoryLimits.total_content_bytes limits)%N →
  memories_ok (mk_memory_db (<[id := row]> (memories db)) next).
Proof.
  intros Hok Hrow Hid Hnext Hfree Hident Hrec Hbytes. rewrite identity_taken_false in Hfree.
  pose proof (mo_next _ Hok). split; cbn; try done; [|lia| |].
  - intros id' row' [[<- <-]|[Hne Hl]]%lookup_insert_Some; [done|].
    destruct (mo_row _ Hok _ _ Hl). split; [done|lia].
  - intros id1 id2 r1 r2 [[<- <-]|[Hne1 H1]]%lookup_insert_Some [[<- <-]|[Hne2 H2]]%lookup_insert_Some E; [done| | |].
    + specialize (Hfree _ _ H2 (eq_sym E)). naive_solver.
    + specialize (Hfree _ _ H1 E). naive_solver.
    + by eapply (mo_unique _ Hok).
  - intros id' row' m [[<- <-]|[Hne Hl]]%lookup_insert_Some; [by apply Hident|]. by eapply mo_identity.
Qed.

(** Rows disappear. *)
Lemma ok_subset db m : memories_ok db → m ⊆ memories db → (total_content_bytes (db <| memories := m |>) ≤ total_content_bytes db)%N →
  memories_ok (db <| memories := m |>).
Proof.
  intros Hok Hm Hb. unfold put in *; cbn in *. split; cbn.
  - intros id row Hl. by eapply (mo_row _ Hok), lookup_weaken.
  - apply Hok.
  - intros id id' row row' H1 H2. apply (mo_unique _ Hok); by eapply lookup_weaken.
  - intros id row md Hl. eapply (mo_identity _ Hok). by eapply lookup_weaken.
  - pose proof (mo_records _ Hok). unfold total_records in *. cbn in *.
    pose proof (map_subseteq_size _ _ Hm). lia.
  - pose proof (mo_bytes _ Hok). unfold total_content_bytes in *. cbn in *. lia.
Qed.

Lemma ok_prune db now_ms : memories_ok db → memories_ok (prune_expired db now_ms).
Proof.
  intros Hok. apply ok_subset; [done|apply map_filter_subseteq|]. apply map_sum_filter.
Qed.

Lemma prune_lookup db now_ms id row :
  memories (prune_expired db now_ms) !! id = Some row ↔ memories db !! id = Some row ∧ expired now_ms row = false.
Proof. unfold prune_expired, put. cbn. apply map_lookup_filter_Some. Qed.

Lemma in_i64_true z : in_i64 z = true ↔ (- 2 ^ 63 ≤ z < 2 ^ 63)%Z.
Proof. unfold in_i64. rewrite andb_true_iff, Z.leb_le, Z.ltb_lt. done. Qed.
Lemma i64_checked_add_Some x y z : i64_checked_add x y = Some z ↔ (- 2 ^ 63 ≤ x + y < 2 ^ 63)%Z ∧ z = (x + y)%Z.
Proof. unfold i64_checked_add. rewrite <-in_i64_true. destruct (in_i64 (x + y)); naive_solver. Qed.

Lemma max_id_below db : memories_ok db → (0 ≤ max_id db < next_id db)%Z.
Proof.
  intros Hok. pose proof (mo_next _ Hok). destruct (max_id_spec db) as [[_ ->]|[[row Hl] _]]; [lia|].
  destruct (mo_row _ Hok _ _ Hl) as [Hr Hn]. pose proof (ro_id _ _ _ Hr). lia.
Qed.

(** In a store that is well formed, opening changes nothing. *)
Lemma open_ok db : memories_ok db → open db = Ok db.
Proof.
  intros Hok. pose proof (max_id_below _ Hok). pose proof (mo_next _ Hok). unfold MAX_I64 in *. unfold open.
  assert (i64_checked_add (max_id db) 1 = Some (max_id db + 1)%Z) as -> by (apply i64_checked_add_Some; lia).
  cbn. destruct (Z.ltb_spec (next_id db) (max_id db + 1)); [lia|done].
Qed.

Lemma allocate_id_Ok db id : memories_ok db → allocate_id db = Ok id → id = next_id db ∧ (id + 1 ≤ MAX_I64)%Z.
Proof.
  intros Hok. pose proof (max_id_below _ Hok). pose proof (mo_next _ Hok). unfold allocate_id, MAX_I64 in *.
  intros (m & [_ ->]%ok_or_Ok%i64_checked_add_Some & Ha)%rbind_Ok.
  apply rbind_Ok in Ha as (n & [Hn _]%ok_or_Ok%i64_checked_add_Some & <-%Ok_inj). lia.
Qed.

(** ** Loading *)

Lemma load_all_ok db :
  memories_ok db → ∃ l, load_all limits db = Ok l ∧
    (∀ m, m ∈ l ↔ ∃ id row md, memories db !! id = Some row ∧ from_str (MemoryRow.metadata row) = Some md ∧ m = stored id row md) ∧
    StoredMemory.id <$> l = btree_keys (memories db).
Proof.
  intros Hok. unfold load_all, btree_keys.
  assert (∀ todo acc, (∀ e, e ∈ todo → memories db !! e.1 = Some e.2) → ∃ l,
    for_each (λ l entry, let? memory := load_row limits entry.1 entry.2 in Ok (l ++ [memory])) acc todo = Ok (acc ++ l) ∧
    Forall2 (λ (e : Z * MemoryRow.t) m, ∃ md, from_str (MemoryRow.metadata e.2) = Some md ∧ m = stored e.1 e.2 md) todo l) as Hgen.
  { induction todo as [|[id row] todo IH]; intros acc Hin; [exists []; by rewrite app_nil_r|].
    destruct (row_ok_load limits id row) as (md & Hmd & Hload).
    { eapply mo_row; [done|]. apply (Hin (id, row)). left. }
    cbn [for_each fst snd]. rewrite Hload. cbn.
    destruct (IH (acc ++ [stored id row md])) as (l & -> & Hl); [intros e He; apply Hin; by right|].
    exists (stored id row md :: l). rewrite <-app_assoc. split; [done|]. constructor; [by exists md|done]. }
  destruct (Hgen (btree_iter (memories db)) []) as (l & Hl & Hf).
  { intros [id row]. by rewrite elem_of_btree_iter. }
  exists l. split_and!; [done| |].
  - intros m. rewrite list_elem_of_lookup. split.
    + intros [i Hi]. destruct (Forall2_lookup_r _ _ _ _ _ Hf Hi) as ([id row] & Hk & md & Hmd & ->).
      exists id, row, md. split_and!; [|done|done]. apply elem_of_btree_iter. by eapply list_elem_of_lookup_2.
    + intros (id & row & md & Hr & Hmd & ->). apply elem_of_btree_iter, list_elem_of_lookup_1 in Hr as [i Hi].
      destruct (Forall2_lookup_l _ _ _ _ _ Hf Hi) as (m & Hm & md' & Hmd' & ->). exists i.
      cbn in Hmd'. rewrite Hmd in Hmd'. by injection Hmd' as <-.
  - clear Hl. induction Hf as [|e m todo l (md & _ & ->) _ IH]; cbn; [done|]. by rewrite IH.
Qed.

Lemma load_one_ok db id :
  memories_ok db →
  (memories db !! id = None ∧ load_one limits db id = Ok None) ∨
  ∃ row md, memories db !! id = Some row ∧ from_str (MemoryRow.metadata row) = Some md ∧
    load_one limits db id = Ok (Some (stored id row md)).
Proof.
  intros Hok. unfold load_one. destruct (memories db !! id) as [row|] eqn:Hl; [right|by left].
  destruct (row_ok_load limits id row) as (md & Hmd & Hload); [by eapply mo_row|].
  exists row, md. split_and!; [done..|]. by rewrite Hload.
Qed.

Lemma found_load_one db id m :
  found (load_one limits db id) = Ok m → ∃ row, memories db !! id = Some row ∧ load_row limits id row = Ok m.
Proof.
  unfold found, load_one. intros (o & Ho & Hm%ok_or_Ok)%rbind_Ok. subst o.
  destruct (memories db !! id) as [row|]; [|done]. apply rbind_Ok in Ho as (m' & Hm & [= ->]%Ok_inj). eauto.
Qed.

Lemma load_row_id id row m : load_row limits id row = Ok m → StoredMemory.id m = id.
Proof.
  unfold load_row, row_to_memory, validate_loaded. intros (m' & (md & _ & <-%Ok_inj)%rbind_Ok & H)%rbind_Ok.
  by apply rbind_Ok in H as ([] & _ & <-%Ok_inj).
Qed.

Lemma update_row_Ok db id f db' :
  update_row db id f = Ok db' →
  (memories db !! id = None ∧ db' = db) ∨
  ∃ row, memories db !! id = Some row ∧ identity_taken db (MemoryRow.normalized_identity (f row)) (Some id) = false ∧
    MemoryRow.checks (f row) = true ∧ db' = mk_memory_db (<[id := f row]> (memories db)) (next_id db).
Proof.
  unfold update_row. destruct (memories db !! id) as [row|]; [|by intros <-%Ok_inj; left].
  intros ([] & [Hi Hc%negb_false_iff]%reject_if_Ok%orb_false_iff & <-%Ok_inj)%rbind_Ok. right. by exists row.
Qed.

Lemma insert_allocated_Ok db id row db' :
  insert_allocated db id row = Ok db' →
  (next_id db ≤ id)%Z ∧ memories db !! id = None ∧ identity_taken db (MemoryRow.normalized_identity row) None = false ∧
  MemoryRow.checks row = true ∧ db' = mk_memory_db (<[id := row]> (memories db)) (id + 1).
Proof.
  unfold insert_allocated, insert_row. intros ([] & Hlt%reject_if_Ok%Z.ltb_ge & H)%rbind_Ok.
  apply rbind_Ok in H as (db1 & H1 & H). apply rbind_Ok in H1 as ([] & Hc%reject_if_Ok & <-%Ok_inj).
  apply orb_false_iff in Hc as [[Hn%bool_decide_eq_false Hi]%orb_false_iff Hc%negb_false_iff].
  unfold put in H; cbn in H. destruct (Z.leb_spec (next_id db) id); [|lia]. apply Ok_inj in H as <-.
  split_and!; [done| |done..]. by apply eq_None_not_Some.
Qed.
End tables.

(** ** Operations *)

Section operations.
Context {TXT : MemoryText} {UNI : Unicode} {FLT : Float64} {SHA : Sha256} {TXTOK : MemoryTextOk}.
Variable limits : MemoryLimits.t.
Implicit Types (db : MemoryDb) (row : MemoryRow.t) (id : Z).

(** What a store keeps of its rows: none returns under an identifier that was given
    before, and a version names one content. *)
Record evolves db db' : Prop := {
  ev_next : (next_id db ≤ next_id db')%Z;
  ev_row id row' : memories db' !! id = Some row' → (id < next_id db)%Z → ∃ row,
    memories db !! id = Some row ∧ (MemoryRow.version row ≤ MemoryRow.version row')%Z ∧
    (MemoryRow.version row = MemoryRow.version row' →
       MemoryRow.content row' = MemoryRow.content row ∧ MemoryRow.metadata row' = MemoryRow.metadata row ∧
       MemoryRow.normalized_identity row' = MemoryRow.normalized_identity row);
}.

Lemma evolves_refl db : evolves db db.
Proof. split; [done|]. intros id row' Hl _. by exists row'. Qed.

Lemma evolves_trans db1 db2 db3 : evolves db1 db2 → evolves db2 db3 → evolves db1 db3.
Proof.
  intros [Hn1 H1] [Hn2 H2]. split; [lia|]. intros id row3 Hl3 Hid.
  destruct (H2 _ _ Hl3 ltac:(lia)) as (row2 & Hl2 & Hv2 & He2).
  destruct (H1 _ _ Hl2 Hid) as (row1 & Hl1 & Hv1 & He1). exists row1. split_and!; [done|lia|].
  intros E. destruct He2 as (-> & -> & ->); [lia|]. apply He1. lia.
Qed.

Lemma evolves_subset db m : m ⊆ memories db → evolves db (db <| memories := m |>).
Proof. intros Hm. split; [done|]. intros id row' Hl _. exists row'. split_and!; [by eapply lookup_weaken|done|done]. Qed.

Lemma evolves_prune db now_ms : evolves db (prune_expired db now_ms).
Proof. apply evolves_subset, map_filter_subseteq. Qed.

(** A row at the end of the table, or in the place of one of a smaller version. *)
Lemma evolves_write db id row next :
  (next_id db ≤ next)%Z →
  ((next_id db ≤ id)%Z ∨ ∃ old, memories db !! id = Some old ∧ (MemoryRow.version old ≤ MemoryRow.version row)%Z ∧
     (MemoryRow.version old = MemoryRow.version row →
       MemoryRow.content row = MemoryRow.content old ∧ MemoryRow.metadata row = MemoryRow.metadata old ∧
       MemoryRow.normalized_identity row = MemoryRow.normalized_identity old)) →
  evolves db (mk_memory_db (<[id := row]> (memories db)) next).
Proof.
  intros Hn Hrow. split; [done|]. cbn. intros id' row' [[<- <-]|[Hne Hl]]%lookup_insert_Some Hid; [|by exists row'].
  destruct Hrow as [?|(old & ? & ? & ?)]; [lia|by exists old].
Qed.

Lemma sum_replace db id row old :
  memories db !! id = Some old →
  (total_content_bytes (mk_memory_db (<[id := row]> (memories db)) (next_id db)) + str_len (MemoryRow.content old)
   = total_content_bytes db + str_len (MemoryRow.content row))%N.
Proof.
  intros Hl. unfold total_content_bytes. cbn.
  pose proof (map_sum_insert (λ row, str_len (MemoryRow.content row)) (memories db) id row) as H.
  rewrite Hl in H. exact H.
Qed.

(** A row changes its counters. *)
Lemma ok_touch db id row row' :
  memories_ok limits db → memories db !! id = Some row → row_ok limits id row' →
  MemoryRow.content row' = MemoryRow.content row → MemoryRow.metadata row' = MemoryRow.metadata row →
  MemoryRow.normalized_identity row' = MemoryRow.normalized_identity row →
  MemoryRow.version row' = MemoryRow.version row →
  memories_ok limits (mk_memory_db (<[id := row']> (memories db)) (next_id db)) ∧
  evolves db (mk_memory_db (<[id := row']> (memories db)) (next_id db)).
Proof.
  intros Hok Hl Hrow Hc Hm Hi Hv. split.
  - apply ok_write; [done|done|by eapply mo_row| | | | |].
    + pose proof (mo_next _ _ Hok). lia.
    + rewrite identity_taken_false. intros id2 r2 H2 E. f_equal. eapply (mo_unique _ _ Hok); [done..|]. congruence.
    + rewrite Hm, Hi, Hc. intros m. by apply (mo_identity _ _ Hok id row).
    + pose proof (mo_records _ _ Hok). unfold total_records in *. cbn. rewrite map_size_insert_Some; [done|by eexists].
    + pose proof (mo_bytes _ _ Hok). pose proof (sum_replace _ _ row' _ Hl) as E. rewrite Hc in E. lia.
  - apply evolves_write; [done|]. right. exists row. split_and!; [done|lia|done].
Qed.

Lemma row_ok_scanned id row t :
  row_ok limits id row → (MemoryRow.scan_count row < MAX_I64)%Z → (MemoryRow.updated_at_ms row ≤ t)%Z →
  row_ok limits id (row <| MemoryRow.last_scanned_at_ms := Some t |> <| MemoryRow.scan_count := MemoryRow.scan_count row + 1 |>)%Z.
Proof.
  intros H Hlt Ht. pose proof (ro_scan_count _ _ _ H). unfold put; cbn.
  split; cbn; try apply H; try lia; [by intros ? [= <-]|split; [lia|done]].
Qed.

Lemma row_ok_read id row t :
  row_ok limits id row → (MemoryRow.use_count row < MAX_I64)%Z → (MemoryRow.updated_at_ms row ≤ t)%Z →
  row_ok limits id (row <| MemoryRow.last_used_at_ms := Some t |> <| MemoryRow.use_count := MemoryRow.use_count row + 1 |>
                        <| MemoryRow.probation_until_ms := None |>)%Z.
Proof.
  intros H Hlt Ht. pose proof (ro_use_count _ _ _ H). unfold put; cbn.
  split; cbn; try apply H; try lia; try done; [by intros ? [= <-]|split; [lia|done]|by left].
Qed.

Lemma record_scan_keeps now_ms db candidate db' :
  memories_ok limits db → record_scan now_ms db candidate = Ok db' → memories_ok limits db' ∧ evolves db db'.
Proof.
  intros Hok. unfold record_scan. set (id := MemoryKey.id _).
  intros ([] & Hc%reject_if_Ok & [[Hn ->]|(row & Hl & _ & _ & ->)]%update_row_Ok)%rbind_Ok.
  { split; [done|apply evolves_refl]. }
  rewrite Hl in Hc. apply negb_false_iff, Z.ltb_lt in Hc.
  apply (ok_touch db id row); try done. apply row_ok_scanned; [by eapply mo_row|done|lia].
Qed.

Lemma scan_keeps db query limit now_ms scope db' scan :
  memories_ok limits db → scan_filtered limits db query limit now_ms scope = Ok (db', scan) →
  memories_ok limits db' ∧ evolves db db'.
Proof.
  intros Hok. unfold scan_filtered. intros ([] & _ & H)%rbind_Ok. rewrite (open_ok limits) in H by done. cbn in H.
  apply rbind_Ok in H as (all & _ & H). apply rbind_Ok in H as (db1 & Hf & [= <- _]%Ok_inj).
  eapply (for_each_inv (λ _ db1, memories_ok limits db1 ∧ evolves db db1)) in Hf; [done|..].
  - split; [by apply ok_prune|apply evolves_prune].
  - intros _ c d d' _ [Hd He] Hs. destruct (record_scan_keeps _ _ _ _ Hd Hs). split; [done|by eapply evolves_trans].
Qed.

Lemma read_reference_keeps now_ms scope db seen records reference db' seen' records' :
  memories_ok limits db → read_reference limits now_ms scope (db, seen, records) reference = Ok (db', seen', records') →
  memories_ok limits db' ∧ evolves db db'.
Proof.
  intros Hok. unfold read_reference. destruct reference as [id version].
  destruct (load_one_ok limits db id Hok) as [[Hn ->]|(row & md & Hl & Hmd & ->)]; cbn [rbind].
  { intros [= <- _ _]%Ok_inj. split; [done|apply evolves_refl]. }
  destruct (_ || _). { intros [= <- _ _]%Ok_inj. split; [done|apply evolves_refl]. }
  destruct (bool_decide _). { intros [= <- _ _]%Ok_inj. split; [done|apply evolves_refl]. }
  rewrite Hl. intros ([] & Hc%reject_if_Ok%negb_false_iff%Z.ltb_lt & H)%rbind_Ok.
  apply rbind_Ok in H as (db1 & [[Hnone _]|(row1 & Hl1 & _ & _ & ->)]%update_row_Ok & H); [congruence|].
  apply rbind_Ok in H as (n & _ & [= <- _ _]%Ok_inj).
  assert (row1 = row) as -> by congruence.
  apply (ok_touch db id row); try done. apply row_ok_read; [by eapply mo_row|done|cbn; lia].
Qed.

Lemma read_keeps db references now_ms scope db' records :
  memories_ok limits db → read_filtered limits db references now_ms scope = Ok (db', records) →
  memories_ok limits db' ∧ evolves db db'.
Proof.
  intros Hok. unfold read_filtered. rewrite (open_ok limits) by done. cbn.
  intros ([[db1 seen] rs] & Hf & [= <- _]%Ok_inj)%rbind_Ok.
  eapply (for_each_inv (λ _ (acc : Reading), memories_ok limits acc.1.1 ∧ evolves db acc.1.1)) in Hf; [done|..].
  - split; [by apply ok_prune|apply evolves_prune].
  - intros _ r [[d s] l] [[d' s'] l'] _ [Hd He] Hs. cbn in *.
    destruct (read_reference_keeps _ _ _ _ _ _ _ _ _ Hd Hs). split; [done|by eapply evolves_trans].
Qed.

Lemma list_keeps db now_ms db' records :
  memories_ok limits db → list_local limits db now_ms = Ok (db', records) →
  db' = prune_expired db now_ms ∧ memories_ok limits db' ∧ evolves db db'.
Proof.
  intros Hok. unfold list_local. rewrite (open_ok limits) by done. cbn.
  intros (all & _ & [= <- _]%Ok_inj)%rbind_Ok. split_and!; [done|by apply ok_prune|apply evolves_prune].
Qed.

Lemma delete_keeps db key db' :
  memories_ok limits db → delete_local db key = Ok db' → memories_ok limits db' ∧ evolves db db'.
Proof.
  intros Hok. unfold delete_local. rewrite (open_ok limits) by done. cbn [rbind].
  destruct (memories db !! _) as [row|] eqn:Hl; [|by intros <-%Ok_inj; split; [|apply evolves_refl]].
  intros ([] & _ & <-%Ok_inj)%rbind_Ok. split; [|apply evolves_subset, delete_subseteq].
  apply ok_subset; [done|apply delete_subseteq|]. unfold total_content_bytes, put. cbn.
  rewrite <-(insert_delete_id (memories db) (MemoryKey.id key) row) at 2 by done.
  rewrite map_sum_insert_new by apply lookup_delete_eq. lia.
Qed.

(** ** Writing *)

Hypothesis bounded : (MemoryLimits.total_content_bytes limits < u64_MAX)%N.

Lemma capacity_Ok current replaced new u :
  (replaced ≤ current)%N → check_content_capacity limits current replaced new = Ok u →
  (current - replaced + new ≤ MemoryLimits.total_content_bytes limits)%N.
Proof.
  intros Hr. unfold check_content_capacity, u64_saturating_add, saturating_sub. rewrite reject_if_Ok, N.ltb_ge.
  clear -bounded. unfold u64_MAX in *. lia.
Qed.

(** The row [insert] writes. *)
Definition new_row (content ident : string) (now_ms : Z) : MemoryRow.t :=
  MemoryRow.mk content ident now_ms now_ms None 0 None 0
    (Some (i64_saturating_add now_ms (MemoryLimits.probation_duration_ms limits))) 1 "{}".

Lemma insert_Ok db content ident now_ms db' m :
  memories_ok limits db → insert limits db content ident now_ms = Ok (db', m) →
  let id := next_id db in
  db' = mk_memory_db (<[id := new_row content ident now_ms]> (memories db)) (id + 1) ∧
  StoredMemory.id m = id ∧ (id + 1 ≤ MAX_I64)%Z ∧ memories db !! id = None ∧
  identity_taken db ident None = false ∧ (total_records db < MemoryLimits.records limits)%N ∧
  (total_content_bytes db + str_len content ≤ MemoryLimits.total_content_bytes limits)%N.
Proof.
  intros Hok. unfold insert. intros ([] & Hi%reject_if_Ok & H)%rbind_Ok.
  apply rbind_Ok in H as ([] & Hr%reject_if_Ok%N.leb_gt & H). apply rbind_Ok in H as ([] & Hc%capacity_Ok & H); [|lia].
  apply rbind_Ok in H as (id & [-> Hid]%(allocate_id_Ok limits) & H); [|done].
  apply rbind_Ok in H as (db1 & (_ & Hn & _ & _ & ->)%insert_allocated_Ok & H).
  apply rbind_Ok in H as (m1 & (row & _ & Hm%load_row_id)%found_load_one & [= <- <-]%Ok_inj).
  split_and!; try done. lia.
Qed.

Definition replaced_row (row : MemoryRow.t) (content ident : string) (now_ms : Z) : MemoryRow.t :=
  MemoryRow.mk content ident (MemoryRow.created_at_ms row) now_ms None 0 None 0
    (Some (i64_saturating_add now_ms (MemoryLimits.probation_duration_ms limits)))
    (MemoryRow.version row + 1) (MemoryRow.metadata row).

Lemma row_bytes db id row : memories db !! id = Some row → (str_len (MemoryRow.content row) ≤ total_content_bytes db)%N.
Proof.
  intros Hl. unfold total_content_bytes. rewrite <-(insert_delete_id (memories db) id row) by done.
  rewrite map_sum_insert_new by apply lookup_delete_eq. lia.
Qed.

Lemma replace_Ok db content ident key now_ms db' m :
  memories_ok limits db → replace limits db content ident key now_ms = Ok (db', m) →
  ∃ row, memories db !! MemoryKey.id key = Some row ∧ as_u64 (MemoryRow.version row) = MemoryKey.version key ∧
    db' = mk_memory_db (<[MemoryKey.id key := replaced_row row content ident now_ms]> (memories db)) (next_id db) ∧
    StoredMemory.id m = MemoryKey.id key ∧ (MemoryRow.version row + 1 ≤ MAX_I64)%Z ∧
    identity_taken db ident (Some (MemoryKey.id key)) = false ∧
    (total_content_bytes db - str_len (MemoryRow.content row) + str_len content
       ≤ MemoryLimits.total_content_bytes limits)%N.
Proof.
  intros Hok. unfold replace. destruct (memories db !! _) as [row|] eqn:Hl; [|done].
  intros ([] & Hv%reject_if_Ok%negb_false_iff%N.eqb_eq & H)%rbind_Ok.
  apply rbind_Ok in H as ([] & Hi%reject_if_Ok & H). apply rbind_Ok in H as ([] & Hc%capacity_Ok & H); [|by eapply row_bytes].
  apply rbind_Ok in H as (v & [Hr ->]%ok_or_Ok%i64_checked_add_Some & H).
  apply rbind_Ok in H as (db1 & [[Hnone _]|(row1 & Hl1 & _ & _ & ->)]%update_row_Ok & H); [congruence|].
  apply rbind_Ok in H as (m1 & (row2 & _ & Hm%load_row_id)%found_load_one & [= <- <-]%Ok_inj).
  assert (row1 = row) as -> by congruence. exists row. split_and!; try done. unfold MAX_I64. lia.
Qed.

Lemma save_metadata_Ok db id metadata db' row :
  memories db !! id = Some row → save_metadata db id metadata = Ok db' →
  db' = mk_memory_db (<[id := row <| MemoryRow.metadata := to_string metadata |>]> (memories db)) (next_id db).
Proof.
  intros Hl. unfold save_metadata. intros [[Hnone _]|(row1 & Hl1 & _ & _ & ->)]%update_row_Ok; [congruence|].
  by assert (row1 = row) as -> by congruence.
Qed.

Lemma load_row_stored id row m md :
  load_row limits id row = Ok m → from_str (MemoryRow.metadata row) = Some md → m = stored id row md.
Proof.
  unfold load_row, row_to_memory, validate_loaded. intros (m' & (md' & Hmd%ok_or_Ok & <-%Ok_inj)%rbind_Ok & H)%rbind_Ok E.
  apply rbind_Ok in H as ([] & _ & <-%Ok_inj). rewrite Hmd in E. by injection E as ->.
Qed.

(** What [put] leaves: one row, loaded again. *)
Record written db db' (content : string) (md : MemoryMetadata.t) (r : MemoryRecord.t) id row : Prop := {
  wr_db : db' = mk_memory_db (<[id := row]> (memories db)) (Z.max (next_id db) (id + 1));
  wr_record : r = StoredMemory.record (stored id row md);
  wr_row : row_ok limits id row;
  wr_content : MemoryRow.content row = content;
  wr_metadata : MemoryRow.metadata row = to_string md;
  wr_valid : validate md = Ok tt;
  wr_identity : MemoryRow.normalized_identity row = identity md content;
  wr_unused : MemoryRow.use_count row = 0%Z ∧ MemoryRow.scan_count row = 0%Z;
}.

Lemma put_Ok db content metadata replacement now_ms drawn db' r :
  memories_ok limits db → put_metadata_local limits db content metadata replacement now_ms drawn = Ok (db', r) →
  let db0 := prune_expired db now_ms in
  validate_authored_content limits content metadata = Ok tt ∧
  ∃ ownership id row, written db0 db' content (metadata <| MemoryMetadata.ownership_id := Some ownership |>) r id row ∧
    identity_taken db0 (MemoryRow.normalized_identity row) (MemoryKey.id <$> replacement) = false ∧
    (total_content_bytes db' ≤ MemoryLimits.total_content_bytes limits)%N ∧
    match replacement with
    | None => ownership = drawn ∧ id = next_id db0 ∧ (id + 1 ≤ MAX_I64)%Z ∧ MemoryRow.version row = 1%Z ∧
        (total_records db0 < MemoryLimits.records limits)%N
    | Some key => id = MemoryKey.id key ∧ ∃ old, memories db0 !! id = Some old ∧
        as_u64 (MemoryRow.version old) = MemoryKey.version key ∧ MemoryRow.version row = (MemoryRow.version old + 1)%Z ∧
        MemoryRow.created_at_ms row = MemoryRow.created_at_ms old
    end.
Proof.
  intros Hok. unfold put_metadata_local. intros ([] & Hauth & H)%rbind_Ok. rewrite (open_ok limits) in H by done.
  cbn [rbind] in H. apply rbind_Ok in H as (ownership & Hown & H). apply rbind_Ok in H as ([] & Hv & H).
  set (db0 := prune_expired db now_ms) in *. set (md := metadata <| MemoryMetadata.ownership_id := _ |>) in *.
  assert (Hok0 : memories_ok limits db0) by (by apply ok_prune). pose proof (mo_next _ _ Hok0) as Hnext.
  clearbody db0. split; [done|]. exists ownership. destruct replacement as [key|].
  - apply rbind_Ok in H as ([db1 m] & Hr & H).
    apply replace_Ok in Hr as (old & Hl & Hver & -> & Hm & Hmax & Hi & Hb); [|done].
    rewrite Hm in H. apply rbind_Ok in H as (db2 & Hs & H).
    eapply save_metadata_Ok in Hs; [|cbn; apply lookup_insert_eq]. cbn in Hs. rewrite insert_insert_eq in Hs. subst db2.
    apply rbind_Ok in H as (m2 & (row & Hrow & Hload)%found_load_one & [= <- <-]%Ok_inj).
    cbn in Hrow. rewrite lookup_insert_eq in Hrow. injection Hrow as <-.
    set (row := replaced_row old content (identity md content) now_ms <| MemoryRow.metadata := to_string md |>).
    change (load_row limits (MemoryKey.id key) row = Ok m2) in Hload.
    assert (Hro : row_ok limits (MemoryKey.id key) row).
    { eapply load_row_ok; [|exact Hload]. pose proof (ro_version _ _ _ (proj1 (mo_row _ _ Hok0 _ _ Hl))).
      subst row. unfold in_range, put; cbn. unfold MAX_I64 in *. lia. }
    pose proof (proj2 (mo_row _ _ Hok0 _ _ Hl)) as Hid.
    exists (MemoryKey.id key), row. split_and!.
    + split; [|f_equal; by eapply load_row_stored; [|apply from_str_to_string]|exact Hro|done..].
      f_equal. cbn. lia.
    + done.
    + pose proof (sum_replace db0 (MemoryKey.id key) row old Hl) as E.
      change (MemoryRow.content row) with content in E. pose proof (row_bytes _ _ _ Hl) as Hle.
      change (MemoryRow.set_metadata (to_string md) (replaced_row old content (identity md content) now_ms)) with row.
      clear -E Hb Hle. lia.
    + done.
    + by exists old.
  - apply Ok_inj in Hown. subst ownership. apply rbind_Ok in H as ([db1 m] & Hr & H).
    apply insert_Ok in Hr as (-> & Hm & Hmax & Hn & Hi & Hrec & Hb); [|done].
    rewrite Hm in H. apply rbind_Ok in H as (db2 & Hs & H).
    eapply save_metadata_Ok in Hs; [|cbn; apply lookup_insert_eq]. cbn in Hs. rewrite insert_insert_eq in Hs. subst db2.
    apply rbind_Ok in H as (m2 & (row & Hrow & Hload)%found_load_one & [= <- <-]%Ok_inj).
    cbn in Hrow. rewrite lookup_insert_eq in Hrow. injection Hrow as <-.
    set (row := new_row content (identity md content) now_ms <| MemoryRow.metadata := to_string md |>).
    change (load_row limits (next_id db0) row = Ok m2) in Hload.
    exists (next_id db0), row. split_and!; try done.
    + split; [|f_equal; by eapply load_row_stored; [|apply from_str_to_string]| |done..].
      * f_equal. cbn. lia.
      * eapply load_row_ok; [|exact Hload]. by unfold in_range; cbn.
    + unfold total_content_bytes in *. unfold put; cbn. rewrite map_sum_insert_new by done. cbn. clear -Hb. lia.
Qed.

Lemma put_metadata_keeps db content metadata replacement now_ms drawn db' r :
  memories_ok limits db → put_metadata_local limits db content metadata replacement now_ms drawn = Ok (db', r) →
  memories_ok limits db' ∧ evolves db db'.
Proof.
  intros Hok Hput. assert (Hok0 : memories_ok limits (prune_expired db now_ms)) by (by apply ok_prune).
  destruct (put_Ok _ _ _ _ _ _ _ _ Hok Hput) as (_ & ownership & id & row & W & Hi & Hb & Hrep). clear Hput.
  pose proof (wr_db _ _ _ _ _ _ _ W) as ->. pose proof (evolves_prune db now_ms) as Hev.
  set (db0 := prune_expired db now_ms) in *. clearbody db0. pose proof (mo_next _ _ Hok0) as Hnext.
  assert (Hident : ∀ m, from_str (MemoryRow.metadata row) = Some m → plain m →
     MemoryRow.normalized_identity row = identity m (MemoryRow.content row)).
  { intros m. rewrite (wr_metadata _ _ _ _ _ _ _ W), from_str_to_string. intros [= <-] _.
    rewrite (wr_content _ _ _ _ _ _ _ W). apply W. }
  assert (id < next_id db0 ∨ (replacement = None ∧ id = next_id db0 ∧ id + 1 ≤ MAX_I64))%Z as Hid.
  { destruct replacement as [key|]; [left|right; naive_solver]. destruct Hrep as (-> & old & Hl & _).
    by eapply mo_row. }
  split.
  - apply ok_write; [done|apply W|lia|lia| |done| |done].
    + rewrite identity_taken_false in Hi |- *. intros i r2 H2 E. specialize (Hi _ _ H2 E).
      destruct replacement as [key|]; [|done]. destruct Hrep as (-> & _). done.
    + pose proof (mo_records _ _ Hok0) as Hr. unfold total_records in *. cbn. destruct replacement as [key|].
      * destruct Hrep as (_ & old & Hl & _). rewrite map_size_insert_Some; [done|by eexists].
      * destruct Hrep as (_ & -> & _ & _ & Hlt). rewrite map_size_insert_None; [lia|].
        destruct (memories db0 !! next_id db0) as [r2|] eqn:E; [|done]. apply (mo_row _ _ Hok0) in E as [_ E]. lia.
  - eapply evolves_trans; [exact Hev|]. apply evolves_write; [lia|].
    destruct replacement as [key|]; [right|left; naive_solver lia].
    destruct Hrep as (_ & old & Hl & _ & Hv & _). exists old. split_and!; [done|lia|lia].
Qed.
End operations.
