(* ===== verification/MemoryRuns.v ===== *)
(** * Runs of the store of memories

    Imports and snapshots keep the invariant as well; a run is any sequence of the
    operations. The theorems are about every state a run leads to. *)

From S2P Require Import Prelude Digest Contract Cost Workspace Session Secrets MemoryRecords Retrieval.
From S2P Require Import MemoryStore MemoryTransfer MemoryGuarantees.

Section transfers.
Context {TXT : MemoryText} {UNI : Unicode} {FLT : Float64} {SHA : Sha256} {TXTOK : MemoryTextOk}.
Variable limits : MemoryLimits.t.
Implicit Types (db : MemoryDb) (row : MemoryRow.t) (id : Z) (memory : MemoryRecord.t) (md : MemoryMetadata.t).

#[local] Notation ok := (memories_ok limits).

(** ** Validated records *)

Lemma as_i64_small n : (n ≤ i64_MAX)%N → as_i64 n = Z.of_N n ∧ as_u64 (as_i64 n) = n.
Proof.
  unfold as_i64, i64_MAX. intros Hn. destruct (N.ltb_spec n (2 ^ 63)); [|lia]. split; [done|].
  rewrite (proj1 (as_u64_small (Z.of_N n) ltac:(unfold MAX_I64; lia))). lia.
Qed.

Record valid_counts memory : Prop := {
  vc_version : (0 < MemoryKey.version (MemoryRecord.key memory) ≤ i64_MAX)%N;
  vc_scan : (MemoryRecord.scan_count memory ≤ i64_MAX)%N;
  vc_use : (MemoryRecord.use_count memory ≤ i64_MAX)%N;
  vc_metadata : validate (MemoryRecord.metadata memory) = Ok tt;
}.

Lemma validate_record_counts memory scope u : validate_record memory scope limits = Ok u → valid_counts memory ∧ scope_matches scope (MemoryKey.namespace (MemoryRecord.key memory)) = true.
Proof.
  unfold validate_record. rewrite reject_if_Ok.
  assert (∀ b c : bool, b || c = false ↔ b = false ∧ c = false) as Hor by (intros [] []; naive_solver).
  rewrite !Hor, !exceeds_i64_false, !negb_false_iff, N.eqb_neq.
  intros (((((((((((((_ & Hv0) & Hv) & Hs) & Hu) & _) & Hm) & _) & _) & _) & _) & _) & _) & Hval). split; [|done].
  split; [lia|done|done|]. by destruct (validate _) as [[]|].
Qed.

(** The row a snapshot writes for a record. *)
Definition synced_row memory md : MemoryRow.t := snapshot_row memory <| MemoryRow.metadata := to_string md |>.

Lemma synced_row_record memory :
  valid_counts memory → MemoryKey.namespace (MemoryRecord.key memory) = None →
  StoredMemory.record (stored (record_id memory) (synced_row memory (MemoryRecord.metadata memory)) (MemoryRecord.metadata memory)) = memory.
Proof.
  intros [Hv Hs Hu _] Hn. unfold stored, synced_row, snapshot_row, StoredMemory.record, StoredMemory.key, record_id, put. cbn.
  destruct memory as [md [id version namespace] content created updated scanned scans used uses until]; cbn in *. subst namespace.
  rewrite (proj2 (as_i64_small version ltac:(lia))), (proj2 (as_i64_small _ Hs)), (proj2 (as_i64_small _ Hu)). done.
Qed.

Lemma synced_row_range memory md : valid_counts memory → in_range (synced_row memory md).
Proof.
  intros [Hv Hs Hu _]. unfold in_range, synced_row, snapshot_row, put. cbn.
  rewrite (proj1 (as_i64_small _ (proj2 Hv))), (proj1 (as_i64_small _ Hs)), (proj1 (as_i64_small _ Hu)).
  unfold i64_MAX, MAX_I64 in *. lia.
Qed.

Lemma row_ok_metadata id row md :
  row_ok limits id row → validate md = Ok tt → row_ok limits id (row <| MemoryRow.metadata := to_string md |>).
Proof. intros H Hv. unfold put; cbn. split; cbn; try apply H. exists md. by rewrite from_str_to_string. Qed.

Lemma synced_row_ok memory md :
  validate_record memory MemoryRecordScope.Local limits = Ok tt → validate md = Ok tt →
  row_ok limits (record_id memory) (synced_row memory md).
Proof.
  intros Hr Hv. destruct (validate_record_counts _ _ _ Hr) as [Hc Hn%bool_decide_eq_true].
  assert (row_ok limits (record_id memory) (synced_row memory (MemoryRecord.metadata memory))) as Hok.
  { apply (validate_stored_iff limits _ _ (MemoryRecord.metadata memory)); [by apply synced_row_range|apply from_str_to_string|].
    by rewrite synced_row_record. }
  apply (row_ok_metadata _ _ md) in Hok; [|done]. exact Hok.
Qed.

(** A new owner does not invalidate metadata without one. *)
Lemma validate_owned md (id : string) :
  validate md = Ok tt → MemoryMetadata.ownership_id md = None → valid_ownership id = true →
  validate (md <| MemoryMetadata.ownership_id := Some id |>) = Ok tt.
Proof.
  intros Hv Hn Hid. pose proof (ownership_fits md id Hn Hid) as Hfit. unfold validate in *.
  apply rbind_Ok in Hv as ([] & Hb%reject_if_Ok & Hv). apply rbind_Ok in Hv as ([] & Hp%reject_if_Ok & He).
  assert (∀ b c : bool, b || c = false ↔ b = false ∧ c = false) as Hor by (intros [] []; naive_solver).
  rewrite !Hor in Hb. destruct Hb as [[Hbounds Hown] Hrun].
  assert (reject_if (exceeds_bounds (md <| MemoryMetadata.ownership_id := Some id |>) ||
    invalid_ownership (md <| MemoryMetadata.ownership_id := Some id |>) ||
    invalid_pending_run (md <| MemoryMetadata.ownership_id := Some id |>)) MemoryError.InvalidMetadata = Ok tt) as ->.
  { apply reject_if_Ok. rewrite !Hor. unfold exceeds_bounds in *. rewrite !Hor in Hbounds |- *. rewrite N.ltb_ge in Hbounds |- *.
    destruct Hbounds as (((((H1 & H2) & H3) & H4) & H5) & H6). split_and!; try done.
    - rewrite bool_decide_true in H1 by done.
      rewrite bool_decide_false by done. lia.
    - unfold invalid_ownership in *. rewrite Hor in Hown |- *. split; [cbn; by rewrite Hid|apply Hown]. }
  cbn [rbind]. by change (invalid_provenance (md <| MemoryMetadata.ownership_id := Some id |>)) with (invalid_provenance md); rewrite Hp.
Qed.

Lemma identity_plain md content o : plain md → identity (md <| MemoryMetadata.ownership_id := o |>) content = identity md content.
Proof. intros [Ht Hi]. unfold identity, put; cbn. rewrite Ht, Hi. done. Qed.

(** ** Snapshots *)

Definition sum_lengths (records : list MemoryRecord.t) : N := foldr (λ memory n, str_len (MemoryRecord.content memory) + n)%N 0%N records.

Lemma sum_lengths_app l1 l2 : sum_lengths (l1 ++ l2) = (sum_lengths l1 + sum_lengths l2)%N.
Proof. unfold sum_lengths. induction l1 as [|m l1 IH]; cbn; [done|]. rewrite IH. lia. Qed.

Lemma snapshot_valid records :
  validate_authored_snapshot limits records = Ok tt →
  (N.of_nat (length records) ≤ MemoryLimits.records limits)%N ∧
  (sum_lengths records ≤ MemoryLimits.total_content_bytes limits)%N ∧
  Forall (λ memory, validate_record memory MemoryRecordScope.Local limits = Ok tt) records.
Proof.
  unfold validate_authored_snapshot. intros ([] & Hl%reject_if_Ok%N.ltb_ge & H)%rbind_Ok.
  apply rbind_Ok in H as ([[ids idents] total] & Hf & Ht%reject_if_Ok%N.ltb_ge).
  eapply (for_each_inv (λ seen (acc : Checking), acc.2 = sum_lengths seen ∧
    Forall (λ memory, validate_record memory MemoryRecordScope.Local limits = Ok tt) seen)) in Hf.
  - destruct Hf as [Hs Hall]. cbn in Hs. subst total. done.
  - done.
  - intros seen memory [[i j] t] [[i' j'] t'] _ [Hs Hall] Hc. unfold check_snapshot_record in Hc. cbn in *.
    apply rbind_Ok in Hc as ([] & Hv & Hc). apply rbind_Ok in Hc as ([] & _ & Hc). apply rbind_Ok in Hc as ([] & _ & Hc).
    apply rbind_Ok in Hc as ([] & _ & Hc). apply rbind_Ok in Hc as ([] & _ & Hc).
    apply rbind_Ok in Hc as (n & Hn%ok_or_Ok & [= <- <- <-]%Ok_inj). split.
    + unfold u64_checked_add in Hn. destruct (N.leb_spec (t + str_len (MemoryRecord.content memory)) u64_MAX); [|done].
      injection Hn as <-. rewrite sum_lengths_app. cbn. subst t. lia.
    + apply Forall_app. by rewrite Forall_singleton.
Qed.

Lemma insert_row_Ok db id row db' :
  insert_row db id row = Ok db' → memories db !! id = None ∧ identity_taken db (MemoryRow.normalized_identity row) None = false ∧
    db' = mk_memory_db (<[id := row]> (memories db)) (next_id db).
Proof.
  unfold insert_row. intros ([] & Hc%reject_if_Ok & <-%Ok_inj)%rbind_Ok.
  apply orb_false_iff in Hc as [[Hn%bool_decide_eq_false Hi]%orb_false_iff _]. split_and!; [by apply eq_None_not_Some|done|done].
Qed.

Lemma sync_record_Ok previous draw db report drawn memory db' report' drawn' :
  sync_record previous draw (db, report, drawn) memory = Ok (db', report', drawn') →
  ∃ owner, (owner = MemoryMetadata.ownership_id (MemoryRecord.metadata memory) ∨
            MemoryMetadata.ownership_id (MemoryRecord.metadata memory) = None ∧ owner = Some (draw drawn)) ∧
    let md := MemoryRecord.metadata memory <| MemoryMetadata.ownership_id := owner |> in
    memories db !! record_id memory = None ∧
    identity_taken db (identity (MemoryRecord.metadata memory) (MemoryRecord.content memory)) None = false ∧
    (record_id memory + 1 ≤ MAX_I64)%Z ∧
    db' = mk_memory_db (<[record_id memory := synced_row memory md]> (memories db)) (Z.max (next_id db) (record_id memory + 1)) ∧
    report' = count_synced report (StoredMemory.record <$> list_find (λ m, StoredMemory.id m = record_id memory) previous ≫= λ r, Some r.2) memory.
Proof.
  unfold sync_record. intros (db1 & (n & [Hn ->]%ok_or_Ok%i64_checked_add_Some & <-%Ok_inj)%rbind_Ok & H)%rbind_Ok.
  apply rbind_Ok in H as (db2 & (Hnone & Hi & ->)%insert_row_Ok & H). cbn in Hnone.
  assert (Hm : (record_id memory + 1 ≤ MAX_I64)%Z) by (unfold record_id, MAX_I64 in *; lia).
  destruct (MemoryMetadata.ownership_id (MemoryRecord.metadata memory)) as [o|] eqn:Ho.
  - apply rbind_Ok in H as (db3 & Hs & [= <- <- _]%Ok_inj). eapply save_metadata_Ok in Hs; [|cbn; apply lookup_insert_eq].
    cbn in Hs. rewrite insert_insert_eq in Hs. subst db3. exists (Some o). split_and!; try done; [by left|].
    cbn. f_equal. f_equal. unfold synced_row. do 2 f_equal. destruct (MemoryRecord.metadata memory); cbn in *. by subst.
  - apply rbind_Ok in H as (db3 & Hs & [= <- <- _]%Ok_inj). eapply save_metadata_Ok in Hs; [|cbn; apply lookup_insert_eq].
    cbn in Hs. rewrite insert_insert_eq in Hs. subst db3. exists (Some (draw drawn)). split_and!; try done. by right.
Qed.

Lemma sync_keeps db records now_ms draw db' report :
  (∀ k, valid_ownership (draw k) = true) → ok db → sync_local_snapshot limits db records now_ms draw = Ok (db', report) →
  ok db' ∧ (next_id db ≤ next_id db')%Z.
Proof.
  intros Hdraw Hok. unfold sync_local_snapshot. intros ([] & (Hlen & Hsum & Hall)%snapshot_valid & H)%rbind_Ok.
  rewrite (open_ok limits) in H by done. cbn [rbind] in H. apply rbind_Ok in H as (existing & _ & H).
  apply rbind_Ok in H as ([[db1 rep] drawn] & Hf & [= <- _]%Ok_inj).
  eapply (for_each_inv (λ seen (acc : Syncing), ok acc.1.1 ∧ (next_id db ≤ next_id acc.1.1)%Z ∧
    total_records acc.1.1 = N.of_nat (length seen) ∧ total_content_bytes acc.1.1 = sum_lengths seen)) in Hf.
  - by destruct Hf as (? & ? & _).
  - unfold total_records, total_content_bytes. cbn. rewrite map_sum_empty. split_and!; [|done..].
    apply (ok_subset limits db); [done|apply map_empty_subseteq|]. unfold total_content_bytes, put. cbn. rewrite map_sum_empty. lia.
  - intros seen memory [[d r] k] [[d' r'] k'] Hpre (Hd & Hn & Hc & Hb) Hs. cbn [fst snd] in *.
    apply sync_record_Ok in Hs as (owner & Ho & Hnone & Hi & Hm & -> & _).
    assert (Hval : validate_record memory MemoryRecordScope.Local limits = Ok tt).
    { rewrite Forall_forall in Hall. apply Hall. destruct Hpre as [rest ->]. apply elem_of_app. left. apply elem_of_app. right. by left. }
    set (md := MemoryRecord.metadata memory <| MemoryMetadata.ownership_id := owner |>).
    assert (Hmd : validate md = Ok tt).
    { pose proof (vc_metadata _ (proj1 (validate_record_counts _ _ _ Hval))) as Hv. subst md.
      destruct Ho as [->|[Ho ->]]; [by destruct (MemoryRecord.metadata memory)|]. by apply validate_owned. }
    pose proof (synced_row_ok _ _ Hval Hmd) as Hrow. pose proof (mo_next _ _ Hd).
    assert (Hrec : total_records (mk_memory_db (<[record_id memory := synced_row memory md]> (memories d)) (Z.max (next_id d) (record_id memory + 1)))
        = N.of_nat (length (seen ++ [memory]))).
    { unfold total_records in *. cbn. rewrite map_size_insert_None by done. rewrite length_app. cbn. lia. }
    assert (Hbytes : total_content_bytes (mk_memory_db (<[record_id memory := synced_row memory md]> (memories d)) (Z.max (next_id d) (record_id memory + 1)))
        = sum_lengths (seen ++ [memory])).
    { unfold total_content_bytes in *. cbn. rewrite map_sum_insert_new by done. rewrite Hb, sum_lengths_app. cbn. lia. }
    destruct Hpre as [rest Erec]. split_and!; [|cbn; lia|done|done].
    apply ok_write; [done|done|lia|lia| | | |].
    + rewrite identity_taken_false in Hi |- *. intros i r2 H2 E. by specialize (Hi _ _ H2 E).
    + intros m. unfold synced_row, put; cbn. rewrite from_str_to_string. intros [= <-] Hp.
      symmetry. apply identity_plain. destruct Hp. done.
    + rewrite Hrec. rewrite Erec, !length_app in Hlen. rewrite length_app. lia.
    + rewrite Hbytes. rewrite Erec, sum_lengths_app in Hsum. lia.
Qed.

(** ** Imports *)

Hypothesis bounded : (MemoryLimits.total_content_bytes limits < u64_MAX)%N.

(** The list is what loading the table gives: the rows in the order of their keys. *)
Record mirrors (existing : list StoredMemory.t) db : Prop := {
  mi_row m : m ∈ existing → ∃ row md, memories db !! StoredMemory.id m = Some row ∧
    from_str (MemoryRow.metadata row) = Some md ∧ m = stored (StoredMemory.id m) row md;
  mi_ids : StoredMemory.id <$> existing = btree_keys (memories db);
}.

Lemma mi_nodup existing db : mirrors existing db → NoDup (StoredMemory.id <$> existing).
Proof. intros Hmi. rewrite (mi_ids _ _ Hmi). apply NoDup_btree_keys. Qed.

Lemma mirrors_load_all db existing : ok db → load_all limits db = Ok existing → mirrors existing db.
Proof.
  intros Hok Hl. destruct (load_all_ok limits db Hok) as (l & Hl' & Hin & Hids).
  rewrite Hl in Hl'. injection Hl' as <-. split; [|done]. intros m (id & row & md & Hr & Hmd & ->)%Hin. by exists row, md.
Qed.

(** There is one such list. *)
Lemma mirrors_unique db l1 l2 : mirrors l1 db → mirrors l2 db → l1 = l2.
Proof.
  intros H1 H2. assert (StoredMemory.id <$> l1 = StoredMemory.id <$> l2) as Hids by (rewrite (mi_ids _ _ H1), (mi_ids _ _ H2); done).
  pose proof (mi_row _ _ H1) as R1. pose proof (mi_row _ _ H2) as R2. clear H1 H2. revert l2 Hids R2.
  induction l1 as [|m1 l1 IH]; intros [|m2 l2] Hids R2; try done. cbn in Hids. injection Hids as Hid Hids.
  f_equal; [|apply IH; [by intros m ?; apply R1; right|done|by intros m ?; apply R2; right]].
  destruct (R1 m1) as (r1 & d1 & Hr1 & Hd1 & ->); [left|]. destruct (R2 m2) as (r2 & d2 & Hr2 & Hd2 & ->); [left|].
  cbn in *. rewrite Hid in *. congruence.
Qed.

Lemma mirrors_load existing db : ok db → mirrors existing db → load_all limits db = Ok existing.
Proof.
  intros Hok Hmi. destruct (load_all_ok limits db Hok) as (l & Hl & _). rewrite Hl. f_equal.
  eapply mirrors_unique; [|done]. by apply mirrors_load_all.
Qed.

(** Keys stay in order when a row changes or is added at the end. *)
Lemma keys_update db id row : is_Some (memories db !! id) → btree_keys (<[id := row]> (memories db)) = btree_keys (memories db).
Proof.
  intros Hl. apply (StronglySorted_unique Z.le); [apply btree_iter_sorted..|].
  apply NoDup_Permutation; [apply NoDup_btree_keys..|]. intros k. rewrite !elem_of_btree_keys, lookup_insert_is_Some'. naive_solver.
Qed.

Lemma keys_insert db row : ok db → btree_keys (<[next_id db := row]> (memories db)) = btree_keys (memories db) ++ [next_id db].
Proof.
  intros Hok. unfold btree_keys. rewrite btree_iter_insert_last, fmap_app; [done|].
  intros k [r Hr]. by destruct (mo_row _ _ Hok _ _ Hr).
Qed.

Lemma find_existing_Some ident l m : find_existing ident l = Some m → m ∈ l ∧ stored_identity m = ident.
Proof.
  induction l as [|m' l IH]; [done|]. cbn. destruct (bool_decide_reflect (stored_identity m' = ident)) as [E|E];
    unfold str_eqb; [rewrite bool_decide_true by done|rewrite bool_decide_false by done].
  - intros [= ->]. split; [left|done].
  - intros [??]%IH. split; [by right|done].
Qed.

Lemma find_existing_None ident l : find_existing ident l = None ↔ ∀ m, m ∈ l → stored_identity m ≠ ident.
Proof.
  induction l as [|m' l IH]; cbn; [split; [by intros _ m ?%elem_of_nil|done]|]. unfold str_eqb.
  destruct (bool_decide_reflect (stored_identity m' = ident)) as [E|E].
  - split; [done|]. intros H. destruct (H m'); [left|done].
  - rewrite IH. split; [by intros H m [->|?]%elem_of_cons; auto|]. intros H m ?. apply H. by right.
Qed.

Lemma update_existing_elem ident m' l m :
  m ∈ update_existing ident m' l → m ∈ l ∨ (m = m' ∧ is_Some (find_existing ident l)).
Proof.
  induction l as [|m1 l IH]; cbn; [by intros ?%elem_of_nil|]. destruct (str_eqb _ _).
  - intros [->|?]%elem_of_cons; [right; split; [done|by eexists]|left; by right].
  - intros [->|Hin]%elem_of_cons; [left; left|]. destruct (IH Hin) as [?|[??]]; [left; by right|by right].
Qed.

(** The list after [update_existing]: the first match is gone, everything else stays. *)
Lemma update_existing_keeps ident m' l m old :
  find_existing ident l = Some old → m ∈ l → m = old ∨ m ∈ update_existing ident m' l.
Proof.
  induction l as [|m1 l IH]; cbn; [done|]. destruct (str_eqb _ _).
  - intros [= ->] [->|?]%elem_of_cons; [by left|right; by right].
  - intros Hf [->|Hin]%elem_of_cons; [right; left|]. destruct (IH Hf Hin); [by left|right; by right].
Qed.

Lemma update_existing_new ident m' l : is_Some (find_existing ident l) → m' ∈ update_existing ident m' l.
Proof. induction l as [|m1 l IH]; cbn; [by intros []|]. destruct (str_eqb _ _); [left|]. intros ?%IH. by right. Qed.

Lemma update_existing_other ident m' l old m :
  NoDup (StoredMemory.id <$> l) → find_existing ident l = Some old →
  m ∈ update_existing ident m' l → m = m' ∨ (m ∈ l ∧ StoredMemory.id m ≠ StoredMemory.id old).
Proof.
  induction l as [|m1 l IH]; cbn; [done|]. intros [Hni Hnd]%NoDup_cons. destruct (str_eqb _ _).
  - intros [= ->] [->|Hin]%elem_of_cons; [by left|]. right. split; [by right|]. intros E. apply Hni.
    rewrite <-E. by apply list_elem_of_fmap_2.
  - intros Hf [->|Hin]%elem_of_cons.
    + right. split; [left|]. intros E. apply Hni. rewrite E. apply list_elem_of_fmap_2. by apply find_existing_Some in Hf as [? _].
    + destruct (IH Hnd Hf Hin) as [?|[??]]; [by left|]. right. split; [by right|done].
Qed.

Lemma update_existing_ids ident m' l old :
  find_existing ident l = Some old → StoredMemory.id m' = StoredMemory.id old →
  StoredMemory.id <$> update_existing ident m' l = StoredMemory.id <$> l.
Proof.
  intros Hf E. induction l as [|m1 l IH]; cbn in *; [done|]. destruct (str_eqb _ _); cbn.
  - injection Hf as ->. by rewrite E.
  - by rewrite IH.
Qed.

(** What one record of an import does. *)
Inductive imported db existing : MemoryRecord.t → MemoryDb → list StoredMemory.t → ImportReport.t → ImportReport.t → Prop :=
| imported_known memory current report :
    find_existing (import_identity memory) existing = Some current →
    merge_provenance (StoredMemory.metadata current) (imported_metadata memory) = StoredMemory.metadata current →
    imported db existing memory db existing report
      (ImportReport.mk (ImportReport.inserted report) (S (ImportReport.skipped report)))
| imported_merged memory current row report :
    find_existing (import_identity memory) existing = Some current →
    let merged := merge_provenance (StoredMemory.metadata current) (imported_metadata memory) in
    merged ≠ StoredMemory.metadata current → validate merged = Ok tt →
    memories db !! StoredMemory.id current = Some row →
    let row' := MemoryRow.mk (MemoryRow.content row) (identity merged (MemoryRow.content row)) (MemoryRow.created_at_ms row)
      (MemoryRow.updated_at_ms row) (MemoryRow.last_scanned_at_ms row) (MemoryRow.scan_count row) (MemoryRow.last_used_at_ms row)
      (MemoryRow.use_count row) (MemoryRow.probation_until_ms row) (MemoryRow.version row + 1) (to_string merged) in
    row_ok limits (StoredMemory.id current) row' →
    identity_taken db (MemoryRow.normalized_identity row') (Some (StoredMemory.id current)) = false →
    imported db existing memory (mk_memory_db (<[StoredMemory.id current := row']> (memories db)) (next_id db))
      (update_existing (import_identity memory) (stored (StoredMemory.id current) row' merged) existing) report
      (ImportReport.mk (ImportReport.inserted report) (S (ImportReport.skipped report)))
| imported_new memory row drawn report :
    find_existing (import_identity memory) existing = None →
    let md := imported_metadata memory <| MemoryMetadata.ownership_id := Some drawn |> in
    validate md = Ok tt → row_ok limits (next_id db) row → (next_id db + 1 ≤ MAX_I64)%Z →
    MemoryRow.content row = MemoryRecord.content memory → MemoryRow.metadata row = to_string md →
    MemoryRow.normalized_identity row = identity md (MemoryRecord.content memory) →
    MemoryRow.probation_until_ms row = MemoryRecord.probation_until_ms memory →
    as_u64 (MemoryRow.use_count row) = MemoryRecord.use_count memory →
    identity_taken db (MemoryRow.normalized_identity row) None = false →
    (total_records db < MemoryLimits.records limits)%N →
    (total_content_bytes db + str_len (MemoryRecord.content memory) ≤ MemoryLimits.total_content_bytes limits)%N →
    imported db existing memory (mk_memory_db (<[next_id db := row]> (memories db)) (next_id db + 1))
      (existing ++ [stored (next_id db) row md]) report
      (ImportReport.mk (S (ImportReport.inserted report)) (ImportReport.skipped report)).

Lemma merge_version row version :
  (0 < MemoryRow.version row ≤ MAX_I64)%Z → u64_checked_add (as_u64 (MemoryRow.version row)) 1 = Some version →
  (0 < as_i64 version)%Z → as_i64 version = (MemoryRow.version row + 1)%Z ∧ version = as_u64 (MemoryRow.version row + 1) ∧
  (MemoryRow.version row + 1 ≤ MAX_I64)%Z.
Proof.
  intros Hv. destruct (as_u64_small (MemoryRow.version row) ltac:(lia)) as [E E']. rewrite E.
  unfold u64_checked_add. destruct (N.leb_spec (Z.to_N (MemoryRow.version row) + 1) u64_MAX); [|done]. intros [= <-].
  unfold as_i64. unfold MAX_I64 in *. destruct (N.ltb_spec (Z.to_N (MemoryRow.version row) + 1) (2 ^ 63)); [|lia].
  intros _. split_and!; [lia| |lia]. rewrite (proj1 (as_u64_small (MemoryRow.version row + 1) ltac:(unfold MAX_I64; lia))). lia.
Qed.

Lemma merge_existing_Ok db existing report current memory db' existing' report' :
  ok db → mirrors existing db → find_existing (import_identity memory) existing = Some current →
  merge_existing db existing report current (imported_metadata memory) (import_identity memory) = Ok (db', existing', report') →
  imported db existing memory db' existing' report report'.
Proof.
  intros Hok Hmi Hf.
  pose proof (find_existing_Some _ _ _ Hf) as [Hin _]. destruct (mi_row _ _ Hmi _ Hin) as (row & md & Hl & Hmd & Ecur).
  pose proof (proj1 (mo_row _ _ Hok _ _ Hl)) as Hrow.
  unfold merge_existing. intros ([] & Hval & H)%rbind_Ok. destruct (decide _) as [E|Hne].
  { apply Ok_inj in H. injection H as <- <- <-. by eapply imported_known. }
  apply rbind_Ok in H as (version & Hver%ok_or_Ok & H). rewrite Ecur in Hver. cbn in Hver.
  apply rbind_Ok in H as (db1 & [[Hnone _]|(row1 & Hl1 & Hi1 & Hc1 & ->)]%update_row_Ok & H); [congruence|].
  assert (row1 = row) as -> by congruence.
  apply rbind_Ok in H as (db2 & Hs & [= <- <- <-]%Ok_inj).
  eapply save_metadata_Ok in Hs; [|cbn; apply lookup_insert_eq]. cbn in Hs. rewrite insert_insert_eq in Hs. subst db2.
  apply andb_true_iff in Hc1 as [_ Hpos%Z.ltb_lt]. unfold put in Hpos; cbn in Hpos.
  destruct (merge_version _ _ (ro_version _ _ _ Hrow) Hver Hpos) as (Ev & Ev2 & Hmax).
  assert (Econtent : StoredMemory.content current = MemoryRow.content row) by (by rewrite Ecur).
  assert (Hrow' : row_ok limits (StoredMemory.id current) (MemoryRow.mk (MemoryRow.content row)
     (identity (merge_provenance (StoredMemory.metadata current) (imported_metadata memory)) (MemoryRow.content row))
     (MemoryRow.created_at_ms row) (MemoryRow.updated_at_ms row) (MemoryRow.last_scanned_at_ms row) (MemoryRow.scan_count row)
     (MemoryRow.last_used_at_ms row) (MemoryRow.use_count row) (MemoryRow.probation_until_ms row) (MemoryRow.version row + 1)
     (to_string (merge_provenance (StoredMemory.metadata current) (imported_metadata memory))))).
  { pose proof (ro_version _ _ _ Hrow). split; cbn; try apply Hrow; [lia|]. eexists. by rewrite from_str_to_string. }
  pose proof (imported_merged db existing memory current row report Hf Hne Hval Hl Hrow') as Hstep. cbn in Hstep.
  unfold put in Hi1; cbn in Hi1. rewrite Econtent in Hi1. specialize (Hstep Hi1).
  unfold put; cbn. rewrite Ev, Econtent. replace (StoredMemory.set_metadata _ _) with
    (stored (StoredMemory.id current) (MemoryRow.mk (MemoryRow.content row)
     (identity (merge_provenance (StoredMemory.metadata current) (imported_metadata memory)) (MemoryRow.content row))
     (MemoryRow.created_at_ms row) (MemoryRow.updated_at_ms row) (MemoryRow.last_scanned_at_ms row) (MemoryRow.scan_count row)
     (MemoryRow.last_used_at_ms row) (MemoryRow.use_count row) (MemoryRow.probation_until_ms row) (MemoryRow.version row + 1)
     (to_string (merge_provenance (StoredMemory.metadata current) (imported_metadata memory))))
     (merge_provenance (StoredMemory.metadata current) (imported_metadata memory))); [exact Hstep|].
  rewrite Ecur. unfold stored; cbn. by rewrite Ev2.
Qed.

Lemma insert_imported_Ok now_ms drawn db existing report memory db' existing' report' :
  ok db → mirrors existing db → check_portable limits memory = Ok tt → find_existing (import_identity memory) existing = None →
  insert_imported limits db existing report memory (imported_metadata memory) now_ms drawn = Ok (db', existing', report') →
  imported db existing memory db' existing' report report'.
Proof.
  intros Hok Hmi Hport Hf.
  unfold insert_imported. intros ([] & Hval & H)%rbind_Ok.
  apply rbind_Ok in H as ([db1 m] & (-> & Hm & Hmax & Hn & Hi & Hrec & Hb)%insert_Ok & H); [|done..].
  rewrite Hm in H. apply rbind_Ok in H as (db2 & [[Hnone _]|(row1 & Hl1 & _ & Hc1 & ->)]%update_row_Ok & H);
    [cbn in Hnone; by rewrite lookup_insert_eq in Hnone|].
  cbn in Hl1. rewrite lookup_insert_eq in Hl1. injection Hl1 as <-. cbn in H. rewrite insert_insert_eq in H.
  apply rbind_Ok in H as (db3 & Hs & H). eapply save_metadata_Ok in Hs; [|cbn; apply lookup_insert_eq].
  cbn in Hs. rewrite insert_insert_eq in Hs. subst db3.
  apply rbind_Ok in H as (loaded & (row & Hr & Hload)%found_load_one & [= <- <- <-]%Ok_inj).
  cbn in Hr. rewrite lookup_insert_eq in Hr. injection Hr as <-.
  unfold check_portable in Hport. apply rbind_Ok in Hport as ([] & Hv & _).
  destruct (validate_record_counts _ _ _ Hv) as [[Hc1' Hc2 Hc3 _] _].
  set (md := imported_metadata memory <| MemoryMetadata.ownership_id := Some drawn |>) in *.
  set (row := restore_counters memory (new_row limits (MemoryRecord.content memory) (identity md (MemoryRecord.content memory)) now_ms)
              <| MemoryRow.metadata := to_string md |>).
  change (load_row limits (next_id db) row = Ok loaded) in Hload.
  assert (loaded = stored (next_id db) row md) as -> by (by eapply load_row_stored; [|apply from_str_to_string]).
  apply (imported_new db existing memory row drawn report); try done.
  + eapply load_row_ok; [|exact Hload]. subst row. unfold in_range, put; cbn.
    rewrite (proj1 (as_i64_small _ (proj2 Hc1'))), (proj1 (as_i64_small _ Hc2)), (proj1 (as_i64_small _ Hc3)).
    unfold i64_MAX, MAX_I64 in *. lia.
  + subst row. unfold put; cbn. apply (proj2 (as_i64_small _ Hc3)).
Qed.

Lemma import_record_Ok now_ms draw db existing report memory db' existing' report' :
  ok db → mirrors existing db → check_portable limits memory = Ok tt →
  import_record limits now_ms draw (db, existing, report) memory = Ok (db', existing', report') →
  imported db existing memory db' existing' report report'.
Proof.
  intros Hok Hmi Hport. unfold import_record. destruct (find_existing _ existing) as [current|] eqn:Hf.
  - by apply merge_existing_Ok.
  - by apply insert_imported_Ok.
Qed.

Lemma imported_keeps db existing memory db' existing' report report' :
  ok db → mirrors existing db → imported db existing memory db' existing' report report' →
  ok db' ∧ evolves db db' ∧ mirrors existing' db'.
Proof.
  intros Hok Hmi Himp. pose proof (mo_next _ _ Hok) as Hnext.
  destruct Himp as [memory current report Hf E|memory current row report Hf merged Hne Hval Hl row' Hrow Hi
                   |memory row drawn report Hf md Hval Hrow Hmax Hc Hm Hid Huntil Huse Hi Hrec Hb].
  - split_and!; [done|apply evolves_refl|done].
  - pose proof (find_existing_Some _ _ _ Hf) as [Hin _].
    assert (Hv : MemoryRow.version row' = (MemoryRow.version row + 1)%Z) by done.
    assert (Hb : total_content_bytes (mk_memory_db (<[StoredMemory.id current := row']> (memories db)) (next_id db)) = total_content_bytes db).
    { pose proof (sum_replace db (StoredMemory.id current) row' row Hl) as E. subst row'. cbn in E |- *. lia. }
    split_and!; [apply ok_write; try done; try lia| |].
    + by eapply mo_row.
    + intros m. subst row'. cbn. rewrite from_str_to_string. by intros [= <-].
    + pose proof (mo_records _ _ Hok). unfold total_records in *. cbn. rewrite map_size_insert_Some; [done|by eexists].
    + rewrite Hb. apply (mo_bytes limits _ Hok).
    + apply evolves_write; [done|]. right. exists row. split_and!; [done|lia|lia].
    + split.
      * intros m Hup. destruct (update_existing_other _ _ _ _ _ (mi_nodup _ _ Hmi) Hf Hup) as [->|[Hm Hn]].
        -- exists row', merged. cbn. rewrite lookup_insert_eq. split_and!; [done|apply from_str_to_string|done].
        -- destruct (mi_row _ _ Hmi _ Hm) as (r & md & Hr & Hmd & Er). exists r, md. cbn. by rewrite lookup_insert_ne.
      * cbn. erewrite update_existing_ids, keys_update; [apply Hmi|by eexists|done|done].
  - assert (Hnone : memories db !! next_id db = None).
    { destruct (memories db !! next_id db) as [r|] eqn:Er; [|done]. apply (mo_row _ _ Hok) in Er as [_ Er]. lia. }
    split_and!; [apply ok_write; try done; try lia| |].
    + rewrite identity_taken_false in Hi |- *. intros i r2 H2 E2. by specialize (Hi _ _ H2 E2).
    + intros m. rewrite Hm, from_str_to_string, Hc. by intros [= <-].
    + unfold total_records in *. cbn. rewrite map_size_insert_None by done. lia.
    + unfold total_content_bytes in *. cbn. rewrite map_sum_insert_new by done. rewrite Hc. lia.
    + apply evolves_write; [lia|]. by left.
    + split.
      * intros m [Hin| ->%list_elem_of_singleton]%elem_of_app.
        -- destruct (mi_row _ _ Hmi _ Hin) as (r & md' & Hr & Hmd & Er). exists r, md'. cbn.
           rewrite lookup_insert_ne; [done|]. intros E. rewrite <-E in Hr. congruence.
        -- exists row, md. cbn. rewrite lookup_insert_eq, Hm. split_and!; [done|apply from_str_to_string|done].
      * cbn. rewrite keys_insert, fmap_app, (mi_ids _ _ Hmi) by done. done.
Qed.

Lemma import_loop_keeps now_ms draw records db0 existing0 report0 db existing report :
  Forall (λ memory, check_portable limits memory = Ok tt) records →
  ok db0 → mirrors existing0 db0 →
  for_each (import_record limits now_ms draw) (db0, existing0, report0) records = Ok (db, existing, report) →
  ok db ∧ evolves db0 db ∧ mirrors existing db.
Proof.
  intros Hport Hok Hmi Hf.
  apply (for_each_inv (λ _ (acc : Importing), ok acc.1.1 ∧ evolves db0 acc.1.1 ∧ mirrors acc.1.2 acc.1.1)) in Hf; [done|..].
  - split_and!; [done|apply evolves_refl|done].
  - intros seen memory [[d e] r] [[d' e'] r'] [rest Hpre] (Hd & He & Hm) Hs. cbn [fst snd] in *.
    apply import_record_Ok in Hs; [|done..|].
    + destruct (imported_keeps _ _ _ _ _ _ _ Hd Hm Hs) as (? & ? & ?). split_and!; [done|by eapply evolves_trans|done].
    + rewrite Forall_forall in Hport. apply Hport. rewrite Hpre. apply elem_of_app. left. apply elem_of_app. right. by left.
Qed.

Lemma import_Ok db records now_ms draw db' report :
  ok db → import_records_local limits db records now_ms draw = Ok (db', report) →
  Forall (λ memory, check_portable limits memory = Ok tt) records ∧
  ∃ existing existing', let db0 := prune_expired db now_ms in ok db0 ∧ mirrors existing db0 ∧
    for_each (import_record limits now_ms draw) (db0, existing, ImportReport.mk 0 0) records = Ok (db', existing', report) ∧
    ok db' ∧ evolves db0 db' ∧ mirrors existing' db'.
Proof.
  intros Hok. unfold import_records_local. intros ([] & Hport%for_each_unit_Ok & H)%rbind_Ok.
  rewrite (open_ok limits) in H by done. cbn [rbind] in H. apply rbind_Ok in H as (existing & Hl & H).
  apply rbind_Ok in H as ([[db1 existing'] rep] & Hf & [= <- <-]%Ok_inj). split; [done|]. exists existing, existing'.
  assert (ok (prune_expired db now_ms)) as Hok0 by (by apply ok_prune).
  pose proof (mirrors_load_all _ _ Hok0 Hl) as Hmi. cbn zeta.
  destruct (import_loop_keeps _ _ _ _ _ _ _ _ _ Hport Hok0 Hmi Hf) as (? & ? & ?). split_and!; done.
Qed.

Lemma import_keeps db records now_ms draw db' report :
  ok db → import_records_local limits db records now_ms draw = Ok (db', report) → ok db' ∧ evolves db db'.
Proof.
  intros Hok (_ & existing & existing' & _ & _ & _ & Hok' & He & _)%import_Ok; [|done]. split; [done|].
  eapply evolves_trans; [apply evolves_prune|done].
Qed.
End transfers.

(** ** Runs *)

Section runs.
Context {TXT : MemoryText} {UNI : Unicode} {FLT : Float64} {SHA : Sha256} {TXTOK : MemoryTextOk}.
Variable limits : MemoryLimits.t.
Implicit Types (db : MemoryDb) (row : MemoryRow.t) (id : Z).

(** What a client of the store does, snapshots aside. *)
Inductive memory_operation db : MemoryDb → Prop :=
| do_scan query limit now_ms scope db' scan :
    scan_filtered limits db query limit now_ms scope = Ok (db', scan) → memory_operation db db'
| do_read references now_ms scope db' records :
    read_filtered limits db references now_ms scope = Ok (db', records) → memory_operation db db'
| do_put content metadata replacement now_ms drawn db' r :
    put_metadata_local limits db content metadata replacement now_ms drawn = Ok (db', r) → memory_operation db db'
| do_delete key db' : delete_local db key = Ok db' → memory_operation db db'
| do_list now_ms db' records : list_local limits db now_ms = Ok (db', records) → memory_operation db db'
| do_import records now_ms draw db' report :
    import_records_local limits db records now_ms draw = Ok (db', report) → memory_operation db db'.

(** A snapshot replaces the table; the owners it draws are what [randomblob] gives. *)
Inductive memory_step db : MemoryDb → Prop :=
| step_operation db' : memory_operation db db' → memory_step db db'
| step_sync records now_ms draw db' report :
    (∀ k, valid_ownership (draw k) = true) →
    sync_local_snapshot limits db records now_ms draw = Ok (db', report) → memory_step db db'.

Definition memories_reachable : MemoryDb → Prop := rtc memory_step empty_memories.

Hypothesis bounded : (MemoryLimits.total_content_bytes limits < u64_MAX)%N.

Lemma memory_operation_keeps db db' : memories_ok limits db → memory_operation db db' → memories_ok limits db' ∧ evolves db db'.
Proof.
  intros Hok [query limit now_ms scope ? scan H|references now_ms scope ? records H|content md replacement now_ms drawn ? r H
             |key ? H|now_ms ? records H|records now_ms draw ? report H].
  - by eapply scan_keeps.
  - by eapply read_keeps.
  - by eapply put_metadata_keeps.
  - by eapply delete_keeps.
  - by eapply list_keeps in H as (_ & ? & ?).
  - by eapply import_keeps.
Qed.

Lemma memory_step_keeps db db' : memories_ok limits db → memory_step db db' → memories_ok limits db' ∧ (next_id db ≤ next_id db')%Z.
Proof.
  intros Hok [? Hop|records now_ms draw ? report Hdraw H].
  - destruct (memory_operation_keeps _ _ Hok Hop) as [? []]. done.
  - by eapply sync_keeps.
Qed.

Lemma memory_steps_keep db db' : memories_ok limits db → rtc memory_step db db' → memories_ok limits db' ∧ (next_id db ≤ next_id db')%Z.
Proof.
  intros Hok Hsteps. revert Hok. induction Hsteps as [|db db1 db' Hstep _ IH]; intros Hok; [done|].
  destruct (memory_step_keeps _ _ Hok Hstep) as [Hok1 Hle]. destruct (IH Hok1). split; [done|lia].
Qed.

Lemma memory_operations_keep db db' : memories_ok limits db → rtc memory_operation db db' → memories_ok limits db' ∧ evolves db db'.
Proof.
  intros Hok Hsteps. revert Hok. induction Hsteps as [|db db1 db' Hstep _ IH]; intros Hok; [split; [done|apply evolves_refl]|].
  destruct (memory_operation_keeps _ _ Hok Hstep) as [Hok1 He]. destruct (IH Hok1). split; [done|by eapply evolves_trans].
Qed.

Lemma memories_reachable_ok db : memories_reachable db → memories_ok limits db.
Proof. intros Hr. eapply memory_steps_keep; [apply empty_memories_ok|exact Hr]. Qed.

(** C17: In every state the operations of the store lead to, each row is a valid memory that
    loads, no two rows have the same identity, a row written here has the identity of its
    content and scope, the store is within its bounds and the allocator is past every
    row, so that opening the store changes nothing. *)
Theorem memory_store_sound db :
  memories_reachable db →
  memories_ok limits db ∧ open db = Ok db ∧ ∃ l, load_all limits db = Ok l ∧ StoredMemory.id <$> l = btree_keys (memories db).
Proof.
  intros Hr%memories_reachable_ok. destruct (load_all_ok limits db Hr) as (l & Hl & _ & Hids).
  split_and!; [done|by eapply open_ok|by exists l].
Qed.

(** An identifier that was given to a memory is never given to another, also after the
    memory was deleted or has expired. *)
Theorem memory_ids_not_reused db db' db'' id content metadata now_ms drawn r :
  memories_reachable db → is_Some (memories db !! id) → rtc memory_step db db' →
  put_metadata_local limits db' content metadata None now_ms drawn = Ok (db'', r) →
  (id < record_id r)%Z.
Proof.
  intros Hr%memories_reachable_ok [row Hl] Hsteps Hput. destruct (memory_steps_keep _ _ Hr Hsteps) as [Hok' Hle].
  destruct (mo_row _ _ Hr _ _ Hl) as [_ Hid].
  destruct (put_Ok limits bounded _ _ _ _ _ _ _ _ Hok' Hput) as (_ & ownership & i & row' & W & _ & _ & _ & -> & _).
  rewrite (wr_record _ _ _ _ _ _ _ _ W). cbn. unfold record_id, StoredMemory.key; cbn. lia.
Qed.

(** A replacement names the version it was written against: it succeeds only while the
    memory has the content and the metadata that version was read with, and gives it the
    next version. What was written in between is never lost. *)
Theorem replacement_sees_current db db' db'' id row content metadata now_ms drawn r :
  memories_reachable db → memories db !! id = Some row → rtc memory_operation db db' →
  put_metadata_local limits db' content metadata (Some (MemoryKey.local id (as_u64 (MemoryRow.version row)))) now_ms drawn
    = Ok (db'', r) →
  ∃ row', memories db' !! id = Some row' ∧ MemoryRow.content row' = MemoryRow.content row ∧
    MemoryRow.metadata row' = MemoryRow.metadata row ∧
    record_id r = id ∧ MemoryKey.version (MemoryRecord.key r) = (as_u64 (MemoryRow.version row) + 1)%N ∧
    MemoryRecord.content r = content.
Proof.
  intros Hr%memories_reachable_ok Hl Hsteps Hput. destruct (memory_operations_keep _ _ Hr Hsteps) as [Hok' He].
  destruct (put_Ok limits bounded _ _ _ _ _ _ _ _ Hok' Hput) as (_ & ownership & i & row2 & W & _ & _ & -> & old & Hold & Hv & Hv2 & _).
  cbn in Hold, Hv. apply prune_lookup in Hold as [Hold _].
  destruct (ev_row _ _ He _ _ Hold) as (row0 & Hl0 & Hle & Hsame); [by eapply mo_row|].
  assert (row0 = row) as -> by congruence.
  pose proof (ro_version _ _ _ (proj1 (mo_row _ _ Hr _ _ Hl))) as Vr.
  pose proof (ro_version _ _ _ (proj1 (mo_row _ _ Hok' _ _ Hold))) as Vo.
  pose proof (ro_version _ _ _ (wr_row _ _ _ _ _ _ _ _ W)) as Vn.
  destruct (as_u64_small (MemoryRow.version row) ltac:(lia)) as [Er _].
  destruct (as_u64_small (MemoryRow.version old) ltac:(lia)) as [Eo _].
  destruct (as_u64_small (MemoryRow.version row2) ltac:(lia)) as [En _].
  assert (Heq : MemoryRow.version row = MemoryRow.version old) by lia.
  destruct (Hsame Heq) as (Hc & Hm & _). exists old. split_and!; [done..| | |].
  - by rewrite (wr_record _ _ _ _ _ _ _ _ W).
  - rewrite (wr_record _ _ _ _ _ _ _ _ W). cbn. rewrite En, Hv2, Er. lia.
  - rewrite (wr_record _ _ _ _ _ _ _ _ W). cbn. apply W.
Qed.

(** ** What is shown *)

(** A row that may be shown: it has not expired, it is in scope and neither its content
    nor its metadata looks like a secret. *)
Record showable db (now_ms : Z) (scope : option ScanScope.t) id row (md : MemoryMetadata.t) : Prop := {
  sh_row : memories db !! id = Some row;
  sh_live : expired now_ms row = false;
  sh_metadata : from_str (MemoryRow.metadata row) = Some md;
  sh_valid : validate md = Ok tt;
  sh_scope : match scope with Some scope => visible_in md (ScanScope.repository scope) = true | None => True end;
  sh_content : contains_likely_secret (MemoryRow.content row) = false;
  sh_text : contains_likely_secret (to_string md) = false;
}.

Lemma presentable_true m :
  presentable m = true ↔
  contains_likely_secret (StoredMemory.content m) = false ∧ contains_likely_secret (to_string (StoredMemory.metadata m)) = false.
Proof.
  unfold presentable, reject_likely_secret, reject_if. destruct (contains_likely_secret (to_string _)); [naive_solver|].
  rewrite negb_true_iff. naive_solver.
Qed.

Lemma in_scope_true scope m :
  in_scope scope m = true ↔
  match scope with Some scope => visible_in (StoredMemory.metadata m) (ScanScope.repository scope) = true | None => True end.
Proof. by destruct scope. Qed.

Lemma showable_stored db now_ms scope id row md :
  memories_ok limits db → memories (prune_expired db now_ms) !! id = Some row → from_str (MemoryRow.metadata row) = Some md →
  presentable (stored id row md) = true → in_scope scope (stored id row md) = true → showable db now_ms scope id row md.
Proof.
  intros Hok [Hl Hexp]%prune_lookup Hmd [Hc Ht]%presentable_true Hs%in_scope_true. split; try done.
  destruct (ro_metadata _ _ _ (proj1 (mo_row _ _ Hok _ _ Hl))) as (m & Hm & Hv). congruence.
Qed.

Lemma rank_elem query l limit c :
  c ∈ rank query l limit → ∃ memory, memory ∈ l ∧ MemoryCandidate.key c = MemoryRecord.key memory ∧
    MemoryCandidate.metadata c = MemoryRecord.metadata memory ∧ MemoryCandidate.preview c = preview (MemoryRecord.content memory).
Proof.
  unfold rank. destruct (_ || _); [by intros ?%elem_of_nil|]. destruct (bool_decide _); [by intros ?%elem_of_nil|].
  intros Hc%subseteq_take. rewrite merge_sort_Permutation in Hc. unfold scored in Hc.
  apply list_elem_of_omap in Hc as (document & (memory & -> & Hm)%list_elem_of_fmap & Hc). exists memory.
  unfold candidate_of in Hc. destruct (f_eqb _ _); [done|]. injection Hc as <-. done.
Qed.

(** What a reading has: records of rows that may be shown, with their use counted. *)
Definition shown_record db now_ms scope (r : MemoryRecord.t) : Prop :=
  ∃ id row md, showable db now_ms scope id row md ∧ MemoryRecord.key r = MemoryKey.local id (as_u64 (MemoryRow.version row)) ∧
    MemoryRecord.metadata r = md ∧ MemoryRecord.content r = MemoryRow.content row.

(** The rows a reading has reached: their counters have moved, nothing else. *)
Definition counted db0 db : Prop :=
  ∀ id row, memories db !! id = Some row → ∃ row0, memories db0 !! id = Some row0 ∧
    MemoryRow.content row = MemoryRow.content row0 ∧ MemoryRow.metadata row = MemoryRow.metadata row0 ∧
    MemoryRow.version row = MemoryRow.version row0.

Lemma read_reference_shows now_ms scope db0 db seen records reference db' seen' records' :
  memories_ok limits db0 → memories_ok limits db → counted (prune_expired db0 now_ms) db →
  read_reference limits now_ms scope (db, seen, records) reference = Ok (db', seen', records') →
  counted (prune_expired db0 now_ms) db' ∧ ∀ r, r ∈ records' → r ∈ records ∨ shown_record db0 now_ms scope r.
Proof.
  intros Hok0 Hok Hcount. unfold read_reference. destruct reference as [id version].
  destruct (load_one_ok limits db id Hok) as [[Hn ->]|(row & md & Hl & Hmd & ->)]; cbn [rbind].
  { intros [= <- _ <-]%Ok_inj. auto. }
  destruct (negb (in_scope scope (stored id row md))) eqn:Hs; [intros [= <- _ <-]%Ok_inj; auto|].
  destruct (match version with Some _ => _ | None => _ end); [intros [= <- _ <-]%Ok_inj; auto|].
  destruct (negb (presentable (stored id row md))) eqn:Hp; [intros [= <- _ <-]%Ok_inj; auto|]. cbn [orb].
  destruct (bool_decide _); [intros [= <- _ <-]%Ok_inj; auto|].
  rewrite Hl. intros ([] & _ & H)%rbind_Ok.
  apply rbind_Ok in H as (db1 & [[Hnone _]|(row1 & Hl1 & _ & _ & ->)]%update_row_Ok & H); [congruence|].
  apply rbind_Ok in H as (n & _ & [= <- _ <-]%Ok_inj). assert (row1 = row) as -> by congruence.
  apply negb_false_iff in Hs, Hp. destruct (Hcount _ _ Hl) as (row0 & Hl0 & Ec & Em & Ev). split.
  - intros i r. cbn. intros [[<- <-]|[Hne Hr]]%lookup_insert_Some; [|by apply Hcount]. exists row0. done.
  - intros r [Hr| ->%list_elem_of_singleton]%elem_of_app; [by left|right]. exists id, row0, md. split_and!; [|cbn; by rewrite Ev|done|done].
    apply showable_stored; [done|done|by rewrite <-Em| |].
    + rewrite presentable_true in Hp |- *. cbn in *. by rewrite <-Ec.
    + by rewrite in_scope_true in Hs |- *.
Qed.

(** Scans, readings and listings show only memories that have not expired, are visible
    in the scope asked for, are valid and do not look like a secret. *)
Theorem shown_memories_safe db now_ms :
  memories_reachable db →
  (∀ query limit scope db' scan, scan_filtered limits db query limit now_ms scope = Ok (db', scan) →
     ∀ c, c ∈ MemoryScan.candidates scan → ∃ id row md, showable db now_ms scope id row md ∧
       MemoryCandidate.key c = MemoryKey.local id (as_u64 (MemoryRow.version row)) ∧ MemoryCandidate.metadata c = md ∧
       MemoryCandidate.preview c = preview (MemoryRow.content row)) ∧
  (∀ references scope db' records, read_filtered limits db references now_ms scope = Ok (db', records) →
     ∀ r, r ∈ records → shown_record db now_ms scope r) ∧
  (∀ db' records, list_local limits db now_ms = Ok (db', records) →
     ∀ r, r ∈ records → shown_record db now_ms None r).
Proof.
  intros Hok%memories_reachable_ok. assert (memories_ok limits (prune_expired db now_ms)) as Hok0 by (by apply ok_prune).
  destruct (load_all_ok limits _ Hok0) as (l & Hl & Hin & _). split_and!.
  - intros query limit scope db' scan. unfold scan_filtered. intros ([] & _ & H)%rbind_Ok.
    rewrite (open_ok limits) in H by done. cbn [rbind] in H. rewrite Hl in H. cbn [rbind] in H.
    apply rbind_Ok in H as (db1 & _ & [= _ <-]%Ok_inj). cbn. intros c (memory & Hm & Hk & Hmd & Hp)%rank_elem.
    apply list_elem_of_fmap in Hm as (m & -> & [Hs [Hp2 (id & row & md & Hr & Hd & ->)%Hin]%list_elem_of_filter]%list_elem_of_filter).
    exists id, row, md. split_and!; [by apply showable_stored|done..].
  - intros references scope db' records. unfold read_filtered. rewrite (open_ok limits) by done. cbn [rbind].
    intros ([[db1 seen] rs] & Hf & [= _ <-]%Ok_inj)%rbind_Ok.
    apply (for_each_inv (λ _ (acc : Reading), memories_ok limits acc.1.1 ∧ counted (prune_expired db now_ms) acc.1.1 ∧
      ∀ r, r ∈ acc.2 → shown_record db now_ms scope r)) in Hf; [by apply Hf|..]; cbn [fst snd].
    + split_and!; [done| |by intros r ?%elem_of_nil]. intros id row Hr. by exists row.
    + intros _ reference [[d s] rl] [[d' s'] rl'] _ (Hd & Hcd & Hr) Hs. cbn [fst snd] in *.
      destruct (read_reference_shows _ _ _ _ _ _ _ _ _ _ Hok Hd Hcd Hs) as [Hcd' Hr'].
      destruct (read_reference_keeps _ _ _ _ _ _ _ _ _ _ Hd Hs) as [Hd' _].
      split_and!; [done..|]. intros r []%Hr'; auto.
  - intros db' records. unfold list_local. rewrite (open_ok limits) by done. cbn [rbind]. rewrite Hl. cbn [rbind].
    intros [= _ <-]%Ok_inj r (m & -> & [Hp (id & row & md & Hr & Hd & ->)%Hin]%list_elem_of_filter)%list_elem_of_fmap.
    exists id, row, md. split_and!; [by apply showable_stored|done..].
Qed.

(** ** Imports are idempotent *)

Lemma elem_of_push_distinct {A} `{EqDecision A} (l : list A) x y : y ∈ push_distinct l x ↔ y ∈ l ∨ y = x.
Proof.
  unfold push_distinct. destruct (decide (x ∈ l)); [naive_solver|]. rewrite elem_of_app, list_elem_of_singleton. done.
Qed.

Lemma elem_of_push_all {A} `{EqDecision A} (l more : list A) y : y ∈ push_all l more ↔ y ∈ l ∨ y ∈ more.
Proof.
  unfold push_all. revert l. induction more as [|x more IH]; intros l; cbn; [rewrite elem_of_nil; naive_solver|].
  rewrite IH, elem_of_push_distinct, elem_of_cons. naive_solver.
Qed.

Lemma push_all_known {A} `{EqDecision A} (l more : list A) : (∀ y, y ∈ more → y ∈ l) → push_all l more = l.
Proof.
  unfold push_all. induction more as [|x more IH]; intros H; cbn; [done|].
  unfold push_distinct at 2. rewrite decide_True by (apply H; left). apply IH. intros y ?. apply H. by right.
Qed.

Lemma push_all_head {A} `{EqDecision A} (l more : list A) x : head (push_all (x :: l) more) = Some x.
Proof.
  unfold push_all. assert (∀ l, head l = Some x → head (foldl push_distinct l more) = Some x) as H; [|by apply H].
  clear l. induction more as [|y more IH]; intros l Hl; [done|]. cbn. apply IH.
  unfold push_distinct. destruct (decide _); [done|]. by destruct l.
Qed.

Lemma push_all_nil_head {A} `{EqDecision A} (l : list A) x : head (push_all [] (x :: l)) = Some x.
Proof.
  change (push_all [] (x :: l)) with (push_all (push_distinct [] x) l). unfold push_distinct.
  rewrite decide_False by (by intros ?%elem_of_nil). apply push_all_head.
Qed.

Lemma push_distinct_cons {A} `{EqDecision A} (x : A) l y : ∃ t, push_distinct (x :: l) y = x :: t.
Proof. unfold push_distinct. destruct (decide _); by eexists. Qed.

(** The provenance of [incoming] is known to [md]. *)
Definition knows (md incoming : MemoryMetadata.t) : Prop :=
  (∀ k, k ∈ MemoryMetadata.imported_from incoming → k ∈ MemoryMetadata.imported_from md) ∧
  (∀ o, o ∈ MemoryMetadata.transferred_from incoming → o ∈ MemoryMetadata.transferred_from md).

Lemma merge_known md incoming : knows md incoming → merge_provenance md incoming = md.
Proof.
  intros [Hi Ht]. unfold merge_provenance, put; cbn. rewrite !push_all_known by done. by destruct md.
Qed.

Lemma merge_knows md incoming : knows (merge_provenance md incoming) incoming ∧ ∀ other, knows md other → knows (merge_provenance md incoming) other.
Proof.
  unfold knows, merge_provenance, put; cbn. split; [split; intros; apply elem_of_push_all; by right|].
  intros other [Hi Ht]. split; intros; apply elem_of_push_all; left; auto.
Qed.

(** The identity under which a record travels, in its parts. *)
Lemma transfer_identity_inj md1 c1 n1 md2 c2 n2 :
  transfer_identity md1 c1 n1 = transfer_identity md2 c2 n2 →
  match MemoryMetadata.transferred_from md1 with
  | source :: _ => (Some (OwnershipReference.ownership_id source), MemoryKey.namespace (OwnershipReference.key source))
  | [] => (MemoryMetadata.ownership_id md1, n1)
  end = match MemoryMetadata.transferred_from md2 with
  | source :: _ => (Some (OwnershipReference.ownership_id source), MemoryKey.namespace (OwnershipReference.key source))
  | [] => (MemoryMetadata.ownership_id md2, n2)
  end ∧ c1 = c2.
Proof.
  unfold transfer_identity. intros E. apply (f_equal (from_str (A := TransferPayload))) in E. rewrite !from_str_to_string in E.
  injection E as E1 E2 E3 _. split; [|done]. destruct (MemoryMetadata.transferred_from md1), (MemoryMetadata.transferred_from md2); congruence.
Qed.

#[local] Arguments push_all : simpl never.
#[local] Arguments push_distinct : simpl never.

(** Merging the provenance of the same memory keeps its identity. *)
Lemma merge_identity id row md memory :
  stored_identity (stored id row md) = import_identity memory →
  transfer_identity (merge_provenance md (imported_metadata memory)) (MemoryRow.content row) None = import_identity memory.
Proof.
  intros E. unfold stored_identity in E. cbn in E.
  pose proof E as (Ho & _)%transfer_identity_inj. rewrite <-E. clear E.
  unfold transfer_identity, merge_provenance, imported_metadata, put in *. cbn in *. f_equal.
  destruct (MemoryMetadata.transferred_from md) as [|source l].
  - destruct (MemoryMetadata.transferred_from (MemoryRecord.metadata memory)) as [|source' l'] eqn:Et.
    + cbn in *. injection Ho as -> Hn. by rewrite Hn.
    + destruct (push_distinct_cons source' l' (OwnershipReference.mk (source_ownership memory) (MemoryRecord.key memory))) as [t Et'].
      rewrite Et'. pose proof (push_all_nil_head t source') as Hh.
      destruct (push_all [] _) as [|x ?]; [done|]. cbn in Hh |- *. injection Hh as ->. injection Ho as -> <-. done.
  - pose proof (push_all_head l (push_distinct (MemoryMetadata.transferred_from (MemoryRecord.metadata memory))
      (OwnershipReference.mk (source_ownership memory) (MemoryRecord.key memory))) source) as Hh.
    destruct (push_all _ _) as [|x ?]; [done|]. cbn in Hh. by injection Hh as ->.
Qed.

(** A new record has the identity of the record it was imported from. *)
Lemma new_identity memory drawn :
  transfer_identity (imported_metadata memory <| MemoryMetadata.ownership_id := Some drawn |>) (MemoryRecord.content memory) None
    = import_identity memory.
Proof.
  unfold import_identity, transfer_identity, imported_metadata, put. cbn. unfold push_distinct. f_equal.
  destruct (MemoryMetadata.transferred_from (MemoryRecord.metadata memory)) as [|source l].
  - rewrite decide_False by (by intros ?%elem_of_nil). done.
  - destruct (decide _); done.
Qed.

Lemma find_update ident m' l ident' :
  is_Some (find_existing ident l) → stored_identity m' = ident →
  find_existing ident' (update_existing ident m' l) = if decide (ident' = ident) then Some m' else find_existing ident' l.
Proof.
  intros Hs Hm. revert Hs. induction l as [|m l IH]; cbn; [by intros []|]. unfold str_eqb.
  destruct (bool_decide_reflect (stored_identity m = ident)) as [E|E].
  - intros _. cbn. unfold str_eqb. rewrite Hm. destruct (decide (ident' = ident)) as [->|Hne].
    + by rewrite bool_decide_true.
    + rewrite (bool_decide_false (ident = ident')) by congruence. by rewrite bool_decide_false by congruence.
  - intros Hs. cbn. unfold str_eqb. destruct (bool_decide_reflect (stored_identity m = ident')) as [E'|E'].
    + rewrite decide_False by congruence. done.
    + by apply IH.
Qed.

Lemma find_append ident l m :
  find_existing ident (l ++ [m]) = match find_existing ident l with Some m0 => Some m0 | None => if decide (stored_identity m = ident) then Some m else None end.
Proof.
  induction l as [|m' l IH]; cbn; unfold str_eqb; [by destruct (decide _); [rewrite bool_decide_true|rewrite bool_decide_false]|].
  destruct (bool_decide _); [done|apply IH].
Qed.

(** A record that was imported is found with its provenance known. *)
Definition settled existing (memory : MemoryRecord.t) : Prop :=
  ∃ m, find_existing (import_identity memory) existing = Some m ∧ knows (StoredMemory.metadata m) (imported_metadata memory).

Lemma imported_settles db existing memory db' existing' report report' :
  mirrors existing db → imported limits db existing memory db' existing' report report' →
  settled existing' memory ∧ ∀ other, settled existing other → settled existing' other.
Proof.
  intros Hmi [? current ? Hf E|? current row ? Hf merged Hne Hval Hl row' Hrow Hi|? row drawn ? Hf md Hval Hrow Hmax Hc Hm Hid Hun Huse Hi Hrec Hb].
  - split; [|done]. exists current. split; [done|]. rewrite <-E. apply (proj1 (merge_knows _ _)).
  - pose proof (find_existing_Some _ _ _ Hf) as [Hin Hident]. destruct (mi_row _ _ Hmi _ Hin) as (row0 & md & Hl0 & _ & Ecur).
    assert (row0 = row) as -> by congruence.
    assert (Hnew : stored_identity (stored (StoredMemory.id current) row' merged) = import_identity memory0).
    { unfold stored_identity. cbn. subst merged. rewrite Ecur in Hident |- *. by apply merge_identity in Hident. }
    split.
    + exists (stored (StoredMemory.id current) row' merged). rewrite find_update, decide_True by (done || by eexists).
      split; [done|apply (proj1 (merge_knows _ _))].
    + intros other (m & Hfo & Hk). unfold settled. rewrite find_update by (done || by eexists).
      destruct (decide _) as [Eo|Hneo]; [|by exists m]. eexists. split; [done|]. rewrite Eo, Hf in Hfo. injection Hfo as ->.
      by apply (proj2 (merge_knows _ _)).
  - split.
    + exists (stored (next_id db) row md). rewrite find_append, Hf. unfold stored_identity; cbn. subst md. rewrite Hc, new_identity, decide_True by done.
      split; [done|]. by split.
    + intros other (m & Hfo & Hk). exists m. by rewrite find_append, Hfo.
Qed.

(** Importing records again, while none of the memories has expired, changes nothing:
    every record is skipped, whatever the store held before, and whatever repetitions or
    merges of provenance the first import met. *)
Theorem import_idempotent db records now_ms draw db' report now_ms' draw' :
  memories_reachable db → import_records_local limits db records now_ms draw = Ok (db', report) →
  prune_expired db' now_ms' = db' →
  import_records_local limits db' records now_ms' draw' = Ok (db', ImportReport.mk 0 (length records)).
Proof.
  intros Hok%memories_reachable_ok Himp Hlive.
  destruct (import_Ok limits bounded _ _ _ _ _ _ Hok Himp) as (Hport & existing & existing' & Hok0 & Hmi & Hloop & Hok' & _ & Hmi').
  assert (Hset : ∀ memory, memory ∈ records → settled existing' memory).
  { apply (for_each_inv (λ seen (acc : Importing), memories_ok limits acc.1.1 ∧ mirrors acc.1.2 acc.1.1 ∧
      ∀ memory, memory ∈ seen → settled acc.1.2 memory)) in Hloop; [by apply Hloop|..].
    - split_and!; [done..|]. by intros memory ?%elem_of_nil.
    - intros seen memory [[d e] r] [[d' e'] r'] [rest Hpre] (Hd & Hm & Hs) Hstep. cbn [fst snd] in *.
      apply (import_record_Ok limits bounded) in Hstep; [|done..|].
      2: { rewrite Forall_forall in Hport. apply Hport. rewrite Hpre. apply elem_of_app. left. apply elem_of_app. right. by left. }
      destruct (imported_keeps limits bounded _ _ _ _ _ _ _ Hd Hm Hstep) as (? & _ & ?).
      destruct (imported_settles _ _ _ _ _ _ _ Hm Hstep) as [Hnew Hold]. split_and!; [done..|].
      intros m [Hin| ->%list_elem_of_singleton]%elem_of_app; auto. }
  unfold import_records_local.
  assert (for_each (λ _ memory, check_portable limits memory) tt records = Ok tt) as -> by (by apply for_each_unit_Ok).
  cbn [rbind].
  rewrite (open_ok limits) by done. cbn [rbind]. rewrite Hlive, (mirrors_load limits _ _ Hok' Hmi'). cbn [rbind].
  assert (Hrun : ∀ todo skipped, (∀ memory, memory ∈ todo → settled existing' memory) →
    for_each (import_record limits now_ms' draw') (db', existing', ImportReport.mk 0 skipped) todo
      = Ok (db', existing', ImportReport.mk 0 (skipped + length todo))).
  { induction todo as [|memory todo IH]; intros skipped Ht; cbn [for_each length]; [by rewrite Nat.add_0_r|].
    destruct (Ht memory) as (m & Hf & Hk); [left|]. unfold import_record at 1. rewrite Hf. unfold merge_existing.
    rewrite merge_known by done. pose proof (find_existing_Some _ _ _ Hf) as [Hin _].
    destruct (mi_row _ _ Hmi' _ Hin) as (row & md & Hl & Hmd & Em).
    assert (validate (StoredMemory.metadata m) = Ok tt) as ->.
    { destruct (ro_metadata _ _ _ (proj1 (mo_row _ _ Hok' _ _ Hl))) as (md' & Hmd' & Hv). rewrite Em. cbn. congruence. }
    cbn [rbind]. rewrite decide_True by done. cbn [rbind ImportReport.inserted ImportReport.skipped].
    rewrite IH by (intros; apply Ht; by right). by rewrite Nat.add_succ_comm. }
  rewrite Hrun by done. done.
Qed.
End runs.
