(* ===== verification/MemoryLessons.v ===== *)
(** * Clients of the stores of memories (crates/memory/src/store/mod.rs, lessons.rs)

    [MemoryStore] is what a store offers; the local store implements it. A client is
    written against the interface: collecting an export page by page, proposing a lesson
    and finalizing the lessons of a run. *)

From S2P Require Import Prelude Digest Contract Cost Workspace Session Secrets MemoryRecords Retrieval.
From S2P Require Import MemoryStore MemoryTransfer MemoryGuarantees MemoryRuns.

#[local] Notation E := MemoryError.t.

(** ** The interface *)

Section interface.
Context {FLT : Float64}.

(** Each operation takes the state of the store and returns it with its answer. *)
Class MemoryStore (S : Type) := {
  scan : string → nat → S → S * result MemoryScan.t E;
  scan_scoped : string → nat → option string → S → S * result MemoryScan.t E;
  read : list Z → list MemoryKey.t → S → S * result (list MemoryRecord.t) E;
  read_scoped : list Z → list MemoryKey.t → option string → S → S * result (list MemoryRecord.t) E;
  list_memories : S → S * result (list MemoryRecord.t) E;
  lesson_page : LessonQuery.t → Z → S → S * result (list MemoryRecord.t) E;
  put_content : string → option MemoryKey.t → S → S * result MemoryRecord.t E;
  put_with_metadata : string → MemoryMetadata.t → option MemoryKey.t → S → S * result MemoryRecord.t E;
  delete_memory : MemoryKey.t → S → S * result unit E;
  sync : list MemoryRecord.t → S → S * result SyncReport.t E;
  export_page : option (list string) → option ExportCursor.t → nat → S →
    S * result (list MemoryRecord.t * option ExportCursor.t) E;
}.
End interface.

(** Sequencing: the state goes on also when an operation fails. *)
Definition after {S A B : Type} (r : S * result A E) (k : A → S → S * result B E) : S * result B E :=
  let '(s, a) := r in match a with Ok a => k a s | Err e => (s, Err e) end.

Definition fails {S A : Type} (e : E) (s : S) : S * result A E := (s, Err e).

(** ** The local store *)

Record LocalStore : Type := mk_local { database : MemoryDb; operations : nat }.

(** [distinct_ids] *)
Definition distinct_ids (ids : list Z) : list Z := push_all [] ids.

Section local.
Context {TXT : MemoryText} {UNI : Unicode} {FLT : Float64} {SHA : Sha256}.
Variable limits : MemoryLimits.t.
(** The time of the n-th operation, and the identities it draws. *)
Variable now : nat → Z.
Variable draw : nat → nat → string.

(** One transaction: it commits when it succeeds. Opening the database commits on its own,
    but changes nothing where the allocator is past every row. *)
Definition transact {A} (f : MemoryDb → Z → (nat → string) → result (MemoryDb * A) E) (s : LocalStore) :
    LocalStore * result A E :=
  let n := operations s in
  match f (database s) (now n) (draw n) with
  | Ok (db, a) => (mk_local db (S n), Ok a)
  | Err e => (mk_local (database s) (S n), Err e)
  end.

Definition key_references (keys : list MemoryKey.t) : list (Z * option N) :=
  (λ key, (MemoryKey.id key, Some (MemoryKey.version key))) <$> base.filter (λ key, MemoryKey.is_local key = true) keys.

Definition foreign (replacement : option MemoryKey.t) : bool :=
  match replacement with Some key => negb (MemoryKey.is_local key) | None => false end.

Definition local_memory_store : MemoryStore LocalStore := {|
  scan query limit := transact (λ db now _,
    scan_filtered limits db query (Nat.min limit (MemoryLimits.scan_results limits)) now None);
  scan_scoped query limit repository := transact (λ db now _,
    scan_filtered limits db query limit now (Some (ScanScope.mk repository)));
  read ids keys := transact (λ db now _,
    read_filtered limits db (key_references keys ++ ((λ id, (id, None)) <$> distinct_ids ids)) now None);
  read_scoped ids keys repository := transact (λ db now _,
    read_filtered limits db (key_references keys ++ ((λ id, (id, None)) <$> ids)) now (Some (ScanScope.mk repository)));
  list_memories := transact (λ db now _, list_local limits db now);
  lesson_page query after := transact (λ db now _, lesson_page_local limits db query after now);
  put_content content replacement s :=
    if foreign replacement then fails MemoryError.RemoteReadOnly s
    else transact (λ db now draw, put_metadata_local limits db content MemoryMetadata.default replacement now (draw 0)) s;
  put_with_metadata content metadata replacement s :=
    if foreign replacement then fails MemoryError.RemoteReadOnly s
    else transact (λ db now draw, put_metadata_local limits db content metadata replacement now (draw 0)) s;
  delete_memory key s :=
    if negb (MemoryKey.is_local key) then fails MemoryError.RemoteReadOnly s
    else transact (λ db _ _, let? db := delete_local db key in Ok (db, tt)) s;
  sync records := transact (λ db now draw, sync_local_snapshot limits db records now draw);
  export_page _ cursor limit := transact (λ db now _, export_local_page limits db cursor limit now);
|}.
#[global] Existing Instance local_memory_store.
End local.

(** ** Collecting an export *)

Definition cursor_le (a b : ExportCursor.t) : bool :=
  let x := ExportCursor.namespace a in
  let y := ExportCursor.namespace b in
  if decide (x = y) then (ExportCursor.id a <=? ExportCursor.id b)%Z else bool_decide (key_le x y).

Definition sum_content (records : list MemoryRecord.t) : option N :=
  foldl (λ total record, total ← total; u64_checked_add total (str_len (MemoryRecord.content record))) (Some 0%N) records.

Section clients.
Context {FLT : Float64} {ST : Type} {STORE : MemoryStore ST}.

(** The page is refused: it exceeds what a local store holds, or leads nowhere. *)
Definition bad_page (records page : list MemoryRecord.t) (content_bytes : N) (cursor next : option ExportCursor.t) : bool :=
  (MemoryLimits.records MemoryLimits.PRODUCTION <? N.of_nat (length records + length page))%N
  || (MemoryLimits.total_content_bytes MemoryLimits.PRODUCTION <? content_bytes)%N
  || match next, cursor with Some next, Some cursor => cursor_le next cursor | _, _ => false end
  || (bool_decide (page = []) && bool_decide (next ≠ None)).

(** The loop of [export_all]; [None] is a loop that did not end within [fuel] pages. *)
Fixpoint export_loop (fuel : nat) (namespaces : option (list string)) (cursor : option ExportCursor.t)
    (records : list MemoryRecord.t) (content_bytes : N) (s : ST) : option (ST * result (list MemoryRecord.t) E) :=
  match fuel with
  | O => None
  | S fuel =>
      match export_page namespaces cursor MAX_EXPORT_PAGE_RECORDS s with
      | (s, Err e) => Some (s, Err e)
      | (s, Ok (page, next)) =>
          match sum_content page ≫= u64_checked_add content_bytes with
          | None => Some (s, Err MemoryError.InvalidPagination)
          | Some content_bytes =>
              if bad_page records page content_bytes cursor next
              then Some (s, Err MemoryError.InvalidPagination)
              else match next with
                   | Some next => export_loop fuel namespaces (Some next) (records ++ page) content_bytes s
                   | None => Some (s, Ok (records ++ page))
                   end
          end
      end
  end.
Definition export_all (fuel : nat) (namespaces : option (list string)) : ST → option (ST * result (list MemoryRecord.t) E) :=
  export_loop fuel namespaces None [] 0.

(** ** Lessons *)

(** [validate_page] *)
Fixpoint validate_records `{!Unicode} (query : LessonQuery.t) (after : Z) (records : list MemoryRecord.t) : bool :=
  match records with
  | [] => true
  | record :: records =>
      (after <? record_id record)%Z && query_matches query record && validate_records query (record_id record) records
  end.
Definition validate_page `{!Unicode} (query : LessonQuery.t) (after : Z) (records : list MemoryRecord.t) : result unit E :=
  reject_if ((MAX_EXPORT_PAGE_RECORDS <? length records) || negb (validate_records query after records))
    MemoryError.InvalidPagination.

(** The metadata of a nomination: the evidence of the record it replaces becomes history. *)
Definition nominate (metadata : MemoryMetadata.t) (record : MemoryRecord.t) : MemoryMetadata.t :=
  let old := MemoryRecord.metadata record in
  let metadata := metadata <| MemoryMetadata.historical_evidence :=
    push_all (MemoryMetadata.historical_evidence old)
      (MemoryMetadata.evidence old ++ behavior_tests (MemoryMetadata.kind old)) |> in
  let metadata := metadata <| MemoryMetadata.producing_traces :=
    push_all (MemoryMetadata.producing_traces metadata) (MemoryMetadata.producing_traces old) |> in
  let metadata := metadata <| MemoryMetadata.imported_from := MemoryMetadata.imported_from old |> in
  let metadata := metadata <| MemoryMetadata.transferred_from := MemoryMetadata.transferred_from old |> in
  metadata <| MemoryMetadata.ownership_id := MemoryMetadata.ownership_id old |>.

Definition propose_lesson `{!Unicode} (content : string) (metadata : MemoryMetadata.t) (s : ST) : ST * result MemoryRecord.t E :=
  if negb (is_pending_lesson (MemoryMetadata.kind metadata))
     || negb (bool_decide (length (MemoryMetadata.producing_traces metadata) = 1))
  then fails MemoryError.InvalidMetadata s
  else
    let metadata := metadata <| MemoryMetadata.pending_run := head (MemoryMetadata.producing_traces metadata) |> in
    let query := LessonQuery.Matching (MemoryMetadata.scope metadata) (normalize_identity content) in
    after (lesson_page query 0 s) (λ records s,
      match validate_page query 0 records with
      | Err e => fails e s
      | Ok _ =>
          match records with
          | record :: _ => put_with_metadata content (nominate metadata record) (Some (MemoryRecord.key record)) s
          | [] => put_with_metadata content metadata None s
          end
      end).

Definition finalized (metadata : MemoryMetadata.t) : MemoryMetadata.t :=
  match MemoryMetadata.kind metadata with
  | MemoryKind.LessonProposal behavior_test _ =>
      metadata <| MemoryMetadata.kind := MemoryKind.LessonProposal behavior_test ProposalState.Proposed |>
               <| MemoryMetadata.pending_run := None |>
  | _ => metadata
  end.

(** The records of one page: the cursor, the count. *)
Fixpoint finalize_page (records : list MemoryRecord.t) (cursor : Z) (count : nat) (s : ST) : ST * result (Z * nat) E :=
  match records with
  | [] => (s, Ok (cursor, count))
  | record :: records =>
      let cursor := record_id record in
      if is_lesson (MemoryMetadata.kind (MemoryRecord.metadata record)) then
        match put_with_metadata (MemoryRecord.content record) (finalized (MemoryRecord.metadata record))
                (Some (MemoryRecord.key record)) s with
        | (s, Ok _) => finalize_page records cursor (S count) s
        | (s, Err (MemoryError.Conflict | MemoryError.NotFound)) => finalize_page records cursor count s
        | (s, Err e) => (s, Err e)
        end
      else finalize_page records cursor count s
  end.

Fixpoint finalize_loop `{!Unicode} (fuel : nat) (query : LessonQuery.t) (cursor : Z) (count : nat) (s : ST) :
    option (ST * result nat E) :=
  match fuel with
  | O => None
  | S fuel =>
      match lesson_page query cursor s with
      | (s, Err e) => Some (s, Err e)
      | (s, Ok records) =>
          match validate_page query cursor records with
          | Err e => Some (s, Err e)
          | Ok _ =>
              if bool_decide (records = []) then Some (s, Ok count)
              else match finalize_page records cursor count s with
                   | (s, Err e) => Some (s, Err e)
                   | (s, Ok (cursor, count)) => finalize_loop fuel query cursor count s
                   end
          end
      end
  end.
Definition finalize_lessons `{!Unicode} (fuel : nat) (trace : TraceReference.t) : ST → option (ST * result nat E) :=
  finalize_loop fuel (LessonQuery.Pending trace) 0 0.

(** ** Exports end, whatever the store answers *)

(** A page that leads to another holds a record, and there is room for 512. *)
Theorem export_all_terminates namespaces (s : ST) : is_Some (export_all 514 namespaces s).
Proof.
  unfold export_all. assert (∀ fuel cursor records bytes s,
    length records ≤ 512 → 514 ≤ length records + fuel → is_Some (export_loop fuel namespaces cursor records bytes s)) as H;
    [|apply H; cbn; lia].
  clear s. induction fuel as [|fuel IH]; intros cursor records bytes s Hl Hf; [lia|]. cbn.
  destruct (export_page _ _ _ s) as [s' [[page next]|e]]; [|by eexists].
  destruct (_ ≫= _) as [total|]; [|by eexists]. destruct (bad_page _ _ _ _ _) eqn:Hb; [by eexists|].
  destruct next as [next|]; [|by eexists]. unfold bad_page in Hb.
  apply orb_false_iff in Hb as [[[Hr%N.ltb_ge _]%orb_false_iff _]%orb_false_iff Hp].
  rewrite (bool_decide_true (Some next ≠ None)), andb_true_r in Hp by done. apply bool_decide_eq_false in Hp.
  change (MemoryLimits.records MemoryLimits.PRODUCTION) with 512%N in Hr.
  apply IH; rewrite length_app; [lia|]. destruct page; [done|cbn; lia].
Qed.
End clients.

(** ** The local store exports everything *)

Definition id_lt (a b : MemoryRecord.t) : Prop := (record_id a < record_id b)%Z.

Lemma filter_after_elem records x more :
  StronglySorted id_lt (records ++ x :: more) →
  base.filter (λ r, (record_id x <? record_id r)%Z = true) (records ++ x :: more) = more.
Proof.
  intros Hs. rewrite filter_app, filter_cons_False by (rewrite Z.ltb_irrefl; done).
  rewrite filter_none_in, filter_all; [done|..].
  - apply StronglySorted_app_1_r in Hs. apply StronglySorted_inv in Hs as [_ Hall].
    rewrite Forall_forall in Hall. intros r Hr. by apply Z.ltb_lt, Hall.
  - intros r Hr Hlt%Z.ltb_lt.
    pose proof (StronglySorted_app_1_elem_of id_lt _ _ _ _ Hs Hr (list_elem_of_here _ _)) as H. unfold id_lt in H. lia.
Qed.

Lemma sorted_ids records : StronglySorted id_lt records → NoDup (record_id <$> records).
Proof.
  induction 1 as [|r l Hl IH Hr]; cbn; constructor; [|done]. rewrite Forall_forall in Hr.
  intros (r' & E & Hr')%list_elem_of_fmap. specialize (Hr _ Hr'). unfold id_lt in Hr. lia.
Qed.

Lemma sorted_records_valid `{!Unicode} query records : StronglySorted id_lt records →
  ∀ cursor, (∀ r, r ∈ records → (cursor < record_id r)%Z ∧ query_matches query r = true) →
  validate_records query cursor records = true.
Proof.
  induction 1 as [|r l Hl IH Hr]; intros cursor Hall; [done|]. cbn.
  destruct (Hall r) as [Hc ->]; [left|]. rewrite (proj2 (Z.ltb_lt _ _) Hc). cbn. apply IH. intros r' Hr'.
  rewrite Forall_forall in Hr. split; [by apply Hr|]. apply Hall. by right.
Qed.

Section exports.
Context {TXT : MemoryText} {UNI : Unicode} {FLT : Float64} {SHA : Sha256} {TXTOK : MemoryTextOk}.
Variable limits : MemoryLimits.t.
Implicit Types (records : list MemoryRecord.t) (db : MemoryDb).

(** What [list_local] shows of a store in which nothing has expired. *)
Definition shown db : list MemoryRecord.t :=
  match load_all limits db with
  | Ok all => StoredMemory.record <$> base.filter (λ memory, presentable memory = true) all
  | Err _ => []
  end.

Lemma list_local_shown db now_ms :
  memories_ok limits db → list_local limits db now_ms = Ok (prune_expired db now_ms, shown (prune_expired db now_ms)).
Proof.
  intros Hok. unfold list_local, shown. rewrite (open_ok limits) by done. cbn.
  destruct (load_all_ok limits (prune_expired db now_ms)) as (l & Hl & _); [by apply ok_prune|]. by rewrite Hl.
Qed.

Lemma mirrors_shown db : memories_ok limits db → ∃ all, mirrors all db ∧
  shown db = StoredMemory.record <$> base.filter (λ memory, presentable memory = true) all.
Proof.
  intros Hok. destruct (load_all_ok limits db Hok) as (l & Hl & _). exists l. split; [by eapply mirrors_load_all|].
  unfold shown. by rewrite Hl.
Qed.

Lemma shown_sorted db : memories_ok limits db → StronglySorted id_lt (shown db).
Proof.
  intros Hok. destruct (mirrors_shown db Hok) as (all & Hmi & ->).
  assert (StronglySorted (λ a b, StoredMemory.id a < StoredMemory.id b)%Z all) as Hs.
  { pose proof (mi_ids _ _ Hmi) as Hids. pose proof (btree_iter_sorted (memories db)) as Hle.
    fold (btree_keys (memories db)) in Hle. rewrite <-Hids in Hle. pose proof (mi_nodup _ _ Hmi) as Hnd.
    clear -Hle Hnd. induction all as [|m all IH]; [constructor|]. cbn in *.
    apply StronglySorted_inv in Hle as [Hle Hall]. apply NoDup_cons in Hnd as [Hni Hnd]. constructor; [by apply IH|].
    rewrite Forall_forall in Hall. apply Forall_forall. intros m' Hm'. assert (StoredMemory.id m' ∈ StoredMemory.id <$> all) as Hin by (by apply list_elem_of_fmap_2).
    specialize (Hall _ Hin). assert (StoredMemory.id m ≠ StoredMemory.id m') by congruence. lia. }
  assert (∀ m, record_id (StoredMemory.record m) = StoredMemory.id m) as Hid.
  { intros m. unfold record_id, StoredMemory.record, StoredMemory.key. by destruct (StoredMemory.namespace m). }
  apply (StronglySorted_filter _ (λ memory, presentable memory = true)) in Hs.
  induction Hs as [|m l Hl IH Hall]; cbn; constructor; [done|]. rewrite Forall_forall in Hall. apply Forall_forall.
  intros r (m' & -> & Hm')%list_elem_of_fmap. unfold id_lt. rewrite !Hid. by apply Hall.
Qed.

Lemma shown_ids_positive db r : memories_ok limits db → r ∈ shown db → (0 < record_id r)%Z.
Proof.
  intros Hok. destruct (mirrors_shown db Hok) as (all & Hmi & ->).
  intros (m & -> & [_ Hin]%list_elem_of_filter)%list_elem_of_fmap.
  destruct (mi_row _ _ Hmi _ Hin) as (row & md & Hl & _ & ->). cbn.
  apply (ro_id limits _ row). by eapply mo_row.
Qed.

Lemma shown_length db : memories_ok limits db → (N.of_nat (length (shown db)) ≤ MemoryLimits.records limits)%N.
Proof.
  intros Hok. destruct (mirrors_shown db Hok) as (all & Hmi & ->). rewrite length_fmap.
  pose proof (length_filter (λ memory, presentable memory = true) all) as Hle.
  assert (length all = size (memories db)) as E.
  { rewrite <-(length_fmap StoredMemory.id), (mi_ids _ _ Hmi). unfold btree_keys. rewrite length_fmap, btree_iter_perm.
    apply length_map_to_list. }
  pose proof (mo_records _ _ Hok) as Hr. unfold total_records in Hr. lia.
Qed.

Lemma sum_lengths_filter (P : StoredMemory.t → Prop) `{!∀ x, Decision (P x)} all :
  (sum_lengths (StoredMemory.record <$> base.filter P all) ≤ sum_lengths (StoredMemory.record <$> all))%N.
Proof.
  unfold sum_lengths. induction all as [|m all IH]; [done|]. rewrite filter_cons. destruct (decide (P m)); cbn; lia.
Qed.

Lemma mirrors_bytes all db : mirrors all db → sum_lengths (StoredMemory.record <$> all) = total_content_bytes db.
Proof.
  intros Hmi. unfold total_content_bytes, map_sum. rewrite map_fold_foldr.
  assert (Hperm : ∀ f : Z * MemoryRow.t → N → N, (∀ a b n, f a (f b n) = f b (f a n)) →
    foldr f 0%N (map_to_list (memories db)) = foldr f 0%N (btree_iter (memories db))).
  { intros f Hf. apply (foldr_permutation eq f 0%N); [intros; apply Hf|]. by rewrite btree_iter_perm. }
  rewrite Hperm by (intros [] [] n; cbn; lia). clear Hperm.
  pose proof (mi_row _ _ Hmi) as Hrow. pose proof (mi_ids _ _ Hmi) as Hids. unfold btree_keys in Hids.
  assert (∀ e, e ∈ btree_iter (memories db) → memories db !! e.1 = Some e.2) as Hlook by (intros []; apply elem_of_btree_iter).
  unfold sum_lengths. revert Hids Hlook. generalize (btree_iter (memories db)). clear Hmi. induction all as [|m all IH]; intros [|[id row] l] Hids Hlook; try done.
  cbn in Hids. injection Hids as Hid Hids. cbn. rewrite (IH ltac:(intros ??; apply Hrow; by right) l Hids) by (intros ??; apply Hlook; by right).
  destruct (Hrow m) as (row' & md & Hl & _ & Em); [left|]. specialize (Hlook (id, row) (list_elem_of_here _ _)). cbn in Hlook.
  rewrite Hid in Hl. assert (row' = row) as -> by congruence. by rewrite Em.
Qed.

Lemma shown_bytes db : memories_ok limits db → (sum_lengths (shown db) ≤ MemoryLimits.total_content_bytes limits)%N.
Proof.
  intros Hok. destruct (mirrors_shown db Hok) as (all & Hmi & ->). pose proof (mo_bytes _ _ Hok).
  pose proof (sum_lengths_filter (λ memory, presentable memory = true) all). rewrite (mirrors_bytes _ _ Hmi) in *. lia.
Qed.

(** One page: what it holds, and what is left after it. *)
Lemma page_of_split records before rest cursor :
  StronglySorted id_lt records → records = before ++ rest →
  base.filter (λ r, (match cursor with Some c => ExportCursor.id c | None => 0 end <? record_id r)%Z = true) records = rest →
  let '(page, next) := page_of records cursor MAX_EXPORT_PAGE_RECORDS in
  page = take 128 rest ∧
  match next with
  | None => length rest ≤ 128
  | Some c => 128 < length rest ∧ ExportCursor.namespace c = "" ∧ (∃ r, r ∈ page ∧ ExportCursor.id c = record_id r) ∧
      base.filter (λ r, (ExportCursor.id c <? record_id r)%Z = true) records = drop 128 rest
  end.
Proof.
  intros Hs -> Hf. unfold page_of. rewrite Hf. change (Nat.max 1 (Nat.min MAX_EXPORT_PAGE_RECORDS MAX_EXPORT_PAGE_RECORDS)) with 128.
  split; [done|]. destruct (bool_decide_reflect (128 < length rest)) as [Hlt|Hge]; [|lia].
  assert (length (take 128 rest) = 128) as Hlen by (rewrite length_take; lia).
  destruct (last (take 128 rest)) as [x|] eqn:Hl; [|apply last_None in Hl; by rewrite Hl in Hlen].
  cbn. pose proof Hl as Hx. apply last_Some_elem_of in Hx. split_and!; [done|done|by exists x|].
  apply last_Some in Hl as [p Hp].
  assert (E : before ++ rest = (before ++ p) ++ x :: drop 128 rest).
  { rewrite <-(take_drop 128 rest) at 1. rewrite Hp, <-!app_assoc. done. }
  rewrite E in Hs |- *. by apply filter_after_elem.
Qed.

Lemma sum_content_Ok page : (sum_lengths page ≤ u64_MAX)%N → sum_content page = Some (sum_lengths page).
Proof.
  unfold sum_content. intros Hle. assert (∀ n, (n + sum_lengths page ≤ u64_MAX)%N →
    foldl (λ total record, total ← total; u64_checked_add total (str_len (MemoryRecord.content record))) (Some n) page
      = Some (n + sum_lengths page)%N) as H; [|by rewrite H].
  clear Hle. unfold sum_lengths. induction page as [|r page IH]; intros n Hn; cbn in *; [by rewrite N.add_0_r|].
  unfold u64_checked_add at 2. destruct (N.leb_spec (n + str_len (MemoryRecord.content r)) u64_MAX); [|lia].
  rewrite IH by lia. f_equal. lia.
Qed.
End exports.

Section local_export.
Context {TXT : MemoryText} {UNI : Unicode} {FLT : Float64} {SHA : Sha256} {TXTOK : MemoryTextOk}.
Variable now : nat → Z.
Variable draw : nat → nat → string.

#[local] Notation P := MemoryLimits.PRODUCTION.
#[local] Instance store : MemoryStore LocalStore := local_memory_store P now draw.

Lemma production_bounded : (MemoryLimits.total_content_bytes P < u64_MAX)%N.
Proof. reflexivity. Qed.

Lemma export_loop_all db namespaces : memories_ok P db → (∀ k, prune_expired db (now k) = db) →
  ∀ fuel before rest cursor n, shown P db = before ++ rest → length rest < fuel →
    base.filter (λ r, (match cursor with Some c => ExportCursor.id c | None => 0 end <? record_id r)%Z = true) (shown P db) = rest →
    match cursor with Some c => ExportCursor.namespace c = "" | None => True end →
    ∃ n', export_loop fuel namespaces cursor before (sum_lengths before) (mk_local db n) = Some (mk_local db n', Ok (shown P db)).
Proof.
  intros Hok Hlive. pose proof (shown_length P db Hok) as Hlen. pose proof (shown_bytes P db Hok) as Hbytes.
  induction fuel as [|fuel IH]; intros before rest cursor n Hr Hfuel Hf Hns; [lia|]. cbn [export_loop].
  pose proof (page_of_split _ _ _ _ (shown_sorted P db Hok) Hr Hf) as Hpage.
  unfold export_page, store, local_memory_store, transact. cbn [operations database].
  unfold export_local_page. rewrite list_local_shown, Hlive by done. cbn [rbind].
  destruct (page_of _ cursor _) as [page next]. destruct Hpage as [-> Hnext].
  assert (Hsplit : sum_lengths (shown P db) = (sum_lengths before + (sum_lengths (take 128 rest) + sum_lengths (drop 128 rest)))%N).
  { rewrite Hr, sum_lengths_app. f_equal. rewrite <-sum_lengths_app. by rewrite take_drop. }
  rewrite Hr, length_app in Hlen.
  change (MemoryLimits.total_content_bytes P) with 262144%N in Hbytes. change (MemoryLimits.records P) with 512%N in Hlen.
  rewrite sum_content_Ok by (unfold u64_MAX; lia). cbn [mbind option_bind].
  assert (u64_checked_add (sum_lengths before) (sum_lengths (take 128 rest)) = Some (sum_lengths (before ++ take 128 rest))) as ->.
  { rewrite sum_lengths_app. unfold u64_checked_add. destruct (N.leb_spec (sum_lengths before + sum_lengths (take 128 rest)) u64_MAX); [done|].
    unfold u64_MAX in *. lia. }
  assert (bad_page before (take 128 rest) (sum_lengths (before ++ take 128 rest)) cursor next = false) as ->.
  { unfold bad_page. rewrite !orb_false_iff. split_and!.
    - apply N.ltb_ge. rewrite length_take. change (MemoryLimits.records P) with 512%N. lia.
    - apply N.ltb_ge. rewrite sum_lengths_app. change (MemoryLimits.total_content_bytes P) with 262144%N. lia.
    - destruct next as [c|], cursor as [c0|]; try done. destruct Hnext as (_ & Hn & (r & Hin & Hc) & _).
      unfold cursor_le. rewrite Hn, Hns, decide_True by done. apply Z.leb_gt. rewrite Hc.
      assert (r ∈ rest) as Hin' by (rewrite <-(take_drop 128 rest); apply elem_of_app; by left).
      rewrite <-Hf in Hin'. apply list_elem_of_filter in Hin' as [Hlt%Z.ltb_lt _]. done.
    - destruct next as [c|]; [|by rewrite andb_false_r]. destruct Hnext as (Hlt & _).
      rewrite bool_decide_false; [done|]. intros E. apply (f_equal length) in E. rewrite length_take in E. cbn [length] in E. lia. }
  destruct next as [c|].
  - destruct Hnext as (Hlt & Hn & _ & Hd).
    apply (IH _ (drop 128 rest)); [by rewrite <-app_assoc, take_drop|rewrite length_drop; lia|done|done].
  - eexists. rewrite firstn_all2 by lia. by rewrite Hr.
Qed.

(** A complete export of the local store, collected page by page while nothing expires,
    is the list of every memory that may be shown, in the order of identifiers; no memory
    is missed and none is repeated. *)
Theorem local_export_complete db namespaces n :
  memories_reachable P db → (∀ k, prune_expired db (now k) = db) →
  ∃ n', export_all 514 namespaces (mk_local db n) = Some (mk_local db n', Ok (shown P db)) ∧
    StronglySorted id_lt (shown P db) ∧
    ∀ id row md, memories db !! id = Some row → from_str (MemoryRow.metadata row) = Some md →
      presentable (stored id row md) = true → StoredMemory.record (stored id row md) ∈ shown P db.
Proof.
  intros Hok Hlive. apply (memories_reachable_ok P production_bounded) in Hok.
  destruct (export_loop_all db namespaces Hok Hlive 514 [] (shown P db) None n) as [n' Hn']; [done| | |done|].
  - pose proof (shown_length P db Hok) as Hl. cbn in Hl. lia.
  - apply filter_all. intros r Hr. apply Z.ltb_lt. by eapply shown_ids_positive.
  - exists n'. split_and!; [done|by apply shown_sorted|]. intros id row md Hl Hmd Hp. unfold shown.
    destruct (load_all_ok P db Hok) as (l & -> & Hin & _). apply list_elem_of_fmap_2, list_elem_of_filter. split; [done|].
    apply Hin. by exists id, row, md.
Qed.
End local_export.

(** ** Finalizing settles every lesson of the run *)

Section local_lessons.
Context {TXT : MemoryText} {UNI : Unicode} {FLT : Float64} {SHA : Sha256} {TXTOK : MemoryTextOk}.
Variable limits : MemoryLimits.t.
Hypothesis bounded : (MemoryLimits.total_content_bytes limits < u64_MAX)%N.
Variable now : nat → Z.
Variable draw : nat → nat → string.
Implicit Types (db : MemoryDb) (records : list MemoryRecord.t) (trace : TraceReference.t).

#[local] Instance lesson_store : MemoryStore LocalStore := local_memory_store limits now draw.
#[local] Notation ok := (memories_ok limits).

(** A lesson of the run that is pending at time [t], is one the store shows, and has a next version. *)
Definition pending_at trace (t : Z) db (id : Z) : Prop :=
  ∃ row md, memories db !! id = Some row ∧ expired t row = false ∧ from_str (MemoryRow.metadata row) = Some md ∧
    presentable (stored id row md) = true ∧
    query_matches (LessonQuery.Pending trace) (StoredMemory.record (stored id row md)) = true ∧
    MemoryRow.version row ≠ MAX_I64.

(** [t] is not before any of the first [n] operations. *)
Definition not_before (n : nat) (t : Z) : Prop := ∀ k, k < n → (now k ≤ t)%Z.

Lemma expired_later t t' row : (t ≤ t')%Z → expired t row = true → expired t' row = true.
Proof.
  intros Ht. unfold expired. destruct (MemoryRow.probation_until_ms row) as [u|]; [|done].
  rewrite !andb_true_iff, !Z.leb_le. intros [? ?]. split; [lia|done].
Qed.

Lemma pending_prune trace t db now_ms id : pending_at trace t (prune_expired db now_ms) id → pending_at trace t db id.
Proof. intros (row & md & [Hl _]%prune_lookup & H). by exists row, md. Qed.

(** What one [put] of a finalized lesson does. *)
Definition key_row db (key : MemoryKey.t) : Prop :=
  ∀ row, memories db !! MemoryKey.id key = Some row → as_u64 (MemoryRow.version row) = MemoryKey.version key.

Lemma finalized_run md : is_lesson (MemoryMetadata.kind md) = true → MemoryMetadata.pending_run (finalized md) = None.
Proof. unfold finalized. by destruct (MemoryMetadata.kind md). Qed.

Lemma no_run_no_match trace r :
  MemoryMetadata.pending_run (MemoryRecord.metadata r) = None → query_matches (LessonQuery.Pending trace) r = false.
Proof. intros Hr. unfold query_matches. rewrite Hr. by rewrite bool_decide_false, andb_false_r. Qed.

Lemma replace_errors db content ident key now_ms e :
  ok db → key_row db key → replace limits db content ident key now_ms = Err e → e = MemoryError.Conflict ∨ e = MemoryError.NotFound →
  memories db !! MemoryKey.id key = None ∨ ∃ row, memories db !! MemoryKey.id key = Some row ∧ MemoryRow.version row = MAX_I64.
Proof.
  intros Hok Hkey. unfold replace. destruct (memories db !! _) as [row|] eqn:Hl; [|by left].
  rewrite (Hkey _ Hl), N.eqb_refl. cbn [negb reject_if rbind].
  unfold reject_if at 1. destruct (identity_taken _ _ _); [cbn; intros [= <-]; naive_solver|]. cbn [rbind].
  unfold check_content_capacity, reject_if. destruct (_ <? _)%N; [cbn; intros [= <-]; naive_solver|]. cbn [rbind].
  destruct (i64_checked_add (MemoryRow.version row) 1) as [v|] eqn:Hv; cbn [ok_or rbind].
  2: { intros _ _. right. exists row. split; [done|]. pose proof (ro_version _ _ _ (proj1 (mo_row _ _ Hok _ _ Hl))) as Hr.
       apply dec_stable. intros Hne. assert (i64_checked_add (MemoryRow.version row) 1 = Some (MemoryRow.version row + 1)%Z); [|congruence].
       apply i64_checked_add_Some. unfold MAX_I64 in *. lia. }
  unfold update_row. rewrite Hl. unfold reject_if. destruct (_ || _); [cbn; intros [= <-]; naive_solver|]. cbn [rbind].
  unfold found, load_one, put; cbn. rewrite lookup_insert_eq. unfold load_row, row_to_memory. cbn.
  destruct (from_str (MemoryRow.metadata row)); cbn; [|intros [= <-]; naive_solver]. unfold validate_loaded, validate_record, reject_if.
  destruct (_ || _); cbn; [intros [= <-]; naive_solver|done].
Qed.

Lemma validate_errors md e : validate md = Err e → e = MemoryError.InvalidMetadata.
Proof.
  unfold validate, reject_if. destruct (_ || _); [cbn; congruence|]. cbn. destruct (invalid_provenance md); [cbn; congruence|].
  cbn. destruct (existsb _ _); congruence.
Qed.

Lemma load_one_errors db id e : ok db → load_one limits db id ≠ Err e.
Proof. intros Hok. destruct (load_one_ok limits db id Hok) as [[_ ->]|(? & ? & _ & _ & ->)]; done. Qed.

(** A replacement that is refused as stale: the memory has gone, or has no next version. *)
Lemma put_refused db content md key now_ms drawn e :
  ok db → key_row db key → put_metadata_local limits db content md (Some key) now_ms drawn = Err e →
  e = MemoryError.Conflict ∨ e = MemoryError.NotFound →
  memories (prune_expired db now_ms) !! MemoryKey.id key = None ∨
  ∃ row, memories db !! MemoryKey.id key = Some row ∧ MemoryRow.version row = MAX_I64.
Proof.
  intros Hok Hkey Hput Herr. unfold put_metadata_local in Hput. unfold validate_authored_content, validate_content in Hput.
  unfold reject_if at 1 in Hput. destruct (trim_is_empty content); [cbn in Hput; naive_solver|]. cbn [rbind] in Hput.
  unfold reject_if at 1 in Hput. destruct (_ <? _)%N; [cbn in Hput; naive_solver|]. cbn [rbind] in Hput.
  destruct (validate md) as [[]|e1] eqn:Hv; [|cbn in Hput; apply validate_errors in Hv; naive_solver]. cbn [rbind] in Hput.
  unfold reject_likely_secret, reject_if at 1 in Hput. destruct (contains_likely_secret _); [cbn in Hput; naive_solver|]. cbn [rbind] in Hput.
  unfold reject_if at 1 in Hput. destruct (contains_likely_secret content); [cbn in Hput; naive_solver|]. cbn [rbind] in Hput.
  rewrite (open_ok limits) in Hput by done. cbn [rbind] in Hput.
  assert (ok (prune_expired db now_ms)) as Hok0 by (by apply ok_prune).
  destruct (owner limits (prune_expired db now_ms) (Some key) drawn) as [ownership|e1] eqn:Hown.
  2: { unfold owner in Hown. destruct (load_one limits _ _) eqn:Hlo; [done|]. by eapply load_one_errors in Hlo. }
  cbn [rbind] in Hput. destruct (validate (md <| MemoryMetadata.ownership_id := Some ownership |>)) as [[]|e1] eqn:Hv2;
    [|cbn in Hput; apply validate_errors in Hv2; naive_solver]. cbn [rbind] in Hput.
  assert (Hkey0 : key_row (prune_expired db now_ms) key) by (by intros r [? _]%prune_lookup; apply Hkey).
  destruct (replace limits _ content _ key now_ms) as [[db1 m]|e1] eqn:Hrep.
  - apply (replace_Ok limits bounded) in Hrep as (old & Hold & _ & -> & Hm & _); [|done]. cbn [rbind] in Hput.
    rewrite Hm in Hput. unfold save_metadata, update_row in Hput. cbn in Hput. rewrite lookup_insert_eq in Hput.
    unfold reject_if in Hput at 1. destruct (_ || _); [cbn in Hput; naive_solver|]. cbn [rbind] in Hput.
    unfold found, load_one, put in Hput; cbn in Hput. rewrite insert_insert_eq, lookup_insert_eq in Hput.
    unfold load_row, row_to_memory in Hput. cbn in Hput. rewrite from_str_to_string in Hput. cbn in Hput.
    unfold validate_loaded, validate_record, reject_if in Hput. destruct (_ || _); cbn in Hput; naive_solver.
  - cbn in Hput. injection Hput as ->. destruct (replace_errors _ _ _ _ _ _ Hok0 Hkey0 Hrep Herr) as [Hnone|(row & Hr & Hv')]; [by left|right].
    apply prune_lookup in Hr as [Hr _]. by exists row.
Qed.

Lemma put_finalized trace md db n content key s' r :
  ok db → key_row db key → MemoryKey.is_local key = true → MemoryMetadata.pending_run md = None →
  put_with_metadata content md (Some key) (mk_local db n) = (s', r) →
  ∃ db', s' = mk_local db' (S n) ∧ ok db' ∧ dom (memories db') ⊆ dom (memories db) ∧
     (∀ id row, id ≠ MemoryKey.id key → memories db' !! id = Some row → memories db !! id = Some row) ∧
     ((∃ a, r = Ok a) ∨ r = Err MemoryError.Conflict ∨ r = Err MemoryError.NotFound →
       ∀ t, not_before (S n) t → ¬ pending_at trace t db' (MemoryKey.id key)).
Proof.
  intros Hok Hkey Hlocal Hrun. unfold put_with_metadata, lesson_store, local_memory_store, foreign, transact. rewrite Hlocal.
  cbn [negb operations database].
  destruct (put_metadata_local limits db content md (Some key) (now n) (draw n 0)) as [[db' a]|e] eqn:Hput; intros [= <- <-].
  - destruct (put_metadata_keeps limits bounded _ _ _ _ _ _ _ _ Hok Hput) as [Hok' _].
    destruct (put_Ok limits bounded _ _ _ _ _ _ _ _ Hok Hput) as (_ & ownership & id & row & W & _ & _ & -> & old & Hold & _).
    pose proof (wr_db _ _ _ _ _ _ _ _ W) as Edb. exists db'. rewrite Edb in *. split_and!; [done|done| | |].
    + cbn. rewrite dom_insert_L. apply prune_lookup in Hold as [Hold _]. apply elem_of_dom_2 in Hold.
      intros i [->%elem_of_singleton|[r [Hi _]%prune_lookup]%elem_of_dom]%elem_of_union; [done|by apply elem_of_dom_2 in Hi].
    + intros i row' Hne. cbn. rewrite lookup_insert_ne by done. by intros [? _]%prune_lookup.
    + intros _ t _ (row2 & md2 & Hl2 & _ & Hmd2 & _ & Hq & _). cbn in Hl2. rewrite lookup_insert_eq in Hl2. injection Hl2 as <-.
      rewrite (wr_metadata _ _ _ _ _ _ _ _ W), from_str_to_string in Hmd2. injection Hmd2 as <-.
      by rewrite no_run_no_match in Hq.
  - exists db. split_and!; [done..|]. intros He t Ht (row & md2 & Hl & Hexp & _ & _ & _ & Hmax).
    destruct (put_refused _ _ _ _ _ _ _ Hok Hkey Hput) as [Hnone|(row' & Hr' & Hv')]; [naive_solver| |congruence].
    assert (expired (now n) row = true) as Hx.
    { apply not_false_iff_true. intros Hx. assert (memories (prune_expired db (now n)) !! MemoryKey.id key = Some row); [|congruence].
      by apply prune_lookup. }
    eapply expired_later in Hx; [|apply (Ht n); lia]. congruence.
Qed.

(** The records of a page are as the store has them. *)
Definition current_keys db records : Prop :=
  Forall (λ r, key_row db (MemoryRecord.key r) ∧ MemoryKey.is_local (MemoryRecord.key r) = true ∧
               is_lesson (MemoryMetadata.kind (MemoryRecord.metadata r)) = true) records.

Lemma finalize_page_spec trace records : ∀ cursor count db n s' cursor' count',
  ok db → NoDup (record_id <$> records) → current_keys db records →
  finalize_page records cursor count (mk_local db n) = (s', Ok (cursor', count')) →
  ∃ db' n', s' = mk_local db' n' ∧ n ≤ n' ∧ ok db' ∧ dom (memories db') ⊆ dom (memories db) ∧
    cursor' = default cursor (record_id <$> last records) ∧
    ∀ t id, not_before n' t → pending_at trace t db' id → pending_at trace t db id ∧ id ∉ record_id <$> records.
Proof.
  induction records as [|record records IH]; intros cursor count db n s' cursor' count' Hok Hnd Hkeys.
  { intros [= <- <- _]. exists db, n. split_and!; try done. intros t id _ Hp. split; [done|]. by intros ?%elem_of_nil. }
  cbn [finalize_page]. apply Forall_cons in Hkeys as [(Hkey & Hlocal & Hlesson) Hkeys]. rewrite Hlesson.
  cbn in Hnd. apply NoDup_cons in Hnd as [Hni Hnd].
  destruct (put_with_metadata _ _ _ _) as [s1 r] eqn:Hput.
  destruct (put_finalized trace _ _ _ _ _ _ _ Hok Hkey Hlocal (finalized_run _ Hlesson) Hput) as (db1 & -> & Hok1 & Hdom & Hoth & Hdone).
  assert (Hkeys1 : current_keys db1 records).
  { apply Forall_forall. intros r' Hr'. unfold current_keys in Hkeys. rewrite Forall_forall in Hkeys.
    destruct (Hkeys r' Hr') as (Hk & ? & ?). split_and!; [|done|done]. intros row Hrow. apply Hk. apply Hoth; [|done].
    intros E. apply Hni. apply list_elem_of_fmap. exists r'. done. }
  assert (Hgo : (∃ a, r = Ok a) ∨ r = Err MemoryError.Conflict ∨ r = Err MemoryError.NotFound → ∀ count1,
    finalize_page records (record_id record) count1 (mk_local db1 (S n)) = (s', Ok (cursor', count')) →
    ∃ db' n', s' = mk_local db' n' ∧ n ≤ n' ∧ ok db' ∧ dom (memories db') ⊆ dom (memories db) ∧
      cursor' = default cursor (record_id <$> last (record :: records)) ∧
      ∀ t id, not_before n' t → pending_at trace t db' id → pending_at trace t db id ∧ id ∉ record_id <$> (record :: records)).
  { intros Hr count1 Hrun. destruct (IH _ _ _ _ _ _ _ Hok1 Hnd Hkeys1 Hrun) as (db' & n' & -> & Hn & Hok' & Hdom' & -> & Hp).
    exists db', n'. split_and!; [done|lia|done|set_solver|rewrite last_cons; by destruct (last records)|].
    intros t id Ht Hpend. destruct (Hp t id Ht Hpend) as [Hp1 Hnot].
    assert (Ht1 : not_before (S n) t) by (intros k ?; apply Ht; lia).
    destruct (decide (id = record_id record)) as [->|Hne].
    { by destruct (Hdone Hr t Ht1). }
    split; [|cbn; by intros [?|?]%elem_of_cons]. destruct Hp1 as (row & md & Hl & Hrest). exists row, md. split; [|done].
    by apply Hoth. }
  destruct r as [a|[]]; try done; apply Hgo; naive_solver.
Qed.

(** The page of pending lessons the store answers. *)
Lemma lesson_page_spec trace cursor db n :
  ok db → ∃ records, lesson_page (LessonQuery.Pending trace) cursor (mk_local db n) = (mk_local (prune_expired db (now n)) (S n), Ok records) ∧
    validate_page (LessonQuery.Pending trace) cursor records = Ok tt ∧ NoDup (record_id <$> records) ∧
    current_keys (prune_expired db (now n)) records ∧
    (∀ r, r ∈ records → (cursor < record_id r)%Z ∧ record_id r ∈ dom (memories db)) ∧
    ∀ t id, not_before (S n) t → pending_at trace t (prune_expired db (now n)) id → (cursor < id)%Z →
      id ∈ record_id <$> records ∨ ∃ r, last records = Some r ∧ (record_id r < id)%Z.
Proof.
  intros Hok. set (db0 := prune_expired db (now n)). assert (Hok0 : ok db0) by (by apply ok_prune).
  set (matching := base.filter (λ r, ((cursor <? record_id r)%Z && query_matches (LessonQuery.Pending trace) r) = true) (shown limits db0)).
  assert (Hs : StronglySorted id_lt matching) by (apply StronglySorted_filter, shown_sorted; done).
  exists (take 128 matching).
  assert (Hs' : StronglySorted id_lt (take 128 matching)).
  { rewrite <-(take_drop 128 matching) in Hs. by apply StronglySorted_app_1_l in Hs. }
  destruct (mirrors_shown limits db0 Hok0) as (all & Hmi & Eshown).
  assert (Hrow : ∀ r, r ∈ matching → ∃ row md, memories db0 !! record_id r = Some row ∧ from_str (MemoryRow.metadata row) = Some md ∧
     r = StoredMemory.record (stored (record_id r) row md) ∧ (cursor < record_id r)%Z ∧ query_matches (LessonQuery.Pending trace) r = true).
  { intros r [[Hc%Z.ltb_lt Hq]%andb_true_iff Hr]%list_elem_of_filter. rewrite Eshown in Hr.
    apply list_elem_of_fmap in Hr as (m & -> & [_ Hm]%list_elem_of_filter).
    destruct (mi_row _ _ Hmi _ Hm) as (row & md & Hl & Hmd & Em).
    assert (record_id (StoredMemory.record m) = StoredMemory.id m) as Eid by (by rewrite Em).
    exists row, md. rewrite Eid in Hc |- *. by rewrite <-Em. }
  split_and!.
  - unfold lesson_page, lesson_store, local_memory_store, transact, lesson_page_local. cbn [operations database].
    by rewrite list_local_shown.
  - unfold validate_page. apply reject_if_Ok, orb_false_iff. split.
    { apply Nat.ltb_ge. rewrite length_take. unfold MAX_EXPORT_PAGE_RECORDS. lia. }
    apply negb_false_iff. assert (∀ r, r ∈ take 128 matching → (cursor < record_id r)%Z ∧ query_matches (LessonQuery.Pending trace) r = true) as Hall.
    { intros r Hr%subseteq_take. by destruct (Hrow r Hr) as (? & ? & _ & _ & _ & ? & ?). }
    by apply sorted_records_valid.
  - by apply sorted_ids.
  - apply Forall_forall. intros r Hr%subseteq_take. destruct (Hrow r Hr) as (row & md & Hl & Hmd & Er & _ & Hq). split_and!.
    + intros row'. unfold record_id in Hl. rewrite Hl. intros [= <-]. by rewrite Er.
    + by rewrite Er.
    + unfold query_matches in Hq. by apply andb_true_iff in Hq as [? _].
  - intros r Hr%subseteq_take. destruct (Hrow r Hr) as (row & md & [Hl _]%prune_lookup & _ & _ & Hc & _).
    split; [done|by apply elem_of_dom_2 in Hl].
  - intros t id Ht (row & md & Hl & _ & Hmd & Hp & Hq & _) Hc.
    assert (StoredMemory.record (stored id row md) ∈ matching) as Hin.
    { apply list_elem_of_filter. split; [apply andb_true_iff; split; [by apply Z.ltb_lt|done]|].
      unfold shown. destruct (load_all_ok limits db0 Hok0) as (l & -> & Hin & _). apply list_elem_of_fmap_2, list_elem_of_filter.
      split; [done|]. apply Hin. by exists id, row, md. }
    rewrite <-(take_drop 128 matching) in Hin, Hs. apply elem_of_app in Hin as [Hin|Hin].
    + left. apply list_elem_of_fmap. by exists (StoredMemory.record (stored id row md)).
    + right. destruct (last (take 128 matching)) as [r|] eqn:Hlast.
      * exists r. split; [done|]. apply last_Some_elem_of in Hlast.
        by apply (StronglySorted_app_1_elem_of id_lt _ _ _ _ Hs Hlast Hin).
      * apply last_None in Hlast. destruct matching; [by apply elem_of_nil in Hin|done].
Qed.

(** The identifiers after the cursor: each page leaves fewer. *)
Definition ids_after (cursor : Z) db : gset Z := base.filter (λ id, (cursor < id)%Z) (dom (memories db)).

Lemma finalize_loop_spec trace fuel : ∀ cursor count db n,
  ok db → size (ids_after cursor db) < fuel →
  (∀ t id, not_before n t → pending_at trace t db id → (cursor < id)%Z) →
  ∃ s' r, finalize_loop fuel (LessonQuery.Pending trace) cursor count (mk_local db n) = Some (s', r) ∧
    ∀ total, r = Ok total → ∃ db' n', s' = mk_local db' n' ∧ ∀ t id, not_before n' t → ¬ pending_at trace t db' id.
Proof.
  induction fuel as [|fuel IH]; intros cursor count db n Hok Hfuel Hclean; [lia|]. cbn [finalize_loop].
  destruct (lesson_page_spec trace cursor db n Hok) as (records & -> & -> & Hnd & Hkeys & Hin & Hcover).
  assert (Hprune : ∀ t id, not_before (S n) t → pending_at trace t (prune_expired db (now n)) id → (cursor < id)%Z).
  { intros t id Ht Hp%pending_prune. apply (Hclean t id); [intros k ?; apply Ht; lia|done]. }
  destruct (bool_decide_reflect (records = [])) as [->|Hne].
  { eexists _, _. split; [done|]. intros total _. eexists _, _. split; [done|]. intros t id Ht Hp.
    destruct (Hcover t id Ht Hp (Hprune t id Ht Hp)) as [?%elem_of_nil|(r & ? & _)]; done. }
  assert (ok (prune_expired db (now n))) as Hok0 by (by apply ok_prune).
  destruct (finalize_page records cursor count (mk_local (prune_expired db (now n)) (S n))) as [s1 [[cursor1 count1]|e]] eqn:Hpage.
  2: { eexists _, _. split; [done|]. naive_solver. }
  destruct (finalize_page_spec trace _ _ _ _ _ _ _ _ Hok0 Hnd Hkeys Hpage) as (db1 & n1 & -> & Hn & Hok1 & Hdom & -> & Hpend).
  destruct (last records) as [lastr|] eqn:Hlast; [|by apply last_None in Hlast]. cbn [fmap option_fmap option_map default] in *.
  pose proof (last_Some_elem_of _ _ Hlast) as Hlin. destruct (Hin _ Hlin) as [Hlt Hldom].
  apply IH; [done| |].
  - assert (size (ids_after (record_id lastr) db1) < size (ids_after cursor db)); [|cbn in *; lia]. apply subset_size. split.
    + intros id [Hi Hd]%elem_of_filter. apply elem_of_filter. split; [lia|]. apply Hdom in Hd.
      apply elem_of_dom in Hd as [row [Hr _]%prune_lookup]. by apply elem_of_dom_2 in Hr.
    + intros Hsub. assert (record_id lastr ∈ ids_after (record_id lastr) db1) as [? _]%elem_of_filter; [|lia].
      apply Hsub, elem_of_filter. by split.
  - intros t id Ht Hp. destruct (Hpend t id Ht Hp) as [Hp1 Hnot].
    assert (Ht1 : not_before (S n) t) by (intros k ?; apply Ht; lia).
    destruct (Hcover t id Ht1 Hp1 (Hprune t id Ht1 Hp1)) as [?|(r & [= ->] & ?)]; done.
Qed.

(** C18: Finalizing the lessons of a run ends, after at most one page more than the store has memories, whatever the
    clock reads at each step (the limit on content fits in 64 bits, as the production's does). When it succeeds no lesson of the run that the store shows (its text and metadata hold
    no likely secret) is pending any more at any time that is not before one the clock has read:
    each was turned into a proposal, or is gone or expired, or had the last version there is. *)
Theorem finalize_settles_lessons trace db n :
  memories_reachable limits db →
  ∃ s' r, finalize_lessons (S (size (memories db))) trace (mk_local db n) = Some (s', r) ∧
    ∀ total, r = Ok total → ∃ db' n', s' = mk_local db' n' ∧ ∀ t id, not_before n' t → ¬ pending_at trace t db' id.
Proof.
  intros Hok%(memories_reachable_ok limits bounded). apply finalize_loop_spec; [done| |].
  - assert (size (ids_after 0 db) ≤ size (dom (memories db))) as Hle by (apply subseteq_size; set_solver).
    rewrite size_dom in Hle. lia.
  - intros t id _ (row & md & Hl & _). destruct (mo_row _ _ Hok _ _ Hl) as [Hr _]. by apply ro_id in Hr.
Qed.
End local_lessons.
