(* ===== verification/MemoryWitnesses.v ===== *)
(** * The theorems about memories at concrete stores

    A concrete text of metadata with the round trip of [serde_json], concrete Unicode
    tables and numbers, and a store filled, replaced, imported and exported with them. *)

From Stdlib Require Import QArith.
From S2P Require Import Prelude Digest Codec Codecs Contract Cost Workspace Session Secrets MemoryRecords Retrieval.
From S2P Require Import MemoryStore MemoryTransfer MemoryGuarantees MemoryRuns MemoryLessons.

(** ** Texts *)

#[local] Instance codec_memory_key : Codec MemoryKey.t.
Proof.
  refine (codec_via (B:=Z * (N * option string)) (λ k, (MemoryKey.id k, (MemoryKey.version k, MemoryKey.namespace k)))
    (λ '(i, (v, n)), Some (MemoryKey.mk i v n)) _).
  abstract (by intros []).
Defined.
#[local] Instance codec_memory_scope : Codec MemoryScope.t.
Proof.
  refine (codec_via (B:=option (option string))
    (λ s, match s with MemoryScope.LegacyUnscoped => None | MemoryScope.Global => Some None
                     | MemoryScope.Repository i => Some (Some i) end)
    (λ s, Some match s with None => MemoryScope.LegacyUnscoped | Some None => MemoryScope.Global
                          | Some (Some i) => MemoryScope.Repository i end) _).
  abstract (by intros []).
Defined.
#[local] Instance codec_line_range : Codec LineRange.t.
Proof.
  refine (codec_via (B:=N * N) (λ r, (LineRange.start r, LineRange.end_ r)) (λ '(a, b), Some (LineRange.mk a b)) _).
  abstract (by intros []).
Defined.
(** An artifact is coded as a file without a repository, a path and a range. *)
#[local] Instance codec_source_evidence : Codec SourceEvidence.t.
Proof.
  refine (codec_via (B:=bool * ((string * string) * (option LineRange.t * (string * string))))
    (λ s, match s with
          | SourceEvidence.File r p l c d => (true, ((r, p), (l, (c, d))))
          | SourceEvidence.Artifact d s => (false, (("", ""), (None, (d, s))))
          end)
    (λ '(b, ((r, p), (l, (c, d)))), Some (if (b : bool) then SourceEvidence.File r p l c d else SourceEvidence.Artifact c d)) _).
  abstract (by intros []).
Defined.
#[local] Instance codec_memory_kind : Codec MemoryKind.t.
Proof.
  refine (codec_via (B:=N * option (SourceEvidence.t * bool))
    (λ k, match k with
          | MemoryKind.Unverified => (0, None) | MemoryKind.Preference => (1, None) | MemoryKind.Procedure => (2, None)
          | MemoryKind.CodeClaim => (3, None)
          | MemoryKind.LessonProposal e s => (4, Some (e, bool_decide (s = ProposalState.Pending)))
          end%N)
    (λ '(n, o), Some match o with
          | Some (e, b) => MemoryKind.LessonProposal e (if (b : bool) then ProposalState.Pending else ProposalState.Proposed)
          | None => if (n =? 0)%N then MemoryKind.Unverified else if (n =? 1)%N then MemoryKind.Preference
                    else if (n =? 2)%N then MemoryKind.Procedure else MemoryKind.CodeClaim
          end) _).
  abstract (by intros [| | | |? []]).
Defined.
#[local] Instance codec_memory_origin : Codec MemoryOrigin.t.
Proof. refine (codec_enum [MemoryOrigin.LegacyUnknown; MemoryOrigin.User; MemoryOrigin.Model] _). abstract (intros []; set_solver). Defined.
#[local] Instance codec_trace_reference : Codec TraceReference.t.
Proof.
  refine (codec_via (B:=string * (string * string)) (λ t, (TraceReference.session t, (TraceReference.request t, TraceReference.task t)))
    (λ '(a, (b, c)), Some (TraceReference.mk a b c)) _).
  abstract (by intros []).
Defined.
#[local] Instance codec_ownership_reference : Codec OwnershipReference.t.
Proof.
  refine (codec_via (B:=string * MemoryKey.t) (λ r, (OwnershipReference.ownership_id r, OwnershipReference.key r))
    (λ '(a, b), Some (OwnershipReference.mk a b)) _).
  abstract (by intros []).
Defined.

Import MemoryMetadata.

(** The owner comes first, in a field of 33 bytes when it is valid. *)
Definition unowned_fields (m : MemoryMetadata.t) :
    (MemoryScope.t * MemoryKind.t) * (MemoryOrigin.t * (list SourceEvidence.t * (list TraceReference.t *
    (list MemoryKey.t * (list OwnershipReference.t * (option TraceReference.t * list SourceEvidence.t)))))) :=
  ((scope m, kind m), (origin m, (evidence m, (producing_traces m, (imported_from m, (transferred_from m,
    (pending_run m, historical_evidence m))))))).

Fixpoint take_bytes (n : nat) (s : string) : string * string :=
  match n, s with
  | S n, String c s => let '(a, r) := take_bytes n s in (String c a, r)
  | _, _ => ("", s)
  end.
Lemma take_bytes_app a r : take_bytes (String.length a) (a +:+ r) = (a, r).
Proof. induction a as [|c a IH]; [done|]. rewrite str_app_cons. cbn. by rewrite IH. Qed.

Definition metadata_codec_text (m : MemoryMetadata.t) : string :=
  let fields := enc (unowned_fields m) "" in
  match ownership_id m with
  | None => String "-" fields
  | Some id => if valid_ownership id then String "+" (id +:+ fields) else String "!" (enc id fields)
  end.
Definition metadata_of_fields (owner : option string) (s : string) : option MemoryMetadata.t :=
  '(((sc, k), (o, (e, (p, (i, (t, (r, h))))))), _) ← dec s; Some (MemoryMetadata.mk sc k o e p i owner t r h).
Definition metadata_of_codec_text (s : string) : option MemoryMetadata.t :=
  match s with
  | EmptyString => None
  | String c rest =>
      if bool_decide (c = "{"%char) then Some MemoryMetadata.default
      else if bool_decide (c = "-"%char) then metadata_of_fields None rest
      else if bool_decide (c = "+"%char) then let '(id, rest) := take_bytes 32 rest in metadata_of_fields (Some id) rest
      else '(id, rest) ← dec rest; metadata_of_fields (Some id) rest
  end.
Lemma metadata_of_unowned m owner :
  metadata_of_fields owner (enc (unowned_fields m) "") = Some (m <| ownership_id := owner |>).
Proof. unfold metadata_of_fields. by rewrite dec_enc. Qed.
Lemma metadata_codec_roundtrip m : metadata_of_codec_text (metadata_codec_text m) = Some m.
Proof.
  pose proof (metadata_of_unowned m (ownership_id m)) as Hf. replace (m <| ownership_id := ownership_id m |>) with m in Hf by (by destruct m).
  unfold metadata_codec_text, metadata_of_codec_text. revert Hf. generalize (enc (unowned_fields m) ""). intros fields Hf.
  destruct (ownership_id m) as [id|]; [|exact Hf]. destruct (valid_ownership id) eqn:Hv.
  - apply andb_true_iff in Hv as [Hl%N.eqb_eq _]. assert (String.length id = 32) as E by (unfold str_len in Hl; lia).
    cbn -[take_bytes]. by rewrite <-E, take_bytes_app.
  - cbn -[enc dec]. by rewrite dec_enc.
Qed.
Lemma metadata_codec_length m id : ownership_id m = None → valid_ownership id = true →
  (str_len (metadata_codec_text (m <| ownership_id := Some id |>)) ≤ str_len (metadata_codec_text m) + 32)%N.
Proof.
  intros Ho Hv. unfold metadata_codec_text. change (unowned_fields (m <| ownership_id := Some id |>)) with (unowned_fields m).
  change (ownership_id (m <| ownership_id := Some id |>)) with (Some id). rewrite Ho, Hv.
  apply andb_true_iff in Hv as [Hl%N.eqb_eq _]. generalize (enc (unowned_fields m) ""). intros fields.
  unfold str_len in *. cbn [String.length]. rewrite str_length_app. lia.
Qed.

#[local] Instance codec_metadata : Codec MemoryMetadata.t.
Proof.
  refine (codec_via (λ m, (unowned_fields m, ownership_id m))
    (λ '(((sc, k), (o, (e, (p, (i, (t, (r, h))))))), owner), Some (MemoryMetadata.mk sc k o e p i owner t r h)) _).
  abstract (by intros []).
Defined.
Definition codec_text {A} `{!Codec A} : JsonText A := {| to_string a := enc a ""; from_str := codec_from_slice |}.
Lemma codec_text_ok {A} `{!Codec A} : @JsonTextOk A codec_text.
Proof. split. intros a. unfold from_str, to_string, codec_text, codec_from_slice. by rewrite dec_enc. Qed.
#[local] Instance memory_text : MemoryText := {|
  metadata_text := {| to_string := metadata_codec_text; from_str := metadata_of_codec_text |};
  scope_text := codec_text;
  payload_text := codec_text;
  legacy_text := codec_text;
|}.

#[local] Instance memory_text_ok : MemoryTextOk.
Proof.
  split; [split; apply metadata_codec_roundtrip|apply codec_text_ok|apply metadata_codec_length].
Qed.

(** ** Characters and numbers *)

Definition ascii_char (p : ascii → bool) (c : string) : bool :=
  match c with String a EmptyString => p a | _ => false end.
Definition upper (c : ascii) : bool := (65 <=? N_of_ascii c)%N && (N_of_ascii c <=? 90)%N.
Definition lower (c : ascii) : bool := (97 <=? N_of_ascii c)%N && (N_of_ascii c <=? 122)%N.
Fixpoint ascii_to_lowercase (s : string) : string :=
  match s with
  | EmptyString => EmptyString
  | String c s => String (if upper c then ascii_of_N (N_of_ascii c + 32) else c) (ascii_to_lowercase s)
  end.
#[local] Instance ascii_unicode : Unicode := {|
  is_alphanumeric := ascii_char is_ascii_alphanumeric;
  is_uppercase := ascii_char upper;
  is_lowercase := ascii_char lower;
  to_lowercase := ascii_to_lowercase;
|}.

(** Rational numbers, with the tangent for the logarithm. *)
#[local] Instance rational_numbers : Float64 := {|
  F := Q;
  decimal n d := (inject_Z (Z.of_N n) / inject_Z (10 ^ Z.of_N d))%Q;
  of_usize n := inject_Z (Z.of_nat n);
  f_add := Qplus; f_sub := Qminus; f_mul := Qmult; f_div := Qdiv;
  f_ln x := (x - 1)%Q;
  f_sum := foldr Qplus 0%Q;
  f_eqb := Qeq_bool;
  f_total_le := Qle_bool;
|}.
#[local] Instance rational_numbers_laws : Float64Laws.
Proof.
  split; cbn.
  - intros a b c. rewrite !Qle_bool_iff. apply Qle_trans.
  - intros a b. rewrite !Qle_bool_iff. destruct (Qlt_le_dec a b) as [H|H]; [left; by apply Qlt_le_weak|by right].
  - reflexivity.
Qed.
#[local] Instance memory_sha : Sha256 := checksum_sha256.

(** ** A store *)

#[local] Notation P := MemoryLimits.PRODUCTION.
Definition demo_owner (k : nat) : string := (nth (k mod 3) ["0"; "1"; "a"] "0") +:+ "123456789abcdef0123456789abcdef".
Definition demo_digest : string := "0123456789abcdef0123456789abcdef0123456789abcdef0123456789abcdef".
Definition demo_trace : TraceReference.t := TraceReference.mk "session" "request" "task".
Definition demo_artifact : SourceEvidence.t := SourceEvidence.Artifact demo_digest "report".
Definition demo_lesson : MemoryMetadata.t :=
  MemoryMetadata.mk MemoryScope.Global (MemoryKind.LessonProposal demo_artifact ProposalState.Pending) MemoryOrigin.Model
    [demo_artifact] [demo_trace] [] None [] (Some demo_trace) [].

Definition demo_first : option (MemoryDb * MemoryRecord.t) :=
  Eval vm_compute in to_option (put_metadata_local P empty_memories "Prefer short names" MemoryMetadata.default None 1000 (demo_owner 0)).
Definition demo_second : option (MemoryDb * MemoryRecord.t) :=
  Eval vm_compute in '(db, _) ← demo_first;
    to_option (put_metadata_local P db "Run the tests before a change" demo_lesson None 2000 (demo_owner 1)).
Definition demo_first_db : MemoryDb := Eval vm_compute in from_option fst empty_memories demo_first.
Definition demo_db : MemoryDb := Eval vm_compute in from_option fst empty_memories demo_second.
Example demo_db_size : size (memories demo_db) = 2.
Proof. vm_compute. reflexivity. Qed.

Lemma production_is_bounded : (MemoryLimits.total_content_bytes P < u64_MAX)%N.
Proof. reflexivity. Qed.

Lemma demo_memories_reachable : memories_reachable P demo_db.
Proof.
  apply (rtc_l _ _ demo_first_db).
  { eapply step_operation, (do_put _ _ "Prefer short names" MemoryMetadata.default None 1000 (demo_owner 0)).
    vm_compute. reflexivity. }
  apply rtc_once.
  eapply step_operation, (do_put _ _ "Run the tests before a change" demo_lesson None 2000 (demo_owner 1)).
  vm_compute. reflexivity.
Qed.

Lemma memory_store_sound_witness :
  memories_reachable P demo_db ∧ memories_ok P demo_db ∧ open demo_db = Ok demo_db ∧
  ∃ l, load_all P demo_db = Ok l ∧ StoredMemory.id <$> l = [1; 2]%Z.
Proof.
  split; [exact demo_memories_reachable|]. destruct (memory_store_sound P production_is_bounded demo_db demo_memories_reachable) as (Hok & Ho & l & Hl & E).
  split; [exact Hok|]. split; [exact Ho|]. exists l. split; [exact Hl|]. rewrite E. vm_compute. reflexivity.
Defined.

Definition demo_deleted : MemoryDb := Eval vm_compute in
  from_option id empty_memories (to_option (delete_local demo_db (MemoryKey.local 2 1))).
Definition demo_third : MemoryDb * option MemoryRecord.t := Eval vm_compute in
  match put_metadata_local P demo_deleted "Run the tests before a change" demo_lesson None 3000 (demo_owner 2) with
  | Ok (db, r) => (db, Some r)
  | Err _ => (empty_memories, None)
  end.

Lemma memory_ids_not_reused_witness :
  ∃ r, demo_third.2 = Some r ∧ memories demo_deleted !! 2%Z = None ∧ (2 < record_id r)%Z.
Proof.
  eexists. split; [reflexivity|]. split; [vm_compute; reflexivity|].
  apply (memory_ids_not_reused P production_is_bounded demo_db demo_deleted demo_third.1 2
    "Run the tests before a change" demo_lesson 3000 (demo_owner 2)).
  - exact demo_memories_reachable.
  - vm_compute. by eexists.
  - apply rtc_once. apply step_operation. apply (do_delete _ _ (MemoryKey.local 2 1)). vm_compute. reflexivity.
  - vm_compute. reflexivity.
Defined.

(** The first memory is read, which counts the use, and then replaced. *)
Definition demo_used : MemoryDb := Eval vm_compute in
  from_option fst empty_memories (to_option (read_filtered P demo_db [(1%Z, None)] 2500 None)).
Definition demo_replaced : MemoryDb * option MemoryRecord.t := Eval vm_compute in
  match put_metadata_local P demo_used "Prefer long names" MemoryMetadata.default (Some (MemoryKey.local 1 1)) 3000 (demo_owner 2) with
  | Ok (db, r) => (db, Some r)
  | Err _ => (empty_memories, None)
  end.

Lemma replacement_sees_current_witness :
  ∃ row r, memories demo_db !! 1%Z = Some row ∧ demo_replaced.2 = Some r ∧
    (MemoryKey.version (MemoryRecord.key r) = as_u64 (MemoryRow.version row) + 1)%N ∧ MemoryRecord.content r = "Prefer long names".
Proof.
  destruct (memories demo_db !! 1%Z) as [row|] eqn:Hrow; [|vm_compute in Hrow; discriminate].
  destruct demo_replaced.2 as [r|] eqn:Hr; [|vm_compute in Hr; discriminate].
  exists row, r. split; [reflexivity|]. split; [reflexivity|].
  destruct (replacement_sees_current P production_is_bounded demo_db demo_used demo_replaced.1 1 row
    "Prefer long names" MemoryMetadata.default 3000 (demo_owner 2) r) as (row' & _ & _ & _ & _ & Hv & Hc).
  - exact demo_memories_reachable.
  - exact Hrow.
  - apply rtc_once. eapply (do_read _ _ [(1%Z, None)] 2500 None). vm_compute. reflexivity.
  - vm_compute in Hrow, Hr. injection Hrow as <-. injection Hr as <-. vm_compute. reflexivity.
  - split; [exact Hv|exact Hc].
Defined.

Definition demo_list : list MemoryRecord.t := Eval vm_compute in
  from_option snd [] (to_option (list_local P demo_db 3000)).

Lemma shown_memories_safe_witness :
  length demo_list = 2 ∧ Forall (shown_record demo_db 3000 None) demo_list ∧
  ∃ scan, scan_filtered P demo_db "tests" 5 3000 (Some (ScanScope.mk None)) = Ok scan ∧ length (MemoryScan.candidates scan.2) = 1.
Proof.
  split; [reflexivity|]. destruct (shown_memories_safe P production_is_bounded demo_db 3000 demo_memories_reachable) as (_ & _ & Hlist).
  split.
  - apply Forall_forall. intros r Hr. apply (Hlist demo_db demo_list); [vm_compute; reflexivity|exact Hr].
  - eexists. split; [vm_compute; reflexivity|reflexivity].
Defined.

(** The memories of the store, imported into an empty one and imported again. *)
Definition demo_imported : MemoryDb := Eval vm_compute in
  from_option fst empty_memories (to_option (import_records_local P empty_memories demo_list 4000 demo_owner)).

Lemma import_idempotent_witness :
  size (memories demo_imported) = 2 ∧
  import_records_local P demo_imported demo_list 5000 demo_owner = Ok (demo_imported, ImportReport.mk 0 2).
Proof.
  split; [vm_compute; reflexivity|].
  apply (import_idempotent P production_is_bounded empty_memories demo_list 4000 demo_owner demo_imported (ImportReport.mk 2 0)).
  - apply rtc_refl.
  - vm_compute. reflexivity.
  - vm_compute. reflexivity.
Defined.

(** A clock that is set back as it goes. *)
Definition demo_now (k : nat) : Z := (3000 - Z.of_nat k)%Z.
Definition demo_draw (n k : nat) : string := demo_owner (n + k).

Lemma local_export_complete_witness :
  ∃ n', export_all (STORE := local_memory_store P (λ _, 3000%Z) demo_draw) 514 None (mk_local demo_db 0)
          = Some (mk_local demo_db n', Ok (shown P demo_db)) ∧ length (shown P demo_db) = 2.
Proof.
  destruct (local_export_complete (λ _, 3000%Z) demo_draw demo_db None 0) as (n' & H & _).
  - exact demo_memories_reachable.
  - intros _. vm_compute. reflexivity.
  - exists n'. split; [exact H|]. vm_compute. reflexivity.
Defined.

Lemma finalize_settles_lessons_witness :
  ∃ s', finalize_lessons (STORE := local_memory_store P demo_now demo_draw) 3 demo_trace (mk_local demo_db 0) = Some (s', Ok 1) ∧
    ∃ db' n', s' = mk_local db' n' ∧ size (memories db') = 2 ∧ ∀ t id, not_before demo_now n' t → ¬ pending_at demo_trace t db' id.
Proof.
  destruct (finalize_settles_lessons P production_is_bounded demo_now demo_draw demo_trace demo_db 0 demo_memories_reachable)
    as (s' & r & H & Hr).
  assert (match r with Ok 1 => true | _ => false end = true ∧ size (memories (database s')) = 2) as [Er Es].
  { revert H. vm_compute. intros [= <- <-]. done. }
  destruct r as [total|]; [|discriminate]. assert (total = 1) as -> by (destruct total as [|[|?]]; done).
  destruct (Hr 1 eq_refl) as (db' & n' & -> & Hp). exists (mk_local db' n'). split; [exact H|].
  exists db', n'. split; [reflexivity|]. split; [exact Es|exact Hp].
Defined.

Lemma rank_best_witness :
  ∃ c rest, rank "tests" demo_list 1 = [c] ∧ [c] ++ rest ≡ₚ scored "tests" demo_list ∧
    MemoryCandidate.preview c = "Run the tests before a change".
Proof.
  destruct (rank_best "tests" demo_list 1) as (rest & Hp & _).
  destruct (rank "tests" demo_list 1) as [|c [|? ?]] eqn:Hr; [vm_compute in Hr; discriminate| |vm_compute in Hr; discriminate].
  exists c, rest. split; [reflexivity|]. split.
  - exact Hp.
  - vm_compute in Hr. injection Hr as <-. reflexivity.
Defined.
