(* ===== verification/Decoder.v ===== *)
(** * The decoder of model responses (crates/harness/src/inference/protocol.rs, the
    event stream of inference/transport.rs)

    A response arrives as events: JSON values in the frames of a byte stream. The decoder
    keeps what they said, hands the listener a delta for each, and ends with one terminal
    response whose items confirm all that was announced before. *)

From S2P Require Import Prelude Digest Contract Cost Input Codec JsonValue Secrets.

(** ** Data *)

Module FailureKind.
Inductive t : Type :=
| InvalidRequest
| InvalidEndpoint
| InvalidLimits
| Authentication
| Rejected
| Transport
| Interrupted
| MalformedResponse
| ProviderError
| Cancelled
| Timeout
| SizeLimit.
#[global] Instance eq_dec : EqDecision t.
Proof. solve_decision. Defined.
End FailureKind.

Module ResponseStatus.
Inductive t : Type := Completed | Failed | Incomplete.
#[global] Instance eq_dec : EqDecision t.
Proof. solve_decision. Defined.
End ResponseStatus.

Module ArgumentValidity.
Inductive t : Type := JsonObject | MalformedJson | NotObject.
#[global] Instance eq_dec : EqDecision t.
Proof. solve_decision. Defined.
End ArgumentValidity.

Module ToolProposal.
Record t : Type := mk {
  item_id : string;
  call_id : string;
  name : string;
  arguments : string;
  validity : ArgumentValidity.t;
}.
#[global] Instance eq_dec : EqDecision t.
Proof. solve_decision. Defined.
End ToolProposal.

Module OutputItem.
Inductive t : Type :=
| Message (id text : string) (refusals : list string)
| ToolProposal (proposal : ToolProposal.t)
| Opaque (item : Value).
#[global] Instance eq_dec : EqDecision t.
Proof. solve_decision. Defined.
End OutputItem.

Module ProviderResponse.
Record t : Type := mk {
  id : string;
  status : ResponseStatus.t;
  output : list OutputItem.t;
  history_items : list Value;
  usage : ModelUsage.t;
}.
#[global] Instance eta_t : Eta t := λ r, mk (id r) (status r) (output r) (history_items r) (usage r).
#[global] Instance set_usage : Setter usage.
Proof. derive_setter usage. Defined.
End ProviderResponse.

Module Delta.
Inductive t : Type :=
| Created (response_id : string)
| Text (item_id text : string)
| ReasoningSummary (item_id text : string)
| ToolArguments (item_id arguments : string)
| ItemDone (item : OutputItem.t).
#[global] Instance eq_dec : EqDecision t.
Proof. solve_decision. Defined.
End Delta.

Module ResponseDialect.
Inductive t : Type := OpenAi | ChatGpt.
#[global] Instance eq_dec : EqDecision t.
Proof. solve_decision. Defined.
End ResponseDialect.

Module Decoder.
Record t : Type := mk {
  dialect : ResponseDialect.t;
  response_id : option string;
  items : gmap N Value;
  text : string;
  terminal : option ProviderResponse.t;
  observed : bool;
}.
#[global] Instance eta_t : Eta t := λ d, mk (dialect d) (response_id d) (items d) (text d) (terminal d) (observed d).
#[global] Instance set_dialect : Setter dialect.
Proof. derive_setter dialect. Defined.
#[global] Instance set_response_id : Setter response_id.
Proof. derive_setter response_id. Defined.
#[global] Instance set_items : Setter items.
Proof. derive_setter items. Defined.
#[global] Instance set_text : Setter text.
Proof. derive_setter text. Defined.
#[global] Instance set_terminal : Setter terminal.
Proof. derive_setter terminal. Defined.
#[global] Instance set_observed : Setter observed.
Proof. derive_setter observed. Defined.
(** [Default] *)
Definition default : t := mk ResponseDialect.OpenAi None ∅ "" None false.
End Decoder.

#[local] Notation E := FailureKind.t.
#[local] Notation malformed := FailureKind.MalformedResponse.

(** [string] *)
Definition string_field (value : Value) (key : string) : result string E :=
  ok_or (v ← ModelUsage.get value key; match v with VString s => Some s | _ => None end) malformed.

(** [Value::is_null] of a field that may be absent, negated. *)
Definition present (value : option Value) : bool :=
  match value with Some VNull | None => false | Some _ => true end.

(** [slice::get] *)
Definition nth_item {A} (l : list A) (index : N) : option A :=
  if (index <? N.of_nat (length l))%N then l !! N.to_nat index else None.

Section decoder.
Context `{!Serde Value}.
(** [Value::to_string] *)
Variable value_text : Value → string.

(** ** Items *)

(** What the parts of a message add up to, or [None] at a part of another kind. *)
Definition Parts : Type := option (string * list string).

Fixpoint message_parts (text : string) (refusals : list string) (parts : list Value) : result Parts E :=
  match parts with
  | [] => Ok (Some (text, refusals))
  | part :: parts =>
      let? kind := string_field part "type" in
      if str_eqb kind "output_text" then
        let? t := string_field part "text" in message_parts (text +:+ t) refusals parts
      else if str_eqb kind "refusal" then
        let? r := string_field part "refusal" in message_parts text (refusals ++ [r]) parts
      else Ok None
  end.

Definition arguments_validity (arguments : string) : ArgumentValidity.t :=
  match from_slice (A := Value) arguments with
  | Some (VObject _) => ArgumentValidity.JsonObject
  | Some _ => ArgumentValidity.NotObject
  | None => ArgumentValidity.MalformedJson
  end.

Definition normalize (item : Value) : result OutputItem.t E :=
  let? kind := string_field item "type" in
  if str_eqb kind "message" then
    let? role := string_field item "role" in
    let? _ := reject_if (negb (str_eqb role "assistant")) malformed in
    let? content := ok_or (ModelUsage.get item "content" ≫= as_array) malformed in
    let? parts := message_parts "" [] content in
    match parts with
    | None => Ok (OutputItem.Opaque item)
    | Some (text, refusals) =>
        let? id := string_field item "id" in Ok (OutputItem.Message id text refusals)
    end
  else if str_eqb kind "function_call" then
    let? arguments := string_field item "arguments" in
    let validity := arguments_validity arguments in
    let? call_id := string_field item "call_id" in
    let? name := string_field item "name" in
    let? _ := reject_if (str_is_empty call_id || str_is_empty name) malformed in
    let? item_id := string_field item "id" in
    Ok (OutputItem.ToolProposal (ToolProposal.mk item_id call_id name arguments validity))
  else Ok (OutputItem.Opaque item).

(** [history_items.iter().map(normalize).collect()] *)
Definition normalize_all (items : list Value) : result (list OutputItem.t) E :=
  for_each (λ l item, let? o := normalize item in Ok (l ++ [o])) [] items.

(** A call that repeats the identifier of another. *)
Definition call_ids (output : list OutputItem.t) : list string :=
  omap (λ item, match item with OutputItem.ToolProposal p => Some (ToolProposal.call_id p) | _ => None end) output.
Fixpoint repeated_call (calls : gset string) (ids : list string) : bool :=
  match ids with
  | [] => false
  | id :: ids => bool_decide (id ∈ calls) || repeated_call ({[id]} ∪ calls) ids
  end.
Definition repeats_call (output : list OutputItem.t) : bool := repeated_call ∅ (call_ids output).

(** [ProviderResponse::validate_recorded] *)
Definition validate_recorded (response : ProviderResponse.t) : result unit E :=
  let? output := normalize_all (ProviderResponse.history_items response) in
  reject_if (negb (bool_decide (output = ProviderResponse.output response)) || repeats_call output) malformed.

(** ** Confirmation *)

Definition type_is (value : Value) (kind : string) : bool :=
  match ModelUsage.get value "type" with Some v => value_is v kind | None => false end.

Definition non_empty_string (value : Value) : bool :=
  match value with VString s => negb (str_is_empty s) | _ => false end.

Definition reasoning_field (terminal : list (string * Value)) (entry : string * Value) : bool :=
  match field entry.1 terminal with
  | None => false
  | Some value =>
      if str_eqb entry.1 "encrypted_content" then non_empty_string entry.2 && non_empty_string value
      else bool_decide (entry.2 = value)
  end.

Definition terminal_item_confirms (completed : Value) (terminal : option Value) : bool :=
  match terminal with
  | None => false
  | Some terminal =>
      if decide (completed = terminal) then true
      else if negb (type_is completed "reasoning") || negb (type_is terminal "reasoning") then false
      else match completed, terminal with
           | VObject completed, VObject terminal =>
               bool_decide (length completed = length terminal) && forallb (reasoning_field terminal) completed
           | _, _ => false
           end
  end.

(** ** Events *)

(** What a call to [event] works on: the decoder and what was emitted. An error keeps
    what was done before it. *)
Definition Decoding : Type := Decoder.t * list Delta.t.
Definition Step (A : Type) : Type := Decoding → Decoding * result A E.

Definition sbind {A B} (m : Step A) (k : A → Step B) : Step B :=
  λ s, let '(s, r) := m s in match r with Ok a => k a s | Err e => (s, Err e) end.
Definition lift {A} (r : result A E) : Step A := λ s, (s, r).
Definition modify (f : Decoder.t → Decoder.t) : Step unit := λ '(d, l), ((f d, l), Ok tt).
Definition emit (delta : Delta.t) : Step unit := λ '(d, l), ((d, l ++ [delta]), Ok tt).
Definition gets {A} (f : Decoder.t → A) : Step A := λ s, (s, Ok (f s.1)).
#[local] Notation "'let!' x ':=' m 'in' k" := (sbind m (λ x, k))
  (at level 10, x binder, m at level 100, k at level 200).

Definition bind_id (id : string) : Step unit :=
  let! bound := gets Decoder.response_id in
  let! _ := lift (reject_if (str_is_empty id
                             || match bound with Some previous => negb (str_eqb previous id) | None => false end)
                    malformed) in
  modify (λ d, d <| Decoder.response_id := Some id |>).

Definition on_created (kind : string) (event : Value) : Step bool :=
  let! response := lift (ok_or (ModelUsage.get event "response") malformed) in
  let! id := lift (string_field response "id") in
  let! _ := bind_id id in
  let! _ := if str_eqb kind "response.created" then emit (Delta.Created id) else lift (Ok tt) in
  lift (Ok false).

Definition on_text (event : Value) : Step bool :=
  let! text := lift (string_field event "delta") in
  let! _ := modify (λ d, d <| Decoder.text := Decoder.text d +:+ text |>) in
  let! item_id := lift (string_field event "item_id") in
  let! _ := emit (Delta.Text item_id text) in
  lift (Ok false).

Definition on_fragment (delta : string → string → Delta.t) (event : Value) : Step bool :=
  let! item_id := lift (string_field event "item_id") in
  let! text := lift (string_field event "delta") in
  let! _ := emit (delta item_id text) in
  lift (Ok false).

Definition on_item (event : Value) : Step bool :=
  let! index := lift (ok_or (ModelUsage.get event "output_index" ≫= ModelUsage.as_u64) malformed) in
  let! item := lift (ok_or (ModelUsage.get event "item") malformed) in
  let! normalized := lift (normalize item) in
  let! previous := gets (λ d, Decoder.items d !! index) in
  let! _ := modify (λ d, d <| Decoder.items := <[index := item]> (Decoder.items d) |>) in
  let! _ := lift (reject_if (bool_decide (is_Some previous)) malformed) in
  let! _ := emit (Delta.ItemDone normalized) in
  lift (Ok false).

Definition terminal_status (status : string) : result ResponseStatus.t E :=
  if str_eqb status "completed" then Ok ResponseStatus.Completed
  else if str_eqb status "failed" then Ok ResponseStatus.Failed
  else if str_eqb status "incomplete" then Ok ResponseStatus.Incomplete
  else Err malformed.

(** The items of the terminal; one dialect leaves them to what was announced. *)
Definition terminal_items (d : Decoder.t) (status : ResponseStatus.t) (output : list Value) : list Value :=
  if bool_decide (status = ResponseStatus.Completed) && bool_decide (output = [])
     && bool_decide (Decoder.dialect d = ResponseDialect.ChatGpt)
  then btree_values (Decoder.items d) else output.

Definition confirmed (d : Decoder.t) (history_items : list Value) : bool :=
  forallb (λ entry : N * Value, terminal_item_confirms entry.2 (nth_item history_items entry.1))
    (btree_iter (Decoder.items d)).

Definition on_terminal (event : Value) : Step bool :=
  let! response := lift (ok_or (ModelUsage.get event "response") malformed) in
  let! id := lift (string_field response "id") in
  let! _ := bind_id id in
  let! status := lift (let? status := string_field response "status" in terminal_status status) in
  let! output := lift (ok_or (ModelUsage.get response "output" ≫= as_array) malformed) in
  let! _ := lift (reject_if (bool_decide (status = ResponseStatus.Completed)
                             && (present (ModelUsage.get response "error")
                                 || present (ModelUsage.get response "incomplete_details"))) malformed) in
  let! history_items := gets (λ d, terminal_items d status output) in
  let! agreed := gets (λ d, confirmed d history_items) in
  let! _ := lift (reject_if (negb agreed) malformed) in
  let! output := lift (normalize_all history_items) in
  let! _ := lift (reject_if (repeats_call output) malformed) in
  let! _ := modify (λ d, d <| Decoder.terminal :=
    Some (ProviderResponse.mk id status output history_items (ModelUsage.parse value_text (index response "usage"))) |>) in
  lift (Ok true).

Definition one_of (kind : string) (kinds : list string) : bool := existsb (str_eqb kind) kinds.

Definition dispatch (event : Value) : Step bool :=
  let! kind := lift (string_field event "type") in
  if one_of kind ["response.created"; "response.in_progress"] then on_created kind event
  else if one_of kind ["response.output_text.delta"; "response.refusal.delta"] then on_text event
  else if str_eqb kind "response.reasoning_summary_text.delta" then on_fragment Delta.ReasoningSummary event
  else if str_eqb kind "response.function_call_arguments.delta" then on_fragment Delta.ToolArguments event
  else if str_eqb kind "response.output_item.done" then on_item event
  else if one_of kind ["response.completed"; "response.failed"; "response.incomplete"] then on_terminal event
  else if str_eqb kind "error" then lift (Err FailureKind.ProviderError)
  else lift (Ok false).

(** [Decoder::event] *)
Definition event (bytes : string) : Step bool :=
  let! event := lift (ok_or (from_slice bytes) malformed) in
  let! _ := modify (λ d, d <| Decoder.observed := true |>) in
  dispatch event.

(** Events one after another, until one is terminal. *)
Fixpoint events (l : list string) : Step bool :=
  match l with
  | [] => lift (Ok false)
  | bytes :: l => let! terminal := event bytes in if terminal : bool then lift (Ok true) else events l
  end.
End decoder.

(** ** Steps *)

Lemma sbind_Ok {A B} (m : Step A) (k : A → Step B) s s' b :
  sbind m k s = (s', Ok b) → ∃ a s1, m s = (s1, Ok a) ∧ k a s1 = (s', Ok b).
Proof. unfold sbind. destruct (m s) as [s1 [a|e]]; [eauto|done]. Qed.
Lemma lift_Ok {A} (r : result A E) s s' a : lift r s = (s', Ok a) → s' = s ∧ r = Ok a.
Proof. by intros [= -> ->]. Qed.
Lemma lift_bind_Ok {A B} (r : result A E) (k : A → Step B) s s' b :
  sbind (lift r) k s = (s', Ok b) → ∃ a, r = Ok a ∧ k a s = (s', Ok b).
Proof. intros (a & s1 & [-> ->]%lift_Ok & H)%sbind_Ok. eauto. Qed.
Lemma gets_bind {A B} (f : Decoder.t → A) (k : A → Step B) s : sbind (gets f) k s = k (f s.1) s.
Proof. done. Qed.
Lemma modify_bind {B} f (k : unit → Step B) d l : sbind (modify f) k (d, l) = k tt (f d, l).
Proof. done. Qed.
Lemma emit_bind {B} delta (k : unit → Step B) d l : sbind (emit delta) k (d, l) = k tt (d, l ++ [delta]).
Proof. done. Qed.

Lemma bind_id_Ok id d l s' :
  bind_id id (d, l) = (s', Ok tt) →
  id ≠ "" ∧ (∀ previous, Decoder.response_id d = Some previous → previous = id) ∧ s' = (d <| Decoder.response_id := Some id |>, l).
Proof.
  unfold bind_id. rewrite gets_bind. intros ([] & [He Hp]%reject_if_Ok%orb_false_iff & [= <-])%lift_bind_Ok. split_and!; [by intros ->| |done].
  cbn in Hp. intros previous E. rewrite E in Hp. apply negb_false_iff in Hp. unfold str_eqb in Hp. by apply bool_decide_eq_true in Hp.
Qed.

Lemma str_app_nil_r s : s +:+ "" = s.
Proof. induction s as [|c s IH]; [done|]. by rewrite str_app_cons, IH. Qed.

(** The text of the deltas. *)
Definition delta_text (delta : Delta.t) : string := match delta with Delta.Text _ text => text | _ => "" end.
Definition streamed_text (l : list Delta.t) : string := foldr (λ delta s, delta_text delta +:+ s) "" l.

Lemma streamed_text_snoc l delta : streamed_text (l ++ [delta]) = streamed_text l +:+ delta_text delta.
Proof.
  unfold streamed_text. induction l as [|x l IH]; cbn [app foldr]; [by rewrite str_app_nil_r|]. by rewrite IH, str_app_assoc.
Qed.

Lemma normalize_all_Ok `{!Serde Value} items output :
  normalize_all items = Ok output → Forall2 (λ item o, normalize item = Ok o) items output.
Proof.
  unfold normalize_all. assert (∀ acc, for_each (λ l item, let? o := normalize item in Ok (l ++ [o])) acc items = Ok output →
    ∃ rest, output = acc ++ rest ∧ Forall2 (λ item o, normalize item = Ok o) items rest) as H.
  { induction items as [|item items IH]; intros acc; cbn.
    - intros [= <-]. exists []. by rewrite app_nil_r.
    - intros (l & (o & Ho & [= <-])%rbind_Ok & (rest & -> & HF)%IH)%rbind_Ok. exists (o :: rest). rewrite <-app_assoc. eauto. }
  intros (rest & -> & HF)%H. done.
Qed.

(** ** What a decoding keeps *)

(** An item that was announced, and the item of the terminal that confirms it: the same,
    or both reasoning with the same fields but its encryption. *)
Definition same_reasoning (v w : Value) : Prop :=
  type_is v "reasoning" = true ∧ type_is w "reasoning" = true ∧
  ∀ key x, key ≠ "encrypted_content" → ModelUsage.get v key = Some x → ModelUsage.get w key = Some x.
Definition announced (item final : OutputItem.t) : Prop :=
  item = final ∨ ∃ v w, item = OutputItem.Opaque v ∧ final = OutputItem.Opaque w ∧ same_reasoning v w.

Lemma field_elem name fields x : field name fields = Some x → (name, x) ∈ fields.
Proof.
  induction fields as [|[k v] fields IH]; cbn; [done|]. unfold str_eqb. case_bool_decide as E; [|intros ?; right; auto].
  intros [= <-]. subst. left.
Qed.

Lemma confirms_spec completed terminal :
  terminal_item_confirms completed terminal = true →
  ∃ w, terminal = Some w ∧ (completed = w ∨ same_reasoning completed w).
Proof.
  unfold terminal_item_confirms. destruct terminal as [w|]; [|done]. intros H. exists w. split; [done|].
  destruct (decide (completed = w)) as [->|]; [by left|right].
  destruct (type_is completed "reasoning") eqn:E1; [|done]. destruct (type_is w "reasoning") eqn:E2; [|done].
  cbn [negb orb] in H. destruct completed as [| | | | |fields], w as [| | | | |fields']; try done.
  apply andb_true_iff in H as [_ H]. split_and!; [done..|]. cbn. intros key x Hne Hx%field_elem.
  rewrite forallb_forall in H. apply list_elem_of_In, H in Hx. unfold reasoning_field in Hx. cbn in Hx.
  destruct (field key fields') as [y|]; [|done]. unfold str_eqb in Hx. rewrite bool_decide_false in Hx by done.
  apply bool_decide_eq_true in Hx. by subst.
Qed.

Lemma nth_item_lookup {A} (l : list A) n x : nth_item l n = Some x → l !! N.to_nat n = Some x.
Proof. unfold nth_item. by destruct (_ <? _)%N. Qed.

Section sound.
Context `{!Serde Value}.
Variable value_text : Value → string.

Lemma normalize_reasoning v : type_is v "reasoning" = true → normalize v = Ok (OutputItem.Opaque v).
Proof.
  unfold type_is, normalize, string_field. destruct (ModelUsage.get v "type") as [[]|] eqn:Hg; try done.
  cbn. unfold str_eqb at 1. intros E%bool_decide_eq_true. subst. cbn. done.
Qed.

(** A terminal response: it would validate again, belongs to the bound identifier, agrees
    with every announced item and has consistent counters. *)
Record certified (d : Decoder.t) (r : ProviderResponse.t) : Prop := {
  ce_recorded : validate_recorded r = Ok tt;
  ce_id : Decoder.response_id d = Some (ProviderResponse.id r) ∧ ProviderResponse.id r ≠ "";
  ce_items : confirmed d (ProviderResponse.history_items r) = true;
  ce_usage : usage_consistent (ProviderResponse.usage r);
}.

Record decoding_ok (s : Decoding) : Prop := {
  dk_text : Decoder.text s.1 = streamed_text s.2;
  dk_created id : Delta.Created id ∈ s.2 → Decoder.response_id s.1 = Some id;
  dk_items item : Delta.ItemDone item ∈ s.2 → ∃ i v, Decoder.items s.1 !! i = Some v ∧ normalize v = Ok item;
  dk_terminal r : Decoder.terminal s.1 = Some r → certified s.1 r;
}.

Lemma empty_decoding_ok dialect : decoding_ok (Decoder.default <| Decoder.dialect := dialect |>, []).
Proof. split; cbn; try done; intros ? ?%elem_of_nil; done. Qed.

(** An event that is not terminal, on a decoding that is not finished. *)
Definition open_ok (s : Decoding) : Prop := decoding_ok s ∧ Decoder.terminal s.1 = None.

Lemma open_emit d l delta :
  open_ok (d, l) → delta_text delta = "" → (∀ id, delta = Delta.Created id → Decoder.response_id d = Some id) →
  (∀ item, delta = Delta.ItemDone item → ∃ i v, Decoder.items d !! i = Some v ∧ normalize v = Ok item) →
  open_ok (d, l ++ [delta]).
Proof.
  intros [[Ht Hc Hi Hr] Hn] Hd Hid Hit. cbn [fst snd] in *. split; [|done]. split; cbn [fst snd].
  - by rewrite streamed_text_snoc, Hd, Ht, str_app_nil_r.
  - intros id [?|E%list_elem_of_singleton]%elem_of_app; [by apply Hc|by apply Hid].
  - intros item [?|E%list_elem_of_singleton]%elem_of_app; [by apply Hi|by apply Hit].
  - done.
Qed.

Lemma bind_id_keeps id d l : open_ok (d, l) → (∀ p, Decoder.response_id d = Some p → p = id) →
  open_ok (d <| Decoder.response_id := Some id |>, l).
Proof.
  intros [[Ht Hc Hi _] Hn] Hp. cbn in *. split; [|done]. split; cbn; [done| |done|congruence].
  intros id' Hid. apply Hc, Hp in Hid. by subst.
Qed.

Lemma on_created_keeps kind ev d l s' b :
  open_ok (d, l) → on_created kind ev (d, l) = (s', Ok b) → b = false ∧ open_ok s'.
Proof.
  intros Hok. unfold on_created. intros (response & _ & (id & _ & H)%lift_bind_Ok)%lift_bind_Ok.
  apply sbind_Ok in H as ([] & s1 & (Hne & Hp & ->)%bind_id_Ok & H). pose proof (bind_id_keeps _ _ _ Hok Hp) as Hok1.
  destruct (str_eqb kind _); [rewrite emit_bind in H|]; injection H as <- <-; split; [done| |done|done].
  apply open_emit; [done..| |done]. by intros ? [= <-].
Qed.

Lemma on_text_keeps ev d l s' b : open_ok (d, l) → on_text ev (d, l) = (s', Ok b) → b = false ∧ open_ok s'.
Proof.
  intros [[Ht Hc Hi _] Hn]. unfold on_text. intros (text & _ & H)%lift_bind_Ok. rewrite modify_bind in H.
  apply lift_bind_Ok in H as (item_id & _ & H). rewrite emit_bind in H. injection H as <- <-. split; [done|].
  cbn [fst snd] in *. split; [|done]. split; cbn [fst snd].
  - rewrite streamed_text_snoc. cbn. by rewrite Ht.
  - intros id [?|?%list_elem_of_singleton]%elem_of_app; [by apply Hc|done].
  - intros item [?|?%list_elem_of_singleton]%elem_of_app; [by apply Hi|done].
  - cbn. congruence.
Qed.

Lemma on_fragment_keeps delta ev d l s' b :
  (∀ x y, delta_text (delta x y) = "" ∧ (∀ id, delta x y ≠ Delta.Created id) ∧ ∀ item, delta x y ≠ Delta.ItemDone item) →
  open_ok (d, l) → on_fragment delta ev (d, l) = (s', Ok b) → b = false ∧ open_ok s'.
Proof.
  intros Hd Hok. unfold on_fragment. intros (item_id & _ & (text & _ & H)%lift_bind_Ok)%lift_bind_Ok.
  rewrite emit_bind in H. injection H as <- <-. split; [done|].
  destruct (Hd item_id text) as (? & H1 & H2). apply open_emit; [done..|by intros ? ?%H1|by intros ? ?%H2].
Qed.

Lemma on_item_keeps ev d l s' b : open_ok (d, l) → on_item ev (d, l) = (s', Ok b) → b = false ∧ open_ok s'.
Proof.
  intros [[Ht Hc Hi Hr] Hn]. unfold on_item. intros (index & _ & (item & _ & (o & Ho & H)%lift_bind_Ok)%lift_bind_Ok)%lift_bind_Ok.
  rewrite gets_bind, modify_bind in H. apply lift_bind_Ok in H as ([] & Hp%reject_if_Ok & H). rewrite emit_bind in H.
  injection H as <- <-. split; [done|]. cbn [fst snd] in *.
  assert (Decoder.items d !! index = None) as Hfresh.
  { apply bool_decide_eq_false, eq_None_not_Some in Hp. done. }
  apply open_emit; [|done..|].
  - split; [|done]. split; cbn; [done..| |congruence]. intros it Hin. destruct (Hi it Hin) as (i & v & Hl & Hv).
    exists i, v. split; [|done]. rewrite lookup_insert_ne; [done|]. intros ->. congruence.
  - intros it [= <-]. exists index, item. split; [|done]. cbn. by rewrite lookup_insert_eq.
Qed.

Lemma on_terminal_certifies ev d l s' b :
  open_ok (d, l) → on_terminal value_text ev (d, l) = (s', Ok b) →
  b = true ∧ decoding_ok s' ∧ ∃ r, Decoder.terminal s'.1 = Some r.
Proof.
  intros Hok. unfold on_terminal. intros (response & _ & (id & _ & H)%lift_bind_Ok)%lift_bind_Ok.
  apply sbind_Ok in H as ([] & s1 & (Hne & Hp & ->)%bind_id_Ok & H). pose proof (bind_id_keeps _ _ _ Hok Hp) as [[Ht Hc Hi _] _].
  apply lift_bind_Ok in H as (status & _ & (output & _ & ([] & _ & H)%lift_bind_Ok)%lift_bind_Ok).
  rewrite !gets_bind in H. cbn [fst] in H. set (history := terminal_items _ _ _) in H.
  apply lift_bind_Ok in H as ([] & Ha%reject_if_Ok%negb_false_iff & (out & Hout & H)%lift_bind_Ok).
  apply lift_bind_Ok in H as ([] & Hcalls%reject_if_Ok & H). rewrite modify_bind in H. injection H as <- <-.
  split; [done|]. split; [|by eexists]. cbn [fst snd] in *. split; cbn; [done..|].
  intros r [= <-]. split; cbn; [| |done|apply usage_parse_consistent].
  - unfold validate_recorded. cbn [ProviderResponse.history_items ProviderResponse.output]. rewrite Hout. cbn [rbind]. rewrite bool_decide_true by done. by rewrite Hcalls.
  - done.
Qed.

Lemma event_keeps bytes s s' b :
  open_ok s → event value_text bytes s = (s', Ok b) →
  if b : bool then decoding_ok s' ∧ ∃ r, Decoder.terminal s'.1 = Some r else open_ok s'.
Proof.
  destruct s as [d l]. intros Hok0. unfold event. intros (ev & _ & H)%lift_bind_Ok. rewrite modify_bind in H.
  assert (open_ok (d <| Decoder.observed := true |>, l)) as Hok 
    by (destruct Hok0 as [[Ht Hc Hi _] Hn]; split; [split; cbn in *; [done..|congruence]|done]).
  clear Hok0. revert H. generalize (d <| Decoder.observed := true |>) as d0, Hok. clear d Hok. intros d Hok.
  unfold dispatch. intros (kind & _ & H)%lift_bind_Ok.
  destruct (one_of kind _); [by apply on_created_keeps in H as [-> ?]|].
  destruct (one_of kind _); [by apply on_text_keeps in H as [-> ?]|].
  destruct (str_eqb kind _); [by apply on_fragment_keeps in H as [-> ?]|].
  destruct (str_eqb kind _); [by apply on_fragment_keeps in H as [-> ?]|].
  destruct (str_eqb kind _); [by apply on_item_keeps in H as [-> ?]|].
  destruct (one_of kind _); [by apply on_terminal_certifies in H as [-> ?]|].
  destruct (str_eqb kind _); [done|]. by injection H as <- <-.
Qed.

(** A wrong event leaves no terminal response behind. *)
Definition untouched {A} (m : Step A) : Prop := ∀ s s' r, m s = (s', r) → Decoder.terminal s'.1 = Decoder.terminal s.1.
Lemma untouched_bind {A B} (m : Step A) (k : A → Step B) : untouched m → (∀ a, untouched (k a)) → untouched (sbind m k).
Proof.
  intros Hm Hk s s' r. unfold sbind. destruct (m s) as [s1 [a|e]] eqn:E; apply Hm in E.
  - intros H%Hk. congruence.
  - by intros [= <- _].
Qed.
Lemma untouched_lift {A} (r : result A E) : untouched (lift r).
Proof. by intros s s' a [= <- _]. Qed.
Lemma untouched_gets {A} (f : Decoder.t → A) : untouched (gets f).
Proof. by intros s s' a [= <- _]. Qed.
Lemma untouched_emit delta : untouched (emit delta).
Proof. by intros [d l] s' a [= <- _]. Qed.
Lemma untouched_modify f : (∀ d, Decoder.terminal (f d) = Decoder.terminal d) → untouched (modify f).
Proof. intros Hf [d l] s' a [= <- _]. apply Hf. Qed.
#[local] Hint Resolve untouched_bind untouched_lift untouched_gets untouched_emit untouched_modify : core.

Definition careful {A} (m : Step A) : Prop :=
  ∀ s s' e, Decoder.terminal s.1 = None → m s = (s', Err e) → Decoder.terminal s'.1 = None.
Lemma untouched_careful {A} (m : Step A) : untouched m → careful m.
Proof. intros Hm s s' e Hn H%Hm. congruence. Qed.
Lemma careful_bind {A B} (m : Step A) (k : A → Step B) : untouched m → (∀ a, careful (k a)) → careful (sbind m k).
Proof.
  intros Hm Hk s s' e Hn. unfold sbind. destruct (m s) as [s1 [a|e']] eqn:E; apply Hm in E; rewrite Hn in E.
  - by apply Hk.
  - by intros [= <- _].
Qed.

Lemma untouched_bind_id id : untouched (bind_id id).
Proof. unfold bind_id. auto 10. Qed.
#[local] Hint Resolve untouched_bind_id : core.

Lemma on_terminal_careful ev : careful (on_terminal value_text ev).
Proof.
  unfold on_terminal. do 11 (apply careful_bind; [auto 6|intros ?]). intros [d l] s' e _. by rewrite modify_bind.
Qed.

Lemma dispatch_careful ev : careful (dispatch value_text ev).
Proof.
  unfold dispatch. apply careful_bind; [auto|intros kind].
  destruct (one_of kind _).
  { apply untouched_careful. unfold on_created. repeat (apply untouched_bind; [auto|intros ?]); [by case_match; auto|auto]. }
  destruct (one_of kind _); [apply untouched_careful; unfold on_text; auto 10|].
  destruct (str_eqb kind _); [apply untouched_careful; unfold on_fragment; auto 10|].
  destruct (str_eqb kind _); [apply untouched_careful; unfold on_fragment; auto 10|].
  destruct (str_eqb kind _); [apply untouched_careful; unfold on_item; repeat (apply untouched_bind; [auto|intros ?]); auto|].
  destruct (one_of kind _); [apply on_terminal_careful|]. destruct (str_eqb kind _); apply untouched_careful; auto.
Qed.

Lemma event_error bytes s s' e :
  Decoder.terminal s.1 = None → event value_text bytes s = (s', Err e) → Decoder.terminal s'.1 = None.
Proof.
  revert s s' e. change (careful (event value_text bytes)). unfold event.
  do 2 (apply careful_bind; [auto|intros ?]). apply dispatch_careful.
Qed.

Lemma events_keep l s s' b :
  open_ok s → events value_text l s = (s', Ok b) →
  if b : bool then decoding_ok s' ∧ ∃ r, Decoder.terminal s'.1 = Some r else open_ok s'.
Proof.
  revert s. induction l as [|bytes l IH]; intros s Hok; cbn.
  - by intros [= <- <-].
  - intros (t & s1 & He & H)%sbind_Ok. apply event_keeps in He; [|done]. destruct t; [by injection H as <- <-|by eapply IH].
Qed.

(** What an announced item became. *)
Lemma announced_item s r item :
  decoding_ok s → Decoder.terminal s.1 = Some r → Delta.ItemDone item ∈ s.2 →
  ∃ i final, ProviderResponse.output r !! i = Some final ∧ announced item final.
Proof.
  intros Hok Hr Hin. destruct (dk_items _ Hok _ Hin) as (i & v & Hv & Hn). pose proof (dk_terminal _ Hok _ Hr) as Hce.
  pose proof (ce_items _ _ Hce) as Hcf. unfold confirmed in Hcf. rewrite forallb_forall in Hcf.
  assert (In (i, v) (btree_iter (Decoder.items s.1))) as Hin' by (by apply list_elem_of_In, elem_of_btree_iter).
  apply Hcf, confirms_spec in Hin' as (w & Hw%nth_item_lookup & Hsame). cbn [fst snd] in Hw, Hsame.
  pose proof (ce_recorded _ _ Hce) as Hval. unfold validate_recorded in Hval.
  apply rbind_Ok in Hval as (out & HF%normalize_all_Ok & [Ho%negb_false_iff%bool_decide_eq_true _]%reject_if_Ok%orb_false_iff).
  subst out. destruct (Forall2_lookup_l _ _ _ _ _ HF Hw) as (final & Hfinal & Hnf). exists (N.to_nat i), final.
  split; [done|]. destruct Hsame as [->|Hsame]; [left; congruence|right].
  exists v, w. destruct Hsame as (H1 & H2 & H3). rewrite normalize_reasoning in Hn, Hnf by done. split_and!; [congruence..|done].
Qed.
End sound.

(** C33: A response is taken over only as it was confirmed: when the decoder finishes, the
    response would pass the validation of a recorded one, carries the identifier that was
    announced throughout, has consistent counters, the text that was streamed is the text
    that was kept, and every item announced as done is an item of the response, up to
    the encryption of reasoning; in particular an announced call is a call of the response. *)
Theorem decoded_response_sound `{!Serde Value} (value_text : Value → string) dialect l s :
  events value_text l (Decoder.default <| Decoder.dialect := dialect |>, []) = (s, Ok true) →
  ∃ r, Decoder.terminal s.1 = Some r ∧ validate_recorded r = Ok tt ∧
    Decoder.response_id s.1 = Some (ProviderResponse.id r) ∧ ProviderResponse.id r ≠ "" ∧
    usage_consistent (ProviderResponse.usage r) ∧ Decoder.text s.1 = streamed_text s.2 ∧
    (∀ id, Delta.Created id ∈ s.2 → id = ProviderResponse.id r) ∧
    ∀ item, Delta.ItemDone item ∈ s.2 → ∃ i final, ProviderResponse.output r !! i = Some final ∧ announced item final.
Proof.
  intros [Hok [r Hr]]%events_keep; [|split; [apply empty_decoding_ok|done]].
  pose proof (dk_terminal _ Hok _ Hr) as [Hrec [Hid Hne] _ Hu]. exists r. split_and!; try done.
  - apply dk_text, Hok.
  - intros id Hc%(dk_created _ Hok). congruence.
  - intros item. by apply announced_item.
Qed.
