(* ===== verification/EventStream.v ===== *)
(** * The event stream of a response (crates/harness/src/inference/transport.rs)

    Bytes arrive in chunks of any size. [push] splits them into lines and frames and
    hands the data of each frame to the decoder; [read_chunks] is the loop over the
    chunks of one HTTP response. *)

From S2P Require Import Prelude Digest Contract Cost Input Codec JsonValue Secrets Session Decoder.

#[local] Notation E := FailureKind.t.

Definition newline : ascii := ascii_of_N 10.
Definition carriage_return : ascii := ascii_of_N 13.

(** [Vec::last] and [Vec::pop] *)
Fixpoint str_last (s : string) : option ascii :=
  match s with
  | EmptyString => None
  | String c EmptyString => Some c
  | String _ s => str_last s
  end.
Fixpoint str_pop (s : string) : string :=
  match s with
  | EmptyString | String _ EmptyString => EmptyString
  | String c s => String c (str_pop s)
  end.
Definition strip_cr_end (line : string) : string :=
  if bool_decide (str_last line = Some carriage_return) then str_pop line else line.

Module Sse.
Record t : Type := mk { line : string; data : string; event_bytes : N }.
#[global] Instance eta_t : Eta t := λ s, mk (line s) (data s) (event_bytes s).
#[global] Instance set_line : Setter line.
Proof. derive_setter line. Defined.
#[global] Instance set_data : Setter data.
Proof. derive_setter data. Defined.
#[global] Instance set_event_bytes : Setter event_bytes.
Proof. derive_setter event_bytes. Defined.
(** [Default] *)
Definition default : t := mk EmptyString EmptyString 0.
End Sse.

(** The data of a line, if it has any. *)
Definition line_data (line : string) : option string :=
  if starts_with line "data:" then
    let data := str_drop 5 line in
    Some (if starts_with data " " then str_drop 1 data else data)
  else None.

Section stream.
Context `{!Serde Value}.
Variable value_text : Value → string.
Variable limit : N.

(** The states of the reader: the frame being read and the decoder. *)
Definition Reading : Type := Sse.t * Decoding.

(** A blank line ends a frame. *)
Definition end_frame (r : Reading) : Reading * result bool E :=
  let '(sse, d) := r in
  let sse := sse <| Sse.event_bytes := 0%N |> in
  if str_is_empty (Sse.data sse) then ((sse <| Sse.line := EmptyString |>, d), Ok false)
  else
    let sse := sse <| Sse.data := str_pop (Sse.data sse) |> in
    if str_eqb (Sse.data sse) "[DONE]" then ((sse, d), Err FailureKind.Interrupted)
    else
      let '(d, r) := event value_text (Sse.data sse) d in
      match r with
      | Err e => ((sse, d), Err e)
      | Ok true => ((sse <| Sse.data := EmptyString |>, d), Ok true)
      | Ok false => ((sse <| Sse.data := EmptyString |> <| Sse.line := EmptyString |>, d), Ok false)
      end.

Definition end_line (r : Reading) : Reading * result bool E :=
  let '(sse, d) := r in
  let sse := sse <| Sse.line := strip_cr_end (Sse.line sse) |> in
  if str_is_empty (Sse.line sse) then end_frame (sse, d)
  else
    let sse := match line_data (Sse.line sse) with
               | Some data => sse <| Sse.data := Sse.data sse +:+ data +:+ String newline EmptyString |>
               | None => sse
               end in
    ((sse <| Sse.line := EmptyString |>, d), Ok false).

Definition push_byte (byte : ascii) (r : Reading) : Reading * result bool E :=
  let '(sse, d) := r in
  let sse := sse <| Sse.event_bytes := Sse.event_bytes sse + 1 |>%N in
  if (limit <? Sse.event_bytes sse)%N then ((sse, d), Err FailureKind.SizeLimit)
  else if bool_decide (byte = newline) then end_line (sse, d)
  else ((sse <| Sse.line := Sse.line sse +:+ String byte EmptyString |>, d), Ok false).

(** [Sse::push] *)
Fixpoint push (bytes : string) (r : Reading) : Reading * result bool E :=
  match bytes with
  | EmptyString => (r, Ok false)
  | String byte bytes =>
      let '(r, a) := push_byte byte r in
      match a with Ok false => push bytes r | _ => (r, a) end
  end.

(** What the network answers when the next chunk is awaited. *)
Inductive Chunk : Type :=
| Bytes (bytes : string)
| Stalled
| Broken.

Variable max_response_bytes : N.

(** The loop of [ResponsesClient::http] over the chunks; [total] bytes were read. The
    answer is whether the response was complete when the chunks ended. *)
Fixpoint read_chunks (chunks : list Chunk) (total : N) (r : Reading) : Reading * result bool E :=
  match chunks with
  | [] => (r, Ok false)
  | Stalled :: _ => (r, Err FailureKind.Timeout)
  | Broken :: _ => (r, Err FailureKind.Transport)
  | Bytes bytes :: chunks =>
      match u64_checked_add total (str_len bytes) with
      | None => (r, Err FailureKind.SizeLimit)
      | Some total =>
          if (max_response_bytes <? total)%N then (r, Err FailureKind.SizeLimit)
          else
            let '(r, a) := push bytes r in
            match a with Ok false => read_chunks chunks total r | _ => (r, a) end
      end
  end.

(** The messages of a socket. *)
Inductive Message : Type :=
| TextMessage (text : string)
| Ping (payload : string) (flushed : result unit E)
| Pong (payload : string)
| Close (length : N)
| OtherMessage (length : N)
| StalledMessage
| BrokenMessage.

(** [message.len()] *)
Definition message_length (message : Message) : N :=
  match message with
  | TextMessage s | Ping s _ | Pong s => str_len s
  | Close n | OtherMessage n => n
  | StalledMessage | BrokenMessage => 0
  end.

Definition on_message (message : Message) (d : Decoding) : Decoding * result bool E :=
  match message with
  | TextMessage text => event value_text text d
  | Ping _ flushed => (d, let? _ := flushed in Ok false)
  | Pong _ => (d, Ok false)
  | Close _ => (d, Err FailureKind.Interrupted)
  | OtherMessage _ => (d, Err FailureKind.MalformedResponse)
  | StalledMessage => (d, Err FailureKind.Timeout)
  | BrokenMessage => (d, Err FailureKind.Transport)
  end.

(** The loop of [ResponsesClient::websocket]. *)
Fixpoint read_messages (messages : list Message) (total : N) (d : Decoding) : Decoding * result bool E :=
  match messages with
  | [] => (d, Ok false)
  | (StalledMessage | BrokenMessage) as message :: _ => on_message message d
  | message :: messages =>
      match u64_checked_add total (message_length message) with
      | None => (d, Err FailureKind.SizeLimit)
      | Some total =>
          if (max_response_bytes <? total)%N then (d, Err FailureKind.SizeLimit)
          else
            let '(d, a) := on_message message d in
            match a with Ok false => read_messages messages total d | _ => (d, a) end
      end
  end.
End stream.

(** ** Frames *)

(** The end of a line: with or without a carriage return. *)
Definition eol (crlf : bool) : string :=
  if crlf then String carriage_return (String newline EmptyString) else String newline EmptyString.

(** A line of a frame: not empty, within one line, and not ending like the end of one. *)
Definition proper_line (line : string) : Prop :=
  line ≠ "" ∧ str_forallb (λ c, negb (bool_decide (c = newline))) line = true ∧ str_last line ≠ Some carriage_return.

Record Frame : Type := mk_frame { crlf : bool; frame_lines : list string }.

Definition render_line (crlf : bool) (line : string) : string := line +:+ eol crlf.
Definition render (f : Frame) : string :=
  foldr (λ line s, render_line (crlf f) line +:+ s) (eol (crlf f)) (frame_lines f).
Definition render_all (l : list Frame) : string := foldr (λ f s, render f +:+ s) "" l.

(** The lines of data, one under the other. *)
Definition frame_data (f : Frame) : option string :=
  match omap line_data (frame_lines f) with [] => None | data => Some (str_concat (String newline EmptyString) data) end.

Definition data_text (l : list string) : string := foldr (λ d s, d +:+ String newline EmptyString +:+ s) "" l.

Lemma str_pop_snoc s c : str_pop (s +:+ String c EmptyString) = s.
Proof.
  induction s as [|d s IH]; [done|]. rewrite str_app_cons. cbn. rewrite IH. destruct s; done.
Qed.
Lemma str_last_snoc s c : str_last (s +:+ String c EmptyString) = Some c.
Proof. induction s as [|d s IH]; [done|]. rewrite str_app_cons. cbn. rewrite IH. by destruct s. Qed.

Lemma data_text_concat d l : data_text (d :: l) = str_concat (String newline EmptyString) (d :: l) +:+ String newline EmptyString.
Proof.
  revert d. induction l as [|e l IH]; intros d; [done|].
  change (data_text (d :: e :: l)) with (d +:+ String newline EmptyString +:+ data_text (e :: l)). rewrite IH.
  change (str_concat ?n (d :: e :: l)) with (d +:+ n +:+ str_concat n (e :: l)). by rewrite !str_app_assoc.
Qed.

Section frames.
Context `{!Serde Value}.
Variable value_text : Value → string.
Variable limit : N.
#[local] Notation feed := (push value_text limit).

(** Chunks do not matter: what follows is read where the first part left off. *)
Lemma push_app a b r :
  feed (a +:+ b) r = let '(r', t) := feed a r in match t with Ok false => feed b r' | _ => (r', t) end.
Proof.
  revert r. induction a as [|c a IH]; intros r; [done|]. rewrite str_app_cons. cbn [push].
  destruct (push_byte _ _ _ _) as [r' [[]|e]]; done.
Qed.

Lemma push_byte_other c l data n d : c ≠ newline → (n + 1 ≤ limit)%N →
  push_byte value_text limit c (Sse.mk l data n, d) = ((Sse.mk (l +:+ String c "") data (n + 1)%N, d), Ok false).
Proof.
  intros Hc Hn. unfold push_byte. change (Sse.event_bytes (_ <| Sse.event_bytes := _ |>)) with (n + 1)%N.
  rewrite (proj2 (N.ltb_ge _ _)), bool_decide_false by done. done.
Qed.
Lemma push_byte_newline l data n d : (n + 1 ≤ limit)%N →
  push_byte value_text limit newline (Sse.mk l data n, d) = end_line value_text (Sse.mk l data (n + 1)%N, d).
Proof.
  intros Hn. unfold push_byte. change (Sse.event_bytes (_ <| Sse.event_bytes := _ |>)) with (n + 1)%N.
  rewrite (proj2 (N.ltb_ge _ _)), bool_decide_true by done. done.
Qed.

Lemma push_line line rest sse d :
  str_forallb (λ c, negb (bool_decide (c = newline))) line = true →
  (Sse.event_bytes sse + str_len line ≤ limit)%N →
  feed (line +:+ rest) (sse, d) =
  feed rest (Sse.mk (Sse.line sse +:+ line) (Sse.data sse) (Sse.event_bytes sse + str_len line)%N, d).
Proof.
  revert sse. induction line as [|c line IH]; intros [l0 d0 n]; cbn [Sse.line Sse.data Sse.event_bytes].
  - intros _ _. by rewrite str_app_nil_r, N.add_0_r.
  - rewrite str_app_cons. cbn [str_forallb]. intros [Hc%negb_true_iff Hl]%andb_true_iff Hn.
    assert (str_len (String c line) = str_len line + 1)%N as El by (unfold str_len; cbn [String.length]; lia).
    rewrite El in Hn |- *. cbn [push]. apply bool_decide_eq_false in Hc. rewrite push_byte_other by (done || lia).
    rewrite IH; [|done|cbn; lia]. cbn [Sse.line Sse.data Sse.event_bytes]. by rewrite str_app_assoc, <-N.add_assoc, (N.add_comm 1).
Qed.

Lemma end_line_strip l l' data n d : strip_cr_end l = strip_cr_end l' →
  end_line value_text (Sse.mk l data n, d) = end_line value_text (Sse.mk l' data n, d).
Proof.
  intros E. unfold end_line. change (Sse.mk ?x data n <| Sse.line := strip_cr_end (Sse.line (Sse.mk ?x data n)) |>)
    with (Sse.mk (strip_cr_end x) data n). by rewrite E.
Qed.

(** The end of a line that holds [line], from a reader at its start. *)
Lemma push_eol crlf line rest data n d :
  str_last line ≠ Some carriage_return → (n + str_len (eol crlf) ≤ limit)%N →
  feed (eol crlf +:+ rest) (Sse.mk line data n, d) =
  let '(r, t) := end_line value_text (Sse.mk line data (n + str_len (eol crlf))%N, d) in
  match t with Ok false => feed rest r | _ => (r, t) end.
Proof.
  intros Hcr. assert (strip_cr_end line = line) as Hs by (unfold strip_cr_end; by rewrite bool_decide_false).
  destruct crlf; cbn [eol]; rewrite !str_app_cons, str_app_nil; cbn [push].
  - change (str_len _) with 2%N. intros Hn. rewrite push_byte_other by (done || lia). rewrite push_byte_newline by lia.
    replace (n + 1 + 1)%N with (n + 2)%N by lia. rewrite (end_line_strip _ line); [done|]. rewrite Hs.
    unfold strip_cr_end. by rewrite str_last_snoc, bool_decide_true, str_pop_snoc by done.
  - change (str_len _) with 1%N. intros Hn. by rewrite push_byte_newline.
Qed.

Lemma push_proper_line crlf line rest data n d :
  proper_line line → (n + str_len (render_line crlf line) ≤ limit)%N →
  feed (render_line crlf line +:+ rest) (Sse.mk "" data n, d) =
  feed rest (Sse.mk "" (match line_data line with Some x => data +:+ x +:+ String newline "" | None => data end)
                    (n + str_len (render_line crlf line))%N, d).
Proof.
  intros (Hne & Hnl & Hcr) Hn. unfold render_line in *. rewrite str_app_assoc.
  assert (str_len (line +:+ eol crlf) = str_len line + str_len (eol crlf))%N as El by (unfold str_len; rewrite str_length_app; lia).
  rewrite El in Hn |- *. rewrite push_line by (cbn; done || lia). cbn [Sse.line Sse.data Sse.event_bytes].
  rewrite str_app_nil, push_eol by (done || lia). unfold end_line. cbn.
  assert (strip_cr_end line = line) as -> by (unfold strip_cr_end; by rewrite bool_decide_false).
  assert (str_is_empty line = false) as -> by (destruct line; done). rewrite N.add_assoc. by destruct (line_data line).
Qed.

Lemma push_blank crlf rest data n d :
  (n + str_len (eol crlf) ≤ limit)%N →
  feed (eol crlf +:+ rest) (Sse.mk "" data n, d) =
  let '(r, t) := end_frame value_text (Sse.mk "" data (n + str_len (eol crlf))%N, d) in
  match t with Ok false => feed rest r | _ => (r, t) end.
Proof. intros Hn. by rewrite push_eol. Qed.

(** The lines of a frame leave their data, one under the other. *)
Definition add_data (data : string) (lines : list string) : string := data +:+ data_text (omap line_data lines).

Lemma push_lines crlf lines rest data n d :
  Forall proper_line lines → (n + str_len (foldr (λ line s, render_line crlf line +:+ s) "" lines) ≤ limit)%N →
  ∃ m, (m = n + str_len (foldr (λ line s, render_line crlf line +:+ s) "" lines))%N ∧
  feed (foldr (λ line s, render_line crlf line +:+ s) rest lines) (Sse.mk "" data n, d) =
  feed rest (Sse.mk "" (add_data data lines) m, d).
Proof.
  intros Hp. revert data n. induction Hp as [|line lines Hl _ IH]; intros data n; cbn [foldr].
  - intros _. exists n. unfold add_data. cbn. rewrite str_app_nil_r. split; [unfold str_len; cbn; lia|done].
  - set (body := foldr _ "" lines) in *.
    assert (str_len (render_line crlf line +:+ body) = str_len (render_line crlf line) + str_len body)%N as ->
      by (unfold str_len; rewrite str_length_app; lia).
    intros Hn. rewrite push_proper_line by (done || lia).
    edestruct (IH (match line_data line with Some x => data +:+ x +:+ String newline "" | None => data end)
      (n + str_len (render_line crlf line))%N) as (m & -> & ->); [lia|]. eexists. split; [reflexivity|].
    rewrite N.add_assoc. do 3 f_equal. unfold add_data. cbn [omap list_omap]. destruct (line_data line) as [x|]; [|done].
    cbn [data_text foldr]. by rewrite !str_app_assoc.
Qed.

(** A frame that fits, of proper lines, and not the end mark of another protocol. *)
Definition proper_frame (f : Frame) : Prop :=
  Forall proper_line (frame_lines f) ∧ (str_len (render f) ≤ limit)%N ∧ frame_data f ≠ Some "[DONE]".

Lemma render_app f rest :
  render f +:+ rest = foldr (λ line s, render_line (crlf f) line +:+ s) (eol (crlf f) +:+ rest) (frame_lines f).
Proof.
  unfold render. induction (frame_lines f) as [|line lines IH]; cbn; [done|]. by rewrite str_app_assoc, IH.
Qed.
Lemma render_length f : str_len (render f) =
  (str_len (foldr (λ line s, render_line (crlf f) line +:+ s) "" (frame_lines f)) + str_len (eol (crlf f)))%N.
Proof.
  unfold render, str_len. induction (frame_lines f) as [|line lines IH]; cbn [foldr]; [done|].
  rewrite !str_length_app in *. lia.
Qed.

Lemma push_frame f rest d :
  proper_frame f →
  feed (render f +:+ rest) (Sse.default, d) =
  match frame_data f with
  | None => feed rest (Sse.default, d)
  | Some data =>
      let '(d, r) := event value_text data d in
      match r with
      | Err e => ((Sse.mk "" data 0, d), Err e)
      | Ok true => ((Sse.default, d), Ok true)
      | Ok false => feed rest (Sse.default, d)
      end
  end.
Proof.
  intros (Hp & Hn & Hdone). rewrite render_app. rewrite render_length in Hn.
  destruct (push_lines (crlf f) (frame_lines f) (eol (crlf f) +:+ rest) "" 0 d) as (m & -> & E); [done|lia|].
  unfold Sse.default. rewrite E, push_blank by lia. unfold add_data. rewrite str_app_nil. unfold frame_data in *.
  destruct (omap line_data (frame_lines f)) as [|x l] eqn:Eo; [done|].
  unfold end_frame. cbn [Sse.data]. rewrite data_text_concat.
  set (data := str_concat _ _) in *. change (Sse.data (Sse.mk _ ?x _ <| Sse.event_bytes := _ |>)) with x.
  assert (str_is_empty (data +:+ String newline "") = false) as -> by (by destruct data).
  change (Sse.data (_ <| Sse.data := ?x |>)) with x.
  rewrite str_pop_snoc. assert (str_eqb data "[DONE]" = false) as ->.
  { apply bool_decide_false. intros ->. by apply Hdone. }
  destruct (event value_text data d) as [d' [[]|e]]; done.
Qed.

(** The frames of a stream, one event each. *)
Lemma push_frames frames d :
  Forall proper_frame frames →
  let '(r, t) := feed (render_all frames) (Sse.default, d) in
  (r.2, t) = events value_text (omap frame_data frames) d ∧ (t = Ok false → r.1 = Sse.default).
Proof.
  intros Hf. revert d. induction Hf as [|f frames Hf _ IH]; intros d; [done|].
  cbn [render_all foldr]. change (foldr (λ f s, render f +:+ s) "" frames) with (render_all frames).
  rewrite push_frame by done. cbn [omap list_omap]. destruct (frame_data f) as [data|] eqn:Ef; [|apply IH].
  cbn [events]. unfold sbind. destruct (event value_text data d) as [d' [[]|e]]; [done| |done]. apply IH.
Qed.
End frames.

(** ** Chunks *)

Section chunks.
Context `{!Serde Value}.
Variable value_text : Value → string.
Variables limit max_response_bytes : N.

Lemma read_chunks_concat chunks : ∀ total r,
  (total + str_len (foldr (λ a b, a +:+ b) "" chunks) ≤ max_response_bytes)%N → (max_response_bytes ≤ u64_MAX)%N →
  read_chunks value_text limit max_response_bytes (Bytes <$> chunks) total r =
  push value_text limit (foldr (λ a b, a +:+ b) "" chunks) r.
Proof.
  induction chunks as [|c chunks IH]; intros total r Ht Hm; [done|].
  cbn [foldr fmap list_fmap] in *. set (more := foldr _ "" chunks) in *.
  assert (str_len (c +:+ more) = str_len c + str_len more)%N as El by (unfold str_len; rewrite str_length_app; lia).
  rewrite El in Ht. cbn [read_chunks]. unfold u64_checked_add.
  destruct (N.leb_spec (total + str_len c) u64_MAX); [|lia]. rewrite (proj2 (N.ltb_ge _ _)) by lia.
  rewrite push_app. destruct (push _ _ c r) as [r' [[]|e]]; [done| |done]. apply IH; [lia|done].
Qed.

(** Whatever the bytes, only a terminal response that is certified ends a stream well,
    and before it there is none. *)
Lemma push_byte_open c r r' t : open_ok r.2 → push_byte value_text limit c r = (r', t) →
  match t with Ok true => decoding_ok r'.2 ∧ ∃ x, Decoder.terminal r'.2.1 = Some x
             | Ok false => open_ok r'.2 | Err _ => Decoder.terminal r'.2.1 = None end.
Proof.
  destruct r as [sse d]. cbn [snd]. intros Hok. unfold push_byte. destruct (_ <? _)%N; [intros [= <- <-]; apply Hok|].
  case_bool_decide; [|by intros [= <- <-]]. unfold end_line. destruct (str_is_empty _); [|by intros [= <- <-]].
  unfold end_frame. destruct (str_is_empty _); [by intros [= <- <-]|]. destruct (str_eqb _ _); [intros [= <- <-]; apply Hok|].
  destruct (event value_text _ d) as [d' [b|e]] eqn:He.
  - pose proof (event_keeps _ _ _ _ _ Hok He) as Hk. destruct b; by intros [= <- <-].
  - intros [= <- <-]. apply event_error in He; [|by apply Hok]. done.
Qed.

Lemma push_open bytes r r' t : open_ok r.2 → push value_text limit bytes r = (r', t) →
  match t with Ok true => decoding_ok r'.2 ∧ ∃ x, Decoder.terminal r'.2.1 = Some x
             | Ok false => open_ok r'.2 | Err _ => Decoder.terminal r'.2.1 = None end.
Proof.
  revert r. induction bytes as [|c bytes IH]; intros r Hok; cbn [push]; [by intros [= <- <-]|].
  destruct (push_byte _ _ c r) as [r1 t1] eqn:Hb. apply push_byte_open in Hb; [|done].
  destruct t1 as [[]|e]; [by intros [= <- <-]|by apply IH|by intros [= <- <-]].
Qed.

Lemma read_chunks_open chunks : ∀ total r r' t, open_ok r.2 → read_chunks value_text limit max_response_bytes chunks total r = (r', t) →
  match t with Ok true => decoding_ok r'.2 ∧ ∃ x, Decoder.terminal r'.2.1 = Some x
             | Ok false => open_ok r'.2 | Err _ => Decoder.terminal r'.2.1 = None end.
Proof.
  induction chunks as [|[bytes| |] chunks IH]; intros total r r' t Hok; cbn [read_chunks];
    [by intros [= <- <-]| |intros [= <- <-]; apply Hok..].
  destruct (u64_checked_add _ _) as [n|]; [|intros [= <- <-]; apply Hok]. destruct (_ <? _)%N; [intros [= <- <-]; apply Hok|].
  destruct (push _ _ bytes r) as [r1 t1] eqn:Hp. apply push_open in Hp; [|done].
  destruct t1 as [[]|e]; [by intros [= <- <-]|by apply IH|by intros [= <- <-]].
Qed.

Lemma read_messages_open messages : ∀ total d d' t, open_ok d → read_messages value_text max_response_bytes messages total d = (d', t) →
  match t with Ok true => decoding_ok d' ∧ ∃ x, Decoder.terminal d'.1 = Some x
             | Ok false => open_ok d' | Err _ => Decoder.terminal d'.1 = None end.
Proof.
  induction messages as [|message messages IH]; intros total d d' t Hok; cbn [read_messages]; [by intros [= <- <-]|].
  assert (∀ d1 t1, on_message value_text message d = (d1, t1) →
    match t1 with Ok true => decoding_ok d1 ∧ ∃ x, Decoder.terminal d1.1 = Some x
                | Ok false => open_ok d1 | Err _ => Decoder.terminal d1.1 = None end) as Hm.
  { intros d1 t1. destruct message as [text|? [[]|e]| | | | |]; cbn; try (intros [= <- <-]; done || apply Hok).
    destruct t1 as [b|e]; intros He; [pose proof (event_keeps _ _ _ _ _ Hok He) as H; by destruct b|].
    apply event_error in He; [done|apply Hok]. }
  assert (Hgo : (match u64_checked_add total (message_length message) with
     | Some n => if (max_response_bytes <? n)%N then (d, Err FailureKind.SizeLimit)
                 else let '(d, a) := on_message value_text message d in
                      match a with Ok false => read_messages value_text max_response_bytes messages n d | _ => (d, a) end
     | None => (d, Err FailureKind.SizeLimit) end) = (d', t) → 
    match t with Ok true => decoding_ok d' ∧ ∃ x, Decoder.terminal d'.1 = Some x
             | Ok false => open_ok d' | Err _ => Decoder.terminal d'.1 = None end).
  { destruct (u64_checked_add _ _) as [n|]; [|intros [= <- <-]; apply Hok]. destruct (_ <? _)%N; [intros [= <- <-]; apply Hok|].
    destruct (on_message _ _ d) as [d1 t1] eqn:Hd. specialize (Hm _ _ eq_refl).
    destruct t1 as [[]|e]; [by intros [= <- <-]|by apply IH|by intros [= <- <-]]. }
  destruct message; try exact Hgo; by apply Hm.
Qed.

(** C34: A response streamed as proper frames (each fits the limit of an event and is not the end mark [DONE] of another
    protocol, and together they fit the limit of a response), whatever their line ends and comments, and however the
    network cuts the bytes into chunks, gives the decoder the events of the frames, in
    order, up to the terminal one or the first that is wrong. *)
Theorem stream_decodes frames chunks d :
  Forall (proper_frame limit) frames → foldr (λ a b, a +:+ b) "" chunks = render_all frames →
  (str_len (render_all frames) ≤ max_response_bytes ≤ u64_MAX)%N →
  let '(r, answer) := read_chunks value_text limit max_response_bytes (Bytes <$> chunks) 0 (Sse.default, d) in
  (r.2, answer) = events value_text (omap frame_data frames) d.
Proof.
  intros Hf Hc [Hlen Hmax]. rewrite read_chunks_concat by (rewrite ?Hc; done || lia). rewrite Hc.
  pose proof (push_frames value_text limit frames d Hf) as H. destruct (push _ _ _ _) as [r t]. by destruct H.
Qed.
End chunks.
