(* ===== verification/Requests.v ===== *)
(** * Requests to a model (crates/harness/src/inference/protocol.rs, transport.rs)

    What a request may hold, the identity of its cached prefix, its JSON form on either
    transport, and how a recorded form becomes the request again. *)

From S2P Require Import Prelude Digest Contract Cost Input Codec JsonValue Secrets Media Decoder.

Module Transport.
Inductive t : Type := Http | WebSocket.
#[global] Instance eq_dec : EqDecision t.
Proof. solve_decision. Defined.
End Transport.

Module PromptInput.
Record t : Type := mk { items : list Value; stable_items : nat; stable_segments : list Digest }.
Definition all_live (items : list Value) : t := mk items 0 [].
Definition segmented (stable live : list Value) (stable_segments : list Digest) : result t FailureKind.t :=
  let? _ := reject_if (negb (bool_decide (stable = [])) && bool_decide (stable_segments = [])) FailureKind.InvalidRequest in
  Ok (mk (stable ++ live) (length stable) stable_segments).
Definition stable (input : t) : list Value := take (stable_items input) (items input).
Definition live (input : t) : list Value := drop (stable_items input) (items input).
End PromptInput.

Module PromptCacheIdentity.
Record t : Type := mk {
  version : N;
  routing : Digest;
  instructions : Digest;
  tools : Digest;
  stable_segments : list Digest;
  lineage : Digest;
}.
#[global] Instance eq_dec : EqDecision t.
Proof. solve_decision. Defined.
End PromptCacheIdentity.

Module InferenceRequest.
Record t : Type := mk {
  settings : ModelSettings.t;
  input : PromptInput.t;
  tools : list Value;
  instructions : string;
  session_id : string;
  prompt_cache_key : string;
  cache_identity : PromptCacheIdentity.t;
  max_output_tokens : N;
  output_format : option Value;
}.
#[global] Instance eta_t : Eta t := λ r,
  mk (settings r) (input r) (tools r) (instructions r) (session_id r) (prompt_cache_key r) (cache_identity r)
    (max_output_tokens r) (output_format r).
#[global] Instance set_prompt_cache_key : Setter prompt_cache_key.
Proof. derive_setter prompt_cache_key. Defined.
#[global] Instance set_cache_identity : Setter cache_identity.
Proof. derive_setter cache_identity. Defined.
#[global] Instance set_output_format : Setter output_format.
Proof. derive_setter output_format. Defined.
Definition cache_lineage (r : t) : Digest := PromptCacheIdentity.lineage (cache_identity r).
End InferenceRequest.

#[local] Notation E := FailureKind.t.
#[local] Notation invalid := FailureKind.InvalidRequest.

(** What is hashed for a lineage, and for one with a structured output. *)
Definition LineageInput : Type :=
  string * ModelSettings.t * Digest * Digest * Digest * list Digest.
Definition FormatInput : Type := string * Digest * Value.

Class RequestSerde := {
  #[global] serde_tools :: Serde (list Value);
  #[global] serde_lineage :: Serde LineageInput;
  #[global] serde_format :: Serde FormatInput;
}.

(** ** Validation *)

Definition is_routing_byte (c : ascii) : bool := is_ascii_alphanumeric c || is_dash c || is_underscore c || is_dot c.
Definition valid_routing_key (value : string) : bool :=
  negb (str_is_empty value) && (str_len value <=? 128)%N && str_forallb is_routing_byte value.

Definition is_string (v : option Value) : bool := match v with Some (VString _) => true | _ => false end.
Definition is_array (v : option Value) : bool := match v with Some (VArray _) => true | _ => false end.
Definition is_object (v : option Value) : bool := match v with Some (VObject _) => true | _ => false end.
(** [get(key).and_then(Value::as_str)] *)
Definition text_field (v : Value) (key : string) : option string :=
  match ModelUsage.get v key with Some (VString s) => Some s | _ => None end.

Definition valid_input_part (part : Value) : bool :=
  match text_field part "type" with
  | Some kind =>
      if one_of kind ["input_text"; "output_text"] then is_string (ModelUsage.get part "text")
      else if str_eqb kind "refusal" then is_string (ModelUsage.get part "refusal")
      else if str_eqb kind "input_image"
      then is_string (ModelUsage.get part "image_url") || is_string (ModelUsage.get part "file_id")
      else false
  | None => false
  end.

(** A text, or parts. *)
Definition valid_content (content : option Value) : bool :=
  match content with
  | Some (VString _) => true
  | Some (VArray parts) => negb (bool_decide (parts = [])) && forallb valid_input_part parts
  | _ => false
  end.

Definition valid_item (item : Value) : bool :=
  let kind := default "message" (text_field item "type") in
  if str_eqb kind "message" then
    match text_field item "role" with
    | Some role => one_of role ["user"; "assistant"; "developer"; "system"]
    | None => false
    end && valid_content (ModelUsage.get item "content")
  else if str_eqb kind "function_call" then
    forallb (λ key, is_string (ModelUsage.get item key)) ["call_id"; "name"; "arguments"]
  else if str_eqb kind "function_call_output" then
    match text_field item "call_id" with Some id => negb (str_is_empty id) | None => false end
    && valid_content (ModelUsage.get item "output")
  else if str_eqb kind "reasoning" then
    is_array (ModelUsage.get item "summary")
    && match ModelUsage.get item "encrypted_content" with Some v => is_string (Some v) | None => true end
  else false.

Definition validate_input (item : Value) : result unit E := reject_if (negb (valid_item item)) invalid.

Definition is_tool_byte (c : ascii) : bool := is_ascii_alphanumeric c || is_dash c || is_underscore c.

(** One round of the loop over the tools; the names seen so far are its state. *)
Definition check_tool (names : gset string) (tool : Value) : result (gset string) E :=
  let? name := ok_or (text_field tool "name") invalid in
  let? _ := reject_if
    (negb (bool_decide (text_field tool "type" = Some "function"))
     || str_is_empty name || (128 <? str_len name)%N || negb (str_forallb is_tool_byte name)
     || bool_decide (name ∈ names)
     || negb (is_object (ModelUsage.get tool "parameters"))
     || negb (bool_decide ((parameters ← ModelUsage.get tool "parameters"; text_field parameters "type") = Some "object"))
     || match ModelUsage.get tool "async" with Some v => negb (bool_decide (v = VBool false)) | None => false end) invalid in
  Ok ({[name]} ∪ names).

(** ** Construction *)

Section requests.
Context {SHA : Sha256} {SER : RequestSerde}.
Import InferenceRequest.

Definition cache_identity_of (settings : ModelSettings.t) (routing_key instructions : string) (tools : list Value)
    (stable_segments : list Digest) (output_format : option Value) : result PromptCacheIdentity.t E :=
  let routing := digest_of routing_key in
  let instructions := digest_of instructions in
  let? tools := ok_or (of_value tools) invalid in
  let? lineage := ok_or (of_value (A := LineageInput)
    ("orvek-prompt-cache-lineage-v1", settings, routing, instructions, tools, stable_segments)) invalid in
  let? lineage := match output_format with
                  | Some format => ok_or (of_value (A := FormatInput)
                      ("orvek-structured-output-lineage-v1", lineage, format)) invalid
                  | None => Ok lineage
                  end in
  Ok (PromptCacheIdentity.mk 1 routing instructions tools stable_segments lineage).

Definition new_segmented (settings : ModelSettings.t) (input : PromptInput.t) (tools : list Value)
    (instructions session_id : string) (max_output_tokens : N) : result t E :=
  let? _ := reject_if (bool_decide (PromptInput.items input = []) || (max_output_tokens =? 0)%N
                       || negb (valid_routing_key session_id)) invalid in
  let? _ := for_each (λ _ item, validate_input item) tt (PromptInput.items input) in
  let? _ := for_each check_tool ∅ tools in
  let? cache := cache_identity_of settings session_id instructions tools (PromptInput.stable_segments input) None in
  Ok (mk settings input tools instructions session_id session_id cache max_output_tokens None).

Definition new (settings : ModelSettings.t) (input tools : list Value) (instructions session_id : string)
    (max_output_tokens : N) : result t E :=
  new_segmented settings (PromptInput.all_live input) tools instructions session_id max_output_tokens.

Definition with_prompt_cache_key (r : t) (key : string) : result t E :=
  let? _ := reject_if (negb (valid_routing_key key)) invalid in
  let? cache := cache_identity_of (settings r) key (instructions r) (tools r)
                  (PromptInput.stable_segments (input r)) (output_format r) in
  Ok (r <| cache_identity := cache |> <| prompt_cache_key := key |>).

(** [json!] of an object: its keys are put in order. *)
Definition json_object (fields : list (string * Value)) : Value :=
  VObject (foldl (λ m '(key, v), set_key key v m) [] fields).

Definition schema_format (name : string) (schema : Value) : Value :=
  json_object [("type", VString "json_schema"); ("name", VString name); ("strict", VBool true); ("schema", schema)].

Definition with_json_schema (r : t) (name : string) (schema : Value) : result t E :=
  let format := Some (schema_format name schema) in
  let? cache := cache_identity_of (settings r) (prompt_cache_key r) (instructions r) (tools r)
                  (PromptInput.stable_segments (input r)) format in
  Ok (r <| output_format := format |> <| cache_identity := cache |>).

(** ** The form on the wire *)

(** [value[key] = v] of an object. *)
Definition put_field (key : string) (v value : Value) : Value :=
  match value with VObject fields => VObject (set_key key v fields) | _ => value end.
Definition remove_field (key : string) (value : Value) : Value :=
  match value with
  | VObject fields => VObject (base.filter (λ entry : string * Value, entry.1 ≠ key) fields)
  | _ => value
  end.

Definition text_settings (r : t) : Value :=
  match output_format r with
  | Some format => json_object [("verbosity", VString "low"); ("format", format)]
  | None => json_object [("verbosity", VString "low")]
  end.
Definition reasoning_settings (r : t) : Value :=
  let base := json_object [("effort", VString (Thinking.as_str (ModelSettings.thinking (settings r))));
                           ("summary", VString "auto"); ("context", VString "all_turns")] in
  if bool_decide (ModelSettings.reasoning_mode (settings r) = Pro) then put_field "mode" (VString "pro") base else base.

Definition wire (r : t) (transport : Transport.t) : Value :=
  let request := json_object [
    ("model", VString (Model.as_str (ModelSettings.model (settings r))));
    ("input", VArray (PromptInput.items (input r)));
    ("tools", VArray (tools r));
    ("instructions", VString (instructions r));
    ("store", VBool false);
    ("parallel_tool_calls", VBool false);
    ("tool_choice", VString "auto");
    ("truncation", VString "disabled");
    ("max_output_tokens", VNumber (u128_to_string (max_output_tokens r)));
    ("reasoning", reasoning_settings r);
    ("include", VArray [VString "reasoning.encrypted_content"]);
    ("text", text_settings r);
    ("prompt_cache_key", VString (prompt_cache_key r))] in
  let request := match transport with
                 | Transport.Http => put_field "stream" (VBool true) request
                 | Transport.WebSocket => put_field "type" (VString "response.create") request
                 end in
  if ModelSettings.fast_mode (settings r) then put_field "service_tier" (VString "priority") request else request.

Definition effective_wire (r : t) (transport : Transport.t) (dialect : ResponseDialect.t) : Value :=
  let wire := wire r transport in
  if bool_decide (dialect = ResponseDialect.ChatGpt)
  then remove_field "truncation" (remove_field "max_output_tokens" wire) else wire.

(** ** A recorded request *)

(** [template.pointer("/text/format")] *)
Definition recorded_format (template : Value) : option Value :=
  text ← ModelUsage.get template "text"; ModelUsage.get text "format".

Definition from_recorded_template (settings : ModelSettings.t) (template : Value) (cache : PromptCacheIdentity.t) :
    result t E :=
  let? input := ok_or (as_array (index template "input")) invalid in
  let? tools := ok_or (as_array (index template "tools")) invalid in
  let? instructions := ok_or (text_field template "instructions") invalid in
  let? routing := ok_or (text_field template "prompt_cache_key") invalid in
  let? limit := ok_or (ModelUsage.as_u64 (index template "max_output_tokens")) invalid in
  let? input := PromptInput.segmented [] input (PromptCacheIdentity.stable_segments cache) in
  let? request := new_segmented settings input tools instructions routing limit in
  let? request := match recorded_format template with
                  | Some format =>
                      let? name := ok_or (text_field format "name") invalid in
                      with_json_schema request name (index format "schema")
                  | None => Ok request
                  end in
  let? _ := reject_if (negb (bool_decide (cache_identity request = cache))
                       || negb (bool_decide (wire request Transport.Http = template))) invalid in
  Ok request.
End requests.

(** ** Recorded requests are rebuilt *)

Section rebuilt.
Context {SHA : Sha256} {SER : RequestSerde}.
Import InferenceRequest.

(** The requests the constructors make. *)
Inductive built : t → Prop :=
| built_new settings input tools instructions session limit r :
    (limit ≤ u64_MAX)%N → new_segmented settings input tools instructions session limit = Ok r → built r
| built_key r key r' : built r → with_prompt_cache_key r key = Ok r' → built r'
| built_schema r name schema r' : built r → with_json_schema r name schema = Ok r' → built r'.

Record request_ok (r : t) : Prop := {
  rq_shape : PromptInput.items (input r) ≠ [] ∧ (0 < max_output_tokens r ≤ u64_MAX)%N;
  rq_items : for_each (λ _ item, validate_input item) tt (PromptInput.items (input r)) = Ok tt;
  rq_tools : is_Some (to_option (for_each check_tool ∅ (tools r)));
  rq_key : valid_routing_key (prompt_cache_key r) = true;
  rq_format : output_format r = None ∨ ∃ name schema, output_format r = Some (schema_format name schema);
  rq_cache : cache_identity_of (settings r) (prompt_cache_key r) (instructions r) (tools r)
    (PromptInput.stable_segments (input r)) (output_format r) = Ok (cache_identity r);
}.

Lemma built_ok r : built r → request_ok r.
Proof.
  induction 1 as [settings input tools instructions session limit r Hl H|r key r' _ [] H|r name schema r' _ [] H].
  - unfold new_segmented in H. apply rbind_Ok in H as ([] & [[Hi Hz]%orb_false_iff Hk]%reject_if_Ok%orb_false_iff & H).
    apply rbind_Ok in H as ([] & Hitems & (names & Htools & (cache & Hc & [= <-])%rbind_Ok)%rbind_Ok).
    split; cbn; [|done| | |by left|done].
    + split; [by apply bool_decide_eq_false in Hi|]. apply N.eqb_neq in Hz. lia.
    + rewrite Htools. by eexists.
    + by apply negb_false_iff.
  - unfold with_prompt_cache_key in H. apply rbind_Ok in H as ([] & Hk%reject_if_Ok%negb_false_iff & (cache & Hc & [= <-])%rbind_Ok).
    by split.
  - unfold with_json_schema in H. apply rbind_Ok in H as (cache & Hc & [= <-]). split; cbn; try done. right. eauto.
Qed.

(** The fields of the wire form. *)
Lemma wire_fields r :
  index (wire r Transport.Http) "input" = VArray (PromptInput.items (input r)) ∧
  index (wire r Transport.Http) "tools" = VArray (tools r) ∧
  text_field (wire r Transport.Http) "instructions" = Some (instructions r) ∧
  text_field (wire r Transport.Http) "prompt_cache_key" = Some (prompt_cache_key r) ∧
  index (wire r Transport.Http) "max_output_tokens" = VNumber (u128_to_string (max_output_tokens r)) ∧
  recorded_format (wire r Transport.Http) = output_format r.
Proof.
  unfold wire, reasoning_settings, text_settings. destruct (bool_decide _), (ModelSettings.fast_mode _), (output_format r);
    split_and!; reflexivity.
Qed.

Lemma schema_format_fields name schema :
  text_field (schema_format name schema) "name" = Some name ∧ index (schema_format name schema) "schema" = schema.
Proof. by split. Qed.

Lemma as_u64_to_string n : (n ≤ u64_MAX)%N → ModelUsage.as_u64 (VNumber (u128_to_string n)) = Some n.
Proof.
  intros Hn. destruct (u128_to_string_spec n) as (Hd & He & Hv); [unfold u128_MAX, u64_MAX in *; lia|].
  unfold ModelUsage.as_u64. rewrite parse_digits_ok; [by rewrite Hv|done|done|by rewrite Hv].
Qed.

(** The identity without a format exists where the one with a format does. *)
Lemma cache_identity_base settings key instructions tools segments format cache :
  cache_identity_of settings key instructions tools segments format = Ok cache →
  PromptCacheIdentity.stable_segments cache = segments ∧
  ∃ cache', cache_identity_of settings key instructions tools segments None = Ok cache'.
Proof.
  unfold cache_identity_of. intros (d & Hd & (l & Hl & (l' & _ & [= <-])%rbind_Ok)%rbind_Ok)%rbind_Ok.
  split; [done|]. rewrite Hd. cbn [rbind]. rewrite Hl. by eexists.
Qed.

(** C40: What was recorded of a request, its form on HTTP and the identity of its prefix, is
    enough to build it again: the recorded template passes every check and gives a request
    with the same form on both transports and the same identity. *)
Theorem recorded_request_rebuilds r :
  built r →
  ∃ r', from_recorded_template (settings r) (wire r Transport.Http) (cache_identity r) = Ok r' ∧
    (∀ transport, wire r' transport = wire r transport) ∧ cache_identity r' = cache_identity r.
Proof.
  intros [[Hitems [Hpos Hmax]] Hval [names Htools] Hkey Hformat Hcache]%built_ok.
  destruct (cache_identity_base _ _ _ _ _ _ _ Hcache) as [Hseg [cache0 Hc0]].
  destruct (wire_fields r) as (Ei & Et & En & Ek & Em & Ef).
  unfold from_recorded_template. rewrite Ei, Et, En, Ek, Em, Ef. cbn [as_array ok_or rbind]. rewrite as_u64_to_string by done.
  cbn [ok_or rbind]. unfold PromptInput.segmented. rewrite (bool_decide_true ([] = [])) by done. cbn [negb andb reject_if rbind].
  set (base := mk (settings r) (PromptInput.mk (PromptInput.items (input r)) 0 (PromptInput.stable_segments (input r))) (tools r)
    (instructions r) (prompt_cache_key r) (prompt_cache_key r) cache0 (max_output_tokens r) None).
  assert (new_segmented (settings r) (PromptInput.mk ([] ++ PromptInput.items (input r)) (length ([] : list Value))
    (PromptCacheIdentity.stable_segments (cache_identity r))) (tools r) (instructions r) (prompt_cache_key r) (max_output_tokens r)
    = Ok base) as ->.
  { unfold new_segmented. cbn [PromptInput.items PromptInput.stable_segments app]. rewrite bool_decide_false by done.
    rewrite (proj2 (N.eqb_neq _ _)) by lia. rewrite Hkey. cbn [orb negb reject_if rbind]. rewrite Hval. cbn [rbind].
    destruct (for_each check_tool ∅ (tools r)); [|done]. cbn [rbind]. rewrite Hseg, Hc0. done. }
  cbn [rbind].
  assert (∃ r', match output_format r with
      | Some format => let? name := ok_or (text_field format "name") invalid in with_json_schema base name (index format "schema")
      | None => Ok base end = Ok r' ∧ (∀ transport, wire r' transport = wire r transport) ∧ cache_identity r' = cache_identity r)
    as (r' & -> & Hw & Hid).
  { destruct Hformat as [Ho|(name & schema & Ho)]; rewrite Ho in *.
    - exists base. split_and!; [done| |change (cache_identity base) with cache0; congruence]. intros t. unfold wire, reasoning_settings, text_settings. by rewrite Ho.
    - destruct (schema_format_fields name schema) as [-> ->]. cbn [ok_or rbind]. unfold with_json_schema, base at 1 2 3 4 5. cbn [settings prompt_cache_key instructions tools input PromptInput.stable_segments].
      rewrite Hcache. cbn [rbind]. eexists. split_and!; [done| |done]. intros t. unfold wire, reasoning_settings, text_settings. cbn.
      by rewrite Ho. }
  cbn [rbind]. rewrite Hid, Hw, !bool_decide_true by done. by exists r'.
Qed.
End rebuilt.
