(* ===== verification/Responses.v ===== *)
(** * Calls to a model (crates/harness/src/inference/transport.rs)

    A call is a bounded number of attempts over one prepared body. An attempt that may
    have reached the provider is accounted for: only an explicit rejection before the
    stream is tried again, and what it may have cost is never guessed. What the network,
    the credentials and the clock answer is [World]; a call may be cut short, by a
    cancellation or its deadline, wherever it waits. *)

From S2P Require Import Prelude Digest Contract Cost Input Codec JsonValue Secrets Media Decoder EventStream Requests.

Module AuthError.
Inductive t : Type :=
| InvalidCredentials
| StoreUnavailable
| StoreChanged
| AccountChanged
| LoginRequired
| RefreshUncertain
| Transport
| Rejected
| Timeout
| Cancelled
| InvalidCallback
| CallbackUnavailable
| InvalidIssuer.
#[global] Instance eq_dec : EqDecision t.
Proof. solve_decision. Defined.
End AuthError.

Module AuthMode.
Inductive t : Type := Auto | ApiKey | ChatGpt.
#[global] Instance eq_dec : EqDecision t.
Proof. solve_decision. Defined.
End AuthMode.

(** Durations are in milliseconds. *)
Module InferenceLimits.
Record t : Type := mk {
  max_attempts : N;
  connect_timeout : N;
  idle_timeout : N;
  total_timeout : N;
  retry_delay : N;
  max_retry_delay : N;
  max_request_bytes : N;
  max_response_bytes : N;
  max_event_bytes : N;
}.
(** [Default] *)
Definition default : t :=
  mk 3 20000 90000 300000 250 5000 (2 * 1024 * 1024) (16 * 1024 * 1024) (8 * 1024 * 1024).
(** The guard of [ResponsesClient::new]. *)
Definition invalid (l : t) : bool :=
  (max_attempts l =? 0)%N || (8 <? max_attempts l)%N || (connect_timeout l =? 0)%N || (idle_timeout l =? 0)%N
  || (total_timeout l =? 0)%N || (max_request_bytes l =? 0)%N || (max_event_bytes l =? 0)%N
  || (max_response_bytes l <? max_event_bytes l)%N || (128 * 1024 * 1024 <? max_response_bytes l)%N
  || (32 * 1024 * 1024 <? max_request_bytes l)%N.
End InferenceLimits.

Module Failure.
Record t : Type := mk { kind : FailureKind.t; http_status : option N; auth_error : option AuthError.t }.
#[global] Instance eq_dec : EqDecision t.
Proof. solve_decision. Defined.
End Failure.

Module AttemptStatus.
Inductive t : Type := Started | Rejected | ResponseReceived | Failed | Cancelled | TimedOut.
#[global] Instance eq_dec : EqDecision t.
Proof. solve_decision. Defined.
End AttemptStatus.

Module AttemptRecord.
Record t : Type := mk {
  number : N;
  status : AttemptStatus.t;
  http_status : option N;
  dispatched : bool;
  billing_uncertain : bool;
  elapsed_ms : N;
}.
#[global] Instance eta_t : Eta t := λ r,
  mk (number r) (status r) (http_status r) (dispatched r) (billing_uncertain r) (elapsed_ms r).
#[global] Instance set_status : Setter status.
Proof. derive_setter status. Defined.
#[global] Instance set_http_status : Setter http_status.
Proof. derive_setter http_status. Defined.
#[global] Instance set_dispatched : Setter dispatched.
Proof. derive_setter dispatched. Defined.
#[global] Instance set_billing_uncertain : Setter billing_uncertain.
Proof. derive_setter billing_uncertain. Defined.
#[global] Instance set_elapsed_ms : Setter elapsed_ms.
Proof. derive_setter elapsed_ms. Defined.
End AttemptRecord.

Module RequestRoute.
Inductive t : Type := Default | ModelOverride.
End RequestRoute.

Module RequestProvenance.
Inductive t : Type :=
| Unavailable
| Prepared (transport : Transport.t) (dialect : ResponseDialect.t) (route : RequestRoute.t) (body : string).
End RequestProvenance.

Module CallOutcome.
Record t : Type := mk {
  request : RequestProvenance.t;
  response : option ProviderResponse.t;
  failure : option Failure.t;
  attempts : list AttemptRecord.t;
  partial_text : string;
  partial_items : list Value;
  response_id : option string;
  cost_usd : option UsdCost;
}.
End CallOutcome.

#[local] Notation E := FailureKind.t.

(** ** What an outcome says of its cost *)

Section outcome.
Import CallOutcome.
Implicit Types (o : CallOutcome.t).

Definition billing_uncertain o : bool := existsb AttemptRecord.billing_uncertain (attempts o).

Definition cleanly_rejected (status : N) (a : AttemptRecord.t) : bool :=
  bool_decide (AttemptRecord.status a = AttemptStatus.Rejected)
  && bool_decide (AttemptRecord.http_status a = Some status) && negb (AttemptRecord.billing_uncertain a).
Definition clean_rejection o (status : N) : bool :=
  match failure o with Some f => bool_decide (Failure.http_status f = Some status) | None => false end
  && bool_decide (response o = None) && bool_decide (response_id o = None) && str_is_empty (partial_text o)
  && bool_decide (partial_items o = []) && negb (bool_decide (attempts o = []))
  && forallb (cleanly_rejected status) (attempts o).

Definition failed_with (kinds : list E) o : bool :=
  match failure o with
  | Some f => bool_decide (Failure.kind f ∈ kinds) && bool_decide (Failure.auth_error f = None)
  | None => false
  end.
Definition rate_limited o : bool := clean_rejection o 429 && failed_with [FailureKind.Rejected] o.
Definition authentication_rejected o : bool :=
  clean_rejection o 401 && failed_with [FailureKind.Authentication; FailureKind.Rejected] o.
Definition retryable_pre_generation_rejection o : bool := rate_limited o || authentication_rejected o.

Definition none_dispatched o : bool := forallb (λ a, negb (AttemptRecord.dispatched a)) (attempts o).

Definition accounted_tokens o : option N :=
  if retryable_pre_generation_rejection o then Some 0%N
  else if billing_uncertain o then None
  else match (output ← response o; ModelUsage.total_tokens (ProviderResponse.usage output)) with
       | Some n => Some n
       | None => if none_dispatched o then Some 0%N else None
       end.

Definition accounted_cost o : option UsdCost :=
  match cost_usd o with
  | Some cost => Some cost
  | None => if retryable_pre_generation_rejection o || none_dispatched o then Some UsdCost.ZERO else None
  end.
End outcome.

(** ** The world *)

(** An answer that was awaited, unless the call was cut short there. *)
Inductive Awaited (A : Type) : Type := Answered (a : A) | CutShort.
Arguments Answered {A} _.
Arguments CutShort {A}.

(** The content type of an answer: absent, not text, or text. *)
Inductive ContentType : Type := NoContentType | OpaqueContentType | TextContentType (value : string).

Inductive HttpAnswer : Type :=
| SendTimedOut
| SendFailed
| Responded (status : N) (cost_header : option string) (content_type : ContentType) (body : list Chunk) (cut : bool).

Inductive SocketAnswer : Type :=
| InvalidHandshake
| ConnectTimedOut
| ConnectRejected (status : N)
| ConnectFailed
| Connected (sent : Awaited (option E)) (messages : list Message) (cut : bool).

(** What one attempt meets. [recovery] and [slept] are awaited after a rejection. *)
Record Attempt : Type := mk_attempt {
  headers : Awaited (option AuthError.t);
  http_answer : Awaited HttpAnswer;
  socket_answer : Awaited SocketAnswer;
  cancelled : bool;
  elapsed : N;
  recovery : Awaited (option AuthError.t);
  slept : Awaited unit;
}.

Record World : Type := mk_world {
  attempt_world : N → Attempt;
  (** Whether what cut the call short is a cancellation; else it is the deadline. *)
  cut_is_cancel : bool;
  final_elapsed : N;
}.

(** ** The state of a call *)

Module CallState.
Record t : Type := mk {
  provenance : RequestProvenance.t;
  attempts : list AttemptRecord.t;
  decoding : Decoding;
  auth_error : option AuthError.t;
  response_cost_usd : option UsdCost;
}.
#[global] Instance eta_t : Eta t := λ s, mk (provenance s) (attempts s) (decoding s) (auth_error s) (response_cost_usd s).
#[global] Instance set_provenance : Setter provenance.
Proof. derive_setter provenance. Defined.
#[global] Instance set_attempts : Setter attempts.
Proof. derive_setter attempts. Defined.
#[global] Instance set_decoding : Setter decoding.
Proof. derive_setter decoding. Defined.
#[global] Instance set_auth_error : Setter auth_error.
Proof. derive_setter auth_error. Defined.
#[global] Instance set_response_cost_usd : Setter response_cost_usd.
Proof. derive_setter response_cost_usd. Defined.
Definition default : t := mk RequestProvenance.Unavailable [] (Decoder.default, []) None None.
End CallState.

(** [attempts.last_mut()] *)
Fixpoint update_last {A} (f : A → A) (l : list A) : list A :=
  match l with
  | [] => []
  | [a] => [f a]
  | a :: l => a :: update_last f l
  end.
Definition dispatched (s : CallState.t) : CallState.t :=
  s <| CallState.attempts := update_last (λ a, a <| AttemptRecord.dispatched := true |>) (CallState.attempts s) |>.

(** How an attempt ends: [AttemptFailure] without the delay it asks for, which only
    decides how long the call sleeps. *)
Inductive AttemptEnd : Type :=
| Received
| Broke (kind : E) (status : option N)
| WasCut.

(** ** The client *)

Module ModelRoute.
Record t : Type := mk { transport : Transport.t; mode : AuthMode.t }.
End ModelRoute.

Record ResponsesClient : Type := mk_client {
  route : ModelRoute.t;
  limits : InferenceLimits.t;
  model_routes : Model → option ModelRoute.t;
}.

(** ** One attempt *)

Section calls.
Context {SHA : Sha256} {SER : RequestSerde} {VAL : Serde Value}.
Variable value_text : Value → string.

Definition is_success (status : N) : bool := (200 <=? status)%N && (status <=? 299)%N.

(** Whether the answer is a stream of events. *)
Definition event_stream (dialect : ResponseDialect.t) (content_type : ContentType) : bool :=
  match content_type with
  | NoContentType => bool_decide (dialect = ResponseDialect.ChatGpt)
  | OpaqueContentType => false
  | TextContentType value =>
      match head (split_at (ascii_is 59) value) with
      | Some mime => str_eqb (str_lower (trim mime)) "text/event-stream"
      | None => false
      end
  end.

(** The end of a loop over chunks or messages. *)
Definition stream_end (answer : result bool E) (cut : bool) : AttemptEnd :=
  match answer with
  | Ok true => Received
  | Ok false => if cut then WasCut else Broke FailureKind.Interrupted None
  | Err kind => Broke kind None
  end.

(** [ResponsesClient::http] *)
Definition http (limits : InferenceLimits.t) (answer : Awaited HttpAnswer) (s : CallState.t) : CallState.t * AttemptEnd :=
  let s := dispatched s in
  match answer with
  | CutShort => (s, WasCut)
  | Answered SendTimedOut => (s, Broke FailureKind.Timeout None)
  | Answered SendFailed => (s, Broke FailureKind.Transport None)
  | Answered (Responded status cost_header content_type body cut) =>
      let s := s <| CallState.response_cost_usd := cost_header ≫= UsdCost.from_str |> in
      if negb (is_success status) then (s, Broke FailureKind.Rejected (Some status))
      else if negb (event_stream (Decoder.dialect (CallState.decoding s).1) content_type)
      then (s, Broke FailureKind.MalformedResponse None)
      else
        let '(r, a) := read_chunks value_text (InferenceLimits.max_event_bytes limits)
                         (InferenceLimits.max_response_bytes limits) body 0 (Sse.default, CallState.decoding s) in
        (s <| CallState.decoding := r.2 |>, stream_end a cut)
  end.

(** [ResponsesClient::websocket] *)
Definition websocket (limits : InferenceLimits.t) (answer : Awaited SocketAnswer) (s : CallState.t) : CallState.t * AttemptEnd :=
  match answer with
  | CutShort => (s, WasCut)
  | Answered InvalidHandshake => (s, Broke FailureKind.InvalidEndpoint None)
  | Answered ConnectTimedOut => (s, Broke FailureKind.Timeout None)
  | Answered (ConnectRejected status) => (s, Broke FailureKind.Rejected (Some status))
  | Answered ConnectFailed => (s, Broke FailureKind.Transport None)
  | Answered (Connected sent messages cut) =>
      let s := dispatched s in
      match sent with
      | CutShort => (s, WasCut)
      | Answered (Some kind) => (s, Broke kind None)
      | Answered None =>
          let '(d, a) := read_messages value_text (InferenceLimits.max_response_bytes limits) messages 0 (CallState.decoding s) in
          (s <| CallState.decoding := d |>, stream_end a cut)
      end
  end.

(** ** The loop over attempts *)

(** How the call ends, before it was known whether it was cut short. *)
Definition CallEnd : Type := Awaited (result unit E).

(** The rejections that are not billed: 4xx but 408. *)
Definition unbilled_status (status : option N) : bool :=
  match status with
  | Some n => ((400 <=? n) && (n <=? 407) || (409 <=? n) && (n <=? 499))%N
  | None => false
  end.

Definition broken_status (kind : E) (status : option N) : AttemptStatus.t :=
  if bool_decide (is_Some status) then AttemptStatus.Rejected
  else if bool_decide (kind = FailureKind.Timeout) then AttemptStatus.TimedOut
  else AttemptStatus.Failed.

Definition usage_recorded (d : Decoder.t) : bool :=
  match Decoder.terminal d with Some r => ModelUsage.recorded (ProviderResponse.usage r) | None => false end.

Definition record_received (s : CallState.t) : CallState.t :=
  s <| CallState.attempts := update_last (λ a,
    a <| AttemptRecord.status := AttemptStatus.ResponseReceived |>
      <| AttemptRecord.billing_uncertain := negb (usage_recorded (CallState.decoding s).1) |>) (CallState.attempts s) |>.
Definition record_broken (kind : E) (status : option N) (s : CallState.t) : CallState.t :=
  s <| CallState.attempts := update_last (λ a,
    a <| AttemptRecord.http_status := status |>
      <| AttemptRecord.status := broken_status kind status |>
      <| AttemptRecord.billing_uncertain := AttemptRecord.dispatched a && negb (unbilled_status status) |>)
    (CallState.attempts s) |>.
Definition record_elapsed (elapsed : N) (s : CallState.t) : CallState.t :=
  s <| CallState.attempts := update_last (λ a, a <| AttemptRecord.elapsed_ms := elapsed |>) (CallState.attempts s) |>.
Definition last_uncertain (s : CallState.t) : bool :=
  match last (CallState.attempts s) with Some a => AttemptRecord.billing_uncertain a | None => false end.

Definition one_attempt (transport : Transport.t) (limits : InferenceLimits.t) (number : N) (w : Attempt) (s : CallState.t) :
    CallState.t * AttemptEnd :=
  let s := s <| CallState.attempts :=
    CallState.attempts s ++ [AttemptRecord.mk number AttemptStatus.Started None false false 0] |> in
  match transport with
  | Transport.Http => http limits (http_answer w) s
  | Transport.WebSocket => websocket limits (socket_answer w) s
  end.

(** The rounds from [number] on; [remaining] are left. *)
Fixpoint attempts_loop (transport : Transport.t) (limits : InferenceLimits.t) (world : N → Attempt) (remaining : nat)
    (number : N) (recovered : bool) (s : CallState.t) : CallState.t * CallEnd :=
  match remaining with
  | O => (s, Answered (Err FailureKind.Rejected))
  | S remaining =>
      let w := world number in
      let s := s <| CallState.response_cost_usd := None |> in
      match headers w with
      | CutShort => (s, CutShort)
      | Answered (Some error) => (s <| CallState.auth_error := Some error |>, Answered (Err FailureKind.Authentication))
      | Answered None =>
          let '(s, ended) := one_attempt transport limits number w s in
          match ended with
          | WasCut => (s, CutShort)
          | _ =>
              if cancelled w then (s, Answered (Err FailureKind.Cancelled))
              else
                let s := record_elapsed (elapsed w) s in
                match ended with
                | Received | WasCut => (record_received s, Answered (Ok tt))
                | Broke kind status =>
                    let s := record_broken kind status s in
                    if bool_decide (status = Some 401%N) && negb recovered then
                      match recovery w with
                      | CutShort => (s, CutShort)
                      | Answered (Some error) =>
                          (s <| CallState.auth_error := Some error |>, Answered (Err FailureKind.Authentication))
                      | Answered None =>
                          if (number <? InferenceLimits.max_attempts limits)%N
                          then attempts_loop transport limits world remaining (number + 1)%N true s
                          else (s, Answered (Err FailureKind.Authentication))
                      end
                    else if (number =? InferenceLimits.max_attempts limits)%N || last_uncertain s
                            || negb (bool_decide (status = Some 429%N)) || Decoder.observed (CallState.decoding s).1
                    then (s, Answered (Err kind))
                    else match slept w with
                         | CutShort => (s, CutShort)
                         | Answered _ => attempts_loop transport limits world remaining (number + 1)%N recovered s
                         end
                end
          end
      end
  end.

(** ** The call *)

(** [with_model_route] *)
Definition with_model_route (client : ResponsesClient) (model : Model) (r : ModelRoute.t) : ResponsesClient :=
  mk_client (route client) (limits client) (λ m, if decide (m = model) then Some r else model_routes client m).

Definition run (client : ResponsesClient) (request : InferenceRequest.t) (world : N → Attempt) (s : CallState.t) :
    CallState.t * CallEnd :=
  let override := model_routes client (ModelSettings.model (InferenceRequest.settings request)) in
  let r := default (route client) override in
  let dialect := if bool_decide (ModelRoute.mode r = AuthMode.ChatGpt) then ResponseDialect.ChatGpt
                 else Decoder.dialect (CallState.decoding s).1 in
  let s := s <| CallState.decoding := ((CallState.decoding s).1 <| Decoder.dialect := dialect |>, (CallState.decoding s).2) |> in
  let body := value_text (effective_wire request (ModelRoute.transport r) dialect) in
  if (InferenceLimits.max_request_bytes (limits client) <? str_len body)%N then (s, Answered (Err FailureKind.SizeLimit))
  else
    let s := s <| CallState.provenance := RequestProvenance.Prepared (ModelRoute.transport r) dialect
      (if bool_decide (is_Some override) then RequestRoute.ModelOverride else RequestRoute.Default) body |> in
    attempts_loop (ModelRoute.transport r) (limits client) world (N.to_nat (InferenceLimits.max_attempts (limits client)))
      1 false s.

(** The status of an attempt that never ended. *)
Definition unfinished_status (kind : E) : AttemptStatus.t :=
  match kind with
  | FailureKind.Cancelled => AttemptStatus.Cancelled
  | FailureKind.Timeout => AttemptStatus.TimedOut
  | _ => AttemptStatus.Failed
  end.
Definition close_attempt (kind : E) (elapsed : N) (a : AttemptRecord.t) : AttemptRecord.t :=
  if bool_decide (AttemptRecord.status a = AttemptStatus.Started) then
    a <| AttemptRecord.status := unfinished_status kind |>
      <| AttemptRecord.billing_uncertain := AttemptRecord.dispatched a |>
      <| AttemptRecord.elapsed_ms := elapsed |>
  else a.

(** The cost of a call: what the gateway and the response say, where they agree, else
    what the catalog says of the usage. *)
Definition call_cost (model : Model) (header : option UsdCost) (terminal : option ProviderResponse.t) : option UsdCost :=
  match header, (r ← terminal; ModelUsage.cost_usd (ProviderResponse.usage r)) with
  | Some header, Some cost => if bool_decide (header = cost) then Some header else None
  | Some header, None => Some header
  | None, Some cost => Some cost
  | None, None => r ← terminal; catalog_cost model (ProviderResponse.usage r)
  end.

(** [ResponsesClient::respond] *)
Definition respond (client : ResponsesClient) (request : InferenceRequest.t) (w : World) : CallOutcome.t :=
  let '(s, ended) := run client request (attempt_world w) CallState.default in
  let failed := match ended with
                | Answered (Ok _) => None
                | Answered (Err kind) => Some kind
                | CutShort => Some (if cut_is_cancel w then FailureKind.Cancelled else FailureKind.Timeout)
                end in
  let attempts := match failed with
                  | Some kind => update_last (close_attempt kind (final_elapsed w)) (CallState.attempts s)
                  | None => CallState.attempts s
                  end in
  let failure := (λ kind, Failure.mk kind (last attempts ≫= AttemptRecord.http_status) (CallState.auth_error s)) <$> failed in
  let d := (CallState.decoding s).1 in
  let cost := call_cost (ModelSettings.model (InferenceRequest.settings request)) (CallState.response_cost_usd s)
                (Decoder.terminal d) in
  CallOutcome.mk (CallState.provenance s)
    ((λ r, r <| ProviderResponse.usage := (ProviderResponse.usage r) <| ModelUsage.cost_usd := cost |> |>) <$> Decoder.terminal d)
    failure attempts (Decoder.text d) (btree_values (Decoder.items d)) (Decoder.response_id d) cost.
End calls.

(** ** What a call leaves behind *)

Lemma update_last_snoc {A} (f : A → A) l a : update_last f (l ++ [a]) = l ++ [f a].
Proof. induction l as [|x l IH]; [done|]. cbn [app update_last]. rewrite IH. by destruct l. Qed.

Section guarantees.
Context {SHA : Sha256} {SER : RequestSerde} {VAL : Serde Value}.
Variable value_text : Value → string.
Implicit Types (a : AttemptRecord.t) (s : CallState.t).
Import AttemptRecord.

(** A decoder that has seen nothing. *)
Definition quiet (d : Decoding) : Prop := ∃ dialect, d = (Decoder.default <| Decoder.dialect := dialect |>, []).
Lemma quiet_open d : quiet d → open_ok d.
Proof. intros [dialect ->]. split; [apply empty_decoding_ok|done]. Qed.

(** A rejection that is tried again: explicit, before the stream and not billed. *)
Definition spent a : Prop :=
  status a = AttemptStatus.Rejected ∧ billing_uncertain a = false ∧
  (http_status a = Some 401%N ∨ http_status a = Some 429%N).

(** The attempt just made. *)
Record attempted (l : list AttemptRecord.t) (n : N) s (ended : AttemptEnd) a : Prop := {
  at_list : CallState.attempts s = l ++ [a];
  at_record : number a = n ∧ status a = AttemptStatus.Started ∧ billing_uncertain a = false;
  at_end : match ended with
           | Received => dispatched a = true ∧ decoding_ok (CallState.decoding s) ∧
                         ∃ r, Decoder.terminal (CallState.decoding s).1 = Some r
           | Broke _ (Some _) => quiet (CallState.decoding s)
           | _ => Decoder.terminal (CallState.decoding s).1 = None
           end;
}.

Lemma stream_ended (d : Decoding) (t : result bool E) cut :
  match t with Ok true => decoding_ok d ∧ ∃ x, Decoder.terminal d.1 = Some x
             | Ok false => open_ok d | Err _ => Decoder.terminal d.1 = None end →
  match stream_end t cut with
  | Received => decoding_ok d ∧ ∃ r, Decoder.terminal d.1 = Some r
  | Broke _ (Some _) => False
  | _ => Decoder.terminal d.1 = None
  end.
Proof. destruct t as [[]|e]; cbn; [done| |done]. destruct cut; by intros [_ ?]. Qed.

Lemma one_attempt_spec transport limits n w s s' ended :
  quiet (CallState.decoding s) → one_attempt value_text transport limits n w s = (s', ended) →
  ∃ a, attempted (CallState.attempts s) n s' ended a.
Proof.
  intros Hq. pose proof (quiet_open _ Hq) as Hopen. assert (Hn : Decoder.terminal (CallState.decoding s).1 = None) by apply Hopen.
  set (a0 := mk n AttemptStatus.Started None false false 0). set (a1 := a0 <| dispatched := true |>).
  unfold one_attempt. fold a0. destruct transport.
  - unfold http, Responses.dispatched. cbn. rewrite update_last_snoc. fold a1.
    destruct (http_answer w) as [[| |st cost ct body cut]|]; [by intros [= <- <-]; exists a1..| |by intros [= <- <-]; exists a1].
    destruct (is_success st); cbn [negb]; [|by intros [= <- <-]; exists a1].
    destruct (event_stream _ _); cbn [negb]; [|by intros [= <- <-]; exists a1].
    destruct (read_chunks _ _ _ body 0 _) as [r t] eqn:Hr. apply read_chunks_open in Hr; [|exact Hopen].
    intros [= <- <-]. exists a1. split; cbn; [done..|]. apply (stream_ended _ _ cut) in Hr.
    destruct (stream_end t cut) as [|? []|]; done.
  - unfold websocket, Responses.dispatched. cbn.
    destruct (socket_answer w) as [[| |st| |sent messages cut]|]; try (by intros [= <- <-]; exists a0).
    rewrite update_last_snoc. fold a1. destruct sent as [[kind|]|]; [by intros [= <- <-]; exists a1| |by intros [= <- <-]; exists a1].
    destruct (read_messages _ _ messages 0 _) as [d t] eqn:Hr. apply read_messages_open in Hr; [|exact Hopen].
    intros [= <- <-]. exists a1. split; cbn; [done..|]. apply (stream_ended _ _ cut) in Hr.
    destruct (stream_end t cut) as [|? []|]; done.
Qed.

(** An attempt that is over, or was left as it began: if it was dispatched, its cost is
    uncertain unless it was rejected with a status that is not billed. *)
Definition settled a : Prop :=
  (status a = AttemptStatus.Started ∧ billing_uncertain a = false) ∨
  (status a ≠ AttemptStatus.Started ∧ status a ≠ AttemptStatus.ResponseReceived ∧
   (dispatched a = true → billing_uncertain a = false →
      status a = AttemptStatus.Rejected ∧ unbilled_status (http_status a) = true)).
Lemma spent_settled a : spent a → settled a.
Proof. intros (Hs & _ & Hh). right. split_and!; [congruence..|]. intros _ _. split; [done|]. by destruct Hh as [->| ->]. Qed.

(** The end of the loop. *)
Definition received_last s : Prop := ∃ earlier a,
  CallState.attempts s = earlier ++ [a] ∧ Forall spent earlier ∧ status a = AttemptStatus.ResponseReceived ∧
  dispatched a = true ∧ billing_uncertain a = negb (usage_recorded (CallState.decoding s).1).
Definition open_last s : Prop := ∃ earlier a,
  CallState.attempts s = earlier ++ [a] ∧ status a = AttemptStatus.Started ∧ dispatched a = true.

Record call_ended (maximum : N) s (ended : CallEnd) : Prop := {
  ca_numbers : ∃ n, number <$> CallState.attempts s = N.of_nat <$> seq 1 n ∧ (N.of_nat n ≤ maximum)%N;
  ca_earlier : ∃ earlier rest, CallState.attempts s = earlier ++ rest ∧ Forall spent earlier ∧ length rest ≤ 1;
  ca_end : match ended with
           | Answered (Ok _) => received_last s ∧ decoding_ok (CallState.decoding s) ∧
                                ∃ r, Decoder.terminal (CallState.decoding s).1 = Some r
           | _ => Forall settled (CallState.attempts s) ∧
                  (Decoder.terminal (CallState.decoding s).1 = None ∨ open_last s ∧ decoding_ok (CallState.decoding s))
           end;
}.

(** The state between two rounds. *)
Record between (n : N) s : Prop := {
  be_quiet : quiet (CallState.decoding s);
  be_spent : Forall spent (CallState.attempts s);
  be_numbers : (1 ≤ n)%N ∧ number <$> CallState.attempts s = N.of_nat <$> seq 1 (N.to_nat (n - 1));
}.

Lemma between_ended maximum n s ended :
  between n s → (n - 1 ≤ maximum)%N → (∀ u, ended ≠ Answered (Ok u)) → call_ended maximum s ended.
Proof.
  intros [[dialect Hd] Hs [Hn Hnum]] Hm He. split.
  - exists (N.to_nat (n - 1)). split; [done|lia].
  - exists (CallState.attempts s), []. rewrite app_nil_r. cbn. split_and!; [done..|lia].
  - assert (Forall settled (CallState.attempts s)) by (eapply Forall_impl; [done|apply spent_settled]).
    rewrite Hd. destruct ended as [[u|e]|]; [by destruct (He u)| |]; (split; [done|by left]).
Qed.

Lemma attempted_numbers l n a :
  (1 ≤ n)%N → number <$> l = N.of_nat <$> seq 1 (N.to_nat (n - 1)) → number a = n →
  number <$> (l ++ [a]) = N.of_nat <$> seq 1 (N.to_nat n).
Proof.
  intros Hn Hl Ha. rewrite fmap_app, Hl. replace (N.to_nat n) with (N.to_nat (n - 1) + 1) by lia.
  rewrite seq_app, fmap_app. cbn. rewrite Ha. do 2 f_equal. lia.
Qed.

(** The loop may end after one more attempt, unless with success, when that attempt is
    settled. *)
Lemma one_more_ended maximum l n s ended a :
  Forall spent l → (1 ≤ n ≤ maximum)%N → number <$> l = N.of_nat <$> seq 1 (N.to_nat (n - 1)) →
  CallState.attempts s = l ++ [a] → number a = n → settled a → (∀ u, ended ≠ Answered (Ok u)) →
  (Decoder.terminal (CallState.decoding s).1 = None ∨ open_last s ∧ decoding_ok (CallState.decoding s)) →
  call_ended maximum s ended.
Proof.
  intros Hl Hn Hnum Hs Ha Hset He Ht. split.
  - exists (N.to_nat n). rewrite Hs. split; [apply attempted_numbers; [lia|done..]|lia].
  - exists l, [a]. cbn. split_and!; [done..|lia].
  - assert (Forall settled (CallState.attempts s)).
    { rewrite Hs. apply Forall_app. split; [eapply Forall_impl; [done|apply spent_settled]|by constructor]. }
    destruct ended as [[u|e]|]; [by destruct (He u)|done..].
Qed.

(** What is written of an attempt that broke. *)
Lemma record_broken_spec l n s kind st e a :
  attempted l n s (Broke kind st) a →
  let s' := record_broken kind st (record_elapsed e s) in
  ∃ a', CallState.attempts s' = l ++ [a'] ∧ number a' = n ∧ settled a' ∧
    (st = Some 401%N ∨ st = Some 429%N → spent a').
Proof.
  intros [Hl (Hn & _ & _) _]. unfold record_broken, record_elapsed. cbn. rewrite Hl, !update_last_snoc.
  eexists. split; [done|]. cbn. split_and!; [done| |].
  - right. cbn. unfold broken_status. split_and!; [by repeat case_bool_decide..|].
    intros ->. cbn. intros Hu%negb_false_iff. split; [|done].
    rewrite bool_decide_true; [done|]. by destruct st.
  - intros Hst. unfold spent. cbn. unfold broken_status. destruct Hst as [-> | ->]; cbn; rewrite andb_false_r; auto.
Qed.

Lemma attempts_loop_spec transport limits world remaining n recovered s s' ended :
  between n s → N.of_nat remaining = (InferenceLimits.max_attempts limits + 1 - n)%N →
  (n <= InferenceLimits.max_attempts limits + 1)%N →
  attempts_loop value_text transport limits world remaining n recovered s = (s', ended) →
  call_ended (InferenceLimits.max_attempts limits) s' ended.
Proof.
  set (maximum := InferenceLimits.max_attempts limits).
  revert n recovered s. induction remaining as [|remaining IH]; intros n recovered s Hb Hr Hm; cbn [attempts_loop].
  { intros [= <- <-]. apply (between_ended _ n); [done|lia|done]. }
  assert (Hb0 : between n (s <| CallState.response_cost_usd := None |>)) by by destruct Hb.
  destruct (headers (world n)) as [[error|]|]; cbv zeta.
  { intros [= <- <-]. apply (between_ended _ n); [by destruct Hb|lia|done]. }
  2: { intros [= <- <-]. apply (between_ended _ n); [done|lia|done]. }
  destruct (one_attempt _ _ _ _ _ _) as [s1 how] eqn:H1. destruct Hb0 as [Hq Hsp [Hn Hnum]].
  apply one_attempt_spec in H1 as [a Hat]; [|done]. set (l := CallState.attempts _) in *.
  destruct (Hat) as [Hl (Ha & Hst & Hu) Hend].
  assert (Hopen : settled a) by by left.
  assert (Hcut : Decoder.terminal (CallState.decoding s1).1 = None ∨ open_last s1 ∧ decoding_ok (CallState.decoding s1)).
  { destruct how as [|kind [status|]|]; [right|left; by destruct Hend as [? ->]|by left..].
    destruct Hend as (? & ? & _). split; [by exists l, a|done]. }
  assert (Hstop : ∀ ended s2 a2, CallState.attempts s2 = l ++ [a2] → number a2 = n → settled a2 →
    CallState.decoding s2 = CallState.decoding s1 → Decoder.terminal (CallState.decoding s1).1 = None →
    (∀ u, ended ≠ Answered (Ok u)) → call_ended maximum s2 ended).
  { intros e2 s2 a2 Hl2 Ha2 Hs2 Hd2 Ht2 He2. eapply one_more_ended; [done|split; [done|lia]|done..|]. left. by rewrite Hd2. }
  destruct how as [|kind status|].
  3: { intros [= <- <-]. eapply one_more_ended; [done|split; [done|lia]|done..]. }
  all: destruct (cancelled (world n)); [intros [= <- <-]; eapply one_more_ended; [done|split; [done|lia]|done..]|].
  - intros [= <- <-]. destruct Hend as (Hdis & Hok & r & Hterm). unfold record_received, record_elapsed. split; cbn; rewrite ?Hl, ?update_last_snoc.
    + exists (N.to_nat n). split; [apply attempted_numbers; [lia|done..]|lia].
    + eexists l, _. split_and!; [done..|cbn; lia].
    + split_and!; [|done|eauto]. eexists l, _. cbn. rewrite ?Hl, ?update_last_snoc. done.
  - destruct (record_broken_spec _ _ _ _ _ (elapsed (world n)) _ Hat) as (a2 & Hl2 & Ha2 & Hs2 & Hspent).
    set (s2 := record_broken kind status _) in *. cbv zeta in Hl2.
    assert (Ht : Decoder.terminal (CallState.decoding s1).1 = None) by by destruct Hcut as [|[(? & a' & ? & ? & ?) ?]]; [|destruct status as [?|]; [destruct Hend as [? ->]|]].
    assert (Hgo : status = Some 401%N ∨ status = Some 429%N → between (n + 1) s2).
    { intros Hstatus. split.
      - change (CallState.decoding s2) with (CallState.decoding s1). by destruct Hstatus as [-> | ->].
      - rewrite Hl2. apply Forall_app. split; [done|]. constructor; [by apply Hspent|done].
      - split; [lia|]. rewrite Hl2. replace (n + 1 - 1)%N with n by lia. by apply attempted_numbers. }
    destruct (bool_decide (status = Some 401%N) && negb recovered) eqn:E.
    + apply andb_true_iff in E as [E%bool_decide_eq_true _].
      destruct (recovery (world n)) as [[error|]|]; [by intros [= <- <-]; eapply Hstop| |by intros [= <- <-]; eapply Hstop].
      destruct (n <? _)%N eqn:Hlt; [|by intros [= <- <-]; eapply Hstop].
      apply IH; [apply Hgo; auto|lia|lia].
    + destruct (_ || _) eqn:E2; [by intros [= <- <-]; eapply Hstop|].
      apply orb_false_iff in E2 as [[[Hne Hun]%orb_false_iff E3%negb_false_iff%bool_decide_eq_true]%orb_false_iff Hob].
      destruct (slept (world n)); [|by intros [= <- <-]; eapply Hstop].
      apply IH; [apply Hgo; auto|lia|]. apply N.eqb_neq in Hne. lia.
Qed.

Lemma run_ended client request world s ended :
  run value_text client request world CallState.default = (s, ended) →
  call_ended (InferenceLimits.max_attempts (limits client)) s ended.
Proof.
  unfold run. cbv zeta. assert (Hb : ∀ dialect p, between 1 (CallState.mk p [] (Decoder.default <| Decoder.dialect := dialect |>, []) None None)).
  { intros dialect p. split; [by exists dialect|by constructor|by split]. }
  destruct (_ <? _)%N.
  - intros [= <- <-]. apply (between_ended _ 1); [apply Hb|lia|done].
  - intros H. apply attempts_loop_spec in H; [done|apply Hb|lia..].
Qed.

(** The attempts of an outcome. *)
Lemma close_spent kind e a : spent a → close_attempt kind e a = a.
Proof. intros [Hs _]. unfold close_attempt. by rewrite Hs. Qed.
Lemma close_number kind e a : number (close_attempt kind e a) = number a.
Proof. unfold close_attempt. by case_bool_decide. Qed.

(** An attempt that is over and accounted for: nothing of it is pending, and if it was
    sent, only a status that is not billed or recorded usage takes its cost for known. *)
Definition accounted (o : CallOutcome.t) a : Prop :=
  status a ≠ AttemptStatus.Started ∧
  (dispatched a = true → billing_uncertain a = false →
    (status a = AttemptStatus.Rejected ∧ unbilled_status (http_status a) = true) ∨
    (status a = AttemptStatus.ResponseReceived ∧ CallOutcome.failure o = None ∧
     ∃ r, CallOutcome.response o = Some r ∧ ModelUsage.recorded (ProviderResponse.usage r) = true)).

Lemma close_settled kind e a o : settled a → accounted o (close_attempt kind e a).
Proof.
  unfold close_attempt. intros [[Hs Hu]|(H1 & H2 & H3)].
  - rewrite bool_decide_true by done. split; cbn; [by destruct kind|congruence].
  - rewrite bool_decide_false by done. split; [done|]. intros. left. auto.
Qed.

(** The outcome, from how the attempts ended. *)
Lemma respond_cases client request w o :
  respond value_text client request w = o →
  ∃ s ended, call_ended (InferenceLimits.max_attempts (limits client)) s ended ∧
    (CallOutcome.response o = None ↔ Decoder.terminal (CallState.decoding s).1 = None) ∧
    (∀ r, CallOutcome.response o = Some r → ∃ r0, Decoder.terminal (CallState.decoding s).1 = Some r0 ∧
       r = r0 <| ProviderResponse.usage := (ProviderResponse.usage r0) <| ModelUsage.cost_usd := CallOutcome.cost_usd o |> |>) ∧
    match ended with
    | Answered (Ok _) => CallOutcome.failure o = None ∧ CallOutcome.attempts o = CallState.attempts s
    | _ => ∃ f, CallOutcome.failure o = Some f ∧
             CallOutcome.attempts o = update_last (close_attempt (Failure.kind f) (final_elapsed w)) (CallState.attempts s)
    end.
Proof.
  unfold respond. destruct (run value_text client request (attempt_world w) CallState.default) as [s ended] eqn:Hr.
  apply run_ended in Hr. intros <-. exists s, ended. split; [done|]. cbn. split_and!.
  - by destruct (Decoder.terminal _).
  - intros r. destruct (Decoder.terminal _) as [r0|]; cbn; [|done]. intros [= <-]. eauto.
  - destruct ended as [[u|kind]|]; cbn; eauto.
Qed.

(** A response belongs to a decoding that was certified, and to a last attempt that was
    sent. *)
Lemma response_certified maximum s ended r :
  call_ended maximum s ended → Decoder.terminal (CallState.decoding s).1 = Some r →
  certified (CallState.decoding s).1 r.
Proof.
  intros [_ _ He] Hr. destruct ended as [[u|e]|]; [destruct He as (_ & Hok & _)|destruct He as [_ [Hno|[_ Hok]]]..];
    by apply (dk_terminal _ Hok) || (rewrite Hno in Hr; done).
Qed.

(** C31: A model is asked once: the attempts of a call are numbered without gaps up to the
    limit, all of them but the last were refused before any output, with 401 or 429 and
    without cost; a response that is handed over validates; and a call without failure
    has one, received by its last attempt. *)
Theorem generation_attempted_once client request w :
  let o := respond value_text client request w in
  (∃ n, number <$> CallOutcome.attempts o = N.of_nat <$> seq 1 n ∧ (N.of_nat n ≤ InferenceLimits.max_attempts (limits client))%N) ∧
  (∃ earlier rest, CallOutcome.attempts o = earlier ++ rest ∧ Forall spent earlier ∧ length rest ≤ 1) ∧
  (∀ r, CallOutcome.response o = Some r → validate_recorded r = Ok tt) ∧
  (CallOutcome.failure o = None → ∃ r earlier a, CallOutcome.response o = Some r ∧
     CallOutcome.attempts o = earlier ++ [a] ∧ status a = AttemptStatus.ResponseReceived).
Proof.
  intros o. destruct (respond_cases client request w o eq_refl) as (s & ended & Hc & Hnone & Hr & He).
  destruct (Hc) as [[n [Hn Hm]] [earlier [rest (Hl & Hs & Hlen)]] Hend].
  assert (Hclosed : CallOutcome.attempts o = CallState.attempts s ∨
    ∃ kind e, CallOutcome.attempts o = update_last (close_attempt kind e) (CallState.attempts s)).
  { destruct ended as [[u|e]|]; [left; apply He|destruct He as (f & _ & ?); right; eauto..]. }
  split_and!.
  - exists n. split; [|done]. destruct Hclosed as [->|(kind & e & ->)]; [done|]. rewrite <-Hn.
    destruct (CallState.attempts s) as [|a l _] using rev_ind; [done|]. by rewrite update_last_snoc, !fmap_app; cbn; rewrite close_number.
  - destruct Hclosed as [->|(kind & e & ->)]; [eauto|]. rewrite Hl. destruct rest as [|a [|]]; [| |cbn in Hlen; lia].
    + exists earlier, []. rewrite app_nil_r. destruct earlier as [|a l _] using rev_ind; [done|].
      rewrite update_last_snoc. apply Forall_app in Hs as Hsp. destruct Hsp as [_ Ha%Forall_inv].
      by rewrite close_spent.
    + rewrite update_last_snoc. by eexists earlier, [_].
  - intros r (r0 & Hr0 & ->)%Hr. apply (response_certified _ _ _ _ Hc) in Hr0 as [Hv _ _ _]. done.
  - intros Hf. destruct ended as [[u|e]|]; [|destruct He as (? & ? & _); congruence..].
    destruct He as [_ Ha]. destruct Hend as ((l & a & Hl2 & _ & Hst & _) & _ & r & Hterm).
    destruct (CallOutcome.response o) as [r'|]; [|by rewrite (proj1 Hnone eq_refl) in Hterm].
    exists r', l, a. by rewrite Ha.
Qed.

Lemma clean_rejection_spec o n :
  clean_rejection o n = true →
  CallOutcome.response o = None ∧ ∀ a, a ∈ CallOutcome.attempts o → status a = AttemptStatus.Rejected ∧ http_status a = Some n.
Proof.
  unfold clean_rejection. intros [[[[[[_ Hr%bool_decide_eq_true]%andb_true_iff _]%andb_true_iff _]%andb_true_iff _]%andb_true_iff _]%andb_true_iff Ha]%andb_true_iff.
  split; [done|]. rewrite forallb_forall in Ha. intros a Hin%list_elem_of_In%Ha. unfold cleanly_rejected in Hin.
  apply andb_true_iff in Hin as [[H1%bool_decide_eq_true H2%bool_decide_eq_true]%andb_true_iff _]. done.
Qed.
Lemma retryable_spec o :
  retryable_pre_generation_rejection o = true →
  CallOutcome.response o = None ∧
  ∀ a, a ∈ CallOutcome.attempts o → status a = AttemptStatus.Rejected ∧ unbilled_status (http_status a) = true.
Proof.
  unfold retryable_pre_generation_rejection, rate_limited, authentication_rejected.
  intros [[[Hr H]%clean_rejection_spec _]%andb_true_iff|[[Hr H]%clean_rejection_spec _]%andb_true_iff]%orb_true_iff;
    (split; [done|]; intros a [? Hs]%H; by rewrite Hs).
Qed.

Lemma none_dispatched_spec o a : none_dispatched o = true → a ∈ CallOutcome.attempts o → dispatched a = false.
Proof. unfold none_dispatched. rewrite forallb_forall. by intros H Hin%list_elem_of_In%H%negb_true_iff. Qed.
Lemma certain_spec o a : Responses.billing_uncertain o = false → a ∈ CallOutcome.attempts o → AttemptRecord.billing_uncertain a = false.
Proof.
  unfold Responses.billing_uncertain. intros H Hin%list_elem_of_In. destruct (AttemptRecord.billing_uncertain a) eqn:E; [|done].
  rewrite <-H. symmetry. apply existsb_exists. eauto.
Qed.

Lemma spent_accounted a o : spent a → accounted o a.
Proof. intros Hs. rewrite <-(close_spent FailureKind.Timeout 0%N a) by done. by apply close_settled, spent_settled. Qed.

Lemma closed_accounted s o kind e a maximum :
  call_ended maximum s CutShort → a ∈ update_last (close_attempt kind e) (CallState.attempts s) → accounted o a.
Proof.
  intros [_ [earlier [rest (Hl & Hs & Hlen)]] [Hset _]]. rewrite Hl in *.
  assert (Hin : ∀ l x, Forall spent l → a ∈ l ++ [x] → a = x ∨ accounted o a).
  { intros l x Hall [Ha|Ha%list_elem_of_singleton]%elem_of_app; [right|by left]. apply spent_accounted. rewrite Forall_forall in Hall. by apply Hall. }
  apply Forall_app in Hset as [_ Hset]. destruct rest as [|x [|]]; [| |cbn in Hlen; lia].
  - rewrite app_nil_r. destruct earlier as [|x l _] using rev_ind; [by intros ?%elem_of_nil|].
    apply Forall_app in Hs as [Hs Hx%Forall_inv]. rewrite update_last_snoc, close_spent by done.
    intros [->|]%Hin; [by apply spent_accounted|done..].
  - apply Forall_inv in Hset. rewrite update_last_snoc. intros [->|]%Hin; [by apply close_settled|done..].
Qed.

Lemma respond_accounted client request w a :
  let o := respond value_text client request w in a ∈ CallOutcome.attempts o → accounted o a.
Proof.
  intros o. destruct (respond_cases client request w o eq_refl) as (s & ended & Hc & Hnone & Hr & He).
  assert (Hbad : (∀ u, ended ≠ Answered (Ok u)) → a ∈ CallOutcome.attempts o → accounted o a).
  { intros Hne. assert (Hc' : call_ended (InferenceLimits.max_attempts (limits client)) s CutShort).
    { destruct Hc as [H1 H2 H3]. split; [done..|]. by destruct ended as [[u|]|]; [destruct (Hne u)| |]. }
    destruct ended as [[u|]|]; [by destruct (Hne u)|destruct He as (f & _ & ->); by eapply closed_accounted..]. }
  destruct ended as [[u|e]|]; [|by apply Hbad..]. destruct Hc as [_ _ ((l & x & Hl & Hs & Hst & Hd & Hu) & _ & r & Hterm)].
  destruct He as [Hf ->]. rewrite Hl. intros [Ha|Ha%list_elem_of_singleton]%elem_of_app.
  - apply spent_accounted. rewrite Forall_forall in Hs. by apply Hs.
  - subst a. split; [congruence|]. intros _. rewrite Hu. intros Hrec%negb_false_iff. right. split_and!; [done..|].
    unfold usage_recorded in Hrec. rewrite Hterm in Hrec.
    destruct (CallOutcome.response o) as [r'|]; [|by rewrite (proj1 Hnone eq_refl) in Hterm].
    destruct (Hr r' eq_refl) as (r0 & Hr0 & ->). eexists. split; [done|]. rewrite Hr0 in Hterm. injection Hterm as ->. done.
Qed.

(** C32: What a call spent is never guessed. No attempt is left pending, and one that was sent
    is taken for settled only where it was refused with a status that is not billed, or
    where the response it brought records its usage. A number of tokens is accounted for
    only from the usage of the response of a call without failure, or as none at all,
    where there is no response and every attempt that was sent was refused unbilled. *)
Theorem spend_never_guessed client request w :
  let o := respond value_text client request w in
  (∀ a, a ∈ CallOutcome.attempts o → accounted o a) ∧
  ∀ n, accounted_tokens o = Some n →
    (∃ r, CallOutcome.failure o = None ∧ CallOutcome.response o = Some r ∧
       ModelUsage.total_tokens (ProviderResponse.usage r) = Some n) ∨
    (n = 0%N ∧ CallOutcome.response o = None ∧
     ∀ a, a ∈ CallOutcome.attempts o → dispatched a = true →
       status a = AttemptStatus.Rejected ∧ unbilled_status (http_status a) = true).
Proof.
  intros o. split; [apply respond_accounted|]. intros n. unfold accounted_tokens.
  destruct (retryable_pre_generation_rejection o) eqn:Hre.
  { intros [= <-]. right. apply retryable_spec in Hre as [Hr Ha]. split_and!; [done..|]. intros a Hin _. by apply Ha. }
  destruct (Responses.billing_uncertain o) eqn:Hb; [done|].
  destruct (respond_cases client request w o eq_refl) as (s & ended & Hc & Hnone & Hr & He).
  destruct (CallOutcome.response o) as [r|] eqn:Ho; cbn [mbind option_bind].
  - destruct (Hr r eq_refl) as (r0 & Hr0 & _).
    destruct (Hc) as [_ _ Hend].
    assert (Hpend : open_last s → ended ≠ Answered (Ok tt) → False).
    { intros (l & a & Hl & Hst & Hd) Hne. assert (∃ kind e, CallOutcome.attempts o = update_last (close_attempt kind e) (CallState.attempts s))
        as (kind & e & Ha) by (destruct ended as [[[]|]|]; [done|destruct He as (f & _ & ?); eauto..]).
      rewrite Hl, update_last_snoc in Ha. apply (certain_spec o (close_attempt kind e a)) in Hb; [|rewrite Ha; set_solver].
      unfold close_attempt in Hb. rewrite bool_decide_true in Hb by done. cbn in Hb. congruence. }
    destruct ended as [[[]|e]|]; [|destruct Hend as [_ [Hno|[Hop _]]]; [by rewrite Hno in Hr0|by destruct (Hpend Hop)]..].
    destruct He as [Hf Ha]. destruct (ModelUsage.total_tokens _) as [m|] eqn:Et; [intros [= <-]; left; eauto|].
    destruct (none_dispatched o) eqn:Hnd; [|done]. destruct Hend as ((l & a & Hl & _ & _ & Hd & _) & _).
    rewrite (none_dispatched_spec o a) in Hd; [done..|]. rewrite Ha, Hl. set_solver.
  - destruct (none_dispatched o) eqn:Hnd; [|done]. intros [= <-]. right. split_and!; [done..|]. intros a Hin Hd.
    by rewrite (none_dispatched_spec o a) in Hd.
Qed.
End guarantees.
