(* ===== verification/InferenceWitnesses.v ===== *)
(** * One call to a model

    A concrete stream at which the theorems of [Decoder], [EventStream], [Requests] and
    [Responses] apply: a response with a text and a call, sent in chunks that cut its
    frames, after a refusal for its rate. The codec of JSON is a table of the values of
    the run. *)

From S2P Require Import Prelude Digest Codec Contract Codecs Cost Input JsonValue Conversation Admission Session.
From S2P Require Import SessionWitnesses Secrets Media Decoder EventStream Requests Responses.

#[local] Existing Instance checksum_sha256.

(** ** The values *)

Definition event_of (kind : string) (fields : list (string * Value)) : Value :=
  VObject (("type", VString kind) :: fields).
Definition wire_message : Value :=
  VObject [("type", VString "message"); ("role", VString "assistant"); ("id", VString "m1");
           ("content", VArray [VObject [("type", VString "output_text"); ("text", VString "Hi")]])].
Definition wire_call : Value :=
  VObject [("type", VString "function_call"); ("id", VString "c1"); ("call_id", VString "call1"); ("name", VString "read");
           ("arguments", VString "args")].
Definition wire_usage : Value :=
  VObject [("input_tokens", VNumber "10"); ("output_tokens", VNumber "5"); ("total_tokens", VNumber "15")].
Definition created_event : Value := event_of "response.created" [("response", VObject [("id", VString "r1")])].
Definition text_event : Value := event_of "response.output_text.delta" [("delta", VString "Hi"); ("item_id", VString "m1")].
Definition item_event (index : string) (item : Value) : Value :=
  event_of "response.output_item.done" [("output_index", VNumber index); ("item", item)].
Definition completed_event : Value :=
  event_of "response.completed"
    [("response", VObject [("id", VString "r1"); ("status", VString "completed");
                           ("output", VArray [wire_message; wire_call]); ("usage", wire_usage)])].

Definition wire_values : list (string * Value) := [
  ("created", created_event); ("text", text_event); ("message", item_event "0" wire_message);
  ("call", item_event "1" wire_call); ("completed", completed_event); ("args", VObject [])].
#[local] Instance wire_serde : Serde Value :=
  {| to_vec := table_to_vec wire_values; from_slice := table_from_slice wire_values |}.
Definition wire_text (v : Value) : string := default "" (to_vec v).

#[local] Instance wire_requests : RequestSerde := {|
  serde_tools := codec_serde; serde_lineage := codec_serde; serde_format := codec_serde;
|}.

(** ** The decoder *)

Definition wire_events : list string := ["created"; "text"; "message"; "call"; "completed"].
Definition fresh_decoding : Decoding := (Decoder.default <| Decoder.dialect := ResponseDialect.OpenAi |>, []).
Definition wire_decoding : Decoding := Eval vm_compute in (events wire_text wire_events fresh_decoding).1.
Lemma wire_decoded : events wire_text wire_events fresh_decoding = (wire_decoding, Ok true).
Proof. by vm_compute. Qed.

Lemma decoded_response_sound_witness :
  Decoder.text wire_decoding.1 = "Hi" ∧
  ∃ r, Decoder.terminal wire_decoding.1 = Some r ∧ ProviderResponse.id r = "r1" ∧ length (ProviderResponse.output r) = 2 ∧
    ∃ i final, ProviderResponse.output r !! i = Some final ∧
      announced (OutputItem.ToolProposal (ToolProposal.mk "c1" "call1" "read" "args" ArgumentValidity.JsonObject)) final.
Proof.
  split; [by vm_compute|].
  destruct (decoded_response_sound wire_text ResponseDialect.OpenAi wire_events wire_decoding wire_decoded)
    as (r & Hr & _ & Hid & _ & _ & _ & _ & Hitems).
  exists r. split_and!; [done| | |].
  - assert (Decoder.response_id wire_decoding.1 = Some "r1") as E by by vm_compute. rewrite E in Hid. by injection Hid as <-.
  - assert (Decoder.terminal wire_decoding.1 = Some r) as E by done. vm_compute in E. by injection E as <-.
  - apply Hitems. apply (bool_decide_unpack _). by vm_compute.
Defined.

(** The order in which items are done does not matter; an index that is done twice is refused. *)
Example item_indexes :
  (events wire_text ["created"; "call"; "message"; "completed"] fresh_decoding).2 = Ok true ∧
  (events wire_text ["created"; "message"; "message"] fresh_decoding).2 = Err FailureKind.MalformedResponse.
Proof. by vm_compute. Qed.

(** ** The stream *)

Definition wire_frames : list Frame := [
  mk_frame true ["event: response.created"; "data: created"];
  mk_frame false [": keep alive"];
  mk_frame false ["data: text"]; mk_frame true ["data: message"]; mk_frame false ["data: call"]; mk_frame false ["data: completed"]].
(** The bytes, cut in threes. *)
Fixpoint cut_bytes (fuel : nat) (s : string) : list string :=
  match fuel with
  | O => [s]
  | S fuel => if str_is_empty s then [] else String.substring 0 3 s :: cut_bytes fuel (str_drop 3 s)
  end.
Definition wire_chunks : list string := Eval vm_compute in cut_bytes 100 (render_all wire_frames).

Lemma wire_frames_proper : Forall (proper_frame 64) wire_frames.
Proof.
  repeat (apply Forall_cons; split; [|]); [..|by apply Forall_nil];
    (split_and!; [repeat constructor; (discriminate || (apply bool_decide_unpack; by vm_compute) || by vm_compute)|by vm_compute|by vm_compute]).
Qed.

Lemma stream_decodes_witness :
  length wire_chunks = 38 ∧
  let '(r, answer) := read_chunks wire_text 64 1000 (Bytes <$> wire_chunks) 0 (Sse.default, fresh_decoding) in
  r.2 = wire_decoding ∧ answer = Ok true.
Proof.
  split; [by vm_compute|].
  pose proof (stream_decodes wire_text 64 1000 wire_frames wire_chunks fresh_decoding wire_frames_proper
    ltac:(by vm_compute) ltac:(split; by vm_compute)) as H.
  destruct (read_chunks wire_text 64 1000 (Bytes <$> wire_chunks) 0 (Sse.default, fresh_decoding)) as [r answer].
  change (omap frame_data wire_frames) with wire_events in H. rewrite wire_decoded in H. by injection H as -> ->.
Defined.

(** ** The request *)

Definition wire_settings : ModelSettings.t := ModelSettings.mk Sol Low Standard true.
Definition wire_input : Value := VObject [("role", VString "user"); ("content", VString "Q")].
Definition wire_tool : Value :=
  VObject [("type", VString "function"); ("name", VString "read"); ("parameters", VObject [("type", VString "object")])].
Definition built_request : result InferenceRequest.t FailureKind.t :=
  let? r := new wire_settings [wire_input] [wire_tool] "Be brief." "s" 1000 in
  let? r := with_prompt_cache_key r "key" in
  with_json_schema r "answer" (VObject [("type", VString "object")]).
Definition wire_request : InferenceRequest.t :=
  Eval vm_compute in match built_request with Ok r => r | Err _ => InferenceRequest.mk wire_settings (PromptInput.all_live []) [] "" "" ""
    (PromptCacheIdentity.mk 0 (digest_of "") (digest_of "") (digest_of "") [] (digest_of "")) 0 None end.

Lemma wire_request_built : built wire_request.
Proof.
  assert (built_request = Ok wire_request) as E by by vm_compute. unfold built_request in E.
  apply rbind_Ok in E as (r & Hr & (r' & Hk & Hs)%rbind_Ok). eapply built_schema; [|exact Hs].
  eapply built_key; [|exact Hk]. eapply (built_new _ _ _ _ _ 1000); [by vm_compute|exact Hr].
Qed.

Lemma recorded_request_rebuilds_witness :
  ModelUsage.get (wire wire_request Transport.Http) "service_tier" = Some (VString "priority") ∧
  ∃ r', from_recorded_template wire_settings (wire wire_request Transport.Http) (InferenceRequest.cache_identity wire_request) = Ok r' ∧
    InferenceRequest.output_format r' = InferenceRequest.output_format wire_request.
Proof.
  split; [by vm_compute|].
  destruct (recorded_request_rebuilds wire_request wire_request_built) as (r' & Hr & Hw & _).
  exists r'. split; [exact Hr|]. vm_compute in Hr. injection Hr as <-. by vm_compute.
Defined.

(** A template whose identity does not belong to it is refused. *)
Example foreign_identity_refused :
  from_recorded_template (ModelSettings.mk Sol High Standard true) (wire wire_request Transport.Http)
    (InferenceRequest.cache_identity wire_request) = Err FailureKind.InvalidRequest.
Proof. by vm_compute. Qed.

(** ** The call *)

Definition wire_client : ResponsesClient :=
  mk_client (ModelRoute.mk Transport.Http AuthMode.ApiKey) InferenceLimits.default (λ _, None).
Definition answered (answer : HttpAnswer) : Attempt :=
  mk_attempt (Answered None) (Answered answer) CutShort false 7 (Answered None) (Answered tt).
Definition refused (status : N) : Attempt := answered (Responded status None NoContentType [] false).
Definition streamed (chunks : list string) (cut : bool) : Attempt :=
  answered (Responded 200 None (TextContentType "text/event-stream; charset=utf-8") (Bytes <$> chunks) cut).
Definition call_in (attempts : list Attempt) : CallOutcome.t :=
  respond wire_text wire_client wire_request
    (mk_world (λ n, default (refused 500) (attempts !! N.to_nat (n - 1))) false 9).

(** A refusal for the rate is tried again, and the usage of the response is what counts. *)
Example call_answered :
  let o := call_in [refused 429; streamed wire_chunks false] in
  CallOutcome.failure o = None ∧ CallOutcome.partial_text o = "Hi" ∧
  AttemptRecord.status <$> CallOutcome.attempts o = [AttemptStatus.Rejected; AttemptStatus.ResponseReceived] ∧
  accounted_tokens o = Some 15%N.
Proof. by vm_compute. Qed.
(** A stream that breaks off is not tried again, and what it cost is unknown. *)
Example call_interrupted :
  let o := call_in [streamed (take 20 wire_chunks) false; streamed wire_chunks false] in
  Failure.kind <$> CallOutcome.failure o = Some FailureKind.Interrupted ∧ CallOutcome.response o = None ∧
  length (CallOutcome.attempts o) = 1 ∧ accounted_tokens o = None ∧ accounted_cost o = None.
Proof. by vm_compute. Qed.
(** Credentials that stay refused cost nothing; a server error may have. *)
Example call_refused :
  let o := call_in [refused 401; refused 401] in
  let o' := call_in [refused 503] in
  accounted_tokens o = Some 0%N ∧ length (CallOutcome.attempts o) = 2 ∧
  accounted_tokens o' = None ∧ length (CallOutcome.attempts o') = 1.
Proof. by vm_compute. Qed.
