(* ===== verification/JournalPage.v ===== *)
(** * Pages of the journal (crates/harness/src/store.rs)

    The events of tasks and sessions share one sequence. [journal_page] reads it in
    order from a cursor, verifies each row against its predecessor, and stops at a
    number of records or at a number of bytes. *)

From stdpp Require Import sorting.
From S2P Require Import Prelude Digest Contract State Artifacts Workspace Input ArtifactGraph Journal.
From S2P Require Import Cost Conversation Admission Session Context SessionStore.

Definition MAX_JOURNAL_PAGE_BYTES : N := 4 * 1024 * 1024.

Module JournalRecord.
Record t : Type := mk {
  sequence : N;
  aggregate : Uuid;
  kind : string;
  revision : N;
  event : Value;
}.
End JournalRecord.

(** A row of [events], of either kind. *)
Module JournalRow.
Record t : Type := mk {
  sequence : N;
  aggregate : Uuid;
  kind : string;
  revision : Z;
  event : string;
  hash : string;
}.
End JournalRow.

Definition rows_of (kind : string) (table : gmap Uuid (gmap Z EventRow.t)) : list JournalRow.t :=
  '(id, events) ← map_to_list table;
  '(revision, row) ← map_to_list events;
  [JournalRow.mk (EventRow.sequence row) id kind revision (EventRow.event row) (EventRow.hash row)].
Definition sequence_le (a b : JournalRow.t) : Prop := (JournalRow.sequence a ≤ JournalRow.sequence b)%N.
#[global] Instance sequence_le_dec a b : Decision (sequence_le a b).
Proof. unfold sequence_le. apply _. Defined.

(** [ORDER BY sequence] *)
Definition journal_rows (db : SessionDb) : list JournalRow.t :=
  merge_sort sequence_le (rows_of "task" (events (tables db)) ++ rows_of "session" (session_events db)).
(** [WHERE sequence>?1] *)
Definition rows_after (db : SessionDb) (after : N) : list JournalRow.t :=
  base.filter (λ row, (after < JournalRow.sequence row)%N) (journal_rows db).

Section page.
Context {SHA : Sha256} {SER : StoreSerde} `{!Serde Value, !Serde JournalRecord.t}.
Implicit Types (db : SessionDb).

(** [SELECT hash FROM events WHERE aggregate=?1 AND kind=?2 AND revision=?3] *)
Definition hash_at db (row : JournalRow.t) (revision : Z) : option string :=
  EventRow.hash <$>
    (if str_eqb (JournalRow.kind row) "task" then task_events (tables db) (JournalRow.aggregate row)
     else events_of db (JournalRow.aggregate row)) !! revision.

(** A row that agrees with its hash, decoded. *)
Definition journal_record db (row : JournalRow.t) : result JournalRecord.t StoreError.t :=
  let? revision := ok_or (u64_try_from (JournalRow.revision row)) (StoreError.Integrity "invalid journal revision") in
  let previous := if (1 <? revision)%N then hash_at db row (Z.of_N revision - 1) else None in
  let? _ := reject_if ((1 <? revision)%N && bool_decide (previous = None)) (StoreError.Integrity "journal predecessor missing") in
  let? previous := match previous with
                   | Some text => let? d := map_err (λ _, StoreError.Integrity "invalid predecessor hash") (digest_from_str text) in Ok (Some d)
                   | None => Ok None
                   end in
  let? hash := aggregate_hash (JournalRow.kind row) (JournalRow.aggregate row) revision previous (JournalRow.event row) in
  let? _ := reject_if (negb (str_eqb (digest_to_string hash) (JournalRow.hash row))) (StoreError.Integrity "journal event integrity") in
  let? event := ok_or (from_slice (JournalRow.event row)) StoreError.Json in
  Ok (JournalRecord.mk (JournalRow.sequence row) (JournalRow.aggregate row) (JournalRow.kind row) revision event).

(** The loop over the rows; [encoded_bytes] are those of [records]. *)
Fixpoint page_records db (rows : list JournalRow.t) (encoded_bytes : N) (records : list JournalRecord.t) :
    result (list JournalRecord.t) StoreError.t :=
  match rows with
  | [] => Ok records
  | row :: rows =>
      let? record := journal_record db row in
      let? bytes := ok_or (to_vec record) StoreError.Json in
      let separator := if bool_decide (records = []) then 0%N else 1%N in
      let total := (encoded_bytes + separator + str_len bytes)%N in
      if (MAX_JOURNAL_PAGE_BYTES <? total)%N then Ok records
      else page_records db rows total (records ++ [record])
  end.

(** [Store::journal_page] *)
Definition journal_page db (after limit : N) : result (list JournalRecord.t) StoreError.t :=
  let? _ := reject_if ((limit =? 0)%N || (256 <? limit)%N) (StoreError.Invalid "journal page limit must be 1..256") in
  let? _ := ok_or (i64_try_from after) (StoreError.Invalid "cursor exceeds journal range") in
  page_records db (take (N.to_nat limit) (rows_after db after)) 0 [].

(** ** What a page holds *)

(** Rows and the records they decode to. *)
Definition decoded db : list JournalRow.t → list JournalRecord.t → Prop :=
  Forall2 (λ row record, journal_record db row = Ok record).

Lemma page_records_spec db rows encoded records out :
  page_records db rows encoded records = Ok out →
  ∃ n more, out = records ++ more ∧ decoded db (take n rows) more ∧ (n ≤ length rows)%nat.
Proof.
  revert encoded records. induction rows as [|row rows IH]; intros encoded records; cbn [page_records].
  - intros [= <-]. exists 0%nat, []. rewrite app_nil_r. split_and!; [done|constructor|cbn; lia].
  - intros (record & Hr & (bytes & _ & H)%rbind_Ok)%rbind_Ok. destruct (_ <? _)%N.
    + injection H as <-. exists 0%nat, []. rewrite app_nil_r. split_and!; [done|constructor|cbn; lia].
    + apply IH in H as (n & more & -> & Hd & Hn). exists (S n), (record :: more). rewrite <-app_assoc.
      split_and!; [done|by constructor|cbn; lia].
Qed.

Lemma page_records_first db row rows out :
  page_records db (row :: rows) 0 [] = Ok out →
  (∀ record bytes, journal_record db row = Ok record → to_vec record = Some bytes → (str_len bytes ≤ MAX_JOURNAL_PAGE_BYTES)%N) →
  out ≠ [].
Proof.
  cbn [page_records]. intros (record & Hr & (bytes & Hb%ok_or_Ok & H)%rbind_Ok)%rbind_Ok Hfit.
  rewrite bool_decide_true in H by done. rewrite (proj2 (N.ltb_ge _ _)) in H by (specialize (Hfit _ _ Hr Hb); lia).
  apply page_records_spec in H as (n & more & -> & _). done.
Qed.

Lemma journal_rows_elem db row : row ∈ journal_rows db ↔
  row ∈ rows_of "task" (events (tables db)) ∨ row ∈ rows_of "session" (session_events db).
Proof. unfold journal_rows. by rewrite merge_sort_Permutation, elem_of_app. Qed.

(** The sequence numbers are the key of the table. *)
Definition sequences_unique db : Prop := NoDup (JournalRow.sequence <$> journal_rows db).

Lemma sequence_le_total a b : sequence_le a b ∨ sequence_le b a.
Proof. unfold sequence_le. lia. Qed.
#[local] Instance sequence_le_Total : Total sequence_le := sequence_le_total.
#[local] Instance sequence_le_Transitive : Transitive sequence_le.
Proof. unfold sequence_le. intros a b c. lia. Qed.

Definition sequence_lt (a b : JournalRow.t) : Prop := (JournalRow.sequence a < JournalRow.sequence b)%N.
#[local] Instance sequence_lt_Transitive : Transitive sequence_lt.
Proof. unfold sequence_lt. intros a b c. lia. Qed.

Lemma journal_rows_sorted db : sequences_unique db → StronglySorted sequence_lt (journal_rows db).
Proof.
  unfold sequences_unique. assert (Hs : StronglySorted sequence_le (journal_rows db)) by apply (StronglySorted_merge_sort _).
  induction Hs as [|row rows _ IH Hle]; [constructor|]. cbn. intros [Hn Hnd]%NoDup_cons. constructor; [by apply IH|].
  rewrite Forall_forall in *. intros r Hr. specialize (Hle r Hr). unfold sequence_le, sequence_lt in *.
  assert (JournalRow.sequence row ≠ JournalRow.sequence r); [|lia]. intros E. apply Hn. rewrite E. by apply list_elem_of_fmap_2.
Qed.

Lemma filter_every (P : JournalRow.t → Prop) `{∀ x, Decision (P x)} l : Forall P l → base.filter P l = l.
Proof. induction 1 as [|x l Hx _ IH]; [done|]. by rewrite filter_cons_True, IH. Qed.

(** Past a row of a sorted list are the rows that follow it. *)
Lemma sorted_after l n row :
  StronglySorted sequence_lt l → l !! n = Some row →
  base.filter (λ r, (JournalRow.sequence row < JournalRow.sequence r)%N) l = drop (S n) l.
Proof.
  intros Hs. revert n. induction Hs as [|x l Hs IH Hx]; intros n; [done|]. destruct n as [|n]; cbn [lookup list_lookup].
  - intros [= <-]. rewrite filter_cons_False by lia. cbn [drop]. rewrite drop_0. by apply filter_every.
  - intros Hl. rewrite filter_cons_False; [by apply IH|]. rewrite Forall_forall in Hx.
    pose proof (Hx row (list_elem_of_lookup_2 _ _ _ Hl)) as Hlt. unfold sequence_lt in Hlt. lia.
Qed.

Lemma decoded_length db rows records : decoded db rows records → length records = length rows.
Proof. intros H%Forall2_length. by symmetry. Qed.
Lemma decoded_sequence db row record :
  journal_record db row = Ok record → JournalRecord.sequence record = JournalRow.sequence row.
Proof.
  unfold journal_record. intros (r & _ & ([] & _ & (p & _ & (h & _ & ([] & _ & (e & _ & [= <-])%rbind_Ok)%rbind_Ok)%rbind_Ok)%rbind_Ok)%rbind_Ok)%rbind_Ok.
  done.
Qed.

(** The cursor after a page. *)
Definition next_cursor (after : N) (records : list JournalRecord.t) : N :=
  default after (JournalRecord.sequence <$> last records).

Lemma rows_after_next db after n row :
  sequences_unique db → rows_after db after !! n = Some row →
  rows_after db (JournalRow.sequence row) = drop (S n) (rows_after db after).
Proof.
  intros Hu%journal_rows_sorted Hl. unfold rows_after in *.
  assert (Hs : StronglySorted sequence_lt (base.filter (λ r, (after < JournalRow.sequence r)%N) (journal_rows db))).
  { clear Hl. induction Hu as [|x l Hs IH Hx]; [constructor|]. destruct (decide (after < JournalRow.sequence x)%N).
    - rewrite filter_cons_True by done. constructor; [done|]. apply Forall_forall. intros y [_ Hy]%list_elem_of_filter.
      rewrite Forall_forall in Hx. by apply Hx.
    - by rewrite filter_cons_False. }
  rewrite <-(sorted_after _ _ _ Hs Hl). rewrite list_filter_filter. apply list_filter_iff. intros r.
  apply list_elem_of_lookup_2, list_elem_of_filter in Hl as [Hlt _]. lia.
Qed.

(** A page is what follows its cursor, verified and in order, and the next page goes on
    where it ended: nothing is left out and nothing comes twice. A page is empty only
    at the end, unless one record alone would exceed the bound of a page. *)
Theorem journal_page_continues db after limit records :
  sequences_unique db → journal_page db after limit = Ok records →
  ∃ n, (N.of_nat n ≤ limit)%N ∧ decoded db (take n (rows_after db after)) records ∧
    rows_after db (next_cursor after records) = drop n (rows_after db after) ∧
    ((∀ row record bytes, journal_record db row = Ok record → to_vec record = Some bytes →
        (str_len bytes ≤ MAX_JOURNAL_PAGE_BYTES)%N) → records = [] → rows_after db after = []).
Proof.
  intros Hu. unfold journal_page. intros ([] & [Hz _]%reject_if_Ok%orb_false_iff & (z & _ & H)%rbind_Ok)%rbind_Ok.
  apply N.eqb_neq in Hz. pose proof H as Hp. apply page_records_spec in H as (n & more & -> & Hd & Hn). cbn [app] in *.
  rewrite take_take in Hd. rewrite length_take in Hn. exists (n `min` N.to_nat limit)%nat. split_and!; [lia|done| |].
  - set (m := (n `min` N.to_nat limit)%nat) in *. unfold next_cursor. destruct more as [|record more _] using rev_ind.
    + apply decoded_length in Hd. rewrite length_take in Hd. cbn in *. replace m with 0%nat by lia. done.
    + rewrite last_snoc. cbn. apply Forall2_app_inv_r in Hd as (l1 & l2 & Hl1 & Hl2 & E).
      apply Forall2_cons_inv_r in Hl2 as (row & l2' & Hrow & ->%Forall2_nil_inv_r & ->).
      rewrite (decoded_sequence _ _ _ Hrow). pose proof (f_equal length E) as El. rewrite length_take, length_app in El. cbn in El.
      assert (m = S (length l1)) as Em by lia. rewrite Em in *. apply rows_after_next; [done|].
      rewrite <-(lookup_take_lt _ (S (length l1))) by lia. by rewrite E, list_lookup_middle.
  - intros Hfit ->. destruct (rows_after db after) as [|row rows] eqn:E; [done|].
    destruct (N.to_nat limit) as [|k] eqn:Ek; [lia|]. cbn [take] in Hp. by apply page_records_first in Hp; [|intros ? ?; apply Hfit].
Qed.
End page.
