(* ===== verification/Capabilities.v ===== *)
(** * Tools (crates/harness/src/capabilities.rs)

    What a model may ask of a workspace or of the host: the arguments of the tools, the
    contexts the host supplies, the form of results and the byte budgets they keep to.
    The deserialization of arguments is derived by serde and is the class [FromValue]. *)

From S2P Require Import Prelude Digest Contract Cost Input Codec JsonValue Secrets Conversation Admission Session Context.
From S2P Require Import Submissions Media Decoder Requests.

Definition MAX_REQUEST_BYTES : N := 2 * 1024 * 1024.
Definition MAX_FILE_BYTES : N := 1024 * 1024.
Definition MAX_OUTPUT_BYTES : N := 16 * 1024 * 1024.
Definition OUTPUT_METADATA_BYTES : N := 1024.

(** [serde_json::from_value] *)
Class FromValue (A : Type) := from_value : Value → option A.

Module ReadArgs.
Record t : Type := mk { path : string; offset : N; max_bytes : N }.
End ReadArgs.
Definition default_read_bytes : N := 64 * 1024.

Module SearchArgs.
Record t : Type := mk { query : string; path : string; max_results : N; max_files : N; max_bytes : N }.
End SearchArgs.

Module Expected.
Inductive t : Type := Absent | Digest (digest : Digest).
End Expected.

Module WriteArgs.
Inductive t : Type :=
| Replace (path : string) (expected : Expected.t) (content : string)
| Delete (path : string) (expected : Expected.t).
End WriteArgs.

(** [usize] and [u64] values in JSON. *)
Definition json_number (n : N) : Value := VNumber (u128_to_string n).
Definition json_digest (d : Digest) : Value := VString (digest_to_string d).
Definition json_option {A} (f : A → Value) (o : option A) : Value := match o with Some a => f a | None => VNull end.

(** [usize::saturating_sub] *)
Definition saturating_sub (a b : N) : N := (a - b)%N.

Section encoding.
Context {B64 : Base64}.

(** [encoded]: text where the bytes are UTF-8, else base64. *)
Definition encoded (bytes : string) : Value :=
  match from_utf8 bytes with
  | Some text => json_object [("encoding", VString "utf8"); ("data", VString text); ("bytes", json_number (str_len bytes))]
  | None => json_object [("encoding", VString "base64"); ("data", VString (b64_encode bytes)); ("bytes", json_number (str_len bytes))]
  end.

(** [decoded_content] (monitor/evaluation.rs) *)
Definition decoded_content (value : Value) : option string :=
  let content := index (index value "result") "content" in
  match ModelUsage.get content "encoding" with
  | Some (VString encoding) =>
      if str_eqb encoding "utf8" then match index content "data" with VString data => Some data | _ => None end
      else if str_eqb encoding "base64" then match index content "data" with VString data => b64_decode data | _ => None end
      else None
  | _ => None
  end.
End encoding.
