(* ===== verification/HostTools.v ===== *)
(** * Native tools of the host (crates/harness/src/capabilities/host.rs)

    Reading a file of the host: the arguments, the page and its envelope. What opening the
    file gives, and whether the call is cancelled or late, is an argument. *)

From S2P Require Import Prelude Digest Contract Cost Input Codec JsonValue Secrets Conversation Admission Session Context.
From S2P Require Import Submissions Media Decoder Requests Capabilities.

Module HostToolError.
Inductive t : Type :=
| UnknownTool
| InvalidArguments
| Conflict
| Cancelled
| TimedOut
| OutputBudget
| OutcomeUnknown
| UnsupportedPlatform
| Io.
#[global] Instance eq_dec : EqDecision t.
Proof. solve_decision. Defined.
Definition requires_reconciliation (e : t) : bool := bool_decide (e = OutcomeUnknown).
End HostToolError.

Module HostToolContext.
Record t : Type := mk {
  cwd : string;
  task_id : string;
  generation : N;
  job_id : string;
  timeout_ms : option N;
  max_output_bytes : N;
}.
End HostToolContext.

#[local] Notation E := HostToolError.t.

Section host.
Context {SHA : Sha256} {B64 : Base64} `{!Serde Value, !FromValue ReadArgs.t}.

(** What the operating system answers: the canonical directory, the home directory, the
    bytes of a file with [read_bounded]'s bound applied, and the two checks of a call. *)
Record HostWorld : Type := mk_host_world {
  canonicalize : string → result string E;
  home : option string;
  join : string → string → string;
  file_bytes : string → result string E;
  first_check : result unit E;
  second_check : result unit E;
}.

Definition resolve (w : HostWorld) (cwd value : string) : result string E :=
  if contains_nul value then Err HostToolError.InvalidArguments
  else if str_eqb value "~" || starts_with value "~/" then
    let? home := ok_or (home w) HostToolError.InvalidArguments in
    Ok (join w home (default "" (strip_prefix "~/" value)))
  else Ok (join w cwd value).

Definition MAX_READ_BYTES : N := 16 * 1024 * 1024.
(** [read_bounded]: the bytes of the file, unless there are more than [max]. *)
Definition read_bounded (w : HostWorld) (path : string) (max : N) : result string E :=
  let? bytes := file_bytes w path in
  let? _ := reject_if (max <? str_len bytes)%N HostToolError.OutputBudget in
  Ok bytes.

(** [context.max_output_bytes.saturating_sub(2048) / 6] *)
Definition page_budget (max_output_bytes : N) : N := (saturating_sub max_output_bytes 2048 / 6)%N.

(** The page of [bytes] that is asked for and fits. *)
Definition page_start (bytes : string) (offset : N) : N := N.min offset (str_len bytes).
Definition page_end (bytes : string) (offset max_bytes budget : N) : N :=
  N.min (u64_saturating_add (page_start bytes offset) (N.min max_bytes budget)) (str_len bytes).
Definition page (bytes : string) (first last : N) : string :=
  String.substring (N.to_nat first) (N.to_nat (last - first)) bytes.

Definition read_reply (path bytes : string) (args : ReadArgs.t) (budget : N) : Value :=
  let first := page_start bytes (ReadArgs.offset args) in
  let last := page_end bytes (ReadArgs.offset args) (ReadArgs.max_bytes args) budget in
  json_object [("path", VString path); ("digest", json_digest (digest_of bytes)); ("size_bytes", json_number (str_len bytes));
               ("offset", json_number first); ("content", encoded (page bytes first last));
               ("truncated", VBool (last <? str_len bytes)%N)].

(** The branch of [file_tool] for [read_file]. *)
Definition read_file (w : HostWorld) (arguments : Value) (cwd : string) (max_output_bytes : N) : result Value E :=
  let? _ := first_check w in
  let? args := ok_or (from_value arguments : option ReadArgs.t) HostToolError.InvalidArguments in
  let? _ := reject_if (str_is_empty (ReadArgs.path args) || (ReadArgs.max_bytes args =? 0)%N
                       || (1024 * 1024 <? ReadArgs.max_bytes args)%N) HostToolError.InvalidArguments in
  let? path := resolve w cwd (ReadArgs.path args) in
  let? bytes := read_bounded w path MAX_READ_BYTES in
  let? _ := second_check w in
  Ok (read_reply path bytes args (page_budget max_output_bytes)).

(** The guard of [execute_recorded]. *)
Definition context_valid (context : HostToolContext.t) (arguments : Value) : result unit E :=
  let? bytes := ok_or (to_vec arguments) HostToolError.InvalidArguments in
  reject_if (negb (path_is_absolute (HostToolContext.cwd context))
             || bool_decide (HostToolContext.timeout_ms context = Some 0%N)
             || (HostToolContext.max_output_bytes context <? 4096)%N
             || (16 * 1024 * 1024 <? HostToolContext.max_output_bytes context)%N
             || (2 * 1024 * 1024 <? str_len bytes)%N) HostToolError.InvalidArguments.

Definition host_envelope (context : HostToolContext.t) (result : Value) : Value :=
  json_object [("task_id", VString (HostToolContext.task_id context)); ("generation", json_number (HostToolContext.generation context));
               ("job_id", VString (HostToolContext.job_id context)); ("backend", VString "native_host");
               ("cwd", VString (HostToolContext.cwd context)); ("result", result)].

(** [HostTools::execute_recorded] of [read_file] *)
Definition execute_read (w : HostWorld) (arguments : Value) (context : HostToolContext.t) : result Value E :=
  let? _ := context_valid context arguments in
  let? cwd := canonicalize w (HostToolContext.cwd context) in
  let? reply := read_file w arguments cwd (HostToolContext.max_output_bytes context) in
  let value := host_envelope context reply in
  let? bytes := ok_or (to_vec value) HostToolError.OutputBudget in
  let? _ := reject_if (HostToolContext.max_output_bytes context <? str_len bytes)%N HostToolError.OutputBudget in
  Ok value.
End host.
