(* ===== verification/Monitor.v ===== *)
(** * Monitoring of behavior (crates/harness/src/monitor.rs, store/monitor.rs)

    The monitor counts what happens to tasks per cohort of sessions, keeps the releases
    of the read behavior with their activations, and episodes: regressions of a release
    that were diagnosed and are to be evaluated. Its tables lie beside the journals. *)

From S2P Require Import Prelude Digest Contract State Artifacts Workspace Input ArtifactGraph Journal.
From S2P Require Import Cost Conversation Admission Session Context SessionStore JournalPage.

Module Cohort.
Record t : Type := mk {
  target : TargetProfile.t;
  build : option Digest;
  behavior : Digest;
  release : option Digest;
}.
#[global] Instance eq_dec : EqDecision t.
Proof. solve_decision. Defined.
#[global] Instance eta_t : Eta t := λ c, mk (target c) (build c) (behavior c) (release c).
End Cohort.

Module MonitorOrigin.
Inductive t : Type := User | Repair | Evaluation.
#[global] Instance eq_dec : EqDecision t.
Proof. solve_decision. Defined.
End MonitorOrigin.

Module SignalClass.
Inductive t : Type := Operational | TaskQualitySignal | EvaluatorFailure.
#[global] Instance eq_dec : EqDecision t.
Proof. solve_decision. Defined.
End SignalClass.

Module Signature.
Inductive t : Type :=
| JobOutcome
| UnresolvedEffect
| UnresolvedJob
| ProviderError
| MissingUsage
| VerificationFailure
| UserCorrection
| ReadUnderfill
| EvaluatorFailure
| Cost.
#[global] Instance eq_dec : EqDecision t.
Proof. solve_decision. Defined.
(** [class] *)
Definition class (s : t) : SignalClass.t :=
  match s with
  | VerificationFailure | UserCorrection | ReadUnderfill => SignalClass.TaskQualitySignal
  | EvaluatorFailure => SignalClass.EvaluatorFailure
  | _ => SignalClass.Operational
  end.
End Signature.

Module Measure.
Record t : Type := mk {
  class : SignalClass.t;
  cohort : Cohort.t;
  signature : Signature.t;
  opportunities : N;
  failures : N;
  measured : N;
  recorded_usd : UsdCost;
}.
#[global] Instance eq_dec : EqDecision t.
Proof. solve_decision. Defined.
#[global] Instance eta_t : Eta t := λ m,
  mk (class m) (cohort m) (signature m) (opportunities m) (failures m) (measured m) (recorded_usd m).
Definition new (cohort : Cohort.t) (signature : Signature.t) (opportunities failures measured : N) : t :=
  mk (Signature.class signature) cohort signature opportunities failures measured UsdCost.ZERO.
End Measure.

Module Measurement.
Record t : Type := mk { identity : Digest; value : Measure.t }.
End Measurement.

Module Sampling.
Record t : Type := mk {
  considered : N;
  selected : N;
  skipped_sampling : N;
  skipped_origin : N;
  skipped_no_hypothesis : N;
  skipped_capacity : N;
}.
#[global] Instance eq_dec : EqDecision t.
Proof. solve_decision. Defined.
#[global] Instance eta_t : Eta t := λ s,
  mk (considered s) (selected s) (skipped_sampling s) (skipped_origin s) (skipped_no_hypothesis s) (skipped_capacity s).
(** [Default] *)
Definition default : t := mk 0 0 0 0 0 0.
End Sampling.

Module MonitorStatus.
Record t : Type := mk {
  cursor : N;
  sample_every : N;
  sampling : Sampling.t;
  last_error : option string;
  active : Digest;
  previous : option Digest;
}.
#[global] Instance eq_dec : EqDecision t.
Proof. solve_decision. Defined.
#[global] Instance eta_t : Eta t := λ s, mk (cursor s) (sample_every s) (sampling s) (last_error s) (active s) (previous s).
End MonitorStatus.

Module ReadCase.
Record t : Type := mk { bytes : string; offset : N; max_bytes : N }.
#[global] Instance eq_dec : EqDecision t.
Proof. solve_decision. Defined.
End ReadCase.

Module EpisodeState.
Inductive t : Type :=
| Diagnosed
| Evaluating
| Rejected (reason : string)
| Uncertain (reason : string)
| Promoted (release : Digest)
| Superseded.
#[global] Instance eq_dec : EqDecision t.
Proof. solve_decision. Defined.
(** [state.status IN ('diagnosed','evaluating')] *)
Definition pending (s : t) : bool := match s with Diagnosed | Evaluating => true | _ => false end.
End EpisodeState.

Module Episode.
Record t : Type := mk {
  id : Digest;
  origin : MonitorOrigin.t;
  sequence : N;
  cohort : Cohort.t;
  regressed : Digest;
  parent : Digest;
  hypothesis : string;
  source_diff : Digest;
  trace_receipt : Digest;
  regression : Digest;
  heldout : Digest;
  candidate : option Digest;
  result : option Digest;
  state : EpisodeState.t;
}.
#[global] Instance eq_dec : EqDecision t.
Proof. solve_decision. Defined.
#[global] Instance eta_t : Eta t := λ e,
  mk (id e) (origin e) (sequence e) (cohort e) (regressed e) (parent e) (hypothesis e) (source_diff e) (trace_receipt e)
    (regression e) (heldout e) (candidate e) (result e) (state e).
End Episode.

(** ** Tables

    Digests in text columns are the digests themselves; [activations] and [episodes] are
    in the order of their rows, and [episodes] holds one row per identifier. *)

Module Activation.
Record t : Type := mk { previous : option Digest; current : Digest; reason : string }.
End Activation.

Record MonitorDb : Type := mk_monitor {
  status_row : option string;
  releases : gmap Digest string;
  activations : list Activation.t;
  facts : gmap Digest string;
  measures : gmap Digest string;
  episodes : list (Digest * string);
  origins : gmap Uuid string;
}.
#[global] Instance eta_monitor : Eta MonitorDb := λ m,
  mk_monitor (status_row m) (releases m) (activations m) (facts m) (measures m) (episodes m) (origins m).
Definition empty_monitor : MonitorDb := mk_monitor None ∅ [] ∅ ∅ [] ∅.

Definition MeasureKey : Type := Cohort.t * Signature.t.
Definition FactKey : Type := Digest * Signature.t.

Class MonitorSerde := {
  #[global] serde_release :: Serde Release.t;
  #[global] serde_status :: Serde MonitorStatus.t;
  #[global] serde_measure :: Serde Measure.t;
  #[global] serde_episode :: Serde Episode.t;
  #[global] serde_origin :: Serde MonitorOrigin.t;
  #[global] serde_measure_key :: Serde MeasureKey;
  #[global] serde_fact_key :: Serde FactKey;
}.

(** ** Operations *)

Section store.
Context {SHA : Sha256} {MON : MonitorSerde}.
Implicit Types (m : MonitorDb).

(** [decode] *)
Definition decode {A} `{!Serde A} (bytes : string) : result A StoreError.t := ok_or (from_slice bytes) StoreError.Json.
Definition encode {A} `{!Serde A} (x : A) : result string StoreError.t := ok_or (to_vec x) StoreError.Json.
(** [query_row] of a row that must be there. *)
Definition must {A} (row : option A) : result A StoreError.t := ok_or row StoreError.Sql.

(** [initialize] *)
Definition initialize m : result MonitorDb StoreError.t :=
  let release := Release.baseline in
  let? id := ok_or (Release.id release) StoreError.Json in
  let? bytes := encode release in
  let m := if decide (is_Some (releases m !! id)) then m else m <| releases := <[id := bytes]> (releases m) |> in
  let status := MonitorStatus.mk 0 1 Sampling.default None id None in
  let? bytes := encode status in
  Ok (match status_row m with Some _ => m | None => m <| status_row := Some bytes |> end).

Definition monitor_status m : result MonitorStatus.t StoreError.t := let? row := must (status_row m) in decode row.
(** [UPDATE monitor_state SET record=?1 WHERE id=1] *)
Definition update_status m (bytes : string) : MonitorDb := m <| status_row := (λ _, bytes) <$> status_row m |>.
Definition monitor_save_status m (status : MonitorStatus.t) : result MonitorDb StoreError.t :=
  let? bytes := encode status in Ok (update_status m bytes).

Definition monitor_release m (id : Digest) : result Release.t StoreError.t :=
  let? row := must (releases m !! id) in
  let? release := decode row in
  let? _ := reject_if (negb (bool_decide (Release.id release = Some id))) (StoreError.Integrity "monitor release digest") in
  let? _ := map_err StoreError.Invalid (Release.validate release) in
  Ok release.

Definition monitor_origin m (session : Uuid) : result MonitorOrigin.t StoreError.t :=
  match origins m !! session with Some row => decode row | None => Ok MonitorOrigin.User end.
(** [INSERT INTO monitor_origins] *)
Definition monitor_set_origin m (session : Uuid) (origin : MonitorOrigin.t) : result MonitorDb StoreError.t :=
  let? bytes := encode origin in
  let? _ := reject_if (bool_decide (is_Some (origins m !! session))) StoreError.Sql in
  Ok (m <| origins := <[session := bytes]> (origins m) |>).

(** *** Episodes *)

Definition episode_pending (row : Digest * string) : bool :=
  match from_slice (A := Episode.t) row.2 with Some e => EpisodeState.pending (Episode.state e) | None => false end.
Definition monitor_pending m : result (option Episode.t) StoreError.t :=
  match List.find episode_pending (episodes m) with
  | Some (_, row) => let? e := decode row in Ok (Some e)
  | None => Ok None
  end.

Definition monitor_episodes m (offset limit : nat) : result (list Episode.t) StoreError.t :=
  for_each (λ l row, let? e := decode row.2 in Ok (l ++ [e])) [] (take limit (drop offset (episodes m))).

(** [UPDATE monitor_episodes SET record=?2 WHERE id=?1] *)
Definition update_episode m (id : Digest) (bytes : string) : MonitorDb :=
  m <| episodes := (λ row, if decide (row.1 = id) then (id, bytes) else row) <$> episodes m |>.
Definition monitor_save_episode m (e : Episode.t) : result MonitorDb StoreError.t :=
  let? bytes := encode e in Ok (update_episode m (Episode.id e) bytes).
Definition monitor_has_episode m (id : Digest) : bool := bool_decide (id ∈ (episodes m).*1).
(** [INSERT OR IGNORE INTO monitor_episodes] *)
Definition insert_episode m (e : Episode.t) : result MonitorDb StoreError.t :=
  let? bytes := encode e in
  Ok (if monitor_has_episode m (Episode.id e) then m else m <| episodes := episodes m ++ [(Episode.id e, bytes)] |>).

(** *** Pages of measurements *)

(** [x += y] on a [u64] (wrapping, as built for release). *)
Definition u64_add (x y : N) : N := ((x + y) mod 2 ^ 64)%N.
Definition u64_checked_sub (x y : N) : option N := if (y <=? x)%N then Some (x - y)%N else None.

(** An opportunity counted before is taken out. *)
Definition without (value prior : Measure.t) : result Measure.t StoreError.t :=
  let? opportunities := ok_or (u64_checked_sub (Measure.opportunities value) (Measure.opportunities prior))
                          (StoreError.Integrity "monitor denominator") in
  let? failures := ok_or (u64_checked_sub (Measure.failures value) (Measure.failures prior))
                     (StoreError.Integrity "monitor numerator") in
  let? measured := ok_or (u64_checked_sub (Measure.measured value) (Measure.measured prior))
                     (StoreError.Integrity "monitor measured count") in
  let? usd := ok_or (UsdCost.checked_sub (Measure.recorded_usd value) (Measure.recorded_usd prior))
                (StoreError.Integrity "monitor recorded cost") in
  Ok (value <| Measure.opportunities := opportunities |> <| Measure.failures := failures |>
            <| Measure.measured := measured |> <| Measure.recorded_usd := usd |>).

Definition with_delta (value delta : Measure.t) : result Measure.t StoreError.t :=
  let? usd := ok_or (UsdCost.checked_add (Measure.recorded_usd value) (Measure.recorded_usd delta))
                (StoreError.Integrity "monitor cost overflow") in
  Ok (value <| Measure.opportunities := u64_add (Measure.opportunities value) (Measure.opportunities delta) |>
            <| Measure.failures := u64_add (Measure.failures value) (Measure.failures delta) |>
            <| Measure.measured := u64_add (Measure.measured value) (Measure.measured delta) |>
            <| Measure.recorded_usd := usd |>).

Definition measure_key (delta : Measure.t) : result Digest StoreError.t :=
  ok_or (of_value (A := MeasureKey) (Measure.cohort delta, Measure.signature delta)) StoreError.Json.
Definition fact_key (identity : Digest) (delta : Measure.t) : result Digest StoreError.t :=
  ok_or (of_value (A := FactKey) (identity, Measure.signature delta)) StoreError.Json.

(** One round of the loop over the measurements of a page. *)
Definition commit_measurement m (observation : Measurement.t) : result MonitorDb StoreError.t :=
  let delta := Measurement.value observation in
  let? key := measure_key delta in
  let? fact_key := fact_key (Measurement.identity observation) delta in
  let? value := match measures m !! key with
                | Some row => decode row
                | None => Ok (Measure.new (Measure.cohort delta) (Measure.signature delta) 0 0 0)
                end in
  let? value := match facts m !! fact_key with
                | Some row =>
                    let? prior := decode row in
                    let? _ := reject_if (negb (bool_decide (Measure.cohort prior = Measure.cohort delta)))
                                (StoreError.Integrity "monitor opportunity cohort changed") in
                    without value prior
                | None => Ok value
                end in
  let? value := with_delta value delta in
  let? value_bytes := encode value in
  let? delta_bytes := encode delta in
  Ok (m <| measures := <[key := value_bytes]> (measures m) |> <| facts := <[fact_key := delta_bytes]> (facts m) |>).

Definition monitor_commit_page m (status : MonitorStatus.t) (page : list Measurement.t) (found : list Episode.t) :
    result MonitorDb StoreError.t :=
  let? m := for_each commit_measurement m page in
  let? m := for_each insert_episode m found in
  monitor_save_status m status.

(** *** Activation *)

Definition monitor_activate m (expected : Digest) (release : Release.t) (reason : string) (episode : option Episode.t) :
    result (MonitorDb * Digest) StoreError.t :=
  let? _ := map_err StoreError.Invalid (Release.validate release) in
  let? status := monitor_status m in
  let? _ := reject_if (negb (bool_decide (MonitorStatus.active status = expected)))
              (StoreError.Invalid "active behavior changed") in
  let? id := ok_or (Release.id release) StoreError.Json in
  let status := status <| MonitorStatus.previous := Some (MonitorStatus.active status) |> <| MonitorStatus.active := id |> in
  let? bytes := encode release in
  let m := if decide (is_Some (releases m !! id)) then m else m <| releases := <[id := bytes]> (releases m) |> in
  let m := m <| activations := activations m ++ [Activation.mk (Some expected) id reason] |> in
  let? m := monitor_save_status m status in
  let? m := match episode with
            | Some e => monitor_save_episode m (e <| Episode.state := EpisodeState.Promoted id |>)
            | None => Ok m
            end in
  Ok (m, id).
End store.
