(* ===== verification/MonitorHost.v ===== *)
(** * The monitor of the host (crates/harness/src/controller/monitor.rs, monitor/evaluation.rs)

    Once a second the host reads a page of the journal into measures, and takes one step
    with the pending episode: a release of the read behavior that returned less than its
    parent could have is evaluated against fixed cases, and on success its parent's
    capacity is released again. *)

From S2P Require Import Prelude Transactions Digest Contract State Artifacts Workspace Input ArtifactGraph Journal.
From S2P Require Import JsonValue Cost Codec Secrets Conversation Admission Session Context SessionStore JournalPage.
From S2P Require Import Submissions Media HostQueue Decoder Requests Capabilities HostTools Monitor.

(** ** Reading the journal *)

Module CandidateConfig.
Record t : Type := mk { native_read_output_bytes : N }.
End CandidateConfig.

Class MonitorHostSerde := {
  #[global] serde_call_identity :: Serde (Uuid * Uuid);
  #[global] serde_episode_identity :: Serde (string * Digest);
  #[global] serde_read_case :: Serde ReadCase.t;
  #[global] serde_read_cases :: Serde (list ReadCase.t);
  #[global] serde_candidate :: Serde CandidateConfig.t;
  #[global] from_session_event :: FromValue SessionEvent.t;
  #[global] from_task_event :: FromValue TaskEvent.t;
  #[global] from_digest :: FromValue Digest;
  #[global] from_read_args :: FromValue ReadArgs.t;
}.

Module Inspection.
Record t : Type := mk {
  status : MonitorStatus.t;
  measures : list Measurement.t;
  episodes : list Episode.t;
  cohorts : gmap Uuid (option Cohort.t);
  files : ArtifactStore.t;
}.
#[global] Instance eta_t : Eta t := λ i, mk (status i) (measures i) (episodes i) (cohorts i) (files i).
End Inspection.

(** [serde_json::to_vec] of a sequence number: its decimal digits. *)
Definition sequence_identity `{!Sha256} (n : N) : Digest := digest_of (u128_to_string n).

(** [heldout] *)
Definition repeat_text (n : nat) (s : string) : string := foldr String.append "" (replicate n s).
Definition byte_text (n : N) : string := String (ascii_of_N n) EmptyString.
Definition heldout : list ReadCase.t := [
  ReadCase.mk "" 0 4096;
  ReadCase.mk "short" 2 4096;
  ReadCase.mk "eof" 50 12;
  ReadCase.mk (repeat_text (N.to_nat 4096) (byte_text 34)) 0 4096;
  ReadCase.mk (repeat_text (N.to_nat 4096) (byte_text 255)) 13 4000;
  ReadCase.mk (repeat_text (N.to_nat 1500) "界") 1 4096].

Definition HYPOTHESIS : string :=
  "The pinned release reduced native read reply capacity. Its actual receipt underfilled a requested page that the parent envelope can fit. Restore only that config field; require failing control and exact held-out byte/metadata checks. This is not a model-quality hypothesis.".

Section inspect.
Context {SHA : Sha256} {SER : StoreSerde} {SES : SessionSerde} {HOST : Host} {MON : MonitorSerde} {MHS : MonitorHostSerde}.
Context {REV : ReviewSerde} {B64 : Base64} `{!Serde JournalRecord.t}.
Implicit Types (db : SessionDb) (m : MonitorDb) (i : Inspection.t).

(** [monitor_cohort] *)
Definition monitor_cohort db (session : Uuid) : result (option Cohort.t) StoreError.t :=
  let? state := load_session db session in
  Ok ((λ p, Cohort.mk (HarnessBinding.target (SessionAdmissionProfile.binding p)) None
              (HarnessBinding.revision (SessionAdmissionProfile.binding p))
              (PinnedBehavior.release <$> SessionAdmissionProfile.native_read p)) <$> SessionState.admission state).

Definition cached_cohort db i (session : Uuid) : result (Inspection.t * option Cohort.t) StoreError.t :=
  match Inspection.cohorts i !! session with
  | Some cohort => Ok (i, cohort)
  | None =>
      let? cohort := monitor_cohort db session in
      Ok (i <| Inspection.cohorts := <[session := cohort]> (Inspection.cohorts i) |>, cohort)
  end.

(** The session a task was linked to first, [monitor_task_session]: the query over the
    events of sessions goes in the order of their rows. *)
Definition links (task : Uuid) (row : JournalRow.t) : bool :=
  str_eqb (JournalRow.kind row) "session"
  && match from_slice (A := SessionEvent.t) (JournalRow.event row) with
     | Some (SessionEvent.Command _ (SessionCommand.TaskLinked _ linked) _) => (linked =? task)%N
     | _ => false
     end.
Definition monitor_task_session db (task : Uuid) : option Uuid :=
  JournalRow.aggregate <$> List.find (links task) (journal_rows db).

Definition read_artifact i (digest : Digest) : result string StoreError.t :=
  map_err StoreError.Artifact (ArtifactStore.read (Inspection.files i) digest).
Definition put_artifact i (bytes : string) : result (Inspection.t * Digest) StoreError.t :=
  let? '(files, digest) := map_err StoreError.Artifact (ArtifactStore.put (Inspection.files i) bytes) in
  Ok (i <| Inspection.files := files |>, digest).

Definition count (b : bool) : N := if b then 1 else 0.
Definition push i (identity : Digest) (measure : Measure.t) : Inspection.t :=
  i <| Inspection.measures := Inspection.measures i ++ [Measurement.mk identity measure] |>.
(** [add] *)
Definition add (identity : Digest) (cohort : Cohort.t) (signature : Signature.t) (opportunities failures measured : N) i :
    Inspection.t :=
  push i identity (Measure.new cohort signature opportunities failures measured).
Definition sampled i (f : Sampling.t → Sampling.t) : Inspection.t :=
  i <| Inspection.status := Inspection.status i <| MonitorStatus.sampling := f (MonitorStatus.sampling (Inspection.status i)) |> |>.

(** [diagnose] *)
Definition source_diff (before_release after_release : Digest) (before after : N) : Value :=
  json_object [("path", VString "behavior.native_read_output_bytes"); ("before_release", json_digest before_release);
               ("after_release", json_digest after_release); ("before", json_number before); ("after", json_number after)].
Definition diagnose m i (sequence : N) (cohort : Cohort.t) (receipt : Digest) (wanted : N) :
    result (Inspection.t * option Episode.t) StoreError.t :=
  match Cohort.release cohort with
  | None => Ok (i, None)
  | Some current =>
      if bool_decide (Cohort.build cohort = None) then Ok (i, None) else
      let? status := monitor_status m in
      if negb (bool_decide (current = MonitorStatus.active status)) then Ok (i, None) else
      let? release := monitor_release m current in
      match Release.parent release with
      | None => Ok (i, None)
      | Some parent_id =>
          let? parent := monitor_release m parent_id in
          if (Release.native_read_output_bytes parent <=? Release.native_read_output_bytes release)%N
             || ((Release.native_read_output_bytes parent - 2048) / 6 <? wanted)%N
          then Ok (i, None) else
          let? id := ok_or (of_value (A := string * Digest) ("native-read-capacity-v1", current)) StoreError.Json in
          if monitor_has_episode m id then Ok (i, None) else
          let regression := ReadCase.mk (repeat_text (N.to_nat wanted) "x") 0 wanted in
          let? bytes := encode (source_diff parent_id current (Release.native_read_output_bytes parent)
                                  (Release.native_read_output_bytes release)) in
          let? '(i, diff) := put_artifact i bytes in
          let? bytes := encode regression in
          let? '(i, regression) := put_artifact i bytes in
          let? bytes := encode heldout in
          let? '(i, held) := put_artifact i bytes in
          Ok (i, Some (Episode.mk id MonitorOrigin.Repair sequence cohort current parent_id HYPOTHESIS diff receipt
                         regression held None None EpisodeState.Diagnosed))
      end
  end.

(** A sampled read that fell short becomes an episode, if there is room for one. *)
Definition consider m i (sequence : N) (cohort : Cohort.t) (receipt : Digest) (wanted : N) (current_build : option Digest) :
    result Inspection.t StoreError.t :=
  let i := sampled i (λ s, s <| Sampling.considered := u64_succ (Sampling.considered s) |>) in
  let status := Inspection.status i in
  if negb ((Sampling.considered (MonitorStatus.sampling status) - 1) mod MonitorStatus.sample_every status =? 0)%N
  then Ok (sampled i (λ s, s <| Sampling.skipped_sampling := u64_succ (Sampling.skipped_sampling s) |>))
  else
    let i := sampled i (λ s, s <| Sampling.selected := u64_succ (Sampling.selected s) |>) in
    let no_hypothesis i := sampled i (λ s, s <| Sampling.skipped_no_hypothesis := u64_succ (Sampling.skipped_no_hypothesis s) |>) in
    if negb (bool_decide (Cohort.build cohort = current_build)) then Ok (no_hypothesis i) else
    let? '(i, episode) := diagnose m i sequence cohort receipt wanted in
    match episode with
    | None => Ok (no_hypothesis i)
    | Some e =>
        if monitor_has_episode m (Episode.id e) || bool_decide (Episode.id e ∈ Episode.id <$> Inspection.episodes i)
        then Ok i else
        let? pending := monitor_pending m in
        if bool_decide (is_Some pending) || negb (bool_decide (Inspection.episodes i = []))
        then Ok (sampled i (λ s, s <| Sampling.skipped_capacity := u64_succ (Sampling.skipped_capacity s) |>))
        else Ok (i <| Inspection.episodes := Inspection.episodes i ++ [e] |>)
    end.

(** The end of the arm of a settled job: did a native read return what it could? *)
Definition inspect_read db m i (identity : Digest) (sequence : N) (cohort : Cohort.t) (task id : Uuid) (status : JobStatus.t)
    (receipt : option Digest) (current_build : option Digest) : result Inspection.t StoreError.t :=
  let? '(state, _) := load_state (tables db) task in
  match job ← TaskState.jobs state !! id; Job.invocation job with
  | None => Ok i
  | Some invocation =>
      if negb (str_eqb (JobInvocation.capability invocation) "read_file") || negb (bool_decide (status = JobStatus.Succeeded))
      then Ok i else
      match receipt with
      | None => Ok i
      | Some receipt =>
          let? bytes := read_artifact i receipt in
          let? value := decode (A := Value) bytes in
          if negb (value_is (index value "backend") "host") then Ok i else
          let? bytes := read_artifact i (JobInvocation.input invocation) in
          let? input := decode (A := Value) bytes in
          let output := index value "tool_result" in
          let received := str_len <$> decoded_content output in
          match ModelUsage.as_u64 (index (index output "result") "size_bytes") with
          | None => Ok i
          | Some size =>
              let offset := default 0%N (ModelUsage.as_u64 (index (index input "arguments") "offset")) in
              let requested := default 65536%N (ModelUsage.as_u64 (index (index input "arguments") "max_bytes")) in
              let wanted := N.min (N.min requested (saturating_sub size offset)) 4096 in
              let underfill := match received with Some n => (n <? wanted)%N | None => false end in
              let i := add identity cohort Signature.ReadUnderfill 1 (count underfill) (count (bool_decide (is_Some received))) i in
              if negb underfill then Ok i else consider m i sequence cohort receipt wanted current_build
          end
      end
  end.

(** The job an event is about. *)
Definition event_job db (task : Uuid) (event : TaskEvent.t) : result (option Job.t) StoreError.t :=
  match event with
  | TaskEvent.JobStarted job | TaskEvent.ManualStarted job => Ok (Some job)
  | TaskEvent.JobSettled id _ _ | TaskEvent.JobFenced id _ =>
      let? '(state, _) := load_state (tables db) task in Ok (TaskState.jobs state !! id)
  | _ => Ok None
  end.

(** The build that ran the job, as its environment says. *)
Definition job_cohort i (cohort : Cohort.t) (job : option Job.t) : result Cohort.t StoreError.t :=
  match job ← job; Job.invocation job with
  | None => Ok cohort
  | Some invocation =>
      let? bytes := read_artifact i (JobInvocation.environment invocation) in
      let? environment := decode (A := Value) bytes in
      Ok (cohort <| Cohort.build := v ← ModelUsage.get environment "host_build"; from_value v |>)
  end.

Definition pair_identity (a b : Uuid) : result Digest StoreError.t := ok_or (of_value (A := Uuid * Uuid) (a, b)) StoreError.Json.
Definition event_identity (session task : Uuid) (sequence : N) (event : TaskEvent.t) : result Digest StoreError.t :=
  match event with
  | TaskEvent.ModelCallReserved operation | TaskEvent.ModelCallRecorded operation _ => pair_identity session operation
  | TaskEvent.JobStarted job | TaskEvent.ManualStarted job => pair_identity task (Job.id job)
  | TaskEvent.JobSettled id _ _ | TaskEvent.JobFenced id _ => pair_identity task id
  | TaskEvent.EffectRecorded effect => pair_identity task (Effect.operation_id effect)
  | _ => Ok (sequence_identity sequence)
  end.

Definition unresolved (s : EffectStatus.t) : bool := bool_decide (s = EffectStatus.Unknown) || bool_decide (s = EffectStatus.Intended).

(** The arms that only count. *)
Definition count_event (identity : Digest) (cohort : Cohort.t) (event : TaskEvent.t) i : Inspection.t :=
  match event with
  | TaskEvent.ModelCallReserved _ =>
      add identity cohort Signature.Cost 1 0 0 (add identity cohort Signature.MissingUsage 1 0 0 (add identity cohort Signature.ProviderError 1 0 0 i))
  | TaskEvent.ModelCallRecorded _ receipt =>
      let i := add identity cohort Signature.ProviderError 1 (count (bool_decide (ModelCallReceipt.status receipt = ModelCallStatus.Failed)))
                 (count (negb (bool_decide (ModelCallReceipt.status receipt = ModelCallStatus.Unknown)))) i in
      add identity cohort Signature.MissingUsage 1 (count (bool_decide (ModelCallReceipt.tokens receipt = None)))
        (count (bool_decide (is_Some (ModelCallReceipt.tokens receipt)))) i
  | TaskEvent.EffectRecorded effect => add identity cohort Signature.UnresolvedEffect 1 (count (unresolved (Effect.status effect))) 1 i
  | TaskEvent.Observed evidence =>
      let status := Observation.status (Evidence.observation evidence) in
      let i := add identity cohort Signature.VerificationFailure 1 (count (bool_decide (status = CheckStatus.Failed)))
                 (count (bool_decide (status = CheckStatus.Passed) || bool_decide (status = CheckStatus.Failed))) i in
      add identity cohort Signature.EvaluatorFailure 1 (count (bool_decide (status = CheckStatus.Inconclusive))) 1 i
  | TaskEvent.JobStarted _ | TaskEvent.ManualStarted _ => add identity cohort Signature.UnresolvedJob 1 0 0 (add identity cohort Signature.JobOutcome 1 0 0 i)
  | TaskEvent.JobFenced _ _ => add identity cohort Signature.UnresolvedJob 1 0 1 (add identity cohort Signature.JobOutcome 1 0 1 i)
  | TaskEvent.JobSettled _ status _ =>
      let i := add identity cohort Signature.JobOutcome 1 (count (bool_decide (status = JobStatus.Failed)))
                 (count (negb (bool_decide (status = JobStatus.Unknown)))) i in
      add identity cohort Signature.UnresolvedJob 1 (count (bool_decide (status = JobStatus.Unknown))) 1 i
  | _ => i
  end.

Definition inspect_task db m (current_build : option Digest) (record : JournalRecord.t) i : result Inspection.t StoreError.t :=
  let task := JournalRecord.aggregate record in
  match monitor_task_session db task with
  | None => Ok i
  | Some session =>
      let? '(i, cohort) := cached_cohort db i session in
      match cohort with
      | None => Ok i
      | Some cohort =>
          let? origin := monitor_origin m session in
          if negb (bool_decide (origin = MonitorOrigin.User))
          then Ok (sampled i (λ s, s <| Sampling.skipped_origin := u64_succ (Sampling.skipped_origin s) |>))
          else
            let? event := ok_or (from_value (JournalRecord.event record)) StoreError.Json in
            let? job := event_job db task event in
            let? cohort := job_cohort i cohort job in
            let? identity := event_identity session task (JournalRecord.sequence record) event in
            let i := count_event identity cohort event i in
            match event with
            | TaskEvent.JobSettled id status receipt =>
                inspect_read db m i identity (JournalRecord.sequence record) cohort task id status receipt current_build
            | _ => Ok i
            end
      end
  end.

Definition inspect_session db m (record : JournalRecord.t) i : result Inspection.t StoreError.t :=
  let session := JournalRecord.aggregate record in
  let? '(i, cohort) := cached_cohort db i session in
  match cohort with
  | None => Ok i
  | Some cohort =>
      let? origin := monitor_origin m session in
      if negb (bool_decide (origin = MonitorOrigin.User)) then Ok i else
      let? event := ok_or (from_value (JournalRecord.event record)) StoreError.Json in
      match event with
      | SessionEvent.Command _ (SessionCommand.ProviderCost _ call cost) _ =>
          let measure := Measure.new cohort Signature.Cost 1 0 (count (bool_decide (is_Some cost))) in
          let measure := match cost with Some cost => measure <| Measure.recorded_usd := cost |> | None => measure end in
          let? identity := pair_identity session call in
          Ok (push i identity measure)
      | SessionEvent.Command _ (SessionCommand.ReviewRecorded feedback) _ =>
          let? feedback := read_feedback (Inspection.files i) feedback in
          let changes := match ReviewFeedback.disposition feedback with Disposition.ChangesRequested => true | _ => false end in
          Ok (add (sequence_identity (JournalRecord.sequence record)) cohort Signature.UserCorrection 1 (count changes) 1 i)
      | _ => Ok i
      end
  end.

(** [inspect] *)
Definition inspect db m (current_build : option Digest) i (record : JournalRecord.t) : result Inspection.t StoreError.t :=
  let? i := if str_eqb (JournalRecord.kind record) "session" then inspect_session db m record i
            else if str_eqb (JournalRecord.kind record) "task" then inspect_task db m current_build record i
            else Ok i in
  Ok (i <| Inspection.status := Inspection.status i <| MonitorStatus.cursor := JournalRecord.sequence record |> |>).

(** The first transaction of a tick: a page of the journal. *)
Definition read_page db m (files : ArtifactStore.t) (current_build : option Digest) :
    result (MonitorDb * ArtifactStore.t) StoreError.t :=
  let? status := monitor_status m in
  let? records := journal_page db (MonitorStatus.cursor status) 64 in
  let? i := for_each (inspect db m current_build) (Inspection.mk status [] [] ∅ files) records in
  let status := Inspection.status i <| MonitorStatus.last_error := None |> in
  let? m := monitor_commit_page m status (Inspection.measures i) (Inspection.episodes i) in
  Ok (m, Inspection.files i).
End inspect.

(** ** Evaluation (monitor/evaluation.rs)

    [Trial] is what one read of a case meets: the host's world and the context of the
    call, whose capacity the case sets. Reasons are texts of errors, given as [describe]. *)

Record Trial : Type := mk_trial { trial_world : HostWorld; trial_context : HostToolContext.t }.
Definition with_capacity (context : HostToolContext.t) (capacity : N) : HostToolContext.t :=
  HostToolContext.mk (HostToolContext.cwd context) (HostToolContext.task_id context) (HostToolContext.generation context)
    (HostToolContext.job_id context) (HostToolContext.timeout_ms context) capacity.

Section evaluation.
Context {SHA : Sha256} {MON : MonitorSerde} {MHS : MonitorHostSerde} {B64 : Base64} `{!Serde Value}.
Variable describe : HostToolError.t → string.

Definition case_arguments (case : ReadCase.t) : Value :=
  json_object [("path", VString "input"); ("offset", json_number (ReadCase.offset case));
               ("max_bytes", json_number (ReadCase.max_bytes case))].
(** What the answer to a case must be. *)
Definition case_start (case : ReadCase.t) : N := N.min (ReadCase.offset case) (str_len (ReadCase.bytes case)).
Definition case_end (case : ReadCase.t) : N :=
  N.min (u64_saturating_add (case_start case) (ReadCase.max_bytes case)) (str_len (ReadCase.bytes case)).
Definition case_answered (case : ReadCase.t) (value : Value) : bool :=
  let result := index value "result" in
  bool_decide (decoded_content value = Some (page (ReadCase.bytes case) (case_start case) (case_end case)))
  && bool_decide (index result "digest" = json_digest (digest_of (ReadCase.bytes case)))
  && bool_decide (index result "offset" = json_number (case_start case))
  && bool_decide (index result "size_bytes" = json_number (str_len (ReadCase.bytes case)))
  && bool_decide (index result "truncated" = VBool (case_end case <? str_len (ReadCase.bytes case))%N).
(** [check] *)
Definition check (t : Trial) (case : ReadCase.t) (capacity : N) : result bool string :=
  let? value := map_err describe (execute_read (trial_world t) (case_arguments case) (with_capacity (trial_context t) capacity)) in
  Ok (case_answered case value).

(** The cases of one repeat, until one fails; [trial] counts the reads. *)
Definition outcome (repeat index : nat) (passed : bool) : Value :=
  json_object [("repeat", json_number (N.of_nat repeat)); ("case", json_number (N.of_nat index)); ("passed", VBool passed)].
Fixpoint run_cases (trials : nat → Trial) (trial repeat index : nat) (cases : list ReadCase.t) (capacity : N)
    (outcomes : list Value) : result (list Value * option nat) string :=
  match cases with
  | [] => Ok (outcomes, None)
  | case :: cases =>
      let? passed := check (trials trial) case capacity in
      let outcomes := outcomes ++ [outcome repeat index passed] in
      if passed : bool then run_cases trials (S trial) repeat (S index) cases capacity outcomes
      else Ok (outcomes, Some index)
  end.

Definition rejected (reason : string) (fields : list (string * Value)) : Value :=
  json_object ([("accepted", VBool false); ("reason", VString reason); ("origin", VString "evaluation")] ++ fields).
Definition case_failed (index : nat) (outcomes : list Value) : Value :=
  rejected ("outcome check failed at case " +:+ u128_to_string (N.of_nat index)) [("checks", VArray outcomes)].
Definition accepted (episode : Episode.t) (outcomes : list Value) : Value :=
  json_object [("accepted", VBool true); ("origin", VString "evaluation");
    ("kind", VString "deterministic_native_read_capacity"); ("regression", json_digest (Episode.regression episode));
    ("heldout", json_digest (Episode.heldout episode)); ("candidate", json_option json_digest (Episode.candidate episode));
    ("control_failed", VBool true); ("checks", VArray outcomes); ("model_comparisons", VNull);
    ("scope", VString "restores bounded native read replies only; no model or task-quality inference")].

(** [evaluate]; [candidate] is what reading the candidate's file gives, [artifact] the
    artifacts, with the texts of their errors. *)
Definition evaluate_candidate (artifact : Digest → result string string) (parse : string → string) (trials : nat → Trial)
    (episode : Episode.t) (candidate : result string string) (before expected : N) : result Value string :=
  let? bytes := candidate in
  let? _ := reject_if (1024 <? str_len bytes)%N "candidate exceeds bound" in
  let? config := ok_or (from_slice (A := CandidateConfig.t) bytes) (parse bytes) in
  let? _ := reject_if (negb (CandidateConfig.native_read_output_bytes config =? expected)%N)
              "candidate is not the diagnosed parent configuration" in
  let? _ := reject_if (negb (bool_decide (Episode.candidate episode = Some (digest_of bytes))))
              "candidate digest changed after freeze" in
  let? text := artifact (Episode.regression episode) in
  let? regression := ok_or (from_slice (A := ReadCase.t) text) (parse text) in
  let? text := artifact (Episode.heldout episode) in
  let? held := ok_or (from_slice (A := list ReadCase.t) text) (parse text) in
  let? reproduced := check (trials 0) regression before in
  if reproduced : bool then Ok (rejected "triggering control did not reproduce" []) else
  let cases := regression :: held in
  let? '(outcomes, failed) := run_cases trials 1 0 0 cases expected [] in
  match failed with
  | Some index => Ok (case_failed index outcomes)
  | None =>
      let? '(outcomes, failed) := run_cases trials (S (length cases)) 1 0 cases expected outcomes in
      match failed with
      | Some index => Ok (case_failed index outcomes)
      | None => Ok (accepted episode outcomes)
      end
  end.
End evaluation.

(** ** The host *)

Record MonitorBooks : Type := mk_monitor_books {
  journal_db : SessionDb;
  monitor_db : MonitorDb;
  monitor_files : ArtifactStore.t;
}.
#[global] Instance eta_monitor_books : Eta MonitorBooks := λ w, mk_monitor_books (journal_db w) (monitor_db w) (monitor_files w).

(** What an evaluation meets outside of the store: writing the candidate's file, reading
    it back, and the reads of the cases. *)
Record EvaluationWorld : Type := mk_evaluation_world {
  written : result unit HostError.t;
  candidate_file : result string string;
  trials : nat → Trial;
}.

Section host.
Context {SHA : Sha256} {SER : StoreSerde} {SES : SessionSerde} {HOST : Host} {MON : MonitorSerde} {MHS : MonitorHostSerde}.
Context {REV : ReviewSerde} {B64 : Base64} `{!Serde JournalRecord.t}.
(** The texts of errors. *)
Variable describe : HostToolError.t → string.
Variable artifact_error : ArtifactError.t → string.
Variable parse_error : string → string.

#[local] Notation MonitorTx := (Tx MonitorBooks HostError.t).

Definition store_query {A} (f : MonitorDb → result A StoreError.t) : MonitorTx A := query (λ w, map_err HostError.Store (f (monitor_db w))).
Definition store_write {A} (f : MonitorDb → result (MonitorDb * A) StoreError.t) : MonitorTx A := transaction (λ w,
  let? '(m, x) := map_err HostError.Store (f (monitor_db w)) in Ok (w <| monitor_db := m |>, x)).
Definition store_update (f : MonitorDb → result MonitorDb StoreError.t) : MonitorTx unit :=
  store_write (λ m, let? m := f m in Ok (m, tt)).
Definition put_file (bytes : string) : MonitorTx Digest := transaction (λ w,
  let? '(files, digest) := map_err HostError.Store (map_err StoreError.Artifact (ArtifactStore.put (monitor_files w) bytes)) in
  Ok (w <| monitor_files := files |>, digest)).
(** [serde_json::to_vec(..)?] in the host *)
Definition encoded_for_host {A} `{!Serde A} (x : A) : MonitorTx string := query (λ _, ok_or (to_vec x) HostError.Json).

(** [Host::install_read_behavior], [rollback_read_behavior], [set_monitor_sampling] *)
Definition install_read_behavior (expected : Digest) (bytes : N) (note : string) : MonitorTx Digest :=
  store_write (λ m, monitor_activate m expected (Release.mk (Some expected) bytes note) "operator release" None).
Definition rollback_read_behavior (expected : Digest) : MonitorTx Digest :=
  status ← store_query monitor_status;
  previous ← query (λ _, ok_or (MonitorStatus.previous status) (HostError.Invalid "no previous behavior"));
  release ← store_query (λ m, monitor_release m previous);
  store_write (λ m, monitor_activate m expected release "operator rollback" None).
Definition set_monitor_sampling (every : N) : MonitorTx unit :=
  _ ← query (λ _, reject_if ((every =? 0)%N || (10000 <? every)%N) (HostError.Invalid "sampling interval must be 1..10000"));
  store_update (λ m, let? status := monitor_status m in monitor_save_status m (status <| MonitorStatus.sample_every := every |>)).
Definition pin_read_behavior (build : option Digest) m : result PinnedBehavior.t StoreError.t :=
  let? status := monitor_status m in
  let? release := monitor_release m (MonitorStatus.active status) in
  Ok (PinnedBehavior.mk (MonitorStatus.active status) (Release.native_read_output_bytes release) build).

(** A count of what the evaluator did with an episode. *)
Definition count_evaluation (e : Episode.t) (failures measured : N) (error : option string) : MonitorTx unit :=
  status ← store_query monitor_status;
  let status := match error with Some text => status <| MonitorStatus.last_error := Some text |> | None => status end in
  store_update (λ m, monitor_commit_page m status
    [Measurement.mk (Episode.id e) (Measure.new (Episode.cohort e) Signature.EvaluatorFailure 1 failures measured)] []).
Definition close_episode (e : Episode.t) (state : EpisodeState.t) : MonitorTx unit :=
  store_update (λ m, monitor_save_episode m (e <| Episode.state := state |>)).

Definition UNFINISHED : string := "unfinished evaluation; no automatic effect replay".
Definition BUILD_CHANGED : string := "host build changed after diagnosis; no matched evaluator".
Definition NOT_PASSED : string := "predeclared deterministic outcomes did not pass".

(** The evaluation is over: its result is kept, and decides. *)
Definition conclude (e : Episode.t) (parent : Release.t) (verdict : result Value string) : MonitorTx unit :=
  match verdict with
  | Ok result =>
      bytes ← encoded_for_host result;
      digest ← put_file bytes;
      let e := e <| Episode.result := Some digest |> in
      _ ← count_evaluation e 0 1 None;
      if negb (bool_decide (index result "accepted" = VBool true))
      then close_episode e (EpisodeState.Rejected NOT_PASSED)
      else
        let release := Release.mk (Some (Episode.regressed e)) (Release.native_read_output_bytes parent)
                         ("deterministic read capacity recovery " +:+ digest_to_string (Episode.id e)) in
        _ ← store_write (λ m, monitor_activate m (Episode.regressed e) release "deterministic native read checks" (Some e));
        mret tt
  | Err reason =>
      _ ← close_episode e (EpisodeState.Uncertain reason);
      count_evaluation (e <| Episode.state := EpisodeState.Uncertain reason |>) 1 1 (Some ("evaluator: " +:+ reason))
  end.

(** One step with an episode that was diagnosed on this build. *)
Definition evaluate_episode (v : EvaluationWorld) (e : Episode.t) : MonitorTx unit :=
  status ← store_query monitor_status;
  if negb (bool_decide (MonitorStatus.active status = Episode.regressed e)) then close_episode e EpisodeState.Superseded else
  before ← store_query (λ m, monitor_release m (Episode.regressed e));
  parent ← store_query (λ m, monitor_release m (Episode.parent e));
  let e := e <| Episode.state := EpisodeState.Evaluating |> in
  _ ← close_episode e EpisodeState.Evaluating;
  _ ← count_evaluation e 0 0 None;
  bytes ← encoded_for_host (CandidateConfig.mk (Release.native_read_output_bytes parent));
  _ ← query (λ _, written v);
  candidate ← put_file bytes;
  let e := e <| Episode.candidate := Some candidate |> in
  _ ← store_update (λ m, monitor_save_episode m e);
  verdict ← query (λ w, Ok (evaluate_candidate describe (λ d, map_err artifact_error (ArtifactStore.read (monitor_files w) d))
                              parse_error (trials v) e (candidate_file v) (Release.native_read_output_bytes before)
                              (Release.native_read_output_bytes parent)));
  conclude e parent verdict.

Definition step_episode (v : EvaluationWorld) (build : option Digest) (e : Episode.t) : MonitorTx unit :=
  if bool_decide (Episode.state e = EpisodeState.Evaluating) then
    _ ← close_episode e (EpisodeState.Uncertain UNFINISHED);
    count_evaluation e 1 0 None
  else if negb (bool_decide (Cohort.build (Episode.cohort e) = build)) then close_episode e (EpisodeState.Uncertain BUILD_CHANGED)
  else evaluate_episode v e.

(** [Host::monitor_tick_inner] *)
Definition monitor_tick_inner (v : EvaluationWorld) (build : option Digest) : MonitorTx unit :=
  _ ← transaction (λ w,
    let? '(m, files) := map_err HostError.Store (read_page (journal_db w) (monitor_db w) (monitor_files w) build) in
    Ok (w <| monitor_db := m |> <| monitor_files := files |>, tt));
  pending ← store_query monitor_pending;
  match pending with
  | None => mret tt
  | Some e => step_episode v build e
  end.

Definition MONITOR_UNAVAILABLE : string := "Trace monitoring failed. User tasks can continue; monitoring will retry.".

(** [Host::monitor_tick]: a failure is written to the status, if that can be. *)
Definition monitor_tick (v : EvaluationWorld) (build : option Digest) : MonitorTx unit :=
  ticked ← attempt (monitor_tick_inner v build);
  match ticked with
  | Ok _ => mret tt
  | Err e =>
      _ ← attempt (store_update (λ m,
        let? status := monitor_status m in
        monitor_save_status m (status <| MonitorStatus.last_error := Some MONITOR_UNAVAILABLE |>)));
      query (λ _, Err e)
  end.
End host.
