(* ===== verification/MonitorGuarantees.v ===== *)
(** * What monitoring guarantees

    The measures are the sums of the facts; releases load and follow one another; at most
    one episode is open, and what was concluded stays. *)

From S2P Require Import Prelude Transactions Digest Contract State Artifacts Workspace Input ArtifactGraph Journal Replay.
From S2P Require Import JsonValue Cost Codec Secrets Conversation Admission Session Context SessionStore JournalPage.
From S2P Require Import Submissions Media HostQueue Decoder Requests Capabilities HostTools Monitor MonitorHost.

Class MonitorSerdeOk `{!MonitorSerde} := {
  #[global] release_text_ok :: SerdeOk Release.t;
  #[global] status_text_ok :: SerdeOk MonitorStatus.t;
  #[global] measure_text_ok :: SerdeOk Measure.t;
  #[global] episode_text_ok :: SerdeOk Episode.t;
  #[global] fact_key_text_ok :: SerdeOk FactKey;
}.

(** ** Sums of facts *)

Inductive Counter : Type := Opportunities | Failures | Measured | Recorded.
#[global] Instance Counter_eq_dec : EqDecision Counter.
Proof. solve_decision. Defined.
Definition counter (c : Counter) : Measure.t → N :=
  match c with
  | Opportunities => Measure.opportunities
  | Failures => Measure.failures
  | Measured => Measure.measured
  | Recorded => Measure.recorded_usd
  end.

Section sums.
Context {SHA : Sha256} {MON : MonitorSerde}.
Implicit Types (m : MonitorDb) (c : Counter) (k : Digest) (f : Measure.t).

(** What a fact adds to the counter of a measure. *)
Definition contribution c k (row : string) : N :=
  match from_slice (A := Measure.t) row with
  | Some f => if decide (measure_key f = Ok k) then counter c f else 0
  | None => 0
  end.
Definition counter_at c m k : N :=
  match measures m !! k with
  | Some row => match from_slice (A := Measure.t) row with Some v => counter c v | None => 0 end
  | None => 0
  end.

(** One opportunity, measured or not, failed or not. *)
Definition one_opportunity f : Prop := Measure.opportunities f = 1%N ∧ (Measure.failures f ≤ 1)%N ∧ (Measure.measured f ≤ 1)%N.

Record sums m : Prop := {
  su_facts i row : facts m !! i = Some row →
    ∃ f identity, from_slice row = Some f ∧ one_opportunity f ∧ fact_key identity f = Ok i;
  su_measures k row : measures m !! k = Some row → ∃ v, from_slice row = Some v ∧ measure_key v = Ok k;
  su_sum c k : counter_at c m k = map_sum (contribution c k) (facts m);
}.

Lemma fact_sum_bound c k (facts : gmap Digest string) :
  c ≠ Recorded → (∀ i row, facts !! i = Some row → ∃ f, from_slice row = Some f ∧ one_opportunity f) →
  (map_sum (contribution c k) facts ≤ N.of_nat (size facts))%N.
Proof.
  intros Hc. induction facts as [|i row facts Hn IH] using map_ind; intros Hb; [by rewrite map_size_empty|].
  rewrite map_sum_insert_new, map_size_insert_None by done.
  assert (map_sum (contribution c k) facts ≤ N.of_nat (size facts))%N.
  { apply IH. intros j r Hj. apply (Hb j). rewrite lookup_insert_ne; [done|]. intros ->. congruence. }
  assert (contribution c k row ≤ 1)%N; [|lia].
  destruct (Hb i row) as (f & Hf & Ho & Hfa & Hm); [by rewrite lookup_insert_eq|]. unfold contribution. rewrite Hf.
  case_decide; [|lia]. destruct c; cbn; [lia|done..].
Qed.

(** What a measure keeps as it is counted up and down. *)
Definition same_measure (v w : Measure.t) : Prop := Measure.cohort v = Measure.cohort w ∧ Measure.signature v = Measure.signature w.
Lemma same_measure_key v w : same_measure v w → measure_key v = measure_key w.
Proof. unfold measure_key. by intros [-> ->]. Qed.

Lemma without_spec value prior value' :
  without value prior = Ok value' → same_measure value' value ∧ ∀ c, (counter c value' + counter c prior = counter c value)%N.
Proof.
  assert (Hsub : ∀ x y z e, ok_or (u64_checked_sub x y) e = (Ok z : result N StoreError.t) → (z + y = x)%N).
  { unfold u64_checked_sub. intros x y z e. destruct (N.leb_spec y x); [|done]. intros [= <-]. lia. }
  unfold without. intros (o & Ho%Hsub & (f & Hf%Hsub & (ms & Hm%Hsub & (u & Hu & [= <-])%rbind_Ok)%rbind_Ok)%rbind_Ok)%rbind_Ok.
  assert (u + Measure.recorded_usd prior = Measure.recorded_usd value)%N.
  { revert Hu. unfold UsdCost.checked_sub, u128_checked_sub. destruct (_ <=? _)%N eqn:E; [|done]. apply N.leb_le in E. intros [= <-]. lia. }
  split; [done|]. by intros [].
Qed.

Lemma with_delta_spec value delta value' :
  with_delta value delta = Ok value' →
  same_measure value' value ∧ ∀ c, ((c = Recorded ∨ counter c value + counter c delta < 2 ^ 64) → counter c value' = counter c value + counter c delta)%N.
Proof.
  unfold with_delta. intros (u & Hu & [= <-])%rbind_Ok. split; [done|].
  assert (u = Measure.recorded_usd value + Measure.recorded_usd delta)%N.
  { revert Hu. unfold UsdCost.checked_add, u128_checked_add. destruct (_ <=? _)%N; [|done]. by intros [= <-]. }
  intros [] [?|Hlt]; try done; cbn in *; unfold u64_add; by rewrite N.mod_small.
Qed.

Context {OK : MonitorSerdeOk}.

Lemma fact_key_signature i1 f1 i2 f2 d :
  fact_key i1 f1 = Ok d → fact_key i2 f2 = Ok d → Measure.signature f1 = Measure.signature f2 ∨ collision.
Proof.
  unfold fact_key, of_value. intros H1%ok_or_Ok H2%ok_or_Ok.
  apply fmap_Some in H1 as (b1 & E1 & ->), H2 as (b2 & E2 & Hb). apply digest_of_inj in Hb as [->|]; [left|by right].
  apply from_slice_to_vec in E1, E2. congruence.
Qed.

(** One measurement is counted once, whatever was counted of its opportunity before. *)
Lemma commit_measurement_sums m observation m' :
  one_opportunity (Measurement.value observation) → sums m → commit_measurement m observation = Ok m' →
  (N.of_nat (size (facts m')) < 2 ^ 64)%N → sums m' ∨ collision.
Proof.
  set (delta := Measurement.value observation). intros Hone [Hf Hme Hs] H Hsize.
  unfold commit_measurement in H. fold delta in H. apply rbind_Ok in H as (key & Hkey & H). apply rbind_Ok in H as (fk & Hfk & H).
  apply rbind_Ok in H as (value0 & Hv0 & H). apply rbind_Ok in H as (value1 & Hv1 & H). apply rbind_Ok in H as (value2 & Hv2 & H).
  apply rbind_Ok in H as (vb & Hvb%ok_or_Ok & H). apply rbind_Ok in H as (db & Hdb%ok_or_Ok & [= <-]).
  apply from_slice_to_vec in Hvb, Hdb.
  assert (H0 : measure_key value0 = Ok key ∧ ∀ c, counter c value0 = counter_at c m key).
  { unfold counter_at. destruct (measures m !! key) as [row|] eqn:Hrow.
    - destruct (Hme _ _ Hrow) as (v & Hv & Hk). unfold decode in Hv0. rewrite Hv in Hv0 |- *. by injection Hv0 as <-.
    - injection Hv0 as <-. split; [done|]. by intros []. }
  destruct H0 as [Hk0 H0].
  assert (H1 : (same_measure value1 value0 ∧ (∀ k', k' ≠ key → ∀ c, from_option (contribution c k') 0%N (facts m !! fk) = 0%N) ∧
    ∀ c, (counter c value1 + from_option (contribution c key) 0 (facts m !! fk) = counter c value0)%N) ∨ collision).
  { destruct (facts m !! fk) as [row|] eqn:Hrow.
    - destruct (Hf _ _ Hrow) as (prior & identity & Hprior & _ & Hpk). unfold decode in Hv1. rewrite Hprior in Hv1. cbn [ok_or rbind] in Hv1.
      apply rbind_Ok in Hv1 as ([] & Hc%reject_if_Ok%negb_false_iff%bool_decide_eq_true & Hv1).
      destruct (fact_key_signature _ _ _ _ _ Hpk Hfk) as [Hsig|]; [left|by right].
      assert (measure_key prior = Ok key) as Hpkey by (rewrite <-Hkey; by apply same_measure_key).
      apply without_spec in Hv1 as [Hsame Hsub]. split_and!; [done| |].
      + intros k' Hne c. unfold contribution. cbn. rewrite Hprior, decide_False; [done|]. rewrite Hpkey. by intros [= ->].
      + intros c. unfold contribution. cbn. rewrite Hprior, decide_True by done. apply Hsub.
    - left. injection Hv1 as <-. split_and!; [done|done|]. intros c. cbn. lia. }
  destruct H1 as [(Hsame1 & Hother & H1)|]; [left|by right]. apply with_delta_spec in Hv2 as [Hsame2 Hadd].
  assert (Hkey2 : measure_key value2 = Ok key) by by rewrite (same_measure_key _ _ Hsame2), (same_measure_key _ _ Hsame1).
  assert (Hfacts : ∀ i row, <[fk:=db]> (facts m) !! i = Some row →
     ∃ f identity, from_slice row = Some f ∧ one_opportunity f ∧ fact_key identity f = Ok i).
  { intros i row [[<- <-]|[_ Hi]]%lookup_insert_Some; [by exists delta, (Measurement.identity observation)|by apply Hf]. }
  assert (Hdelta : ∀ c k, contribution c k db = if decide (k = key) then counter c delta else 0%N).
  { intros c k. unfold contribution. rewrite Hdb, Hkey. repeat case_decide; congruence. }
  split; cbn [facts measures put]; [exact Hfacts| |].
  { intros k row [[<- <-]|[_ Hi]]%lookup_insert_Some; [by exists value2|by apply Hme]. }
  intros c k. pose proof (map_sum_insert (contribution c k) (facts m) fk db) as Hins. rewrite Hdelta in Hins.
  pose proof (Hs c k) as Hsk. unfold counter_at. cbn [measures put].
  destruct (decide (k = key)) as [->|Hne].
  - rewrite lookup_insert_eq, Hvb. specialize (H1 c). rewrite H0 in H1.
    assert (Hsum : (counter c value1 + counter c delta = map_sum (contribution c key) (<[fk:=db]> (facts m)))%N) by lia.
    rewrite <-Hsum. apply Hadd. rewrite Hsum. destruct (decide (c = Recorded)) as [|Hc]; [by left|right].
    pose proof (fact_sum_bound c key (<[fk:=db]> (facts m)) Hc) as Hb.
    eapply N.le_lt_trans; [apply Hb|exact Hsize]. intros i row Hi. destruct (Hfacts i row Hi) as (f & ? & ? & ? & _). eauto.
  - rewrite lookup_insert_ne by done. change (match measures m !! k with Some row => _ | None => _ end) with (counter_at c m k).
    rewrite (Hother k Hne c) in Hins. lia.
Qed.
End sums.

(** ** What holds of the tables *)

Section invariant.
Context {SHA : Sha256} {MON : MonitorSerde} {MHS : MonitorHostSerde} {B64 : Base64} `{!Serde Value}.
Variable describe : HostToolError.t → string.
Implicit Types (m : MonitorDb) (e : Episode.t).

(** An episode was found where a release returns less than its parent can. *)
Definition regression_of m e : Prop := ∃ release parent,
  monitor_release m (Episode.regressed e) = Ok release ∧ Release.parent release = Some (Episode.parent e) ∧
  monitor_release m (Episode.parent e) = Ok parent ∧
  (Release.native_read_output_bytes release < Release.native_read_output_bytes parent)%N.

(** The cases an evaluation went through: the control fails with the capacity of the
    release, and with that of its parent every case passes, twice. *)
Definition cases_passed (trials : nat → Trial) (regression : ReadCase.t) (held : list ReadCase.t) (before expected : N) : Prop :=
  check describe (trials 0) regression before = Ok false ∧
  ∀ repeat index case, (repeat < 2)%nat → (regression :: held) !! index = Some case →
    check describe (trials (S (repeat * S (length held) + index))) case expected = Ok true.

(** The text of a digest says [x]. *)
Definition says {A} `{!Serde A} (digest : Digest) (x : A) : Prop := ∃ bytes, digest_of bytes = digest ∧ from_slice bytes = Some x.
(** An evaluation that accepts: the candidate that was frozen is the configuration of the
    parent, and the cases that were fixed with the episode passed. *)
Definition evaluated e (before expected : N) : Prop := ∃ trials regression held candidate,
  Episode.candidate e = Some candidate ∧ says candidate (CandidateConfig.mk expected) ∧
  says (Episode.regression e) regression ∧ says (Episode.heldout e) held ∧ cases_passed trials regression held before expected.

(** A promotion was earned: the episode's cases passed, and the release that was
    activated in place of the regressed one has the capacity of its parent. *)
Definition earned m e (id : Digest) : Prop := ∃ release parent new,
  monitor_release m (Episode.regressed e) = Ok release ∧ monitor_release m (Episode.parent e) = Ok parent ∧
  Release.id new = Some id ∧ (monitor_release m id = Ok new ∨ collision) ∧ Release.parent new = Some (Episode.regressed e) ∧
  Release.native_read_output_bytes new = Release.native_read_output_bytes parent ∧
  (∃ reason, Activation.mk (Some (Episode.regressed e)) id reason ∈ activations m) ∧
  evaluated e (Release.native_read_output_bytes release) (Release.native_read_output_bytes parent).

Definition episode_ok m e : Prop :=
  regression_of m e ∧ ∀ id, Episode.state e = EpisodeState.Promoted id → earned m e id.

(** Activations follow one another, from a release to the one that is active. *)
Fixpoint chain (first : Digest) (l : list Activation.t) (active : Digest) : Prop :=
  match l with
  | [] => first = active
  | a :: l => Activation.previous a = Some first ∧ chain (Activation.current a) l active
  end.
Lemma chain_snoc first l active a :
  chain first l active → Activation.previous a = Some active → chain first (l ++ [a]) (Activation.current a).
Proof. revert first. induction l as [|b l IH]; intros first; cbn; [by intros ->|]. intros [? ?] ?. auto. Qed.

Record status_sound m (s : MonitorStatus.t) : Prop := {
  ss_active : ∃ r, monitor_release m (MonitorStatus.active s) = Ok r;
  ss_previous p : MonitorStatus.previous s = Some p → ∃ r, monitor_release m p = Ok r;
  ss_chain : ∃ base, Release.id Release.baseline = Some base ∧ chain base (activations m) (MonitorStatus.active s);
  ss_last : MonitorStatus.previous s = last (activations m) ≫= Activation.previous;
}.

Record monitor_ok m : Prop := {
  mo_status : ∃ s, monitor_status m = Ok s ∧ status_sound m s;
  mo_releases id row : releases m !! id = Some row → ∃ r, monitor_release m id = Ok r;
  mo_ids : NoDup (episodes m).*1;
  mo_episodes id row : (id, row) ∈ episodes m → ∃ e, from_slice row = Some e ∧ Episode.id e = id ∧ episode_ok m e;
  mo_open a b : a ∈ episodes m → b ∈ episodes m → episode_pending a = true → episode_pending b = true → a.1 = b.1;
}.

(** ** Moves *)

(** A row that is open, and what may be written over it: the same episode, further on. *)
Definition same_episode e e0 : Prop :=
  Episode.id e = Episode.id e0 ∧ Episode.regressed e = Episode.regressed e0 ∧ Episode.parent e = Episode.parent e0 ∧
  Episode.cohort e = Episode.cohort e0.
Definition open_episode m e : Prop := ∃ row e0,
  (Episode.id e, row) ∈ episodes m ∧ from_slice row = Some e0 ∧ EpisodeState.pending (Episode.state e0) = true ∧ same_episode e e0.

Inductive monitor_move m m' : Prop :=
| move_measure observation :
    one_opportunity (Measurement.value observation) → commit_measurement m observation = Ok m' → monitor_move m m'
| move_found e :
    Forall (λ row, episode_pending row = false) (episodes m) → regression_of m e → Episode.state e = EpisodeState.Diagnosed →
    insert_episode m e = Ok m' → monitor_move m m'
| move_status s s' :
    monitor_status m = Ok s → MonitorStatus.active s' = MonitorStatus.active s → MonitorStatus.previous s' = MonitorStatus.previous s →
    monitor_save_status m s' = Ok m' → monitor_move m m'
| move_episode e :
    open_episode m e → (∀ id, Episode.state e ≠ EpisodeState.Promoted id) → monitor_save_episode m e = Ok m' → monitor_move m m'
| move_operator expected release reason id :
    monitor_activate m expected release reason None = Ok (m', id) → monitor_move m m'
| move_recovery e release before parent reason id :
    open_episode m e → monitor_release m (Episode.regressed e) = Ok before → monitor_release m (Episode.parent e) = Ok parent →
    Release.parent release = Some (Episode.regressed e) →
    Release.native_read_output_bytes release = Release.native_read_output_bytes parent →
    evaluated e (Release.native_read_output_bytes before) (Release.native_read_output_bytes parent) →
    monitor_activate m (Episode.regressed e) release reason (Some e) = Ok (m', id) → monitor_move m m'.

(** *** What moves keep *)

(** Releases and activations are never taken back. *)
Definition extends m m' : Prop := releases m ⊆ releases m' ∧ ∃ l, activations m' = activations m ++ l.
Lemma extends_release m m' id r : extends m m' → monitor_release m id = Ok r → monitor_release m' id = Ok r.
Proof.
  intros [Hsub _]. unfold monitor_release. intros (row & Hrow%ok_or_Ok & H)%rbind_Ok.
  rewrite (lookup_weaken _ _ _ _ Hrow Hsub). done.
Qed.
Lemma extends_regression m m' e : extends m m' → regression_of m e → regression_of m' e.
Proof.
  intros Hx (r & p & Hr & Hp & Hpar & Hlt). exists r, p. split_and!; try done; by eapply extends_release.
Qed.
Lemma extends_earned m m' e id : extends m m' → earned m e id → earned m' e id.
Proof.
  intros Hx (r & p & n & Hr & Hp & Hid & Hn & Hpar & Hb & [reason Ha] & Hc). exists r, p, n.
  split_and!; try done; try by eapply extends_release.
  - destruct Hn as [Hn|]; [left; by eapply extends_release|by right].
  - destruct Hx as [_ [l ->]]. exists reason. set_solver.
Qed.
Lemma extends_episode m m' e : extends m m' → episode_ok m e → episode_ok m' e.
Proof. intros Hx [Hr He]. split; [by eapply extends_regression|]. intros id Hs. eapply extends_earned; eauto. Qed.

Lemma status_sound_same m m' s s' :
  releases m' = releases m → activations m' = activations m →
  MonitorStatus.active s' = MonitorStatus.active s → MonitorStatus.previous s' = MonitorStatus.previous s →
  status_sound m s → status_sound m' s'.
Proof.
  intros Hr Ha Hact Hprev [H1 H2 H3 H4]. assert (Hx : extends m m') by (unfold extends; rewrite Hr, Ha; split; [done|exists []; by rewrite app_nil_r]).
  split; rewrite ?Ha, ?Hact, ?Hprev; try done.
  - destruct H1 as [r Hr1]. exists r. by eapply extends_release.
  - intros p [r Hr1]%H2. exists r. by eapply extends_release.
Qed.

Lemma status_kept m m' :
  status_row m' = status_row m → releases m' = releases m → activations m' = activations m →
  (∃ s, monitor_status m = Ok s ∧ status_sound m s) → ∃ s, monitor_status m' = Ok s ∧ status_sound m' s.
Proof.
  intros Hst Hr Ha (s & Hs & Hok). exists s. split; [unfold monitor_status in *; by rewrite Hst|]. by eapply (status_sound_same m).
Qed.

(** Tables with the same releases, activations and episodes. *)
Lemma monitor_ok_same m m' :
  status_row m' = status_row m → releases m' = releases m → activations m' = activations m → episodes m' = episodes m →
  monitor_ok m → monitor_ok m'.
Proof.
  intros Hst Hr Ha He [H1 H2 H3 H4 H5]. assert (Hx : extends m m') by (unfold extends; rewrite Hr, Ha; split; [done|exists []; by rewrite app_nil_r]).
  split; rewrite ?He, ?Hr; try done.
  - by apply (status_kept m).
  - intros id row [r Hr']%H2. exists r. by eapply extends_release.
  - intros id row (e & Hd & Hid & Hep)%H4. exists e. split_and!; [done..|]. by eapply extends_episode.
Qed.

Lemma commit_measurement_core m observation m' :
  commit_measurement m observation = Ok m' →
  status_row m' = status_row m ∧ releases m' = releases m ∧ activations m' = activations m ∧ episodes m' = episodes m.
Proof.
  unfold commit_measurement. intros (k & _ & (fk & _ & (v0 & _ & (v1 & _ & (v2 & _ & (b & _ & (d & _ & [= <-])%rbind_Ok)%rbind_Ok)%rbind_Ok)%rbind_Ok)%rbind_Ok)%rbind_Ok)%rbind_Ok.
  done.
Qed.

Context {OK : MonitorSerdeOk}.

Lemma encode_decode {A} `{!Serde A, !SerdeOk A} (x : A) bytes : encode x = Ok bytes → from_slice bytes = Some x.
Proof. intros H%ok_or_Ok. by apply from_slice_to_vec. Qed.

Lemma save_status_spec m s m' :
  monitor_save_status m s = Ok m' → is_Some (status_row m) →
  monitor_status m' = Ok s ∧ releases m' = releases m ∧ activations m' = activations m ∧ episodes m' = episodes m ∧
  facts m' = facts m ∧ measures m' = measures m.
Proof.
  unfold monitor_save_status, update_status. intros (bytes & Hb%encode_decode & [= <-])%rbind_Ok [row Hrow].
  unfold monitor_status, decode. cbn. rewrite Hrow. cbn. by rewrite Hb.
Qed.
Lemma status_row_some m s : monitor_status m = Ok s → is_Some (status_row m).
Proof. unfold monitor_status. intros (row & Hr%ok_or_Ok & _)%rbind_Ok. by eexists. Qed.

Lemma save_status_ok m s s' m' :
  monitor_ok m → monitor_status m = Ok s → MonitorStatus.active s' = MonitorStatus.active s →
  MonitorStatus.previous s' = MonitorStatus.previous s → monitor_save_status m s' = Ok m' → monitor_ok m'.
Proof.
  intros [[s0 [Hs0 Hok]] H2 H3 H4 H5] Hs Ha Hp Hsave. assert (s0 = s) as -> by congruence.
  destruct (save_status_spec _ _ _ Hsave (status_row_some _ _ Hs)) as (Hs' & Hr & Hac & He & _).
  assert (Hx : extends m m') by (unfold extends; rewrite Hr, Hac; split; [done|exists []; by rewrite app_nil_r]).
  split; rewrite ?He, ?Hr; try done.
  - exists s'. split; [done|]. by eapply status_sound_same.
  - intros id row [r Hr']%H2. exists r. by eapply extends_release.
  - intros id row (e & Hd & Hid & Hep)%H4. exists e. split_and!; [done..|]. by eapply extends_episode.
Qed.

Lemma insert_episode_ok m e m' :
  monitor_ok m → Forall (λ row, episode_pending row = false) (episodes m) → regression_of m e →
  Episode.state e = EpisodeState.Diagnosed → insert_episode m e = Ok m' → monitor_ok m'.
Proof.
  intros Hm Hnone Hreg Hdiag. unfold insert_episode. intros (bytes & Hb%encode_decode & [= <-])%rbind_Ok.
  unfold monitor_has_episode. case_bool_decide as Hin; [done|]. destruct Hm as [H1 H2 H3 H4 H5].
  assert (Hx : extends m (m <| episodes := episodes m ++ [(Episode.id e, bytes)] |>)) by (split; [done|exists []; by rewrite app_nil_r]).
  split; cbn [episodes releases put]; [by apply (status_kept m)|exact H2| | |].
  - rewrite fmap_app. apply NoDup_app. split_and!; [done| |apply NoDup_singleton]. intros d Hd ->%list_elem_of_singleton. by apply Hin.
  - intros id row [Hel|Hel%list_elem_of_singleton]%elem_of_app.
    + destruct (H4 _ _ Hel) as (e0 & ? & ? & ?). exists e0. split_and!; [done..|]. by eapply extends_episode.
    + injection Hel as -> ->. exists e. split_and!; [done..|]. split; [by eapply extends_regression|]. intros id. by rewrite Hdiag.
  - rewrite Forall_forall in Hnone. intros a b [Ha|Ha%list_elem_of_singleton]%elem_of_app [Hb'|Hb'%list_elem_of_singleton]%elem_of_app Hpa Hpb;
      subst; [|by rewrite Hnone in Hpa|by rewrite Hnone in Hpb|done]. by rewrite Hnone in Hpa.
Qed.

(** The rows after one is written over. *)
Lemma update_episode_elem m id bytes row :
  row ∈ episodes (update_episode m id bytes) → row = (id, bytes) ∨ row ∈ episodes m ∧ row.1 ≠ id.
Proof.
  unfold update_episode. cbn. intros (row0 & -> & Hin)%list_elem_of_fmap. case_decide; [by left|by right].
Qed.
Lemma update_episode_ids m id bytes : (episodes (update_episode m id bytes)).*1 = (episodes m).*1.
Proof.
  unfold update_episode. cbn. rewrite <-list_fmap_compose. apply list_fmap_ext. intros i [d row] _. cbn. case_decide; cbn; congruence.
Qed.

Lemma open_regression m e : monitor_ok m → open_episode m e → regression_of m e.
Proof.
  intros Hm (row & e0 & Hin & Hd & _ & (Hid & Hreg & Hpar & _)). destruct (mo_episodes _ Hm _ _ Hin) as (e1 & Hd1 & _ & [Hr _]).
  assert (e1 = e0) as -> by congruence. destruct Hr as (r & p & ? & ? & ? & ?). exists r, p. by rewrite Hreg, Hpar.
Qed.

(** An open episode is written over: only it may be open after. *)
Lemma save_episode_ok m e m' :
  monitor_ok m → open_episode m e → episode_ok m e → monitor_save_episode m e = Ok m' → monitor_ok m'.
Proof.
  intros Hm (row0 & e0 & Hin0 & Hd0 & Hp0 & _) Hok. unfold monitor_save_episode. intros (bytes & Hb%encode_decode & [= <-])%rbind_Ok.
  destruct Hm as [H1 H2 H3 H4 H5].
  assert (Hx : extends m (update_episode m (Episode.id e) bytes)) by (split; [done|exists []; by rewrite app_nil_r]).
  split; [by apply (status_kept m)|exact H2|by rewrite update_episode_ids| |].
  - intros id row [Hel|[Hel _]]%update_episode_elem.
    + injection Hel as -> ->. exists e. split_and!; [done..|]. by eapply extends_episode.
    + destruct (H4 _ _ Hel) as (e1 & ? & ? & ?). exists e1. split_and!; [done..|]. by eapply extends_episode.
  - assert (Hpend : episode_pending (Episode.id e, row0) = true) by (unfold episode_pending; cbn; by rewrite Hd0).
    intros a b [->|[Ha Hna]]%update_episode_elem [->|[Hb' Hnb]]%update_episode_elem Hpa Hpb; [done| | |by apply H5].
    + by destruct Hnb; apply (H5 b (Episode.id e, row0)).
    + by destruct Hna; apply (H5 a (Episode.id e, row0)).
Qed.

(** *** Activation *)

Lemma release_id_inj r1 r2 id : Release.id r1 = Some id → Release.id r2 = Some id → r1 = r2 ∨ collision.
Proof.
  unfold Release.id, of_value. intros (b1 & E1 & ->)%fmap_Some (b2 & E2 & Hb)%fmap_Some.
  apply digest_of_inj in Hb as [->|]; [left|by right]. apply from_slice_to_vec in E1, E2. congruence.
Qed.
Lemma monitor_release_id m id r : monitor_release m id = Ok r → Release.id r = Some id.
Proof.
  unfold monitor_release. intros (row & _ & (r0 & _ & ([] & Hid%reject_if_Ok%negb_false_iff%bool_decide_eq_true & H)%rbind_Ok)%rbind_Ok)%rbind_Ok.
  apply rbind_Ok in H as ([] & _ & [= <-]). done.
Qed.

(** [INSERT OR IGNORE INTO monitor_releases] *)
Definition with_release m (id : Digest) (bytes : string) : MonitorDb :=
  if decide (is_Some (releases m !! id)) then m else m <| releases := <[id := bytes]> (releases m) |>.
Lemma with_release_fields m id bytes :
  status_row (with_release m id bytes) = status_row m ∧ activations (with_release m id bytes) = activations m ∧
  episodes (with_release m id bytes) = episodes m ∧ facts (with_release m id bytes) = facts m ∧
  measures (with_release m id bytes) = measures m ∧ extends m (with_release m id bytes).
Proof.
  unfold with_release, extends. case_decide as Hs; split_and!; try done; try (exists []; by rewrite app_nil_r).
  cbn. apply insert_subseteq. by apply eq_None_not_Some.
Qed.

Lemma with_release_loads m release id bytes :
  (∀ id row, releases m !! id = Some row → ∃ r, monitor_release m id = Ok r) →
  Release.id release = Some id → Release.validate release = Ok tt → encode release = Ok bytes →
  (∀ id' row, releases (with_release m id bytes) !! id' = Some row → ∃ r, monitor_release (with_release m id bytes) id' = Ok r) ∧
  (monitor_release (with_release m id bytes) id = Ok release ∨
   collision ∧ ∃ r, monitor_release (with_release m id bytes) id = Ok r).
Proof.
  intros Hall Hid Hval Hb%encode_decode. unfold with_release. case_decide as Hs.
  - split; [done|]. destruct Hs as [row Hrow]. destruct (Hall _ _ Hrow) as [r Hr].
    destruct (release_id_inj r release id) as [->|Hc]; [by eapply monitor_release_id|done|by left|right; eauto].
  - assert (Hx : extends m (m <| releases := <[id := bytes]> (releases m) |>)).
    { split; [|exists []; by rewrite app_nil_r]. cbn. apply insert_subseteq. by apply eq_None_not_Some. }
    assert (Hnew : monitor_release (m <| releases := <[id := bytes]> (releases m) |>) id = Ok release).
    { unfold monitor_release, decode. cbn. rewrite lookup_insert_eq. cbn. rewrite Hb. cbn. rewrite Hid, bool_decide_true by done. cbn. by rewrite Hval. }
    split; [|by left]. cbn. intros id' row [[<- <-]|[_ Hr]]%lookup_insert_Some; [by eexists|].
    destruct (Hall _ _ Hr) as [r Hr']. exists r. by eapply extends_release.
Qed.

Lemma activate_unfold m expected release reason episode m' id :
  monitor_activate m expected release reason episode = Ok (m', id) →
  ∃ s bytes m2, Release.validate release = Ok tt ∧ monitor_status m = Ok s ∧ MonitorStatus.active s = expected ∧
    Release.id release = Some id ∧ encode release = Ok bytes ∧
    monitor_save_status (with_release m id bytes <| activations := activations m ++ [Activation.mk (Some expected) id reason] |>)
      (s <| MonitorStatus.previous := Some (MonitorStatus.active s) |> <| MonitorStatus.active := id |>) = Ok m2 ∧
    match episode with
    | Some e => monitor_save_episode m2 (e <| Episode.state := EpisodeState.Promoted id |>) = Ok m'
    | None => m' = m2
    end.
Proof.
  unfold monitor_activate. intros ([] & Hval & (s & Hs & H)%rbind_Ok)%rbind_Ok. 
  apply rbind_Ok in H as ([] & Ha%reject_if_Ok%negb_false_iff%bool_decide_eq_true & H).
  apply rbind_Ok in H as (id' & Hid%ok_or_Ok & (bytes & Hb & (m2 & Hm2 & (m3 & Hm3 & [= <- <-])%rbind_Ok)%rbind_Ok)%rbind_Ok).
  exists s, bytes, m2. split_and!; try done.
  - revert Hval. unfold map_err. by destruct (Release.validate release) as [[]|].
  - rewrite <-Hm2. fold (with_release m id' bytes). by destruct (with_release_fields m id' bytes) as (_ & -> & _).
  - destruct episode; [done|]. by injection Hm3.
Qed.

(** The tables after an activation, before the episode is written. *)
Lemma activated_ok m s expected release reason id bytes m2 :
  monitor_ok m → monitor_status m = Ok s → MonitorStatus.active s = expected → Release.validate release = Ok tt →
  Release.id release = Some id → encode release = Ok bytes →
  monitor_save_status (with_release m id bytes <| activations := activations m ++ [Activation.mk (Some expected) id reason] |>)
    (s <| MonitorStatus.previous := Some (MonitorStatus.active s) |> <| MonitorStatus.active := id |>) = Ok m2 →
  monitor_ok m2 ∧ extends m m2 ∧ episodes m2 = episodes m ∧ (monitor_release m2 id = Ok release ∨ collision) ∧
  activations m2 = activations m ++ [Activation.mk (Some expected) id reason].
Proof.
  intros [[s0 [Hs0 Hsound]] H2 H3 H4 H5] Hs Hact Hval Hid Hb Hsave. assert (s0 = s) as -> by congruence.
  destruct (with_release_loads m release id bytes H2 Hid Hval Hb) as [Hall Hnew].
  destruct (with_release_fields m id bytes) as (Fst & Fac & Fep & _ & _ & [Fsub _]).
  apply save_status_spec in Hsave as (Hst2 & Hr2 & Hac2 & Hep2 & _); [|cbn; rewrite Fst; by eapply status_row_some].
  cbn in Hr2, Hac2, Hep2. rewrite Fep in Hep2.
  assert (Hx : extends m m2) by (split; [by rewrite Hr2|by eexists]).
  assert (Hload : ∀ id' r, monitor_release (with_release m id bytes) id' = Ok r → monitor_release m2 id' = Ok r).
  { intros id' r. unfold monitor_release. by rewrite Hr2. }
  split_and!; [|done|done| |done].
  - split; rewrite ?Hr2, ?Hep2; [|intros id' row [r Hr]%Hall; eauto|done| |done].
    + eexists. split; [exact Hst2|]. destruct Hsound as [Ha Hp Hc Hl]. split; cbn.
      * destruct Hnew as [Hn|[_ [r Hn]]]; eauto.
      * intros p [= <-]. destruct Ha as [r Ha]. exists r. by eapply extends_release.
      * destruct Hc as (base & Hbase & Hc). exists base. split; [done|]. rewrite Hac2.
        apply (chain_snoc _ _ _ (Activation.mk (Some expected) id reason) Hc). cbn. by rewrite Hact.
      * rewrite Hac2, last_snoc. cbn. by rewrite Hact.
    + intros id' row (e & Hd & Hi & He)%H4. exists e. split_and!; [done..|]. by eapply extends_episode.
  - destruct Hnew as [Hn|[Hc _]]; [left; eauto|by right].
Qed.

Lemma monitor_move_ok m m' : monitor_ok m → monitor_move m m' → monitor_ok m'.
Proof.
  intros Hm [observation _ H|e Hnone Hreg Hd H|s s' Hs Ha Hp H|e Hopen Hnp H|expected release reason id H|
    e release before parent reason id Hopen Hbef Hpar Hrp Hrb Hpass H].
  - apply commit_measurement_core in H as (? & ? & ? & ?). by eapply (monitor_ok_same m).
  - by eapply insert_episode_ok.
  - by eapply save_status_ok.
  - eapply save_episode_ok; [done..| |done]. split; [by apply open_regression|]. intros id E. by destruct (Hnp id).
  - apply activate_unfold in H as (s & bytes & m2 & Hval & Hs & Hact & Hid & Hb & Hsave & ->). by eapply activated_ok.
  - apply activate_unfold in H as (s & bytes & m2 & Hval & Hs & Hact & Hid & Hb & Hsave & H).
    destruct (activated_ok _ _ _ _ _ _ _ _ Hm Hs Hact Hval Hid Hb Hsave) as (Hok2 & Hx & Hep & Hnew & Hac).
    apply (save_episode_ok m2 _ m' Hok2) in H; [done| |].
    + destruct Hopen as (row & e0 & ? & ? & ? & ?). exists row, e0. rewrite Hep. done.
    + split; [apply (extends_regression m); [done|by apply (open_regression m e)]|]. cbn. intros id' [= <-].
      exists before, parent, release. split_and!; try done; try by eapply extends_release.
      exists reason. rewrite Hac. set_solver.
Qed.

Lemma monitor_moves_ok m m' : monitor_ok m → rtc monitor_move m m' → monitor_ok m'.
Proof. intros Hm Hs. induction Hs as [|m1 m2 m3 H _ IH]; [done|]. apply IH. by eapply monitor_move_ok. Qed.

(** *** The sums under moves *)

Lemma move_facts m m' :
  monitor_move m m' → is_Some (status_row m) →
  (∃ observation, one_opportunity (Measurement.value observation) ∧ commit_measurement m observation = Ok m') ∨
  (facts m' = facts m ∧ measures m' = measures m).
Proof.
  intros Hmove Hst. destruct Hmove as [observation Ho H|e _ _ _ H|s s' Hs _ _ H|e _ _ H|expected release reason id H|
    e release before parent reason id _ _ _ _ _ _ H]; [left; eauto|right..].
  - unfold insert_episode in H. apply rbind_Ok in H as (bytes & _ & [= <-]). by case_match.
  - by apply save_status_spec in H as (_ & _ & _ & _ & ? & ?).
  - unfold monitor_save_episode in H. by apply rbind_Ok in H as (bytes & _ & [= <-]).
  - apply activate_unfold in H as (s & bytes & m2 & _ & _ & _ & _ & _ & Hsave & ->).
    destruct (with_release_fields m id bytes) as (Fst & _ & _ & Ff & Fm & _).
    apply save_status_spec in Hsave as (_ & _ & _ & _ & -> & ->); [done|by cbn; rewrite Fst].
  - apply activate_unfold in H as (s & bytes & m2 & _ & _ & _ & _ & _ & Hsave & H).
    destruct (with_release_fields m id bytes) as (Fst & _ & _ & Ff & Fm & _).
    apply save_status_spec in Hsave as (_ & _ & _ & _ & Hf2 & Hm2); [|by cbn; rewrite Fst].
    unfold monitor_save_episode in H. apply rbind_Ok in H as (bytes' & _ & [= <-]). cbn. by rewrite Hf2, Hm2.
Qed.

Lemma ok_status_row m : monitor_ok m → is_Some (status_row m).
Proof. intros [(s & Hs & _) _ _ _ _]. by eapply status_row_some. Qed.

Lemma commit_measurement_size m observation m' :
  commit_measurement m observation = Ok m' → (size (facts m) ≤ size (facts m'))%nat.
Proof.
  unfold commit_measurement. intros (k & _ & (fk & _ & (v0 & _ & (v1 & _ & (v2 & _ & (b & _ & (d & _ & [= <-])%rbind_Ok)%rbind_Ok)%rbind_Ok)%rbind_Ok)%rbind_Ok)%rbind_Ok)%rbind_Ok.
  change (size (facts m) ≤ size (<[fk:=d]> (facts m)))%nat. destruct (facts m !! fk) eqn:E.
  - by rewrite map_size_insert_Some.
  - rewrite map_size_insert_None by done. lia.
Qed.

Lemma moves_size m m' : monitor_ok m → rtc monitor_move m m' → (size (facts m) ≤ size (facts m'))%nat.
Proof.
  intros Hm Hs. induction Hs as [|m1 m2 m3 H _ IH]; [done|]. specialize (IH (monitor_move_ok _ _ Hm H)).
  destruct (move_facts _ _ H (ok_status_row _ Hm)) as [(o & _ & Ho)|[Ef _]]; [apply commit_measurement_size in Ho; lia|by rewrite <-Ef].
Qed.

Lemma sums_same m m' : facts m' = facts m → measures m' = measures m → sums m → sums m'.
Proof. intros Hf Hms [H1 H2 H3]. unfold counter_at in *. split; unfold counter_at; rewrite ?Hf, ?Hms; eauto. Qed.

Lemma moves_sums m m' :
  monitor_ok m → rtc monitor_move m m' → (N.of_nat (size (facts m')) < 2 ^ 64)%N → sums m ∨ collision → sums m' ∨ collision.
Proof.
  intros Hm Hs. induction Hs as [|m1 m2 m3 H Hs IH]; [done|]. intros Hsize [Hsum|]; [|by right].
  pose proof (monitor_move_ok _ _ Hm H) as Hm2. apply IH; [done..|].
  destruct (move_facts _ _ H (ok_status_row _ Hm)) as [(o & Hone & Ho)|[Ef Em]]; [|left; by eapply sums_same].
  eapply commit_measurement_sums; [done..|]. pose proof (moves_size _ _ Hm2 Hs). lia.
Qed.

(** The tables of a new store. *)
Lemma initialize_ok m : initialize empty_monitor = Ok m → monitor_ok m ∧ sums m.
Proof.
  unfold initialize. intros (id & Hid%ok_or_Ok & (bytes & Hb%encode_decode & (bytes' & Hb'%encode_decode & [= <-])%rbind_Ok)%rbind_Ok)%rbind_Ok.
  cbn [releases status_row empty_monitor]. rewrite lookup_empty. destruct (decide _) as [[? [=]]|_]. cbn. split.
  - assert (Hbase : ∀ m0, releases m0 = {[id := bytes]} → monitor_release m0 id = Ok Release.baseline).
    { intros m0 Hm0. unfold monitor_release, decode. rewrite Hm0, lookup_singleton_eq. cbn. rewrite Hb. cbn. by rewrite Hid, bool_decide_true. }
    split; cbn; [|intros id' row [<- <-]%lookup_singleton_Some; eauto|constructor|by intros ? ? ?%elem_of_nil|by intros ? ? ?%elem_of_nil].
    eexists. split; [unfold monitor_status, decode; cbn; by rewrite Hb'|]. split; cbn; [eauto|done| |done]. eauto.
  - split; cbn; [by intros ? ?; rewrite lookup_empty..|]. intros c k. unfold counter_at. cbn. by rewrite lookup_empty, map_sum_empty.
Qed.

(** ** What an evaluation accepts *)

Lemma run_cases_passed trials trial repeat index cases capacity outcomes outcomes' :
  run_cases describe trials trial repeat index cases capacity outcomes = Ok (outcomes', None) →
  ∀ k case, cases !! k = Some case → check describe (trials (trial + k)%nat) case capacity = Ok true.
Proof.
  revert trial index outcomes. induction cases as [|case cases IH]; intros trial index outcomes; [by intros _ k ? ?|].
  cbn [run_cases]. intros (passed & Hp & H)%rbind_Ok. destruct passed; [|done]. intros [|k] c; cbn [lookup list_lookup].
  - intros [= <-]. by rewrite Nat.add_0_r.
  - intros Hk. rewrite <-Nat.add_succ_comm. by eapply IH.
Qed.

Lemma evaluate_accepted artifact parse trials e candidate before expected result :
  (∀ d text, artifact d = Ok text → digest_of text = d) →
  evaluate_candidate describe artifact parse trials e candidate before expected = Ok result →
  index result "accepted" = VBool true → evaluated e before expected.
Proof.
  intros Hart. unfold evaluate_candidate. intros (bytes & _ & ([] & _ & (config & Hconf%ok_or_Ok & H)%rbind_Ok)%rbind_Ok)%rbind_Ok.
  apply rbind_Ok in H as ([] & He%reject_if_Ok%negb_false_iff%N.eqb_eq & H).
  apply rbind_Ok in H as ([] & Hcand%reject_if_Ok%negb_false_iff%bool_decide_eq_true & H).
  apply rbind_Ok in H as (rtext & Hrt%Hart & (regression & Hreg%ok_or_Ok & H)%rbind_Ok).
  apply rbind_Ok in H as (htext & Hht%Hart & (held & Hheld%ok_or_Ok & (reproduced & Hrep & H)%rbind_Ok)%rbind_Ok).
  destruct reproduced; [by injection H as <-|]. apply rbind_Ok in H as ([outcomes [i|]] & H1 & H); [by injection H as <-|].
  apply rbind_Ok in H as ([outcomes2 [i|]] & H2 & H); [by injection H as <-|]. intros _.
  exists trials, regression, held, (digest_of bytes). split_and!; [done| |by exists rtext|by exists htext|].
  { exists bytes. split; [done|]. rewrite Hconf. destruct config. cbn in He. by rewrite He. }
  split; [done|]. intros repeat k case Hrepeat Hk. destruct repeat as [|[|]]; [| |lia]; cbn [Nat.mul Nat.add].
  - by apply (run_cases_passed _ _ _ _ _ _ _ _ H1 k).
  - rewrite Nat.add_0_r. by apply (run_cases_passed _ _ _ _ _ _ _ _ H2 k).
Qed.

Lemma artifact_text store error d text :
  map_err error (ArtifactStore.read store d) = (Ok text : result string string) → digest_of text = d.
Proof. by intros [? _]%map_err_Ok%read_verified. Qed.

End invariant.

(** ** What an inspection finds *)

Section host.
Context {SHA : Sha256} {SER : StoreSerde} {SES : SessionSerde} {HOST : Host} {MON : MonitorSerde} {MHS : MonitorHostSerde}.
Context {REV : ReviewSerde} {B64 : Base64} `{!Serde JournalRecord.t} {OK : MonitorSerdeOk}.
Variable describe : HostToolError.t → string.
Variable artifact_error : ArtifactError.t → string.
Variable parse_error : string → string.
Implicit Types (m : MonitorDb) (e : Episode.t) (w : MonitorBooks).


(** The measures of a page, its episode at most one and found in these tables. *)
Record inspected m (files : ArtifactStore.t) (s : MonitorStatus.t) (i : Inspection.t) : Prop := {
  in_measures : Forall (λ o, one_opportunity (Measurement.value o)) (Inspection.measures i);
  in_episodes : Inspection.episodes i = [] ∨
    ∃ e, Inspection.episodes i = [e] ∧ Forall (λ row, episode_pending row = false) (episodes m) ∧ regression_of m e ∧
      Episode.state e = EpisodeState.Diagnosed;
  in_active : MonitorStatus.active (Inspection.status i) = MonitorStatus.active s;
  in_previous : MonitorStatus.previous (Inspection.status i) = MonitorStatus.previous s;
  in_files : reads_kept files (Inspection.files i);
}.

Lemma count_le b : (count b ≤ 1)%N.
Proof. by destruct b. Qed.
#[local] Hint Resolve count_le : core.

Lemma push_inspected m files s i identity measure :
  one_opportunity measure → inspected m files s i → inspected m files s (push i identity measure).
Proof. intros Ho [H1 H2 H3 H4 H5]. split; [|done..]. cbn. apply Forall_app. split; [done|by apply Forall_singleton]. Qed.
Lemma add_inspected m files s i identity cohort signature failures measured :
  (failures ≤ 1)%N → (measured ≤ 1)%N → inspected m files s i →
  inspected m files s (add identity cohort signature 1 failures measured i).
Proof. intros Hf Hm. by apply push_inspected. Qed.
Lemma sampled_inspected m files s i f : inspected m files s i → inspected m files s (sampled i f).
Proof. by intros [H1 H2 H3 H4 H5]. Qed.
Lemma put_inspected m files s i bytes i' d :
  put_artifact i bytes = Ok (i', d) → inspected m files s i →
  inspected m files s i' ∧ Inspection.episodes i' = Inspection.episodes i.
Proof.
  unfold put_artifact. intros ([store d'] & Hput%map_err_Ok%put_keeps & [= <- <-])%rbind_Ok [H1 H2 H3 H4 H5].
  split; [|done]. split; try done. cbn. by eapply reads_kept_trans.
Qed.
Lemma count_event_inspected m files s i identity cohort event :
  inspected m files s i → inspected m files s (count_event identity cohort event i).
Proof. intros Hi. destruct event; cbn; try done; repeat apply add_inspected; auto; done. Qed.

Lemma pending_none m : monitor_pending m = Ok None → Forall (λ row, episode_pending row = false) (episodes m).
Proof.
  unfold monitor_pending. destruct (List.find episode_pending (episodes m)) as [[d row]|] eqn:Hf.
  - by intros (e & _ & [=])%rbind_Ok.
  - intros _. apply Forall_forall. intros row Hrow. by apply (List.find_none _ _ Hf), list_elem_of_In.
Qed.

Lemma diagnose_found m files s i sequence cohort receipt wanted i' found :
  diagnose m i sequence cohort receipt wanted = Ok (i', found) → inspected m files s i →
  inspected m files s i' ∧ Inspection.episodes i' = Inspection.episodes i ∧
  ∀ e, found = Some e → regression_of m e ∧ Episode.state e = EpisodeState.Diagnosed.
Proof.
  intros H Hi. assert (Hnone : ∀ j, i' = j → found = None → j = i → inspected m files s i' ∧ Inspection.episodes i' = Inspection.episodes i ∧
    ∀ e, found = Some e → regression_of m e ∧ Episode.state e = EpisodeState.Diagnosed) by by intros ? -> -> ->.
  unfold diagnose in H. destruct (Cohort.release cohort) as [current|]; [|injection H as <- <-; by eapply Hnone].
  case_bool_decide; [injection H as <- <-; by eapply Hnone|]. apply rbind_Ok in H as (status & Hs & H).
  destruct (negb _); [injection H as <- <-; by eapply Hnone|]. apply rbind_Ok in H as (release & Hrel & H).
  destruct (Release.parent release) as [parent_id|] eqn:Hpar; [|injection H as <- <-; by eapply Hnone].
  apply rbind_Ok in H as (parent & Hp & H). destruct (_ || _) eqn:Hcap; [injection H as <- <-; by eapply Hnone|].
  apply orb_false_iff in Hcap as [Hcap%N.leb_gt _]. apply rbind_Ok in H as (id & Hid & H).
  destruct (monitor_has_episode _ _); [injection H as <- <-; by eapply Hnone|]. clear Hnone.
  apply rbind_Ok in H as (b1 & _ & ([i1 diff] & H1 & H)%rbind_Ok). apply rbind_Ok in H as (b2 & _ & ([i2 reg] & H2 & H)%rbind_Ok).
  apply rbind_Ok in H as (b3 & _ & ([i3 held] & H3 & [= <- <-])%rbind_Ok).
  destruct (put_inspected _ _ _ _ _ _ _ H1 Hi) as [I1 E1]. destruct (put_inspected _ _ _ _ _ _ _ H2 I1) as [I2 E2].
  destruct (put_inspected _ _ _ _ _ _ _ H3 I2) as [I3 E3]. split_and!; [done|by rewrite E3, E2|].
  intros e [= <-]. split; [|done]. by exists release, parent.
Qed.

Lemma consider_inspected m files s i sequence cohort receipt wanted build i' :
  consider m i sequence cohort receipt wanted build = Ok i' → inspected m files s i → inspected m files s i'.
Proof.
  unfold consider. intros H Hi. destruct (negb _); [injection H as <-; by repeat apply sampled_inspected|].
  destruct (negb _); [injection H as <-; by repeat apply sampled_inspected|]. apply rbind_Ok in H as ([j found] & Hd & H).
  eapply diagnose_found in Hd as (Hj & Hej & Hf); [|by repeat apply sampled_inspected]. cbn in Hej.
  destruct found as [e|]; [|injection H as <-; by apply sampled_inspected]. destruct (Hf e eq_refl) as [Hreg Hdiag].
  destruct (_ || _); [by injection H as <-|]. apply rbind_Ok in H as (pending & Hp & H).
  case_bool_decide as Hpend; [injection H as <-; by apply sampled_inspected|]. destruct pending; [by destruct Hpend|]. cbn [orb] in H.
  case_bool_decide as Hempty; cbn [negb] in H; injection H as <-; [|by apply sampled_inspected].
  destruct Hj as [J1 J2 J3 J4 J5]. split; try done. right. exists e. cbn. rewrite Hempty. split_and!; [done|by apply pending_none|done|done].
Qed.

Lemma inspect_read_inspected db m files s i identity sequence cohort task id status receipt build i' :
  inspect_read db m i identity sequence cohort task id status receipt build = Ok i' → inspected m files s i → inspected m files s i'.
Proof.
  unfold inspect_read. intros ([state rows] & _ & H)%rbind_Ok Hi. destruct (job ← _; _) as [invocation|]; [|by injection H as <-].
  destruct (_ || _); [by injection H as <-|]. destruct receipt as [receipt|]; [|by injection H as <-].
  apply rbind_Ok in H as (b1 & _ & (value & _ & H)%rbind_Ok). destruct (negb _); [by injection H as <-|].
  apply rbind_Ok in H as (b2 & _ & (input & _ & H)%rbind_Ok). destruct (ModelUsage.as_u64 _) as [size|]; [|by injection H as <-].
  cbv zeta in H. destruct (negb _); [injection H as <-; by apply add_inspected|].
  eapply consider_inspected; [exact H|]. by apply add_inspected.
Qed.

Lemma cached_inspected db m files s i session i' cohort :
  cached_cohort db i session = Ok (i', cohort) → inspected m files s i → inspected m files s i'.
Proof.
  unfold cached_cohort. destruct (_ !! _); [by intros [= <- _]|]. by intros (c & _ & [= <- _])%rbind_Ok [H1 H2 H3 H4 H5].
Qed.

Lemma inspect_task_inspected db m files s build record i i' :
  inspect_task db m build record i = Ok i' → inspected m files s i → inspected m files s i'.
Proof.
  unfold inspect_task. destruct (monitor_task_session _ _) as [session|]; [|by intros [= <-]].
  intros ([i1 cohort] & H1 & H)%rbind_Ok Hi. eapply cached_inspected in Hi; [|exact H1]. destruct cohort as [cohort|]; [|by injection H as <-].
  apply rbind_Ok in H as (origin & _ & H). destruct (negb _); [injection H as <-; by apply sampled_inspected|].
  apply rbind_Ok in H as (event & _ & (job & _ & (cohort2 & _ & (identity & _ & H)%rbind_Ok)%rbind_Ok)%rbind_Ok).
  apply (count_event_inspected _ _ _ _ identity cohort2 event) in Hi. destruct event; try by injection H as <-.
  by eapply inspect_read_inspected.
Qed.

Lemma inspect_session_inspected db m files s record i i' :
  inspect_session db m record i = Ok i' → inspected m files s i → inspected m files s i'.
Proof.
  unfold inspect_session. intros ([i1 cohort] & H1 & H)%rbind_Ok Hi. eapply cached_inspected in Hi; [|exact H1].
  destruct cohort as [cohort|]; [|by injection H as <-]. apply rbind_Ok in H as (origin & _ & H).
  destruct (negb _); [by injection H as <-|]. apply rbind_Ok in H as (event & _ & H).
  destruct event as [|? [] ?]; try by injection H as <-.
  all: apply rbind_Ok in H as (x & _ & [= <-]); first [apply add_inspected|apply push_inspected]; try done.
  by case_match.
Qed.

Lemma inspect_inspected db m files s build record i i' :
  inspect db m build i record = Ok i' → inspected m files s i → inspected m files s i'.
Proof.
  unfold inspect. intros (j & Hj & [= <-])%rbind_Ok Hi. assert (inspected m files s j) as [H1 H2 H3 H4 H5]; [|done].
  destruct (str_eqb _ _); [by eapply inspect_session_inspected|]. destruct (str_eqb _ _); [by eapply inspect_task_inspected|].
  by injection Hj as <-.
Qed.

#[local] Notation move := (monitor_move describe).

(** What the measures of a page leave alone. *)
Definition same_core m m' : Prop :=
  status_row m' = status_row m ∧ releases m' = releases m ∧ activations m' = activations m ∧ episodes m' = episodes m.

Lemma commit_measures_moves page m m' :
  Forall (λ o, one_opportunity (Measurement.value o)) page → for_each commit_measurement m page = Ok m' →
  rtc move m m' ∧ same_core m m'.
Proof.
  intros Hall. revert m. induction Hall as [|o page Ho _ IH]; intros m; cbn [for_each]; [by intros [= <-]|].
  intros (m1 & H1 & H)%rbind_Ok. destruct (IH _ H) as [Hs (A1 & A2 & A3 & A4)].
  destruct (commit_measurement_core _ _ _ H1) as (B1 & B2 & B3 & B4).
  split; [|by unfold same_core; rewrite A1, A2, A3, A4]. eapply rtc_l; [by eapply move_measure|done].
Qed.

Lemma insert_episode_status m e m' : insert_episode m e = Ok m' → status_row m' = status_row m.
Proof. unfold insert_episode. intros (bytes & _ & [= <-])%rbind_Ok. by case_match. Qed.

Lemma commit_page_moves m s page found m' :
  monitor_status m = Ok s → Forall (λ o, one_opportunity (Measurement.value o)) page →
  (found = [] ∨ ∃ e, found = [e] ∧ Forall (λ row, episode_pending row = false) (episodes m) ∧ regression_of m e ∧
     Episode.state e = EpisodeState.Diagnosed) →
  ∀ s', MonitorStatus.active s' = MonitorStatus.active s → MonitorStatus.previous s' = MonitorStatus.previous s →
  monitor_commit_page m s' page found = Ok m' → rtc move m m'.
Proof.
  intros Hs Hpage Hfound s' Ha Hp. unfold monitor_commit_page. intros (m1 & H1 & (m2 & H2 & H3)%rbind_Ok)%rbind_Ok.
  destruct (commit_measures_moves _ _ _ Hpage H1) as [Hm1 (A1 & A2 & A3 & A4)].
  assert (Hm2 : rtc move m1 m2 ∧ status_row m2 = status_row m1).
  { destruct Hfound as [->|(e & -> & Hnone & Hreg & Hd)]; [by injection H2 as <-|]. cbn [for_each] in H2.
    apply rbind_Ok in H2 as (m3 & H2 & [= <-]). split; [|by eapply insert_episode_status]. apply rtc_once.
    eapply move_found; [by rewrite A4| |done|done]. apply (extends_regression m); [|done].
    unfold extends. rewrite A2, A3. split; [done|]. exists []. by rewrite app_nil_r. }
  destruct Hm2 as [Hm2 A5]. etrans; [exact Hm1|]. etrans; [exact Hm2|]. apply rtc_once.
  eapply (move_status _ _ _ s); [|done..]. unfold monitor_status in *. by rewrite A5, A1.
Qed.

Lemma read_page_moves db m files build m' files' :
  read_page db m files build = Ok (m', files') → rtc move m m' ∧ reads_kept files files'.
Proof.
  unfold read_page. intros (s & Hs & (records & _ & (i & Hi & (m1 & Hm & [= <- <-])%rbind_Ok)%rbind_Ok)%rbind_Ok)%rbind_Ok.
  assert (inspected m files s i) as [H1 H2 H3 H4 H5].
  { apply (for_each_inv (λ _ i, inspected m files s i)) in Hi; [done|split; [constructor|by left|done|done|apply reads_kept_refl]|].
    intros seen record j j' _ Hj Hr. by eapply inspect_inspected. }
  split; [|exact H5]. eapply (commit_page_moves m s); [exact Hs|exact H1|exact H2| | |exact Hm]; done.
Qed.

(** ** The operations of the host *)

Record grown_monitor w w' : Prop := {
  gm_moves : rtc move (monitor_db w) (monitor_db w');
  gm_journal : journal_db w' = journal_db w;
  gm_files : reads_kept (monitor_files w) (monitor_files w');
}.
Definition good_monitor w : Prop := monitor_ok describe (monitor_db w).

#[local] Instance grown_monitor_preorder : PreOrder grown_monitor.
Proof.
  split.
  - intros w. split; [done..|apply reads_kept_refl].
  - intros w1 w2 w3 [A1 A2 A3] [B1 B2 B3]. split; [by etrans|by rewrite B2|by eapply reads_kept_trans].
Qed.
#[local] Instance grown_monitor_good : Keeps good_monitor grown_monitor.
Proof. intros w w' Hw [Hm _ _]. by eapply monitor_moves_ok. Qed.
#[local] Notation triple := (Transactions.triple good_monitor grown_monitor).

Lemma store_query_triple {A} (P : MonitorBooks → Prop) (f : MonitorDb → result A StoreError.t) :
  triple P (store_query f) (λ x w, P w ∧ f (monitor_db w) = Ok x).
Proof. apply triple_query. by intros w x _ HP Hf%map_err_Ok. Qed.

(** A transaction of the store is a sequence of moves. *)
Lemma store_write_triple {A} P (f : MonitorDb → result (MonitorDb * A) StoreError.t) (Q : A → MonitorBooks → Prop) :
  (∀ w m x, monitor_ok describe (monitor_db w) → P w → f (monitor_db w) = Ok (m, x) →
     rtc move (monitor_db w) m ∧ Q x (w <| monitor_db := m |>)) →
  triple P (store_write f) Q.
Proof.
  intros Hf. apply triple_transaction. intros w w' x Hg HP ([m y] & Hm%map_err_Ok & [= <- <-])%rbind_Ok.
  destruct (Hf w m y Hg HP Hm) as [Hmoves HQ]. split; [|done]. split; [done..|apply reads_kept_refl].
Qed.

Lemma store_update_triple P (f : MonitorDb → result MonitorDb StoreError.t) (Q : MonitorBooks → Prop) :
  (∀ w m, monitor_ok describe (monitor_db w) → P w → f (monitor_db w) = Ok m →
     rtc move (monitor_db w) m ∧ Q (w <| monitor_db := m |>)) →
  triple P (store_update f) (λ _, Q).
Proof.
  intros Hf. apply store_write_triple. intros w m [] Hok HP (m' & Hm & [= <-])%rbind_Ok. by apply Hf.
Qed.

Lemma put_file_triple (F : MonitorDb → Prop) bytes :
  triple (λ w, F (monitor_db w)) (put_file bytes) (λ _ w, F (monitor_db w)).
Proof.
  apply triple_transaction. intros w w' d _ HF ([files d'] & Hput%map_err_Ok%map_err_Ok & [= <- <-])%rbind_Ok.
  split; [|done]. split; [done..|by eapply put_keeps].
Qed.

(** *** What an evaluation keeps *)

Definition settled m : Prop := Forall (λ row, episode_pending row = false) (episodes m).

Lemma save_settles m e m' :
  monitor_ok describe m → open_episode m e → EpisodeState.pending (Episode.state e) = false →
  monitor_save_episode m e = Ok m' → settled m'.
Proof.
  intros Hm (row0 & e0 & Hin0 & Hd0 & Hp0 & _) Hnp. unfold monitor_save_episode. intros (bytes & Hb%encode_decode & [= <-])%rbind_Ok.
  apply Forall_forall. intros row [->|[Hrow Hne]]%update_episode_elem.
  - unfold episode_pending. cbn. by rewrite Hb.
  - destruct (episode_pending row) eqn:Hp; [|done]. destruct Hne. apply (mo_open _ _ Hm row (Episode.id e, row0)); [done..|].
    unfold episode_pending. cbn. by rewrite Hd0.
Qed.

Lemma save_open m e m' :
  open_episode m e → EpisodeState.pending (Episode.state e) = true → monitor_save_episode m e = Ok m' → open_episode m' e.
Proof.
  intros (row0 & e0 & Hin0 & _) Hp. unfold monitor_save_episode. intros (bytes & Hb%encode_decode & [= <-])%rbind_Ok.
  exists bytes, e. split_and!; [|done..]. unfold update_episode. cbn. apply list_elem_of_fmap. exists (Episode.id e, row0).
  by rewrite decide_True.
Qed.

Lemma open_further m e e' : same_episode e' e → open_episode m e → open_episode m e'.
Proof.
  intros (E1 & E2 & E3 & E4) (row & e0 & Hin & Hd & Hp & (F1 & F2 & F3 & F4)). exists row, e0.
  rewrite E1. split_and!; [done..|]. unfold same_episode. by rewrite E1, E2, E3, E4.
Qed.

Lemma save_not_promoted m e m' :
  open_episode m e → match Episode.state e with EpisodeState.Promoted _ => False | _ => True end →
  monitor_save_episode m e = Ok m' → rtc move m m'.
Proof. intros Ho Hs H. apply rtc_once. eapply move_episode; [done| |done]. intros id E. by rewrite E in Hs. Qed.

(** The episode under evaluation, with the releases it is about. *)
Record evaluating e (before parent : Release.t) m : Prop := {
  ev_open : open_episode m e;
  ev_before : monitor_release m (Episode.regressed e) = Ok before;
  ev_parent : monitor_release m (Episode.parent e) = Ok parent;
}.
Lemma evaluating_further e e' before parent m : same_episode e' e → evaluating e before parent m → evaluating e' before parent m.
Proof. intros Hs [H1 H2 H3]. pose proof Hs as (_ & E2 & E3 & _). split; rewrite ?E2, ?E3; [by eapply open_further|done..]. Qed.
Lemma save_evaluating e before parent m m' :
  evaluating e before parent m → EpisodeState.pending (Episode.state e) = true → monitor_save_episode m e = Ok m' →
  evaluating e before parent m'.
Proof.
  intros [H1 H2 H3] Hp Hs. pose proof (save_open _ _ _ H1 Hp Hs). unfold monitor_save_episode in Hs.
  by apply rbind_Ok in Hs as (bytes & _ & [= <-]).
Qed.

(** What depends on the releases and the episodes alone. *)
Definition about_episodes (F : MonitorDb → Prop) : Prop :=
  ∀ m m', releases m' = releases m → episodes m' = episodes m → F m → F m'.
Lemma settled_about : about_episodes settled.
Proof. unfold settled. by intros m m' _ ->. Qed.
Lemma open_about e : about_episodes (λ m, open_episode m e).
Proof. unfold open_episode. by intros m m' _ ->. Qed.
Lemma evaluating_about e before parent : about_episodes (evaluating e before parent).
Proof. intros m m' Hr He [H1 H2 H3]. split; [by eapply open_about|unfold monitor_release in *; by rewrite Hr..]. Qed.

(** *** Triples *)

Lemma count_evaluation_triple F e failures measured error :
  about_episodes F → (failures ≤ 1)%N → (measured ≤ 1)%N →
  triple (λ w, F (monitor_db w)) (count_evaluation e failures measured error) (λ _ w, F (monitor_db w)).
Proof.
  intros HF Hf Hm. eapply triple_bind; [apply store_query_triple|]. intros s. cbv zeta. apply store_update_triple.
  intros w m _ [HFw Hs] H. assert (Hpage : Forall (λ o, one_opportunity (Measurement.value o))
    [Measurement.mk (Episode.id e) (Measure.new (Episode.cohort e) Signature.EvaluatorFailure 1 failures measured)])
    by by apply Forall_singleton.
  split; [eapply (commit_page_moves _ s); [done|done|by left| | |done]; by case_match|]. unfold monitor_commit_page in H.
  apply rbind_Ok in H as (m1 & H1 & (m2 & [= <-] & H3)%rbind_Ok).
  destruct (commit_measures_moves _ _ _ Hpage H1) as [_ (_ & A2 & _ & A4)].
  unfold monitor_save_status in H3. apply rbind_Ok in H3 as (bytes & _ & [= <-]). cbn. by apply (HF (monitor_db w)).
Qed.

Lemma close_episode_triple e state :
  EpisodeState.pending state = false → (∀ id, state ≠ EpisodeState.Promoted id) →
  triple (λ w, open_episode (monitor_db w) e) (close_episode e state) (λ _ w, settled (monitor_db w)).
Proof.
  intros Hnp Hstate. apply store_update_triple. intros w m Hok Ho H.
  assert (Ho' : open_episode (monitor_db w) (e <| Episode.state := state |>)) by by eapply open_further.
  split; [|by eapply save_settles]. eapply save_not_promoted; [done| |done]. cbn. destruct state; try done. by edestruct Hstate.
Qed.

Lemma activate_operator m expected release reason m' id :
  monitor_activate m expected release reason None = Ok (m', id) → rtc move m m'.
Proof. intros H. apply rtc_once. by eapply move_operator. Qed.

Lemma activate_recovery m e release before parent reason m' id :
  monitor_ok describe m → evaluating e before parent m → Release.parent release = Some (Episode.regressed e) →
  Release.native_read_output_bytes release = Release.native_read_output_bytes parent →
  evaluated describe e (Release.native_read_output_bytes before) (Release.native_read_output_bytes parent) →
  monitor_activate m (Episode.regressed e) release reason (Some e) = Ok (m', id) → rtc move m m' ∧ settled m'.
Proof.
  intros Hm [H1 H2 H3] Hp Hb Hev H. split; [apply rtc_once; by eapply move_recovery|].
  apply activate_unfold in H as (s & bytes & m2 & Hval & Hs & Hact & Hid & Hbytes & Hsave & H).
  destruct (activated_ok describe _ _ _ _ _ _ _ _ Hm Hs Hact Hval Hid Hbytes Hsave) as (Hok2 & _ & Hep & _).
  apply (save_settles m2 (e <| Episode.state := EpisodeState.Promoted id |>)); [done| |done|exact H]. apply (open_further _ e); [done|]. unfold open_episode in *. by rewrite Hep.
Qed.

Lemma conclude_triple e before parent verdict :
  (∀ result, verdict = Ok result → index result "accepted" = VBool true →
     evaluated describe e (Release.native_read_output_bytes before) (Release.native_read_output_bytes parent)) →
  triple (λ w, evaluating e before parent (monitor_db w)) (conclude e parent verdict) (λ _ w, settled (monitor_db w)).
Proof.
  intros Hacc. unfold conclude. destruct verdict as [result|reason].
  - eapply triple_bind; [apply triple_query_any|]. intros bytes. cbn beta.
    eapply triple_bind; [apply put_file_triple|]. intros d. cbv zeta beta. set (e' := e <| Episode.result := Some d |>).
    assert (Hsame : same_episode e' e) by done.
    eapply triple_bind; [eapply (triple_weaken _ (λ w, evaluating e' before parent (monitor_db w)))|].
    + apply (count_evaluation_triple _ _ _ _ _ (evaluating_about e' before parent)); done.
    + intros w. by apply evaluating_further.
    + intros x w HQ. exact HQ.
    + intros []; cbn beta. case_bool_decide as Haccepted; cbn [negb].
      * eapply triple_bind; [|intros id; by apply triple_ret; intros w HQ; exact HQ].
        apply store_write_triple. intros w m id Hok Hev H.
        eapply (activate_recovery _ e' _ before parent) in H; [exact H|done..|]. by apply (Hacc result).
      * eapply triple_weaken; [by apply (close_episode_triple e')|by intros w [? _ _]|done].
  - eapply triple_bind; [eapply triple_weaken; [by apply close_episode_triple|by intros w [? _ _]|intros x w HQ; exact HQ]|].
    intros []. cbn beta. by apply (count_evaluation_triple _ _ _ _ _ settled_about).
Qed.

Lemma evaluate_episode_triple v e :
  triple (λ w, open_episode (monitor_db w) e) (evaluate_episode describe artifact_error parse_error v e)
    (λ _ w, settled (monitor_db w)).
Proof.
  eapply triple_bind; [apply store_query_triple|]. intros status. destruct (negb _).
  { eapply triple_weaken; [by apply close_episode_triple|by intros w [? _]|done]. }
  eapply triple_bind; [apply store_query_triple|]. intros before. eapply triple_bind; [apply store_query_triple|]. intros parent. cbv zeta.
  set (e1 := e <| Episode.state := EpisodeState.Evaluating |>).
  eapply triple_bind; [apply (store_update_triple _ _ (λ w, evaluating e1 before parent (monitor_db w)))|].
  { intros w m _ [[[Ho _] Hbefore] Hparent] H. assert (Hev : evaluating e1 before parent (monitor_db w)) by (split; [by apply (open_further _ e)|done..]).
    split; [eapply save_not_promoted; [exact (ev_open _ _ _ _ Hev)|done|exact H]|by eapply save_evaluating]. }
  intros []. eapply triple_bind; [by apply (count_evaluation_triple _ _ _ _ _ (evaluating_about e1 before parent))|]. intros [].
  eapply triple_bind; [apply triple_query_any|]. intros bytes.
  eapply triple_bind; [apply triple_query_any|]. intros [].
  eapply triple_bind; [apply put_file_triple|]. intros candidate. cbv zeta. set (e2 := e1 <| Episode.candidate := Some candidate |>).
  eapply triple_bind; [apply (store_update_triple _ _ (λ w, evaluating e2 before parent (monitor_db w)))|].
  { intros w m _ Hev H. apply (evaluating_further _ e2) in Hev; [|done].
    split; [eapply save_not_promoted; [exact (ev_open _ _ _ _ Hev)|done|exact H]|by eapply save_evaluating]. }
  intros []. eapply triple_bind.
  { apply (triple_query _ _ (λ verdict w, evaluating e2 before parent (monitor_db w) ∧ ∀ result, verdict = Ok result →
      index result "accepted" = VBool true → evaluated describe e2 (Release.native_read_output_bytes before) (Release.native_read_output_bytes parent))).
    intros w verdict _ Hev [= <-]. split; [done|]. intros result. apply evaluate_accepted. by intros d text; apply artifact_text. }
  intros verdict w w' r Hg [Hev Hacc]. by apply (conclude_triple e2 before parent).
Qed.

Lemma step_episode_triple v build e :
  triple (λ w, open_episode (monitor_db w) e) (step_episode describe artifact_error parse_error v build e)
    (λ _ w, settled (monitor_db w)).
Proof.
  unfold step_episode. case_bool_decide.
  - eapply triple_bind; [by apply close_episode_triple|]. intros []. by apply (count_evaluation_triple _ _ _ _ _ settled_about).
  - destruct (negb _); [by apply close_episode_triple|]. apply evaluate_episode_triple.
Qed.

Lemma pending_open m e : monitor_ok describe m → monitor_pending m = Ok (Some e) → open_episode m e.
Proof.
  intros Hm. unfold monitor_pending. destruct (List.find episode_pending (episodes m)) as [[d row]|] eqn:Hf; [|done].
  apply List.find_some in Hf as [Hin%list_elem_of_In Hp]. intros (e' & Hd%ok_or_Ok & [= ->])%rbind_Ok.
  unfold episode_pending in Hp. cbn in Hp. rewrite Hd in Hp. destruct (mo_episodes _ _ Hm _ _ Hin) as (e0 & Hd0 & <- & _).
  assert (e0 = e) as -> by congruence. by exists row, e.
Qed.

Lemma tick_inner_triple v build :
  triple (λ _, True) (monitor_tick_inner describe artifact_error parse_error v build) (λ _ w, settled (monitor_db w)).
Proof.
  eapply triple_bind; [apply (triple_transaction _ _ (λ _ _, True))|].
  { intros w w' [] _ _ ([m files] & Hr%map_err_Ok%read_page_moves & [= <-])%rbind_Ok. destruct Hr. done. }
  intros []. eapply triple_bind; [apply (triple_query _ _ (λ pending w, match pending with
      | Some e => open_episode (monitor_db w) e | None => settled (monitor_db w) end))|].
  { intros w [e|] Hok _ Hp%map_err_Ok; [by apply pending_open|by apply pending_none]. }
  intros [e|]; [apply step_episode_triple|by apply triple_ret].
Qed.

Lemma monitor_tick_triple v build :
  triple (λ _, True) (monitor_tick describe artifact_error parse_error v build) (λ _ w, settled (monitor_db w)).
Proof.
  eapply triple_bind; [eapply triple_attempt_any, tick_inner_triple|]. intros [[]|err]; [by apply triple_ret|].
  eapply triple_bind; [|intros r; by apply triple_query; intros w x _ _ [=]].
  eapply (triple_attempt_any _ _ (λ _ _, True)), store_update_triple. intros w m _ _ (s & Hs & H)%rbind_Ok. split; [|done].
  apply rtc_once. eapply (move_status describe _ _ s); [exact Hs| | |exact H]; done.
Qed.

Lemma install_triple expected bytes note :
  triple (λ _, True) (install_read_behavior expected bytes note) (λ _ _, True).
Proof. apply store_write_triple. intros w m id _ _ H. split; [by eapply activate_operator|done]. Qed.
Lemma rollback_triple expected : triple (λ _, True) (rollback_read_behavior expected) (λ _ _, True).
Proof.
  eapply triple_bind; [apply triple_query_any|]. intros s. eapply triple_bind; [apply triple_query_any|]. intros previous.
  eapply triple_bind; [apply triple_query_any|]. intros release. apply store_write_triple.
  intros w m id _ _ H. split; [by eapply activate_operator|done].
Qed.
Lemma sampling_triple every : triple (λ _, True) (set_monitor_sampling every) (λ _ _, True).
Proof.
  eapply triple_bind; [apply triple_query_any|]. intros []. apply store_update_triple.
  intros w m _ _ (s & Hs & H)%rbind_Ok. split; [|done]. apply rtc_once. eapply (move_status describe _ _ s); [exact Hs| | |exact H]; done.
Qed.

(** ** Runs *)

(** What happens to the books: the operations of the host, opening the store again, the
    origin of a session, and what the rest of the program does to journals and artifacts. *)
Inductive monitor_step w w' : Prop :=
| step_install expected bytes note r : install_read_behavior expected bytes note w = (w', r) → monitor_step w w'
| step_rollback expected r : rollback_read_behavior expected w = (w', r) → monitor_step w w'
| step_sampling every r : set_monitor_sampling every w = (w', r) → monitor_step w w'
| step_tick v build r : monitor_tick describe artifact_error parse_error v build w = (w', r) → monitor_step w w'
| step_open m : initialize (monitor_db w) = Ok m → w' = w <| monitor_db := m |> → monitor_step w w'
| step_origin session origin m :
    monitor_set_origin (monitor_db w) session origin = Ok m → w' = w <| monitor_db := m |> → monitor_step w w'
| step_elsewhere : monitor_db w' = monitor_db w → monitor_step w w'.

Definition monitor_reachable w : Prop := ∃ w0, initialize empty_monitor = Ok (monitor_db w0) ∧ rtc monitor_step w0 w.

Lemma reopened_ok m m' :
  monitor_ok describe m → initialize m = Ok m' → monitor_ok describe m' ∧ facts m' = facts m ∧ measures m' = measures m.
Proof.
  intros Hm. destruct (ok_status_row _ _ Hm) as [row Hrow]. unfold initialize.
  intros (id & Hid%ok_or_Ok & (bytes & Hb & (bytes' & _ & H)%rbind_Ok)%rbind_Ok)%rbind_Ok.
  fold (with_release m id bytes) in H. destruct (with_release_fields m id bytes) as (Fst & Fac & Fep & Ff & Fm & Hx).
  rewrite Fst, Hrow in H. injection H as <-. split; [|done]. destruct Hm as [(s & Hs & [S1 S2 S3 S4]) H2 H3 H4 H5].
  destruct (with_release_loads m Release.baseline id bytes H2 Hid eq_refl Hb) as [Hall _].
  split; rewrite ?Fep; [|exact Hall|done| |done].
  - exists s. unfold monitor_status in *. rewrite Fst. split; [done|]. split; rewrite ?Fac; try done.
    + destruct S1 as [r S1]. exists r. by eapply extends_release.
    + intros p [r Hr]%S2. exists r. by eapply extends_release.
  - intros id' row' (e & ? & ? & ?)%H4. exists e. split_and!; [done..|]. by eapply extends_episode.
Qed.

Definition sums_or_collision m : Prop := (N.of_nat (size (facts m)) < 2 ^ 64)%N → sums m ∨ collision.

Lemma monitor_step_ok w w' : monitor_step w w' → good_monitor w →
  good_monitor w' ∧ (sums_or_collision (monitor_db w) → sums_or_collision (monitor_db w')).
Proof.
  intros Hstep Hg. assert (Hgrown : grown_monitor w w' → good_monitor w' ∧ (sums_or_collision (monitor_db w) → sums_or_collision (monitor_db w'))).
  { intros Hw. pose proof (keeps _ _ Hg Hw) as Hg'. split; [done|]. destruct Hw as [Hmoves _ _]. intros Hs Hsize.
    eapply (moves_sums describe); [exact Hg|done..|]. apply Hs. pose proof (moves_size describe _ _ Hg Hmoves). lia. }
  assert (Hsame : ∀ m, status_row m = status_row (monitor_db w) → releases m = releases (monitor_db w) →
    activations m = activations (monitor_db w) → episodes m = episodes (monitor_db w) → facts m = facts (monitor_db w) →
    measures m = measures (monitor_db w) → monitor_ok describe m ∧ (sums_or_collision (monitor_db w) → sums_or_collision m)).
  { intros m Hst Hr Ha He Hf Hme. split; [by eapply (monitor_ok_same describe (monitor_db w))|].
    unfold sums_or_collision. rewrite Hf. intros Hs Hsize. destruct (Hs Hsize); [left|by right]. by eapply sums_same. }
  destruct Hstep as [expected bytes note r H|expected r H|every r H|v build r H|m H ->|session origin m H ->|H].
  - apply Hgrown. by destruct (install_triple expected bytes note w w' r Hg I H).
  - apply Hgrown. by destruct (rollback_triple expected w w' r Hg I H).
  - apply Hgrown. by destruct (sampling_triple every w w' r Hg I H).
  - apply Hgrown. by destruct (monitor_tick_triple v build w w' r Hg I H).
  - destruct (reopened_ok _ _ Hg H) as (Hok & Hf & Hme). split; [done|]. unfold sums_or_collision. cbn. rewrite Hf. intros Hs Hsize.
    destruct (Hs Hsize); [left|by right]. by eapply sums_same.
  - unfold monitor_set_origin in H. apply rbind_Ok in H as (bytes & _ & ([] & _ & [= <-])%rbind_Ok). by apply Hsame.
  - unfold good_monitor. rewrite H. done.
Qed.

Lemma monitor_reachable_ok w : monitor_reachable w → good_monitor w ∧ sums_or_collision (monitor_db w).
Proof.
  intros (w0 & Hinit & Hs). pose proof (initialize_ok describe _ Hinit) as [H0 Hsum].
  assert (Hg : good_monitor w0 ∧ sums_or_collision (monitor_db w0)) by by split; [|left].
  clear H0 Hsum Hinit. induction Hs as [|w1 w2 w3 Hstep _ IH]; [done|]. apply IH. destruct Hg as [Hg Hsum].
  destruct (monitor_step_ok _ _ Hstep Hg). auto.
Qed.

(** *** The cursor *)

Lemma inspected_cursor db m build records i i' :
  for_each (inspect db m build) i records = Ok i' →
  MonitorStatus.cursor (Inspection.status i') = next_cursor (MonitorStatus.cursor (Inspection.status i)) records.
Proof.
  induction records as [|record records IH] using rev_ind; [by intros [= <-]|]. rewrite for_each_app.
  intros (j & _ & (k & H & [= <-])%rbind_Ok)%rbind_Ok. unfold inspect in H. apply rbind_Ok in H as (? & _ & [= <-]).
  unfold next_cursor. by rewrite last_snoc.
Qed.

Lemma commit_page_status m s page found m' :
  is_Some (status_row m) → monitor_commit_page m s page found = Ok m' → monitor_status m' = Ok s.
Proof.
  unfold monitor_commit_page. intros Hrow (m1 & H1 & (m2 & H2 & H3)%rbind_Ok)%rbind_Ok.
  assert (status_row m1 = status_row m) as E1.
  { apply (for_each_inv (λ _ m1, status_row m1 = status_row m)) in H1; [done|done|]. intros seen o m3 m4 _ <- H.
    by apply commit_measurement_core in H as [? _]. }
  assert (status_row m2 = status_row m1) as E2.
  { apply (for_each_inv (λ _ m2, status_row m2 = status_row m1)) in H2; [done|done|]. intros seen e m3 m4 _ <- H.
    by eapply insert_episode_status. }
  by apply save_status_spec in H3 as [? _]; [|rewrite E2, E1].
Qed.

(** ** Theorems *)

(** C29: The journal is read through: the page of a tick is what follows the cursor, its
    records are verified, and the cursor is put behind the last of them, in the
    transaction that commits their measures. Nothing is skipped and nothing is read twice,
    and the page holds something unless the end is reached or one record alone exceeds
    the bound of a page. *)
Theorem journal_read_through db m files build m' files' :
  sequences_unique db → read_page db m files build = Ok (m', files') →
  ∃ s s' n records, monitor_status m = Ok s ∧ monitor_status m' = Ok s' ∧ (n ≤ 64)%nat ∧
    decoded db (take n (rows_after db (MonitorStatus.cursor s))) records ∧
    rows_after db (MonitorStatus.cursor s') = drop n (rows_after db (MonitorStatus.cursor s)) ∧
    ((∀ row record bytes, journal_record db row = Ok record → to_vec record = Some bytes →
        (str_len bytes ≤ MAX_JOURNAL_PAGE_BYTES)%N) → records = [] → rows_after db (MonitorStatus.cursor s) = []).
Proof.
  unfold read_page. intros Hu (s & Hs & (records & Hp & (i & Hi & (m1 & Hm & [= <- <-])%rbind_Ok)%rbind_Ok)%rbind_Ok)%rbind_Ok.
  apply commit_page_status in Hm; [|by eapply status_row_some]. apply inspected_cursor in Hi. cbn in Hi.
  destruct (journal_page_continues _ _ _ _ Hu Hp) as (n & Hn & Hd & Hnext & Hfit). eexists s, _, n, records.
  split_and!; [done|exact Hm|lia|done| |done]. cbn. by rewrite Hi.
Qed.

(** C30: In every reachable state of the monitor the release that is active loads, agrees
    with its digest and is valid, and so does the one a rollback goes back to; the
    activations lead from the baseline to the active release, each from where the one
    before it ended; episodes have identities of their own, each was found where a
    release returns less than its parent can, and at most one of them is open. *)
Theorem monitor_sound w :
  monitor_reachable w →
  let m := monitor_db w in
  (∃ s, monitor_status m = Ok s ∧ status_sound m s) ∧ NoDup (episodes m).*1 ∧
  (∀ id row, (id, row) ∈ episodes m → ∃ e, from_slice row = Some e ∧ Episode.id e = id ∧ regression_of m e) ∧
  ∀ a b, a ∈ episodes m → b ∈ episodes m → episode_pending a = true → episode_pending b = true → a.1 = b.1.
Proof.
  intros [[H1 H2 H3 H4 H5] _]%monitor_reachable_ok. cbv zeta. split_and!; try done.
  intros id row (e & ? & ? & Hr & _)%H4. by exists e.
Qed.


(** C26: A promoted release was earned: the configuration that was frozen before the checks
    is that of the regressed release's parent, the control case failed with the
    capacity of the regressed release, with the capacity of the parent the regression
    and every held-out case passed twice, and the release that was activated over the
    regressed one differs from the parent in no capacity. *)
Theorem promotion_earned w id row e release :
  monitor_reachable w → (id, row) ∈ episodes (monitor_db w) → from_slice row = Some e →
  Episode.state e = EpisodeState.Promoted release → earned describe (monitor_db w) e release.
Proof.
  intros [Hok _]%monitor_reachable_ok Hin Hd Hs. destruct (mo_episodes _ _ Hok _ _ Hin) as (e' & Hd' & _ & [_ He]).
  assert (e' = e) as -> by congruence. by apply He.
Qed.

(** C28: A tick that succeeds leaves no episode open: what was found is evaluated, and what
    was left unfinished by a failure is closed without being evaluated again. *)
Theorem tick_settles v build w w' :
  monitor_reachable w → monitor_tick describe artifact_error parse_error v build w = (w', Ok tt) →
  monitor_pending (monitor_db w') = Ok None.
Proof.
  intros [Hok _]%monitor_reachable_ok H. destruct (monitor_tick_triple v build w w' _ Hok I H) as [_ Hs]. specialize (Hs tt eq_refl).
  unfold monitor_pending. destruct (List.find episode_pending (episodes (monitor_db w'))) as [row|] eqn:Hf; [|done].
  apply List.find_some in Hf as [Hin%list_elem_of_In Hp]. unfold settled in Hs. rewrite Forall_forall in Hs. by rewrite Hs in Hp.
Qed.
End host.
