(* ===== verification/MonitorWitnesses.v ===== *)
(** * A monitor at work

    A concrete run at which the theorems of [MonitorGuarantees] apply: an operator
    releases a smaller read envelope, a session reads a file under it and receives less
    than it asked for, and a tick finds the regression, evaluates it and releases the
    parent's envelope again. *)

From S2P Require Import Prelude Transactions Digest Codec Contract State Artifacts Workspace Input ArtifactGraph Journal.
From S2P Require Import Codecs Replay JsonValue Cost Secrets Conversation Admission Session Context SessionStore SessionCommands.
From S2P Require Import SessionWitnesses JournalPage Submissions Media HostQueue Decoder Requests Capabilities HostTools.
From S2P Require Import Monitor MonitorHost MonitorGuarantees.

#[local] Existing Instance checksum_sha256.
#[local] Existing Instance SessionCommand_eq_dec.
#[local] Existing Instance SessionEvent_eq_dec.
#[local] Existing Instance SessionState_eq_dec.
#[local] Existing Instance demo_host.
#[local] Existing Instance demo_config_serde.
#[local] Existing Instance media_base64.
#[local] Existing Instance media_reviews.

(** ** Codecs *)

#[local] Instance codec_target : Codec TargetProfile.t.
Proof.
  refine (codec_via (B := Digest * Digest * Digest * Digest * Channel)
    (λ t, (TargetProfile.model t, TargetProfile.protocol t, TargetProfile.environment t, TargetProfile.task_profile t,
           TargetProfile.channel t))
    (λ '(a, b, c, d, e), Some (TargetProfile.mk a b c d e)) _).
  abstract (by intros []).
Defined.
#[local] Instance codec_cohort : Codec Cohort.t.
Proof.
  refine (codec_via (B := TargetProfile.t * option Digest * Digest * option Digest)
    (λ c, (Cohort.target c, Cohort.build c, Cohort.behavior c, Cohort.release c))
    (λ '(a, b, c, d), Some (Cohort.mk a b c d)) _).
  abstract (by intros []).
Defined.
#[local] Instance codec_release : Codec Release.t.
Proof.
  refine (codec_via (B := option Digest * N * string)
    (λ r, (Release.parent r, Release.native_read_output_bytes r, Release.note r)) (λ '(a, b, c), Some (Release.mk a b c)) _).
  abstract (by intros []).
Defined.
#[local] Instance codec_class : Codec SignalClass.t.
Proof.
  refine (codec_enum [SignalClass.Operational; SignalClass.TaskQualitySignal; SignalClass.EvaluatorFailure] _).
  abstract (intros []; set_solver).
Defined.
#[local] Instance codec_signature : Codec Signature.t.
Proof.
  refine (codec_enum [Signature.JobOutcome; Signature.UnresolvedEffect; Signature.UnresolvedJob; Signature.ProviderError;
    Signature.MissingUsage; Signature.VerificationFailure; Signature.UserCorrection; Signature.ReadUnderfill;
    Signature.EvaluatorFailure; Signature.Cost] _).
  abstract (intros []; set_solver).
Defined.
#[local] Instance codec_monitor_origin : Codec MonitorOrigin.t.
Proof. refine (codec_enum [MonitorOrigin.User; MonitorOrigin.Repair; MonitorOrigin.Evaluation] _). abstract (intros []; set_solver). Defined.
#[local] Instance codec_measure : Codec Measure.t.
Proof.
  refine (codec_via (B := SignalClass.t * Cohort.t * Signature.t * N * N * N * N)
    (λ m, (Measure.class m, Measure.cohort m, Measure.signature m, Measure.opportunities m, Measure.failures m, Measure.measured m,
           Measure.recorded_usd m))
    (λ '(a, b, c, d, e, f, g), Some (Measure.mk a b c d e f g)) _).
  abstract (by intros []).
Defined.
#[local] Instance codec_sampling : Codec Sampling.t.
Proof.
  refine (codec_via (B := N * N * N * N * N * N)
    (λ s, (Sampling.considered s, Sampling.selected s, Sampling.skipped_sampling s, Sampling.skipped_origin s,
           Sampling.skipped_no_hypothesis s, Sampling.skipped_capacity s))
    (λ '(a, b, c, d, e, f), Some (Sampling.mk a b c d e f)) _).
  abstract (by intros []).
Defined.
#[local] Instance codec_status : Codec MonitorStatus.t.
Proof.
  refine (codec_via (B := N * N * Sampling.t * option string * Digest * option Digest)
    (λ s, (MonitorStatus.cursor s, MonitorStatus.sample_every s, MonitorStatus.sampling s, MonitorStatus.last_error s,
           MonitorStatus.active s, MonitorStatus.previous s))
    (λ '(a, b, c, d, e, f), Some (MonitorStatus.mk a b c d e f)) _).
  abstract (by intros []).
Defined.
#[local] Instance codec_episode_state : Codec EpisodeState.t.
Proof.
  refine (codec_via (B := N * string * option Digest)
    (λ s, match s with
          | EpisodeState.Diagnosed => (0%N, "", None)
          | EpisodeState.Evaluating => (1%N, "", None)
          | EpisodeState.Rejected reason => (2%N, reason, None)
          | EpisodeState.Uncertain reason => (3%N, reason, None)
          | EpisodeState.Promoted release => (4%N, "", Some release)
          | EpisodeState.Superseded => (5%N, "", None)
          end)
    (λ '(n, reason, release), match n with
          | 0%N => Some EpisodeState.Diagnosed
          | 1%N => Some EpisodeState.Evaluating
          | 2%N => Some (EpisodeState.Rejected reason)
          | 3%N => Some (EpisodeState.Uncertain reason)
          | 4%N => EpisodeState.Promoted <$> release
          | _ => Some EpisodeState.Superseded
          end) _).
  abstract (by intros []).
Defined.
#[local] Instance codec_episode : Codec Episode.t.
Proof.
  refine (codec_via (B := Digest * MonitorOrigin.t * N * Cohort.t * Digest * Digest * string * Digest * Digest * Digest * Digest
                          * option Digest * option Digest * EpisodeState.t)
    (λ e, (Episode.id e, Episode.origin e, Episode.sequence e, Episode.cohort e, Episode.regressed e, Episode.parent e,
           Episode.hypothesis e, Episode.source_diff e, Episode.trace_receipt e, Episode.regression e, Episode.heldout e,
           Episode.candidate e, Episode.result e, Episode.state e))
    (λ '(a, b, c, d, e, f, g, h, i, j, k, l, m, n), Some (Episode.mk a b c d e f g h i j k l m n)) _).
  abstract (by intros []).
Defined.
#[local] Instance codec_read_case : Codec ReadCase.t.
Proof.
  refine (codec_via (B := string * N * N) (λ c, (ReadCase.bytes c, ReadCase.offset c, ReadCase.max_bytes c))
    (λ '(a, b, c), Some (ReadCase.mk a b c)) _).
  abstract (by intros []).
Defined.
#[local] Instance codec_candidate_config : Codec CandidateConfig.t.
Proof.
  refine (codec_via (B := N) CandidateConfig.native_read_output_bytes (λ n, Some (CandidateConfig.mk n)) _).
  abstract (by intros []).
Defined.

#[local] Instance monitor_serde : MonitorSerde := {|
  serde_release := codec_serde;
  serde_status := codec_serde;
  serde_measure := codec_serde;
  serde_episode := codec_serde;
  serde_origin := codec_serde;
  serde_measure_key := codec_serde;
  serde_fact_key := codec_serde;
|}.
#[local] Instance monitor_serde_ok : MonitorSerdeOk.
Proof. split; apply _. Qed.

(** Values are marked; the texts of events, which are not, are read as strings. *)
#[local] Instance marked_value : Serde Value := {|
  to_vec v := Some (String "v" (enc v ""));
  from_slice text := match text with String "v" text => codec_from_slice text | _ => Some (VString text) end;
|}.

(** ** The session and its read *)

Definition build : Digest := Eval vm_compute in digest_of "build".
Definition of_release (r : Release.t) : Digest := default (checksum "") (Release.id r).
Definition baseline_id : Digest := Eval vm_compute in of_release Release.baseline.
Definition small : Release.t := Release.mk (Some baseline_id) 4096 "smaller replies".
Definition small_id : Digest := Eval vm_compute in of_release small.

Definition null_digest : Digest := Eval vm_compute in default (checksum "") (of_value VNull).
Definition pinned_manifest : string :=
  enc (RevisionManifest.mk 1 (checksum "p") POLICY_ID (checksum "e") null_digest
    (BehaviorManifest.mk "Work." (Some (PinnedBehavior.mk small_id 4096 (Some build))))) "".
Definition pinned_profile : SessionAdmissionProfile.t := Eval vm_compute in
  SessionAdmissionProfile.mk 1 demo_request
    (SessionAdmissionProfile.bind_revision demo_target
       (ValidatedHarnessRevision.mk pinned_manifest (checksum pinned_manifest) null_digest (checksum "e") POLICY_ID "Work." None)
       (checksum POLICY_ID))
    (CompiledBaseline StoreFixture) (checksum "a") (checksum (enc demo_request "")) pinned_manifest "Work.".

Definition text_of (v : Value) : string := default "" (to_vec v).
Definition read_input : string := Eval vm_compute in
  text_of (VObject [("arguments", VObject [("max_bytes", json_number 400); ("path", VString "input")])]).
Definition read_environment : string := Eval vm_compute in text_of (VObject [("host_build", json_digest build)]).
Definition read_receipt : string := Eval vm_compute in
  text_of (VObject [("backend", VString "host");
    ("tool_result", VObject [("result", VObject [("content", encoded (repeat_text 341 "x")); ("size_bytes", json_number 1000)])])]).
Definition read_job : Job.t :=
  Job.mk 11 1 JobStatus.Running false None None 5 100
    (Some (JobInvocation.mk 1 10 (Some "c1") "read_file" (digest_of read_input) (digest_of read_environment))) None None.
Definition watched_store : ArtifactStore.t := Eval vm_compute in
  stored ["verifier"; "report"; "receipt"; "environment"; read_input; read_environment; read_receipt].

Definition db_of {A B E} (d : A) (r : result (A * B) E) : A := match r with Ok (x, _) => x | Err _ => d end.
Definition watched_tables : Db := Eval vm_compute in
  let append '(db, s) event :=
    match load_state db 7 with
    | Ok (s, head) => default (db, s) (to_option (append_task_event db s head event watched_store))
    | Err _ => (db, s)
    end in
  (foldl append (default empty_db (to_option (insert_task empty_db 7 Replay.demo_created demo_state watched_store)), demo_state)
     [TaskEvent.JobStarted read_job; TaskEvent.JobSettled 11 JobStatus.Succeeded (Some (digest_of read_receipt))]).1.

Definition watched_creation : SessionCreation.t :=
  SessionCreation.mk SessionBranch.default demo_config (Some pinned_profile) None [] 100 None.
Definition watched_commands : list (Uuid * SessionCommand.t) := take 2 demo_commands.
Definition watched_events : list (string * SessionEvent.t) :=
  ("created", SessionEvent.Created watched_creation)
  :: ((λ '(operation, command), (command_text command, SessionEvent.Command operation command 5)) <$> watched_commands).
Definition watched_states : list (string * SessionState.t) :=
  Eval vm_compute in zip ["s1"; "s2"; "s3"] (demo_trace (create 1 watched_creation) watched_commands).
#[local] Instance watched_command_serde : Serde SessionCommand.t :=
  {| to_vec command := Some (command_text command); from_slice _ := None |}.
#[local] Instance watched_serde : SessionSerde := {|
  serde_sevent := {| to_vec := table_to_vec watched_events; from_slice := table_from_slice watched_events |};
  serde_sstate := {| to_vec := table_to_vec watched_states; from_slice := table_from_slice watched_states |};
  serde_command := watched_command_serde;
  serde_sconfig := demo_config_serde;
  serde_revision := codec_serde;
  serde_value := marked_value;
  serde_request := codec_serde;
  serde_settings := codec_serde;
|}.
Definition watched_db : SessionDb := Eval vm_compute in
  let run db '(revision, (operation, command)) := db_of db (session_command (λ _, 5%N) db watched_store 1 revision operation command) in
  foldl run (db_of empty_sdb (create_session_seeded (empty_sdb <| tables := watched_tables |>) watched_store 100 1 demo_config pinned_profile None None false))
    (zip [1%N; 2%N] watched_commands).

(** ** The run of the monitor *)

#[local] Instance watched_record_serde : Serde JournalRecord.t :=
  {| to_vec record := Some (u128_to_string (JournalRecord.sequence record)); from_slice _ := None |}.
Definition text_value {A} (f : string → option A) (v : Value) : option A := match v with VString text => f text | _ => None end.
Definition number_at (v : Value) (name : string) : option N := ModelUsage.as_u64 (index v name).
#[local] Instance watched_host_serde : MonitorHostSerde := {|
  serde_call_identity := codec_serde;
  serde_episode_identity := codec_serde;
  serde_read_case := codec_serde;
  serde_read_cases := codec_serde;
  serde_candidate := codec_serde;
  from_session_event := text_value from_slice;
  from_task_event := text_value from_slice;
  from_digest := text_value (λ text, to_option (digest_from_str text));
  from_read_args v := path ← text_value Some (index v "path"); offset ← number_at v "offset";
    max_bytes ← number_at v "max_bytes"; Some (ReadArgs.mk path offset max_bytes);
|}.

(** The reads of the evaluation find the file of their case. *)
Definition watched_cases : list ReadCase.t := ReadCase.mk (repeat_text 400 "x") 0 400 :: heldout.
Definition case_world (n : nat) : HostWorld :=
  mk_host_world Ok None (λ _ path, path)
    (λ _, Ok (default "" (ReadCase.bytes <$> watched_cases !! ((n - 1) mod 7)%nat))) (Ok tt) (Ok tt).
Definition watched_world : EvaluationWorld :=
  mk_evaluation_world (Ok tt) (Ok (enc (CandidateConfig.mk 32768) ""))
    (λ n, mk_trial (case_world n) (HostToolContext.mk "/w" "7" 1 "11" None 32768)).
Definition no_text {A} (_ : A) : string := "error".

Definition opened : MonitorDb := Eval vm_compute in default empty_monitor (to_option (initialize empty_monitor)).
Definition books_0 : MonitorBooks := mk_monitor_books watched_db opened watched_store.
Definition books_1 : MonitorBooks := Eval vm_compute in fst (install_read_behavior baseline_id 4096 "smaller replies" books_0).
Definition books_2 : MonitorBooks := Eval vm_compute in
  fst (monitor_tick no_text no_text no_text watched_world (Some build) books_1).

Lemma installed : install_read_behavior baseline_id 4096 "smaller replies" books_0 = (books_1, Ok small_id).
Proof. vm_cast_no_check (eq_refl (books_1, Ok small_id : result Digest HostError.t)). Qed.
Lemma ticked : monitor_tick no_text no_text no_text watched_world (Some build) books_1 = (books_2, Ok tt).
Proof. vm_cast_no_check (eq_refl (books_2, Ok tt : result unit HostError.t)). Qed.
Lemma reachable_1 : monitor_reachable no_text no_text no_text books_1.
Proof. exists books_0. split; [by vm_compute|]. by eapply rtc_once, step_install, installed. Qed.
Lemma reachable_2 : monitor_reachable no_text no_text no_text books_2.
Proof.
  destruct reachable_1 as (w0 & Hinit & Hs). exists w0. split; [done|]. etrans; [exact Hs|].
  by eapply rtc_once, step_tick, ticked.
Qed.

Definition recovered : option (Digest * string * Episode.t * Digest) := Eval vm_compute in
  match episodes (monitor_db books_2) with
  | (id, row) :: _ =>
      match from_slice row with
      | Some e => match Episode.state e with EpisodeState.Promoted release => Some (id, row, e, release) | _ => None end
      | None => None
      end
  | [] => None
  end.

Definition paged : MonitorDb * ArtifactStore.t := Eval vm_compute in
  default (empty_monitor, watched_store) (to_option (read_page watched_db (monitor_db books_1) watched_store (Some build))).
Lemma page_read : read_page watched_db (monitor_db books_1) watched_store (Some build) = Ok (paged.1, paged.2).
Proof. vm_cast_no_check (eq_refl (Ok (paged.1, paged.2) : result (MonitorDb * ArtifactStore.t) StoreError.t)). Qed.
Lemma watched_unique : sequences_unique watched_db.
Proof. apply (bool_decide_unpack (NoDup _)). by vm_compute. Qed.

(** ** Witnesses *)

Lemma journal_read_through_witness :
  ∃ s s' n records, monitor_status (monitor_db books_1) = Ok s ∧ monitor_status paged.1 = Ok s' ∧ (n ≤ 64)%nat ∧
    decoded watched_db (take n (rows_after watched_db (MonitorStatus.cursor s))) records ∧
    rows_after watched_db (MonitorStatus.cursor s') = drop n (rows_after watched_db (MonitorStatus.cursor s)) ∧
    ((∀ row record bytes, journal_record watched_db row = Ok record → to_vec record = Some bytes →
        (str_len bytes ≤ MAX_JOURNAL_PAGE_BYTES)%N) → records = [] → rows_after watched_db (MonitorStatus.cursor s) = []).
Proof.
  exact (journal_read_through watched_db (monitor_db books_1) watched_store (Some build) paged.1 paged.2 watched_unique page_read).
Defined.

Lemma monitor_sound_witness :
  let m := monitor_db books_2 in
  (∃ s, monitor_status m = Ok s ∧ status_sound m s) ∧ NoDup (episodes m).*1 ∧
  (∀ id row, (id, row) ∈ episodes m → ∃ e, from_slice row = Some e ∧ Episode.id e = id ∧ regression_of m e) ∧
  ∀ a b, a ∈ episodes m → b ∈ episodes m → episode_pending a = true → episode_pending b = true → a.1 = b.1.
Proof. exact (monitor_sound no_text no_text no_text books_2 reachable_2). Defined.


Lemma promotion_earned_witness :
  match recovered with
  | Some (_, _, e, release) => earned no_text (monitor_db books_2) e release
  | None => False
  end.
Proof.
  destruct recovered as [[[[id row] e] release]|] eqn:Hr; [|discriminate Hr].
  apply (promotion_earned no_text no_text no_text books_2 id row e release reachable_2).
  - unfold recovered in Hr. injection Hr as <- <- <- <-. apply (bool_decide_unpack _). by vm_compute.
  - unfold recovered in Hr. injection Hr as <- <- <- <-. by vm_compute.
  - unfold recovered in Hr. injection Hr as <- <- <- <-. reflexivity.
Defined.

Lemma tick_settles_witness : monitor_pending (monitor_db books_2) = Ok None.
Proof. exact (tick_settles no_text no_text no_text watched_world (Some build) books_1 books_2 reachable_1 ticked). Defined.
