(* ===== verification/FileSystem.v ===== *)
(** * Files and directories

    What the file tools ask of the operating system: a disk of inodes, with directories
    as finite maps from names to inodes. The calls the tools make through rustix are the
    parameter [System], and [Posix] states what POSIX documents of those that succeed.
    Other processes may change the disk before each call, and any call may be refused. *)

From S2P Require Import Prelude Transactions.

Module Errno.
Inductive t : Type := NOENT | LOOP | NOTDIR | XDEV | EXIST | Other.
#[global] Instance eq_dec : EqDecision t.
Proof. solve_decision. Defined.
End Errno.

Notation Ino := N (only parsing).

Inductive Node : Type :=
| Bytes (bytes : string)
| Entries (entries : gmap string Ino)
| Target (path : string)
| Special.

Module FileType.
Inductive t : Type := RegularFile | Directory | Symlink | Other.
#[global] Instance eq_dec : EqDecision t.
Proof. solve_decision. Defined.
End FileType.
Definition file_type (n : Node) : FileType.t :=
  match n with
  | Bytes _ => FileType.RegularFile
  | Entries _ => FileType.Directory
  | Target _ => FileType.Symlink
  | Special => FileType.Other
  end.

(** [mode] holds the bits below the file type, [size] is that of nodes that are no files;
    times are seconds and nanoseconds. *)
Module Inode.
Record t : Type := mk {
  node : Node;
  dev : N;
  mode : N;
  nlink : N;
  size : N;
  mtime : Z;
  mtime_nsec : Z;
  ctime : Z;
  ctime_nsec : Z;
}.
#[global] Instance eta_t : Eta t := λ i, mk (node i) (dev i) (mode i) (nlink i) (size i) (mtime i) (mtime_nsec i) (ctime i) (ctime_nsec i).
End Inode.

Notation Disk := (gmap N Inode.t) (only parsing).

Module Stat.
Record t : Type := mk {
  st_dev : N;
  st_ino : Ino;
  st_type : FileType.t;
  st_mode : N;
  st_nlink : N;
  st_size : N;
  st_mtime : Z;
  st_mtime_nsec : Z;
  st_ctime : Z;
  st_ctime_nsec : Z;
}.
#[global] Instance eq_dec : EqDecision t.
Proof. solve_decision. Defined.
Definition from_inode (ino : Ino) (i : Inode.t) : t :=
  mk (Inode.dev i) ino (file_type (Inode.node i)) (Inode.mode i) (Inode.nlink i)
    (match Inode.node i with Bytes bytes => str_len bytes | _ => Inode.size i end)
    (Inode.mtime i) (Inode.mtime_nsec i) (Inode.ctime i) (Inode.ctime_nsec i).
End Stat.

Implicit Types (d : Disk).

Definition node_at d (ino : Ino) : option Node := Inode.node <$> d !! ino.
Definition entries_at d (dir : Ino) : option (gmap string Ino) :=
  match node_at d dir with Some (Entries entries) => Some entries | _ => None end.
Definition entry_at d (dir : Ino) (name : string) : option Ino := entries_at d dir ≫= (.!! name).

Lemma entries_at_Some d dir entries :
  entries_at d dir = Some entries ↔ ∃ inode, d !! dir = Some inode ∧ Inode.node inode = Entries entries.
Proof.
  unfold entries_at, node_at. split.
  - destruct (d !! dir) as [i|]; [|done]. cbn. destruct (Inode.node i) eqn:Hn; try done. intros [= ->]. by exists i.
  - intros (i & -> & Hn). cbn. by rewrite Hn.
Qed.

(** ** What a change leaves alone *)

(** Only the entries [E] and the contents and modes of the files [C] may change. *)
Record changes_only (E : N → string → Prop) (C : N → Prop) d d' : Prop := {
  co_entries dir name : ¬ E dir name → entry_at d' dir name = entry_at d dir name;
  co_files ino i : ¬ C ino → d !! ino = Some i → ∃ j, d' !! ino = Some j ∧ Inode.mode j = Inode.mode i ∧
    ∀ bytes, Inode.node i = Bytes bytes → Inode.node j = Bytes bytes;
}.
Lemma changes_only_refl E C d : changes_only E C d d.
Proof. split; [done|]. intros ino i _ Hi. by exists i. Qed.
Lemma changes_only_trans E C d1 d2 d3 : changes_only E C d1 d2 → changes_only E C d2 d3 → changes_only E C d1 d3.
Proof.
  intros [E1 F1] [E2 F2]. split; [intros dir name H; by rewrite E2, E1|]. intros ino i H (j & Hj & Hm & Hb)%F1; [|done].
  destruct (F2 ino j H Hj) as (k & Hk & Hm' & Hb'). exists k. split_and!; [done|congruence|auto].
Qed.
Lemma changes_only_more (E E' : N → string → Prop) (C C' : N → Prop) d d' :
  (∀ dir name, E dir name → E' dir name) → (∀ ino, C ino → C' ino) → changes_only E C d d' → changes_only E' C' d d'.
Proof. intros HE HC [H1 H2]. split; [auto|]. intros ino i H. apply H2. auto. Qed.

(** A change of one entry, and of one file. *)
Definition one_entry (dir : Ino) (name : string) : N → string → Prop := λ a b, (a, b) = (dir, name).
Definition no_file : N → Prop := λ _, False.
Definition no_entry : N → string → Prop := λ _ _, False.
Definition one_file (ino : Ino) : N → Prop := λ a, a = ino.

(** ** The system

    [others] is what other processes do before a call, [refusal] the error the system
    gives to it. The rest is what a call yields on a disk: [openat] with [DIRECTORY] and
    [NOFOLLOW], and with [NOFOLLOW] for reading; [fstat] and [statat]; a read from an
    offset; the directory a path of the host leads to; the names in a directory, [None]
    where an entry cannot be read; [mkdirat]; [openat] with [CREATE] and [EXCL]; a write
    at the end; [fchmod]; [renameat], with and without [NOREPLACE]; [unlinkat], for files
    and with [REMOVEDIR]. *)
Record System : Type := mk_system {
  others : nat → Disk → Disk;
  refusal : nat → option Errno.t;
  open_directory : Disk → Ino → string → result Ino Errno.t;
  open_reading : Disk → Ino → string → result Ino Errno.t;
  stat_at : Disk → Ino → result Stat.t Errno.t;
  stat_entry : Disk → Ino → string → result Stat.t Errno.t;
  read_at : Disk → Ino → N → N → result string Errno.t;
  resolved : Disk → string → result Ino Errno.t;
  listing : Disk → Ino → list (option string);
  make_directory : Disk → Ino → string → N → result Disk Errno.t;
  create_file : Disk → Ino → string → N → result (Disk * Ino) Errno.t;
  append : Disk → Ino → string → result Disk Errno.t;
  change_mode : Disk → Ino → N → result Disk Errno.t;
  rename : bool → Disk → Ino → string → Ino → string → result Disk Errno.t;
  unlink : Disk → Ino → string → result Disk Errno.t;
  remove_directory : Disk → Ino → string → result Disk Errno.t;
}.

(** What POSIX documents of calls that succeed. *)
Record Posix (sys : System) : Prop := {
  px_open_directory d dir name child : open_directory sys d dir name = Ok child →
    (if decide (name = ".") then child = dir else entry_at d dir name = Some child) ∧ is_Some (entries_at d child);
  px_open_reading d dir name file : open_reading sys d dir name = Ok file → name ≠ "." →
    entry_at d dir name = Some file ∧ ∀ path, node_at d file ≠ Some (Target path);
  px_stat_at d ino stat : stat_at sys d ino = Ok stat → ∃ i, d !! ino = Some i ∧ stat = Stat.from_inode ino i;
  px_stat_entry d dir name stat : stat_entry sys d dir name = Ok stat → name ≠ "." →
    ∃ ino i, entry_at d dir name = Some ino ∧ d !! ino = Some i ∧ stat = Stat.from_inode ino i;
  px_read_at d ino offset len more bytes : read_at sys d ino offset len = Ok more → node_at d ino = Some (Bytes bytes) →
    ∃ n, (n ≤ N.to_nat len)%nat ∧ more = String.substring (N.to_nat offset) n bytes;
  px_make_directory d dir name mode d' : make_directory sys d dir name mode = Ok d' → changes_only (one_entry dir name) no_file d d';
  px_create_file d dir name mode d' ino : create_file sys d dir name mode = Ok (d', ino) →
    changes_only (one_entry dir name) no_file d d' ∧ entry_at d' dir name = Some ino ∧ node_at d' ino = Some (Bytes EmptyString);
  px_append d ino more d' bytes : append sys d ino more = Ok d' → node_at d ino = Some (Bytes bytes) →
    changes_only no_entry (one_file ino) d d' ∧
    ∃ i j, d !! ino = Some i ∧ d' !! ino = Some j ∧ Inode.node j = Bytes (bytes +:+ more) ∧ Inode.mode j = Inode.mode i;
  px_change_mode d ino mode d' bytes : change_mode sys d ino mode = Ok d' → node_at d ino = Some (Bytes bytes) →
    changes_only no_entry (one_file ino) d d' ∧ ∃ j, d' !! ino = Some j ∧ Inode.node j = Bytes bytes ∧ Inode.mode j = mode;
  px_rename noreplace d from name to target d' ino bytes :
    rename sys noreplace d from name to target = Ok d' → name ≠ "." → entry_at d from name = Some ino → node_at d ino = Some (Bytes bytes) →
    changes_only (λ a b, one_entry from name a b ∨ one_entry to target a b) no_file d d' ∧ entry_at d' to target = Some ino ∧
    (noreplace = true → entry_at d to target = None) ∧ (∀ old, entry_at d to target = Some old → entries_at d old = None);
  px_unlink d dir name d' : unlink sys d dir name = Ok d' →
    changes_only (one_entry dir name) no_file d d' ∧ entry_at d' dir name = None ∧ is_Some (entry_at d dir name);
  px_remove_directory d dir name d' : remove_directory sys d dir name = Ok d' → changes_only (one_entry dir name) no_file d d';
}.

(** ** Calls

    [calls] is a record of the calls made, with the disks before and after. *)

Record World : Type := mk_world { disk : Disk; calls : list (Disk * Disk) }.
#[global] Instance eta_world : Eta World := λ w, mk_world (disk w) (calls w).

Section calls.
Variable sys : System.

Definition turn (w : World) : nat := length (calls w).
(** A call: the others move, then it is refused or takes place. *)
Definition syscall {A} (f : Disk → result (Disk * A) Errno.t) : Tx World Errno.t A := λ w,
  let d := others sys (turn w) (disk w) in
  match refusal sys (turn w) with
  | Some e => (mk_world d (calls w ++ [(d, d)]), Err e)
  | None =>
      match f d with
      | Ok (d', x) => (mk_world d' (calls w ++ [(d, d')]), Ok x)
      | Err e => (mk_world d (calls w ++ [(d, d)]), Err e)
      end
  end.
Definition looking {A} (f : Disk → result A Errno.t) : Tx World Errno.t A := syscall (λ d, let? x := f d in Ok (d, x)).
Definition changing (f : Disk → result Disk Errno.t) : Tx World Errno.t unit := syscall (λ d, let? d := f d in Ok (d, tt)).
End calls.
