(* ===== verification/PlainDisk.v ===== *)
(** * A disk that behaves as POSIX documents

    Executable calls on a disk, and a proof that they are a [Posix] system: runs of the
    file tools are evaluated on it, and the hypotheses of their theorems hold of it. *)

From S2P Require Import Prelude Transactions FileSystem.

Implicit Types (d : Disk).

(** Times of what is created are never looked at. *)
Definition new_inode (n : Node) (dev mode : N) : Inode.t := Inode.mk n dev mode 1 0 0 0 0 0.

(** ** The calls *)

(** The inode a name in a directory stands for, without following it. *)
Definition look d (dir : Ino) (name : string) : result Ino Errno.t :=
  let? entries := ok_or (entries_at d dir) Errno.NOTDIR in
  if str_eqb name "." then Ok dir else ok_or (entries !! name) Errno.NOENT.

(** [openat] with [DIRECTORY] and [NOFOLLOW]. *)
Definition plain_open_directory d (dir : Ino) (name : string) : result Ino Errno.t :=
  let? ino := look d dir name in
  match node_at d ino with
  | Some (Entries _) => Ok ino
  | Some (Target _) => Err Errno.LOOP
  | Some _ => Err Errno.NOTDIR
  | None => Err Errno.Other
  end.
(** [openat] with [NOFOLLOW] and [NONBLOCK], for reading. *)
Definition plain_open_reading d (dir : Ino) (name : string) : result Ino Errno.t :=
  let? ino := look d dir name in
  match node_at d ino with
  | Some (Target _) => Err Errno.LOOP
  | Some _ => Ok ino
  | None => Err Errno.Other
  end.
Definition plain_stat_at d (ino : Ino) : result Stat.t Errno.t :=
  let? inode := ok_or (d !! ino) Errno.Other in Ok (Stat.from_inode ino inode).
(** [statat] with [SYMLINK_NOFOLLOW] *)
Definition plain_stat_entry d (dir : Ino) (name : string) : result Stat.t Errno.t := let? ino := look d dir name in plain_stat_at d ino.
(** A read of an open file from an offset. *)
Definition plain_read_at d (ino : Ino) (offset len : N) : result string Errno.t :=
  match node_at d ino with
  | Some (Bytes bytes) => Ok (String.substring (N.to_nat offset) (N.to_nat len) bytes)
  | _ => Err Errno.Other
  end.

Definition set_entry (dir : Ino) (name : string) (target : option Ino) d : Disk :=
  alter (λ i, match Inode.node i with
              | Entries entries =>
                  i <| Inode.node := Entries (match target with Some ino => <[name := ino]> entries | None => delete name entries end) |>
              | _ => i
              end) dir d.
Definition unlinked (ino : Ino) d : Disk := alter (λ i, i <| Inode.nlink := (Inode.nlink i - 1)%N |>) ino d.
Definition fresh_ino d : Ino := fresh (dom d : gset N).

(** A directory that can be added to. *)
Definition addable d (dir : Ino) : result (gmap string Ino) Errno.t :=
  let? entries := ok_or (entries_at d dir) Errno.NOTDIR in
  let? inode := ok_or (d !! dir) Errno.NOENT in
  let? _ := reject_if (Inode.nlink inode =? 0)%N Errno.NOENT in
  Ok entries.
Definition dev_of d (ino : Ino) : N := default 0%N (Inode.dev <$> d !! ino).

(** [mkdirat], and [openat] with [CREATE] and [EXCL] *)
Definition plain_create d (dir : Ino) (name : string) (n : Node) (mode : N) : result (Disk * Ino) Errno.t :=
  let? entries := addable d dir in
  let? _ := reject_if (bool_decide (is_Some (entries !! name))) Errno.EXIST in
  let ino := fresh_ino d in
  Ok (<[ino := new_inode n (dev_of d dir) mode]> (set_entry dir name (Some ino) d), ino).
Definition plain_append d (ino : Ino) (more : string) : result Disk Errno.t :=
  match node_at d ino with
  | Some (Bytes bytes) => Ok (alter (λ i, i <| Inode.node := Bytes (bytes +:+ more) |>) ino d)
  | _ => Err Errno.Other
  end.
Definition plain_change_mode d (ino : Ino) (mode : N) : result Disk Errno.t :=
  if decide (is_Some (d !! ino)) then Ok (alter (λ i, i <| Inode.mode := mode |>) ino d) else Err Errno.Other.

(** [renameat] of a file, [renameat_with] with [NOREPLACE] *)
Definition plain_rename (noreplace : bool) d (from : Ino) (name : string) (to : Ino) (target : string) : result Disk Errno.t :=
  let? ino := look d from name in
  let? entries := addable d to in
  let? _ := reject_if (negb (dev_of d from =? dev_of d to)%N) Errno.XDEV in
  match entries !! target with
  | None => Ok (set_entry to target (Some ino) (set_entry from name None d))
  | Some old =>
      let? _ := reject_if noreplace Errno.EXIST in
      let? _ := reject_if (bool_decide (is_Some (entries_at d old))) Errno.Other in
      if (old =? ino)%N then Ok d
      else Ok (unlinked old (set_entry to target (Some ino) (set_entry from name None d)))
  end.
(** [unlinkat], and with [REMOVEDIR] *)
Definition plain_unlink d (dir : Ino) (name : string) : result Disk Errno.t :=
  let? ino := look d dir name in
  let? _ := reject_if (bool_decide (is_Some (entries_at d ino))) Errno.Other in
  Ok (unlinked ino (set_entry dir name None d)).
Definition plain_remove_directory d (dir : Ino) (name : string) : result Disk Errno.t :=
  let? ino := look d dir name in
  let? entries := ok_or (entries_at d ino) Errno.NOTDIR in
  let? _ := reject_if (negb (bool_decide (entries = ∅))) Errno.Other in
  Ok (unlinked ino (set_entry dir name None d)).

Definition plain_listing d (dir : Ino) : list (option string) := (λ '(name, _), Some name) <$> map_to_list (default ∅ (entries_at d dir)).

(** The system, with its other processes, its refusals and the paths of the host. *)
Definition plain_system (others : nat → Disk → Disk) (refusal : nat → option Errno.t) (resolved : Disk → string → result Ino Errno.t) : System :=
  mk_system others refusal plain_open_directory plain_open_reading plain_stat_at plain_stat_entry plain_read_at resolved plain_listing
    (λ d dir name mode, let? '(d, _) := plain_create d dir name (Entries ∅) mode in Ok d)
    (λ d dir name mode, plain_create d dir name (Bytes EmptyString) mode)
    plain_append plain_change_mode plain_rename plain_unlink plain_remove_directory.

(** ** What they leave alone *)

Lemma entry_set_entry d dir name o dir' name' :
  (dir', name') ≠ (dir, name) → entry_at (set_entry dir name o d) dir' name' = entry_at d dir' name'.
Proof.
  intros Hne. unfold entry_at, entries_at, node_at, set_entry. destruct (decide (dir' = dir)) as [->|]; [|by rewrite lookup_alter_ne].
  rewrite lookup_alter_eq. destruct (d !! dir) as [inode|]; [|done]. cbn. destruct (Inode.node inode) as [|entries| |] eqn:Hn; cbn; rewrite ?Hn; try done.
  assert (name' ≠ name) by congruence. destruct o; cbn; [by rewrite lookup_insert_ne|by rewrite lookup_delete_ne].
Qed.
Lemma entry_set_entry_eq d dir name o entries :
  entries_at d dir = Some entries → entry_at (set_entry dir name o d) dir name = o.
Proof.
  intros (inode & Hd & Hn)%entries_at_Some. unfold entry_at, entries_at, node_at, set_entry. rewrite lookup_alter_eq, Hd. cbn. rewrite Hn.
  destruct o; cbn; [by rewrite lookup_insert_eq|by rewrite lookup_delete_eq].
Qed.
Lemma node_set_entry d dir name o ino bytes : node_at (set_entry dir name o d) ino = Some (Bytes bytes) ↔ node_at d ino = Some (Bytes bytes).
Proof.
  unfold node_at, set_entry. destruct (decide (ino = dir)) as [->|]; [|by rewrite lookup_alter_ne].
  rewrite lookup_alter_eq. destruct (d !! dir) as [inode|]; [|done]. cbn. by destruct (Inode.node inode) eqn:Hn; cbn; rewrite ?Hn.
Qed.
Lemma node_unlinked d ino ino' : node_at (unlinked ino d) ino' = node_at d ino'.
Proof.
  unfold node_at, unlinked. destruct (decide (ino' = ino)) as [->|]; [|by rewrite lookup_alter_ne].
  rewrite lookup_alter_eq. by destruct (d !! ino).
Qed.
Lemma entry_unlinked d ino dir name : entry_at (unlinked ino d) dir name = entry_at d dir name.
Proof. unfold entry_at, entries_at. by rewrite node_unlinked. Qed.

Lemma look_entry d dir name ino : look d dir name = Ok ino → name ≠ "." → entry_at d dir name = Some ino.
Proof.
  unfold look, entry_at. intros (entries & ->%ok_or_Ok & H)%rbind_Ok Hn. unfold str_eqb in H. rewrite bool_decide_false in H by done.
  by apply ok_or_Ok in H.
Qed.

Lemma set_entry_changes dir name o d : changes_only (one_entry dir name) no_file d (set_entry dir name o d).
Proof.
  split; [intros; by apply entry_set_entry|]. intros ino i _ Hi. unfold set_entry. destruct (decide (ino = dir)) as [->|].
  - rewrite lookup_alter_eq, Hi. cbn. eexists. split; [done|]. by destruct (Inode.node i) eqn:Hn; cbn; rewrite ?Hn.
  - rewrite lookup_alter_ne by done. by exists i.
Qed.
Lemma unlinked_changes ino d E C : changes_only E C d (unlinked ino d).
Proof.
  split; [intros; apply entry_unlinked|]. intros k i _ Hi. unfold unlinked. destruct (decide (k = ino)) as [->|].
  - rewrite lookup_alter_eq, Hi. cbn. by eexists.
  - rewrite lookup_alter_ne by done. by exists i.
Qed.
Lemma create_changes d dir name n mode d' ino :
  plain_create d dir name n mode = Ok (d', ino) → (∀ entries, n = Entries entries → entries = ∅) →
  changes_only (one_entry dir name) no_file d d' ∧ d !! ino = None ∧ d' !! ino = Some (new_inode n (dev_of d dir) mode) ∧
  entry_at d dir name = None ∧ entry_at d' dir name = Some ino.
Proof.
  unfold plain_create. intros (entries & Ha & ([] & Hnone%reject_if_Ok%bool_decide_eq_false & [= <- <-])%rbind_Ok)%rbind_Ok Hempty.
  unfold addable in Ha. apply rbind_Ok in Ha as (es & Hes%ok_or_Ok & (inode & Hinode & ([] & _ & [= ->])%rbind_Ok)%rbind_Ok).
  assert (Hfresh : d !! fresh_ino d = None) by (apply not_elem_of_dom; exact (is_fresh (dom d : gset N))). set (ino := fresh_ino d) in *.
  assert (Hfresh' : ∀ o, set_entry dir name o d !! ino = None).
  { intros o. unfold set_entry. destruct (decide (ino = dir)) as [->|]; [by rewrite lookup_alter_eq, Hfresh|by rewrite lookup_alter_ne]. }
  assert (Hentry : ∀ a b, a ≠ ino → entry_at (<[ino:=new_inode n (dev_of d dir) mode]> (set_entry dir name (Some ino) d)) a b =
     entry_at (set_entry dir name (Some ino) d) a b).
  { intros a b Hne. unfold entry_at, entries_at, node_at. by rewrite lookup_insert_ne. }
  split_and!; [|done|by rewrite lookup_insert_eq| |].
  - eapply changes_only_trans; [apply set_entry_changes|]. split.
    + intros a b _. destruct (decide (a = ino)) as [->|]; [|by apply Hentry]. unfold entry_at, entries_at, node_at.
      rewrite lookup_insert_eq, Hfresh'. cbn. destruct n as [|entries'| |]; try done. by rewrite (Hempty entries').
    + intros k i _ Hi. exists i. rewrite lookup_insert_ne; [done|]. intros <-. by rewrite Hfresh' in Hi.
  - unfold entry_at. rewrite Hes. cbn. by apply eq_None_not_Some.
  - rewrite Hentry; [by eapply entry_set_entry_eq|]. intros ->. by rewrite Hfresh in Hinode.
Qed.
Lemma rename_changes noreplace d from name to target d' :
  plain_rename noreplace d from name to target = Ok d' → name ≠ "." →
  changes_only (λ a b, one_entry from name a b ∨ one_entry to target a b) no_file d d' ∧
  (∃ ino, entry_at d from name = Some ino ∧ entry_at d' to target = Some ino) ∧
  (noreplace = true → entry_at d to target = None) ∧ (∀ old, entry_at d to target = Some old → entries_at d old = None).
Proof.
  unfold plain_rename. intros (ino & Hl & (entries & Ha & ([] & _ & H)%rbind_Ok)%rbind_Ok)%rbind_Ok Hname. apply look_entry in Hl; [|done].
  unfold addable in Ha. apply rbind_Ok in Ha as (es & Hes%ok_or_Ok & (inode & Hinode & ([] & _ & [= ->])%rbind_Ok)%rbind_Ok).
  assert (Hmoved : changes_only (λ a b, one_entry from name a b ∨ one_entry to target a b) no_file d
    (set_entry to target (Some ino) (set_entry from name None d))).
  { eapply changes_only_trans; (eapply changes_only_more; [..|apply set_entry_changes]; auto). }
  assert (Hto : ∃ es', entries_at (set_entry from name None d) to = Some es').
  { apply entries_at_Some in Hes as (i & Hi & Hn). unfold entries_at, node_at, set_entry. destruct (decide (to = from)) as [->|].
    - rewrite lookup_alter_eq, Hi. cbn. rewrite Hn. by eexists.
    - rewrite lookup_alter_ne, Hi by done. cbn. rewrite Hn. by eexists. }
  destruct Hto as [es' Hes'].
  assert (Hat : entry_at (set_entry to target (Some ino) (set_entry from name None d)) to target = Some ino) by by eapply entry_set_entry_eq.
  assert (Hold : entry_at d to target = entries !! target) by (unfold entry_at; by rewrite Hes). rewrite Hold.
  destruct (entries !! target) as [old|].
  - apply rbind_Ok in H as ([] & Hno%reject_if_Ok & ([] & Hdir%reject_if_Ok%bool_decide_eq_false & H)%rbind_Ok).
    assert (Hnd : ∀ o, Some old = Some o → entries_at d o = None) by (intros o [= <-]; by apply eq_None_not_Some).
    destruct (N.eqb_spec old ino) as [->|]; injection H as <-.
    + split_and!; [apply changes_only_refl|by exists ino|by rewrite Hno|done].
    + split_and!; [eapply changes_only_trans; [exact Hmoved|apply unlinked_changes]| |by rewrite Hno|done].
      exists ino. by rewrite entry_unlinked.
  - injection H as <-. split_and!; [done|by exists ino|done|done].
Qed.
Lemma unlink_changes d dir name d' :
  plain_unlink d dir name = Ok d' →
  changes_only (one_entry dir name) no_file d d' ∧ entry_at d' dir name = None ∧ is_Some (entry_at d dir name).
Proof.
  unfold plain_unlink. intros (ino & Hl & ([] & Hfile%reject_if_Ok%bool_decide_eq_false & [= <-])%rbind_Ok)%rbind_Ok.
  apply look_entry in Hl.
  2: { intros ->. unfold look in Hl. apply rbind_Ok in Hl as (es & Hes%ok_or_Ok & [= <-]). apply Hfile. by rewrite Hes. }
  split_and!.
  - eapply changes_only_trans; [apply set_entry_changes|apply unlinked_changes].
  - rewrite entry_unlinked. unfold entry_at in Hl. apply bind_Some in Hl as (es & Hes & _). by eapply entry_set_entry_eq.
  - by eexists.
Qed.
Lemma remove_changes d dir name d' :
  plain_remove_directory d dir name = Ok d' → changes_only (one_entry dir name) no_file d d'.
Proof.
  unfold plain_remove_directory. intros (ino & Hl & (es & _ & ([] & _ & [= <-])%rbind_Ok)%rbind_Ok)%rbind_Ok.
  eapply changes_only_trans; [apply set_entry_changes|apply unlinked_changes].
Qed.
Lemma append_changes d ino more d' bytes i :
  plain_append d ino more = Ok d' → d !! ino = Some i → Inode.node i = Bytes bytes →
  changes_only no_entry (one_file ino) d d' ∧ d' !! ino = Some (i <| Inode.node := Bytes (bytes +:+ more) |>).
Proof.
  unfold plain_append, node_at. intros H Hi Hn. rewrite Hi in H. cbn in H. rewrite Hn in H. injection H as <-. split.
  - split.
    + intros dir name _. unfold entry_at, entries_at, node_at. destruct (decide (dir = ino)) as [->|]; [|by rewrite lookup_alter_ne].
      rewrite lookup_alter_eq, Hi. cbn. by rewrite Hn.
    + intros k j Hne Hj. exists j. by rewrite lookup_alter_ne by done.
  - by rewrite lookup_alter_eq, Hi.
Qed.
Lemma mode_changes d ino mode d' i :
  plain_change_mode d ino mode = Ok d' → d !! ino = Some i →
  changes_only no_entry (one_file ino) d d' ∧ d' !! ino = Some (i <| Inode.mode := mode |>).
Proof.
  unfold plain_change_mode. intros H Hi. case_decide; [|done]. injection H as <-. split; [|by rewrite lookup_alter_eq, Hi]. split.
  - intros dir name _. unfold entry_at, entries_at, node_at. destruct (decide (dir = ino)) as [->|]; [|by rewrite lookup_alter_ne].
    by rewrite lookup_alter_eq, Hi.
  - intros k j Hne Hj. exists j. by rewrite lookup_alter_ne by done.
Qed.

(** ** They are what POSIX documents *)

Lemma look_spec d dir name ino :
  look d dir name = Ok ino → if decide (name = ".") then ino = dir else entry_at d dir name = Some ino.
Proof.
  intros H. case_decide as Hn; [|by apply look_entry]. subst. unfold look in H. by apply rbind_Ok in H as (entries & _ & [= <-]).
Qed.
Lemma plain_listed d dir name : is_Some (entry_at d dir name) → Some name ∈ plain_listing d dir.
Proof.
  intros [ino H]. unfold entry_at in H. apply bind_Some in H as (entries & He & Hn). unfold plain_listing. rewrite He. cbn.
  apply list_elem_of_fmap. exists (name, ino). split; [done|]. by apply elem_of_map_to_list.
Qed.

Lemma plain_posix others refusal resolved : Posix (plain_system others refusal resolved).
Proof.
  split; cbn.
  - intros d dir name child (ino & Hl%look_spec & H)%rbind_Ok. destruct (node_at d ino) as [[]|] eqn:Hn; simplify_eq.
    split; [done|]. unfold entries_at. by rewrite Hn.
  - intros d dir name file (ino & Hl & H)%rbind_Ok Hname. apply look_entry in Hl; [|done].
    destruct (node_at d ino) as [[]|] eqn:Hn; simplify_eq; (split; [done|]; intros path; by rewrite Hn).
  - intros d ino stat (i & Hi%ok_or_Ok & [= <-])%rbind_Ok. by exists i.
  - intros d dir name stat (ino & Hl & (i & Hi%ok_or_Ok & [= <-])%rbind_Ok)%rbind_Ok Hname. exists ino, i. split; [by apply look_entry|done].
  - intros d ino offset len more bytes H Hn. unfold plain_read_at in H. rewrite Hn in H. injection H as <-. by exists (N.to_nat len).
  - intros d dir name mode d' ([d1 ino] & Hc & [= <-])%rbind_Ok. apply create_changes in Hc as (Hch & _); [done|]. by intros entries [= <-].
  - intros d dir name mode d' ino (Hch & _ & Hi & _ & He)%create_changes; [|done]. split_and!; [done..|]. unfold node_at. by rewrite Hi.
  - intros d ino more d' bytes H Hn. unfold node_at in Hn. destruct (d !! ino) as [i|] eqn:Hi; [|done]. injection Hn as Hn.
    destruct (append_changes _ _ _ _ _ _ H Hi Hn) as [Hch Hj]. split; [done|]. by eexists i, _.
  - intros d ino mode d' bytes H Hn. unfold node_at in Hn. destruct (d !! ino) as [i|] eqn:Hi; [|done]. injection Hn as Hn.
    destruct (mode_changes _ _ _ _ _ H Hi) as [Hch Hj]. split; [done|]. by eexists.
  - intros noreplace d from name to target d' ino bytes H Hname He _. destruct (rename_changes _ _ _ _ _ _ _ H Hname) as (Hch & (ino' & He' & Ht) & Hrest).
    assert (ino' = ino) as -> by congruence. done.
  - intros d dir name d'. apply unlink_changes.
  - intros d dir name d'. apply remove_changes.
Qed.
