(* ===== verification/WorkspaceFiles.v ===== *)
(** * File tools of a workspace (crates/harness/src/capabilities/files.rs)

    Reading, writing and searching files below a directory that other processes change
    at the same time. Paths are walked entry by entry from the open root, without
    following links and without leaving its device. *)

From S2P Require Import Prelude Transactions Digest Contract State Artifacts Workspace Input JsonValue Cost Codec.
From S2P Require Import Secrets Conversation Admission Session Context Submissions Media Decoder Requests Capabilities FileSystem.

Module ToolError.
Inductive t : Type :=
| UnknownTool
| InvalidArguments
| InvalidContext
| RequestTooLarge
| PathDenied
| NotFound
| UnsupportedFile
| FileTooLarge
| Readonly
| Conflict
| Cancelled
| TimedOut
| OutputBudget
| Execution
| OutcomeUnknown
| UnsupportedPlatform
| Io.
#[global] Instance eq_dec : EqDecision t.
Proof. solve_decision. Defined.
Definition requires_reconciliation (e : t) : bool := bool_decide (e = OutcomeUnknown).
End ToolError.

Module ToolContext.
Record t : Type := mk {
  workspace : string;
  task_id : string;
  generation : N;
  job_id : string;
  readonly : bool;
  can_write : bool;
  max_output_bytes : N;
  timeout_ms : N;
}.
#[global] Instance eta_t : Eta t := λ c,
  mk (workspace c) (task_id c) (generation c) (job_id c) (readonly c) (can_write c) (max_output_bytes c) (timeout_ms c).
End ToolContext.

Definition map_error (e : Errno.t) : ToolError.t :=
  match e with
  | Errno.NOENT => ToolError.NotFound
  | Errno.LOOP | Errno.NOTDIR | Errno.XDEV => ToolError.PathDenied
  | Errno.EXIST => ToolError.Conflict
  | Errno.Other => ToolError.Io
  end.
(** [From<io::Error>] *)
Definition io_error (e : Errno.t) : ToolError.t :=
  match e with Errno.NOENT => ToolError.NotFound | _ => ToolError.Io end.

(** ** Paths, identities *)

(** [relative] *)
Definition relative (path : string) (allow_root : bool) : result (list string) ToolError.t :=
  if allow_root && str_is_empty path then Ok []
  else
    let? _ := reject_if (str_is_empty path || (4096 <? str_len path)%N || contains_nul path
                         || (64 <? length (split_slash path))%nat) ToolError.PathDenied in
    let? _ := reject_if (existsb (λ part, str_is_empty part || str_eqb part "." || str_eqb part "..") (split_slash path))
                ToolError.PathDenied in
    Ok (split_slash path).

Module FileIdentity.
Record t : Type := mk { digest : Digest; bytes : N; mode : N }.
#[global] Instance eq_dec : EqDecision t.
Proof. solve_decision. Defined.
End FileIdentity.
Module OpenFile.
Record t : Type := mk { file : Ino; stat : Stat.t; bytes : string; identity : FileIdentity.t }.
End OpenFile.

Definition check_expected (expected : Expected.t) (file : option OpenFile.t) : result unit ToolError.t :=
  match expected, file with
  | Expected.Absent, None => Ok tt
  | Expected.Digest digest, Some file =>
      if bool_decide (digest = FileIdentity.digest (OpenFile.identity file)) then Ok tt else Err ToolError.Conflict
  | _, _ => Err ToolError.Conflict
  end.
Definition same_inode (a b : Stat.t) : bool :=
  (Stat.st_dev a =? Stat.st_dev b)%N && (Stat.st_ino a =? Stat.st_ino b)%N.
Definition same_snapshot (a b : Stat.t) : bool :=
  same_inode a b && (Stat.st_size a =? Stat.st_size b)%N
  && bool_decide (Stat.st_type a = Stat.st_type b) && (Stat.st_mode a =? Stat.st_mode b)%N
  && (Stat.st_nlink a =? Stat.st_nlink b)%N
  && (Stat.st_mtime a =? Stat.st_mtime b)%Z && (Stat.st_mtime_nsec a =? Stat.st_mtime_nsec b)%Z
  && (Stat.st_ctime a =? Stat.st_ctime b)%Z && (Stat.st_ctime_nsec a =? Stat.st_ctime_nsec b)%Z.

Module FileWorkspace.
Record t : Type := mk { root : Ino; host_parent : Ino; device : N }.
End FileWorkspace.

Definition CHUNK : N := 64 * 1024.
(** [path.parent()] and [path.file_name()] of a path that is made of a root and names. *)
Definition parent_and_name (path : string) : option (string * string) :=
  match reverse (components path) with
  | Normal name :: rest =>
      Some (match reverse rest with
            | RootDir :: rest => "/" +:+ join_slash (component_str <$> rest)
            | rest => join_slash (component_str <$> rest)
            end, name)
  | _ => None
  end.

(** [split(|&byte| byte == b'\n')] *)
Fixpoint split_lines (s : string) : list string :=
  match s with
  | EmptyString => [EmptyString]
  | String c s =>
      match split_lines s with
      | line :: lines => if bool_decide (c = "010"%char) then EmptyString :: line :: lines else String c line :: lines
      | [] => []
      end
  end.
Definition newline : string := String "010" EmptyString.

Module Search.
Record t : Type := mk {
  matches : list Value;
  files : N;
  bytes : N;
  entries : N;
  skipped : N;
  reasons : list string;
  output_bytes : N;
}.
#[global] Instance eta_t : Eta t := λ s, mk (matches s) (files s) (bytes s) (entries s) (skipped s) (reasons s) (output_bytes s).
Definition new : t := mk [] 0 0 0 0 [] OUTPUT_METADATA_BYTES.
End Search.

Section files.
Context {SHA : Sha256} {B64 : Base64} `{!Serde Value, !Serde string}.
(** [sys] is the system with its other processes; [control] answers [Control::check] after
    a number of calls; [staged] is the identifier of a staging directory; [find] is
    memchr's search. *)
Variable sys : System.
Variable control : nat → result unit ToolError.t.
Variable staged : string.
Variable find : string → string → option N.

#[local] Notation FilesTx := (Tx World ToolError.t).

(** [.map_err(map_error)?] and [?] on the results of calls. *)
Definition failing {A} (f : Errno.t → ToolError.t) (m : Tx World Errno.t A) : FilesTx A := λ w, let '(w, r) := m w in (w, map_err f r).
Definition caught {A} (m : Tx World Errno.t A) : FilesTx (result A Errno.t) := λ w, let '(w, r) := m w in (w, Ok r).
Definition mapped {A} (m : Tx World Errno.t A) : FilesTx A := failing map_error m.
Definition pure {A} (r : result A ToolError.t) : FilesTx A := query (λ _, r).
(** [Control::check] *)
Definition checked : FilesTx unit := query (λ w, control (turn w)).

(** [Workspace::open] *)
Definition open_workspace (path : string) : FilesTx FileWorkspace.t :=
  _ ← pure (reject_if (existsb (λ c, match c with RootDir | Normal _ => false | _ => true end) (components path)) ToolError.PathDenied);
  '(parent, name) ← pure (ok_or (parent_and_name path) ToolError.PathDenied);
  host_parent ← mapped (looking sys (λ d, resolved sys d parent));
  root ← mapped (looking sys (λ d, open_directory sys d host_parent name));
  stat ← mapped (looking sys (λ d, stat_at sys d root));
  mret (FileWorkspace.mk root host_parent (Stat.st_dev stat)).

(** [Workspace::path_budget] *)
Definition path_budget (path : string) (context : ToolContext.t) : result N ToolError.t :=
  let? bytes := ok_or (to_vec path) ToolError.InvalidArguments in
  let overhead := (str_len bytes + OUTPUT_METADATA_BYTES)%N in
  let? _ := reject_if (ToolContext.max_output_bytes context <? overhead)%N ToolError.OutputBudget in
  Ok ((ToolContext.max_output_bytes context - overhead) / 6)%N.

Section workspace.
Variable ws : FileWorkspace.t.

(** [Workspace::directory] *)
Fixpoint descend (directory : Ino) (components : list string) : FilesTx Ino :=
  match components with
  | [] => mret directory
  | component :: components =>
      child ← mapped (looking sys (λ d, open_directory sys d directory component));
      stat ← mapped (looking sys (λ d, stat_at sys d child));
      _ ← pure (reject_if (negb (Stat.st_dev stat =? FileWorkspace.device ws)%N) ToolError.PathDenied);
      descend child components
  end.
Definition directory (components : list string) : FilesTx Ino :=
  start ← mapped (looking sys (λ d, open_directory sys d (FileWorkspace.root ws) "."));
  descend start components.

(** [Workspace::parent] *)
Definition parent (path : string) : FilesTx (Ino * string) :=
  components ← pure (relative path false);
  match reverse components with
  | [] => pure (Err ToolError.PathDenied)
  | name :: rest => dir ← directory (reverse rest); mret (dir, name)
  end.

(** The loop that reads an open file, at most [fuel] rounds. *)
Fixpoint read_chunks (fuel : nat) (file : Ino) (max_bytes : N) (bytes : string) : FilesTx string :=
  match fuel with
  | O => mret bytes
  | S fuel =>
      if (max_bytes <=? str_len bytes)%N then mret bytes else
      _ ← checked;
      more ← failing io_error (looking sys (λ d, read_at sys d file (str_len bytes) (N.min (max_bytes - str_len bytes) CHUNK)));
      if str_is_empty more then mret bytes else read_chunks fuel file max_bytes (bytes +:+ more)
  end.

(** [Workspace::open_file] *)
Definition open_file (parent : Ino) (name : string) (max_bytes : N) : FilesTx (option OpenFile.t) :=
  _ ← checked;
  opened ← caught (looking sys (λ d, open_reading sys d parent name));
  match opened with
  | Err Errno.NOENT => mret None
  | Err e => pure (Err (map_error e))
  | Ok file =>
      stat ← mapped (looking sys (λ d, stat_at sys d file));
      _ ← pure (reject_if (negb (bool_decide (Stat.st_type stat = FileType.RegularFile)) || negb (Stat.st_nlink stat =? 1)%N
                           || negb (Stat.st_dev stat =? FileWorkspace.device ws)%N) ToolError.UnsupportedFile);
      _ ← pure (reject_if (max_bytes <? Stat.st_size stat)%N ToolError.FileTooLarge);
      bytes ← read_chunks (N.to_nat max_bytes) file max_bytes EmptyString;
      after ← (if negb (str_len bytes =? Stat.st_size stat)%N then pure (Err ToolError.Conflict)
               else mapped (looking sys (λ d, stat_at sys d file)));
      _ ← pure (reject_if (negb (same_snapshot stat after)) ToolError.Conflict);
      mret (Some (OpenFile.mk file stat bytes (FileIdentity.mk (digest_of bytes) (str_len bytes) (Stat.st_mode stat))))
  end.

(** *** Reading *)

Definition json_identity (i : FileIdentity.t) : Value :=
  json_object [("digest", json_digest (FileIdentity.digest i)); ("bytes", json_number (FileIdentity.bytes i));
               ("mode", json_number (FileIdentity.mode i))].
Definition file_page (path : string) (opened : OpenFile.t) (offset last : N) : Value :=
  json_object [("path", VString path); ("identity", json_identity (OpenFile.identity opened)); ("offset", json_number offset);
               ("content", encoded (bytes_slice (OpenFile.bytes opened) offset last));
               ("truncated", VBool (last <? str_len (OpenFile.bytes opened))%N);
               ("eof", VBool (last =? str_len (OpenFile.bytes opened))%N)].
(** [Workspace::read] *)
Definition read_workspace (args : ReadArgs.t) (context : ToolContext.t) : FilesTx Value :=
  _ ← pure (reject_if ((ReadArgs.max_bytes args =? 0)%N || (MAX_FILE_BYTES <? ReadArgs.max_bytes args)%N) ToolError.InvalidArguments);
  budget ← pure (path_budget (ReadArgs.path args) context);
  '(dir, name) ← parent (ReadArgs.path args);
  opened ← open_file dir name MAX_FILE_BYTES;
  opened ← pure (ok_or opened ToolError.NotFound);
  _ ← pure (reject_if (str_len (OpenFile.bytes opened) <? ReadArgs.offset args)%N ToolError.InvalidArguments);
  let length := N.min (N.min (ReadArgs.max_bytes args) budget) (str_len (OpenFile.bytes opened) - ReadArgs.offset args) in
  mret (file_page (ReadArgs.path args) opened (ReadArgs.offset args) (ReadArgs.offset args + length)).

(** *** Writing *)

(** [Workspace::revalidate] *)
Definition revalidate (path : string) (dir : Ino) (name : string) (original : option OpenFile.t) (expected : Expected.t) : FilesTx unit :=
  '(current_dir, _) ← parent path;
  before ← mapped (looking sys (λ d, stat_at sys d dir));
  now ← mapped (looking sys (λ d, stat_at sys d current_dir));
  _ ← pure (reject_if (negb (same_inode before now)) ToolError.Conflict);
  current ← open_file dir name MAX_FILE_BYTES;
  _ ← pure (check_expected expected current);
  match original, current with
  | Some original, Some current =>
      _ ← pure (reject_if (negb (same_inode (OpenFile.stat original) (OpenFile.stat current))) ToolError.Conflict);
      now ← mapped (looking sys (λ d, stat_at sys d (OpenFile.file original)));
      pure (reject_if (negb (same_snapshot (OpenFile.stat original) now)) ToolError.Conflict)
  | _, _ => mret tt
  end.

Definition staging_name : string := ".orvek-write-" +:+ staged.
(** [Staging::new] *)
Definition new_staging : FilesTx Ino :=
  stat ← mapped (looking sys (λ d, stat_at sys d (FileWorkspace.host_parent ws)));
  _ ← pure (reject_if (negb (Stat.st_dev stat =? FileWorkspace.device ws)%N) ToolError.PathDenied);
  _ ← mapped (changing sys (λ d, make_directory sys d (FileWorkspace.host_parent ws) staging_name 448));
  opened ← caught (looking sys (λ d, open_directory sys d (FileWorkspace.host_parent ws) staging_name));
  match opened with
  | Ok dir => mret dir
  | Err e =>
      _ ← caught (changing sys (λ d, remove_directory sys d (FileWorkspace.host_parent ws) staging_name));
      pure (Err (map_error e))
  end.
(** [Drop for Staging] *)
Definition drop_staging (stage : Ino) : FilesTx unit :=
  _ ← caught (changing sys (λ d, unlink sys d stage "content"));
  _ ← caught (changing sys (λ d, remove_directory sys d (FileWorkspace.host_parent ws) staging_name));
  mret tt.

(** The chunks of [content], each after a check. *)
Fixpoint write_chunks (fuel : nat) (file : Ino) (content : string) : FilesTx unit :=
  match fuel with
  | O => mret tt
  | S fuel =>
      if str_is_empty content then mret tt else
      _ ← checked;
      _ ← failing io_error (changing sys (λ d, append sys d file (bytes_slice content 0 (N.min CHUNK (str_len content)))));
      write_chunks fuel file (bytes_slice content (N.min CHUNK (str_len content)) (str_len content))
  end.

(** What is done with the staging directory open. *)
Definition stage_content (path : string) (dir : Ino) (name : string) (original : option OpenFile.t) (expected : Expected.t)
    (content : string) (mode : N) (stage : Ino) : FilesTx unit :=
  file ← mapped (syscall sys (λ d, create_file sys d stage "content" 384));
  _ ← write_chunks (String.length content) file content;
  _ ← mapped (changing sys (λ d, change_mode sys d file mode));
  _ ← failing io_error (looking sys (λ _, Ok tt));
  _ ← checked;
  _ ← revalidate path dir name original expected;
  checked.
Definition publish (dir : Ino) (name : string) (expected : Expected.t) (stage : Ino) : FilesTx unit :=
  mapped (changing sys (λ d, rename sys (match expected with Expected.Absent => true | _ => false end) d stage "content" dir name)).
(** The value of the block: its staging directory goes when it ends, whatever happened. *)
Definition replace_file (path : string) (dir : Ino) (name : string) (original : option OpenFile.t) (expected : Expected.t)
    (content : string) (mode : N) : FilesTx unit :=
  stage ← new_staging;
  done ← attempt (_ ← stage_content path dir name original expected content mode stage; publish dir name expected stage);
  _ ← drop_staging stage;
  pure done.
Definition delete_file (path : string) (dir : Ino) (name : string) (original : option OpenFile.t) (expected : Expected.t) : FilesTx unit :=
  _ ← revalidate path dir name original expected;
  _ ← checked;
  mapped (changing sys (λ d, unlink sys d dir name)).

Definition write_reply (path : string) (before after : option FileIdentity.t) (changed durable : bool) : Value :=
  json_object [("path", VString path); ("before", json_option json_identity before); ("after", json_option json_identity after);
               ("changed", VBool changed); ("durable", VBool durable)].
Definition write_parts (args : WriteArgs.t) : string * Expected.t * option string :=
  match args with
  | WriteArgs.Replace path expected content => (path, expected, Some content)
  | WriteArgs.Delete path expected => (path, expected, None)
  end.
Definition is_ok {A E} (r : result A E) : bool := match r with Ok _ => true | Err _ => false end.
(** [Workspace::write] *)
Definition write_workspace (args : WriteArgs.t) (context : ToolContext.t) : FilesTx Value :=
  let '(path, expected, content) := write_parts args in
  _ ← pure (path_budget path context);
  _ ← pure (reject_if (match content with Some c => (MAX_FILE_BYTES <? str_len c)%N | None => false end) ToolError.FileTooLarge);
  '(dir, name) ← parent path;
  original ← open_file dir name MAX_FILE_BYTES;
  _ ← pure (check_expected expected original);
  let before := OpenFile.identity <$> original in
  let mode := match before with Some before => FileIdentity.mode before | None => 420%N end in
  match content, original with
  | None, None => mret (write_reply path before None false true)
  | _, _ =>
      let after := (λ content, FileIdentity.mk (digest_of content) (str_len content) mode) <$> content in
      _ ← match content with
          | Some content => replace_file path dir name original expected content mode
          | None => delete_file path dir name original expected
          end;
      durable ← caught (looking sys (λ _, Ok tt));
      mret (write_reply path before after true (is_ok durable))
  end.

(** *** Searching *)

Definition MAX_RESULTS : N := 200.
Definition MAX_FILES : N := 10000.
Definition MAX_SEARCH_BYTES : N := 16 * 1024 * 1024.
Definition MAX_ENTRIES : N := 10000.
Definition MAX_DEPTH : nat := 32.
Definition search_valid (args : SearchArgs.t) : bool :=
  negb (str_is_empty (SearchArgs.query args) || str_contains (SearchArgs.query args) newline || (256 <? str_len (SearchArgs.query args))%N
        || (SearchArgs.max_results args =? 0)%N || (MAX_RESULTS <? SearchArgs.max_results args)%N
        || (SearchArgs.max_files args =? 0)%N || (MAX_FILES <? SearchArgs.max_files args)%N
        || (SearchArgs.max_bytes args =? 0)%N || (MAX_SEARCH_BYTES <? SearchArgs.max_bytes args)%N).

(** [Search::limit], [skip], [exhausted] *)
Definition limit (reason : string) (s : Search.t) : Search.t :=
  if bool_decide (reason ∈ Search.reasons s) then s else s <| Search.reasons := Search.reasons s ++ [reason] |>.
Definition skip (s : Search.t) : Search.t :=
  limit "unsearched_entries" (s <| Search.skipped := (Search.skipped s + 1)%N |>).
Definition exhausting (reason : string) : bool :=
  str_eqb reason "entries" || str_eqb reason "files" || str_eqb reason "bytes" || str_eqb reason "results" || str_eqb reason "output".
Definition exhausted (s : Search.t) : bool := existsb exhausting (Search.reasons s).

(** A match: the line is counted from one, the column in bytes from zero. *)
Definition preview_start (column : N) : N := (column - 80)%N.
Definition preview_end (line query : string) (column : N) : N := N.min (str_len line) (column + str_len query + 80).
Definition found_value (path : string) (index : N) (column : N) (digest : Digest) (line query : string) : Value :=
  let first := preview_start column in
  let last := preview_end line query column in
  json_object [("path", VString path); ("line", json_number (index + 1)); ("byte_column", json_number column);
    ("digest", json_digest digest); ("preview", encoded (bytes_slice line first last)); ("preview_offset", json_number first);
    ("preview_truncated", VBool ((0 <? first)%N || (last <? str_len line)%N))].

Section search.
Variable args : SearchArgs.t.
Variable context : ToolContext.t.

(** The loop over the lines of a file. *)
Fixpoint search_lines (path : string) (digest : Digest) (index : N) (lines : list string) (s : Search.t) : FilesTx Search.t :=
  match lines with
  | [] => mret s
  | line :: lines =>
      _ ← checked;
      match find line (SearchArgs.query args) with
      | None => search_lines path digest (index + 1) lines s
      | Some column =>
          let found := found_value path index column digest line (SearchArgs.query args) in
          bytes ← pure (ok_or (to_vec found) ToolError.OutputBudget);
          let size := (str_len bytes + 1)%N in
          if (ToolContext.max_output_bytes context <? Search.output_bytes s + size)%N then mret (limit "output" s) else
          let s := s <| Search.output_bytes := (Search.output_bytes s + size)%N |> <| Search.matches := Search.matches s ++ [found] |> in
          if (SearchArgs.max_results args <=? N.of_nat (length (Search.matches s)))%N then mret (limit "results" s)
          else search_lines path digest (index + 1) lines s
      end
  end.

(** The arm of a regular file; [None] ends the loop over the directory. *)
Definition search_file (dir : Ino) (name path : string) (stat : Stat.t) (s : Search.t) : FilesTx (bool * Search.t) :=
  if (SearchArgs.max_files args <=? Search.files s)%N then mret (false, limit "files" s) else
  if (MAX_FILE_BYTES <? Stat.st_size stat)%N then mret (true, skip s) else
  if (SearchArgs.max_bytes args <? Search.bytes s + Stat.st_size stat)%N then mret (false, limit "bytes" s) else
  opened ← attempt (open_file dir name (N.min (SearchArgs.max_bytes args - Search.bytes s) MAX_FILE_BYTES));
  match opened with
  | Err ToolError.Cancelled => pure (Err ToolError.Cancelled)
  | Err ToolError.TimedOut => pure (Err ToolError.TimedOut)
  | Ok (Some opened) =>
      let bytes := OpenFile.bytes opened in
      if (SearchArgs.max_bytes args <? Search.bytes s + str_len bytes)%N then mret (false, limit "bytes" s) else
      let s := s <| Search.files := (Search.files s + 1)%N |> <| Search.bytes := (Search.bytes s + str_len bytes)%N |> in
      s ← search_lines path (FileIdentity.digest (OpenFile.identity opened)) 0 (split_lines bytes) s;
      mret (true, s)
  | _ => mret (true, skip s)
  end.

Definition child_path (prefix name : string) : string := if str_is_empty prefix then name else prefix +:+ "/" +:+ name.

(** The loop over the entries of a directory, [sub] being the search below it. *)
Fixpoint search_entries (sub : Ino → string → Search.t → FilesTx Search.t) (dir : Ino) (prefix : string)
    (entries : list (option string)) (s : Search.t) : FilesTx Search.t :=
  match entries with
  | [] => mret s
  | entry :: entries =>
      _ ← checked;
      if exhausted s then mret s else
      if (MAX_ENTRIES <=? Search.entries s)%N then mret (limit "entries" s) else
      let s := s <| Search.entries := (Search.entries s + 1)%N |> in
      let continue s := search_entries sub dir prefix entries s in
      match entry with
      | None => continue (skip s)
      | Some name =>
          if str_eqb name "." || str_eqb name ".." then continue s else
          if bool_decide (from_utf8 name = None) then continue (skip s) else
          let path := child_path prefix name in
          if (4096 <? str_len path)%N then continue (skip s) else
          stat ← caught (looking sys (λ d, stat_entry sys d dir name));
          match stat with
          | Err _ => continue (skip s)
          | Ok stat =>
              match Stat.st_type stat with
              | FileType.Directory =>
                  opened ← caught (looking sys (λ d, open_directory sys d dir name));
                  match opened with
                  | Ok child =>
                      stat ← mapped (looking sys (λ d, stat_at sys d child));
                      if (Stat.st_dev stat =? FileWorkspace.device ws)%N
                      then s ← sub child path s; continue s
                      else continue (skip s)
                  | Err _ => continue (skip s)
                  end
              | FileType.RegularFile =>
                  '(more, s) ← search_file dir name path stat s;
                  if more : bool then continue s else mret s
              | _ => continue (skip s)
              end
          end
      end
  end.

(** [Workspace::search_directory], [levels] above the greatest depth. *)
Fixpoint search_directory (levels : nat) (dir : Ino) (prefix : string) (s : Search.t) : FilesTx Search.t :=
  match levels with
  | O => mret (limit "depth" s)
  | S levels =>
      entries ← mapped (looking sys (λ d, Ok (listing sys d dir)));
      search_entries (search_directory levels) dir prefix entries s
  end.

Definition search_reply (s : Search.t) : Value :=
  json_object [("matches", VArray (Search.matches s)); ("files_searched", json_number (Search.files s));
    ("bytes_searched", json_number (Search.bytes s)); ("entries_visited", json_number (Search.entries s));
    ("skipped_entries", json_number (Search.skipped s)); ("complete", VBool (bool_decide (Search.reasons s = [])));
    ("truncated", VBool (negb (bool_decide (Search.reasons s = [])))); ("limits", VArray (VString <$> Search.reasons s))].
(** [Workspace::search] *)
Definition search_workspace : FilesTx Value :=
  _ ← pure (reject_if (negb (search_valid args)) ToolError.InvalidArguments);
  components ← pure (relative (SearchArgs.path args) true);
  dir ← directory components;
  s ← search_directory MAX_DEPTH dir (SearchArgs.path args) Search.new;
  mret (search_reply s).
End search.
End workspace.

(** ** The entry point (capabilities.rs) *)

Inductive Tool : Type := ReadFile | SearchFiles | WriteFile.
Definition tool_of (name : string) : option Tool :=
  if str_eqb name "read_file" then Some ReadFile
  else if str_eqb name "search" then Some SearchFiles
  else if str_eqb name "write_file" then Some WriteFile
  else None.

(** [validate] *)
Definition validate_context (context : ToolContext.t) (arguments : Value) : result unit ToolError.t :=
  let? _ := reject_if (negb (path_is_absolute (ToolContext.workspace context))
                       || (length (components (ToolContext.workspace context)) <=? 1)%nat
                       || (ToolContext.max_output_bytes context <? OUTPUT_METADATA_BYTES)%N
                       || (MAX_OUTPUT_BYTES <? ToolContext.max_output_bytes context)%N
                       || (ToolContext.timeout_ms context =? 0)%N || (3600000 <? ToolContext.timeout_ms context)%N)
              ToolError.InvalidContext in
  let? bytes := ok_or (to_vec arguments) ToolError.RequestTooLarge in
  reject_if (MAX_REQUEST_BYTES <? str_len bytes)%N ToolError.RequestTooLarge.
(** [envelope] *)
Definition tool_envelope (context : ToolContext.t) (reply : Value) : result Value ToolError.t :=
  let value := json_object [("task_id", VString (ToolContext.task_id context)); ("generation", json_number (ToolContext.generation context));
                            ("job_id", VString (ToolContext.job_id context)); ("result", reply)] in
  let? bytes := ok_or (to_vec value) ToolError.OutputBudget in
  let? _ := reject_if (ToolContext.max_output_bytes context <? str_len bytes)%N ToolError.OutputBudget in
  Ok value.

Context `{!FromValue ReadArgs.t, !FromValue SearchArgs.t, !FromValue WriteArgs.t}.
Definition decode_args {A} `{!FromValue A} (arguments : Value) : FilesTx A :=
  pure (ok_or (from_value arguments) ToolError.InvalidArguments).
(** [WorkspaceTools::execute_file_tool] *)
Definition execute_file_tool (name : string) (arguments : Value) (context : ToolContext.t) : FilesTx Value :=
  tool ← pure (ok_or (tool_of name) ToolError.UnknownTool);
  _ ← pure (validate_context context arguments);
  _ ← checked;
  ws ← open_workspace (ToolContext.workspace context);
  reply ← match tool with
          | ReadFile => args ← decode_args arguments; read_workspace ws args context
          | SearchFiles => args ← decode_args arguments; search_workspace ws args context
          | WriteFile =>
              _ ← pure (reject_if (ToolContext.readonly context || negb (ToolContext.can_write context)) ToolError.Readonly);
              args ← decode_args arguments; write_workspace ws args context
          end;
  pure (tool_envelope context reply).
End files.
