(* ===== verification/WorkspaceGuarantees.v ===== *)
(** * What the file tools guarantee

    Whatever other processes do between the calls of a tool: a write changes nothing but
    its staging directory and, in one call, the entry it was asked to change, where the
    expected content was seen; a read returns a content the file had at one moment. On a
    disk that is left alone, a search that reports no limit reports every match. *)

From S2P Require Import Prelude Transactions Digest Contract State Artifacts Workspace Input JsonValue Cost Codec.
From S2P Require Import Secrets Conversation Admission Session Context Submissions Media Decoder Requests Capabilities FileSystem WorkspaceFiles.

(** ** Strings *)

Lemma substring_length s n k : String.length (String.substring n k s) = (k `min` (String.length s - n))%nat.
Proof. revert n k. induction s as [|c s IH]; intros [|n] [|k]; cbn [String.substring String.length]; rewrite ?IH; lia. Qed.
Lemma substring_clip s n k : String.substring n k s = String.substring n (k `min` (String.length s - n)) s.
Proof.
  revert n k. induction s as [|c s IH]; intros n k; [by destruct n, k|]. destruct n as [|n]; [|apply IH].
  destruct k as [|k]; [done|]. cbn [String.length Nat.sub Nat.min String.substring]. f_equal. rewrite (IH 0 k). by rewrite Nat.sub_0_r.
Qed.
(** A prefix, with what follows it. *)
Definition prefix_text (acc s : string) : Prop := acc = String.substring 0 (String.length acc) s.
Lemma prefix_text_more acc s k : prefix_text acc s → prefix_text (acc +:+ String.substring (String.length acc) k s) s.
Proof.
  unfold prefix_text. intros E. pose proof (f_equal String.length E) as El. rewrite substring_length in El.
  rewrite str_length_app, substring_length, substring_split by lia. rewrite <-E. f_equal. apply substring_clip.
Qed.
Lemma prefix_text_whole acc s : prefix_text acc s → str_len acc = str_len s → acc = s.
Proof. unfold prefix_text, str_len. intros E Hl%Nat2N.inj. rewrite E, Hl. apply substring_full. Qed.

(** ** Other processes, and what a tool sees *)

Section world.
Context {SHA : Sha256} {B64 : Base64} `{!Serde Value, !Serde string}.
Variable sys : System.
Variable control : nat → result unit ToolError.t.
Variable staged : string.
Variable ws : FileWorkspace.t.
Implicit Types (d : Disk) (w : World) (seen : list Disk).

Definition before (c : Disk * Disk) : Disk := c.1.
Definition seen_by w : list Disk := before <$> calls w.

#[local] Notation hp := (FileWorkspace.host_parent ws).
#[local] Notation nm := (staging_name staged).

(** The staging directory is private: other processes leave it and its file alone. *)
Definition staged_dir d (s : Ino) : Prop := entry_at d hp nm = Some s.
Definition staging_kept d d' : Prop := ∀ s, staged_dir d s →
  staged_dir d' s ∧ d' !! s = d !! s ∧ ∀ f, entry_at d s "content" = Some f → d' !! f = d !! f.

(** The time of change of an inode never goes back, and moves on with its content. *)
Definition ctime_le (i j : Inode.t) : Prop :=
  (Inode.ctime i < Inode.ctime j ∨ Inode.ctime i = Inode.ctime j ∧ Inode.ctime_nsec i ≤ Inode.ctime_nsec j)%Z.
Definition same_ctime (i j : Inode.t) : Prop := Inode.ctime i = Inode.ctime j ∧ Inode.ctime_nsec i = Inode.ctime_nsec j.
Definition changes_show d d' : Prop := ∀ ino i, d !! ino = Some i →
  ∃ j, d' !! ino = Some j ∧ ctime_le i j ∧ (same_ctime i j → Inode.node j = Inode.node i).

(** The system answers as POSIX documents, and other processes behave: they leave the staging directories alone, and
    whatever they do to a file shows. POSIX does not promise the last: it lets a file change without a new change time
    when two writes fall into one tick of the file system's clock, and use the number of a removed file again while
    nobody has it open. What is proved under it holds of the runs in which neither happens. *)
Record well_behaved : Prop := {
  wb_posix : Posix sys;
  wb_staging n d : staging_kept d (others sys n d);
  wb_changes n d : changes_show d (others sys n d);
}.

Lemma staging_kept_trans d1 d2 d3 : staging_kept d1 d2 → staging_kept d2 d3 → staging_kept d1 d3.
Proof.
  intros H12 H23 s Hs. destruct (H12 s Hs) as (Hs2 & E2 & F2), (H23 s Hs2) as (Hs3 & E3 & F3).
  split_and!; [done|by rewrite E3|]. intros f Hf. rewrite <-(F2 f Hf). apply F3.
  unfold entry_at, entries_at, node_at in *. by rewrite E2.
Qed.
Lemma changes_show_trans d1 d2 d3 : changes_show d1 d2 → changes_show d2 d3 → changes_show d1 d3.
Proof.
  intros H12 H23 ino i Hi. destruct (H12 ino i Hi) as (j & Hj & Hij & Sij), (H23 ino j Hj) as (k & Hk & Hjk & Sjk).
  exists k. unfold ctime_le, same_ctime in *. split_and!; [done|lia|]. intros [E1 E2]. rewrite Sjk, Sij; [done|lia..].
Qed.

(** A disk that is left alone is all that is seen. *)
Definition left_alone d : Prop := ∀ n, others sys n d = d.
(** Calls that only look. *)
Record looked w w' : Prop := {
  lo_calls : ∃ l, calls w' = calls w ++ l ∧ Forall (λ c, c.1 = c.2) l;
  lo_staging : staging_kept (disk w) (disk w');
  lo_changes : changes_show (disk w) (disk w');
  lo_still : left_alone (disk w) → disk w' = disk w ∧ ∀ d, d ∈ seen_by w' → d ∈ seen_by w ∨ d = disk w;
}.
#[local] Instance looked_preorder : PreOrder looked.
Proof.
  split.
  - intros w. split; [exists []; by rewrite app_nil_r|by intros s| |split; [done|by left]].
    intros ino i Hi. exists i. unfold ctime_le. split_and!; [done|lia|done].
  - intros w1 w2 w3 [(l & E & F) A B C] [(l' & E' & F') A' B' C']. split; [|by eapply staging_kept_trans|by eapply changes_show_trans|].
    + exists (l ++ l'). rewrite E', E, app_assoc. split; [done|by apply Forall_app].
    + intros Hd. destruct (C Hd) as [Ed Hs]. rewrite Ed in C'. destruct (C' Hd) as [Ed' Hs']. split; [done|]. intros d [H| ->]%Hs'; [by apply Hs|by right].
Qed.
#[local] Instance everything_kept (grown : relation World) : Keeps (λ _, True) grown.
Proof. done. Qed.
#[local] Notation sees := (Transactions.triple (λ _ : World, True) looked).

Lemma syscall_spec {A} (f : Disk → result (Disk * A) Errno.t) w w' r :
  syscall sys f w = (w', r) →
  let d := others sys (turn w) (disk w) in
  calls w' = calls w ++ [(d, disk w')] ∧ match r with Ok x => f d = Ok (disk w', x) | Err _ => disk w' = d end.
Proof.
  unfold syscall. destruct (refusal _ _); [by intros [= <- <-]|]. destruct (f _) as [[d' x]|e] eqn:Hf; by intros [= <- <-].
Qed.

Lemma looking_spec {A} (f : Disk → result A Errno.t) w w' r :
  well_behaved → looking sys f w = (w', r) →
  looked w w' ∧ disk w' ∈ seen_by w' ∧ (∀ x, r = Ok x → f (disk w') = Ok x) ∧ changes_show (disk w) (disk w').
Proof.
  intros Hwb (Hc & Hr)%syscall_spec. set (d := others sys (turn w) (disk w)) in *. pose proof (wb_staging Hwb (turn w) (disk w)) as Hst. pose proof (wb_changes Hwb (turn w) (disk w)) as Hch.
  assert (Hd : disk w' = d ∧ ∀ x, r = Ok x → f d = Ok x).
  { destruct r as [x|e]; [|done]. apply rbind_Ok in Hr as (y & Hy & [= <- <-]). split; [done|]. by intros ? [= <-]. }
  destruct Hd as [Hd Hx]. rewrite Hd in Hc |- *. fold d in Hst, Hch. split_and!; [|unfold seen_by; rewrite Hc, fmap_app; set_solver|done|done].
  split; rewrite ?Hd; [|done|done|].
  - exists [(d, d)]. split; [done|by constructor].
  - intros Hlo. assert (Hdd : d = disk w) by apply Hlo. split; [done|]. unfold seen_by. rewrite Hc, fmap_app, <-Hdd. set_solver.
Qed.

Lemma seen_looked w w' : looked w w' → seen_by w ⊆ seen_by w'.
Proof. intros [(l & E & _) _ _ _]. unfold seen_by. rewrite E, fmap_app. set_solver. Qed.

Context (WB : well_behaved).

(** What is true of the disks seen stays true. *)
Definition lasting (F : World → Prop) : Prop := ∀ w w', looked w w' → F w → F w'.

Lemma looking_triple {A} P error (f : Disk → result A Errno.t) (Q : A → World → Prop) :
  (∀ w w' x, looked w w' → P w → disk w' ∈ seen_by w' → f (disk w') = Ok x → Q x w') →
  sees P (failing error (looking sys f)) Q.
Proof.
  intros HQ w w' r _ HP. unfold failing. destruct (looking sys f w) as [w1 r1] eqn:Hl. intros [= <- <-].
  destruct (looking_spec _ _ _ _ WB Hl) as (Hlo & Hin & Hx & _). split; [done|]. intros x Hr.
  destruct r1 as [y|]; [|done]. injection Hr as <-. eapply HQ; eauto.
Qed.
Lemma caught_triple {A} P (f : Disk → result A Errno.t) (Q : result A Errno.t → World → Prop) :
  (∀ w w' r, looked w w' → P w → disk w' ∈ seen_by w' → (∀ x, r = Ok x → f (disk w') = Ok x) → Q r w') →
  sees P (caught (looking sys f)) Q.
Proof.
  intros HQ w w' r _ HP. unfold caught. destruct (looking sys f w) as [w1 r1] eqn:Hl. intros [= <- <-].
  destruct (looking_spec _ _ _ _ WB Hl) as (Hlo & Hin & Hx & _). split; [done|]. intros x [= <-]. eapply HQ; eauto.
Qed.
Lemma pure_triple {A} (P : World → Prop) (r : result A ToolError.t) (Q : A → World → Prop) :
  (∀ w x, r = Ok x → P w → Q x w) → sees P (pure r) Q.
Proof. intros HQ. apply triple_query. intros w x _ HP Hr. eauto. Qed.
Lemma checked_triple (P : World → Prop) : sees P (checked control) (λ _, P).
Proof. apply triple_query_any. Qed.

(** *** The walk to a directory *)

Inductive reach (seen : list Disk) : N → list string → N → Prop :=
| reach_here dir : reach seen dir [] dir
| reach_entry dir name child names last d d' i :
    d ∈ seen → d' ∈ seen → entry_at d dir name = Some child → is_Some (entries_at d child) → d' !! child = Some i →
    Inode.dev i = FileWorkspace.device ws → reach seen child names last → reach seen dir (name :: names) last.
Lemma reach_more seen seen' dir names last : seen ⊆ seen' → reach seen dir names last → reach seen' dir names last.
Proof.
  intros Hsub H. induction H as [dir|dir name child names last d d' i Hd Hd' Ho He Hi Hdev _ IH]; [apply reach_here|].
  by apply (reach_entry _ _ _ child _ _ d d' i); [apply Hsub|apply Hsub|..].
Qed.

(** The names of a path: none is a directory's own or its parent's. *)
Definition plain (name : string) : Prop := name ≠ "" ∧ name ≠ "." ∧ name ≠ "..".
Lemma relative_plain path allow_root names : relative path allow_root = Ok names → Forall plain names.
Proof.
  unfold relative. destruct (_ && _); [intros [= <-]; constructor|].
  intros ([] & _ & ([] & Hp%reject_if_Ok & [= <-])%rbind_Ok)%rbind_Ok. apply Forall_forall. intros p Hin.
  rewrite <-not_true_iff_false, existsb_exists in Hp. split_and!; intros ->; apply Hp; (eexists; split; [by apply list_elem_of_In|done]).
Qed.

(** A path leads to a name in a directory, entry by entry from the root. *)
Definition walked seen path dir name : Prop := ∃ names,
  relative path false = Ok (names ++ [name]) ∧ reach seen (FileWorkspace.root ws) names dir.
Lemma walked_lasting path dir name : lasting (λ w, walked (seen_by w) path dir name).
Proof. intros w w' Hlo (names & Hr & Hw). exists names. split; [done|]. eapply reach_more, Hw. by apply seen_looked. Qed.

(** A directory that was opened, and an inode that was looked at. *)
Definition opened_at seen dir name child : Prop := ∃ d, d ∈ seen ∧ entry_at d dir name = Some child ∧ is_Some (entries_at d child).
Definition stat_seen seen ino stat : Prop := ∃ d i, d ∈ seen ∧ d !! ino = Some i ∧ stat = Stat.from_inode ino i.
Lemma opened_lasting dir name child : lasting (λ w, opened_at (seen_by w) dir name child).
Proof. intros w w' Hlo (d & Hd & Ho). exists d. split; [|done]. by apply (seen_looked _ _ Hlo). Qed.
Lemma stat_lasting ino stat : lasting (λ w, stat_seen (seen_by w) ino stat).
Proof. intros w w' Hlo (d & i & Hd & Ho). exists d, i. split; [|done]. by apply (seen_looked _ _ Hlo). Qed.
Lemma opened_seen w d dir name child : d ∈ seen_by w → open_directory sys d dir name = Ok child → name ≠ "." → opened_at (seen_by w) dir name child.
Proof. intros Hd [Hc He]%(px_open_directory _ (wb_posix WB)) Hn. exists d. by rewrite decide_False in Hc. Qed.
Lemma stat_at_seen w d ino stat : d ∈ seen_by w → stat_at sys d ino = Ok stat → stat_seen (seen_by w) ino stat.
Proof. intros Hd (i & Hi & ->)%(px_stat_at _ (wb_posix WB)). by exists d, i. Qed.
Lemma stat_seen_ino seen ino stat : stat_seen seen ino stat → Stat.st_ino stat = ino.
Proof. by intros (d & i & _ & _ & ->). Qed.

Lemma reach_step seen dir name child names last stat :
  opened_at seen dir name child → stat_seen seen child stat → Stat.st_dev stat = FileWorkspace.device ws → reach seen child names last →
  reach seen dir (name :: names) last.
Proof. intros (d & Hd & Ho & He) (d' & i & Hd' & Hi & ->) Hdev Hr. by apply (reach_entry _ _ _ child _ _ d d' i). Qed.

Lemma descend_sees dir names :
  Forall plain names → sees (λ _, True) (descend sys ws dir names) (λ last w, reach (seen_by w) dir names last).
Proof.
  intros Hp. revert dir. induction Hp as [|name names Hname Hp IH]; intros dir; [by apply triple_ret; intros w _; constructor|].
  eapply triple_bind; [apply (looking_triple _ _ _ (λ child w, opened_at (seen_by w) dir name child))|].
  { intros w w' x _ _ Hin Hx. eapply opened_seen; [done..|]. by destruct Hname as (_ & ? & _). }
  intros child. eapply triple_bind.
  { eapply (looking_triple _ _ _ (λ stat w, opened_at (seen_by w) dir name child ∧ stat_seen (seen_by w) child stat)).
    intros w w' x Hlo Ho Hin Hx. split; [by eapply opened_lasting|by eapply stat_at_seen]. }
  intros stat. set (F := λ w, opened_at (seen_by w) dir name child ∧ stat_seen (seen_by w) child stat ∧
    Stat.st_dev stat = FileWorkspace.device ws).
  assert (HF : lasting F) by (intros w w' Hlo (Ho & Hs & Hdev); split_and!; [by eapply opened_lasting|by eapply stat_lasting|done]).
  eapply triple_bind.
  { apply (pure_triple _ _ (λ _ w, True ∧ F w)). by intros w [] Hdev%reject_if_Ok%negb_false_iff%N.eqb_eq [Ho Hs]. }
  intros []. eapply triple_weaken; [exact (triple_frame _ _ _ F HF (IH child))|done|].
  intros last w (Hreach & Ho & Hs & Hdev). by eapply reach_step.
Qed.

Lemma directory_sees names :
  Forall plain names → sees (λ _, True) (directory sys ws names) (λ dir w, reach (seen_by w) (FileWorkspace.root ws) names dir).
Proof.
  intros Hp. eapply triple_bind; [apply (looking_triple _ _ _ (λ start w, True ∧ start = FileWorkspace.root ws))|].
  { intros w w' start _ _ _ Hx. split; [done|]. by apply (px_open_directory _ (wb_posix WB)) in Hx as [Hx _]. }
  intros start. eapply triple_weaken; [eapply (triple_frame _ _ _ (λ _, start = FileWorkspace.root ws)); [by intros|by apply descend_sees]|done|].
  by intros dir w [Hr ->].
Qed.

Lemma parent_sees path : sees (λ _, True) (parent sys ws path) (λ '(dir, name) w, walked (seen_by w) path dir name).
Proof.
  unfold parent. intros w w' r _ _. unfold mbind, tx_bind, pure, query. destruct (relative path false) as [names|e] eqn:Hnames; [|by intros [= <- <-]].
  pose proof (relative_plain _ _ _ Hnames) as Hp. destruct (reverse names) as [|name rest] eqn:Hr; [by intros [= <- <-]|].
  assert (names = reverse rest ++ [name]) as -> by (by rewrite <-(reverse_involutive names), Hr, reverse_cons).
  apply Forall_app in Hp as [Hp _].
  refine ((_ : sees (λ _, True) (dir ← directory sys ws (reverse rest); mret (dir, name)) (λ '(dir, name) w, walked (seen_by w) path dir name)) w w' r I I).
  eapply triple_bind; [by apply directory_sees|]. intros dir. apply triple_ret. intros w1 Hd. by exists (reverse rest).
Qed.

(** *** An open file *)

(** The file holds the beginning of [content] in [acc], unless it changed since [i]. *)
Definition reading (file : N) (i : Inode.t) (content acc : string) w : Prop := ∃ j,
  disk w !! file = Some j ∧ ctime_le i j ∧ (same_ctime i j → Inode.node j = Bytes content ∧ prefix_text acc content).
Lemma reading_lasting file i content acc : lasting (reading file i content acc).
Proof.
  intros w w' [_ _ Hch _] (j & Hj & Hij & Hs). destruct (Hch file j Hj) as (k & Hk & Hjk & Hsk). exists k.
  unfold ctime_le, same_ctime in *. split_and!; [done|lia|]. intros [E1 E2]. destruct Hs as [Hn Hp]; [lia|]. by rewrite Hsk, Hn by lia.
Qed.

Lemma read_chunks_sees fuel file max_bytes i content acc :
  sees (reading file i content acc) (read_chunks sys control fuel file max_bytes acc) (λ bytes, reading file i content bytes).
Proof.
  revert acc. induction fuel as [|fuel IH]; intros acc; cbn [read_chunks]; [by apply triple_ret|].
  destruct (_ <=? _)%N; [by apply triple_ret|]. eapply triple_bind; [apply checked_triple|]. intros [].
  eapply triple_bind.
  { apply (looking_triple _ _ _ (λ more, reading file i content (acc +:+ more))). intros w w' more Hlo Hr _ Hx.
    eapply reading_lasting in Hr; [|exact Hlo]. destruct Hr as (j & Hj & Hij & Hs). exists j. split_and!; [done..|].
    intros E. destruct (Hs E) as [Hn Hp]. split; [done|].
    destruct (px_read_at _ (wb_posix WB) _ _ _ _ _ content Hx) as (n & _ & ->); [unfold node_at; rewrite Hj; cbn; by rewrite Hn|].
    unfold str_len. rewrite Nat2N.id. by apply prefix_text_more. }
  intros more. destruct more as [|c more]; cbn [str_is_empty]; [|apply IH]. apply triple_ret. intros w. by rewrite str_app_nil_r.
Qed.

(** A file that was seen whole: the content it had when its state was taken. *)
Definition seen_file seen dir name (o : OpenFile.t) : Prop := ∃ d d' i,
  d ∈ seen ∧ d' ∈ seen ∧ entry_at d dir name = Some (OpenFile.file o) ∧ d' !! OpenFile.file o = Some i ∧
  OpenFile.stat o = Stat.from_inode (OpenFile.file o) i ∧ Inode.node i = Bytes (OpenFile.bytes o) ∧
  Inode.nlink i = 1%N ∧ Inode.dev i = FileWorkspace.device ws ∧
  OpenFile.identity o = FileIdentity.mk (digest_of (OpenFile.bytes o)) (str_len (OpenFile.bytes o)) (Inode.mode i).
Lemma seen_file_lasting dir name o : lasting (λ w, seen_file (seen_by w) dir name o).
Proof.
  intros w w' Hlo (d & d' & i & Hd & Hd' & H). exists d, d', i.
  split; [by apply (seen_looked _ _ Hlo)|split; [by apply (seen_looked _ _ Hlo)|exact H]].
Qed.

Lemma snapshot_ctime ino i j :
  same_snapshot (Stat.from_inode ino i) (Stat.from_inode ino j) = true → same_ctime i j.
Proof. unfold same_snapshot. rewrite !andb_true_iff. cbn. intros ((((((((? & ?) & ?) & ?) & ?) & ?) & ?) & ?) & ?). unfold same_ctime. lia. Qed.

Lemma open_file_sees dir name max_bytes :
  name ≠ "." → sees (λ _, True) (open_file sys control ws dir name max_bytes)
    (λ o w, match o with Some o => seen_file (seen_by w) dir name o | None => True end).
Proof.
  intros Hname. eapply triple_bind; [apply checked_triple|]. intros []. eapply triple_bind.
  { apply (caught_triple _ _ (λ r w, match r with Ok file => ∃ d, d ∈ seen_by w ∧ entry_at d dir name = Some file | Err _ => True end)).
    intros w w' [file|e] _ _ Hin Hx; [|done]. exists (disk w'). split; [done|].
    specialize (Hx file eq_refl). by apply (px_open_reading _ (wb_posix WB)) in Hx as [? _]. }
  intros [file|e]; [|destruct e; first [by apply pure_triple|by apply triple_ret]]. eapply triple_bind.
  { apply (looking_triple _ _ _ (λ stat w, ∃ d d' i, d ∈ seen_by w ∧ d' ∈ seen_by w ∧ entry_at d dir name = Some file ∧ d' !! file = Some i ∧
      stat = Stat.from_inode file i ∧ d' = disk w)).
    intros w w' stat Hlo (d & Hd & Ho) Hin (i & Hi & ->)%(px_stat_at _ (wb_posix WB)).
    exists d, (disk w'), i. split_and!; try done. by apply (seen_looked _ _ Hlo). }
  intros stat. set (K := λ i content w, seen_file (seen_by w) dir name (OpenFile.mk file stat content
    (FileIdentity.mk (digest_of content) (str_len content) (Stat.st_mode stat))) ∧ stat = Stat.from_inode file i ∧ Inode.node i = Bytes content).
  eapply triple_bind.
  { apply (pure_triple _ _ (λ _ w, ∃ i content, K i content w ∧ reading file i content EmptyString w)).
    intros w [] Hreg%reject_if_Ok (d & d' & i & Hd & Hd' & Ho & Hi & -> & ->). apply orb_false_iff in Hreg as [Hreg Hdev%negb_false_iff%N.eqb_eq].
    apply orb_false_iff in Hreg as [Htype%negb_false_iff%bool_decide_eq_true Hlink%negb_false_iff%N.eqb_eq]. cbn in *.
    destruct (Inode.node i) as [content| | |] eqn:Hn; try done. exists i, content. split.
    - split; [|done]. by exists d, (disk w), i.
    - exists i. unfold ctime_le, prefix_text. split_and!; [done|lia|]. intros _. split; [done|]. by destruct content. }
  intros []. eapply triple_bind; [apply triple_query_any|]. intros []. cbv beta.
  apply triple_exists. intros i. apply triple_exists. intros content.
  assert (HK : lasting (K i content)) by (intros w w' Hlo [? ?]; split; [by eapply seen_file_lasting|done]).
  eapply triple_bind.
  { eapply triple_weaken; [exact (triple_frame _ _ _ (K i content) HK (read_chunks_sees _ file max_bytes i content EmptyString))|by intros w []|].
    intros bytes w HQ. exact HQ. }
  intros bytes. destruct (negb (str_len bytes =? Stat.st_size stat)%N) eqn:Hlen; [by apply pure_triple|].
  apply negb_false_iff, N.eqb_eq in Hlen. eapply triple_bind.
  { apply (looking_triple _ _ _ (λ after w, reading file i content bytes w ∧ K i content w ∧ ∃ j, disk w !! file = Some j ∧ after = Stat.from_inode file j)).
    intros w w' after Hlo [Hr HKw] _ (j & Hj & ->)%(px_stat_at _ (wb_posix WB)). split_and!; [by eapply reading_lasting|by eapply HK|by exists j]. }
  intros after. eapply triple_bind.
  { apply (pure_triple _ _ (λ _ w, K i bytes w)). intros w [] Hsame%reject_if_Ok%negb_false_iff ((j & Hj & _ & Hs) & [HKw [-> Hn]] & (j' & Hj' & ->)).
    assert (j' = j) as -> by congruence. destruct Hs as [_ Hp]; [by eapply snapshot_ctime|].
    assert (bytes = content) as -> by (apply prefix_text_whole; [done|]; by rewrite Hlen; cbn; rewrite Hn). done. }
  intros []. apply triple_ret. by intros w [Hw _].
Qed.

(** *** Revalidation *)

(** What is known of an entry that was expected: where a digest was, a file of that
    digest was seen under the name. *)
Definition expected_seen seen dir name (expected : Expected.t) : Prop :=
  match expected with
  | Expected.Absent => True
  | Expected.Digest digest => ∃ o, seen_file seen dir name o ∧ digest_of (OpenFile.bytes o) = digest
  end.
Lemma expected_lasting dir name expected : lasting (λ w, expected_seen (seen_by w) dir name expected).
Proof. intros w w' Hlo. destruct expected; [done|]. intros (o & Ho & Hd). exists o. split; [by eapply seen_file_lasting|done]. Qed.

Lemma check_expected_seen seen dir name expected o :
  check_expected expected o = Ok tt → match o with Some o => seen_file seen dir name o | None => True end →
  expected_seen seen dir name expected.
Proof.
  destruct expected as [|digest], o as [o|]; cbn; try done. case_bool_decide as Hd; [|done]. intros _ Ho. exists o. split; [done|].
  destruct Ho as (d & d' & i & _ & _ & _ & _ & _ & _ & _ & _ & Hid). by rewrite Hd, Hid.
Qed.

Definition revalidated seen path dir name expected : Prop :=
  (∃ name', walked seen path dir name') ∧ expected_seen seen dir name expected.
Lemma revalidated_lasting path dir name expected : lasting (λ w, revalidated (seen_by w) path dir name expected).
Proof. intros w w' Hlo [[name' Hw] He]. split; [exists name'; by eapply walked_lasting|by eapply expected_lasting]. Qed.

Lemma revalidate_sees path dir name original expected :
  name ≠ "." → sees (λ _, True) (revalidate sys control ws path dir name original expected)
    (λ _ w, revalidated (seen_by w) path dir name expected).
Proof.
  intros Hname. eapply triple_bind; [apply parent_sees|]. intros [dir' name'].
  eapply triple_bind; [apply (looking_triple _ _ _ (λ before w, Stat.st_ino before = dir ∧ walked (seen_by w) path dir' name'))|].
  { intros w w' x Hlo Hw _ Hx. split; [|by eapply walked_lasting]. by apply (px_stat_at _ (wb_posix WB)) in Hx as (i & _ & ->). }
  intros before. eapply triple_bind.
  { apply (looking_triple _ _ _ (λ now w, Stat.st_ino before = dir ∧ Stat.st_ino now = dir' ∧ walked (seen_by w) path dir' name')).
    intros w w' x Hlo [Hb Hw] _ Hx. split_and!; [done| |by eapply walked_lasting]. by apply (px_stat_at _ (wb_posix WB)) in Hx as (i & _ & ->). }
  intros now. set (F := λ w, ∃ name', walked (seen_by w) path dir name').
  assert (HF : lasting F) by (intros w w' Hlo [n Hn]; exists n; by eapply walked_lasting).
  eapply triple_bind.
  { apply (pure_triple _ _ (λ _ w, True ∧ F w)). intros w [] Hs%reject_if_Ok%negb_false_iff (Hb & Hn & Hw). split; [done|].
    unfold same_inode in Hs. apply andb_true_iff in Hs as [_ Hi%N.eqb_eq]. assert (dir' = dir) as -> by congruence. by exists name'. }
  intros []. eapply triple_bind; [exact (triple_frame _ _ _ F HF (open_file_sees dir name MAX_FILE_BYTES Hname))|]. intros current.
  eapply triple_bind.
  { apply (pure_triple _ _ (λ _ w, revalidated (seen_by w) path dir name expected)). intros w [] Hc [Ho Hw].
    split; [exact Hw|by eapply check_expected_seen]. }
  intros []. destruct original as [original|]; [|by apply triple_ret]. destruct current as [current|]; [|by apply triple_ret].
  eapply triple_bind; [apply (pure_triple _ _ (λ _ w, revalidated (seen_by w) path dir name expected)); by intros|]. intros [].
  eapply triple_bind; [|intros stat; by apply pure_triple; intros w [] _ HP; exact HP].
  apply (looking_triple _ _ _ (λ _ w, revalidated (seen_by w) path dir name expected)). intros w w' x Hlo Hr _ _. by eapply revalidated_lasting.
Qed.

(** *** The staging directory *)

Definition staged_entry d dir name : Prop := (dir, name) = (hp, nm) ∨ (staged_dir d dir ∧ name = "content").
Definition staged_file d f : Prop := ∃ s, staged_dir d s ∧ entry_at d s "content" = Some f.
(** A call that changes nothing outside of it. *)
Definition private d d' : Prop := changes_only (staged_entry d) (staged_file d) d d'.

Definition privately w w' : Prop := ∃ l, calls w' = calls w ++ l ∧ Forall (λ c, private c.1 c.2) l.
Record staging w w' : Prop := {
  sg_calls : privately w w';
  sg_dir s : staged_dir (disk w) s → staged_dir (disk w') s;
}.
#[local] Instance privately_preorder : PreOrder privately.
Proof.
  split; [intros w; exists []; by rewrite app_nil_r|]. intros w1 w2 w3 (l & E & F) (l' & E' & F'). exists (l ++ l').
  rewrite E', E, app_assoc. split; [done|by apply Forall_app].
Qed.
#[local] Instance staging_preorder : PreOrder staging.
Proof. split; [by intros w|]. intros w1 w2 w3 [A1 A2] [B1 B2]. split; [by etrans|auto]. Qed.
#[local] Notation stages := (Transactions.triple (λ _ : World, True) staging).
#[local] Notation keeps_private := (Transactions.triple (λ _ : World, True) privately).

Lemma private_refl d : private d d.
Proof. apply changes_only_refl. Qed.
Lemma looked_staging w w' : looked w w' → staging w w'.
Proof.
  intros [(l & E & F) Hst _ _]. split; [|intros s Hs; by apply Hst]. exists l. split; [done|]. eapply Forall_impl; [exact F|].
  intros [d d'] E'. cbn in *. subst. apply private_refl.
Qed.
Lemma staging_private w w' : staging w w' → privately w w'.
Proof. by intros []. Qed.

Lemma nm_not_dot : nm ≠ ".".
Proof. unfold staging_name. by intros [=]. Qed.
Lemma nm_not_content : nm ≠ "content".
Proof. unfold staging_name. by intros [=]. Qed.

(** A call that may change the disk. *)
Lemma syscall_privately {A} P error (f : Disk → result (Disk * A) Errno.t) (Q : A → World → Prop) :
  (∀ w d d' x, P w → staging_kept (disk w) d → f d = Ok (d', x) → private d d' ∧ Q x (mk_world d' (calls w ++ [(d, d')]))) →
  keeps_private P (failing error (syscall sys f)) Q.
Proof.
  intros Hf w w' r _ HP. unfold failing. destruct (syscall sys f w) as [w1 r1] eqn:Hs. intros [= <- <-]. apply syscall_spec in Hs as [Hc Hr].
  set (d := others sys (turn w) (disk w)) in *. pose proof (wb_staging WB (turn w) (disk w)) as Hst. fold d in Hst. destruct r1 as [y|e].
  - destruct (Hf w d (disk w1) y HP Hst Hr) as [Hp HQ]. split; [exists [(d, disk w1)]; split; [done|by constructor]|].
    intros x [= <-]. destruct w1. cbn in *. by rewrite Hc.
  - split; [|by intros x]. exists [(d, disk w1)]. split; [done|]. constructor; [|done]. cbn. rewrite Hr. apply private_refl.
Qed.
Lemma syscall_stages {A} P error (f : Disk → result (Disk * A) Errno.t) (Q : A → World → Prop) :
  (∀ w d d' x, P w → staging_kept (disk w) d → f d = Ok (d', x) →
     private d d' ∧ (∀ s, staged_dir d s → staged_dir d' s) ∧ Q x (mk_world d' (calls w ++ [(d, d')]))) →
  stages P (failing error (syscall sys f)) Q.
Proof.
  intros Hf w w' r _ HP H. split; [split|].
  - eapply (syscall_privately P error f (λ _ _, True)); [|done|exact HP|exact H]. intros w0 d d' x H0 Hk Hx. by destruct (Hf _ _ _ _ H0 Hk Hx).
  - intros s Hs. unfold failing in H. destruct (syscall sys f w) as [w1 r1] eqn:Hsys. injection H as <- <-.
    apply syscall_spec in Hsys as [_ Hr]. pose proof (wb_staging WB (turn w) (disk w)) as Hst. destruct (Hst s Hs) as (Hs' & _). destruct r1 as [y|e].
    + by eapply Hf.
    + by rewrite Hr.
  - intros x Hx. eapply (syscall_privately P error f Q); [|done|exact HP|exact H|exact Hx]. intros w0 d d' y H0 Hk Hy.
    by destruct (Hf _ _ _ _ H0 Hk Hy) as (? & _ & ?).
Qed.

(** The staged file, with what it holds so far and what is known of its mode. *)
Definition holding s f bytes (mode : N → Prop) d : Prop :=
  staged_dir d s ∧ entry_at d s "content" = Some f ∧ ∃ i, d !! f = Some i ∧ Inode.node i = Bytes bytes ∧ mode (Inode.mode i).
Lemma holding_kept s f bytes mode d d' : staging_kept d d' → holding s f bytes mode d → holding s f bytes mode d'.
Proof.
  intros Hk (Hs & Hf & i & Hi & Hn & Hm). destruct (Hk s Hs) as (Hs' & Es & Hfile). split_and!; [done| |].
  - unfold entry_at, entries_at, node_at in *. by rewrite Es.
  - exists i. by rewrite (Hfile f Hf).
Qed.
Lemma holding_lasting s f bytes mode : lasting (λ w, holding s f bytes mode (disk w)).
Proof. intros w w' [_ Hk _ _]. by apply holding_kept. Qed.
Lemma holding_node s f bytes mode d : holding s f bytes mode d → node_at d f = Some (Bytes bytes).
Proof. intros (_ & _ & i & Hi & Hn & _). unfold node_at. rewrite Hi. cbn. by rewrite Hn. Qed.

(** Changes elsewhere do not move the staging directory. *)
Lemma staged_dir_changes E C d d' s : changes_only E C d d' → ¬ E hp nm → staged_dir d s → staged_dir d' s.
Proof. intros [He _] Hn. unfold staged_dir. by rewrite He. Qed.
Lemma file_changes f bytes more (mode mode' : N → Prop) j d d' s :
  changes_only no_entry (one_file f) d d' → d' !! f = Some j → Inode.node j = Bytes more → mode' (Inode.mode j) →
  holding s f bytes mode d → private d d' ∧ (∀ s, staged_dir d s → staged_dir d' s) ∧ holding s f more mode' d'.
Proof.
  intros Hch Hi Hn Hm (Hs & Hf & _). split_and!.
  - eapply changes_only_more; [| |exact Hch]; [done|]. intros a ->. by exists s.
  - intros s' Hs'. apply (staged_dir_changes _ _ _ _ _ Hch); [intros []|done].
  - split_and!; [apply (staged_dir_changes _ _ _ _ _ Hch); [intros []|done]|by rewrite (co_entries _ _ _ _ Hch) by auto|by exists j].
Qed.

Lemma caught_failing {A} (grown : relation World) error P (m : Tx World Errno.t A) (Q : A → World → Prop) :
  Transactions.triple (λ _, True) grown P (failing error m) Q →
  Transactions.triple (λ _, True) grown P (caught m) (λ r w, match r with Ok x => Q x w | Err _ => True end).
Proof.
  intros Hm w w' r Hg HP. unfold caught. specialize (Hm w). unfold failing in Hm. destruct (m w) as [w1 r1]. intros [= <- <-].
  destruct (Hm w1 _ Hg HP eq_refl) as [Hgr HQ]. split; [done|]. intros x [= <-]. destruct r1; [by apply HQ|done].
Qed.
Lemma remove_private :
  keeps_private (λ _, True) (caught (changing sys (λ d, remove_directory sys d hp nm))) (λ _ _, True).
Proof.
  assert (H : keeps_private (λ _, True) (failing map_error (changing sys (λ d, remove_directory sys d hp nm))) (λ _ _, True)).
  { apply syscall_privately. intros w d d' [] _ _ H. apply rbind_Ok in H as (d1 & Hr & [= <-]). split; [|done]. apply (px_remove_directory _ (wb_posix WB)) in Hr.
    eapply changes_only_more; [| |exact Hr]; [|done]. intros a b E. by left. }
  eapply triple_weaken; [exact (caught_failing _ _ _ _ _ H)|done|by intros].
Qed.

Lemma new_staging_private : keeps_private (λ _, True) (new_staging sys staged ws) (λ s w, staged_dir (disk w) s).
Proof.
  eapply triple_bind; [eapply triple_coarser; [|apply (looking_triple (λ _, True) _ _ (λ _ _, True)); done]; intros w w' Hlo; by apply staging_private, looked_staging|].
  intros stat. eapply triple_bind; [by apply triple_query_any|]. intros []. eapply triple_bind.
  { apply (syscall_privately _ _ _ (λ _ _, True)). intros w d d' [] _ _ H. apply rbind_Ok in H as (d1 & Hch & [= <-]). split; [|done]. apply (px_make_directory _ (wb_posix WB)) in Hch.
    eapply changes_only_more; [| |exact Hch]; [|done]. intros a b E. by left. }
  intros []. eapply triple_bind.
  { eapply triple_coarser; [intros w w' Hlo; apply staging_private, looked_staging, Hlo|].
    apply (caught_triple (λ _, True) _ (λ r w, match r with Ok dir => staged_dir (disk w) dir | Err _ => True end)).
    intros w w' [dir|e] _ _ _ Hx; [|done]. specialize (Hx dir eq_refl). apply (px_open_directory _ (wb_posix WB)) in Hx as [Hx _].
    rewrite decide_False in Hx by apply nm_not_dot. done. }
  intros [dir|e]; [by apply triple_ret|]. eapply triple_bind; [apply remove_private|]. intros r. by apply triple_query.
Qed.

(** Dropping it: the file is unlinked first, if it is still there. *)
Lemma drop_staging_private s : keeps_private (λ w, staged_dir (disk w) s) (drop_staging sys staged ws s) (λ _ _, True).
Proof.
  assert (Hu : keeps_private (λ w, staged_dir (disk w) s) (failing map_error (changing sys (λ d, unlink sys d s "content"))) (λ _ _, True)).
  { apply syscall_privately. intros w d d' [] Hs Hk H. destruct (Hk s Hs) as (Hs' & _). apply rbind_Ok in H as (d1 & Hu & [= <-]).
    split; [|done]. apply (px_unlink _ (wb_posix WB)) in Hu as [Hch _].
    eapply changes_only_more; [| |exact Hch]; [|done]. intros a b [= -> ->]. by right. }
  eapply triple_bind; [exact (caught_failing _ _ _ _ _ Hu)|]. intros r.
  eapply triple_bind; [eapply triple_weaken; [exact remove_private|done|by intros x w H; exact H]|]. intros r'. by apply triple_ret.
Qed.

(** Writing the staged file, chunk by chunk. *)
Lemma write_chunks_stages fuel s f mode written content :
  (String.length content ≤ fuel)%nat →
  stages (λ w, holding s f written mode (disk w)) (write_chunks sys control fuel f content)
    (λ _ w, holding s f (written +:+ content) mode (disk w)).
Proof.
  revert written content. induction fuel as [|fuel IH]; intros written content Hfuel; cbn [write_chunks].
  { destruct content; [|cbn in Hfuel; lia]. apply triple_ret. by intros w; rewrite str_app_nil_r. }
  destruct content as [|c content]; cbn [str_is_empty]; [apply triple_ret; by intros w; rewrite str_app_nil_r|].
  set (text := String c content) in *. set (n := N.min CHUNK (str_len text)).
  assert (Hn : (0 < N.to_nat n ≤ String.length text)%nat) by (unfold n, CHUNK, str_len; cbn; lia).
  assert (Hsplit : text = bytes_slice text 0 n +:+ bytes_slice text n (str_len text)).
  { unfold bytes_slice, str_len. rewrite N.sub_0_r. replace (N.to_nat (N.of_nat (String.length text) - n)) with (String.length text - N.to_nat n)%nat by lia.
    rewrite <-(substring_split 0 (N.to_nat n)) by lia. replace (N.to_nat n + _)%nat with (String.length text) by lia. by rewrite substring_full. }
  eapply triple_bind; [eapply triple_coarser; [apply looked_staging|apply checked_triple]|]. intros [].
  eapply triple_bind.
  { apply (syscall_stages _ _ _ (λ _ w, holding s f (written +:+ bytes_slice text 0 n) mode (disk w))). intros w d d' [] Hw Hk H.
    apply rbind_Ok in H as (d1 & Ha & [= <-]). apply (holding_kept _ _ _ _ _ _ Hk) in Hw. pose proof Hw as (_ & _ & i & Hi & _ & Hmode).
    destruct (px_append _ (wb_posix WB) _ _ _ _ _ Ha (holding_node _ _ _ _ _ Hw)) as (Hch & i' & j & Hi' & Hj & Hn' & Hm').
    assert (i' = i) as -> by congruence. eapply (file_changes _ _ _ _ _ _ _ _ _ Hch Hj Hn'); [by rewrite Hm'|exact Hw]. }
  intros []. eapply triple_weaken; [apply (IH (written +:+ bytes_slice text 0 n))|done|].
  - unfold bytes_slice. rewrite substring_length. unfold str_len in *. lia.
  - intros [] w. by rewrite str_app_assoc, <-Hsplit.
Qed.

(** All that is done before publication. *)
Lemma stage_content_stages path dir name original expected content mode s :
  name ≠ "." → stages (λ w, staged_dir (disk w) s) (stage_content sys control ws path dir name original expected content mode s)
    (λ _ w, (∃ f, holding s f content (.= mode) (disk w)) ∧ revalidated (seen_by w) path dir name expected).
Proof.
  intros Hname. assert (Hcheck : ∀ (P : World → Prop), stages P (checked control) (λ _, P)).
  { intros P. eapply triple_coarser; [apply looked_staging|apply checked_triple]. }
  eapply triple_bind.
  { apply (syscall_stages _ _ _ (λ f w, holding s f "" (λ _, True) (disk w))). intros w d d' f Hs Hk Hc. destruct (Hk s Hs) as (Hs' & _).
    apply (px_create_file _ (wb_posix WB)) in Hc as (Hch & Hentry & Hnode).
    assert (Hd : ∀ s', staged_dir d s' → staged_dir d' s').
    { intros s' H. apply (staged_dir_changes _ _ _ _ _ Hch); [|done]. by intros [= _ ?]. }
    unfold node_at in Hnode. destruct (d' !! f) as [i|] eqn:Hi; [|done]. injection Hnode as Hnode.
    split; [|split; [done|split_and!; [by apply Hd|done|by exists i]]]. eapply changes_only_more; [| |exact Hch]; [|done]. intros a b [= -> ->]. by right. }
  intros f. eapply triple_bind; [by apply write_chunks_stages|]. intros []. eapply triple_bind.
  { apply (syscall_stages _ _ _ (λ _ w, holding s f content (.= mode) (disk w))). intros w d d' [] Hw Hk H.
    apply rbind_Ok in H as (d1 & Hm & [= <-]). apply (holding_kept _ _ _ _ _ _ Hk) in Hw.
    destruct (px_change_mode _ (wb_posix WB) _ _ _ _ _ Hm (holding_node _ _ _ _ _ Hw)) as (Hch & j & Hj & Hn & Hmode). by eapply file_changes. }
  intros []. eapply triple_bind.
  { eapply triple_coarser; [apply looked_staging|]. apply (looking_triple _ _ _ (λ _ w, True ∧ holding s f content (.= mode) (disk w))).
    intros w w' x Hlo Hw _ _. split; [done|by eapply holding_lasting]. }
  intros []. eapply triple_bind; [apply Hcheck|]. intros []. eapply triple_bind.
  { eapply triple_coarser; [apply looked_staging|].
    exact (triple_frame _ _ _ _ (holding_lasting s f content (.= mode)) (revalidate_sees path dir name original expected Hname)). }
  intros []. eapply triple_weaken; [apply Hcheck|intros w Hw; exact Hw|]. intros [] w [Hr Hh]. split; [by exists f|done].
Qed.

(** ** Publication *)

(** A call that puts a file of this content and mode under the name. *)
Definition replaced dir name (expected : Expected.t) content mode d d' : Prop :=
  changes_only (λ a b, (a, b) = (dir, name) ∨ staged_entry d a b) (λ _, False) d d' ∧
  (expected = Expected.Absent → entry_at d dir name = None) ∧
  ∃ f i, entry_at d' dir name = Some f ∧ d' !! f = Some i ∧ Inode.node i = Bytes content ∧ Inode.mode i = mode.
(** A call that takes the name away. *)
Definition removed dir name d d' : Prop :=
  changes_only (λ a b, (a, b) = (dir, name)) (λ _, False) d d' ∧ is_Some (entry_at d dir name) ∧ entry_at d' dir name = None.

Lemma publish_spec dir name expected s f content mode w w' r :
  holding s f content (.= mode) (disk w) → publish sys dir name expected s w = (w', r) →
  ∃ d, calls w' = calls w ++ [(d, disk w')] ∧ staged_dir (disk w') s ∧
    match r with Ok _ => replaced dir name expected content mode d (disk w') | Err _ => disk w' = d end.
Proof.
  intros Hw H. unfold publish, mapped, failing in H. destruct (changing _ _ w) as [w1 r1] eqn:Hc. injection H as <- <-.
  apply syscall_spec in Hc as [Hcalls Hr]. set (d := others sys (turn w) (disk w)) in *. exists d. split; [done|].
  pose proof (wb_staging WB (turn w) (disk w)) as Hk. fold d in Hk. apply (holding_kept _ _ _ _ _ _ Hk) in Hw. pose proof Hw as (Hs & Hf & i & Hi & Hn & Hm).
  destruct r1 as [[]|e]; [|by rewrite Hr]. apply rbind_Ok in Hr as (d1 & Hren & [= ->]).
  assert (Hcf : "content" ≠ ".") by done.
  destruct (px_rename _ (wb_posix WB) _ _ _ _ _ _ _ _ _ Hren Hcf Hf (holding_node _ _ _ _ _ Hw)) as (Hch & Hto & Hno & Hdir).
  assert (Hne : (dir, name) ≠ (hp, nm)).
  { intros [= -> ->]. specialize (Hdir s Hs). unfold entry_at in Hf. by rewrite Hdir in Hf. }
  split; [apply (staged_dir_changes _ _ _ _ _ Hch); [|done]; intros [E|E]; [by injection E|by apply Hne]|].
  split_and!.
  - eapply changes_only_more; [| |exact Hch]; [|done]. intros a b [[= -> ->]|E]; [right; by right|by left].
  - intros ->. by apply Hno.
  - destruct (co_files _ _ _ _ Hch f i) as (j & Hj & Hmj & Hnj); [by intros []|done|]. exists f, j. split_and!; [done|done|by apply Hnj|congruence].
Qed.

Lemma looked_privately w w' : looked w w' → privately w w'.
Proof. intros H. by apply staging_private, looked_staging. Qed.
Lemma seen_privately w w' : privately w w' → seen_by w ⊆ seen_by w'.
Proof. intros (l & E & _). unfold seen_by. rewrite E, fmap_app. set_solver. Qed.

(** What replacing or deleting does, in one call or not at all. *)
Definition in_one_call (change : Disk → Disk → Prop) (F : World → Prop) w w' : Prop := ∃ w1 d d' w2,
  privately w w1 ∧ F w1 ∧ calls w2 = calls w1 ++ [(d, d')] ∧ change d d' ∧ privately w2 w'.

Lemma drop_staging_run s w :
  staged_dir (disk w) s → ∃ w', drop_staging sys staged ws s w = (w', Ok tt) ∧ privately w w'.
Proof.
  intros Hs. destruct (drop_staging sys staged ws s w) as [w' r] eqn:H. exists w'.
  destruct (drop_staging_private s w w' r I Hs H) as [Hp _]. split; [|done]. f_equal. revert H.
  unfold drop_staging, mbind, tx_bind, caught. destruct (changing _ _ w) as [w1 r1]. destruct (changing _ _ w1) as [w2 r2]. by intros [= _ <-].
Qed.

Lemma replace_file_spec path dir name original expected content mode w w' r :
  name ≠ "." → replace_file sys control staged ws path dir name original expected content mode w = (w', r) →
  (privately w w' ∧ ∃ e, r = Err e) ∨
  (in_one_call (replaced dir name expected content mode) (λ w, revalidated (seen_by w) path dir name expected) w w' ∧ r = Ok tt).
Proof.
  intros Hname H. unfold replace_file in H. apply (triple_run _ _ _ _ _ _ _ new_staging_private I I) in H as [|(w1 & s & Hpriv & Hs & H)]; [by left|].
  destruct ((stage_content sys control ws path dir name original expected content mode s ≫= λ _, publish sys dir name expected s) w1)
    as [w3 r3] eqn:Hbody.
  assert (Hend : staged_dir (disk w3) s → privately w3 w' ∧ r = r3).
  { intros Hs3. destruct (drop_staging_run s w3 Hs3) as (w4 & Hd & Hp). revert H. unfold attempt, mbind, tx_bind in Hbody |- *.
    rewrite Hbody, Hd. by intros [= <- <-]. }
  apply (triple_run _ _ _ _ _ _ _ (stage_content_stages path dir name original expected content mode s Hname) I Hs) in Hbody
    as [[[Hp3 Hs3] [e ->]]|(w2 & [] & [Hp2 Hs2] & [[f Hf] Hre] & Hpub)].
  - left. destruct (Hend (Hs3 s Hs)) as [Hp ->]. split; [by etrans; [|etrans]|by exists e].
  - destruct (publish_spec _ _ expected _ _ _ _ _ _ _ Hf Hpub) as (d & Hc & Hs3 & Hr3). destruct (Hend Hs3) as [Hp ->]. destruct r3 as [[]|e].
    + right. split; [|done]. exists w2, d, (disk w3), w3. split_and!; try done. by etrans.
    + left. split; [|by exists e]. etrans; [exact Hpriv|]. etrans; [exact Hp2|]. etrans; [|exact Hp].
      exists [(d, disk w3)]. split; [done|]. constructor; [|done]. cbn. rewrite Hr3. apply private_refl.
Qed.

Lemma delete_file_spec path dir name original expected w w' r :
  name ≠ "." → delete_file sys control ws path dir name original expected w = (w', r) →
  (privately w w' ∧ ∃ e, r = Err e) ∨
  (in_one_call (removed dir name) (λ w, revalidated (seen_by w) path dir name expected) w w' ∧ r = Ok tt).
Proof.
  intros Hname H. unfold delete_file in H.
  apply (triple_run _ _ _ _ _ _ _ (revalidate_sees path dir name original expected Hname) I I) in H as [[Hl He]|(w1 & [] & Hl1 & Hre & H)];
    [left; split; [by apply looked_privately|done]|].
  apply (triple_run _ _ _ _ _ _ _ (checked_triple (λ w, revalidated (seen_by w) path dir name expected)) I Hre) in H
    as [[Hl2 He]|(w2 & [] & Hl2 & Hre2 & H)]; [left; split; [apply looked_privately; by etrans|done]|].
  unfold mapped, failing in H. destruct (changing _ _ w2) as [w3 r3] eqn:Hc. injection H as <- <-. apply syscall_spec in Hc as [Hc Hr].
  assert (Hp2 : privately w w2) by (apply looked_privately; by etrans). destruct r3 as [[]|e].
  - right. split; [|done]. apply rbind_Ok in Hr as (d1 & Hu & [= Hd1]). rewrite <-Hd1 in Hc.
    eexists w2, _, d1, w3. split_and!; [done|done|exact Hc|by apply (px_unlink _ (wb_posix WB)) in Hu as (? & ? & ?)|done].
  - left. split; [|by eexists]. etrans; [exact Hp2|]. eexists. split; [exact Hc|]. constructor; [|done]. cbn. rewrite Hr. apply private_refl.
Qed.
Lemma walked_more seen seen' path dir name : seen ⊆ seen' → walked seen path dir name → walked seen' path dir name.
Proof. intros Hsub (names & Hr & Hw). exists names. split; [done|]. by eapply reach_more. Qed.
Lemma walked_name seen path dir name : walked seen path dir name → name ≠ ".".
Proof. intros (names & Hr%relative_plain & _). apply Forall_app in Hr as [_ Hr%Forall_inv]. by destruct Hr as (_ & ? & _). Qed.
Lemma seen_file_more seen seen' dir name o : seen ⊆ seen' → seen_file seen dir name o → seen_file seen' dir name o.
Proof. intros Hsub (d & d' & i & Hd & Hd' & H). exists d, d', i. split; [by apply Hsub|split; [by apply Hsub|exact H]]. Qed.

(** A file that is created is given the usual mode, one that is replaced keeps its own. *)
Definition mode_kept seen dir name expected mode : Prop :=
  match expected with
  | Expected.Absent => mode = 420%N
  | Expected.Digest _ => ∃ o, seen_file seen dir name o ∧ mode = FileIdentity.mode (OpenFile.identity o)
  end.
Definition written dir name expected (content : option string) mode : Disk → Disk → Prop :=
  match content with
  | Some content => replaced dir name expected content mode
  | None => removed dir name
  end.

Lemma in_one_call_weaken (change : Disk → Disk → Prop) (F G : World → Prop) w0 w w' w'' :
  privately w0 w → privately w' w'' → (∀ w1, privately w w1 → F w1 → G w1) → in_one_call change F w w' → in_one_call change G w0 w''.
Proof.
  intros Hp H6 HF (w1 & d & d' & w2 & H1 & H2 & H3 & H4 & H5). exists w1, d, d', w2. split_and!; [by etrans|by apply HF|done|done|by etrans].
Qed.

(** One more step of a run that has only looked. *)
Lemma looked_run {A B} P (m : Tx World ToolError.t A) (k : A → Tx World ToolError.t B) (Q : A → World → Prop) w0 w w' r :
  sees P m Q → looked w0 w → P w → (m ≫= k) w = (w', r) →
  (privately w0 w' ∧ ∃ e, r = Err e) ∨ (∃ w1 x, looked w0 w1 ∧ Q x w1 ∧ k x w1 = (w', r)).
Proof.
  intros Hm H0 HP H. apply (triple_run _ _ _ _ _ _ _ Hm I HP) in H as [[Hl He]|(w1 & x & Hl & HQ & H)].
  - left. split; [apply looked_privately; by etrans|done].
  - right. exists w1, x. split_and!; [by etrans|done|done].
Qed.

(** What a write has found when it starts to change the disk. *)
Definition write_found path expected dir name (original : option OpenFile.t) w : Prop :=
  (walked (seen_by w) path dir name ∧ match original with Some o => seen_file (seen_by w) dir name o | None => True end) ∧
  check_expected expected original = Ok tt.
Definition kept_mode (original : option OpenFile.t) : N :=
  match OpenFile.identity <$> original with Some before => FileIdentity.mode before | None => 420%N end.

Lemma found_mode path expected dir name original w w1 :
  write_found path expected dir name original w → privately w w1 →
  walked (seen_by w1) path dir name ∧ mode_kept (seen_by w1) dir name expected (kept_mode original).
Proof.
  intros [[Hw Ho] Hc] Hp%seen_privately. split; [by eapply walked_more|]. unfold mode_kept, kept_mode.
  destruct expected, original as [o|]; try done. exists o. split; [by eapply seen_file_more|done].
Qed.

(** What follows the change: the directory is synced, and the reply is made. *)
Lemma change_run change path expected dir name original mode (m : Tx World ToolError.t unit) (reply : result unit Errno.t → Value) w0 w w' r :
  looked w0 w → write_found path expected dir name original w → mode = kept_mode original →
  (∀ w1 r1, m w = (w1, r1) →
     (privately w w1 ∧ ∃ e, r1 = Err e) ∨ (in_one_call change (λ w, revalidated (seen_by w) path dir name expected) w w1 ∧ r1 = Ok tt)) →
  (m ≫= λ _, caught (looking sys (λ _ : Disk, Ok tt)) ≫= λ durable, mret (reply durable)) w = (w', r) →
  (privately w0 w' ∧ ∃ e, r = Err e) ∨
  (in_one_call change (λ w1, walked (seen_by w1) path dir name ∧ expected_seen (seen_by w1) dir name expected ∧
     mode_kept (seen_by w1) dir name expected mode) w0 w' ∧ ∃ v, r = Ok v).
Proof.
  intros H0 Hf -> Hm H. unfold mbind in H. unfold tx_bind at 1 in H. destruct (m w) as [w1 r1] eqn:Hmw. apply looked_privately in H0.
  destruct (Hm _ _ eq_refl) as [[Hp [e ->]]|[Hone ->]]; [injection H as <- <-; left; split; [by etrans|by exists e]|].
  right. unfold tx_bind, caught in H. destruct (looking sys _ w1) as [w2 r2] eqn:Hl. injection H as <- <-.
  apply (looking_spec _ _ _ _ WB) in Hl as [Hl _]. split; [|by eexists]. eapply in_one_call_weaken; [exact H0|by apply looked_privately| |exact Hone].
  intros w3 Hp [_ He]. destruct (found_mode _ _ _ _ _ _ _ Hf Hp) as [Hw Hk]. auto.
Qed.

(** C35: A write, whatever other processes do between its calls, as long as they leave its
    staging directory alone and a change of a file shows in its time: outside of the
    staging directory it changes nothing, or one call changes one entry. That entry is
    where the path led from the root, through directories of the root's device and no
    link; before the call the expected content was seen under it, in a regular file with
    one link, or nothing was there at the moment of the call; after the call it stands
    for the new content, with the mode of the old. An error means that nothing was
    changed, and success without a change that there was nothing to delete. *)
Theorem write_in_one_call args context w w' r :
  write_workspace sys control staged ws args context w = (w', r) →
  let '(path, expected, content) := write_parts args in
  (privately w w' ∧ ∀ v, r = Ok v → content = None ∧ expected = Expected.Absent) ∨
  (∃ dir name mode, in_one_call (written dir name expected content mode)
     (λ w1, walked (seen_by w1) path dir name ∧ expected_seen (seen_by w1) dir name expected ∧ mode_kept (seen_by w1) dir name expected mode)
     w w' ∧ ∃ v, r = Ok v).
Proof.
  unfold write_workspace. destruct (write_parts args) as [[path expected] content]. intros H.
  assert (Herr : (privately w w' ∧ ∃ e, r = Err e) → privately w w' ∧ ∀ v, r = Ok v → content = None ∧ expected = Expected.Absent).
  { intros [Hp [e ->]]. by split. }
  apply (looked_run (λ _, True) _ _ (λ _ _, True) w) in H as [He|(w1 & x & Hl1 & _ & H)]; [left; by apply Herr| |by apply pure_triple|done|done].
  apply (looked_run (λ _, True) _ _ (λ _ _, True) w) in H as [He|(w2 & [] & Hl2 & _ & H)]; [left; by apply Herr| |by apply pure_triple|done|done].
  eapply (looked_run _ _ _ _ w) in H as [He|(w3 & [dir name] & Hl3 & Hw3 & H)]; [left; by apply Herr| |apply parent_sees|done|done].
  pose proof (walked_name _ _ _ _ Hw3) as Hname.
  pose proof (triple_frame _ _ _ _ (walked_lasting path dir name) (open_file_sees dir name MAX_FILE_BYTES Hname)) as Ho.
  apply (looked_run _ _ _ _ w _ _ _ Ho Hl3 (conj I Hw3)) in H as [He|(w4 & original & Hl4 & Ho4 & H)]; [left; by apply Herr|]. clear Ho Hw3.
  set (F := λ w, match original with Some o => seen_file (seen_by w) dir name o | None => True end ∧ walked (seen_by w) path dir name) in Ho4.
  apply (looked_run F _ _ (λ _, write_found path expected dir name original) w) in H
    as [He|(w5 & [] & Hl5 & Hf & H)]; [left; by apply Herr| |by apply pure_triple; intros w0 [] ? []|done|done].
  destruct content as [content|]; [|destruct original as [original|]].
  - eapply (change_run _ path expected dir name) in H as [He|[Hone Hv]]; [left; by apply Herr|right; by exists dir, name, (kept_mode original)|done|exact Hf|done|].
    intros w6 r6. by apply replace_file_spec.
  - eapply (change_run _ path expected dir name) in H as [He|[Hone Hv]]; [left; by apply Herr|right; by exists dir, name, (kept_mode (Some original))|done|exact Hf|done|].
    intros w6 r6. by apply delete_file_spec.
  - injection H as <- <-. left. split; [by apply looked_privately|]. intros v _. split; [done|]. destruct Hf as [_ Hc]. by destruct expected.
Qed.

(** A page of a content a file had, whole, at one moment. *)
Definition page_seen (args : ReadArgs.t) (context : ToolContext.t) seen (v : Value) : Prop :=
  let path := ReadArgs.path args in
  let offset := ReadArgs.offset args in
  ∃ dir name o budget, walked seen path dir name ∧ seen_file seen dir name o ∧
    path_budget path context = Ok budget ∧ (offset ≤ str_len (OpenFile.bytes o))%N ∧
    v = file_page path o offset (offset + N.min (N.min (ReadArgs.max_bytes args) budget) (str_len (OpenFile.bytes o) - offset)).

(** C36: On a system that answers as POSIX documents, where besides every change of a file's content shows in its change
    time, the number of a file is not used again and other processes leave the host's staging directories alone: a
    read only looks, and what it returns is a page of a content the file had, whole, at one moment: a regular file with one link on the root's device, under the name the path
    leads to from the root, through directories of that device and no link. The page
    starts at the offset that was asked for and is as long as the file, the request and
    the output's budget allow. *)
Theorem read_one_moment args context w w' r :
  read_workspace sys control ws args context w = (w', r) →
  looked w w' ∧ ∀ v, r = Ok v → page_seen args context (seen_by w') v.
Proof.
  intros H. refine ((_ : sees (λ _, True) (read_workspace sys control ws args context) (λ v w, page_seen args context (seen_by w) v)) w w' r I I H).
  eapply triple_bind; [by apply triple_query_any|]. intros [].
  eapply triple_bind; [apply (pure_triple _ _ (λ budget w, True ∧ path_budget (ReadArgs.path args) context = Ok budget)); done|]. intros budget.
  eapply triple_bind; [apply triple_frame; [by intros|apply parent_sees]|]. intros [dir name].
  set (F := λ w, walked (seen_by w) (ReadArgs.path args) dir name ∧ path_budget (ReadArgs.path args) context = Ok budget).
  assert (HF : lasting F) by (intros w1 w2 Hlo [? ?]; split; [by eapply walked_lasting|done]).
  assert (Hopen : sees (λ w, True ∧ F w) (open_file sys control ws dir name MAX_FILE_BYTES)
    (λ o w, match o with Some o => seen_file (seen_by w) dir name o | None => True end ∧ F w)).
  { intros w1 w2 r1 Hg [_ Hf]. by apply (triple_frame _ _ _ F HF (open_file_sees dir name MAX_FILE_BYTES (walked_name _ _ _ _ (proj1 Hf))) w1). }
  eapply triple_bind; [eapply triple_weaken; [exact Hopen|done|intros x w1 HQ; exact HQ]|].
  intros [o|]; [|by apply pure_triple]. eapply triple_bind.
  { apply (pure_triple _ _ (λ o' w, o' = o ∧ seen_file (seen_by w) dir name o ∧ F w)). by intros w1 x [= <-] []. }
  intros o'. eapply triple_bind.
  { apply (pure_triple _ _ (λ _ w, o' = o ∧ (ReadArgs.offset args ≤ str_len (OpenFile.bytes o))%N ∧ seen_file (seen_by w) dir name o ∧ F w)).
    intros w1 [] Hoff%reject_if_Ok%N.ltb_ge (-> & Hs & Hf). auto. }
  intros []. apply triple_ret. intros w1 (-> & Hoff & Hs & Hw & Hb). exists dir, name, o, budget. auto.
Qed.
End world.
