(* ===== verification/WorkspaceSearch.v ===== *)
(** * What a search reports

    Whatever other processes do, each match is a line of a file that was seen whole below
    the directory that was searched, and the limits asked for are kept. On a disk that is
    left alone, a search that reaches no limit reports every match. *)

From S2P Require Import Prelude Transactions Digest Contract State Artifacts Workspace Input JsonValue Cost Codec.
From S2P Require Import Secrets Conversation Admission Session Context Submissions Media Decoder Requests Capabilities FileSystem WorkspaceFiles.
From S2P Require Import WorkspaceGuarantees.

Section search.
Context {SHA : Sha256} {B64 : Base64} `{!Serde Value}.
Variable sys : System.
Variable control : nat → result unit ToolError.t.
Variable staged : string.
Variable find : string → string → option N.
Variable ws : FileWorkspace.t.
Variable args : SearchArgs.t.
Variable context : ToolContext.t.
Context (WB : well_behaved sys staged ws).
Implicit Types (w : World) (s : Search.t) (seen : list Disk).

#[local] Existing Instance looked_preorder.
#[local] Existing Instance everything_kept.
#[local] Notation looked := (WorkspaceGuarantees.looked sys staged ws).
#[local] Notation lasting := (WorkspaceGuarantees.lasting sys staged ws).
#[local] Notation sees := (Transactions.triple (E := ToolError.t) (λ _ : World, True) looked).
#[local] Notation query := (SearchArgs.query args).

(** ** Soundness, and the limits *)

Definition below_top (names : list string) : string := foldl child_path (SearchArgs.path args) names.
Definition found_in (path : string) (bytes : string) (v : Value) : Prop := ∃ n line column,
  split_lines bytes !! n = Some line ∧ find line query = Some column ∧ v = found_value path (N.of_nat n) column (digest_of bytes) line query.

Section soundness.
(** The directory that is searched. *)
Variable top : N.
Definition hit seen (v : Value) : Prop := ∃ names dir name o,
  reach ws seen top names dir ∧ seen_file ws seen dir name o ∧ found_in (below_top (names ++ [name])) (OpenFile.bytes o) v.

(** What the matches take of the output. *)
Definition spent (matches : list Value) : N := sum_N ((λ v, from_option (λ text, str_len text + 1)%N 0%N (to_vec v)) <$> matches).

Record sound s w : Prop := {
  so_hits v : v ∈ Search.matches s → hit (seen_by w) v;
  so_results : (N.of_nat (length (Search.matches s)) < SearchArgs.max_results args)%N ∨
    ("results" ∈ Search.reasons s ∧ (N.of_nat (length (Search.matches s)) ≤ SearchArgs.max_results args)%N);
  so_output : Search.output_bytes s = (OUTPUT_METADATA_BYTES + spent (Search.matches s))%N;
  so_budget : (Search.output_bytes s ≤ ToolContext.max_output_bytes context)%N;
  so_files : (Search.files s ≤ SearchArgs.max_files args)%N;
  so_bytes : (Search.bytes s ≤ SearchArgs.max_bytes args)%N;
  so_entries : (Search.entries s ≤ MAX_ENTRIES)%N;
}.
Definition reached names dir w : Prop := reach ws (seen_by w) top names dir.

Lemma reach_last seen dir names mid name child stat :
  reach ws seen dir names mid → opened_at seen mid name child → stat_seen seen child stat →
  Stat.st_dev stat = FileWorkspace.device ws → reach ws seen dir (names ++ [name]) child.
Proof.
  intros H Ho Hs Hdev. induction H as [dir|dir name1 child1 names last d1 d1' i1 H1 H1' Ho1 He1 Hi1 Hdev1 Hr IH]; cbn.
  - eapply reach_step; [done..|apply reach_here].
  - apply (reach_entry _ _ _ _ child1 _ _ d1 d1' i1); auto.
Qed.
Lemma reached_lasting names dir : lasting (reached names dir).
Proof. intros w w' Hlo. apply reach_more. by apply (seen_looked _ _ _ _ _ Hlo). Qed.
Lemma hit_more seen seen' v : seen ⊆ seen' → hit seen v → hit seen' v.
Proof.
  intros Hsub (names & dir & name & o & Hr & Hs & H). exists names, dir, name, o. split; [by eapply reach_more|]. split; [by eapply seen_file_more|done].
Qed.
Lemma sound_lasting s : lasting (sound s).
Proof. intros w w' Hlo [H]. split; try done. intros v Hv. eapply hit_more; [|by apply H]. by apply (seen_looked _ _ _ _ _ Hlo). Qed.

Lemma limit_reasons reason s : reason ∈ Search.reasons (limit reason s) ∧ Search.reasons s ⊆ Search.reasons (limit reason s).
Proof. unfold limit. case_bool_decide as H; [done|]. cbn. set_solver. Qed.
Lemma limit_same reason s :
  Search.matches (limit reason s) = Search.matches s ∧ Search.output_bytes (limit reason s) = Search.output_bytes s ∧
  Search.files (limit reason s) = Search.files s ∧ Search.bytes (limit reason s) = Search.bytes s ∧
  Search.entries (limit reason s) = Search.entries s.
Proof. unfold limit. by case_bool_decide. Qed.
Lemma sound_limit reason s w : sound s w → sound (limit reason s) w.
Proof.
  intros [H1 H2 H3 H4 H5 H6 H7]. pose proof (limit_reasons reason s) as [_ Hsub]. destruct (limit_same reason s) as (E1 & E2 & E3 & E4 & E5).
  split; rewrite ?E1, ?E2, ?E3, ?E4, ?E5; try done. destruct H2 as [?|[? ?]]; [by left|right; auto].
Qed.
Lemma sound_skip s w : sound s w → sound (skip s) w.
Proof. intros [H1 H2 H3 H4 H5 H6 H7]. apply sound_limit. by split. Qed.

Lemma spent_last matches v text : to_vec v = Some text → spent (matches ++ [v]) = (spent matches + (str_len text + 1))%N.
Proof.
  intros Hv. unfold spent, sum_N. rewrite fmap_app, foldr_app. cbn. rewrite Hv. cbn. generalize (str_len text + 1)%N as n. intros n.
  induction matches as [|m matches IH]; cbn; lia.
Qed.
Lemma sound_found s w v text names dir name o :
  sound s w → reached names dir w → seen_file ws (seen_by w) dir name o → found_in (below_top (names ++ [name])) (OpenFile.bytes o) v →
  to_vec v = Some text → (N.of_nat (length (Search.matches s)) < SearchArgs.max_results args)%N →
  (Search.output_bytes s + (str_len text + 1) ≤ ToolContext.max_output_bytes context)%N →
  let s' := s <| Search.output_bytes := (Search.output_bytes s + (str_len text + 1))%N |> <| Search.matches := Search.matches s ++ [v] |> in
  sound (limit "results" s') w ∧ ((N.of_nat (length (Search.matches s')) < SearchArgs.max_results args)%N → sound s' w).
Proof.
  intros [H1 H2 H3 H4 H5 H6 H7] Hr Hf Hv Htext Hroom Hout s'.
  assert (Hhits : ∀ x, x ∈ Search.matches s' → hit (seen_by w) x).
  { intros x [Hx| ->%list_elem_of_singleton]%elem_of_app; [auto|]. by exists names, dir, name, o. }
  assert (Hbytes : Search.output_bytes s' = (OUTPUT_METADATA_BYTES + spent (Search.matches s'))%N).
  { cbn -[spent]. rewrite (spent_last _ _ _ Htext). lia. }
  split; [|intros Hlt; split; auto].
  destruct (limit_same "results" s') as (E1 & E2 & E3 & E4 & E5). split; rewrite ?E1, ?E2, ?E3, ?E4, ?E5; try done.
  right. split; [apply (proj1 (limit_reasons "results" s'))|]. change (Search.matches s') with (Search.matches s ++ [v]). rewrite length_app. change (length [v]) with 1%nat. lia.
Qed.

(** A step that keeps what is sound. *)
Definition sound_after (P : World → Prop) s (m : Tx World ToolError.t Search.t) : Prop := sees (λ w, sound s w ∧ P w) m sound.

Lemma search_lines_sound names dir name o index lines s :
  (∀ k line, lines !! k = Some line → split_lines (OpenFile.bytes o) !! (N.to_nat index + k)%nat = Some line) →
  (N.of_nat (length (Search.matches s)) < SearchArgs.max_results args)%N →
  sound_after (λ w, reached names dir w ∧ seen_file ws (seen_by w) dir name o) s
    (search_lines control find args context (below_top (names ++ [name])) (digest_of (OpenFile.bytes o)) index lines s).
Proof.
  revert index s. induction lines as [|line lines IH]; intros index s Hlines Hroom; cbn [search_lines]; [by apply triple_ret; intros w []|].
  assert (Hrest : ∀ k l, lines !! k = Some l → split_lines (OpenFile.bytes o) !! (N.to_nat (index + 1) + k)%nat = Some l).
  { intros k l Hk. specialize (Hlines (S k) l Hk). by replace (N.to_nat (index + 1) + k)%nat with (N.to_nat index + S k)%nat by lia. }
  eapply triple_bind; [by apply triple_query_any|]. intros []. destruct (find line query) as [column|] eqn:Hfind; [|by apply IH].
  set (v := found_value _ _ _ _ _ _). eapply triple_bind.
  { apply (triple_query _ _ (λ text w, to_vec v = Some text ∧ sound s w ∧ reached names dir w ∧ seen_file ws (seen_by w) dir name o)).
    by intros w text _ Hw Hx%ok_or_Ok. }
  assert (Hv : found_in (below_top (names ++ [name])) (OpenFile.bytes o) v).
  { exists (N.to_nat index), line, column. rewrite N2Nat.id. split_and!; [|done|done]. specialize (Hlines 0%nat line eq_refl). by rewrite Nat.add_0_r in Hlines. }
  intros text. destruct (_ <? _)%N eqn:Hout; [by apply triple_ret; intros w (_ & Hs & _); apply sound_limit|]. apply N.ltb_ge in Hout.
  destruct (_ <=? _)%N eqn:Hmax.
  - apply triple_ret. intros w (Htext & Hs & Hr & Hf). by destruct (sound_found _ _ _ _ _ _ _ _ Hs Hr Hf Hv Htext Hroom Hout).
  - apply N.leb_gt in Hmax. eapply triple_weaken; [by apply IH| |done]. intros w (Htext & Hs & Hr & Hf). split; [|done].
    destruct (sound_found _ _ _ _ _ _ _ _ Hs Hr Hf Hv Htext Hroom Hout) as [_ Hs']. by apply Hs'.
Qed.

Lemma not_exhausted s : exhausted s = false → "results" ∉ Search.reasons s.
Proof.
  unfold exhausted. intros H Hin. apply not_true_iff_false in H. apply H. apply existsb_exists. exists "results". by rewrite <-list_elem_of_In.
Qed.

Lemma search_file_sound names dir name stat s :
  name ≠ "." → exhausted s = false →
  sees (λ w, sound s w ∧ reached names dir w) (search_file sys control find ws args context dir name (below_top (names ++ [name])) stat s)
    (λ '(_, s) w, sound s w).
Proof.
  intros Hname Hex%not_exhausted. unfold search_file.
  destruct (_ <=? _)%N eqn:Hfiles; [apply triple_ret; intros w [Hs _]; by apply sound_limit|]. apply N.leb_gt in Hfiles.
  destruct (MAX_FILE_BYTES <? _)%N; [apply triple_ret; intros w [Hs _]; by apply sound_skip|].
  destruct (_ <? _)%N; [apply triple_ret; intros w [Hs _]; by apply sound_limit|].
  set (F := λ w, sound s w ∧ reached names dir w).
  assert (HF : lasting F) by (intros w w' Hlo []; split; [by eapply sound_lasting|by eapply reached_lasting]).
  eapply triple_bind.
  { eapply triple_weaken; [exact (triple_frame _ _ _ F HF (triple_attempt_any _ _ _ (open_file_sees sys control staged ws WB dir name _ Hname)))|done|].
    intros x w HQ. exact HQ. }
  assert (Hskip : ∀ P, sees (λ w, P w ∧ F w) (mret (true, skip s)) (λ '(_, s) w, sound s w)).
  { intros P. apply triple_ret. intros w [_ [Hs _]]. by apply sound_skip. }
  intros [[o|]|e]; [|apply Hskip|destruct e; first [apply Hskip|by apply pure_triple]].
  destruct (_ <? _)%N eqn:Hbytes; [apply triple_ret; intros w [_ [Hs _]]; by apply sound_limit|]. apply N.ltb_ge in Hbytes.
  set (s' := s <| Search.files := _ |> <| Search.bytes := _ |>). eapply triple_bind; [|intros s1; apply triple_ret; intros w Hs; exact Hs].
  intros w w' r _ [Ho [Hs Hr]]. pose proof Ho as (d & d' & i & _ & _ & _ & _ & _ & _ & _ & _ & Hid). rewrite Hid.
  destruct (so_results _ _ Hs) as [Hroom|[? _]]; [|done].
  assert (Hs' : sound s' w) by (destruct Hs as [H1 H2 H3 H4 H5 H6 H7]; split; try done; cbn; lia).
  by apply (search_lines_sound names dir name o 0 _ s' (λ k line Hk, Hk) Hroom w w' r I (conj Hs' (conj Hr Ho))).
Qed.

Lemma search_entries_sound sub names dir entries s :
  (∀ name child s, sound_after (reached (names ++ [name]) child) s (sub child (below_top (names ++ [name])) s)) →
  sound_after (reached names dir) s (search_entries sys control find ws args context sub dir (below_top names) entries s).
Proof.
  intros Hsub. revert s. induction entries as [|entry entries IH]; intros s; cbn [search_entries]; [by apply triple_ret; intros w []|].
  eapply triple_bind; [by apply triple_query_any|]. intros []. destruct (exhausted s) eqn:Hex; [by apply triple_ret; intros w []|].
  destruct (_ <=? _)%N eqn:Hentries; [apply triple_ret; intros w [Hs _]; by apply sound_limit|]. apply N.leb_gt in Hentries.
  set (s1 := s <| Search.entries := _ |>). assert (Hs1 : ∀ w, sound s w → sound s1 w) by (intros w []; split; try done; cbn; lia).
  assert (Hcont : ∀ s2 (P : World → Prop), (∀ w, P w → sound s2 w ∧ reached names dir w) →
    sees P (search_entries sys control find ws args context sub dir (below_top names) entries s2) sound).
  { intros s2 P HP. eapply triple_weaken; [apply IH|exact HP|done]. }
  assert (Hskip : ∀ P : World → Prop, (∀ w, P w → sound s w ∧ reached names dir w) →
    sees P (search_entries sys control find ws args context sub dir (below_top names) entries (skip s1)) sound).
  { intros P HP. apply Hcont. intros w [Hs Hr]%HP. split; [by apply sound_skip, Hs1|done]. }
  destruct entry as [name|]; [|by apply Hskip]. destruct (_ || _) eqn:Hdot; [apply Hcont; intros w []; auto|].
  assert (Hname : name ≠ ".") by (apply orb_false_iff in Hdot as [Hd1%bool_decide_eq_false _]; done).
  case_bool_decide; [by apply Hskip|]. destruct (4096 <? _)%N; [by apply Hskip|].
  change (child_path (below_top names) name) with (foldl child_path (below_top names) [name]).
  assert (foldl child_path (below_top names) [name] = below_top (names ++ [name])) as -> by (unfold below_top; by rewrite foldl_app).
  set (F := λ w, sound s w ∧ reached names dir w).
  assert (HF : lasting F) by (intros w w' Hlo []; split; [by eapply sound_lasting|by eapply reached_lasting]).
  eapply triple_bind; [apply (caught_triple _ _ _ WB F _ (λ _, F)); by intros w w' r Hlo Hw _ _; eapply HF|].
  intros [stat|]; [|by apply Hskip]. destruct (Stat.st_type stat); try by apply Hskip.
  - eapply triple_bind.
    + eapply triple_weaken; [exact (triple_frame _ _ _ _ (reached_lasting names dir) (search_file_sound names dir name stat s1 Hname Hex))| |intros x w HQ; exact HQ].
      intros w [Hs Hr]. auto.
    + intros [[] s2]; [by apply Hcont|apply triple_ret; by intros w []].
  - eapply triple_bind.
    { apply (caught_triple _ _ _ WB F _ (λ r w, F w ∧ ∀ child, r = Ok child → opened_at (seen_by w) dir name child)).
      intros w w' r Hlo Hw Hin Hr. split; [by eapply HF|]. intros child ->. by apply (opened_seen _ _ _ WB _ _ _ _ _ Hin (Hr child eq_refl)). }
    intros [child|]; [|by apply Hskip; intros w []]. eapply triple_bind.
    { apply (looking_triple _ _ _ WB _ _ _ (λ stat w, F w ∧ opened_at (seen_by w) dir name child ∧ stat_seen (seen_by w) child stat)).
      intros w w' x Hlo [Hw Ho] Hin Hx. split; [by eapply HF|]. split; [by eapply opened_lasting; [|apply Ho]|by eapply stat_at_seen]. }
    intros stat'. destruct (_ =? _)%N eqn:Hdev; [|by apply Hskip; intros w []]. apply N.eqb_eq in Hdev.
    eapply triple_bind; [|intros s2; apply Hcont; intros w Hw; exact Hw].
    eapply triple_weaken; [exact (triple_frame _ _ _ _ (reached_lasting names dir) (Hsub name child s1))| |intros s2 w HQ; exact HQ].
    intros w ([Hs Hr] & Ho & Hst). split; [split; [by apply Hs1|]|done]. by eapply reach_last.
Qed.

Lemma search_directory_sound levels names dir s :
  sound_after (reached names dir) s (search_directory sys control find ws args context levels dir (below_top names) s).
Proof.
  revert names dir s. induction levels as [|levels IH]; intros names dir s; cbn [search_directory]; [apply triple_ret; intros w [Hs _]; by apply sound_limit|].
  set (F := λ w, sound s w ∧ reached names dir w).
  eapply triple_bind; [apply (looking_triple _ _ _ WB F _ _ (λ _, F)); intros w w' x Hlo [] _ _; split; [by eapply sound_lasting|by eapply reached_lasting]|].
  intros entries. apply search_entries_sound. intros name child s1. apply IH.
Qed.
End soundness.

(** The directory a path leads to. *)
Lemma framed_directory names (P : Prop) :
  sees (λ _, True ∧ P ∧ relative (SearchArgs.path args) true = Ok names) (directory sys ws names)
    (λ top w, reach ws (seen_by w) (FileWorkspace.root ws) names top ∧ P ∧ relative (SearchArgs.path args) true = Ok names).
Proof.
  intros w w' r Hg (_ & HP & Hn). pose proof (relative_plain _ _ _ Hn) as Hplain.
  by apply (triple_frame _ _ _ (λ _, P ∧ relative (SearchArgs.path args) true = Ok names) (λ _ _ _ H, H) (directory_sees sys staged ws WB names Hplain) w).
Qed.

(** What a search answers from. *)
Definition search_seen seen (v : Value) : Prop := ∃ names top s w,
  relative (SearchArgs.path args) true = Ok names ∧ reach ws seen (FileWorkspace.root ws) names top ∧
  seen_by w = seen ∧ sound top s w ∧ v = search_reply s.

(** C37: On a system that answers as POSIX documents, where besides every change of a file's content shows in its change
    time, the number of a file is not used again and other processes leave the host's staging directories alone, but
    may do anything else between the calls: a search whose output has room for the metadata only looks. Every match it reports is in a
    regular file that was seen whole, reached from the directory that was asked for
    through directories of the root's device and no link: the path, the number of the
    line, the column, the digest of the content and the preview are those of a line of
    the content in which the query was found. No more matches, files and bytes are
    reported than the request allows, and with what surrounds them the matches fit in the
    output. *)
Theorem search_sound w w' r :
  (OUTPUT_METADATA_BYTES ≤ ToolContext.max_output_bytes context)%N →
  search_workspace sys control find ws args context w = (w', r) →
  looked w w' ∧ ∀ v, r = Ok v → search_seen (seen_by w') v.
Proof.
  intros Hout H.
  refine ((_ : sees (λ _, True) (search_workspace sys control find ws args context) (λ v w, search_seen (seen_by w) v)) w w' r I I H).
  eapply triple_bind; [apply (pure_triple _ _ _ _ _ (λ _ w, search_valid args = true))|].
  { by intros w0 [] Hv%reject_if_Ok%negb_false_iff _. }
  intros []. eapply triple_bind; [apply (pure_triple _ _ _ _ _ (λ names w, True ∧ search_valid args = true ∧ relative (SearchArgs.path args) true = Ok names))|].
  { by intros w0 x Hx Hv. }
  intros names. eapply triple_bind; [apply framed_directory|].
  intros top. set (F := λ w, reach ws (seen_by w) (FileWorkspace.root ws) names top ∧ relative (SearchArgs.path args) true = Ok names).
  assert (HF : lasting F) by (intros w1 w2 Hlo [Hr Hn]; split; [|done]; eapply reach_more; [|exact Hr]; by apply (seen_looked _ _ _ _ _ Hlo)).
  eapply triple_bind.
  - eapply triple_weaken; [exact (triple_frame _ _ _ F HF (search_directory_sound top MAX_DEPTH [] top Search.new))| |intros s w1 HQ; exact HQ].
    intros w1 (Hr & Hv & Hn). split; [split; [|constructor]|done]. unfold search_valid in Hv.
    apply negb_true_iff in Hv. rewrite !orb_false_iff, !N.eqb_neq in Hv. by split; cbn; [by intros v Hin%elem_of_nil|left; lia|..|lia|lia|lia].
  - intros s. apply triple_ret. intros w1 [Hs [Hr Hn]]. by exists names, top, s, w1.
Qed.
(** ** Completeness *)

Section completeness.
(** A disk that is left alone, and whose directories are listed in full. *)
Variable d : Disk.
Context (ALONE : left_alone sys d).
Context (LISTED : ∀ dir name, is_Some (entry_at d dir name) → Some name ∈ listing sys d dir).

Definition still w : Prop := disk w = d ∧ ∀ x, x ∈ seen_by w → x = d.
#[local] Instance still_kept : Keeps still looked.
Proof. intros w w' [Hd Hs] [_ _ _ Hstill]. rewrite Hd in Hstill. destruct (Hstill ALONE) as [E H]. split; [done|]. intros x [Hx| ->]%H; auto. Qed.
#[local] Notation rests := (Transactions.triple (E := ToolError.t) still looked).
Lemma sees_rests {A} P (m : Tx World ToolError.t A) Q : sees P m Q → rests P m Q.
Proof. intros Hm w w' r _ HP H. by apply (Hm w). Qed.

(** The entries below a directory, with their paths. *)
Definition ordinary (name : string) : Prop := name ≠ "." ∧ name ≠ "..".
Inductive below : N → string → string → N → Prop :=
| below_here dir prefix name ino : ordinary name → entry_at d dir name = Some ino → below dir prefix (child_path prefix name) ino
| below_in dir prefix name child path ino :
    ordinary name → entry_at d dir name = Some child → below child (child_path prefix name) path ino → below dir prefix path ino.
Definition through dir prefix name path ino : Prop := ∃ child,
  entry_at d dir name = Some child ∧ (path = child_path prefix name ∧ ino = child ∨ below child (child_path prefix name) path ino).
Lemma below_through dir prefix path ino : below dir prefix path ino → ∃ name, ordinary name ∧ through dir prefix name path ino.
Proof. intros []; exists name; (split; [done|]); eexists; (split; [done|]); auto. Qed.

Lemma below_leaf dir i bytes prefix path ino : d !! dir = Some i → Inode.node i = Bytes bytes → ¬ below dir prefix path ino.
Proof. intros Hi Hn Hb. destruct Hb as [? ? ? ? _ He|? ? ? ? ? ? _ He _]; unfold entry_at, entries_at, node_at in He; by rewrite Hi in He; cbn in He; rewrite Hn in He. Qed.

(** Every match in a file is there. *)
Definition reported path ino s : Prop := ∀ i bytes v,
  d !! ino = Some i → Inode.node i = Bytes bytes → found_in path bytes v → v ∈ Search.matches s.
Definition grows s s' : Prop := (Search.reasons s' = [] → Search.reasons s = []) ∧ Search.matches s ⊆ Search.matches s'.
#[local] Instance grows_preorder : PreOrder grows.
Proof. split; [by intros s|]. intros s1 s2 s3 [A1 A2] [B1 B2]. split; [auto|set_solver]. Qed.
Lemma reported_grows path ino s s' : grows s s' → reported path ino s → reported path ino s'.
Proof. intros [_ Hm] H i bytes v Hi Hb Hv. by apply Hm, (H i bytes v). Qed.

Lemma limit_limits reason s : grows s (limit reason s) ∧ Search.reasons (limit reason s) ≠ [].
Proof.
  destruct (limit_reasons reason s) as [Hin Hsub]. destruct (limit_same reason s) as (E & _). split; [split|].
  - intros Hnil. rewrite Hnil in Hin. by apply elem_of_nil in Hin.
  - by rewrite E.
  - intros Hnil. rewrite Hnil in Hin. by apply elem_of_nil in Hin.
Qed.
Lemma skip_limits s : grows s (skip s) ∧ Search.reasons (skip s) ≠ [].
Proof. set (s1 := s <| Search.skipped := (Search.skipped s + 1)%N |>). exact (limit_limits "unsearched_entries" s1). Qed.
Lemma exhausted_reasons s : exhausted s = true → Search.reasons s ≠ [].
Proof. unfold exhausted. intros H E. by rewrite E in H. Qed.

(** A step that reports what [done] asks for, unless there is a reason why not. *)
Definition complete_after {A} s (state : A → Search.t) (done : A → Prop) (x : A) : Prop :=
  grows s (state x) ∧ (Search.reasons (state x) = [] → done x).
Lemma limited {A} s reason s0 (state : A → Search.t) (done : A → Prop) (x : A) :
  grows s s0 → state x = limit reason s0 → complete_after s state done x.
Proof. intros Hg E. destruct (limit_limits reason s0) as [Hg' Hne]. split; rewrite E; [by etrans|done]. Qed.
Lemma skipped {A} s s0 (state : A → Search.t) (done : A → Prop) (x : A) :
  grows s s0 → state x = skip s0 → complete_after s state done x.
Proof.
  intros Hg. set (s1 := s0 <| Search.skipped := (Search.skipped s0 + 1)%N |>). exact (limited s "unsearched_entries" s1 state done x Hg).
Qed.

Lemma search_lines_complete path digest index lines s :
  rests (λ _, True) (search_lines control find args context path digest index lines s)
    (λ s' _, complete_after s id (λ s', ∀ k line column, lines !! k = Some line → find line query = Some column →
       found_value path (index + N.of_nat k) column digest line query ∈ Search.matches s') s').
Proof.
  revert index s. induction lines as [|line lines IH]; intros index s; cbn [search_lines].
  { apply triple_ret. intros w _. split; [done|]. intros _ k l c Hk. by destruct k. }
  eapply triple_bind; [by apply triple_query_any|]. intros [].
  assert (Hnext : ∀ s1 (P : World → Prop), grows s s1 →
    (∀ column, find line query = Some column → found_value path index column digest line query ∈ Search.matches s1) →
    rests P (search_lines control find args context path digest (index + 1) lines s1)
      (λ s' _, complete_after s id (λ s', ∀ k l column, (line :: lines) !! k = Some l → find l query = Some column →
         found_value path (index + N.of_nat k) column digest l query ∈ Search.matches s') s')).
  { intros s1 P Hg Hfirst. eapply triple_weaken; [apply IH|done|]. intros s' _ [Hg' Hd]. split; [by etrans|]. intros Hnil [|k] l c Hk Hc; cbn in Hk.
    - injection Hk as ->. rewrite N.add_0_r. by apply Hg', Hfirst.
    - specialize (Hd Hnil k l c Hk Hc). by replace (index + N.of_nat (S k))%N with (index + 1 + N.of_nat k)%N by lia. }
  destruct (find line query) as [column|]; [|by apply Hnext]. eapply triple_bind; [apply triple_query_any|]. intros text.
  destruct (_ <? _)%N; [apply triple_ret; intros w _; by eapply (limited _ "output" s)|].
  set (s1 := s <| Search.output_bytes := _ |> <| Search.matches := _ |>).
  assert (Hg : grows s s1) by (split; [done|cbn; set_solver]). destruct (_ <=? _)%N; [apply triple_ret; intros w _; by eapply (limited _ "results" s1)|].
  apply Hnext; [done|]. intros c [= <-]. cbn. set_solver.
Qed.
(** What is seen of a still disk is what is there. *)
Lemma seen_file_still w dir name o ino :
  still w → seen_file ws (seen_by w) dir name o → entry_at d dir name = Some ino →
  ∃ i, d !! ino = Some i ∧ Inode.node i = Bytes (OpenFile.bytes o).
Proof.
  intros [_ Hs] (d1 & d2 & i & ->%Hs & ->%Hs & Ho & Hi & _ & Hb & _) He. assert (OpenFile.file o = ino) as <- by congruence. by exists i.
Qed.

Lemma rests_fact {A} (φ : Prop) P (m : Tx World ToolError.t A) Q :
  (∀ w, still w → P w → φ) → (φ → rests P m Q) → rests P m Q.
Proof. intros HP Hm w w' r Hw Hp H. by apply (Hm (HP w Hw Hp) w). Qed.
Lemma no_file_reported path ino s : (∀ i bytes, d !! ino = Some i → Inode.node i ≠ Bytes bytes) → reported path ino s.
Proof. intros H i bytes v Hi Hb. by destruct (H i bytes Hi). Qed.

Lemma search_file_complete dir name path stat s ino :
  ordinary name → entry_at d dir name = Some ino →
  rests (λ _, True) (search_file sys control find ws args context dir name path stat s)
    (λ x _, complete_after s snd (λ '(more, s'), more = true ∧ reported path ino s') x).
Proof.
  intros Hp Hino. unfold search_file. destruct (_ <=? _)%N; [apply triple_ret; intros w _; by eapply (limited _ "files" s)|].
  destruct (MAX_FILE_BYTES <? _)%N; [apply triple_ret; intros w _; by eapply (skipped _ s)|].
  destruct (_ <? _)%N; [apply triple_ret; intros w _; by eapply (limited _ "bytes" s)|].
  eapply triple_bind; [by apply sees_rests, triple_attempt_any, (open_file_sees sys control staged ws WB); destruct Hp|].
  assert (Hskip : ∀ P : World → Prop, rests P (mret (true, skip s)) (λ x _, complete_after s snd (λ '(more, s'), more = true ∧ reported path ino s') x)).
  { intros P. apply triple_ret. intros w _. by eapply (skipped _ s). }
  intros [[o|]|e]; [|apply Hskip|destruct e; first [apply Hskip|by apply sees_rests, pure_triple]].
  destruct (_ <? _)%N; [apply triple_ret; intros w _; by eapply (limited _ "bytes" s)|].
  set (s1 := s <| Search.files := _ |> <| Search.bytes := _ |>). intros w w' r Hw Ho H. cbn beta in Ho.
  destruct (seen_file_still _ _ _ _ _ Hw Ho Hino) as (i & Hi & Hb). destruct Ho as (? & ? & ? & _ & _ & _ & _ & _ & _ & _ & _ & Hid). rewrite Hid in H.
  refine ((_ : rests (λ _, True) _ (λ x _, complete_after s snd (λ '(more, s'), more = true ∧ reported path ino s') x)) w w' r Hw I H).
  eapply triple_bind; [apply search_lines_complete|]. intros s'. apply triple_ret. intros w1 [Hg Hd].
  split; [exact Hg|]. intros Hnil. split; [done|]. intros j bytes v Hj Hjb (k & line & column & Hk & Hc & ->).
  assert (bytes = OpenFile.bytes o) as -> by congruence. exact (Hd Hnil k line column Hk Hc).
Qed.

(** What is asked of the search of a directory, and of a part of its entries. *)
Definition all_through dir prefix (names : list (option string)) s : Prop :=
  ∀ name path ino, Some name ∈ names → ordinary name → through dir prefix name path ino → reported path ino s.
Lemma search_entries_complete sub dir prefix entries s :
  (∀ child prefix s, rests (λ _, True) (sub child prefix s)
     (λ s' _, complete_after s id (λ s', ∀ path ino, below child prefix path ino → reported path ino s') s')) →
  rests (λ _, True) (search_entries sys control find ws args context sub dir prefix entries s)
    (λ s' _, complete_after s id (all_through dir prefix entries) s').
Proof.
  intros Hsub. revert s. induction entries as [|entry entries IH]; intros s; cbn [search_entries].
  { apply triple_ret. intros w _. split; [done|]. by intros _ name path ino Hin%elem_of_nil. }
  eapply triple_bind; [by apply triple_query_any|]. intros [].
  destruct (exhausted s) eqn:Hex; [apply triple_ret; intros w _; split; [done|]; by intros ?%exhausted_reasons|].
  destruct (_ <=? _)%N; [apply triple_ret; intros w _; by eapply (limited _ "entries" s)|].
  set (s1 := s <| Search.entries := _ |>). assert (Hs1 : grows s s1) by done.
  assert (Hcont : ∀ s2 (P : World → Prop), grows s s2 →
    (Search.reasons s2 = [] → ∀ name path ino, entry = Some name → ordinary name → through dir prefix name path ino → reported path ino s2) →
    rests P (search_entries sys control find ws args context sub dir prefix entries s2) (λ s' _, complete_after s id (all_through dir prefix (entry :: entries)) s')).
  { intros s2 P Hg H2. eapply triple_weaken; [apply IH|done|]. intros s' _ [Hg' Hd]. split; [by etrans|].
    intros Hnil name path ino [<-|Hin]%elem_of_cons Hp Ht; [|by eapply Hd]. eapply reported_grows; [exact Hg'|]. apply (H2 (proj1 Hg' Hnil) name); auto. }
  assert (Hskip : ∀ P : World → Prop,
    rests P (search_entries sys control find ws args context sub dir prefix entries (skip s1)) (λ s' _, complete_after s id (all_through dir prefix (entry :: entries)) s')).
  { intros P. destruct (skip_limits s1) as [Hg Hne]. apply Hcont; [by etrans|done]. }
  destruct entry as [name|]; [|apply Hskip]. destruct (_ || _) eqn:Hdot.
  { apply Hcont; [done|]. intros _ ? path ino [= <-] [Hp1 Hp2]. unfold str_eqb in Hdot. rewrite !bool_decide_false in Hdot by done. done. }
  case_bool_decide; [apply Hskip|]. destruct (4096 <? _)%N; [apply Hskip|].
  eapply triple_bind.
  { apply sees_rests, (caught_triple _ _ _ WB (λ _, True) _ (λ r w, ∀ stat, r = Ok stat → ∃ d', d' ∈ seen_by w ∧ stat_entry sys d' dir name = Ok stat)).
    intros w w' r _ _ Hin Hr stat Hst. exists (disk w'). auto. }
  assert (Hplain : ordinary name) by (apply orb_false_iff in Hdot as [Hd1%bool_decide_eq_false Hd2%bool_decide_eq_false]; done).
  intros [stat|]; [|apply Hskip]. apply (rests_fact (stat_entry sys d dir name = Ok stat)).
  { intros w [_ Hs] Hst. by destruct (Hst stat eq_refl) as (d' & ->%Hs & ?). }
  intros Hst. apply (px_stat_entry _ (wb_posix _ _ _ WB)) in Hst as (ino & i & Hl & Hi & ->); [|by destruct Hplain].
  cbn [Stat.st_type Stat.from_inode]. destruct (Inode.node i) as [bytes|children| |] eqn:Hnode; cbn [file_type]; try apply Hskip.
  - eapply triple_bind; [eapply triple_weaken; [by apply (search_file_complete dir name _ _ s1 ino)|done|intros x w HQ; exact HQ]|].
    intros [more s2]. apply (rests_fact (complete_after s1 snd (λ '(more, s'), more = true ∧ reported (child_path prefix name) ino s') (more, s2))); [done|].
    intros [Hg Hd]. destruct more; [|apply triple_ret; intros w _; split; [exact Hg|]; intros Hnil; by destruct (Hd Hnil)].
    apply Hcont; [exact Hg|]. intros Hnil ? path ino' [= <-] _ (child & Hc & Hin). assert (child = ino) as -> by congruence.
    destruct Hin as [[-> ->]|Hb]; [by apply Hd|]. by apply (below_leaf _ _ _ _ _ _ Hi Hnode) in Hb.
  - eapply triple_bind.
    { apply sees_rests, (caught_triple _ _ _ WB _ _ (λ r w, ∀ child, r = Ok child → ∃ d', d' ∈ seen_by w ∧ open_directory sys d' dir name = Ok child)).
      intros w w' r _ _ Hin Hr child Hc. exists (disk w'). auto. }
    intros [child|]; [|apply Hskip]. apply (rests_fact (child = ino)).
    { intros w [_ Hs] Hop. destruct (Hop child eq_refl) as (d' & ->%Hs & [Ho _]%(px_open_directory _ (wb_posix _ _ _ WB))).
      rewrite decide_False in Ho by (by destruct Hplain). congruence. }
    intros ->. eapply triple_bind; [by apply sees_rests, (looking_triple _ _ _ WB _ _ _ (λ _ _, True))|]. intros stat'.
    destruct (_ =? _)%N; [|apply Hskip]. eapply triple_bind; [apply Hsub|]. intros s2.
    apply (rests_fact (complete_after s1 id (λ s', ∀ path ino', below ino (child_path prefix name) path ino' → reported path ino' s') s2)); [done|].
    intros [Hg Hd]. apply Hcont; [exact Hg|]. intros Hnil ? path ino' [= <-] _ (child & Hc & Hin). assert (child = ino) as -> by congruence.
    destruct Hin as [[-> ->]|Hb]; [|by apply Hd]. apply no_file_reported. intros j bytes Hj. assert (j = i) as -> by congruence. by rewrite Hnode.
Qed.

Lemma search_directory_complete levels dir prefix s :
  rests (λ _, True) (search_directory sys control find ws args context levels dir prefix s)
    (λ s' _, complete_after s id (λ s', ∀ path ino, below dir prefix path ino → reported path ino s') s').
Proof.
  revert dir prefix s. induction levels as [|levels IH]; intros dir prefix s; cbn [search_directory]; [apply triple_ret; intros w _; by eapply (limited _ "depth" s)|].
  eapply triple_bind.
  { apply sees_rests, (looking_triple _ _ _ WB _ _ _ (λ entries w, ∃ d', d' ∈ seen_by w ∧ entries = listing sys d' dir)).
    intros w w' x _ _ Hin [= <-]. by exists (disk w'). }
  intros entries. apply (rests_fact (entries = listing sys d dir)); [intros w [_ Hs] (d' & ->%Hs & H); exact H|]. intros ->.
  eapply triple_weaken; [by apply search_entries_complete|done|]. intros s' w [Hg Hd]. split; [exact Hg|].
  intros Hnil path ino (name & Hp & Ht)%below_through. apply (Hd Hnil name); [|done|done]. destruct Ht as (child & Hc & _). by apply LISTED.
Qed.

(** What a search of the disk answers: the matches of all files below the directory the
    path leads to, unless it gives a reason. *)
Definition search_whole (v : Value) : Prop := ∃ names top s,
  relative (SearchArgs.path args) true = Ok names ∧ reach ws [d] (FileWorkspace.root ws) names top ∧ v = search_reply s ∧
  (Search.reasons s = [] → ∀ path ino, below top (SearchArgs.path args) path ino → reported path ino s).

(** C38: A search of a disk that is left alone, and whose directories are listed in full, reports every line of every file in which the
    query is found, below the directory the path leads to and at any depth, unless it
    gives a reason why not. Links, other devices, names that are no text, files with
    several links, files that are too large and directories that are too deep are such
    reasons, and so are the limits on what is read and reported. *)
Theorem search_complete w w' v :
  still w → search_workspace sys control find ws args context w = (w', Ok v) → search_whole v.
Proof.
  intros Hw H. refine (proj2 ((_ : rests (λ _, True) _ (λ v _, search_whole v)) w w' (Ok v) Hw I H) v eq_refl).
  eapply triple_bind; [by apply triple_query_any|]. intros [].
  eapply triple_bind; [apply (sees_rests (λ _, True)), (pure_triple _ _ _ _ _ (λ names w, True ∧ True ∧ relative (SearchArgs.path args) true = Ok names)); done|].
  intros names. eapply triple_bind; [apply sees_rests, framed_directory|].
  intros top. apply (rests_fact (reach ws [d] (FileWorkspace.root ws) names top ∧ relative (SearchArgs.path args) true = Ok names)).
  { intros w1 [_ Hs] (Hr & _ & Hn). split; [|done]. eapply reach_more; [|exact Hr]. intros x ->%Hs. by left. }
  intros [Hr Hn]. eapply triple_bind; [eapply triple_weaken; [apply search_directory_complete|done|intros s w1 HQ; exact HQ]|].
  intros s. apply triple_ret. intros w1 [_ Hd]. by exists names, top, s.
Qed.
End completeness.
End search.
