(* ===== verification/WorkspaceTools.v ===== *)
(** * What the tools may do (crates/harness/src/capabilities.rs)

    A job that may not write only looks at the disk, whichever tool it names, and a reply
    fits in the output it was granted. *)

From S2P Require Import Prelude Transactions Digest Contract State Artifacts Workspace Input JsonValue Cost Codec.
From S2P Require Import Secrets Conversation Admission Session Context Submissions Media Decoder Requests Capabilities FileSystem WorkspaceFiles.

(** Calls that leave the disk as it was. *)
Definition only_looked (w w' : World) : Prop := ∃ l, calls w' = calls w ++ l ∧ Forall (λ c, c.1 = c.2) l.
#[global] Instance only_looked_preorder : PreOrder only_looked.
Proof.
  split; [intros w; exists []; by rewrite app_nil_r|]. intros w1 w2 w3 (l & E & F) (l' & E' & F'). exists (l ++ l').
  rewrite E', E, app_assoc. split; [done|by apply Forall_app].
Qed.
Definition looks {E A} (m : Tx World E A) : Prop := ∀ w, only_looked w (m w).1.

Lemma looks_ret {E A} (x : A) : looks (mret x : Tx World E A).
Proof. intros w. change (only_looked w w). reflexivity. Qed.
Lemma looks_bind {E A B} (m : Tx World E A) (k : A → Tx World E B) : looks m → (∀ x, looks (k x)) → looks (m ≫= k).
Proof. intros Hm Hk w. unfold mbind, tx_bind. specialize (Hm w). destruct (m w) as [w1 [x|e]]; [|done]. etrans; [exact Hm|apply Hk]. Qed.
Lemma looks_query {E A} (f : World → result A E) : looks (query f).
Proof. intros w. change (only_looked w w). reflexivity. Qed.
Lemma looks_attempt {E A} (m : Tx World E A) : looks m → looks (attempt m).
Proof. intros Hm w. specialize (Hm w). unfold attempt. by destruct (m w). Qed.
Lemma looks_looking sys {A} (f : Disk → result A Errno.t) : looks (looking sys f).
Proof.
  intros w. unfold looking, syscall. destruct (refusal _ _); [eexists; by repeat constructor|].
  destruct (f _) as [x|e]; eexists; by repeat constructor.
Qed.
Lemma looks_failing {A} error (m : Tx World Errno.t A) : looks m → looks (failing error m).
Proof. intros Hm w. specialize (Hm w). unfold failing. by destruct (m w). Qed.
Lemma looks_caught {A} (m : Tx World Errno.t A) : looks m → looks (caught m).
Proof. intros Hm w. specialize (Hm w). unfold caught. by destruct (m w). Qed.
Lemma looks_mapped {A} (m : Tx World Errno.t A) : looks m → looks (mapped m).
Proof. apply looks_failing. Qed.
Lemma looks_pure {A} (r : result A ToolError.t) : looks (pure r).
Proof. apply looks_query. Qed.
Lemma looks_checked control : looks (checked control).
Proof. apply looks_query. Qed.

Create HintDb looks.
#[export] Hint Resolve looks_ret looks_query looks_attempt looks_looking looks_failing looks_caught : looks.
#[export] Hint Resolve looks_mapped looks_pure looks_checked : looks.
(** Follows the operations down to the calls. *)
Ltac looks_step :=
  lazymatch goal with
  | |- looks (_ ≫= _) => apply looks_bind; [|intros ?]
  | |- looks (match ?x with _ => _ end) => destruct x
  | |- looks (if ?x then _ else _) => destruct x
  | |- looks (match ?x with _ => _ end _) => destruct x
  | |- _ => progress auto with looks
  end.
Ltac looks_all := repeat looks_step.

Section tools.
Context {SHA : Sha256} {B64 : Base64} `{!Serde Value, !Serde string, !FromValue ReadArgs.t, !FromValue SearchArgs.t, !FromValue WriteArgs.t}.
Variable sys : System.
Variable control : nat → result unit ToolError.t.
Variable staged : string.
Variable find : string → string → option N.

Lemma open_workspace_looks path : looks (open_workspace sys path).
Proof. unfold open_workspace. looks_all. Qed.
Lemma descend_looks ws dir names : looks (descend sys ws dir names).
Proof. revert dir. induction names as [|name names IH]; intros dir; cbn [descend]; looks_all. Qed.
#[local] Hint Resolve open_workspace_looks descend_looks : looks.
Lemma directory_looks ws names : looks (directory sys ws names).
Proof. unfold directory. looks_all. Qed.
#[local] Hint Resolve directory_looks : looks.
Lemma parent_looks ws path : looks (parent sys ws path).
Proof. unfold parent. looks_all. Qed.
Lemma read_chunks_looks fuel file max_bytes bytes : looks (read_chunks sys control fuel file max_bytes bytes).
Proof. revert bytes. induction fuel as [|fuel IH]; intros bytes; cbn [read_chunks]; looks_all. Qed.
#[local] Hint Resolve parent_looks read_chunks_looks : looks.
Lemma open_file_looks ws dir name max_bytes : looks (open_file sys control ws dir name max_bytes).
Proof. unfold open_file. looks_all. Qed.
#[local] Hint Resolve open_file_looks : looks.
Lemma read_workspace_looks ws args context : looks (read_workspace sys control ws args context).
Proof. unfold read_workspace. looks_all. Qed.
Lemma search_lines_looks args context path digest index lines s : looks (search_lines control find args context path digest index lines s).
Proof. revert index s. induction lines as [|line lines IH]; intros index s; cbn [search_lines]; looks_all. Qed.
#[local] Hint Resolve read_workspace_looks search_lines_looks : looks.
Lemma search_file_looks ws args context dir name path stat s : looks (search_file sys control find ws args context dir name path stat s).
Proof. unfold search_file. looks_all. Qed.
#[local] Hint Resolve search_file_looks : looks.
Lemma search_entries_looks ws args context sub dir prefix entries s :
  (∀ child prefix s, looks (sub child prefix s)) → looks (search_entries sys control find ws args context sub dir prefix entries s).
Proof. intros Hsub. revert s. induction entries as [|entry entries IH]; intros s; cbn [search_entries]; looks_all. Qed.
Lemma search_directory_looks ws args context levels dir prefix s :
  looks (search_directory sys control find ws args context levels dir prefix s).
Proof.
  revert dir prefix s. induction levels as [|levels IH]; intros dir prefix s; cbn [search_directory]; [looks_all|].
  apply looks_bind; [looks_all|]. intros entries. by apply search_entries_looks.
Qed.
#[local] Hint Resolve search_directory_looks : looks.
Lemma search_workspace_looks ws args context : looks (search_workspace sys control find ws args context).
Proof. unfold search_workspace. looks_all. Qed.
#[local] Hint Resolve search_workspace_looks : looks.

(** C39: A job that is read-only, or that may not write, changes nothing on the disk, whatever
    tool and arguments it names and however its calls go; and what any job is replied fits
    in the output it was granted, which is never more than the greatest output. *)
Theorem tools_permitted name arguments context w w' r :
  execute_file_tool sys control staged find name arguments context w = (w', r) →
  (ToolContext.readonly context = true ∨ ToolContext.can_write context = false → only_looked w w') ∧
  ∀ v, r = Ok v → ∃ text, to_vec v = Some text ∧
    (str_len text ≤ ToolContext.max_output_bytes context)%N ∧ (ToolContext.max_output_bytes context ≤ MAX_OUTPUT_BYTES)%N.
Proof.
  intros H. split.
  - intros Hperm. assert (Hlooks : looks (execute_file_tool sys control staged find name arguments context)).
    { unfold execute_file_tool. apply looks_bind; [looks_all|]. intros tool. apply looks_bind; [looks_all|]. intros [].
      apply looks_bind; [looks_all|]. intros []. apply looks_bind; [looks_all|]. intros ws. apply looks_bind; [|intros reply; looks_all].
      unfold decode_args. destruct tool; [looks_all..|]. assert (ToolContext.readonly context || negb (ToolContext.can_write context) = true) as ->
        by (destruct Hperm as [-> | ->]; [done|apply orb_true_r]). by intros w0. }
    specialize (Hlooks w). by rewrite H in Hlooks.
  - intros v ->. unfold execute_file_tool in H. apply bind_Ok in H as (w1 & tool & _ & (w2 & [] & Hctx%query_Ok & H)%bind_Ok).
    destruct Hctx as [_ (? & Hctx%reject_if_Ok & _)%rbind_Ok]. rewrite !orb_false_iff in Hctx. destruct Hctx as [[[[[_ _] _] Hmax] _] _].
    apply bind_Ok in H as (w3 & ? & _ & (w4 & ws & _ & (w5 & reply & _ & [_ H]%query_Ok)%bind_Ok)%bind_Ok).
    unfold tool_envelope in H. apply rbind_Ok in H as (text & Ht%ok_or_Ok & (? & Hfit%reject_if_Ok & [= <-])%rbind_Ok). exists text.
    apply N.ltb_ge in Hfit, Hmax. by split.
Qed.
End tools.
