(* ===== verification/WorkspaceWitnesses.v ===== *)
(** * File tools at work

    A small disk, another process that changes a file of it while a tool runs, and runs
    of the three tools at which the theorems of [WorkspaceGuarantees], [WorkspaceSearch]
    and [WorkspaceTools] apply. *)

From S2P Require Import Prelude Transactions Digest Contract State Artifacts Workspace Input JsonValue Cost Codec.
From S2P Require Import Secrets Conversation Admission Session Context Submissions Media Decoder Requests Capabilities FileSystem PlainDisk WorkspaceFiles.
From S2P Require Import WorkspaceGuarantees WorkspaceSearch WorkspaceTools.

#[local] Existing Instance checksum_sha256.
#[local] Existing Instance media_base64.


(** The host keeps [/work/repo], with [notes.txt] and [src/main.rs]. *)
Definition demo_dir (entries : list (string * Ino)) : Inode.t := new_inode (Entries (list_to_map entries)) 7 493.
Definition demo_file (bytes : string) : Inode.t := new_inode (Bytes bytes) 7 420.
Definition demo_disk : Disk := list_to_map [
  (1%N, demo_dir [("repo", 2%N)]); (2%N, demo_dir [("notes.txt", 4%N); ("src", 3%N)]);
  (3%N, demo_dir [("main.rs", 5%N)]); (4%N, demo_file ("first" +:+ newline +:+ "a plan")); (5%N, demo_file "plan B")].
Definition demo_resolved (d : Disk) (path : string) : result Ino Errno.t := if str_eqb path "/work" then Ok 1%N else Err Errno.NOENT.
Definition demo_find (line text : string) : option N :=
  match String.index 0 text line with Some n => Some (N.of_nat n) | None => None end.
Definition demo_control (n : nat) : result unit ToolError.t := Ok tt.
Definition demo_ws : FileWorkspace.t := FileWorkspace.mk 2 1 7.

(** Another process adds a line to [notes.txt], once, unless something is staged. *)
Definition noted (i : Inode.t) : Inode.t :=
  match Inode.node i with
  | Bytes bytes => i <| Inode.node := Bytes (bytes +:+ newline +:+ "done") |> <| Inode.ctime := (Inode.ctime i + 1)%Z |>
  | _ => i
  end.
Definition busy (at_turn n : nat) (d : Disk) : Disk :=
  if decide (is_Some (entry_at d 1 (staging_name "x"))) then d else if Nat.eqb n at_turn then alter noted 4%N d else d.
Definition busy_system (at_turn : nat) : System := plain_system (busy at_turn) (λ _, None) demo_resolved.
Definition quiet_system : System := plain_system (λ _ d, d) (λ _, None) demo_resolved.
Definition demo_world : World := mk_world demo_disk [].

Lemma unchanged_shows (d : Disk) : changes_show d d.
Proof. intros ino i Hi. exists i. unfold ctime_le. split_and!; [done|lia|done]. Qed.
Lemma quiet_well_behaved : well_behaved quiet_system "x" demo_ws.
Proof. split; [apply plain_posix|by intros n d s|intros n d; apply unchanged_shows]. Qed.
Lemma busy_well_behaved k : well_behaved (busy_system k) "x" demo_ws.
Proof.
  split; [apply plain_posix| |]; intros n d; cbn; unfold busy; destruct (decide _) as [Hs|Hs]; [by intros s| |apply unchanged_shows|].
  - destruct (Nat.eqb n k); [|by intros s]. intros s H. destruct Hs. by exists s.
  - destruct (Nat.eqb n k); [|apply unchanged_shows]. intros ino i Hi. destruct (decide (ino = 4%N)) as [->|].
    + rewrite lookup_alter_eq, Hi. cbn. eexists. split; [done|]. unfold noted, ctime_le, same_ctime.
      destruct (Inode.node i) eqn:Hn; cbn -[Z.add]; (split; [lia|]); rewrite ?Hn; try done; intros [? ?]; lia.
    + rewrite lookup_alter_ne, Hi by done. exists i. unfold ctime_le. split_and!; [done|lia|done].
Qed.

Definition demo_context : ToolContext.t := ToolContext.mk "/work/repo" "t" 1 "j" false true 65536 1000.

(** ** Reading *)

(** The line is added before the file is opened: it is read with the rest. Added while the
    file is read, it is a conflict. *)
Definition demo_read : ReadArgs.t := ReadArgs.mk "notes.txt" 6 100.
Definition demo_reading (at_turn : nat) : World * result Value ToolError.t :=
  read_workspace (busy_system at_turn) demo_control demo_ws demo_read demo_context demo_world.
Definition demo_page : Value := Eval vm_compute in default VNull (match (demo_reading 1).2 with Ok v => Some v | Err _ => None end).
Lemma reading_runs : (demo_reading 1).2 = Ok demo_page.
Proof. by vm_compute. Qed.
Lemma read_one_moment_witness :
  ModelUsage.get demo_page "content" = Some (encoded ("a plan" +:+ newline +:+ "done")) ∧ (demo_reading 3).2 = Err ToolError.Conflict ∧
  page_seen demo_ws demo_read demo_context (seen_by (demo_reading 1).1) demo_page.
Proof.
  split; [by vm_compute|]. split; [by vm_compute|].
  destruct (read_one_moment (busy_system 1) demo_control "x" demo_ws (busy_well_behaved 1) demo_read demo_context demo_world
    (demo_reading 1).1 (demo_reading 1).2 (surjective_pairing _)) as [_ H].
  exact (H demo_page reading_runs).
Defined.

(** ** Writing *)

Definition noted_text : string := "first" +:+ newline +:+ "a plan" +:+ newline +:+ "done".
Definition demo_write : WriteArgs.t := WriteArgs.Replace "notes.txt" (Expected.Digest (digest_of noted_text)) "all done".
Definition demo_writing (at_turn : nat) : World * result Value ToolError.t :=
  write_workspace (busy_system at_turn) demo_control "x" demo_ws demo_write demo_context demo_world.
Definition is_value (r : result Value ToolError.t) : bool := match r with Ok _ => true | Err _ => false end.
Lemma write_in_one_call_witness :
  (entry_at (disk (demo_writing 1).1) 2 "notes.txt" ≫= node_at (disk (demo_writing 1).1)) = Some (Bytes "all done") ∧
  entry_at (disk (demo_writing 1).1) 1 (staging_name "x") = None ∧ (demo_writing 30).2 = Err ToolError.Conflict ∧
  ∃ dir name mode, in_one_call "x" demo_ws (written "x" demo_ws dir name (Expected.Digest (digest_of noted_text)) (Some "all done") mode)
    (λ w1, walked demo_ws (seen_by w1) "notes.txt" dir name ∧
       expected_seen demo_ws (seen_by w1) dir name (Expected.Digest (digest_of noted_text)) ∧
       mode_kept demo_ws (seen_by w1) dir name (Expected.Digest (digest_of noted_text)) mode) demo_world (demo_writing 1).1.
Proof.
  split; [by vm_compute|]. split; [by vm_compute|]. split; [by vm_compute|].
  destruct (write_in_one_call (busy_system 1) demo_control "x" demo_ws (busy_well_behaved 1) demo_write demo_context demo_world
    (demo_writing 1).1 (demo_writing 1).2 (surjective_pairing _)) as [[_ H]|(dir & name & mode & H & _)].
  - assert (Hv : is_value (demo_writing 1).2 = true) by by vm_compute. destruct (demo_writing 1).2 as [v|e]; [|discriminate Hv].
    destruct (H v eq_refl) as [Hc _]. discriminate Hc.
  - by exists dir, name, mode.
Defined.

(** ** Searching *)

Definition demo_search : SearchArgs.t := SearchArgs.mk "plan" "" 10 10 1000.
Definition demo_searching (sys : System) : World * result Value ToolError.t :=
  search_workspace sys demo_control demo_find demo_ws demo_search demo_context demo_world.
Definition demo_found (sys : System) : Value := match (demo_searching sys).2 with Ok v => v | Err _ => VNull end.
Definition demo_matches (v : Value) : nat := match ModelUsage.get v "matches" with Some (VArray l) => length l | _ => 0 end.
Lemma searching_runs : (demo_searching (busy_system 5)).2 = Ok (demo_found (busy_system 5)).
Proof. by vm_compute. Qed.
Lemma searching_quietly : demo_searching quiet_system = ((demo_searching quiet_system).1, Ok (demo_found quiet_system)).
Proof. by vm_compute. Qed.
Lemma search_sound_witness :
  demo_matches (demo_found (busy_system 5)) = 2%nat ∧
  search_seen demo_find demo_ws demo_search demo_context (seen_by (demo_searching (busy_system 5)).1) (demo_found (busy_system 5)).
Proof.
  split; [by vm_compute|].
  assert (Hout : (OUTPUT_METADATA_BYTES ≤ ToolContext.max_output_bytes demo_context)%N) by by vm_compute.
  destruct (search_sound (busy_system 5) demo_control "x" demo_find demo_ws demo_search demo_context (busy_well_behaved 5) demo_world
    (demo_searching (busy_system 5)).1 (demo_searching (busy_system 5)).2 Hout (surjective_pairing _)) as [_ H].
  exact (H (demo_found (busy_system 5)) searching_runs).
Defined.
Lemma search_complete_witness :
  ModelUsage.get (demo_found quiet_system) "complete" = Some (VBool true) ∧
  search_whole demo_find demo_ws demo_search demo_disk (demo_found quiet_system).
Proof.
  split; [by vm_compute|].
  apply (search_complete quiet_system demo_control "x" demo_find demo_ws demo_search demo_context quiet_well_behaved demo_disk
    (λ _, eq_refl) (plain_listed demo_disk) demo_world (demo_searching quiet_system).1).
  - split; [done|]. by intros x Hx%elem_of_nil.
  - exact searching_quietly.
Defined.

(** ** The entry point *)

#[local] Instance demo_read_args : FromValue ReadArgs.t := λ v,
  match ModelUsage.get v "path" with Some (VString path) => Some (ReadArgs.mk path 0 default_read_bytes) | _ => None end.
#[local] Instance demo_search_args : FromValue SearchArgs.t := λ v,
  match ModelUsage.get v "query" with Some (VString query) => Some (SearchArgs.mk query "" 10 10 1000) | _ => None end.
#[local] Instance demo_write_args : FromValue WriteArgs.t := λ v,
  match ModelUsage.get v "path" with Some (VString path) => Some (WriteArgs.Delete path (Expected.Digest (digest_of noted_text))) | _ => None end.
Definition reader : ToolContext.t := demo_context <| ToolContext.readonly := true |>.
Definition demo_arguments : Value := VObject [("path", VString "notes.txt")].
Definition demo_execution (name : string) (context : ToolContext.t) : World * result Value ToolError.t :=
  execute_file_tool (busy_system 1) demo_control "x" demo_find name demo_arguments context demo_world.
Lemma tools_permitted_witness :
  (demo_execution "write_file" reader).2 = Err ToolError.Readonly ∧ is_value (demo_execution "write_file" demo_context).2 = true ∧
  is_value (demo_execution "read_file" reader).2 = true ∧ only_looked demo_world (demo_execution "read_file" reader).1.
Proof.
  split; [by vm_compute|]. split; [by vm_compute|]. split; [by vm_compute|].
  destruct (tools_permitted (busy_system 1) demo_control "x" demo_find "read_file" demo_arguments reader demo_world
    (demo_execution "read_file" reader).1 (demo_execution "read_file" reader).2 (surjective_pairing _)) as [H _].
  apply H. by left.
Defined.
