(* ===== verification/Projection.v ===== *)
(** * What a client is shown (bin/orvek/src/tui/host_projection.rs)

    A client of the host follows its journal and derives from each record what to show
    for one session: messages, tool calls and results, settled requests, and the events
    of the session's tasks. Records may arrive again after a reconnection; previews of a
    response arrive beside them. *)

From S2P Require Import Prelude Digest Contract State Artifacts Workspace Input ArtifactGraph Journal JsonValue Cost Conversation.
From S2P Require Import Representation Admission Session Context SessionStore SessionCommands JournalPage Submissions Media Decoder Capabilities.

Module HostWarning.
Inductive t : Type :=
| MonitorUnavailable
| MonitorStatusUnavailable
| EventIntakeStopped
| CompletionHookRecoveryFailed
| SessionNoticeUnavailable.
#[global] Instance eq_dec : EqDecision t.
Proof. solve_decision. Defined.
Definition message (w : t) : string :=
  match w with
  | MonitorUnavailable => "Trace monitoring failed. User tasks can continue; monitoring will retry."
  | MonitorStatusUnavailable =>
      "The monitor failure status could not be saved. This warning is available only in the current host process."
  | EventIntakeStopped =>
      "Background event intake stopped. Inspect pending events before restarting the host; do not replay uncertain effects."
  | CompletionHookRecoveryFailed =>
      "Completion-hook recovery failed. Inspect durable delivery records before restarting the host; do not replay uncertain effects."
  | SessionNoticeUnavailable =>
      "A session warning could not be saved. Some nonfatal diagnostics are missing from session history."
  end.
End HostWarning.

(** ** Frames (ipc.rs) *)

(** The event of a subagent is not looked at here. *)
Module WatchFrame.
Inductive t : Type :=
| Warnings (warnings : list HostWarning.t)
| Journal (record : JournalRecord.t)
| Preview (session request : Uuid) (delta : Delta.t)
| PreviewGap (dropped : N)
| Subagent (session : Uuid)
| Ready (after through : N).
End WatchFrame.

Module SessionAdmissionView.
Record t : Type := mk {
  version : N;
  binding : HarnessBinding.t;
  provenance : HarnessProvenance;
  authority : Digest;
  request_digest : Digest;
}.
Definition from (p : SessionAdmissionProfile.t) : t :=
  mk (SessionAdmissionProfile.version p) (SessionAdmissionProfile.binding p) (SessionAdmissionProfile.provenance p)
     (SessionAdmissionProfile.authority p) (SessionAdmissionProfile.request_digest p).
End SessionAdmissionView.

Module SessionView.
Record t : Type := mk {
  branch : SessionBranch.t;
  id : Uuid;
  revision : N;
  fork_cursor : SessionCursor.t;
  workspace : string;
  model : ModelSettings.t;
  context_window_tokens : N;
  admission : option SessionAdmissionView.t;
  parent : option SessionCursor.t;
  current_task : option Uuid;
  active_request : option Uuid;
  history_items : N;
  outcome : option Outcome.t;
  error : option string;
  journal_sequence : N;
  started_ms : N;
  title : option string;
  imported : option ImportedSource.t;
  cost_usd : UsdCost;
  cost_uncertain : bool;
}.
Definition from (state : SessionState.t) (journal_sequence : N) (cost : ProviderCostSummary.t) : t := {|
  fork_cursor := SessionState.fork_cursor state;
  branch := SessionState.branch state;
  id := SessionState.id state;
  revision := SessionState.revision state;
  workspace := SessionState.workspace state;
  model := SessionState.model state;
  context_window_tokens := SessionState.context_window_tokens state;
  admission := SessionAdmissionView.from <$> SessionState.admission state;
  parent := SessionState.parent state;
  current_task := SessionState.current_task state;
  active_request := SessionState.active_request state;
  history_items := N.of_nat (length (SessionState.history state));
  outcome := SessionState.outcome state;
  error := SessionState.error state;
  journal_sequence := journal_sequence;
  started_ms := SessionState.started_ms state;
  title := SessionState.title state;
  imported := SessionState.imported state;
  cost_usd := ProviderCostSummary.total cost;
  cost_uncertain := ProviderCostSummary.uncertain cost;
|}.
End SessionView.

(** ** Changes of the view *)

Module ViewChange.
Inductive t : Type :=
| WorkspaceSaved (seed : WorkspaceSeed.t)
| QueueChanged
| Submission (submission : Submission.t)
| SubmissionChanged (request : Uuid) (status : SubmissionStatus.t)
| HistoricalImport (manifest : Digest) (source_session : string)
| ProviderUsage (request : Uuid) (call : option Uuid) (usage : ModelUsage.t) (representation : option RepresentationObservation.t)
| ProviderCost (request call : Uuid) (cost_usd : option UsdCost)
| Session (config : SessionConfig.t) (parent : option SessionCursor.t) (started_ms : N)
| User (request : option Uuid) (text : string)
| RequestStarted (request : Uuid)
| Assistant (request : option Uuid) (item text : string) (replace confirmed final_answer : bool)
| Reasoning (request : option Uuid) (item text : string) (replace : bool)
| ToolProposed (request : option Uuid) (item_id : option string) (call_id name arguments : string)
| ToolArguments (request : option Uuid) (item_id chunk : string)
| ToolResult (request : option Uuid) (call_id output : string)
| RequestSettled (request : Uuid) (error : option string)
| Settings (settings : ModelSettings.t)
| TaskLinked (task : Uuid)
| ShellStarted (request : Uuid)
| ShellPublished (request : Uuid) (report : Digest)
| ReviewRecorded (feedback : Digest)
| Task (id : Uuid) (event : TaskEvent.t)
| TaskInput (job : Uuid) (arguments : Value)
| ContextProjected (source_revision items : N)
| DiscardPreviews
| Warning (message : string)
| Status (text : string).
End ViewChange.

(** ** Items of a history *)

(** The text of a part of a message. *)
Definition part_text (images : bool) (part : Value) : option string :=
  match as_str (index part "type") with
  | Some kind =>
      if str_eqb kind "input_text" || str_eqb kind "output_text" || str_eqb kind "text" then as_str (index part "text")
      else if str_eqb kind "refusal" then as_str (index part "refusal")
      else if (str_eqb kind "input_image" || str_eqb kind "tact_image") && images then Some "[Image]"
      else None
  | None => None
  end.
Definition content_text (content : Value) (images : bool) : string :=
  match as_str content with
  | Some text => text
  | None => from_option (λ parts, str_concat "" (omap (part_text images) parts)) "" (as_array content)
  end.

Definition item_type (item : Value) : string := default "message" (as_str (index item "type")).
Definition reasoning_text (item : Value) : string :=
  from_option (λ parts, str_concat (String "010" EmptyString) (omap (λ part, as_str (index part "text")) parts)) "" (as_array (index item "summary")).
(** The match on [item.get("phase")]. *)
Definition phase_final (item : Value) (inferred_final : bool) : bool :=
  match ModelUsage.get item "phase" with
  | Some (VString phase) => str_eqb phase "final_answer"
  | None | Some VNull => inferred_final
  | Some _ => false
  end.

(** The body of the loop of [project_items]. *)
Definition project_message (request : option Uuid) (inferred_final : bool) (item : Value) : list ViewChange.t :=
  match as_str (index item "role") with
  | Some role =>
      if str_eqb role "user" then [ViewChange.User request (content_text (index item "content") true)]
      else if str_eqb role "developer" then [ViewChange.Status ("Feedback: " +:+ content_text (index item "content") false)]
      else if str_eqb role "assistant" then
        [ViewChange.Assistant request (default "message" (as_str (index item "id"))) (content_text (index item "content") false)
           true true (phase_final item inferred_final)]
      else []
  | None => []
  end.
Definition project_item (request : option Uuid) (inferred_final : bool) (item : Value) : list ViewChange.t :=
  let kind := item_type item in
  if str_eqb kind "message" then project_message request inferred_final item
  else if str_eqb kind "function_call" then
    match as_str (index item "call_id"), as_str (index item "name"), as_str (index item "arguments") with
    | Some call_id, Some name, Some arguments => [ViewChange.ToolProposed request (as_str (index item "id")) call_id name arguments]
    | _, _, _ => []
    end
  else if str_eqb kind "function_call_output" then
    match as_str (index item "call_id"), as_str (index item "output") with
    | Some call_id, Some output => [ViewChange.ToolResult request call_id output]
    | _, _ => []
    end
  else if str_eqb kind "reasoning" then
    [ViewChange.Reasoning request (default "reasoning" (as_str (index item "id"))) (reasoning_text item) true]
  else [].
Definition project_items (request : option Uuid) (items : list Value) (inferred_final : bool) : list ViewChange.t :=
  items ≫= project_item request inferred_final.
Definition history_items (request : option Uuid) (items : list Value) : list ViewChange.t := project_items request items false.

(** A response with one message, and nothing but reasoning beside it, is an answer. *)
Definition answers (items : list Value) : bool :=
  (length (base.filter (λ item, value_is (index item "role") "assistant" = true) items) =? 1)%nat
  && forallb (λ item,
       let kind := item_type item in
       if str_eqb kind "reasoning" then true
       else if str_eqb kind "message" then
         value_is (index item "role") "assistant"
         && match as_str (index item "status") with None => true | Some status => str_eqb status "completed" end
       else false) items.

(** ** The projection *)

Module HostProjection.
Record t : Type := mk {
  tool_outputs : ToolOutputBuffers.t;
  session : Uuid;
  sequence : N;
  revision : N;
  recorded_ms : N;
  active_request : option Uuid;
  confirmed_items : gset string;
  auxiliary : gmap Uuid bool;
  tasks : gset Uuid;
  task_order : list Uuid;
  warnings : list HostWarning.t;
}.
#[global] Instance eta_t : Eta t := λ p,
  mk (tool_outputs p) (session p) (sequence p) (revision p) (recorded_ms p) (active_request p) (confirmed_items p)
     (auxiliary p) (tasks p) (task_order p) (warnings p).

Definition new (session : Uuid) (after : N) : t := mk ToolOutputBuffers.default session after 0 0 None ∅ ∅ ∅ [] [].
Definition cursor (p : t) : SessionCursor.t := SessionCursor.mk 1 (session p) (revision p).
(** [at_snapshot] *)
Definition at_snapshot (view : SessionView.t) : t :=
  let p := new (SessionView.id view) (SessionView.journal_sequence view) in
  let p := p <| revision := SessionView.revision view |> in
  let p := p <| active_request := SessionView.active_request view |> in
  match SessionView.current_task view with
  | Some task => p <| tasks := {[task]} ∪ tasks p |> <| task_order := task_order p ++ [task] |>
  | None => p
  end.

Definition MAX_AUXILIARY : nat := 128.
Definition MAX_TASKS : nat := 256.
(** [while len > 128 { pop_first }] *)
Definition newest (auxiliary : gmap Uuid bool) : gmap Uuid bool :=
  list_to_map (drop (size auxiliary - MAX_AUXILIARY) (btree_iter auxiliary)).
Definition classify_auxiliary (request : Uuid) (visible : bool) (p : t) : t :=
  let p := p <| auxiliary := <[request := visible]> (auxiliary p) |> in
  let p := if negb visible && bool_decide (active_request p = Some request) then p <| active_request := None |> else p in
  p <| auxiliary := newest (auxiliary p) |>.
Definition visible_request (p : t) (request : Uuid) : bool := negb (bool_decide (auxiliary p !! request = Some false)).

(** A request begins or ends to be shown. *)
Definition activate (request : Uuid) (p : t) : t := p <| active_request := Some request |> <| confirmed_items := ∅ |>.
Definition deactivate (request : Uuid) (p : t) : t :=
  if bool_decide (active_request p = Some request) then p <| active_request := None |> <| confirmed_items := ∅ |> else p.
(** [TaskLinked] *)
Definition link_task (task : Uuid) (p : t) : t :=
  if decide (task ∈ tasks p) then p else
  let p := p <| tasks := {[task]} ∪ tasks p |> <| task_order := task_order p ++ [task] |> in
  if (MAX_TASKS <? length (task_order p))%nat then
    match task_order p with
    | oldest :: rest => p <| task_order := rest |> <| tasks := tasks p ∖ {[oldest]} |>
    | [] => p
    end
  else p.
End HostProjection.

Definition tool_output_error (e : ToolOutputError.t) : string :=
  match e with
  | ToolOutputError.Part => "tool output part is out of order or belongs to another request"
  | ToolOutputError.End_ => "tool output end has no parts or its digest does not match"
  end.
Definition bool_text (b : bool) : string := if b then "true" else "false".

Section projection.
Context {SHA : Sha256} {SET : SerdeErrorText} `{!FromValue SessionEvent.t, !FromValue TaskEvent.t}.
(** The text of a [Uuid]. *)
Variable uuid_text : Uuid → string.
Implicit Types (p : HostProjection.t).

Definition auxiliary_item (request : Uuid) : string := "auxiliary-" +:+ uuid_text request.
Definition interpreter_text (event : InterpreterEvent.t) : string :=
  match event with
  | InterpreterEvent.Started cell _ _ _ _ _ _ => "Interpreter cell " +:+ uuid_text cell +:+ " running"
  | InterpreterEvent.CallStarted cell ordinal _ name _ =>
      "Interpreter " +:+ uuid_text cell +:+ "/" +:+ u128_to_string ordinal +:+ ": " +:+ name +:+ " pending"
  | InterpreterEvent.CallSettled cell ordinal result =>
      "Interpreter " +:+ uuid_text cell +:+ "/" +:+ u128_to_string ordinal +:+ ": receipt " +:+ digest_to_string result
  | InterpreterEvent.Settled cell _ _ state_lost =>
      "Interpreter cell " +:+ uuid_text cell +:+ " settled; live state lost: " +:+ bool_text state_lost
  end.

(** The arms of [session_event] for commands. *)
Definition project_command (operation : Uuid) (command : SessionCommand.t) p : HostProjection.t * list ViewChange.t :=
  match command with
  | SessionCommand.TraceRecorded _ _ | SessionCommand.ChildLifecycle _ | SessionCommand.ContextTransitioned _ => (p, [])
  | SessionCommand.Interpreter _ event => (p, [ViewChange.Status (interpreter_text event)])
  | SessionCommand.AdmissionPinned _ _ | SessionCommand.LegacyImportBound _ | SessionCommand.CompletionHook _ => (p, [])
  | SessionCommand.ReviewRecorded feedback => (p, [ViewChange.ReviewRecorded feedback])
  | SessionCommand.ShellStarted _ => (p, [ViewChange.ShellStarted operation])
  | SessionCommand.ShellPublished request report _ _ => (p, [ViewChange.ShellPublished request report])
  | SessionCommand.WorkspaceSaved _ seed => (p, [ViewChange.WorkspaceSaved seed])
  | SessionCommand.AuxiliaryStarted =>
      if bool_decide (HostProjection.auxiliary p !! operation = Some true)
      then (HostProjection.activate operation p, [ViewChange.RequestStarted operation]) else (p, [])
  | SessionCommand.AuxiliaryRecorded _ _ => (p, [])
  | SessionCommand.AuxiliaryPublished request _ text =>
      (HostProjection.deactivate request p,
       from_option (λ text, [ViewChange.Assistant (Some request) (auxiliary_item request) text true true true]) [] text)
  | SessionCommand.QueueEdited _ _ _ | SessionCommand.QueueMoved _ _ _ => (p, [ViewChange.QueueChanged])
  | SessionCommand.Submitted submission =>
      let preview_visible := match Submission.intent submission with
                             | WorkIntent.Auxiliary spec => Some (AuxiliarySpec.visible spec)
                             | WorkIntent.Ordinary _ _ _ => Some true
                             | _ => None
                             end in
      (from_option (λ visible, HostProjection.classify_auxiliary (Submission.id submission) visible p) p preview_visible,
       [ViewChange.Submission submission])
  | SessionCommand.SubmissionChanged request status => (p, [ViewChange.SubmissionChanged request status])
  | SessionCommand.Input _ content =>
      (HostProjection.activate operation p, ViewChange.RequestStarted operation :: history_items (Some operation) content)
  | SessionCommand.Response request items =>
      let p := if bool_decide (HostProjection.active_request p = Some request)
               then p <| HostProjection.confirmed_items := list_to_set (omap (λ item, as_str (index item "id")) items) ∪ HostProjection.confirmed_items p |>
               else p in
      (p, project_items (Some request) items (answers items))
  | SessionCommand.ProviderUsage request call usage representation => (p, [ViewChange.ProviderUsage request call usage representation])
  | SessionCommand.ProviderCost request call cost_usd => (p, [ViewChange.ProviderCost request call cost_usd])
  | SessionCommand.ToolResultPart request call_id offset output =>
      match ToolOutputBuffers.append (HostProjection.tool_outputs p) request call_id offset output with
      | Ok buffers => (p <| HostProjection.tool_outputs := buffers |>, [])
      | Err e => (p, [ViewChange.Warning (tool_output_error e)])
      end
  | SessionCommand.ToolResultEnd request call_id digest =>
      match ToolOutputBuffers.finish (HostProjection.tool_outputs p) request call_id digest with
      | Ok (buffers, output) => (p <| HostProjection.tool_outputs := buffers |>, [ViewChange.ToolResult (Some request) call_id output])
      | Err e => (p, [ViewChange.Warning (tool_output_error e)])
      end
  | SessionCommand.ToolResult request call_id output => (p, [ViewChange.ToolResult (Some request) call_id output])
  | SessionCommand.TaskLinked _ task => (HostProjection.link_task task p, [ViewChange.TaskLinked task])
  | SessionCommand.TurnSettled request _ error =>
      let hidden := bool_decide (HostProjection.auxiliary p !! request = Some false) in
      let p := p <| HostProjection.auxiliary := base.delete request (HostProjection.auxiliary p) |> in
      if hidden then (p, []) else (HostProjection.deactivate request p, [ViewChange.RequestSettled request error])
  | SessionCommand.SettingsChanged settings => (p, [ViewChange.Settings settings])
  | SessionCommand.ContextPrepared _ _ _ => (p, [])
  | SessionCommand.ContextProjected source_revision view projection =>
      (p, [ViewChange.ContextProjected source_revision
             (N.of_nat (length (from_option ContextView.input projection view)))])
  | SessionCommand.Feedback message => (p, [ViewChange.Status ("Feedback: " +:+ message)])
  end.
(** [HostProjection::session_event] *)
Definition project_session_event (event : SessionEvent.t) p : HostProjection.t * list ViewChange.t :=
  match event with
  | SessionEvent.Created c =>
      (p <| HostProjection.recorded_ms := SessionCreation.started_ms c |>,
       [ViewChange.Session (SessionCreation.config c) (SessionCreation.parent c) (SessionCreation.started_ms c)]
       ++ from_option (λ imported, [ViewChange.HistoricalImport (ImportedSource.manifest imported) (ImportedSource.source_session imported)])
            [] (SessionCreation.imported c)
       ++ history_items None (SessionCreation.history c))
  | SessionEvent.Command operation command at_ms => project_command operation command (p <| HostProjection.recorded_ms := at_ms |>)
  end.

(** The task a job was started for belongs to another session. *)
Definition foreign_job (session : Uuid) (event : TaskEvent.t) : bool :=
  match event with
  | TaskEvent.JobStarted job =>
      from_option (λ invocation, negb (JobInvocation.session invocation =? session)%N) false (Job.invocation job)
  | _ => false
  end.
(** [HostProjection::journal] *)
Definition project_record (record : JournalRecord.t) p : HostProjection.t * list ViewChange.t :=
  if (JournalRecord.sequence record <=? HostProjection.sequence p)%N then (p, []) else
  let '(p, changes) :=
    if str_eqb (JournalRecord.kind record) "session" && (JournalRecord.aggregate record =? HostProjection.session p)%N then
      let p := p <| HostProjection.revision := JournalRecord.revision record |> in
      match from_value (JournalRecord.event record) with
      | Some event => project_session_event event p
      | None => (p, [ViewChange.Warning ("Cannot display host session event: " +:+ serde_error_text)])
      end
    else if str_eqb (JournalRecord.kind record) "task" then
      if decide (JournalRecord.aggregate record ∈ HostProjection.tasks p) then
        match from_value (JournalRecord.event record) with
        | Some event => (p, if foreign_job (HostProjection.session p) event then [] else [ViewChange.Task (JournalRecord.aggregate record) event])
        | None => (p, [ViewChange.Warning ("Cannot display host task event: " +:+ serde_error_text)])
        end
      else (p, [])
    else (p, []) in
  (p <| HostProjection.sequence := JournalRecord.sequence record |>, changes).

Definition delta_item (delta : Delta.t) : option string :=
  match delta with
  | Delta.Text item_id _ | Delta.ReasoningSummary item_id _ | Delta.ToolArguments item_id _ => Some item_id
  | Delta.Created _ | Delta.ItemDone _ => None
  end.
Definition project_delta (request : Uuid) (delta : Delta.t) p : list ViewChange.t :=
  if from_option (λ item, bool_decide (item ∈ HostProjection.confirmed_items p)) false (delta_item delta) then [] else
  match delta with
  | Delta.Text item_id text =>
      [ViewChange.Assistant (Some request)
         (if bool_decide (is_Some (HostProjection.auxiliary p !! request)) then auxiliary_item request else item_id) text false false false]
  | Delta.ReasoningSummary item_id text => [ViewChange.Reasoning (Some request) item_id text false]
  | Delta.ToolArguments item_id arguments => [ViewChange.ToolArguments (Some request) item_id arguments]
  | Delta.Created _ | Delta.ItemDone _ => []
  end.
(** [HostProjection::apply] *)
Definition project_frame (frame : WatchFrame.t) p : HostProjection.t * list ViewChange.t :=
  match frame with
  | WatchFrame.Warnings warnings =>
      (p <| HostProjection.warnings := warnings |>,
       (λ w, ViewChange.Warning (HostWarning.message w)) <$> base.filter (.∉ HostProjection.warnings p) warnings)
  | WatchFrame.Journal record => project_record record p
  | WatchFrame.Subagent _ => (p, [])
  | WatchFrame.Preview session request delta =>
      (p, if (session =? HostProjection.session p)%N && bool_decide (HostProjection.active_request p = Some request)
          then project_delta request delta p else [])
  | WatchFrame.PreviewGap _ => (p, [ViewChange.DiscardPreviews])
  | WatchFrame.Ready _ _ => (p, [])
  end.
(** Frames as they arrive. *)
Fixpoint project_frames (frames : list WatchFrame.t) p : HostProjection.t * list ViewChange.t :=
  match frames with
  | [] => (p, [])
  | frame :: frames =>
      let '(p, changes) := project_frame frame p in
      let '(p, rest) := project_frames frames p in (p, changes ++ rest)
  end.
End projection.
