(* ===== verification/ProjectionGuarantees.v ===== *)
(** * What a client's projection guarantees

    Records that arrive again show nothing again; a tool result is shown only as the
    session recorded it. *)

From S2P Require Import Prelude Digest Contract State Artifacts Workspace Input ArtifactGraph Journal JsonValue Cost Conversation.
From S2P Require Import Representation Admission Session Context SessionStore SessionCommands JournalPage Submissions Media Decoder Capabilities.
From S2P Require Import Projection.

Section guarantees.
Context {SHA : Sha256} {SET : SerdeErrorText} `{!FromValue SessionEvent.t, !FromValue TaskEvent.t}.
Variable uuid_text : Uuid → string.
Implicit Types (p : HostProjection.t) (r : JournalRecord.t) (J : list JournalRecord.t).

(** ** Redelivery *)

#[local] Notation record := (project_record uuid_text).
#[local] Notation frames_from := (project_frames uuid_text).

Definition with_warnings (w : list HostWarning.t) p : HostProjection.t := p <| HostProjection.warnings := w |>.
(** A projection up to the warnings it last saw. *)
Definition durable p : HostProjection.t := with_warnings [] p.

Lemma project_command_warnings w operation command p :
  project_command uuid_text operation command (with_warnings w p) =
  let '(p', changes) := project_command uuid_text operation command p in (with_warnings w p', changes).
Proof.
  destruct p as [buffers session sequence revision recorded active confirmed auxiliary tasks order warnings].
  destruct command; try done; cbn.
  - by case_bool_decide.
  - unfold HostProjection.deactivate. cbn. by case_bool_decide.
  - destruct (Submission.intent submission); try done; cbn; unfold HostProjection.classify_auxiliary; cbn;
      destruct (_ && _); done.
  - by case_bool_decide.
  - destruct (ToolOutputBuffers.append _ _ _ _ _); done.
  - destruct (ToolOutputBuffers.finish _ _ _ _) as [[? ?]|]; done.
  - unfold HostProjection.link_task. cbn -[Nat.ltb]. case_decide; [done|]. destruct (Nat.ltb _ _); [|done]. by destruct (order ++ [task]).
  - case_bool_decide; [done|]. unfold HostProjection.deactivate. cbn. by case_bool_decide.
Qed.
Lemma project_record_warnings w r p :
  record r (with_warnings w p) = let '(p', changes) := record r p in (with_warnings w p', changes).
Proof.
  unfold project_record. change (HostProjection.sequence (with_warnings w p)) with (HostProjection.sequence p).
  change (HostProjection.session (with_warnings w p)) with (HostProjection.session p).
  change (HostProjection.tasks (with_warnings w p)) with (HostProjection.tasks p).
  destruct (_ <=? _)%N; [done|]. destruct (_ && _).
  - destruct (from_value _) as [[c|operation command at_ms]|]; [done| |done]. cbn [project_session_event].
    change (_ <| HostProjection.recorded_ms := at_ms |>) with
      (with_warnings w (p <| HostProjection.revision := JournalRecord.revision r |> <| HostProjection.recorded_ms := at_ms |>)) at 1.
    rewrite project_command_warnings. by destruct (project_command _ _ _ _).
  - destruct (str_eqb _ _); [|done]. case_decide; [|done]. by destruct (from_value _).
Qed.
Lemma project_command_place operation command p :
  HostProjection.sequence (project_command uuid_text operation command p).1 = HostProjection.sequence p ∧
  HostProjection.session (project_command uuid_text operation command p).1 = HostProjection.session p.
Proof.
  destruct p as [buffers session sequence revision recorded active confirmed auxiliary tasks order warnings].
  destruct command; try done; cbn.
  - by case_bool_decide.
  - unfold HostProjection.deactivate. cbn. by case_bool_decide.
  - destruct (Submission.intent submission); try done; cbn; unfold HostProjection.classify_auxiliary; cbn; destruct (_ && _); done.
  - by case_bool_decide.
  - destruct (ToolOutputBuffers.append _ _ _ _ _); done.
  - destruct (ToolOutputBuffers.finish _ _ _ _) as [[? ?]|]; done.
  - unfold HostProjection.link_task. cbn -[Nat.ltb]. case_decide; [done|]. destruct (Nat.ltb _ _); [|done]. by destruct (order ++ [task]).
  - case_bool_decide; [done|]. unfold HostProjection.deactivate. cbn. by case_bool_decide.
Qed.
Lemma project_record_sequence r p :
  HostProjection.sequence (record r p).1 = N.max (HostProjection.sequence p) (JournalRecord.sequence r).
Proof.
  unfold project_record. destruct (_ <=? _)%N eqn:Hle; [apply N.leb_le in Hle; cbn; lia|]. apply N.leb_gt in Hle.
  match goal with |- context [let '(_, _) := ?x in _] => destruct x as [p1 changes] end. cbn. lia.
Qed.
Lemma project_record_again r p : (JournalRecord.sequence r ≤ HostProjection.sequence p)%N → record r p = (p, []).
Proof. intros H. unfold project_record. apply N.leb_le in H. by rewrite H. Qed.
Lemma project_frame_other frame p :
  (∀ r, frame ≠ WatchFrame.Journal r) →
  durable (project_frame uuid_text frame p).1 = durable p ∧ HostProjection.sequence (project_frame uuid_text frame p).1 = HostProjection.sequence p.
Proof. intros H. by destruct frame as [|r| | | |]; [|destruct (H r)|..]. Qed.

(** The records among frames, and what is shown when they arrive. *)
Definition journal_of (frames : list WatchFrame.t) : list JournalRecord.t :=
  omap (λ frame, match frame with WatchFrame.Journal r => Some r | _ => None end) frames.
Fixpoint journal_changes (frames : list WatchFrame.t) p : list ViewChange.t :=
  match frames with
  | [] => []
  | frame :: frames =>
      let '(p', changes) := project_frame uuid_text frame p in
      (match frame with WatchFrame.Journal _ => changes | _ => [] end) ++ journal_changes frames p'
  end.

(** A journal delivered from a cursor with repetitions: each record is one that was due, or
    the next one. *)
Definition between J (a b : N) : list JournalRecord.t := base.filter (λ r, (a < JournalRecord.sequence r ≤ b)%N) J.
Inductive delivers J : N → list JournalRecord.t → Prop :=
| delivers_nil at_ : delivers J at_ []
| delivers_again at_ r rs : (JournalRecord.sequence r ≤ at_)%N → delivers J at_ rs → delivers J at_ (r :: rs)
| delivers_next at_ r rs : between J at_ (JournalRecord.sequence r) = [r] → delivers J (JournalRecord.sequence r) rs → delivers J at_ (r :: rs).

Lemma between_split J a b c :
  Sorted.StronglySorted (λ r r', (JournalRecord.sequence r < JournalRecord.sequence r')%N) J → (a ≤ b ≤ c)%N →
  between J a c = between J a b ++ between J b c.
Proof.
  intros HJ Habc. unfold between. induction HJ as [|r J HJ IH Hr]; [done|]. rewrite !filter_cons, IH.
  destruct (decide (a < JournalRecord.sequence r ≤ b)%N) as [H1|H1].
  - rewrite decide_True by lia. rewrite (decide_False (P := (b < JournalRecord.sequence r ≤ c)%N)) by lia. done.
  - destruct (decide (b < JournalRecord.sequence r ≤ c)%N) as [H2|H2].
    + rewrite decide_True by lia. assert (base.filter (λ r, (a < JournalRecord.sequence r ≤ b)%N) J = []) as ->; [|done].
      apply filter_none_in. intros r' Hin. rewrite Forall_forall in Hr. specialize (Hr r' Hin). lia.
    + by rewrite decide_False by lia.
Qed.
Definition clean_run J p (upto : N) : HostProjection.t * list ViewChange.t :=
  frames_from (WatchFrame.Journal <$> between J (HostProjection.sequence p) upto) p.
Lemma frames_warnings w frames p :
  (∀ frame, frame ∈ frames → ∃ r, frame = WatchFrame.Journal r) →
  frames_from frames (with_warnings w p) = let '(p', changes) := frames_from frames p in (with_warnings w p', changes).
Proof.
  revert p. induction frames as [|frame frames IH]; intros p H; [done|]. destruct (H frame) as [r ->]; [by left|].
  cbn [project_frames project_frame]. rewrite project_record_warnings. destruct (record r p) as [p1 changes].
  rewrite IH by (intros f Hf; apply H; by right). by destruct (project_frames _ frames p1).
Qed.
Lemma clean_run_durable J p q upto :
  durable p = durable q → durable (clean_run J p upto).1 = durable (clean_run J q upto).1 ∧ (clean_run J p upto).2 = (clean_run J q upto).2.
Proof.
  intros E. assert (p = with_warnings (HostProjection.warnings p) q) as ->.
  { destruct p, q. unfold durable, with_warnings in *. cbn in *. by injection E as -> -> -> -> -> -> -> -> -> ->. }
  unfold clean_run. change (HostProjection.sequence (with_warnings _ q)) with (HostProjection.sequence q).
  rewrite frames_warnings by (by intros f (r & -> & _)%list_elem_of_fmap; eexists).
  by destruct (project_frames _ _ q).
Qed.

(** However often records arrive again after reconnections, and whatever previews and
    warnings arrive among them: the client ends with the projection of the journal read
    once, up to the warnings, and shows at the arrival of records exactly what it shows
    reading the journal once. *)
Theorem redelivery_shows_once J frames p :
  Sorted.StronglySorted (λ r r', (JournalRecord.sequence r < JournalRecord.sequence r')%N) J →
  delivers J (HostProjection.sequence p) (journal_of frames) →
  let p' := (frames_from frames p).1 in
  (HostProjection.sequence p ≤ HostProjection.sequence p')%N ∧
  durable p' = durable (clean_run J p (HostProjection.sequence p')).1 ∧
  journal_changes frames p = (clean_run J p (HostProjection.sequence p')).2.
Proof.
  intros HJ. revert p. induction frames as [|frame frames IH]; intros p Hd; cbn zeta.
  { cbn. unfold clean_run, between. rewrite filter_none_in by (intros r _; lia). done. }
  assert (Hcons : frames_from (frame :: frames) p = ((frames_from frames (project_frame uuid_text frame p).1).1,
     (project_frame uuid_text frame p).2 ++ (frames_from frames (project_frame uuid_text frame p).1).2)).
  { cbn [project_frames]. destruct (project_frame _ frame p) as [p1 c1]. cbn. by destruct (project_frames _ frames p1). }
  rewrite Hcons. cbn [fst]. assert (Hcase : (∃ r, frame = WatchFrame.Journal r) ∨ ∀ r, frame ≠ WatchFrame.Journal r) by (destruct frame; eauto).
  destruct Hcase as [[r ->]|Hn].
  - cbn [journal_of omap list_omap] in Hd. cbn [journal_changes project_frame].
    inversion Hd as [|at_ r' rs Hle Hrest|at_ r' rs Hnext Hrest]; subst.
    + rewrite project_record_again by done. cbn [fst snd]. by apply IH.
    + assert (Hr : (HostProjection.sequence p < JournalRecord.sequence r)%N).
      { assert (Hin : r ∈ between J (HostProjection.sequence p) (JournalRecord.sequence r)) by (rewrite Hnext; by left).
        unfold between in Hin. apply list_elem_of_filter in Hin as [? _]. lia. }
      pose proof (project_record_sequence r p) as Hseq. destruct (record r p) as [p1 changes] eqn:Hrec. cbn [fst snd] in *.
      assert (Hp1 : HostProjection.sequence p1 = JournalRecord.sequence r) by lia.
      destruct (IH p1) as (Hle & Hdur & Hch); [by rewrite Hp1|]. split; [lia|].
      assert (Hrun : ∀ upto, (JournalRecord.sequence r ≤ upto)%N →
        clean_run J p upto = ((clean_run J p1 upto).1, changes ++ (clean_run J p1 upto).2)).
      { intros upto Hupto. unfold clean_run at 1. rewrite (between_split J _ (JournalRecord.sequence r)), Hnext by (done || lia).
        rewrite fmap_app, list_fmap_singleton. cbn [app project_frames project_frame]. rewrite Hrec. cbn beta iota. unfold clean_run. rewrite Hp1.
        match goal with |- (let (_, _) := ?x in _) = _ => by destruct x end. }
      rewrite Hrun by lia. cbn [fst snd]. split; [done|by rewrite Hch].
  - destruct (project_frame_other frame p Hn) as [Hdur Hseq]. destruct (project_frame uuid_text frame p) as [p1 changes] eqn:Hf. cbn [fst snd] in *.
    assert (Hd1 : delivers J (HostProjection.sequence p1) (journal_of frames)) by (rewrite Hseq; by destruct frame as [|r| | | |]; [|destruct (Hn r)|..]).
    destruct (IH p1 Hd1) as (Hle & Hdur' & Hch). rewrite Hseq in Hle. split; [done|].
    destruct (clean_run_durable J p1 p (HostProjection.sequence (frames_from frames p1).1) Hdur) as [E1 E2].
    rewrite <-E1, <-E2. split; [done|]. cbn [journal_changes]. rewrite Hf, Hch. by destruct frame as [|r| | | |]; [|destruct (Hn r)|..].
Qed.
(** ** Results *)

Context `{!Serde (list Value), !Serde SessionCommand.t, !Serde SessionConfig.t, !Serde RevisionManifest.t, !Serde Value,
  !Serde SessionAdmissionRequest.t, !Serde ModelSettings.t}.

(** A result of the call is in the history. *)
Definition result_recorded (history : list Value) (call_id output : string) : Prop := ∃ item,
  item ∈ history ∧ as_str (index item "call_id") = Some call_id ∧ as_str (index item "output") = Some output.
Lemma result_recorded_last history call_id output : result_recorded (history ++ [call_output call_id output]) call_id output.
Proof. exists (call_output call_id output). split; [|done]. apply elem_of_app. right. by left. Qed.

Lemma project_items_result request items inferred request' call_id output :
  ViewChange.ToolResult request' call_id output ∈ project_items request items inferred → result_recorded items call_id output.
Proof.
  intros (item & Hchange & Hitem)%list_elem_of_bind. exists item. split; [done|]. unfold project_item in Hchange.
  destruct (str_eqb _ "message").
  { unfold project_message in Hchange. destruct (as_str _); [|by apply elem_of_nil in Hchange].
    repeat (destruct (str_eqb _ _); [by apply list_elem_of_singleton in Hchange|]). by apply elem_of_nil in Hchange. }
  destruct (str_eqb _ "function_call").
  { destruct (as_str (index item "call_id")), (as_str (index item "name")), (as_str (index item "arguments"));
      first [by apply elem_of_nil in Hchange|by apply list_elem_of_singleton in Hchange]. }
  destruct (str_eqb _ "function_call_output").
  { destruct (as_str (index item "call_id")), (as_str (index item "output")); try by apply elem_of_nil in Hchange.
    apply list_elem_of_singleton in Hchange. by injection Hchange as <- <- <-. }
  destruct (str_eqb _ _); [by apply list_elem_of_singleton in Hchange|by apply elem_of_nil in Hchange].
Qed.

Lemma commit_history s operation command s' :
  Session.Apply.commit s operation command = Ok s' → SessionState.history s' = SessionState.history s.
Proof. unfold Session.Apply.commit. intros (d & _ & [= <-])%rbind_Ok. by case_bool_decide. Qed.

Lemma finish_digest buffers request call_id digest buffers' text :
  ToolOutputBuffers.finish buffers request call_id digest = Ok (buffers', text) → digest_of text = digest.
Proof.
  unfold ToolOutputBuffers.finish. intros (pending & _ & (? & Hno%reject_if_Ok & [= _ <-])%rbind_Ok)%rbind_Ok.
  apply orb_false_iff in Hno as [_ Hd%bool_decide_eq_false]. by apply dec_stable in Hd.
Qed.

(** When the session takes over a command, what the client shows as the result of a call
    is in the session's history, under the call's identifier and with the same digest; a
    result that was recorded in parts is put together by the client, and every other
    result is shown to the letter. *)
Theorem shown_results_recorded hook_id s s' operation command p request call_id output :
  Session.Apply.apply hook_id uuid_text s operation command = Ok s' →
  ViewChange.ToolResult request call_id output ∈ (project_command uuid_text operation command p).2 →
  ∃ recorded, result_recorded (SessionState.history s') call_id recorded ∧ digest_of recorded = digest_of output ∧
    ((∀ request digest, command ≠ SessionCommand.ToolResultEnd request call_id digest) → recorded = output).
Proof.
  unfold Session.Apply.apply. intros (s1 & Heff & Hcommit%commit_history)%rbind_Ok Hshown. rewrite Hcommit.
  destruct command; cbn [project_command snd] in Hshown; try (by apply elem_of_nil in Hshown); try (by apply list_elem_of_singleton in Hshown).
  - by case_bool_decide; [apply list_elem_of_singleton in Hshown|apply elem_of_nil in Hshown].
  - by destruct text; [apply list_elem_of_singleton in Hshown|apply elem_of_nil in Hshown].
  - apply elem_of_cons in Hshown as [|(item & Hin & Hfields)%project_items_result]; [done|]. exists output. split; [|done].
    exists item. split; [|done]. cbn in Heff. apply rbind_Ok in Heff as (digests & _ & [= <-]). cbn. apply elem_of_app. by right.
  - apply project_items_result in Hshown as (item & Hin & Hfields). cbn in Heff. injection Heff as <-. exists output. split; [|done].
    exists item. split; [|done]. cbn. apply elem_of_app. by right.
  - apply list_elem_of_singleton in Hshown. injection Hshown as -> -> ->. cbn in Heff. injection Heff as <-. exists output0. split; [|done].
    apply result_recorded_last.
  - by destruct (ToolOutputBuffers.append _ _ _ _ _); [apply elem_of_nil in Hshown|apply list_elem_of_singleton in Hshown].
  - destruct (ToolOutputBuffers.finish (HostProjection.tool_outputs p) _ _ _) as [[buffers text]|e] eqn:Hfinish; cbn in Hshown;
      apply list_elem_of_singleton in Hshown; [|done]. injection Hshown as -> -> ->. cbn in Heff.
    apply rbind_Ok in Heff as (? & _ & ([buffers' recorded] & Hrec%map_err_Ok & [= <-])%rbind_Ok). exists recorded.
    split; [apply result_recorded_last|]. apply finish_digest in Hfinish as ->. apply finish_digest in Hrec as ->. split; [done|].
    intros H. by destruct (H request0 digest).
  - destruct (bool_decide _); cbn in Hshown; [by apply elem_of_nil in Hshown|by apply list_elem_of_singleton in Hshown].
Qed.
(** ** Parts that a settled request leaves behind *)

(** The session forgets the parts of a result when its request is settled; the client keeps
    them. A later request that reuses the identifier of the call has its result recorded,
    and the client shows two warnings in its place. *)
Lemma settled_parts_stay hook_id s p operation first second call_id text more outcome error :
  HostProjection.tool_outputs p !! call_id = Some (PendingOutput.mk first text) → first ≠ second → more ≠ "" →
  let settled := SessionCommand.TurnSettled first outcome error in
  let part := SessionCommand.ToolResultPart second call_id 0 more in
  let end_ := SessionCommand.ToolResultEnd second call_id (digest_of more) in
  let p1 := (project_command uuid_text operation settled p).1 in
  (∃ s1 buffers, Session.Apply.effect hook_id uuid_text s operation settled = Ok s1 ∧
     ToolOutputBuffers.append (SessionState.tool_output_buffers s1) second call_id 0 more = Ok buffers ∧
     ToolOutputBuffers.finish buffers second call_id (digest_of more) = Ok (∅, more)) ∧
  project_command uuid_text operation part p1 = (p1, [ViewChange.Warning (tool_output_error ToolOutputError.Part)]) ∧
  project_command uuid_text operation end_ p1 = (p1, [ViewChange.Warning (tool_output_error ToolOutputError.End_)]).
Proof.
  intros Hp Hne Hmore settled part end_ p1.
  assert (Hp1 : HostProjection.tool_outputs p1 = HostProjection.tool_outputs p).
  { unfold p1, settled. cbn. case_bool_decide; [done|]. unfold HostProjection.deactivate. cbn. by case_bool_decide. }
  assert (Hreq : (first =? second)%N = false) by by apply N.eqb_neq.
  assert (Hempty : str_is_empty more = false) by by destruct more.
  split_and!.
  - eexists _, {[call_id := PendingOutput.mk second more]}. split; [reflexivity|].
    cbn [SessionState.tool_output_buffers]. assert (Hnone : ToolOutputBuffers.default !! call_id = None) by apply lookup_empty.
    split.
    + change (ToolOutputBuffers.append ToolOutputBuffers.default second call_id 0 more = Ok {[call_id := PendingOutput.mk second more]}).
      unfold ToolOutputBuffers.append. rewrite Hempty, Hnone. cbn. by rewrite N.eqb_refl.
    + set (buffers := {[call_id := PendingOutput.mk second more]} : ToolOutputBuffers.t).
      assert (Hsome : buffers !! call_id = Some (PendingOutput.mk second more)) by apply lookup_singleton_eq.
      assert (Hdel : base.delete call_id buffers = ∅) by apply delete_singleton_eq.
      unfold ToolOutputBuffers.finish. rewrite Hsome. cbn. rewrite N.eqb_refl, Hdel. by rewrite bool_decide_false by (intros []; done).
  - unfold part. cbn [project_command]. unfold ToolOutputBuffers.append. rewrite Hp1, Hp. cbn. rewrite Hempty, Hreq. done.
  - unfold end_. cbn [project_command]. unfold ToolOutputBuffers.finish. rewrite Hp1, Hp. cbn. by rewrite Hreq.
Qed.
End guarantees.
